(* ===== verification/_CoqProject ===== *)
-Q . S2P
Prelude.v
RustStr.v
Result.v
Tasks.v
F64.v
Xdr.v
Types.v
Host.v
HostLogic.v
RefHost.v
Events.v
Storage.v
Upgrade.v
Governance.v
Tokens.v
Adapters.v
Fees.v
Swap.v
Router.v
Contract.v
Scenarios.v
Invariants.v
GovernanceProps.v
UpgradeProps.v
FeesProps.v
SwapProps.v
MevProps.v
RateProps.v
TokensProps.v
AccessProps.v
RouterProps.v
ChainAsset.v
ChainAssetProps.v
Policy.v
Pathfinder.v
PathfinderProps.v
Health.v
HealthProps.v
Optimizer.v
OptimizerProps.v
RoutingTools.v
CctpTypes.v
CctpMessage.v
CctpMessageProps.v
CctpCrypto.v
CctpTrust.v
CctpTrustProps.v
CctpStore.v
CctpStoreLogic.v
CctpStoreProps.v
CctpLocks.v
CctpLocksProps.v
CctpEncoding.v
CctpEncodingProps.v
CctpConfig.v
Soroban.v
ChainRpc.v
EvmVerify.v
StellarVerify.v
VerifyProps.v
CctpCalls.v
CctpService.v
CctpSaga.v
CctpSagaLogic.v
CctpServiceLogic.v
CctpServiceProps.v
BridgeProps.v
ApiErrors.v
SwapRoute.v
SwapTx.v
Builders.v
BuildProps.v
Broadcast.v
SwapFlow.v
SwapFlowLogic.v
SwapFlowProps.v
Card.v
CardReconcile.v
CardStore.v
CardProps.v
