(* ===== verification/Prelude.v ===== *)
(** * StellarRoute: a verification development

    StellarRoute aggregates liquidity on Stellar. Its Rust workspace has a Soroban
    router contract (crates/contracts), a library of route discovery and asset
    identifiers (crates/routing), an API server (crates/api) whose own logic is a
    bridge between Stellar and Ethereum over Circle's CCTP, the preparation and
    submission of swaps and a card program, an indexer and an SDK.
    This library models the contract completely, the part of the routing library that
    decides which routes exist, which venues are used and which route is chosen, and the
    parts of the server that decide whether money moves, and proves what makes them
    correct.

    ** Parts, files and sources

    Foundations. Prelude: machine integers ([IntTy], [chk], [clamp], [wrap]), bytes in
    big-endian order, sums, a stable sort. RustStr: Rust strings as lists of code points. Result:
    [Result] with the [?] operator and the tactic [rinv], updates of records with many
    fields. Tasks: asynchronous handlers as programs of single calls,
    systems of concurrent tasks, and the rule by which programs that keep to a protocol
    keep its invariant; the bridge service, the swap handlers and the card handlers are
    instances; [returns]: what a program may return when the outside answers as it likes.
    F64: Rust's [f64] over the Standard Library's specification of binary64, rounding, and
    when an operation gives a number. Xdr: the types of stellar_xdr that the server looks
    at, with its codecs and SHA-256 as parameters.

    The contract (crates/contracts/src). It runs inside the Soroban host, whose code is
    not in the repository: Host is the interface the contract uses (a monad over the
    world with the storages, the calls to tokens and pools, hashing, authorization and
    events) with the laws the contract relies on ([HostOk]); HostLogic is the calculus
    the proofs use; RefHost is an executable host that satisfies the laws, on which
    every concrete run is evaluated.
    - Types: types.rs, errors.rs, the keys of storage.rs and tokens.rs. Host also has the
      events of events.rs as a log.
    - Events, Storage, Upgrade, Governance, Tokens, Adapters: the modules of the same
      names (Adapters also constant_product_adapter.rs), function for function.
    - Fees, Swap, Router: router.rs in three parts: fee distribution, execution of
      swaps with rate limiting and commit-reveal, and the other entry points.
    - Contract: the entry points as a type of calls, invocations as atomic steps, and
      [history], the runs of the contract among other contracts and ledgers.
    - Scenarios: concrete histories that instantiate the theorems.

    Route discovery (crates/routing/src).
    - ChainAsset: chain_asset.rs and error.rs, identifiers, printers, parsers and
      canonicalization.
    - Policy: cross_chain.rs and policy.rs. Pathfinder: pathfinder.rs, the graph, the
      breadth-first search and the policy filter.
    - Health: health/circuit_breaker.rs, scorer.rs, freshness.rs, policy.rs and filter.rs,
      which venues may be used, with scores in binary64.
    - Optimizer: a Module each for impact.rs (Impact), risk.rs (Risk), compaction.rs
      (Compaction), scorer.rs (Scorer), optimizer.rs (Optimizer) and simulator.rs
      (Simulator): prices of order books and pools, limits on risk, the compact graph, and
      the choice among the paths that Pathfinder finds in it.
    - RoutingTools: a Module each for normalization.rs, amm_fallback.rs,
      adaptive_timeout.rs, adaptive_routing.rs, execution_quality.rs, consensus.rs and
      health/anomaly.rs, with the theorems on them.

    The bridge (crates/api/src/cctp).
    - CctpTypes: transitions.rs, bounds.rs and the enumerations of models/v2_cctp.rs.
    - CctpMessage: message.rs, the wire format, its parser and its validation.
    - CctpCrypto: attestation_crypto.rs, signatures, order and threshold of signers.
    - CctpTrust: attester_set.rs, attestation_trust.rs and attestation.rs, the validated
      attester sets, the cache that several tasks share, and the verifier.
    - CctpStore: the in-memory store of store.rs with every operation of its trait;
      CctpStoreLogic is the calculus its proofs use.
    - CctpLocks: the in-memory stores of idempotency.rs and prepare_lock.rs.
    - CctpEncoding: encoding.rs and expectations.rs, amounts, addresses, and what a
      transfer makes the bridge expect of its message; what verifiers and builders say
      (verifiers.rs, approval.rs, builders/mod.rs).
    - CctpConfig: the validation of config.rs and of the quote requests of
      models/v2_cctp.rs.
    - Soroban: stellar_contract_events.rs, stellar_muxed.rs, stellar_payload.rs, stellar_tx.rs
      and builders/stellar/encoder.rs, contract values, events and invocations. ChainRpc:
      evm_rpc.rs and stellar_rpc.rs, the JSON-RPC clients as programs of requests to a
      node. EvmVerify and StellarVerify: the verifiers of burns, mints and approvals
      (evm_burn_verifier.rs, evm_mint_verifier.rs, evm_approval_verifier.rs,
      evm_allowance.rs and their Stellar counterparts), programs over ChainRpc. Builders:
      builders/evm.rs, builders/stellar/mod.rs, stellar_builder_simulation.rs,
      stellar_sequence.rs and stellar_trustline.rs, the unsigned transactions that are
      prepared, programs over ChainRpc, a Horizon server and the clock.
    - CctpCalls: what the service calls, the traits of verifiers.rs, iris.rs and
      builders/mod.rs. CctpService: every
      handler of service.rs as such a program, with prepare_payload_cache.rs.
      CctpSaga: handlers running concurrently as a step relation with a history of
      calls and replies; CctpSagaLogic and CctpServiceLogic are its proof rules and
      their application to each handler.

    The pieces meet as in the code: a transfer of the store yields expectations
    (CctpEncoding), a message from Circle is parsed and compared with them (CctpMessage),
    its attestation is checked against the trust cache (CctpTrust over CctpCrypto), and
    the store moves the transfer on (CctpStore over CctpTypes). The service
    (CctpService) drives this for every transfer; it sees the verifiers as traits, and so
    does its model. BridgeProps puts the verifiers (EvmVerify, StellarVerify) in the place
    of the traits.

    Swaps (crates/api/src).
    - ApiErrors: error.rs, errors and their HTTP responses.
    - SwapRoute: swap/venue.rs, swap/route.rs, swap/price.rs, the parser of assets of
      models/request.rs and kill_switch.rs. SwapTx: swap/tx.rs, the transaction that is
      built and the validation of the signed envelope, and the in-memory store of
      swap/store.rs. Broadcast: broadcast/mod.rs.
    - SwapFlow: the two handlers of routes/swap.rs as programs over the store and the
      outside. SwapFlowLogic: the protocol they keep to, with the history of calls as
      evidence. SwapFlowProps also has a concrete server.

    Cards (crates/api/src/card).
    - Card: auth_state.rs, ledger.rs, limits.rs, mcc.rs, fiat.rs and reconcile.rs.
      CardStore: store.rs (in memory) and the handlers of mod.rs as programs.

    ** What the theorems show

    - GovernanceProps: every call moves every proposal along an abstract life cycle
      (a refinement), no proposal takes effect without a quorum, none is closed twice.
    - AccessProps: privileged entries change only with authority, the switch to
      multi-sig is one-way, the signer set stays sound; and how a duplicate signer or a
      registered pool breaks the bookkeeping.
    - UpgradeProps: the time lock of upgrades and that migration never blocks one.
    - Invariants: the fee cap and the fee configuration in every reachable state.
    - FeesProps: a distribution pays out exactly the balance, except when the treasury
      is not the last recipient; shares of very large balances are cut.
    - SwapProps, MevProps, RateProps: what an executed swap implies about guards, flow
      of tokens up to the final state and accounting; commit-reveal; the rate limit over
      whole runs under one configuration, and how a change of it is missed.
    - TokensProps, RouterProps: the allowlist, route validation against execution, quotes
      against execution, the constant-product quote.
    - ChainAssetProps: printing and parsing are inverse, canonicalization is idempotent.
    - PathfinderProps: the search ends and returns exactly the admissible simple routes,
      shortest first, and no route the policy excludes.
    - HealthProps: scores are numbers between 0 and 1 when the limits are positive (and
      NaN when one is zero), the registry of breakers refines a machine with three
      states per venue for timeouts that fit, the filtered graph holds exactly the usable edges, and a venue
      with stale data is not routed through.
    - OptimizerProps: the compact graph loses nothing and is updated in place as if it were
      rebuilt; an optimizer whose policies and scorers give numbers chooses the best of
      exactly the valid routes that are within all limits, and does not panic; quotes of
      pools whose products do not wrap never give away value and the reverse quote asks for
      enough; books are consumed level by level;
      simulated outages are felt; the reported impact of a pool is inverted, and weights
      that are not numbers make the optimizer panic.
    - RoutingTools: decimals are read exactly, normalized liquidity is a book that the
      calculator accepts, the best tier of data is used, measured latencies are not lost
      under any interleaving, timeouts, budgets, weights and scores keep their bounds (weights
      unless a score was not a number), and the winner of a consensus has the highest score.
    - CctpMessageProps: the parser accepts exactly the documented layout, each error has
      its own inputs, validation accepts exactly what the corridor expects.
    - CctpCrypto: binary search is right on sorted sets; an attestation is accepted
      exactly if it is the signatures of as many distinct enabled signers as required.
    - CctpTrustProps: whatever tasks interleave, the cache holds validated sets only and
      an accepted attestation has a quorum of a set that is not stale; a cache past its
      stale limit never recovers.
    - CctpStoreProps: over all runs, transfers follow their stages, evidence of a burn is
      used once, updates are not lost, poll leases exclude each other, and failures write
      nothing, with one exception.
    - CctpLocksProps: a claimed idempotency key keeps its transfer, a completed key has
      it in the store, a source account is held by one transfer at a time.
    - CctpServiceProps: however handlers interleave, what a transfer says is backed by
      what verifiers showed for this transfer, and a completed one was delivered to its
      recipient; a mint that fails after its submission can never be completed.
    - VerifyProps: whatever a node says, if a verifier reports a burn, a delivery or an
      approval, then the node showed the successful transaction and exactly one event that
      says so; facts of a burn that match a transfer are that transfer's burn; a sender
      with upper-case digits and an unlimited approval are refused.
    - BridgeProps: a completed transfer was burned on one chain and delivered on the other.
    - BuildProps: what the builders prepare is what the verifiers accept: the prepared burn
      on Ethereum, executed and reported as nodes do, is verified as the transfer's; the
      prepared calls on Stellar are read as the transfer's whatever their signatures; after
      the deadline of a quote no burn is recorded and no mint prepared.
    - CctpEncodingProps: amounts are rounded down and the rest is reported, units convert
      without loss, and an accepted message pays the transfer's amount to its recipient.
    - SwapFlowProps: however prepares and submits interleave, only the transaction that
      was prepared (up to a collision of digests) and that its source signed is broadcast, a quote that is recorded as
      submitted is known to the network, and quotes only move along their life cycle.
    - CardReconcile: an empty report means exactly that every named authorization balances.
      CardProps: held and spent amounts are what the calls approved, captured and refunded
      since the last approval or reversal, under all interleavings; the ledger conserves its total; no handler
      panics within the bounds of the amounts.

    ** Modelling choices, bounds and fuel

    Integers are [Z] with the range of their type checked, clamped or wrapped where the
    source does so; whether plain arithmetic traps or wraps is a parameter where a
    theorem depends on it. Errors are values, and a failing contract call reverts, while
    a failing store operation keeps what it has written. Clocks, hashes, signature
    recovery, hexadecimal and strkey codecs, pools and tokens are parameters: classes
    whose laws are stated next to them, each with an instance that satisfies them; so
    are the codec of stellar_xdr, which reads what it writes ([SwapTx.XdrOk]), the digest of
    an envelope, of which nothing is assumed, serde_json's reading of a node's answer ([ChainRpc.RpcJson])
    and alloy's ABI codec ([EvmVerify.EvmAbi]), of which nothing is assumed except in
    BuildProps, where a codec reads what it writes ([BuildProps.AbiOk], [BuildProps.StellarOk]).
    - [Pathfinder.bfs_paths] iterates with [bfs_fuel], computed from the graph and the hop
      limit; the search is proved to end within it ([PathfinderProps.bfs_total]).
    - [RustStr.display] prints at most 39 digits, enough for every 128-bit number.
    - [CctpCrypto.search_base] has the length of the slice as fuel, which its range never
      exceeds ([CctpCrypto.search_base_bracket]).
    - Versions and counters wrap at their width; [no_lost_update] says for how long a
      wrapping version protects, and the theorems on the service are about runs of fewer
      than 2^31 - 2 calls, in which no version wraps; the counters of a breaker do not
      overflow within 2^32 calls.
    - Programs of handlers are finite trees; no fuel is needed to run them.
    - [F64.format7] prints at most 309 digits before the point, enough for every finite
      number.

    ** Not modelled, and why

    The PostgreSQL stores and the database queries of the indexer and the API: SQL that a
    server runs. The other HTTP handlers of the API with its caches, queues and rate limits,
    the HTTP gate of the bridge with its readiness probes and the Iris client, and the CLI:
    mostly input and output around what is modelled. The parts of the routing library that
    record and compare runs: snapshots, canaries and regressions. Serde representations,
    metrics and traces, and the code in other languages. *)

From stdpp Require Import base decidable list gmap strings numbers sorting.
From Stdlib Require Import ZArith Lia.

Local Open Scope Z_scope.

(** ** Machine integers

    A Rust integer is a [Z] kept inside the range of its type. [IntTy] names the
    types the program uses; the operations below are the ones of Rust's
    standard library ([checked_*], [saturating_*]) and the wrap-around that a
    build without overflow checks performs. *)
Inductive IntTy := U16 | U32 | U64 | U128 | I32 | I64 | I128.

Definition int_min (t : IntTy) : Z :=
  match t with U16 | U32 | U64 | U128 => 0 | I32 => - 2 ^ 31 | I64 => - 2 ^ 63 | I128 => - 2 ^ 127 end.

Definition int_max (t : IntTy) : Z :=
  match t with U16 => 2 ^ 16 - 1 | U32 => 2 ^ 32 - 1 | U64 => 2 ^ 64 - 1 | U128 => 2 ^ 128 - 1 | I32 => 2 ^ 31 - 1 | I64 => 2 ^ 63 - 1 | I128 => 2 ^ 127 - 1 end.

Definition in_range (t : IntTy) (z : Z) : bool :=
  (int_min t <=? z) && (z <=? int_max t).

(** [fits t z]: [z] is a value of the machine type [t]. *)
Definition fits (t : IntTy) (z : Z) : Prop := int_min t <= z <= int_max t.

Definition chk (t : IntTy) (z : Z) : option Z :=
  if in_range t z then Some z else None.

Definition checked_add (t : IntTy) (a b : Z) : option Z := chk t (a + b).

Definition checked_sub (t : IntTy) (a b : Z) : option Z := chk t (a - b).

Definition checked_mul (t : IntTy) (a b : Z) : option Z := chk t (a * b).

(** Rust's integer division truncates toward zero; [checked_div] is [None] on a
    zero divisor and on the one overflowing case [MIN / -1]. *)
Definition checked_div (t : IntTy) (a b : Z) : option Z :=
  if b =? 0 then None else chk t (Z.quot a b).

Definition clamp (t : IntTy) (z : Z) : Z := Z.max (int_min t) (Z.min z (int_max t)).

Definition saturating_add (t : IntTy) (a b : Z) : Z := clamp t (a + b).

Definition saturating_sub (t : IntTy) (a b : Z) : Z := clamp t (a - b).

Definition saturating_mul (t : IntTy) (a b : Z) : Z := clamp t (a * b).

(** Two's-complement wrap-around into the range of [t]. *)
Definition wrap (t : IntTy) (z : Z) : Z :=
  (z - int_min t) mod (int_max t - int_min t + 1) + int_min t.

(** Plain arithmetic on [t]: with overflow checks it panics out of range ([None]),
    without it wraps around. *)
Definition plain (checks : bool) (t : IntTy) (z : Z) : option Z := if checks then chk t z else Some (wrap t z).

(** ** Bytes

    A byte is a [Z] between 0 and 255, a byte string a list of them. *)
Definition is_byte (b : Z) : Prop := 0 <= b < 256.

(** An array of [n] bytes. *)
Definition byte_array (n : nat) (l : list Z) : Prop := length l = n ∧ Forall is_byte l.

(** [be_bytes n v]: the [n] low-order bytes of [v], most significant first
    (Rust's [to_be_bytes] on an integer of [n] bytes; a negative value is
    written in two's complement). *)
Fixpoint be_bytes (n : nat) (v : Z) : list Z :=
  match n with
  | O => []
  | S n' => be_bytes n' (v / 256) ++ [v mod 256]
  end.

(** [be_value l]: the unsigned value of a big-endian byte string
    (Rust's [from_be_bytes] on unsigned types). *)
Definition be_value (l : list Z) : Z := fold_left (λ acc b, acc * 256 + b) l 0.

(** ** Lists *)

(** The sum of a measure over a list. *)
Definition sum_of {A} (f : A → Z) (l : list A) : Z := foldr (λ x acc, f x + acc) 0 l.

(** ** Facts on machine integers *)

(** A stable sort, as [sort_by] and [sort_by_key] are; [before x y]: [x] is to come before [y]. *)
Fixpoint insert_by {A} (before : A → A → bool) (x : A) (l : list A) : list A :=
  match l with
  | [] => [x]
  | y :: l' => if before x y then x :: l else y :: insert_by before x l'
  end.

Definition stable_sort {A} (before : A → A → bool) (l : list A) : list A := fold_left (λ acc x, insert_by before x acc) l [].

Create HintDb machine_int discriminated.

Lemma in_range_spec t z : in_range t z = true ↔ fits t z.
Proof. unfold in_range, fits. rewrite andb_true_iff, !Z.leb_le. tauto. Qed.

Lemma chk_Some t z z' : chk t z = Some z' ↔ z' = z ∧ fits t z.
Proof.
  unfold chk. destruct (in_range t z) eqn:E.
  - apply in_range_spec in E. naive_solver.
  - split; [done|]. intros [_ Hf]. apply in_range_spec in Hf. congruence.
Qed.

Lemma chk_None t z : chk t z = None ↔ ¬ fits t z.
Proof.
  unfold chk. destruct (in_range t z) eqn:E.
  - apply in_range_spec in E. naive_solver.
  - split; [|done]. intros _ Hf. apply in_range_spec in Hf. congruence.
Qed.

Lemma chk_fits t z : fits t z → chk t z = Some z.
Proof. intros. by apply chk_Some. Qed.

Lemma clamp_fits t z : fits t (clamp t z).
Proof. unfold fits, clamp. destruct t; cbn; lia. Qed.

Lemma clamp_id t z : fits t z → clamp t z = z.
Proof. unfold fits, clamp. lia. Qed.

Lemma wrap_fits t z : fits t (wrap t z).
Proof.
  unfold fits, wrap. pose proof (Z.mod_pos_bound (z - int_min t) (int_max t - int_min t + 1)) as H.
  destruct t; cbn in *; lia.
Qed.

Lemma wrap_id t z : fits t z → wrap t z = z.
Proof.
  unfold fits, wrap. intros H. rewrite Z.mod_small; [lia|]. destruct t; cbn in *; lia.
Qed.

(** Arithmetic that stays in range does the same in both builds. *)
Lemma plain_fits checks t z : fits t z → plain checks t z = Some z.
Proof. intros Hz. unfold plain. destruct checks; [by apply chk_fits|by rewrite wrap_id]. Qed.

Lemma wrap_add_l t a b : wrap t (wrap t a + b) = wrap t (a + b).
Proof.
  unfold wrap. set (m := int_max t - int_min t + 1).
  replace ((a - int_min t) mod m + int_min t + b - int_min t) with ((a - int_min t) mod m + b) by lia.
  rewrite Zplus_mod_idemp_l. do 2 f_equal. lia.
Qed.

(** Fewer steps than the width has values do not come back to the start. *)
Lemma wrap_add_ne t a k : 0 < k <= int_max t - int_min t → wrap t (a + k) ≠ a.
Proof.
  unfold wrap. intros Hk E.
  pose proof (Z.div_mod (a + k - int_min t) (int_max t - int_min t + 1)) as Hd.
  destruct t; cbn in *; lia.
Qed.

Lemma checked_div_Some t a b q : checked_div t a b = Some q ↔ b ≠ 0 ∧ q = Z.quot a b ∧ fits t q.
Proof.
  unfold checked_div. destruct (Z.eqb_spec b 0); [naive_solver|].
  rewrite chk_Some. naive_solver.
Qed.

#[export] Hint Resolve chk_fits clamp_fits wrap_fits : machine_int.

(** ** Facts on bytes *)

Lemma length_be_bytes n v : length (be_bytes n v) = n.
Proof. revert v; induction n as [|n IH]; intros v; cbn; [done|]. rewrite length_app, IH. cbn. lia. Qed.

Lemma be_bytes_byte n v : Forall is_byte (be_bytes n v).
Proof.
  revert v; induction n as [|n IH]; intros v; cbn; [constructor|].
  apply Forall_app; split; [apply IH|]. repeat constructor; unfold is_byte; pose proof (Z.mod_pos_bound v 256); lia.
Qed.

Lemma be_value_app l b : be_value (l ++ [b]) = be_value l * 256 + b.
Proof. unfold be_value. by rewrite fold_left_app. Qed.

Lemma be_value_be_bytes n v : be_value (be_bytes n v) = v mod 256 ^ Z.of_nat n.
Proof.
  revert v; induction n as [|n IH]; intros v.
  - cbn. by rewrite Z.mod_1_r.
  - cbn [be_bytes]. rewrite be_value_app, IH.
    rewrite Nat2Z.inj_succ, Z.pow_succ_r by lia.
    rewrite Z.rem_mul_r by (try apply Z.pow_nonzero; lia). lia.
Qed.

Lemma be_value_nonneg l : Forall is_byte l → 0 <= be_value l < 256 ^ Z.of_nat (length l).
Proof.
  induction l as [|b l IH] using rev_ind; [done|]. intros [Hl Hb]%Forall_app. apply Forall_cons_1 in Hb as [Hb _].
  specialize (IH Hl). rewrite be_value_app, length_app, Nat.add_1_r, Nat2Z.inj_succ, Z.pow_succ_r by lia.
  unfold is_byte in Hb. generalize dependent (256 ^ Z.of_nat (length l)). intros p Hp. lia.
Qed.

Lemma be_value_cons b l : be_value (b :: l) = b * 256 ^ Z.of_nat (length l) + be_value l.
Proof.
  induction l as [|c l IH] using rev_ind; [cbn; lia|].
  rewrite app_comm_cons, !be_value_app, IH, length_app, Nat.add_1_r, Nat2Z.inj_succ, Z.pow_succ_r by lia. lia.
Qed.

Lemma be_bytes_be_value l : Forall is_byte l → be_bytes (length l) (be_value l) = l.
Proof.
  induction l as [|b l IH] using rev_ind; [done|]. intros [Hl Hb]%Forall_app. apply Forall_cons_1 in Hb as [Hb _].
  unfold is_byte in Hb. rewrite length_app, Nat.add_1_r. cbn [be_bytes]. rewrite be_value_app.
  rewrite Z.div_add_l, (Z.div_small b), Z.add_0_r, IH by (done || lia).
  by rewrite Z.add_comm, Z.mod_add, Z.mod_small by lia.
Qed.

Lemma be_bytes_inj n v v' :
  be_bytes n v = be_bytes n v' → v mod 256 ^ Z.of_nat n = v' mod 256 ^ Z.of_nat n.
Proof. intros H. by rewrite <- !be_value_be_bytes, H. Qed.

(** ** Facts on lists *)

Lemma sum_of_app {A} (f : A → Z) l1 l2 : sum_of f (l1 ++ l2) = sum_of f l1 + sum_of f l2.
Proof. induction l1; cbn; [done|]. unfold sum_of in *. lia. Qed.

Lemma sum_of_perm {A} (f : A → Z) l l' : l ≡ₚ l' → sum_of f l = sum_of f l'.
Proof. unfold sum_of. induction 1; cbn; lia. Qed.

Lemma sum_of_nonneg {A} (f : A → Z) l : (∀ x, x ∈ l → 0 <= f x) → 0 <= sum_of f l.
Proof.
  induction l as [|x l IH]; cbn; intros H; [done|].
  assert (0 <= f x) by (apply H; left). assert (0 <= sum_of f l) by (apply IH; intros; apply H; by right).
  unfold sum_of in *. lia.
Qed.

(** ** Sorting *)

Lemma sorted_impl {A} (R R' : A → A → Prop) l :
  (∀ x y, R x y → R' x y) → StronglySorted R l → StronglySorted R' l.
Proof. intros H. induction 1 as [|x l _ IH Hx]; constructor; [done|]. eapply Forall_impl; [exact Hx|apply H]. Qed.

Section Sorting.

Context {A : Type} (before : A → A → bool).

(** No element is to come before one to its left. *)
Definition in_order (x y : A) : Prop := before y x = false.

Lemma insert_by_perm x l : insert_by before x l ≡ₚ x :: l.
Proof.
  induction l as [|y l IH]; [done|]. cbn [insert_by]. destruct (before x y); [done|]. rewrite IH. apply Permutation_swap.
Qed.

Lemma stable_sort_perm l : stable_sort before l ≡ₚ l.
Proof.
  unfold stable_sort.
  assert (∀ acc, fold_left (λ acc x, insert_by before x acc) l acc ≡ₚ acc ++ l) as H; [|apply (H [])].
  induction l as [|x l IH]; intros acc; cbn [fold_left]; [by rewrite app_nil_r|].
  rewrite IH, insert_by_perm. apply Permutation_middle.
Qed.

(** The elements that are sorted, on which [before] is a strict order. *)
Context (P : A → Prop).
Hypothesis before_irrefl : ∀ x y, P x → P y → before x y = true → before y x = false.
Hypothesis before_trans : ∀ x y z, P x → P y → P z → before x y = true → before z y = false → before z x = false.

Lemma insert_by_sorted x l :
  P x → Forall P l → StronglySorted in_order l → StronglySorted in_order (insert_by before x l).
Proof.
  intros Hx. induction l as [|y l IH]; intros Hl Hs; [by repeat constructor|]. cbn [insert_by].
  apply Forall_cons in Hl as [Hy Hl]. pose proof Hs as [Hys Hs']%StronglySorted_cons. destruct (before x y) eqn:E.
  - apply StronglySorted_cons. split; [|done]. constructor; [by apply before_irrefl|].
    rewrite Forall_forall in Hys, Hl |- *. intros z Hz. apply (before_trans x y z); [done|done|by apply Hl|done|]. by apply Hys.
  - apply StronglySorted_cons. split; [|by apply IH]. rewrite insert_by_perm. by constructor.
Qed.

Lemma stable_sort_sorted l : Forall P l → StronglySorted in_order (stable_sort before l).
Proof.
  unfold stable_sort. intros Hl.
  assert (∀ acc, Forall P acc → StronglySorted in_order acc →
    StronglySorted in_order (fold_left (λ acc x, insert_by before x acc) l acc)) as H; [|apply H; constructor].
  induction Hl as [|x l Hx _ IH]; intros acc Ha Hs; cbn [fold_left]; [done|].
  apply IH; [rewrite insert_by_perm; by constructor|by apply insert_by_sorted].
Qed.

End Sorting.

(** ** Tactics *)

(** Splits hypotheses that are conjunctions or existentials, and substitutes. *)
Ltac break :=
  repeat match goal with
  | H : _ ∧ _ |- _ => destruct H
  | H : ∃ _, _ |- _ => destruct H
  | H : (_, _) = (_, _) |- _ => injection H as; subst
  end.
