(* ===== verification/RustStr.v ===== *)
(** * Rust strings

    A Rust [&str] is a sequence of Unicode scalar values; it is modelled as the
    list of their code points. [str_len] is [str::len], the length of the UTF-8
    encoding. The operations below are the ones of the standard library that the
    routing and bridge code uses, with their Unicode or ASCII-only behaviour. *)

From stdpp Require Import base decidable strings numbers list.
From Stdlib Require Import ZArith Lia Ascii.
From S2P Require Import Prelude.

Local Open Scope Z_scope.

Abbreviation Str := (list Z) (only parsing).

(** ** Literals *)

(** The code points of an ASCII literal. *)
Fixpoint lit (s : string) : Str :=
  match s with
  | String.EmptyString => []
  | String.String a s' => Z.of_N (N_of_ascii a) :: lit s'
  end.

Declare Scope str_scope.
Delimit Scope str_scope with str.
Notation "$ s" := (lit s%string) (at level 5, format "$ s") : str_scope.

(** The one-character strings the formats use. *)
Definition colon : Z := 58.
Definition slash : Z := 47.
Definition dot : Z := 46.

(** ** Characters *)

Definition utf8_len (c : Z) : Z :=
  if c <? 128 then 1 else if c <? 2048 then 2 else if c <? 65536 then 3 else 4.

(** [char::is_whitespace]: the Unicode White_Space property. *)
Definition is_whitespace (c : Z) : bool :=
  ((9 <=? c) && (c <=? 13)) || (c =? 32) || (c =? 133) || (c =? 160) || (c =? 5760) ||
  ((8192 <=? c) && (c <=? 8202)) || (c =? 8232) || (c =? 8233) || (c =? 8239) || (c =? 8287) ||
  (c =? 12288).

Definition is_ascii_digit (c : Z) : bool := (48 <=? c) && (c <=? 57).
Definition is_ascii_upper (c : Z) : bool := (65 <=? c) && (c <=? 90).
Definition is_ascii_lower (c : Z) : bool := (97 <=? c) && (c <=? 122).

Definition is_ascii_alphanumeric (c : Z) : bool :=
  is_ascii_digit c || is_ascii_upper c || is_ascii_lower c.

Definition is_ascii_hexdigit (c : Z) : bool :=
  is_ascii_digit c || ((65 <=? c) && (c <=? 70)) || ((97 <=? c) && (c <=? 102)).

Definition ascii_lower (c : Z) : Z := if is_ascii_upper c then c + 32 else c.
Definition ascii_upper (c : Z) : Z := if is_ascii_lower c then c - 32 else c.

(** ** Strings *)

Definition str_len (s : Str) : Z := sum_of utf8_len s.

Definition to_ascii_lowercase (s : Str) : Str := ascii_lower <$> s.
Definition to_ascii_uppercase (s : Str) : Str := ascii_upper <$> s.

Definition eq_ignore_ascii_case (s t : Str) : bool :=
  bool_decide (to_ascii_lowercase s = to_ascii_lowercase t).

Fixpoint trim_start (s : Str) : Str :=
  match s with
  | [] => []
  | c :: s' => if is_whitespace c then trim_start s' else s
  end.

Definition trim (s : Str) : Str := reverse (trim_start (reverse (trim_start s))).

Fixpoint strip_prefix (p s : Str) : option Str :=
  match p, s with
  | [], _ => Some s
  | _ :: _, [] => None
  | a :: p', c :: s' => if a =? c then strip_prefix p' s' else None
  end.

(** [trim_start_matches("0x")]: every leading occurrence is removed. *)
Fixpoint trim_start_0x (s : Str) : Str :=
  match s with
  | a :: ((b :: s') as t) => if (a =? 48) && (b =? 120) then trim_start_0x s' else a :: t
  | _ => s
  end.

(** Without a leading "0x" or "0X". *)
Definition strip_0x (s : Str) : Str :=
  match strip_prefix ($"0x")%str s with
  | Some h => h
  | None => match strip_prefix ($"0X")%str s with
            | Some h => h
            | None => s
            end
  end.

Definition starts_with (p s : Str) : bool := bool_decide (is_Some (strip_prefix p s)).

(** [str::contains(&str)] *)
Fixpoint contains_str (p s : Str) : bool :=
  starts_with p s || match s with
                     | [] => false
                     | _ :: s' => contains_str p s'
                     end.

(** [str::split_once(char)]: the parts before and after the first occurrence. *)
Fixpoint split_once (d : Z) (s : Str) : option (Str * Str) :=
  match s with
  | [] => None
  | c :: s' =>
      if c =? d then Some ([], s')
      else match split_once d s' with
           | Some (a, b) => Some (c :: a, b)
           | None => None
           end
  end.

(** [str::split(char)]: all the parts, at least one. *)
Fixpoint split (d : Z) (s : Str) : list Str :=
  match s with
  | [] => [[]]
  | c :: s' =>
      if c =? d then [] :: split d s'
      else match split d s' with
           | p :: ps => (c :: p) :: ps
           | [] => [[c]]
           end
  end.

(** [str::as_bytes]: the UTF-8 encoding. *)
Definition utf8 (c : Z) : list Z :=
  if c <? 128 then [c]
  else if c <? 2048 then [192 + c / 64; 128 + c mod 64]
  else if c <? 65536 then [224 + c / 4096; 128 + c / 64 mod 64; 128 + c mod 64]
  else [240 + c / 262144; 128 + c / 4096 mod 64; 128 + c / 64 mod 64; 128 + c mod 64].

Definition as_bytes (s : Str) : list Z := concat (utf8 <$> s).

(** [&s[..n]]: the prefix of [n] bytes, [None] where the code panics because [n]
    is past the end or inside a character. *)
Fixpoint slice_to (n : Z) (s : Str) : option Str :=
  if n =? 0 then Some []
  else match s with
       | [] => None
       | c :: s' =>
           if utf8_len c <=? n then
             match slice_to (n - utf8_len c) s' with
             | Some p => Some (c :: p)
             | None => None
             end
           else None
       end.

(** [str::contains(char)] *)
Definition contains (s : Str) (c : Z) : bool := bool_decide (c ∈ s).

(** ** Numbers *)

(** [parse] of an unsigned type: an optional [+], then at least one decimal
    digit, with checked multiplication and addition. *)
Definition parse_digit (t : IntTy) (acc : option Z) (c : Z) : option Z :=
  match acc with
  | Some a =>
      if is_ascii_digit c then
        match checked_mul t a 10 with
        | Some b => checked_add t b (c - 48)
        | None => None
        end
      else None
  | None => None
  end.

Definition parse_uint (t : IntTy) (s : Str) : option Z :=
  match s with
  | [] => None
  | c :: s' =>
      let digits := if c =? 43 then s' else s in
      match digits with
      | [] => None
      | _ => fold_left (parse_digit t) digits (Some 0)
      end
  end.

(** [parse] of a signed type: the digits of a negative number are subtracted. *)
Definition parse_neg_digit (t : IntTy) (acc : option Z) (c : Z) : option Z :=
  match acc with
  | Some a =>
      if is_ascii_digit c then
        match checked_mul t a 10 with
        | Some b => checked_sub t b (c - 48)
        | None => None
        end
      else None
  | None => None
  end.

Definition parse_sint (t : IntTy) (s : Str) : option Z :=
  match s with
  | c :: ((_ :: _) as digits) => if c =? 45 then fold_left (parse_neg_digit t) digits (Some 0) else parse_uint t s
  | _ => parse_uint t s
  end.

(** [from_str_radix(s, 16)] of an unsigned type. *)
Definition hex_digit (c : Z) : option Z :=
  if is_ascii_digit c then Some (c - 48)
  else if (97 <=? c) && (c <=? 102) then Some (c - 87)
  else if (65 <=? c) && (c <=? 70) then Some (c - 55)
  else None.

Definition parse_hex_digit (t : IntTy) (acc : option Z) (c : Z) : option Z :=
  match acc, hex_digit c with
  | Some a, Some d =>
      match checked_mul t a 16 with
      | Some b => checked_add t b d
      | None => None
      end
  | _, _ => None
  end.

Definition parse_hex_uint (t : IntTy) (s : Str) : option Z :=
  match s with
  | [] => None
  | c :: s' =>
      let digits := if c =? 43 then s' else s in
      match digits with
      | [] => None
      | _ => fold_left (parse_hex_digit t) digits (Some 0)
      end
  end.

(** [Display] of an unsigned integer; [fuel] bounds the number of digits. *)
Fixpoint digits (fuel : nat) (n : Z) : Str :=
  match fuel with
  | O => []
  | S f => if n <? 10 then [48 + n] else digits f (n / 10) ++ [48 + n mod 10]
  end.

(** 39 digits are enough for every [u128]. *)
Definition display (n : Z) : Str := digits 39 n.

(** ** Facts *)

Create HintDb rstr discriminated.

Lemma trim_start_id s : (∀ c, head s = Some c → is_whitespace c = false) → trim_start s = s.
Proof. destruct s as [|c s]; cbn; intros H; [done|]. by rewrite (H c eq_refl). Qed.

Lemma parse_hex_uint_fits t s n : fits t 0 → parse_hex_uint t s = Some n → fits t n.
Proof.
  intros H0. unfold parse_hex_uint.
  assert (Hf : ∀ l a, (∀ z, a = Some z → fits t z) → ∀ z, fold_left (parse_hex_digit t) l a = Some z → fits t z).
  { intros l. induction l as [|c l IH]; intros a Ha z; cbn; [apply Ha|]. apply IH. intros y. unfold parse_hex_digit.
    destruct a as [x|], (hex_digit c) as [d|]; try done. destruct (checked_mul t x 16) as [w|]; [|done].
    unfold checked_add. by intros [-> ?]%chk_Some. }
  destruct s as [|c s]; [done|]. intros Hp. cbv zeta in Hp.
  destruct (if c =? 43 then s else c :: s) as [|d l]; [done|]. eapply Hf in Hp; [done|]. by intros ? [= <-].
Qed.

(** A string that neither starts nor ends with a space is its own trimming. *)
Lemma trim_id s :
  (∀ c, head s = Some c → is_whitespace c = false) →
  (∀ c, last s = Some c → is_whitespace c = false) → trim s = s.
Proof.
  intros Hh Hl. unfold trim. rewrite (trim_start_id s Hh).
  rewrite trim_start_id, reverse_involutive; [done|].
  intros c Hc. apply Hl. by rewrite <- head_reverse.
Qed.

Lemma split_once_app d a b : d ∉ a → split_once d (a ++ d :: b) = Some (a, b).
Proof.
  induction a as [|c a IH]; cbn; intros Hn.
  - by rewrite Z.eqb_refl.
  - apply not_elem_of_cons in Hn as [Hc Hn].
    rewrite (proj2 (Z.eqb_neq c d)) by congruence. by rewrite IH.
Qed.

Lemma split_once_Some d s a b : split_once d s = Some (a, b) ↔ s = a ++ d :: b ∧ d ∉ a.
Proof.
  split; [|intros [-> ?]; by apply split_once_app].
  revert a b; induction s as [|c s IH]; cbn; intros a b E; [done|].
  destruct (Z.eqb_spec c d) as [->|Hc].
  - injection E as <- <-. split; [done|]. apply not_elem_of_nil.
  - destruct (split_once d s) as [[a' b']|]; [|done]. injection E as <- <-.
    destruct (IH a' b' eq_refl) as [-> Hn]. split; [done|].
    apply not_elem_of_cons. split; congruence.
Qed.

Lemma split_once_None d s : d ∉ s → split_once d s = None.
Proof.
  induction s as [|c s IH]; cbn; [done|]. intros [Hc Hn]%not_elem_of_cons.
  rewrite (proj2 (Z.eqb_neq c d)) by congruence. by rewrite IH.
Qed.

Lemma strip_prefix_app p s : strip_prefix p (p ++ s) = Some s.
Proof. induction p as [|a p IH]; cbn; [done|]. by rewrite Z.eqb_refl. Qed.

Lemma strip_prefix_Some p s r : strip_prefix p s = Some r ↔ s = p ++ r.
Proof.
  split; [|intros ->; apply strip_prefix_app].
  revert s; induction p as [|a p IH]; cbn; intros s E; [congruence|].
  destruct s as [|c s]; [done|]. destruct (Z.eqb_spec a c) as [->|]; [|done].
  by rewrite (IH s E).
Qed.

Lemma starts_with_app p s : starts_with p (p ++ s) = true.
Proof. apply bool_decide_eq_true. exists s. apply strip_prefix_app. Qed.

Lemma starts_with_spec p s : starts_with p s = true ↔ ∃ r, s = p ++ r.
Proof.
  unfold starts_with. rewrite bool_decide_eq_true. unfold is_Some.
  split; intros [r Hr]; exists r; by apply strip_prefix_Some.
Qed.

Lemma str_len_app s t : str_len (s ++ t) = str_len s + str_len t.
Proof. apply sum_of_app. Qed.

(** On ASCII strings the byte length is the number of characters. *)
Lemma str_len_ascii s : Forall (λ c, c < 128) s → str_len s = Z.of_nat (length s).
Proof.
  induction 1 as [|c s Hc _ IH]; [done|]. cbn. unfold str_len, sum_of in *. cbn.
  rewrite IH. unfold utf8_len. rewrite (proj2 (Z.ltb_lt c 128)) by done. lia.
Qed.

Lemma lower_idemp s : to_ascii_lowercase (to_ascii_lowercase s) = to_ascii_lowercase s.
Proof.
  unfold to_ascii_lowercase. rewrite <- list_fmap_compose. apply list_fmap_ext. intros _ c _.
  cbn. unfold ascii_lower, is_ascii_upper. repeat case_match; lia.
Qed.

Lemma upper_idemp s : to_ascii_uppercase (to_ascii_uppercase s) = to_ascii_uppercase s.
Proof.
  unfold to_ascii_uppercase. rewrite <- list_fmap_compose. apply list_fmap_ext. intros _ c _.
  cbn. unfold ascii_upper, is_ascii_lower. repeat case_match; lia.
Qed.

Lemma length_lower s : length (to_ascii_lowercase s) = length s.
Proof. apply length_fmap. Qed.

(** ** Decimal round trip *)

Lemma digits_ne fuel n : (0 < fuel)%nat → digits fuel n ≠ [].
Proof. destruct fuel; cbn; [lia|]. intros _. case_match; [done|]. by intros []%app_eq_nil. Qed.

Lemma digits_digit fuel n : 0 <= n → Forall (λ c, is_ascii_digit c = true) (digits fuel n).
Proof.
  revert n; induction fuel as [|f IH]; cbn; intros n Hn; [constructor|].
  assert (∀ m, 0 <= m < 10 → is_ascii_digit (48 + m) = true) as Hd.
  { intros m Hm. unfold is_ascii_digit. apply andb_true_iff. rewrite !Z.leb_le. lia. }
  destruct (Z.ltb_spec n 10).
  - constructor; [apply Hd; lia|constructor].
  - apply Forall_app. split; [apply IH, Z.div_pos; lia|].
    constructor; [apply Hd, Z.mod_pos_bound; lia|constructor].
Qed.

Lemma parse_digits t fuel n :
  0 <= n < 10 ^ Z.of_nat fuel → n <= int_max t → int_min t = 0 →
  fold_left (parse_digit t) (digits fuel n) (Some 0) = Some n.
Proof.
  intros Hn Hmax Hmin. revert n Hn Hmax.
  assert (∀ a m, 0 <= m < 10 → 0 <= a → 10 * a + m <= int_max t →
            parse_digit t (Some a) (48 + m) = Some (10 * a + m)) as Hstep.
  { intros a m Hm Ha Hb. unfold parse_digit.
    assert (is_ascii_digit (48 + m) = true) as -> by (unfold is_ascii_digit; lia).
    unfold checked_mul, checked_add.
    rewrite chk_fits by (unfold fits; lia). rewrite chk_fits by (unfold fits; lia).
    f_equal. lia. }
  induction fuel as [|f IH]; intros n Hn Hmax; [cbn in *; f_equal; lia|].
  cbn [digits]. destruct (Z.ltb_spec n 10).
  - cbn [fold_left]. by rewrite Hstep by lia.
  - rewrite fold_left_app, IH.
    + cbn [fold_left]. pose proof (Z.div_mod n 10). pose proof (Z.mod_pos_bound n 10).
      pose proof (Z.div_pos n 10). rewrite Hstep by lia. f_equal. lia.
    + rewrite Nat2Z.inj_succ, Z.pow_succ_r in Hn by lia.
      split; [apply Z.div_pos; lia|]. apply Z.div_lt_upper_bound; lia.
    + pose proof (Z.div_le_upper_bound n 10 n). lia.
Qed.

(** Printing an unsigned integer and parsing it back gives the integer. *)
Lemma parse_display t n :
  fits t n → int_min t = 0 → int_max t < 10 ^ 39 → parse_uint t (display n) = Some n.
Proof.
  unfold fits. intros Hn Hmin Hmax. unfold parse_uint, display.
  pose proof (digits_digit 39 n ltac:(lia)) as Hd.
  pose proof (digits_ne 39 n ltac:(lia)) as Hne.
  pose proof (parse_digits t 39 n ltac:(lia) ltac:(lia) Hmin) as Hp.
  destruct (digits 39 n) as [|c s] eqn:E; [done|].
  inversion Hd as [|? ? Hc _]; subst.
  assert ((c =? 43) = false) as -> by (unfold is_ascii_digit in Hc; lia).
  exact Hp.
Qed.

(** What [parse] returns is a value of the type. *)
Lemma parse_uint_fits t s n : parse_uint t s = Some n → fits t 0 → fits t n.
Proof.
  intros H H0. assert (∀ l a, fits t a → fold_left (parse_digit t) l (Some a) = Some n → fits t n) as Hf.
  { assert (∀ l, fold_left (parse_digit t) l None = None) as HN by (induction l; done).
    induction l as [|c l IH]; cbn [fold_left]; intros a Ha E; [congruence|].
    destruct (parse_digit t (Some a) c) as [b|] eqn:Eb; [|by rewrite HN in E].
    apply (IH b); [|done]. cbn in Eb. repeat case_match; try discriminate.
    by apply chk_Some in Eb as [-> ?]. }
  unfold parse_uint in H. repeat case_match; try discriminate; by eapply Hf.
Qed.
