(* ===== verification/Result.v ===== *)
(** * Results of pure fallible functions

    Rust's [Result<T, E>] for the off-chain crates, whose functions have no
    state: [Ok], [Err], the [?] operator as [bind], and the inversion lemmas and
    tactic that take a successful chain of [?] apart. *)

From stdpp Require Import base decidable strings numbers list.
From S2P Require Import Prelude.

Inductive Result (A E : Type) :=
| Ok (a : A)
| Err (e : E).

Arguments Ok {A E} a.
Arguments Err {A E} e.

#[export] Instance Result_eq_dec {A E} `{EqDecision A} `{EqDecision E} : EqDecision (Result A E).
Proof. solve_decision. Defined.

(** [m?] followed by the rest. *)
Definition try_ {A B E} (m : Result A E) (k : A → Result B E) : Result B E :=
  match m with
  | Ok a => k a
  | Err e => Err e
  end.

(** [Option::ok_or], [Result::map_err] *)
Definition ok_or {A E} (o : option A) (e : E) : Result A E :=
  match o with
  | Some a => Ok a
  | None => Err e
  end.

Definition map_err {A E F} (f : E → F) (m : Result A E) : Result A F :=
  match m with
  | Ok a => Ok a
  | Err e => Err (f e)
  end.

(** [if b { return Err(e); }] *)
Definition reject {E} (b : bool) (e : E) : Result unit E := if b then Err e else Ok tt.

Definition is_ok {A E} (m : Result A E) : bool :=
  match m with
  | Ok _ => true
  | Err _ => false
  end.

(** A function that may return an error or panic. *)
Inductive Fault (E : Type) :=
| Raised (e : E)
| Panic.

Arguments Raised {E} e.
Arguments Panic {E}.

Definition map_fault {E F} (f : E → F) (x : Fault E) : Fault F :=
  match x with
  | Raised e => Raised (f e)
  | Panic => Panic
  end.

(** [r.unwrap_or(d)] *)
Definition unwrap_or {A E} (d : A) (m : Result A E) : A :=
  match m with
  | Ok a => a
  | Err _ => d
  end.

Declare Scope result_scope.
Delimit Scope result_scope with result.
Notation "x ← y ; z" := (try_ y (λ x : _, z))
  (at level 20, y at level 100, z at level 200, only parsing) : result_scope.
Notation "' x ← y ; z" := (try_ y (λ x : _, z))
  (at level 20, x pattern, y at level 100, z at level 200, only parsing) : result_scope.
Notation "x ;; z" := (try_ x (λ _, z))
  (at level 100, z at level 200, only parsing, right associativity) : result_scope.

Lemma try_Ok {A B E} (m : Result A E) (k : A → Result B E) b :
  try_ m k = Ok b ↔ ∃ a, m = Ok a ∧ k a = Ok b.
Proof. destruct m; cbn; naive_solver. Qed.

Lemma try_Err {A B E} (m : Result A E) (k : A → Result B E) e :
  try_ m k = Err e ↔ m = Err e ∨ ∃ a, m = Ok a ∧ k a = Err e.
Proof. destruct m; cbn; naive_solver. Qed.

Lemma reject_Ok {E} b (e : E) u : reject b e = Ok u ↔ b = false.
Proof. destruct u, b; cbn; naive_solver. Qed.

Lemma reject_Err {E} b (e e' : E) : reject b e = Err e' ↔ b = true ∧ e' = e.
Proof. destruct b; cbn; naive_solver. Qed.

Lemma reject_ne {A E} (x y : A) `{Decision (x = y)} (e : E) : reject (bool_decide (x ≠ y)) e = Ok tt ↔ x = y.
Proof. rewrite reject_Ok, bool_decide_eq_false. split; [by intros ?%dec_stable|by intros ? ?]. Qed.

Lemma reject_neq {E} (x y : Z) (e : E) : reject (negb (x =? y)%Z) e = Ok tt ↔ x = y.
Proof. by rewrite reject_Ok, negb_false_iff, Z.eqb_eq. Qed.

Lemma reject_lt {E} (x y : Z) (e : E) : reject (x <? y)%Z e = Ok tt ↔ (y <= x)%Z.
Proof. by rewrite reject_Ok, Z.ltb_ge. Qed.

Lemma try_unit_Ok {B E} (m : Result unit E) (k : unit → Result B E) b :
  try_ m k = Ok b ↔ m = Ok tt ∧ k tt = Ok b.
Proof. rewrite try_Ok. split; [by intros ([] & ? & ?)|by eauto]. Qed.

Lemma ok_or_Ok {A E} (o : option A) (e : E) a : ok_or o e = Ok a ↔ o = Some a.
Proof. destruct o; cbn; naive_solver. Qed.

Lemma map_err_Ok {A E F} (f : E → F) (m : Result A E) a : map_err f m = Ok a ↔ m = Ok a.
Proof. destruct m; cbn; naive_solver. Qed.

(** Takes a successful run apart: every [?] on its path succeeded, every guard
    was false. *)
Ltac rinv :=
  repeat match goal with
  | H : try_ _ _ = Ok _ |- _ => apply try_Ok in H as (? & ? & H)
  | H : reject _ _ = Ok _ |- _ => apply reject_Ok in H
  | H : ok_or _ _ = Ok _ |- _ => apply ok_or_Ok in H
  | H : map_err _ _ = Ok _ |- _ => apply map_err_Ok in H
  | H : Ok _ = Ok _ |- _ => injection H as H; subst
  | H : Err _ = Ok _ |- _ => discriminate H
  | u : unit |- _ => destruct u
  end.

(** ** Record updates

    [r <| field := v |>] is the record [r] with one field replaced, for the
    structures of the bridge, which have dozens of fields. A record type declares
    its eta expansion once ([Eta]); the update of a field is then derived from the
    name of the projection, and computes. *)

Class Eta (R : Type) := eta : R → R.

Class Update {R E : Type} (get : R → E) := update : (E → E) → R → R.

Arguments update {R E} get {_} f r.

(** Abstracts the field [get r] from the eta expansion of [r]. *)
Ltac derive_update get :=
  match type of get with
  | ?R → ?E =>
      let inst := constr:(_ : Eta R) in
      let e := eval hnf in inst in
      exact (fun (f : E → E) (r : R) => ltac:(
        let body := eval cbv beta in (e r) in
        let abs := eval pattern (get r) in body in
        match abs with
        | ?g _ => let res := eval cbv beta in (g (f (get r))) in exact res
        end))
  end.

#[export] Hint Extern 1 (Update ?get) => derive_update get : typeclass_instances.

Declare Scope record_scope.
Delimit Scope record_scope with record.

Notation "r <| get := v |>" := (update get (λ _, v) r)
  (at level 1, left associativity, get constr, format "r <| get := v |>") : record_scope.
Notation "r <| get ::= f |>" := (update get f r)
  (at level 1, left associativity, get constr, format "r <| get ::= f |>") : record_scope.
