(* ===== verification/Tasks.v ===== *)
(** * Concurrent tasks

    A handler of the API server is asynchronous: between two of its calls other tasks
    run. It is a program ([Prog]) that makes one call at a time; a call is carried out
    in one step on a shared world, with what the outside decides as an oracle. A
    [System] is a world, the history of all calls with their replies, and the tasks
    that run. A [Protocol] says which calls the history permits and what an invariant
    of world and history is; programs that keep to it ([safe]) keep the invariant,
    however they interleave ([tasks_invariant]). *)

From stdpp Require Import base decidable sets list relations.
From Stdlib Require Import Lia.
From S2P Require Import Result.

(** ** Programs *)

Section Programs.

Context {Call : Type} {Reply : Call → Type}.

(** A program returns, panics, or makes a call and continues with the reply. *)
Inductive Prog (A : Type) :=
| Return (a : A)
| Crash
| Request (c : Call) (k : Reply c → Prog A).

#[global] Arguments Return {A} a.
#[global] Arguments Crash {A}.
#[global] Arguments Request {A} c k.

Fixpoint pbind {A B} (p : Prog A) (f : A → Prog B) : Prog B :=
  match p with
  | Return a => f a
  | Crash => Crash
  | Request c k => Request c (λ r, pbind (k r) f)
  end.

Definition call (c : Call) : Prog (Reply c) := Request c Return.

(** A program whose result is dropped. *)
Definition task {A} (p : Prog A) : Prog unit := pbind p (λ _, Return tt).

(** A call and its reply. *)
Record Event := Happened {
  e_call : Call;
  e_reply : Reply e_call;
}.

End Programs.

Arguments Prog {Call} Reply A.
Arguments Event {Call} Reply.

(** ** Fallible programs *)

Section Fallible.

Context {Call : Type} {Reply : Call → Type} {E : Type}.

Local Abbreviation M A := (Prog Reply (Result A E)).

Definition ok {A} (a : A) : M A := Return (Ok a).

Definition err {A} (e : E) : M A := Return (Err e).

(** [m?] followed by the rest. *)
Definition mtry {A B} (m : M A) (k : A → M B) : M B :=
  pbind m (λ r, match r with
                | Ok a => k a
                | Err e => err e
                end).

(** [if b { return Err(e); }] *)
Definition refuse (b : bool) (e : E) : M unit := if b then err e else ok tt.

(** [r.map_err(f)?] for a pure function. *)
Definition lift {A F} (f : F → E) (r : Result A F) : M A := Return (map_err f r).

(** The same for a pure function that may panic. *)
Definition lift_fault {A F} (f : F → E) (r : Result A (Fault F)) : M A :=
  match r with
  | Ok a => ok a
  | Err (Raised e) => err (f e)
  | Err Panic => Crash
  end.

(** [x.y(..).await.map_err(f)?] *)
Definition awaited {A F} (f : F → E) (p : Prog Reply (Result A F)) : M A :=
  pbind p (λ r, Return (map_err f r)).

(** [o.ok_or(e)?] *)
Definition some_or {A} (o : option A) (e : E) : M A :=
  match o with
  | Some a => ok a
  | None => err e
  end.

(** A value of a computation that may panic. *)
Definition or_panic {A} (o : option A) : Prog Reply A :=
  match o with
  | Some a => Return a
  | None => Crash
  end.

End Fallible.

(** A program over some calls as one over more. *)
Section Embed.

Context {Call : Type} {Reply : Call → Type} {Call' : Type} {Reply' : Call' → Type}.
Context (f : Call → Call') (g : ∀ c, Reply' (f c) → Reply c).

Fixpoint embed {A} (p : Prog Reply A) : Prog Reply' A :=
  match p with
  | Return a => Return a
  | Crash => Crash
  | Request c k => Request (f c) (λ r, embed (k (g c r)))
  end.

End Embed.

Declare Scope prog_scope.
Delimit Scope prog_scope with prog.
Notation "x ← y ; z" := (mtry y (λ x : _, z))
  (at level 20, y at level 100, z at level 200, only parsing) : prog_scope.
Notation "x ;; z" := (mtry x (λ _, z))
  (at level 100, z at level 200, only parsing, right associativity) : prog_scope.
(** A step whose value is not a [Result]. *)
Notation "x ⇐ y ; z" := (pbind y (λ x : _, z))
  (at level 20, y at level 100, z at level 200, only parsing) : prog_scope.

(** ** What a program returns *)

Section Returns.

Context {Call : Type} {Reply : Call → Type}.

(** [returns told p a]: [p] may return [a] when its calls are answered as [told] says;
    a call may be answered differently each time. *)
Fixpoint returns {A} (told : ∀ c : Call, Reply c → Prop) (p : Prog Reply A) (a : A) : Prop :=
  match p with
  | Return b => b = a
  | Crash => False
  | Request c k => ∃ r, told c r ∧ returns told (k r) a
  end.

(** What a program returns when each call always has the same answer. *)
Fixpoint run_with {A} (answer : ∀ c : Call, Reply c) (p : Prog Reply A) : option A :=
  match p with
  | Return a => Some a
  | Crash => None
  | Request c k => run_with answer (k (answer c))
  end.

Lemma run_with_returns {A} answer (p : Prog Reply A) a : run_with answer p = Some a → returns (λ c r, r = answer c) p a.
Proof. induction p as [b| |c k IH]; cbn; [by intros [= ->]|done|]. eauto. Qed.

Context (told : ∀ c : Call, Reply c → Prop).

Lemma returns_bind {A B} (p : Prog Reply A) (f : A → Prog Reply B) b :
  returns told (pbind p f) b ↔ ∃ a, returns told p a ∧ returns told (f a) b.
Proof.
  induction p as [a| |c k IH]; cbn; [naive_solver..|]. setoid_rewrite IH. naive_solver.
Qed.

Lemma returns_call c r : returns told (call c) r ↔ told c r.
Proof. cbn. naive_solver. Qed.

Context {E : Type}.

Lemma returns_mtry {A B} (m : Prog Reply (Result A E)) (k : A → Prog Reply (Result B E)) b :
  returns told (mtry m k) (Ok b) ↔ ∃ a, returns told m (Ok a) ∧ returns told (k a) (Ok b).
Proof.
  unfold mtry. rewrite returns_bind. split.
  - intros ([a|e] & Hm & Hk); [by eauto|by cbn in Hk].
  - intros (a & ? & ?). by exists (Ok a).
Qed.

Lemma returns_try {A B} (m : Prog Reply (Result A E)) (k : A → Prog Reply (Result B E)) r :
  returns told (mtry m k) r → ∃ x, returns told m x ∧ match x with Ok a => returns told (k a) r | Err e => r = Err e end.
Proof. unfold mtry. rewrite returns_bind. intros (x & Hm & Hk). exists x. destruct x; [done|by cbn in Hk]. Qed.

Lemma returns_refuse (b : bool) (e : E) u : returns told (refuse b e) (Ok u) ↔ b = false.
Proof. destruct u, b; cbn; naive_solver. Qed.

Lemma returns_lift {A F} (f : F → E) (r : Result A F) a : returns told (lift f r) (Ok a) ↔ r = Ok a.
Proof. apply map_err_Ok. Qed.

Lemma returns_lift_fault {A F} (f : F → E) (r : Result A (Fault F)) a : returns told (lift_fault f r) (Ok a) ↔ r = Ok a.
Proof. destruct r as [|[]]; cbn; naive_solver. Qed.

Lemma returns_awaited {A F} (f : F → E) (p : Prog Reply (Result A F)) a :
  returns told (awaited f p) (Ok a) ↔ returns told p (Ok a).
Proof.
  unfold awaited. rewrite returns_bind. cbn. split.
  - intros (r & Hr & E0). by apply map_err_Ok in E0 as ->.
  - intros Hr. by exists (Ok a).
Qed.

Lemma returns_some_or {A} (o : option A) (e : E) a : returns told (some_or o e) (Ok a) ↔ o = Some a.
Proof. destruct o; cbn; naive_solver. Qed.

Lemma returns_or_panic {A} (o : option A) a : returns told (or_panic o) a ↔ o = Some a.
Proof. destruct o; cbn; naive_solver. Qed.

End Returns.

(** ** Running a program on fixed answers *)

Section RunWith.

Context {Call : Type} {Reply : Call → Type} (answer : ∀ c : Call, Reply c).

Lemma run_with_bind {A B} (p : Prog Reply A) (f : A → Prog Reply B) a :
  run_with answer p = Some a → run_with answer (pbind p f) = run_with answer (f a).
Proof. revert a. induction p as [b| |c k IH]; cbn; intros a; [by intros [= ->]|done|]. apply IH. Qed.

Lemma run_with_mtry {E A B} (m : Prog Reply (Result A E)) (k : A → Prog Reply (Result B E)) a :
  run_with answer m = Some (Ok a) → run_with answer (mtry m k) = run_with answer (k a).
Proof. intros Hm. unfold mtry. by rewrite (run_with_bind _ _ _ Hm). Qed.

End RunWith.

Lemma returns_embed {Call Call' : Type} {Reply : Call → Type} {Reply' : Call' → Type} (f : Call → Call')
    (g : ∀ c, Reply' (f c) → Reply c) {A} (told : ∀ c, Reply' c → Prop) (p : Prog Reply A) a :
  returns told (embed f g p) a → returns (λ c r, ∃ r', g c r' = r ∧ told (f c) r') p a.
Proof. induction p as [b| |c k IH]; cbn; [done..|]. intros (r & Hr & Hk). eauto 10. Qed.

(** Takes a program that returned [Ok] apart: every step did, every guard was false. *)
Ltac pinv :=
  repeat match goal with
  | H : returns _ (mtry _ _) (Ok _) |- _ => apply returns_mtry in H as (? & ? & H)
  | H : returns _ (pbind _ _) _ |- _ => apply returns_bind in H as (? & ? & H)
  | H : returns _ (refuse _ _) (Ok _) |- _ => apply returns_refuse in H
  | H : returns _ (lift _ _) (Ok _) |- _ => apply returns_lift in H
  | H : returns _ (lift_fault _ _) (Ok _) |- _ => apply returns_lift_fault in H
  | H : returns _ (awaited _ _) (Ok _) |- _ => apply returns_awaited in H
  | H : returns _ (some_or _ _) (Ok _) |- _ => apply returns_some_or in H
  | H : returns _ (or_panic _) _ |- _ => apply returns_or_panic in H
  | H : returns ?t (call ?c) ?r |- _ => apply (proj1 (returns_call t c r)) in H
  | H : returns _ (ok _) (Ok _) |- _ => injection H as H; subst
  | H : returns _ (err _) (Ok _) |- _ => discriminate H
  | H : returns _ (Return _) _ |- _ => cbn in H
  | u : unit |- _ => destruct u
  end.

(** ** Systems *)

Section Systems.

Context {Call : Type} {Reply : Call → Type} {World Oracle Handler : Type}.

(** One call on the world; [None] where it panics. *)
Variable exec : Oracle → ∀ c : Call, World → option (Reply c * World).

(** A program that runs alone, with an oracle for each of its calls. *)
Fixpoint run_alone {A} (os : list Oracle) (p : Prog Reply A) (w : World) : option (A * World) :=
  match p with
  | Return a => Some (a, w)
  | Crash => None
  | Request c k =>
      match os with
      | [] => None
      | o :: os' =>
          match exec o c w with
          | Some (r, w') => run_alone os' (k r) w'
          | None => None
          end
      end
  end.

(** The programs that tasks run, and the world they start in. *)
Variable program : Handler → Prog Reply unit.
Variable initial_world : World.

(** The history is newest first. *)
Record System := mkSystem {
  world : World;
  history : list (Event Reply);
  tasks : list (Prog Reply unit);
}.

Definition initial_system : System := mkSystem initial_world [] [].

Inductive step : System → System → Prop :=
| step_start w h ts hd : step (mkSystem w h ts) (mkSystem w h (program hd :: ts))
| step_call w h ts1 ts2 c k o r w' :
    exec o c w = Some (r, w') →
    step (mkSystem w h (ts1 ++ Request c k :: ts2)) (mkSystem w' (Happened c r :: h) (ts1 ++ k r :: ts2)).

Inductive reachable : System → Prop :=
| reach_initial : reachable initial_system
| reach_step S S' : reachable S → step S S' → reachable S'.

(** ** Executable runs *)

(** A move starts a handler, or makes the next call of the task at a position. *)
Inductive Move :=
| Start (hd : Handler)
| Run (i : nat) (o : Oracle).

Definition move (S : System) (m : Move) : option System :=
  match m with
  | Start hd => Some (mkSystem (world S) (history S) (program hd :: tasks S))
  | Run i o =>
      match tasks S !! i with
      | Some (Request c k) =>
          match exec o c (world S) with
          | Some (r, w') =>
              Some (mkSystem w' (Happened c r :: history S) (take i (tasks S) ++ k r :: drop (Datatypes.S i) (tasks S)))
          | None => None
          end
      | _ => None
      end
  end.

Fixpoint moves (S : System) (ms : list Move) : option System :=
  match ms with
  | [] => Some S
  | m :: ms' =>
      match move S m with
      | Some S' => moves S' ms'
      | None => None
      end
  end.

Lemma move_step S m S' : move S m = Some S' → step S S'.
Proof.
  destruct S as [w h ts], m as [hd|i o]; cbn; [intros [= <-]; constructor|].
  destruct (ts !! i) as [[| |c k]|] eqn:E; try done.
  destruct (exec o c w) as [[r w']|] eqn:Ex; [|done]. intros [= <-].
  rewrite <- (take_drop_middle ts i _ E) at 1. by econstructor.
Qed.

(** Every executable run is a run of the system. *)
Lemma moves_reachable ms S S' : reachable S → moves S ms = Some S' → reachable S'.
Proof.
  revert S; induction ms as [|m ms IH]; cbn; intros S Hr; [by intros [= <-]|].
  destruct (move S m) as [S1|] eqn:E; [|done]. apply IH. eapply reach_step; [done|by eapply move_step].
Qed.

(** The state after an executable run, if it can be made. *)
Definition after (ms : list Move) : System := default initial_system (moves initial_system ms).

Lemma after_reachable ms : reachable (after ms).
Proof.
  unfold after. destruct (moves initial_system ms) as [S|] eqn:E; cbn; [|constructor].
  eapply moves_reachable; [constructor|done].
Qed.

(** A run that is continued leads from state to state. *)
Lemma moves_rtc ms S S' : moves S ms = Some S' → rtc step S S'.
Proof.
  revert S; induction ms as [|m ms IH]; cbn; intros S; [intros [= <-]; apply rtc_refl|].
  destruct (move S m) as [S1|] eqn:E; [|done]. intros Hm. eapply rtc_l; [by eapply move_step|by apply IH].
Qed.

Lemma moves_app S ms ms' : moves S (ms ++ ms') = moves S ms ≫= λ S', moves S' ms'.
Proof. revert S; induction ms as [|m ms IH]; cbn; intros S; [done|]. by destruct (move S m). Qed.

Lemma after_rtc ms ms' : is_Some (moves initial_system (ms ++ ms')) → rtc step (after ms) (after (ms ++ ms')).
Proof.
  unfold after. rewrite moves_app. destruct (moves initial_system ms) as [S|]; cbn; [|by intros [? ?]].
  destruct (moves S ms') as [S'|] eqn:E; cbn; [|by intros [? ?]]. intros _. by eapply moves_rtc.
Qed.

(** ** Handlers run one after the other *)

(** A program that runs alone and its effect on world and history. *)
Fixpoint run_task {A} (os : list Oracle) (p : Prog Reply A) (w : World) (h : list (Event Reply)) :
    option (World * list (Event Reply)) :=
  match p with
  | Return _ => Some (w, h)
  | Crash => None
  | Request c k =>
      match os with
      | [] => None
      | o :: os' =>
          match exec o c w with
          | Some (r, w') => run_task os' (k r) w' (Happened c r :: h)
          | None => None
          end
      end
  end.

(** A run of handlers without interleaving, each with the oracles of its calls. *)
Fixpoint play (hs : list (Handler * list Oracle)) (w : World) (h : list (Event Reply)) : option (World * list (Event Reply)) :=
  match hs with
  | [] => Some (w, h)
  | (hd, os) :: hs' =>
      match run_task os (program hd) w h with
      | Some (w', h') => play hs' w' h'
      | None => None
      end
  end.

Lemma run_task_steps os p w h ts w' h' :
  run_task os p w h = Some (w', h') →
  (∃ u, rtc step (mkSystem w h (p :: ts)) (mkSystem w' h' (Return u :: ts))) ∧ (length h' <= length h + length os)%nat.
Proof.
  revert w h os. induction p as [a| |c k IH]; intros w h os; [|by destruct os|].
  - intros Hx. assert (Some (w, h) = Some (w', h')) as [= -> ->] by (by destruct os). split; [by exists a|lia].
  - destruct os as [|o os]; cbn; [done|]. destruct (exec o c w) as [[r w1]|] eqn:E; [|done].
    intros Hx. destruct (IH r w1 (Happened c r :: h) os Hx) as [(u & Hs) Hl]. cbn in Hl. split; [exists u|lia].
    eapply rtc_l; [by apply (step_call w h [] ts c k o r w1)|done].
Qed.

Lemma play_steps hs w h ts w' h' :
  play hs w h = Some (w', h') →
  (∃ ts', rtc step (mkSystem w h ts) (mkSystem w' h' ts')) ∧ (length h' <= length h + sum_list (length ∘ snd <$> hs))%nat.
Proof.
  revert w h ts. induction hs as [|[hd os] hs IH]; intros w h ts; cbn.
  - intros [= -> ->]. split; [by exists ts|lia].
  - destruct (run_task os (program hd) w h) as [[w1 h1]|] eqn:E; [|done]. intros Hx.
    destruct (run_task_steps os _ w h ts w1 h1 E) as [(u & Hs1) Hl1].
    destruct (IH w1 h1 (Return u :: ts) Hx) as [(ts' & Hs2) Hl2]. split; [exists ts'|lia].
    eapply rtc_l; [by apply (step_start w h ts hd)|]. by etrans.
Qed.

Lemma rtc_reachable S S' : reachable S → rtc step S S' → reachable S'.
Proof. intros Hr Hs. induction Hs as [|S S1 S2 H1 _ IH]; [done|]. apply IH. by eapply reach_step. Qed.

(** ** Protocols *)

(** [admitted]: the histories that are considered. [permitted]: what a history must
    hold before a call is made. [replied]: what a reply tells, in the history that it
    is the newest event of. *)
Class Protocol := {
  admitted : list (Event Reply) → Prop;
  permitted : Call → list (Event Reply) → Prop;
  replied : Event Reply → list (Event Reply) → Prop;
  invariant : World → list (Event Reply) → Prop;
  admitted_tail e h : admitted (e :: h) → admitted h;
  permitted_mono c h h' : h ⊆ h' → permitted c h → permitted c h';
  invariant_initial : invariant initial_world [];
  invariant_call o c w h r w' :
    invariant w h → admitted (Happened c r :: h) → permitted c h → exec o c w = Some (r, w') →
    invariant w' (Happened c r :: h) ∧ replied (Happened c r) (Happened c r :: h);
}.

Context {P : Protocol}.

(** [safe p h Q]: from a history that extends [h], [p] only makes permitted calls,
    and [Q] holds of what it returns and of the history then. *)
Fixpoint safe {A} (p : Prog Reply A) (h : list (Event Reply)) (Q : A → list (Event Reply) → Prop) : Prop :=
  match p with
  | Return a => Q a h
  | Crash => True
  | Request c k =>
      permitted c h ∧
      ∀ r h', h ⊆ h' → Happened c r ∈ h' → replied (Happened c r) h' → safe (k r) h' Q
  end.

Lemma safe_bind {A B} (p : Prog Reply A) (f : A → Prog Reply B) h Q :
  safe p h (λ a h', safe (f a) h' Q) → safe (pbind p f) h Q.
Proof.
  revert h; induction p as [a| |c k IH]; cbn; intros h Hp; [done..|].
  destruct Hp as [Hp Hk]. split; [done|]. intros r h' Hs He Hr. apply IH. by apply Hk.
Qed.

Lemma safe_weaken {A} (p : Prog Reply A) h (Q Q' : A → list (Event Reply) → Prop) :
  (∀ a h', h ⊆ h' → Q a h' → Q' a h') → safe p h Q → safe p h Q'.
Proof.
  revert h; induction p as [a| |c k IH]; cbn; intros h HQ; [by apply HQ|done|].
  intros [Hp Hk]. split; [done|]. intros r h' Hs He Hr. apply IH; [|by apply Hk].
  intros a h'' Hs'. apply HQ. set_solver.
Qed.

Lemma safe_mono {A} (p : Prog Reply A) h h' :
  h ⊆ h' → safe p h (λ _ _, True) → safe p h' (λ _ _, True).
Proof.
  intros Hs. destruct p as [a| |c k]; cbn; [done..|]. intros [Hp Hk].
  split; [by eapply permitted_mono|]. intros r h'' Hs' He Hr. apply Hk; [set_solver|done..].
Qed.

Lemma safe_call c h Q :
  permitted c h → (∀ r h', h ⊆ h' → Happened c r ∈ h' → replied (Happened c r) h' → Q r h') →
  safe (call c) h Q.
Proof. done. Qed.

(** Tasks that keep to the protocol keep its invariant in every state they reach. *)
Lemma tasks_invariant S :
  (∀ hd h, safe (program hd) h (λ _ _, True)) → reachable S → admitted (history S) →
  invariant (world S) (history S) ∧ Forall (λ p, safe p (history S) (λ _ _, True)) (tasks S).
Proof.
  intros Hsafe. induction 1 as [|S S' Hr IH Hstep].
  - intros _. split; [apply invariant_initial|constructor].
  - destruct Hstep as [w h ts hd|w h ts1 ts2 c k o r w' Hx]; cbn in *; intros Hadm.
    + destruct (IH Hadm) as [Hinv Hts]. split; [done|]. by constructor.
    + destruct IH as [Hinv Hts]; [by eapply admitted_tail|]. apply Forall_app in Hts as [Hts1 Hts2].
      apply Forall_cons in Hts2 as [[Hp Hk] Hts2].
      destruct (invariant_call o c w h r w' Hinv Hadm Hp Hx) as [Hinv' Hre].
      assert (Hsub : h ⊆ Happened c r :: h) by set_solver.
      split; [done|]. apply Forall_app. split; [|constructor].
      * eapply Forall_impl; [exact Hts1|]. intros p. by apply safe_mono.
      * apply Hk; [done|set_solver|done].
      * eapply Forall_impl; [exact Hts2|]. intros p. by apply safe_mono.
Qed.

(** ** Rules for fallible programs *)

Section Rules.

Context {E : Type}.

Lemma safe_try {A B} (m : Prog Reply (Result A E)) (k : A → Prog Reply (Result B E)) h Q :
  safe m h (λ r h', match r with
                    | Ok a => safe (k a) h' Q
                    | Err e => Q (Err e) h'
                    end) → safe (mtry m k) h Q.
Proof. intros Hm. apply safe_bind. eapply safe_weaken; [|exact Hm]. by intros [a|e] h' _. Qed.

Lemma safe_refuse b (e : E) h (Q : Result unit E → list (Event Reply) → Prop) :
  (b = true → Q (Err e) h) → (b = false → Q (Ok tt) h) → safe (refuse b e) h Q.
Proof. destruct b; cbn; auto. Qed.

Lemma safe_lift {A F} (f : F → E) (r : Result A F) h Q :
  (∀ a, r = Ok a → Q (Ok a) h) → (∀ e, Q (Err e) h) → safe (lift f r) h Q.
Proof. destruct r; cbn; auto. Qed.

Lemma safe_some_or {A} (o : option A) (e : E) h (Q : Result A E → list (Event Reply) → Prop) :
  (∀ a, o = Some a → Q (Ok a) h) → Q (Err e) h → safe (some_or o e) h Q.
Proof. destruct o; cbn; auto. Qed.

Lemma safe_awaited {A F} (f : F → E) (p : Prog Reply (Result A F)) h Q :
  safe p h (λ r h', Q (map_err f r) h') → safe (awaited f p) h Q.
Proof. intros Hp. by apply safe_bind. Qed.

Lemma safe_or_panic {A} (o : option A) h (Q : A → list (Event Reply) → Prop) :
  (∀ a, o = Some a → Q a h) → safe (or_panic o) h Q.
Proof. destruct o; cbn; auto. Qed.

End Rules.

End Systems.

Arguments Protocol {Call Reply World Oracle} exec initial_world.
Arguments System {Call Reply World}.
Arguments Move {Oracle Handler}.

(** Walks through a program; stops at calls whose permission needs evidence. *)
Ltac safe_step :=
  lazymatch goal with
  | |- safe _ _ (mtry _ _) _ _ => apply safe_try
  | |- safe _ _ (pbind _ _) _ _ => apply safe_bind
  | |- safe _ _ (refuse _ _) _ _ => apply safe_refuse; intros ?
  | |- safe _ _ (awaited _ _) _ _ => apply safe_awaited
  | |- safe _ _ (lift _ _) _ _ => apply safe_lift; intros ?; [intros ?|]
  | |- safe _ _ (some_or _ _) _ _ => apply safe_some_or; [intros ? ?|]
  | |- safe _ _ (or_panic _) _ _ => apply safe_or_panic; intros ? ?
  | |- safe _ _ (call _) _ _ => apply safe_call; [try exact I|intros ? ? ? ? ?]
  | |- safe _ _ (Return _) _ _ => cbn [safe]
  | |- safe _ _ Crash _ _ => exact I
  | |- safe _ _ (ok _) _ _ => unfold ok; cbn [safe]
  | |- safe _ _ (err _) _ _ => unfold err; cbn [safe]
  | |- safe _ _ (if ?b then _ else _) _ _ => destruct b eqn:?
  | |- safe _ _ (match ?o with _ => _ end) _ _ => destruct o eqn:?
  | |- safe _ _ (let _ := _ in _) _ _ => cbv zeta
  | |- match map_err _ ?r with _ => _ end => destruct r; cbn [map_err]
  | |- match ?r with Ok _ => _ | Err _ => _ end => destruct r
  | HQ : ∀ a h, ?Q a h |- ?Q _ _ => apply HQ
  | |- (λ _ _, _) _ _ => cbv beta
  | |- True => exact I
  end.
