(* ===== verification/F64.v ===== *)
(** * Rust's [f64]

    The API server computes prices and amounts in binary64. A value is a [spec_float]
    of the Standard Library with the precision and the exponents of binary64; the
    arithmetic is the library's executable specification of IEEE 754, rounding to
    nearest, ties to even. Below are the operations of Rust's standard library that the
    server uses: comparison, rounding, conversion from and to integers, reading a
    decimal and printing one with a fixed number of places. *)

From stdpp Require Import base decidable strings numbers list.
From Stdlib Require Import ZArith Lia SpecFloat.
From S2P Require Import Prelude RustStr.

Local Open Scope Z_scope.
Local Open Scope str_scope.

Abbreviation f64 := spec_float (only parsing).

#[export] Instance f64_eq_dec : EqDecision f64.
Proof. solve_decision. Defined.

Definition prec : Z := 53.
Definition emax : Z := 1024.

Definition fadd : f64 → f64 → f64 := SFadd prec emax.
Definition fsub : f64 → f64 → f64 := SFsub prec emax.
Definition fmul : f64 → f64 → f64 := SFmul prec emax.
Definition fdiv : f64 → f64 → f64 := SFdiv prec emax.

(** Comparisons; all are false on NaN. *)
Definition flt : f64 → f64 → bool := SFltb.
Definition fle : f64 → f64 → bool := SFleb.
Definition fgt (x y : f64) : bool := flt y x.

Definition fzero : f64 := S754_zero false.

Definition INFINITY : f64 := S754_infinity false.

Definition is_finite (x : f64) : bool :=
  match x with
  | S754_zero _ | S754_finite _ _ _ => true
  | S754_infinity _ | S754_nan => false
  end.

(** [x.clamp(lo, hi)]; NaN stays. *)
Definition fclamp (x lo hi : f64) : f64 :=
  let x1 := if flt x lo then lo else x in
  if fgt x1 hi then hi else x1.

(** [n as f64] for an integer. *)
Definition of_int (n : Z) : f64 := binary_normalize prec emax n 0 false.

(** [f64::EPSILON], 2^-52. *)
Definition EPSILON : f64 := binary_normalize prec emax 1 (-52) false.

(** [f64::round]: to the nearest integer, halves away from zero. *)
Definition fround (x : f64) : f64 :=
  match x with
  | S754_finite s m e =>
      if 0 <=? e then x
      else let n := (Zpos m + 2 ^ (- e - 1)) / 2 ^ (- e) in
           binary_normalize prec emax (if s then - n else n) 0 s
  | _ => x
  end.

(** The integer part. *)
Definition ftrunc (x : f64) : Z :=
  match x with
  | S754_finite s m e =>
      let n := if 0 <=? e then Zpos m * 2 ^ e else Zpos m / 2 ^ (- e) in
      if s then - n else n
  | _ => 0
  end.

(** [x as T] for an integer type: truncated and saturating, NaN is 0. *)
Definition to_int (t : IntTy) (x : f64) : Z :=
  match x with
  | S754_infinity s => if s then int_min t else int_max t
  | _ => clamp t (ftrunc x)
  end.

(** ** Reading decimals *)

(** The value [± m * 10^x], correctly rounded. *)
Definition of_decimal (s : bool) (m x : Z) : f64 :=
  match m with
  | Zpos p =>
      if 0 <=? x then binary_normalize prec emax (if s then - (m * 10 ^ x) else m * 10 ^ x) 0 s
      else match 10 ^ (- x) with
           | Zpos q => fdiv (S754_finite s p 0) (S754_finite false q 0)
           | _ => S754_nan
           end
  | _ => S754_zero s
  end.

(** The leading digits and the rest. *)
Fixpoint span_digits (s : Str) : Str * Str :=
  match s with
  | c :: s' => if is_ascii_digit c then let (a, b) := span_digits s' in (c :: a, b) else ([], s)
  | [] => ([], [])
  end.

Definition digits_value (s : Str) : Z := fold_left (λ a c, 10 * a + (c - 48)) s 0.

(** An optional sign and the rest. *)
Definition take_sign (s : Str) : bool * Str :=
  match s with
  | c :: s' => if c =? 45 then (true, s') else if c =? 43 then (false, s') else (false, s)
  | [] => (false, [])
  end.

(** The exponent part: nothing, or [e], a sign and digits up to the end. *)
Definition parse_exponent (s : Str) : option Z :=
  match s with
  | [] => Some 0
  | c :: s' =>
      if (c =? 101) || (c =? 69) then
        let (neg, r) := take_sign s' in
        match span_digits r with
        | (d :: ds, []) => Some (if neg then - digits_value (d :: ds) else digits_value (d :: ds))
        | _ => None
        end
      else None
  end.

Definition parse_number (neg : bool) (s : Str) : option f64 :=
  let (i, r) := span_digits s in
  let (f, r') := match r with
                 | c :: r' => if c =? dot then span_digits r' else ([], r)
                 | [] => ([], [])
                 end in
  match i ++ f with
  | [] => None
  | _ :: _ =>
      match parse_exponent r' with
      | Some x => Some (of_decimal neg (digits_value (i ++ f)) (x - Z.of_nat (length f)))
      | None => None
      end
  end.

(** [str::parse::<f64>], [None] for an error. *)
Definition parse_f64 (s : Str) : option f64 :=
  let (neg, r) := take_sign s in
  if eq_ignore_ascii_case r $"inf" || eq_ignore_ascii_case r $"infinity" then Some (S754_infinity neg)
  else if eq_ignore_ascii_case r $"nan" then Some S754_nan
  else parse_number neg r.

(** ** Printing *)

(** [n / d] to the nearest integer, halves to even. *)
Definition div_even (n d : Z) : Z :=
  let q := n / d in
  match (2 * (n mod d)) ?= d with
  | Lt => q
  | Eq => if Z.even q then q else q + 1
  | Gt => q + 1
  end.

(** The last [k] decimal digits, with leading zeros. *)
Fixpoint fixed_digits (k : nat) (n : Z) : Str :=
  match k with
  | O => []
  | S k' => fixed_digits k' (n / 10) ++ [48 + n mod 10]
  end.

(** [format!("{:.7}", x)]; 309 digits are enough for the integer part of every finite
    value. *)
Definition print7 (s : bool) (n : Z) : Str :=
  (if s then [45] else []) ++ digits 309 (n / 10 ^ 7) ++ [dot] ++ fixed_digits 7 n.

Definition format7 (x : f64) : Str :=
  match x with
  | S754_zero s => print7 s 0
  | S754_infinity s => (if s then [45] else []) ++ $"inf"
  | S754_nan => $"NaN"
  | S754_finite s m e =>
      print7 s (if 0 <=? e then Zpos m * 2 ^ e * 10 ^ 7 else div_even (Zpos m * 10 ^ 7) (2 ^ (- e)))
  end.

(** ** Facts *)

(** A finite value that is not at most zero is a positive number. *)
Lemma positive_finite x : is_finite x = true → fle x fzero = false → ∃ m e, x = S754_finite false m e.
Proof. destruct x as [s|s| |[] m e]; cbn; try done. eauto. Qed.

Lemma fle_refl x : x ≠ S754_nan → fle x x = true.
Proof.
  unfold fle, SFleb. destruct x as [s|[]| |[] m e]; cbn; try done; intros _; rewrite Z.compare_refl;
    change (Pos.compare_cont Eq m m) with (Pos.compare m m); by rewrite Pos.compare_refl.
Qed.

(** A cast is a value of its type. *)
Lemma to_int_fits t x : fits t (to_int t x).
Proof.
  unfold to_int. destruct x as [s|[]| |s m e]; try apply clamp_fits; unfold fits; destruct t; cbn; lia.
Qed.

(** ** Examples *)

Example parse_tenth : parse_f64 ($"0.1") = Some (S754_finite false 7205759403792794 (-56)).
Proof. vm_compute. reflexivity. Qed.

Example format_tenth : format7 (of_decimal false 1 (-1)) = $"0.1000000".
Proof. vm_compute. reflexivity. Qed.

(** 0.1 + 0.2 is not 0.3. *)
Example tenths_rounded :
  fadd (of_decimal false 1 (-1)) (of_decimal false 2 (-1)) = S754_finite false 5404319552844596 (-54).
Proof. vm_compute. reflexivity. Qed.

Example round_half : fround (of_decimal false 25 (-1)) = of_int 3.
Proof. vm_compute. reflexivity. Qed.

(** ** Facts on binary64

    Rounding keeps at most 53 bits and raises the exponent by at most one more than it
    must; so integers of Rust's types become finite numbers, positive ones positive, sums
    and differences of them are finite, and a quotient is a number unless zero is divided
    by zero or infinity by infinity. *)

(** ** Shifts *)

Lemma shr_1_half mrs : 0 ≤ shr_m mrs → shr_m (shr_1 mrs) = shr_m mrs / 2.
Proof.
  destruct mrs as [m r s]. cbn [shr_m]. intros Hm. destruct m as [|[p|p|]|p]; cbn [shr_1 shr_m]; [done| | |done|lia].
  - rewrite Pos2Z.inj_xI. replace (2 * Z.pos p + 1) with (1 + Z.pos p * 2) by lia. by rewrite Z_div_plus_full by lia.
  - rewrite Pos2Z.inj_xO. replace (2 * Z.pos p) with (Z.pos p * 2) by lia. by rewrite Z_div_mult_full by lia.
Qed.

Lemma iter_pos_add {A} (f : A → A) p x : iter_pos f p x = Pos.iter f x p.
Proof.
  revert x; induction p as [p IH|p IH|]; intros x; cbn; rewrite ?IH; [|done..].
  by rewrite <- !Pos.iter_swap.
Qed.

Lemma iter_shr mrs p : 0 ≤ shr_m mrs → shr_m (iter_pos shr_1 p mrs) = shr_m mrs / 2 ^ Z.pos p.
Proof.
  intros Hm. rewrite iter_pos_add. induction p as [|p IH] using Pos.peano_ind; [by apply shr_1_half|].
  rewrite Pos.iter_succ. rewrite shr_1_half; rewrite IH.
  - rewrite Zdiv_Zdiv by lia. f_equal. rewrite Pos2Z.inj_succ, Z.pow_succ_r by lia. lia.
  - apply Z.div_pos; lia.
Qed.

(** A shift by [n], if positive. *)
Lemma shr_spec mrs e n :
  0 ≤ shr_m mrs → shr_m (fst (shr mrs e n)) = shr_m mrs / 2 ^ Z.max n 0 ∧ snd (shr mrs e n) = e + Z.max n 0.
Proof.
  intros Hm. destruct n as [|p|p]; cbn [shr fst snd].
  - by rewrite Z.div_1_r, Z.add_0_r.
  - by rewrite iter_shr.
  - cbn. by rewrite Z.div_1_r, Z.add_0_r.
Qed.

(** ** Digits *)

Lemma digits2_bounds p : 2 ^ (Z.pos (digits2_pos p) - 1) ≤ Z.pos p < 2 ^ Z.pos (digits2_pos p).
Proof.
  induction p as [p IH|p IH|]; cbn [digits2_pos]; [| |done].
  all: rewrite Pos2Z.inj_succ, Z.pow_succ_r by lia; replace (Z.succ (Z.pos (digits2_pos p)) - 1) with (Z.succ (Z.pos (digits2_pos p) - 1)) by lia;
    rewrite Z.pow_succ_r by lia; lia.
Qed.

Lemma Zdigits2_bounds m : 0 < m → 2 ^ (Zdigits2 m - 1) ≤ m < 2 ^ Zdigits2 m ∧ 0 < Zdigits2 m.
Proof. destruct m as [|p|p]; try lia. intros _. split; [apply digits2_bounds|done]. Qed.

Lemma Zdigits2_le m a : 0 ≤ m < 2 ^ a → 0 ≤ a → Zdigits2 m ≤ a.
Proof.
  intros Hm Ha. destruct (Z.eq_dec m 0) as [->|Hn]; [done|]. destruct (Zdigits2_bounds m) as [[Hd _] Hp]; [lia|].
  destruct (Z.le_gt_cases (Zdigits2 m) a); [done|].
  pose proof (Z.pow_le_mono_r 2 a (Zdigits2 m - 1)). lia.
Qed.

(** ** Rounding *)

Definition fexp64 : Z → Z := fexp prec emax.

Lemma fexp64_eq e : fexp64 e = Z.max (e - 53) (-1074).
Proof. done. Qed.

(** What [shr_fexp] leaves: at most 53 digits, at the exponent they need. *)
Lemma shr_fexp_spec m e l :
  0 ≤ m → let r := shr_fexp prec emax m e l in
  snd r = Z.max e (fexp64 (Zdigits2 m + e)) ∧ shr_m (fst r) = m / 2 ^ (snd r - e).
Proof.
  intros Hm. cbv zeta. unfold shr_fexp. fold fexp64.
  assert (E : shr_m (shr_record_of_loc m l) = m) by (by destruct l as [|[]]).
  destruct (shr_spec (shr_record_of_loc m l) e (fexp64 (Zdigits2 m + e) - e)) as [E1 E2]; [by rewrite E|].
  rewrite E1, E2, E. split; [lia|]. do 2 f_equal. lia.
Qed.

Lemma shr_fexp_small m e l :
  0 ≤ m → 0 ≤ shr_m (fst (shr_fexp prec emax m e l)) < 2 ^ 53.
Proof.
  intros Hm. destruct (shr_fexp_spec m e l Hm) as [E1 E2]. rewrite E2, E1, fexp64_eq.
  destruct (Z.eq_dec m 0) as [->|Hn]; [rewrite Z.div_0_l; [lia|apply Z.pow_nonzero; lia]|].
  destruct (Zdigits2_bounds m) as [[_ Hd] Hp]; [lia|].
  split; [apply Z.div_pos; lia|]. apply Z.div_lt_upper_bound; [lia|]. rewrite <- Z.pow_add_r by lia.
  eapply Z.lt_le_trans; [exact Hd|]. apply Z.pow_le_mono_r; lia.
Qed.

Lemma round_nearest_bound m l : 0 ≤ m → m ≤ round_nearest_even m l ≤ m + 1.
Proof. intros Hm. destruct l as [|[]]; cbn; repeat case_match; lia. Qed.

(** The outcome of rounding: not NaN; zero, infinity, or a number with at most 53 bits and
    a known exponent. *)
Lemma binary_round_aux_spec s m e l :
  0 ≤ m →
  binary_round_aux prec emax s m e l = S754_zero s ∨ binary_round_aux prec emax s m e l = S754_infinity s ∨
  ∃ m' e', binary_round_aux prec emax s m e l = S754_finite s m' e' ∧ Z.pos m' ≤ 2 ^ 53 ∧ e ≤ e'.
Proof.
  intros Hm. unfold binary_round_aux. pose proof (shr_fexp_small m e l Hm) as H1.
  destruct (shr_fexp_spec m e l Hm) as [E1 _].
  destruct (shr_fexp prec emax m e l) as [r1 e1]. cbn [fst snd] in *.
  pose proof (round_nearest_bound (shr_m r1) (loc_of_shr_record r1) ltac:(lia)) as H2.
  set (m1 := round_nearest_even _ _) in *.
  destruct (shr_fexp_spec m1 e1 loc_Exact) as [E3 E4]; [lia|].
  destruct (shr_fexp prec emax m1 e1 loc_Exact) as [r2 e2]. cbn [fst snd] in *.
  assert (H3 : 0 ≤ shr_m r2 ≤ m1).
  { rewrite E4. split; [apply Z.div_pos; lia|]. apply Z.div_le_upper_bound; [lia|].
    pose proof (Z.pow_pos_nonneg 2 (e2 - e1)). nia. }
  destruct (shr_m r2) as [|p|p]; [by left| |lia]. right. destruct (_ <=? _); [|by left]. right.
  eexists _, _. split_and!; [done|lia|lia].
Qed.

(** Small exponents do not overflow, and what is positive stays so. *)
Lemma binary_round_aux_finite s m e l a :
  0 < m < 2 ^ a → 0 ≤ a → -1074 ≤ e ≤ 900 → e + a ≤ 1000 →
  ∃ m' e', binary_round_aux prec emax s m e l = S754_finite s m' e' ∧ Z.pos m' ≤ 2 ^ 53 ∧ e ≤ e' ≤ Z.max e (e + a - 53) + 1.
Proof.
  intros Hm Ha He Hea. unfold binary_round_aux. pose proof (shr_fexp_small m e l ltac:(lia)) as H1.
  destruct (shr_fexp_spec m e l ltac:(lia)) as [E1 E2]. destruct (Zdigits2_bounds m ltac:(lia)) as [[Hd1 Hd2] Hd].
  pose proof (Zdigits2_le m a ltac:(lia) Ha) as Hda. rewrite fexp64_eq in E1.
  destruct (shr_fexp prec emax m e l) as [r1 e1]. cbn [fst snd] in *.
  assert (Hpos : 0 < shr_m r1).
  { rewrite E2. apply Z.div_str_pos. split; [apply Z.pow_pos_nonneg; lia|]. eapply Z.le_trans; [|exact Hd1].
    apply Z.pow_le_mono_r; lia. }
  pose proof (round_nearest_bound (shr_m r1) (loc_of_shr_record r1) ltac:(lia)) as H2.
  set (m1 := round_nearest_even _ _) in *.
  destruct (shr_fexp_spec m1 e1 loc_Exact) as [E3 E4]; [lia|].
  pose proof (Zdigits2_le m1 54 ltac:(lia) ltac:(lia)) as Hd54. rewrite fexp64_eq in E3.
  destruct (Zdigits2_bounds m1 ltac:(lia)) as [[Hq1 _] Hq].
  destruct (shr_fexp prec emax m1 e1 loc_Exact) as [r2 e2]. cbn [fst snd] in *.
  assert (H3 : 0 < shr_m r2 ≤ m1).
  { rewrite E4. split.
    - apply Z.div_str_pos. split; [apply Z.pow_pos_nonneg; lia|]. eapply Z.le_trans; [|exact Hq1]. apply Z.pow_le_mono_r; lia.
    - apply Z.div_le_upper_bound; [lia|]. pose proof (Z.pow_pos_nonneg 2 (e2 - e1)). nia. }
  destruct (shr_m r2) as [|p|p]; [lia| |lia].
  rewrite (proj2 (Z.leb_le e2 (emax - prec))) by (unfold emax, prec; lia). eexists _, _. split_and!; [done|lia..].
Qed.

Lemma iter_xO m p : Z.pos (Pos.iter xO m p) = Z.pos m * 2 ^ Z.pos p.
Proof.
  induction p as [|p IH] using Pos.peano_ind; [change (Z.pos m~0 = Z.pos m * 2); lia|].
  rewrite Pos.iter_succ, Pos2Z.inj_succ, Z.pow_succ_r by lia. change (2 * Z.pos (Pos.iter xO m p) = Z.pos m * (2 * 2 ^ Z.pos p)). lia.
Qed.

(** Alignment before rounding: to the left only, by as much as is missing to 53 digits. *)
Lemma shl_align_spec m e e' :
  let r := shl_align m e e' in Z.pos (fst r) = Z.pos m * 2 ^ (e - snd r) ∧ snd r = Z.min e e'.
Proof.
  cbv zeta. unfold shl_align. destruct (e' - e) as [|p|p] eqn:E; cbn [fst snd].
  1-2: rewrite Z.sub_diag, Z.pow_0_r, Z.mul_1_r; split; [done|lia].
  replace (e - e') with (Z.pos p) by lia. split; [|lia].
  apply iter_xO.
Qed.

Lemma binary_round_spec s m e :
  binary_round prec emax s m e = S754_zero s ∨ binary_round prec emax s m e = S754_infinity s ∨
  ∃ m' e', binary_round prec emax s m e = S754_finite s m' e'.
Proof.
  unfold binary_round. destruct (shl_align _ _ _) as [mz ez].
  destruct (binary_round_aux_spec s (Z.pos mz) ez loc_Exact) as [?|[?|(? & ? & ? & _)]]; [lia|eauto..].
Qed.

Lemma binary_round_finite s m e a :
  Z.pos m < 2 ^ a → 53 ≤ a → -1000 ≤ e ≤ 900 → e + a ≤ 1000 →
  ∃ m' e', binary_round prec emax s m e = S754_finite s m' e' ∧ Z.pos m' ≤ 2 ^ 53 ∧ e - 53 ≤ e' ≤ e + a - 52.
Proof.
  intros Hm Ha He Hea. unfold binary_round. fold fexp64.
  destruct (shl_align_spec m e (fexp64 (Z.pos (digits2_pos m) + e))) as [E1 E2].
  destruct (shl_align m e _) as [mz ez]. cbn [fst snd] in *. rewrite fexp64_eq in E2.
  destruct (digits2_bounds m) as [_ Hd].
  assert (Hda : Z.pos (digits2_pos m) ≤ a) by (apply (Zdigits2_le (Z.pos m)); lia).
  assert (Hmz : Z.pos mz < 2 ^ a).
  { destruct (Z.eq_dec ez e) as [->|Hne]; [by rewrite E1, Z.sub_diag, Z.mul_1_r|].
    apply Z.lt_le_trans with (2 ^ (Z.pos (digits2_pos m) + (e - ez))); [|apply Z.pow_le_mono_r; lia].
    rewrite E1, Z.pow_add_r by lia. apply Z.mul_lt_mono_pos_r; [apply Z.pow_pos_nonneg; lia|done]. }
  destruct (binary_round_aux_finite s (Z.pos mz) ez loc_Exact a) as (m' & e' & E & ? & ?); [lia..|].
  eexists _, _. split; [exact E|]. lia.
Qed.

(** ** Integers *)

Definition is_nan (x : f64) : Prop := x = S754_nan.

(** A number of magnitude below 2^[k + 53]. *)
Definition tame (k : Z) (x : f64) : Prop :=
  match x with
  | S754_zero _ => True
  | S754_finite _ m e => Z.pos m ≤ 2 ^ 53 ∧ - k ≤ e ≤ k
  | _ => False
  end.

Lemma tame_finite k x : tame k x → is_finite x = true.
Proof. by destruct x. Qed.

Lemma normalize_tame n e z a :
  Z.abs n < 2 ^ a → 53 ≤ a → -1000 ≤ e ≤ 900 → e + a ≤ 1000 →
  tame (Z.abs e + a) (binary_normalize prec emax n e z).
Proof.
  intros Hn Ha He Hea. destruct n as [|p|p]; cbn [binary_normalize]; [done|..].
  - destruct (binary_round_finite false p e a) as (m & x & -> & ? & ?); [cbn in Hn; lia..|]. cbn. lia.
  - destruct (binary_round_finite true p e a) as (m & x & -> & ? & ?); [cbn in Hn; lia..|]. cbn. lia.
Qed.

(** Every integer of at most 128 bits is a finite number. *)
Lemma of_int_tame n : Z.abs n < 2 ^ 128 → tame 128 (of_int n).
Proof. intros Hn. apply (normalize_tame n 0 false 128); lia. Qed.

Lemma of_int_positive n : 0 < n < 2 ^ 128 → ∃ m e, of_int n = S754_finite false m e.
Proof.
  intros Hn. destruct n as [|p|p]; try lia. cbn [of_int binary_normalize].
  destruct (binary_round_finite false p 0 128) as (m & e & E & _); [lia..|]. by exists m, e.
Qed.

Lemma of_int_not_nan n : of_int n ≠ S754_nan.
Proof.
  unfold of_int. destruct n as [|p|p]; cbn [binary_normalize]; [done|..];
    match goal with |- binary_round _ _ ?s ?m ?e ≠ _ => destruct (binary_round_spec s m e) as [->|[->|(? & ? & ->)]] end; done.
Qed.

(** ** Arithmetic *)

Lemma align_bound k m e e0 :
  Z.pos m ≤ 2 ^ 53 → - k ≤ e ≤ k → - k ≤ e0 ≤ e → Z.pos (fst (shl_align m e e0)) ≤ 2 ^ (53 + 2 * k).
Proof.
  intros Hm He He0. destruct (shl_align_spec m e e0) as [-> E]. rewrite E, Z.min_r by lia.
  rewrite Z.pow_add_r by lia. apply Z.mul_le_mono_nonneg; [lia..|apply Z.pow_nonneg; lia|apply Z.pow_le_mono_r; lia].
Qed.

Lemma sum_tame k sx mx ex sy my ey (f : Z → Z → Z) :
  0 ≤ k ≤ 150 → (∀ a b, Z.abs (f a b) ≤ Z.abs a + Z.abs b) →
  tame k (S754_finite sx mx ex) → tame k (S754_finite sy my ey) →
  is_finite (binary_normalize prec emax
    (f (cond_Zopp sx (Z.pos (fst (shl_align mx ex (Z.min ex ey))))) (cond_Zopp sy (Z.pos (fst (shl_align my ey (Z.min ex ey))))))
    (Z.min ex ey) false) = true.
Proof.
  intros Hk Hf [Hmx Hex] [Hmy Hey].
  pose proof (align_bound k mx ex (Z.min ex ey) Hmx Hex ltac:(lia)) as Hax.
  pose proof (align_bound k my ey (Z.min ex ey) Hmy Hey ltac:(lia)) as Hay.
  eapply tame_finite, (normalize_tame _ _ _ (2 * k + 55)); [|lia..].
  specialize (Hf (cond_Zopp sx (Z.pos (fst (shl_align mx ex (Z.min ex ey))))) (cond_Zopp sy (Z.pos (fst (shl_align my ey (Z.min ex ey)))))).
  replace (2 ^ (2 * k + 55)) with (4 * 2 ^ (53 + 2 * k)) by (rewrite <- (Z.pow_add_r 2 2) by lia; f_equal; lia).
  destruct sx, sy; cbn [cond_Zopp] in *; lia.
Qed.

Lemma fsub_finite k x y : 0 ≤ k ≤ 150 → tame k x → tame k y → is_finite (fsub x y) = true.
Proof.
  intros Hk. destruct x as [sx|sx| |sx mx ex], y as [sy|sy| |sy my ey]; try done; [by destruct sx, sy|].
  intros Hx Hy. by apply (sum_tame k _ _ _ _ _ _ Z.sub); [|lia|..].
Qed.

(** Sums of finite numbers, and products, are numbers. *)
Lemma normalize_not_nan n e z : binary_normalize prec emax n e z ≠ S754_nan.
Proof.
  destruct n as [|p|p]; cbn [binary_normalize]; [done|..];
    match goal with |- binary_round _ _ ?s ?m ?e ≠ _ => destruct (binary_round_spec s m e) as [->|[->|(? & ? & ->)]] end; done.
Qed.

Lemma fadd_not_nan x y : is_finite x = true → is_finite y = true → fadd x y ≠ S754_nan.
Proof.
  destruct x as [sx|sx| |sx mx ex], y as [sy|sy| |sy my ey]; try done; [by destruct sx, sy|]. intros _ _. apply normalize_not_nan.
Qed.

(** One minus a number is a number. *)
Lemma fsub_one_not_nan x : x ≠ S754_nan → fsub (of_int 1) x ≠ S754_nan.
Proof.
  assert (∃ m e, of_int 1 = S754_finite false m e) as (m & e & ->) by (by eexists _, _).
  destruct x as [sx|sx| |sx mx ex]; try done. intros _. apply normalize_not_nan.
Qed.

Lemma fmul_not_nan x y : is_finite x = true → is_finite y = true → fmul x y ≠ S754_nan.
Proof.
  destruct x as [sx|sx| |sx mx ex], y as [sy|sy| |sy my ey]; try done. intros _ _. cbn.
  by destruct (binary_round_aux_spec (xorb sx sy) (Z.pos (mx * my)) (ex + ey) loc_Exact) as [->|[->|(? & ? & -> & _)]]; [lia|..].
Qed.

(** A quotient of a number by a finite one that is not zero, or of a finite one by an
    infinite one. *)
Lemma fdiv_not_nan x s m e : x ≠ S754_nan → fdiv x (S754_finite s m e) ≠ S754_nan.
Proof.
  destruct x as [sx|sx| |sx mx ex]; try done. intros _. cbn.
  destruct (SFdiv_core_binary prec emax (Z.pos mx) ex (Z.pos m) e) as [[q e'] l] eqn:E.
  assert (Hq : 0 ≤ q).
  { unfold SFdiv_core_binary in E. destruct (Z.div_eucl _ _) as [q' r'] eqn:Ed. injection E as <- _ _.
    match type of Ed with Z.div_eucl ?a ?b = _ => pose proof (Z.div_pos a b) as Hp; unfold Z.div in Hp; rewrite Ed in Hp end.
    apply Hp; [|lia]. repeat case_match; try lia. rewrite Z.shiftl_nonneg. lia. }
  by destruct (binary_round_aux_spec (xorb sx s) q e' l Hq) as [->|[->|(? & ? & -> & _)]].
Qed.

Lemma fdiv_infinite x s : is_finite x = true → fdiv x (S754_infinity s) ≠ S754_nan.
Proof. by destruct x. Qed.

(** ** Clamping *)

Definition unit_interval (x : f64) : Prop := fle fzero x = true ∧ fle x (of_int 1) = true.

Lemma unit_finite x : unit_interval x → is_finite x = true.
Proof. by destruct x as [|[]| |]; intros []. Qed.

Lemma SFcompare_antisym x y : SFcompare y x = option_map CompOpp (SFcompare x y).
Proof.
  destruct x as [sx|sx| |sx mx ex], y as [sy|sy| |sy my ey]; try done; try (by destruct sx); try (by destruct sy);
    try (by destruct sx, sy).
  destruct sx, sy; try done; cbn; rewrite (Z.compare_antisym ex ey); destruct (ex ?= ey); try done; cbn;
    change Pos.compare_cont with PosDef.Pos.compare_cont in *;
    change (PosDef.Pos.compare_cont Eq my mx) with (Pos.compare my mx); change (PosDef.Pos.compare_cont Eq mx my) with (Pos.compare mx my);
    by rewrite (Pos.compare_antisym mx my), ?CompOpp_involutive.
Qed.

(** A number that is clamped to the unit interval is in it. *)
Lemma fclamp_unit x : x ≠ S754_nan → unit_interval (fclamp x fzero (of_int 1)).
Proof.
  intros Hx. assert (H0 : is_Some (SFcompare fzero x)) by (destruct x as [|[]| |[]]; by eauto).
  assert (H1 : is_Some (SFcompare (of_int 1) x)) by (destruct x as [|[]| |[]]; by eauto).
  assert (Hz : unit_interval fzero) by (vm_compute; done). assert (Ho : unit_interval (of_int 1)) by (vm_compute; done).
  assert (Hn : SFcompare (of_int 1) fzero = Some Gt) by (vm_compute; done).
  unfold unit_interval, fclamp, fgt, flt, fle, SFltb, SFleb in *. revert H1 Hz Ho Hn. generalize (of_int 1). intros one H1 Hz Ho Hn.
  rewrite (SFcompare_antisym fzero x).
  destruct H0 as [c0 E0], H1 as [c1 E1]. rewrite E0. destruct c0; cbn [option_map CompOpp]; rewrite ?E1, ?Hn; try exact Hz;
    destruct c1; try exact Ho; by rewrite E0, (SFcompare_antisym one x), E1.
Qed.
