(* ===== verification/Xdr.v ===== *)
(** * Transactions of the Stellar network

    The data types of the crate stellar_xdr as far as the server looks at them; the rest
    of a union is one constructor that keeps its encoding. The codecs, SHA-256 and
    Ed25519 are parameters. A symbol is the text that the crate displays for it. *)

From stdpp Require Import base decidable strings numbers list.
From S2P Require Import Prelude RustStr Result.

Local Open Scope Z_scope.
Local Open Scope str_scope.

(** The sha2 crate. *)
Class Digest := sha256 : list Z → list Z.

(** ** Values of contracts *)

Inductive ScAddress :=
| ScAccount (key : list Z)
| ScContract (hash : list Z)
| ScMuxedAccount (key : list Z) (id : Z)
| ScClaimableBalance (xdr : list Z)
| ScLiquidityPool (xdr : list Z).

(** An [i128] is its upper half as an [i64] and its lower half as a [u64]. *)
Inductive ScVal :=
| ScBool (b : bool)
| ScVoid
| ScU32 (n : Z)
| ScI32 (n : Z)
| ScI128 (hi lo : Z)
| ScBytes (bytes : list Z)
| ScSymbol (s : Str)
| ScAddr (a : ScAddress)
| ScMap (entries : option (list (ScVal * ScVal)))
| ScOther (xdr : list Z).

Record ContractEvent := mkContractEvent {
  contract_id : option (list Z);
  topics : list ScVal;
  data : ScVal;
}.

Inductive HostFunction :=
| InvokeContract (contract_address : ScAddress) (function_name : Str) (args : list ScVal)
| OtherHostFunction (xdr : list Z).

(** ** Transactions *)

Module Asset.

Inductive Asset :=
| Native
| CreditAlphanum4 (code issuer : list Z)
| CreditAlphanum12 (code issuer : list Z).

End Asset.

Abbreviation Asset := Asset.Asset (only parsing).

Inductive MuxedAccount :=
| Ed25519 (key : list Z)
| MuxedEd25519 (id : Z) (key : list Z).

Record PathPaymentStrictSendOp := mkPathPaymentStrictSendOp {
  op_send_asset : Asset;
  op_send_amount : Z;
  op_destination : MuxedAccount;
  op_dest_asset : Asset;
  op_dest_min : Z;
  op_path : list Asset;
}.

(** What a trustline is for. *)
Inductive ChangeTrustAsset :=
| TrustAsset (a : Asset)
| OtherTrust (xdr : list Z).

Inductive OperationBody :=
| PathPaymentStrictSend (op : PathPaymentStrictSendOp)
| ChangeTrust (line : ChangeTrustAsset) (limit : Z)
| InvokeHostFunction (host_function : HostFunction) (auth : list (list Z))
| OtherOperation (xdr : list Z).

Record Operation := mkOperation {
  o_source_account : option MuxedAccount;
  o_body : OperationBody;
}.

Inductive Preconditions :=
| CondTime (min_time max_time : Z)
| CondV2 (time_bounds ledger_bounds : option (Z * Z)) (min_seq_num : option Z) (min_seq_age min_seq_ledger_gap : Z)
    (extra_signers : list (list Z))
| OtherCond (xdr : list Z).

Inductive Memo := MemoNone | OtherMemo (xdr : list Z).

Inductive TransactionExt := ExtV0 | OtherExt (xdr : list Z).

Record Transaction := mkTransaction {
  tx_source_account : MuxedAccount;
  tx_fee : Z;
  tx_seq_num : Z;
  tx_cond : Preconditions;
  tx_memo : Memo;
  tx_operations : list Operation;
  tx_ext : TransactionExt;
}.

Record DecoratedSignature := mkDecoratedSignature {
  hint : list Z;
  signature : list Z;
}.

Inductive TransactionEnvelope :=
| EnvelopeTx (tx : Transaction) (signatures : list DecoratedSignature)
| EnvelopeTxV0 (xdr : list Z)
| EnvelopeTxFeeBump (xdr : list Z).

(** ** Parameters *)

(** The XDR codecs, Ed25519 and the base64 decoder. [signature_payload] is the XDR of
    the network id and the transaction that is signed. *)
Class XdrLib := {
  signature_payload : list Z → Transaction → Result (list Z) Str;
  to_xdr_base64 : TransactionEnvelope → Result Str Str;
  from_xdr_base64 : Str → Result TransactionEnvelope Str;
  valid_key : list Z → bool;
  ed25519_verify : list Z → list Z → list Z → bool;
  base64_valid : Str → bool;
}.

(** The codecs of contract events and values, of the ledger key of an account, and of
    ledger entries: the sequence number of an account, [None] for another entry. *)
Class ScLib := {
  event_from_xdr_base64 : Str → Result ContractEvent Str;
  scval_from_xdr_base64 : Str → Result ScVal Str;
  account_key_to_xdr_base64 : list Z → Result Str Str;
  account_entry_from_xdr_base64 : Str → Result (option Z) Str;
}.

(** ** Constants (swap/tx.rs) *)

Definition DEFAULT_BASE_FEE : Z := 100.
Definition DEFAULT_TIMEOUT_SECS : Z := 120.

(** ** Decidable equality *)

#[export] Instance ScAddress_eq_dec : EqDecision ScAddress.
Proof. solve_decision. Defined.
#[export] Instance ScVal_eq_dec : EqDecision ScVal.
Proof.
  refine (fix go v w := let _ : EqDecision ScVal := @go in
    match v, w with
    | ScBool a, ScBool b => cast_if (decide (a = b))
    | ScVoid, ScVoid => left _
    | ScU32 a, ScU32 b | ScI32 a, ScI32 b => cast_if (decide (a = b))
    | ScI128 a b, ScI128 a' b' => cast_if_and (decide (a = a')) (decide (b = b'))
    | ScBytes a, ScBytes b | ScSymbol a, ScSymbol b | ScOther a, ScOther b => cast_if (decide (a = b))
    | ScAddr a, ScAddr b => cast_if (decide (a = b))
    | ScMap a, ScMap b => cast_if (decide (a = b))
    | _, _ => right _
    end); congruence.
Defined.
#[export] Instance HostFunction_eq_dec : EqDecision HostFunction.
Proof. solve_decision. Defined.
#[export] Instance Asset_eq_dec : EqDecision Asset.
Proof. solve_decision. Defined.
#[export] Instance MuxedAccount_eq_dec : EqDecision MuxedAccount.
Proof. solve_decision. Defined.
#[export] Instance PathPayment_eq_dec : EqDecision PathPaymentStrictSendOp.
Proof. solve_decision. Defined.
#[export] Instance ChangeTrustAsset_eq_dec : EqDecision ChangeTrustAsset.
Proof. solve_decision. Defined.
#[export] Instance OperationBody_eq_dec : EqDecision OperationBody.
Proof. solve_decision. Defined.
#[export] Instance Operation_eq_dec : EqDecision Operation.
Proof. solve_decision. Defined.
#[export] Instance Preconditions_eq_dec : EqDecision Preconditions.
Proof. solve_decision. Defined.
#[export] Instance Memo_eq_dec : EqDecision Memo.
Proof. solve_decision. Defined.
#[export] Instance TransactionExt_eq_dec : EqDecision TransactionExt.
Proof. solve_decision. Defined.
#[export] Instance Transaction_eq_dec : EqDecision Transaction.
Proof. solve_decision. Defined.
#[export] Instance DecoratedSignature_eq_dec : EqDecision DecoratedSignature.
Proof. solve_decision. Defined.
#[export] Instance TransactionEnvelope_eq_dec : EqDecision TransactionEnvelope.
Proof. solve_decision. Defined.
