(* ===== verification/Types.v ===== *)
(** * Data of the router contract

    The types of [crates/contracts/src/types.rs] and the error enum of
    [errors.rs], constructor for constructor and field for field. Rust enums live
    in a module of their name, so [Asset.Native] reads as [Asset::Native]. An
    [Address] is an opaque identifier, a [Symbol] a string and a [BytesN<32>] a
    list of bytes. *)

From stdpp Require Import base decidable list gmap strings numbers.
From S2P Require Import Prelude.

Local Open Scope Z_scope.

(** An account or contract address: only its equality matters. *)
Record Address := mkAddr { addr_id : Z }.

#[export] Instance Address_eq_dec : EqDecision Address.
Proof. solve_decision. Defined.

Abbreviation Symbol := string (only parsing).
Abbreviation Bytes := (list Z) (only parsing).
Abbreviation BytesN32 := (list Z) (only parsing).

(** [BytesN::from_array(e, &[0u8; 32])]. *)
Definition zero_bytes32 : BytesN32 := replicate 32 0.

(** ** errors.rs *)

Module ContractError.

Inductive ContractError :=
| NotInitialized
| AlreadyInitialized
| Unauthorized
| Paused
| InvalidRoute
| RouteExpired
| EmptyRoute
| TooManyHops
| InsufficientInput
| InsufficientOutput
| SlippageExceeded
| DeadlineExceeded
| ExecutionTooEarly
| PriceImpactTooHigh
| SpreadTooHigh
| PoolNotSupported
| PoolCallFailed
| ReserveManipulationDetected
| AmmQuoteCallFailed
| AmmSwapCallFailed
| AmmReservesCallFailed
| InvalidAmount
| Overflow
| InvalidRecipient
| UseGovernance
| NotMultiSig
| ProposalNotFound
| ProposalExpired
| ProposalAlreadyExecuted
| AlreadyApproved
| ThresholdNotMet
| SignerLimitReached
| UpgradeLocked
| UpgradePending
| NoUpgradePending
| SameWasmHash
| MigrationAlreadyDone
| TokenNotAllowed
| TokenAlreadyAdded
| TokenInUse
| BatchTooLarge
| CommitmentRequired
| CommitmentNotFound
| CommitmentExpired
| InvalidReveal
| RateLimitExceeded
| InvalidFeeConfig.

(** The [#[repr(u32)]] discriminants, which [execute] publishes ([err as u32]). *)
Definition code (e : ContractError) : Z :=
  match e with
  | NotInitialized => 1 | AlreadyInitialized => 2 | Unauthorized => 3 | Paused => 4
  | InvalidRoute => 10 | RouteExpired => 11 | EmptyRoute => 12 | TooManyHops => 13
  | InsufficientInput => 20 | InsufficientOutput => 21 | SlippageExceeded => 22
  | DeadlineExceeded => 23 | ExecutionTooEarly => 24 | PriceImpactTooHigh => 25
  | SpreadTooHigh => 26
  | PoolNotSupported => 30 | PoolCallFailed => 31 | ReserveManipulationDetected => 32
  | AmmQuoteCallFailed => 33 | AmmSwapCallFailed => 34 | AmmReservesCallFailed => 35
  | InvalidAmount => 40 | Overflow => 41 | InvalidRecipient => 42
  | UseGovernance => 50 | NotMultiSig => 51 | ProposalNotFound => 52
  | ProposalExpired => 53 | ProposalAlreadyExecuted => 54 | AlreadyApproved => 55
  | ThresholdNotMet => 56 | SignerLimitReached => 57
  | UpgradeLocked => 60 | UpgradePending => 61 | NoUpgradePending => 62
  | SameWasmHash => 63 | MigrationAlreadyDone => 70
  | TokenNotAllowed => 80 | TokenAlreadyAdded => 81 | TokenInUse => 82 | BatchTooLarge => 83
  | CommitmentRequired => 90 | CommitmentNotFound => 91 | CommitmentExpired => 92
  | InvalidReveal => 93 | RateLimitExceeded => 94
  | InvalidFeeConfig => 100
  end.

End ContractError.

Abbreviation ContractError := ContractError.ContractError (only parsing).

#[export] Instance ContractError_eq_dec : EqDecision ContractError.ContractError.
Proof. solve_decision. Defined.

(** ** types.rs *)

Module Asset.

Inductive Asset :=
| Native
| Issued (issuer : Address) (code : Symbol)
| Soroban (addr : Address).

End Asset.

Abbreviation Asset := Asset.Asset (only parsing).

#[export] Instance Asset_eq_dec : EqDecision Asset.Asset.
Proof. solve_decision. Defined.

Module PoolType.

Inductive PoolType := Sdex | AmmConstProd | AmmStable.

End PoolType.

Abbreviation PoolType := PoolType.PoolType (only parsing).

#[export] Instance PoolType_eq_dec : EqDecision PoolType.PoolType.
Proof. solve_decision. Defined.

Record RouteHop := mkRouteHop {
  hop_source : Asset;
  hop_destination : Asset;
  hop_pool : Address;
  hop_pool_type : PoolType
}.

Record Route := mkRoute {
  hops : list RouteHop;
  estimated_output : Z;
  min_output : Z;
  route_expires_at : Z
}.

Record SwapParams := mkSwapParams {
  sp_route : Route;
  amount_in : Z;
  min_amount_out : Z;
  recipient : Address;
  deadline : Z;
  not_before : Z;
  sp_max_price_impact_bps : Z;
  sp_max_execution_spread_bps : Z
}.

Record QuoteResult := mkQuoteResult {
  expected_output : Z;
  price_impact_bps : Z;
  fee_amount : Z;
  qr_route : Route;
  valid_until : Z
}.

Record SwapResult := mkSwapResult {
  sr_amount_in : Z;
  sr_amount_out : Z;
  sr_route : Route;
  executed_at : Z
}.

Record TTLStatus := mkTTLStatus {
  instance_ttl_remaining : Z;
  pools_min_ttl : Z;
  needs_extension : bool;
  last_extended_ledger : Z
}.

(** *** Fee distribution *)

Record FeeRecipient := mkFeeRecipient {
  fr_address : Address;
  share_bps : Z;
  label : Symbol
}.

Record FeeConfig := mkFeeConfig {
  recipients : list FeeRecipient;
  min_distribution : Z;
  auto_distribute : bool
}.

Record DistributionRecord := mkDistributionRecord {
  dr_timestamp : Z;
  total_distributed : Z
}.

(** *** Token allowlist *)

Module TokenCategory.

Inductive TokenCategory := Native | Stablecoin | Wrapped | Ecosystem | Community.

End TokenCategory.

Abbreviation TokenCategory := TokenCategory.TokenCategory (only parsing).

#[export] Instance TokenCategory_eq_dec : EqDecision TokenCategory.TokenCategory.
Proof. solve_decision. Defined.

Record TokenInfo := mkTokenInfo {
  ti_asset : Asset;
  ti_name : Symbol;
  ti_code : Symbol;
  ti_decimals : Z;
  ti_issuer_verified : bool;
  ti_category : TokenCategory;
  ti_added_at : Z;
  ti_added_by : Address
}.

(** *** Multi-sig governance *)

Record GovernanceConfig := mkGovernanceConfig {
  signers : list Address;
  threshold : Z;
  proposal_ttl : Z
}.

Module ProposalAction.

Inductive ProposalAction :=
| SetFeeRate (rate : Z)
| SetFeeTo (addr : Address)
| SetFeeConfig (config : FeeConfig)
| RegisterPool (pool : Address) (pool_type : PoolType)
| DeregisterPool (pool : Address)
| Pause
| Unpause
| Upgrade (wasm_hash : BytesN32)
| AddSigner (new_signer : Address)
| RemoveSigner (signer : Address)
| ChangeThreshold (new_threshold : Z).

End ProposalAction.

Abbreviation ProposalAction := ProposalAction.ProposalAction (only parsing).

Record Proposal := mkProposal {
  p_id : Z;
  p_action : ProposalAction;
  p_proposer : Address;
  p_approvals : list Address;
  p_created_at : Z;
  p_expires_at : Z;
  p_executed : bool
}.

(** *** Version and upgrade *)

Record ContractVersion := mkContractVersion {
  major : Z;
  minor : Z;
  patch : Z;
  wasm_hash : BytesN32;
  upgraded_at : Z
}.

Record PendingUpgrade := mkPendingUpgrade {
  new_wasm_hash : BytesN32;
  proposed_at : Z;
  execute_after : Z;
  proposer : Address
}.

(** *** Commit-reveal and MEV configuration *)

Record CommitmentData := mkCommitmentData {
  cd_sender : Address;
  cd_deposit_amount : Z;
  cd_commitment_hash : BytesN32;
  cd_created_at : Z;
  cd_expires_at : Z
}.

Record MevConfig := mkMevConfig {
  mc_max_price_impact_bps : Z;
  mc_max_execution_spread_bps : Z;
  rate_limit_window_ledgers : Z;
  rate_limit_max_swaps : Z;
  commitment_required_above : Z
}.

(** [ResourceEstimate] of router.rs. *)
Record ResourceEstimate := mkResourceEstimate {
  estimated_cpu : Z;
  storage_reads : Z;
  storage_writes : Z;
  re_events : Z;
  will_succeed : bool
}.

(** ** Values of the machine types

    The integers and byte strings a caller passes are values of their Rust types. *)

Definition wf_hash (b : BytesN32) : Prop := length b = 32%nat ∧ Forall is_byte b.

Definition wf_route (r : Route) : Prop :=
  fits I128 (estimated_output r) ∧ fits I128 (min_output r) ∧ fits U64 (route_expires_at r).

Definition wf_params (p : SwapParams) : Prop :=
  wf_route (sp_route p) ∧ fits I128 (amount_in p) ∧ fits I128 (min_amount_out p) ∧
  fits U64 (deadline p) ∧ fits U64 (not_before p) ∧
  fits U32 (sp_max_price_impact_bps p) ∧ fits U32 (sp_max_execution_spread_bps p).

Definition wf_fee_config (f : FeeConfig) : Prop :=
  Forall (λ r, fits U32 (share_bps r)) (recipients f) ∧ fits I128 (min_distribution f).

Definition wf_mev_config (m : MevConfig) : Prop :=
  fits U32 (mc_max_price_impact_bps m) ∧ fits U32 (mc_max_execution_spread_bps m) ∧
  fits U32 (rate_limit_window_ledgers m) ∧ fits U32 (rate_limit_max_swaps m) ∧
  fits I128 (commitment_required_above m).

Definition wf_action (a : ProposalAction) : Prop :=
  match a with
  | ProposalAction.SetFeeRate rate => fits U32 rate
  | ProposalAction.SetFeeConfig config => wf_fee_config config
  | ProposalAction.Upgrade h => wf_hash h
  | ProposalAction.ChangeThreshold t => fits U32 t
  | _ => True
  end.

(** The error codes are pairwise distinct, so a code identifies the error. *)
Lemma error_code_inj e e' : ContractError.code e = ContractError.code e' → e = e'.
Proof. destruct e, e'; by intros. Qed.

(** ** Storage keys

    [StorageKey] of [storage.rs] and [IdxKey] of [tokens.rs]. The two enums are
    distinct contract types, so their entries never collide; [Key] is their
    disjoint union. Every key is always written with values of one Rust type,
    which [kval] records: a read of a key yields a value of that type. *)

Module StorageKey.

Inductive StorageKey :=
| Admin
| FeeRate
| FeeTo
| Paused
| SupportedPool (pool : Address)
| PoolCount
| SwapNonce (address : Address)
| TotalSwapVolume
| PoolList
| LastTtlExtension
| IsMultiSig
| Governance
| Guardian
| ProposalCounter
| ContractVersionKey
| PendingUpgradeKey
| TokenCount
| MevConfig
| PendingUpgrade
| Commitment (hash : BytesN32)
| AccountSwapCount (address : Address)
| AccountSwapWindowStart (address : Address)
| Whitelisted (address : Address)
| LatestKnownPrice (token_a token_b : Address)
| FeeConfig
| FeeBalance (asset : Asset)
| TotalFeesCollected (asset : Asset)
| TotalFeesBurned (asset : Asset)
| DistributionHistory (asset : Asset)
| ProposalEntry (id : Z)
| VersionHistory (ledger : Z)
| MigrationDone (major minor patch : Z)
| AllowedToken (asset : Asset).

End StorageKey.

Module IdxKey.

Inductive IdxKey :=
| CatEntry (category : TokenCategory) (n : Z)
| CatLen (category : TokenCategory).

End IdxKey.

Inductive Key :=
| SK (k : StorageKey.StorageKey)
| IK (k : IdxKey.IdxKey).

#[export] Instance StorageKey_eq_dec : EqDecision StorageKey.StorageKey.
Proof. solve_decision. Defined.

#[export] Instance IdxKey_eq_dec : EqDecision IdxKey.IdxKey.
Proof. solve_decision. Defined.

#[export] Instance Key_eq_dec : EqDecision Key.
Proof. solve_decision. Defined.

(** The type of the values the contract stores under each key. *)
Definition kval (k : Key) : Type :=
  match k with
  | SK StorageKey.Admin => Address
  | SK StorageKey.FeeRate => Z
  | SK StorageKey.FeeTo => Address
  | SK StorageKey.Paused => bool
  | SK (StorageKey.SupportedPool _) => bool
  | SK StorageKey.PoolCount => Z
  | SK (StorageKey.SwapNonce _) => Z
  | SK StorageKey.TotalSwapVolume => Z
  | SK StorageKey.PoolList => list Address
  | SK StorageKey.LastTtlExtension => Z
  | SK StorageKey.IsMultiSig => bool
  | SK StorageKey.Governance => GovernanceConfig
  | SK StorageKey.Guardian => Address
  | SK StorageKey.ProposalCounter => Z
  | SK StorageKey.ContractVersionKey => ContractVersion
  | SK StorageKey.PendingUpgradeKey => PendingUpgrade
  | SK StorageKey.TokenCount => Z
  | SK StorageKey.MevConfig => MevConfig
  | SK StorageKey.PendingUpgrade => PendingUpgrade
  | SK (StorageKey.Commitment _) => CommitmentData
  | SK (StorageKey.AccountSwapCount _) => Z
  | SK (StorageKey.AccountSwapWindowStart _) => Z
  | SK (StorageKey.Whitelisted _) => bool
  | SK (StorageKey.LatestKnownPrice _ _) => Z
  | SK StorageKey.FeeConfig => FeeConfig
  | SK (StorageKey.FeeBalance _) => Z
  | SK (StorageKey.TotalFeesCollected _) => Z
  | SK (StorageKey.TotalFeesBurned _) => Z
  | SK (StorageKey.DistributionHistory _) => list DistributionRecord
  | SK (StorageKey.ProposalEntry _) => Proposal
  | SK (StorageKey.VersionHistory _) => ContractVersion
  | SK (StorageKey.MigrationDone _ _ _) => bool
  | SK (StorageKey.AllowedToken _) => TokenInfo
  | IK (IdxKey.CatEntry _ _) => Asset
  | IK (IdxKey.CatLen _) => Z
  end.

Coercion SK : StorageKey.StorageKey >-> Key.
Coercion IK : IdxKey.IdxKey >-> Key.
