(* ===== verification/Host.v ===== *)
(** * The Soroban host

    The contract runs inside the Soroban environment ([soroban_sdk::Env]), whose
    code is not part of the repository. [Host] is the interface the contract
    uses: the three storage durabilities, calls to token and pool contracts, the
    hash function and the WASM registry, all of them parameters. [HostOk] states
    the documented behaviour the contract relies on: a stored value is read back,
    other entries are untouched, extending a TTL changes no value, a temporary
    entry is readable for as long as its TTL was extended to.

    On top of the interface, [M] is the monad of the contract's functions: it
    reads the invocation context [Ctx], threads the [World] and returns a value,
    a [ContractError] or a trap ([panic!], a failed [require_auth], a failed
    host call). *)

From stdpp Require Import base decidable strings numbers list.
From S2P Require Import Prelude Types.

Local Open Scope Z_scope.

(** ** Published events

    One constructor per function of [events.rs], carrying the data the function
    publishes (for the functions that append [e.ledger().sequence()], the ledger
    is the last field). [topic] is the short symbol in second position of the
    topics tuple; every topics tuple starts with the symbol "StellarRoute". *)

Inductive Event :=
| EvInitialized (admin : Address) (fee_rate : Z)
| EvAdminChanged (old_admin new_admin : Address)
| EvPoolRegistered (pool : Address)
| EvPaused
| EvUnpaused
| EvSwapExecuted (sender : Address) (amount_in amount_out fee : Z) (route : Route) (ledger : Z)
| EvRouteValidated (hop_count expires_at ledger : Z)
| EvQuoteGenerated (amount_in expected_output fee_amount price_impact_bps hop_count valid_until ledger : Z)
| EvExecutionRequested (sender : Address) (amount_in hop_count deadline ledger : Z)
| EvExecutionFailed (sender : Address) (error_code ledger : Z)
| EvGovernanceMigrated (old_admin : Address) (signer_count threshold : Z)
| EvProposalCreated (id : Z) (proposer : Address) (action : ProposalAction)
| EvProposalApproved (id : Z) (signer : Address) (approvals : Z)
| EvProposalExecuted (id : Z)
| EvProposalCancelled (id : Z) (by_ : Address)
| EvGuardianSet (guardian : Address)
| EvGuardianPaused (guardian : Address)
| EvUpgradeProposed (proposer : Address) (old_hash new_hash : BytesN32) (execute_after : Z)
| EvUpgradeCompleted (old_hash new_hash : BytesN32) (ledger : Z)
| EvUpgradeCancelled (by_ : Address)
| EvMigrationCompleted (major minor patch : Z)
| EvTokenAdded (asset : Asset) (added_by : Address)
| EvTokenRemoved (asset : Asset) (removed_by : Address)
| EvTokenUpdated (asset : Asset) (updated_by : Address)
| EvHighImpactSwap (sender : Address) (impact_bps amount_in : Z)
| EvRateLimitHit (sender : Address) (swap_count window : Z)
| EvCommitmentCreated (sender : Address) (commitment_hash : BytesN32) (deposit_amount : Z)
| EvCommitmentRevealed (sender : Address) (commitment_hash : BytesN32)
| EvTtlExtended (pools_extended ledger : Z)
| EvTtlWarning (estimated_remaining threshold : Z)
| EvFeeCollected (asset : Asset) (amount ledger : Z)
| EvFeesDistributed (asset : Asset) (total_distributed ledger : Z)
| EvFeesBurned (asset : Asset) (amount ledger : Z).

Definition topic (ev : Event) : string :=
  match ev with
  | EvInitialized _ _ => "init"
  | EvAdminChanged _ _ => "adm_chg"
  | EvPoolRegistered _ => "reg_pol"
  | EvPaused => "paused"
  | EvUnpaused => "unpaused"
  | EvSwapExecuted _ _ _ _ _ _ => "swap"
  | EvRouteValidated _ _ _ => "rt_val"
  | EvQuoteGenerated _ _ _ _ _ _ _ => "quote"
  | EvExecutionRequested _ _ _ _ _ => "exe_req"
  | EvExecutionFailed _ _ _ => "exe_fail"
  | EvGovernanceMigrated _ _ _ => "gov_mgr"
  | EvProposalCreated _ _ _ => "prop_new"
  | EvProposalApproved _ _ _ => "prop_apr"
  | EvProposalExecuted _ => "prop_exe"
  | EvProposalCancelled _ _ => "prop_can"
  | EvGuardianSet _ => "grd_set"
  | EvGuardianPaused _ => "grd_pse"
  | EvUpgradeProposed _ _ _ _ => "upg_prp"
  | EvUpgradeCompleted _ _ _ => "upg_done"
  | EvUpgradeCancelled _ => "upg_can"
  | EvMigrationCompleted _ _ _ => "mig_done"
  | EvTokenAdded _ _ => "tok_add"
  | EvTokenRemoved _ _ => "tok_rm"
  | EvTokenUpdated _ _ => "tok_upd"
  | EvHighImpactSwap _ _ _ => "hi_imp"
  | EvRateLimitHit _ _ _ => "rl_hit"
  | EvCommitmentCreated _ _ _ => "cmt_new"
  | EvCommitmentRevealed _ _ => "cmt_rvl"
  | EvTtlExtended _ _ => "ttl_ext"
  | EvTtlWarning _ _ => "ttl_wrn"
  | EvFeeCollected _ _ _ => "fee_col"
  | EvFeesDistributed _ _ _ => "fee_dist"
  | EvFeesBurned _ _ _ => "fee_brn"
  end.

(** The context of one invocation: [e.ledger().sequence()],
    [e.current_contract_address()] and the addresses that signed for it. *)
Record Ctx := mkCtx {
  ledger_seq : Z;
  self : Address;
  signed : Address → bool
}.

(** ** The host interface *)

Class Host := {
  (** instance storage *)
  istore : Type;
  i_get : istore → ∀ k : Key, option (kval k);
  i_set : istore → ∀ k : Key, kval k → istore;
  i_remove : istore → Key → istore;
  i_extend_ok : istore → Z → Z → Z → bool;
  i_extend : istore → Z → Z → Z → istore;
  (** persistent storage *)
  pstore : Type;
  p_get : pstore → ∀ k : Key, option (kval k);
  p_set : pstore → ∀ k : Key, kval k → pstore;
  p_remove : pstore → Key → pstore;
  p_extend_ok : pstore → Z → Key → Z → Z → bool;
  p_extend : pstore → Z → Key → Z → Z → pstore;
  (** temporary storage: reads and writes happen at a ledger *)
  tstore : Type;
  t_get : tstore → Z → ∀ k : Key, option (kval k);
  t_set : tstore → Z → ∀ k : Key, kval k → tstore;
  t_remove : tstore → Key → tstore;
  t_extend_ok : tstore → Z → Key → Z → Z → bool;
  t_extend : tstore → Z → Key → Z → Z → tstore;
  (** the contracts the router calls; [None] is a failed call *)
  xworld : Type;
  x_transfer : Ctx → xworld → Address → Address → Address → Z → option xworld;
  x_burn : Ctx → xworld → Address → Address → Z → option xworld;
  x_quote : Ctx → xworld → Address → Asset → Asset → Z → option (Z * xworld);
  x_swap : Ctx → xworld → Address → Asset → Asset → Z → Z → option (Z * xworld);
  x_reserves : Ctx → xworld → Address → option ((Z * Z) * xworld);
  (** [update_current_contract_wasm] traps on a hash that was never uploaded *)
  wasm_uploaded : xworld → BytesN32 → bool;
  (** [e.crypto().sha256] *)
  sha256 : Bytes → BytesN32;
  (** the build profile's [overflow-checks] *)
  overflow_checks : bool
}.

(** The documented behaviour of the storage. *)
Class HostOk (H : Host) : Prop := {
  i_get_set_eq s k v : i_get (i_set s k v) k = Some v;
  i_get_set_ne s k k' v : k ≠ k' → i_get (i_set s k v) k' = i_get s k';
  i_get_remove_eq s k : i_get (i_remove s k) k = None;
  i_get_remove_ne s k k' : k ≠ k' → i_get (i_remove s k) k' = i_get s k';
  i_get_extend s n th ex k : i_get (i_extend s n th ex) k = i_get s k;
  p_get_set_eq s k v : p_get (p_set s k v) k = Some v;
  p_get_set_ne s k k' v : k ≠ k' → p_get (p_set s k v) k' = p_get s k';
  p_get_remove_eq s k : p_get (p_remove s k) k = None;
  p_get_remove_ne s k k' : k ≠ k' → p_get (p_remove s k) k' = p_get s k';
  p_get_extend s n k th ex k' : p_get (p_extend s n k th ex) k' = p_get s k';
  t_get_set_eq s n k v : t_get (t_set s n k v) n k = Some v;
  t_get_set_ne s n m k k' v : k ≠ k' → t_get (t_set s n k v) m k' = t_get s m k';
  t_get_remove_eq s n k : t_get (t_remove s k) n k = None;
  t_get_remove_ne s n k k' : k ≠ k' → t_get (t_remove s k) n k' = t_get s n k';
  t_get_extend s n k th ex k' : t_get (t_extend s n k th ex) n k' = t_get s n k';
  t_get_extend_ne s n m k th ex k' :
    k ≠ k' → t_get (t_extend s n k th ex) m k' = t_get s m k';
  (** an entry extended to [ex] ledgers stays readable for [ex] ledgers *)
  t_get_extended s n m k ex v :
    t_get s n k = Some v → n <= m <= n + ex →
    t_get (t_extend s n k ex ex) m k = Some v;
  (** the passing of ledgers can only expire an entry *)
  t_get_later s n m k v : n <= m → t_get s m k = Some v → t_get s n k = Some v
}.

(** ** The world of an invocation *)

Section World.

Context {H : Host}.

Record World := mkWorld {
  w_inst : istore;
  w_pers : pstore;
  w_temp : tstore;
  w_ext : xworld;
  w_events : list Event;
  w_wasm : BytesN32
}.

Definition iget (w : World) (k : Key) : option (kval k) := i_get (w_inst w) k.
Definition pget (w : World) (k : Key) : option (kval k) := p_get (w_pers w) k.
Definition tget (w : World) (n : Z) (k : Key) : option (kval k) := t_get (w_temp w) n k.

Definition with_inst (w : World) (s : istore) : World :=
  mkWorld s (w_pers w) (w_temp w) (w_ext w) (w_events w) (w_wasm w).
Definition with_pers (w : World) (s : pstore) : World :=
  mkWorld (w_inst w) s (w_temp w) (w_ext w) (w_events w) (w_wasm w).
Definition with_temp (w : World) (s : tstore) : World :=
  mkWorld (w_inst w) (w_pers w) s (w_ext w) (w_events w) (w_wasm w).
Definition with_ext (w : World) (x : xworld) : World :=
  mkWorld (w_inst w) (w_pers w) (w_temp w) x (w_events w) (w_wasm w).
Definition emit (w : World) (ev : Event) : World :=
  mkWorld (w_inst w) (w_pers w) (w_temp w) (w_ext w) (w_events w ++ [ev]) (w_wasm w).
Definition with_wasm (w : World) (h : BytesN32) : World :=
  mkWorld (w_inst w) (w_pers w) (w_temp w) (w_ext w) (w_events w) h.

Definition iset (w : World) (k : Key) (v : kval k) : World := with_inst w (i_set (w_inst w) k v).
Definition idel (w : World) (k : Key) : World := with_inst w (i_remove (w_inst w) k).
Definition iext (w : World) (n th ex : Z) : World := with_inst w (i_extend (w_inst w) n th ex).
Definition pset (w : World) (k : Key) (v : kval k) : World := with_pers w (p_set (w_pers w) k v).
Definition pdel (w : World) (k : Key) : World := with_pers w (p_remove (w_pers w) k).
Definition pext (w : World) (n : Z) (k : Key) (th ex : Z) : World :=
  with_pers w (p_extend (w_pers w) n k th ex).
Definition tset (w : World) (n : Z) (k : Key) (v : kval k) : World :=
  with_temp w (t_set (w_temp w) n k v).
Definition tdel (w : World) (k : Key) : World := with_temp w (t_remove (w_temp w) k).
Definition text (w : World) (n : Z) (k : Key) (th ex : Z) : World :=
  with_temp w (t_extend (w_temp w) n k th ex).

(** ** The contract monad *)

Inductive outcome (A : Type) :=
| Ok (a : A) (w : World)
| Err (e : ContractError) (w : World)
| Panic.

Definition M (A : Type) : Type := Ctx → World → outcome A.

End World.

Arguments Ok {H A} a w.
Arguments Err {H A} e w.
Arguments Panic {H A}.

Section Monad.

Context {H : Host}.

Definition ret {A} (a : A) : M A := λ c w, Ok a w.

Definition bind {A B} (m : M A) (f : A → M B) : M B :=
  λ c w,
    match m c w with
    | Ok a w' => f a c w'
    | Err e w' => Err e w'
    | Panic => Panic
    end.

(** [return Err(e)] *)
Definition fail {A} (e : ContractError) : M A := λ c w, Err e w.

(** [panic!] *)
Definition panic {A} : M A := λ c w, Panic.

(** [if b { return Err(e); }] *)
Definition fail_when (b : bool) (e : ContractError) : M unit :=
  if b then fail e else ret tt.

(** [o.ok_or(e)?] *)
Definition ok_or {A} (o : option A) (e : ContractError) : M A :=
  match o with Some a => ret a | None => fail e end.

(** [o.unwrap()] *)
Definition unwrap {A} (o : option A) : M A :=
  match o with Some a => ret a | None => panic end.

(** A plain [a + b], [a - b] or [a * b] on a machine type, given its exact
    result: a trap or a wrap-around when it leaves the range, by build profile. *)
Definition plain_op (t : IntTy) (z : Z) : M Z :=
  if in_range t z then ret z
  else if overflow_checks then panic
  else ret (wrap t z).

(** [for x in l.iter() { f(x)? }] *)
Fixpoint for_each {A} (l : list A) (f : A → M unit) : M unit :=
  match l with
  | [] => ret tt
  | x :: l' => bind (f x) (λ _, for_each l' f)
  end.

(** A loop over a list that threads an accumulator. *)
Fixpoint fold_each {A S} (l : list A) (s : S) (f : S → A → M S) : M S :=
  match l with
  | [] => ret s
  | x :: l' => bind (f s x) (λ s', fold_each l' s' f)
  end.

(** ** Host calls *)

Definition ledger_sequence : M Z := λ c w, Ok (ledger_seq c) w.
Definition current_contract_address : M Address := λ c w, Ok (self c) w.
Definition require_auth (a : Address) : M unit :=
  λ c w, if signed c a then Ok tt w else Panic.

Definition instance_get (k : Key) : M (option (kval k)) := λ c w, Ok (iget w k) w.
Definition instance_has (k : Key) : M bool := λ c w, Ok (bool_decide (is_Some (iget w k))) w.
Definition instance_set (k : Key) (v : kval k) : M unit := λ c w, Ok tt (iset w k v).
Definition instance_remove (k : Key) : M unit := λ c w, Ok tt (idel w k).
Definition instance_extend_ttl (th ex : Z) : M unit :=
  λ c w, if i_extend_ok (w_inst w) (ledger_seq c) th ex then Ok tt (iext w (ledger_seq c) th ex) else Panic.

Definition persistent_get (k : Key) : M (option (kval k)) := λ c w, Ok (pget w k) w.
Definition persistent_has (k : Key) : M bool := λ c w, Ok (bool_decide (is_Some (pget w k))) w.
Definition persistent_set (k : Key) (v : kval k) : M unit := λ c w, Ok tt (pset w k v).
Definition persistent_remove (k : Key) : M unit := λ c w, Ok tt (pdel w k).
Definition persistent_extend_ttl (k : Key) (th ex : Z) : M unit :=
  λ c w, if p_extend_ok (w_pers w) (ledger_seq c) k th ex then Ok tt (pext w (ledger_seq c) k th ex) else Panic.

Definition temporary_get (k : Key) : M (option (kval k)) := λ c w, Ok (tget w (ledger_seq c) k) w.
Definition temporary_set (k : Key) (v : kval k) : M unit := λ c w, Ok tt (tset w (ledger_seq c) k v).
Definition temporary_remove (k : Key) : M unit := λ c w, Ok tt (tdel w k).
Definition temporary_extend_ttl (k : Key) (th ex : Z) : M unit :=
  λ c w, if t_extend_ok (w_temp w) (ledger_seq c) k th ex then Ok tt (text w (ledger_seq c) k th ex) else Panic.

Definition publish (ev : Event) : M unit := λ c w, Ok tt (emit w ev).

(** [token::Client::transfer] and [burn]: a failure of the token contract traps. *)
Definition token_transfer (token from to : Address) (amount : Z) : M unit :=
  λ c w, match x_transfer c (w_ext w) token from to amount with
         | Some x => Ok tt (with_ext w x)
         | None => Panic
         end.
Definition token_burn (token from : Address) (amount : Z) : M unit :=
  λ c w, match x_burn c (w_ext w) token from amount with
         | Some x => Ok tt (with_ext w x)
         | None => Panic
         end.

(** [e.try_invoke_contract(pool, f, args)]: a failed call is rolled back by the
    host and reported as [None]. *)
Definition try_invoke {A} (f : Ctx → xworld → option (A * xworld)) : M (option A) :=
  λ c w, match f c (w_ext w) with
         | Some (a, x) => Ok (Some a) (with_ext w x)
         | None => Ok None w
         end.

(** [e.deployer().update_current_contract_wasm(hash)] *)
Definition update_current_contract_wasm (h : BytesN32) : M unit :=
  λ c w, if wasm_uploaded (w_ext w) h then Ok tt (with_wasm w h) else Panic.

(** [let r = m; if let Err(err) = r { ...; return Err(err) }; r] *)
Definition on_err {A} (m : M A) (h : ContractError → M unit) : M A :=
  λ c w, match m c w with
         | Ok a w' => Ok a w'
         | Err e w' => bind (h e) (λ _, fail e) c w'
         | Panic => Panic
         end.

(** The frame of a contract invocation: the host commits the changes of a call
    that returns [Ok] and discards those of a call that returns [Err] or traps. *)
Definition run {A} (m : M A) (c : Ctx) (w : World) : World * option (A + ContractError) :=
  match m c w with
  | Ok a w' => (w', Some (inl a))
  | Err e _ => (w, Some (inr e))
  | Panic => (w, None)
  end.

End Monad.

Declare Scope host_scope.
Delimit Scope host_scope with host.
Notation "x ← y ; z" := (bind y (λ x : _, z))
  (at level 20, y at level 100, z at level 200, only parsing) : host_scope.
Notation "' x ← y ; z" := (bind y (λ x : _, z))
  (at level 20, x pattern, y at level 100, z at level 200, only parsing) : host_scope.
Notation "x ;; z" := (bind x (λ _, z))
  (at level 100, z at level 200, only parsing, right associativity) : host_scope.
