(* ===== verification/HostLogic.v ===== *)
(** * Reasoning about contract functions

    Two interfaces carry the proofs of the contract.

    - [OkSpec m P]: whenever [m] returns [Ok], [P] relates the context, the world
      before, the result and the world after. Every primitive has an instance;
      the tactic [minv] inverts a successful run of a composed function by
      walking its binds with these instances.
    - [keeps I m]: a successful run of [m] preserves the invariant [I]. The hint
      database [keeps] proves it structurally.

    [world_simpl] evaluates reads over a chain of writes with the laws of
    [HostOk]; [Footprint] names the entries an invariant depends on, so that every
    write elsewhere preserves it; [same_reads] is the equivalence of worlds that
    agree on every entry of the three storages (they may differ in the TTLs of
    instance and persistent entries, in events and in the state of other contracts). *)

From stdpp Require Import base decidable strings numbers list.
From S2P Require Import Prelude Types Host.

Local Open Scope Z_scope.

Class OkSpec {H : Host} {A} (m : M A) (P : Ctx → World → A → World → Prop) : Prop :=
  ok_spec c w a w' : m c w = Ok a w' → P c w a w'.
#[export] Hint Mode OkSpec ! - ! - : typeclass_instances.

(** The same for runs that return an error. *)
Class ErrSpec {H : Host} {A} (m : M A) (P : Ctx → World → ContractError → World → Prop) : Prop :=
  err_spec c w e w' : m c w = Err e w' → P c w e w'.
#[export] Hint Mode ErrSpec ! - ! - : typeclass_instances.

Definition keeps {H : Host} (I : Ctx → World → Prop) {A} (m : M A) : Prop :=
  ∀ c w a w', I c w → m c w = Ok a w' → I c w'.

(** Worlds that agree on every entry. *)
Definition same_reads {H : Host} (w w' : World) : Prop :=
  (∀ k, iget w k = iget w' k) ∧ (∀ k, pget w k = pget w' k) ∧ (∀ n k, tget w n k = tget w' n k).

#[export] Instance same_reads_equiv {H : Host} : Equivalence same_reads.
Proof.
  split.
  - intros w. by split_and!.
  - intros w w' (Hi & Hp & Ht). split_and!; intros; by rewrite ?Hi, ?Hp, ?Ht.
  - intros w1 w2 w3 (Hi & Hp & Ht) (Hi' & Hp' & Ht').
    split_and!; intros; by rewrite ?Hi, ?Hp, ?Ht.
Qed.

(** [Footprint I Ki Kp Kt]: the invariant only looks at the instance entries selected
    by [Ki], the persistent entries selected by [Kp] and the temporary entries
    selected by [Kt]. *)
Class Footprint {H : Host} (I : Ctx → World → Prop) (Ki Kp Kt : Key → bool) : Prop :=
  footprint c w w' :
    (∀ k, Ki k = true → iget w k = iget w' k) →
    (∀ k, Kp k = true → pget w k = pget w' k) →
    (∀ n k, Kt k = true → tget w n k = tget w' n k) → I c w → I c w'.
#[export] Hint Mode Footprint ! ! - - - : typeclass_instances.

(** The conjunction of two invariants. *)
Definition both {H : Host} (I J : Ctx → World → Prop) (c : Ctx) (w : World) : Prop := I c w ∧ J c w.

#[export] Instance both_footprint {H : Host} I J Ki Kp Kt Ki' Kp' Kt' :
  Footprint I Ki Kp Kt → Footprint J Ki' Kp' Kt' →
  Footprint (both I J) (λ k, Ki k || Ki' k) (λ k, Kp k || Kp' k) (λ k, Kt k || Kt' k).
Proof.
  intros HI HJ c w w' Hi Hp Ht [H1 H2]. split.
  - refine (HI c w w' _ _ _ H1); intros; auto using orb_true_intro.
  - refine (HJ c w w' _ _ _ H2); intros; auto using orb_true_intro.
Qed.

Section Rules.

Context {H : Host}.

Lemma bind_ok {A B} (m : M A) (f : A → M B) c w b w' :
  bind m f c w = Ok b w' ↔ ∃ a w1, m c w = Ok a w1 ∧ f a c w1 = Ok b w'.
Proof.
  unfold bind. destruct (m c w) as [a w1|e w1|]; naive_solver.
Qed.

Lemma bind_err {A B} (m : M A) (f : A → M B) c w e w' :
  bind m f c w = Err e w' ↔
  m c w = Err e w' ∨ ∃ a w1, m c w = Ok a w1 ∧ f a c w1 = Err e w'.
Proof. unfold bind. destruct (m c w) as [a w1|e1 w1|]; naive_solver. Qed.

Lemma run_ok {A} (m : M A) c w a w' :
  run m c w = (w', Some (inl a)) ↔ m c w = Ok a w'.
Proof. unfold run. destruct (m c w); naive_solver. Qed.

Lemma run_not_ok {A} (m : M A) c w w' r :
  run m c w = (w', r) → (∀ a, r ≠ Some (inl a)) → w' = w.
Proof. unfold run. destruct (m c w); naive_solver. Qed.

Lemma with_pers_id (w : World) : with_pers w (w_pers w) = w.
Proof. by destruct w. Qed.

(** ** Specifications of the primitives *)

#[export] Instance ret_spec {A} (x : A) : OkSpec (ret x) (λ _ w a w', a = x ∧ w' = w).
Proof. intros c w a w'. unfold ret. naive_solver. Qed.

#[export] Instance fail_spec {A} e : OkSpec (fail (A:=A) e) (λ _ _ _ _, False).
Proof. intros c w a w'. unfold fail. naive_solver. Qed.

#[export] Instance panic_spec {A} : OkSpec (panic (A:=A)) (λ _ _ _ _, False).
Proof. intros c w a w'. unfold panic. naive_solver. Qed.

#[export] Instance fail_when_spec b e :
  OkSpec (fail_when b e) (λ _ w _ w', b = false ∧ w' = w).
Proof. intros c w a w'. destruct b; cbn; unfold fail, ret; naive_solver. Qed.

#[export] Instance ok_or_spec {A} (o : option A) e :
  OkSpec (ok_or o e) (λ _ w a w', o = Some a ∧ w' = w).
Proof. intros c w a w'. destruct o; cbn; unfold fail, ret; naive_solver. Qed.

#[export] Instance unwrap_spec {A} (o : option A) :
  OkSpec (unwrap o) (λ _ w a w', o = Some a ∧ w' = w).
Proof. intros c w a w'. destruct o; cbn; unfold panic, ret; naive_solver. Qed.

#[export] Instance plain_op_spec t z :
  OkSpec (plain_op t z)
    (λ _ w a w', a = wrap t z ∧ (overflow_checks = true → fits t z) ∧ w' = w).
Proof.
  intros c w a w'. unfold plain_op. destruct (in_range t z) eqn:E.
  - apply in_range_spec in E. unfold ret. intros; simplify_eq. by rewrite wrap_id.
  - unfold panic, ret. destruct overflow_checks; naive_solver.
Qed.

#[export] Instance ledger_sequence_spec :
  OkSpec ledger_sequence (λ c w a w', a = ledger_seq c ∧ w' = w).
Proof. intros c w a w'. unfold ledger_sequence. naive_solver. Qed.

#[export] Instance current_contract_address_spec :
  OkSpec current_contract_address (λ c w a w', a = self c ∧ w' = w).
Proof. intros c w a w'. unfold current_contract_address. naive_solver. Qed.

#[export] Instance require_auth_spec x :
  OkSpec (require_auth x) (λ c w _ w', signed c x = true ∧ w' = w).
Proof. intros c w a w'. unfold require_auth. destruct (signed c x); naive_solver. Qed.

#[export] Instance instance_get_spec k :
  OkSpec (instance_get k) (λ _ w a w', a = iget w k ∧ w' = w).
Proof. intros c w a w'. unfold instance_get. naive_solver. Qed.

#[export] Instance instance_has_spec k :
  OkSpec (instance_has k) (λ _ w a w', a = bool_decide (is_Some (iget w k)) ∧ w' = w).
Proof. intros c w a w'. unfold instance_has. naive_solver. Qed.

#[export] Instance instance_set_spec k v :
  OkSpec (instance_set k v) (λ _ w _ w', w' = iset w k v).
Proof. intros c w a w'. unfold instance_set. naive_solver. Qed.

#[export] Instance instance_remove_spec k :
  OkSpec (instance_remove k) (λ _ w _ w', w' = idel w k).
Proof. intros c w a w'. unfold instance_remove. naive_solver. Qed.

#[export] Instance instance_extend_ttl_spec th ex :
  OkSpec (instance_extend_ttl th ex) (λ c w _ w', w' = iext w (ledger_seq c) th ex).
Proof. intros c w a w'. unfold instance_extend_ttl. case_match; naive_solver. Qed.

#[export] Instance persistent_get_spec k :
  OkSpec (persistent_get k) (λ _ w a w', a = pget w k ∧ w' = w).
Proof. intros c w a w'. unfold persistent_get. naive_solver. Qed.

#[export] Instance persistent_has_spec k :
  OkSpec (persistent_has k) (λ _ w a w', a = bool_decide (is_Some (pget w k)) ∧ w' = w).
Proof. intros c w a w'. unfold persistent_has. naive_solver. Qed.

#[export] Instance persistent_set_spec k v :
  OkSpec (persistent_set k v) (λ _ w _ w', w' = pset w k v).
Proof. intros c w a w'. unfold persistent_set. naive_solver. Qed.

#[export] Instance persistent_remove_spec k :
  OkSpec (persistent_remove k) (λ _ w _ w', w' = pdel w k).
Proof. intros c w a w'. unfold persistent_remove. naive_solver. Qed.

#[export] Instance persistent_extend_ttl_spec k th ex :
  OkSpec (persistent_extend_ttl k th ex) (λ c w _ w', w' = pext w (ledger_seq c) k th ex).
Proof. intros c w a w'. unfold persistent_extend_ttl. case_match; naive_solver. Qed.

#[export] Instance temporary_get_spec k :
  OkSpec (temporary_get k) (λ c w a w', a = tget w (ledger_seq c) k ∧ w' = w).
Proof. intros c w a w'. unfold temporary_get. naive_solver. Qed.

#[export] Instance temporary_set_spec k v :
  OkSpec (temporary_set k v) (λ c w _ w', w' = tset w (ledger_seq c) k v).
Proof. intros c w a w'. unfold temporary_set. naive_solver. Qed.

#[export] Instance temporary_remove_spec k :
  OkSpec (temporary_remove k) (λ _ w _ w', w' = tdel w k).
Proof. intros c w a w'. unfold temporary_remove. naive_solver. Qed.

#[export] Instance temporary_extend_ttl_spec k th ex :
  OkSpec (temporary_extend_ttl k th ex) (λ c w _ w', w' = text w (ledger_seq c) k th ex).
Proof. intros c w a w'. unfold temporary_extend_ttl. case_match; naive_solver. Qed.

#[export] Instance publish_spec ev : OkSpec (publish ev) (λ _ w _ w', w' = emit w ev).
Proof. intros c w a w'. unfold publish. naive_solver. Qed.

#[export] Instance token_transfer_spec t f d amt :
  OkSpec (token_transfer t f d amt)
    (λ c w _ w', ∃ x, x_transfer c (w_ext w) t f d amt = Some x ∧ w' = with_ext w x).
Proof. intros c w a w'. unfold token_transfer. case_match; naive_solver. Qed.

#[export] Instance token_burn_spec t f amt :
  OkSpec (token_burn t f amt)
    (λ c w _ w', ∃ x, x_burn c (w_ext w) t f amt = Some x ∧ w' = with_ext w x).
Proof. intros c w a w'. unfold token_burn. case_match; naive_solver. Qed.

#[export] Instance try_invoke_spec {A} (f : Ctx → xworld → option (A * xworld)) :
  OkSpec (try_invoke f)
    (λ c w o w',
       (∃ v x, f c (w_ext w) = Some (v, x) ∧ o = Some v ∧ w' = with_ext w x) ∨
       (f c (w_ext w) = None ∧ o = None ∧ w' = w)).
Proof. intros c w a w'. unfold try_invoke. repeat case_match; naive_solver. Qed.

#[export] Instance update_wasm_spec h :
  OkSpec (update_current_contract_wasm h)
    (λ c w _ w', wasm_uploaded (w_ext w) h = true ∧ w' = with_wasm w h).
Proof. intros c w a w'. unfold update_current_contract_wasm. case_match; naive_solver. Qed.

(** *** Errors *)

#[export] Instance fail_err {A} e0 :
  ErrSpec (fail (A:=A) e0) (λ _ w e w', e = e0 ∧ w' = w).
Proof. intros c w e w'. unfold fail. naive_solver. Qed.

#[export] Instance fail_when_err b e0 :
  ErrSpec (fail_when b e0) (λ _ w e w', b = true ∧ e = e0 ∧ w' = w).
Proof. intros c w e w'. destruct b; cbn; unfold fail, ret; naive_solver. Qed.

#[export] Instance ok_or_err {A} (o : option A) e0 :
  ErrSpec (ok_or o e0) (λ _ w e w', o = None ∧ e = e0 ∧ w' = w).
Proof. intros c w e w'. destruct o; cbn; unfold fail, ret; naive_solver. Qed.

End Rules.

(** The primitives below return or trap, they raise no [ContractError]. *)
Ltac solve_no_err :=
  intros c w e w';
  lazymatch goal with |- ?m _ _ = _ → _ => unfold_head_ m end; repeat case_match; done
with unfold_head_ m :=
  lazymatch m with ?f _ => unfold_head_ f | _ => unfold m end.

Section No_errors.

Context {H : Host}.

#[export] Instance ret_err {A} (x : A) : ErrSpec (ret x) (λ _ _ _ _, False).
Proof. solve_no_err. Qed.
#[export] Instance panic_err {A} : ErrSpec (panic (A:=A)) (λ _ _ _ _, False).
Proof. solve_no_err. Qed.
#[export] Instance unwrap_err {A} (o : option A) : ErrSpec (unwrap o) (λ _ _ _ _, False).
Proof. intros c w e w'. by destruct o. Qed.
#[export] Instance plain_op_err t z : ErrSpec (plain_op t z) (λ _ _ _ _, False).
Proof. intros c w e w'. unfold plain_op, ret, panic. repeat case_match; done. Qed.
#[export] Instance ledger_sequence_err : ErrSpec ledger_sequence (λ _ _ _ _, False).
Proof. solve_no_err. Qed.
#[export] Instance current_contract_address_err : ErrSpec current_contract_address (λ _ _ _ _, False).
Proof. solve_no_err. Qed.
#[export] Instance require_auth_err x : ErrSpec (require_auth x) (λ _ _ _ _, False).
Proof. solve_no_err. Qed.
#[export] Instance instance_get_err k : ErrSpec (instance_get k) (λ _ _ _ _, False).
Proof. solve_no_err. Qed.
#[export] Instance instance_has_err k : ErrSpec (instance_has k) (λ _ _ _ _, False).
Proof. solve_no_err. Qed.
#[export] Instance instance_set_err k v : ErrSpec (instance_set k v) (λ _ _ _ _, False).
Proof. solve_no_err. Qed.
#[export] Instance instance_remove_err k : ErrSpec (instance_remove k) (λ _ _ _ _, False).
Proof. solve_no_err. Qed.
#[export] Instance instance_extend_ttl_err th ex : ErrSpec (instance_extend_ttl th ex) (λ _ _ _ _, False).
Proof. solve_no_err. Qed.
#[export] Instance persistent_get_err k : ErrSpec (persistent_get k) (λ _ _ _ _, False).
Proof. solve_no_err. Qed.
#[export] Instance persistent_has_err k : ErrSpec (persistent_has k) (λ _ _ _ _, False).
Proof. solve_no_err. Qed.
#[export] Instance persistent_set_err k v : ErrSpec (persistent_set k v) (λ _ _ _ _, False).
Proof. solve_no_err. Qed.
#[export] Instance persistent_remove_err k : ErrSpec (persistent_remove k) (λ _ _ _ _, False).
Proof. solve_no_err. Qed.
#[export] Instance persistent_extend_ttl_err k th ex :
  ErrSpec (persistent_extend_ttl k th ex) (λ _ _ _ _, False).
Proof. solve_no_err. Qed.
#[export] Instance temporary_get_err k : ErrSpec (temporary_get k) (λ _ _ _ _, False).
Proof. solve_no_err. Qed.
#[export] Instance temporary_set_err k v : ErrSpec (temporary_set k v) (λ _ _ _ _, False).
Proof. solve_no_err. Qed.
#[export] Instance temporary_remove_err k : ErrSpec (temporary_remove k) (λ _ _ _ _, False).
Proof. solve_no_err. Qed.
#[export] Instance temporary_extend_ttl_err k th ex :
  ErrSpec (temporary_extend_ttl k th ex) (λ _ _ _ _, False).
Proof. solve_no_err. Qed.
#[export] Instance publish_err ev : ErrSpec (publish ev) (λ _ _ _ _, False).
Proof. solve_no_err. Qed.
#[export] Instance token_transfer_err t f d amt : ErrSpec (token_transfer t f d amt) (λ _ _ _ _, False).
Proof. solve_no_err. Qed.
#[export] Instance token_burn_err t f amt : ErrSpec (token_burn t f amt) (λ _ _ _ _, False).
Proof. solve_no_err. Qed.
#[export] Instance try_invoke_err {A} (f : Ctx → xworld → option (A * xworld)) :
  ErrSpec (try_invoke f) (λ _ _ _ _, False).
Proof. solve_no_err. Qed.
#[export] Instance update_wasm_err h : ErrSpec (update_current_contract_wasm h) (λ _ _ _ _, False).
Proof. solve_no_err. Qed.

End No_errors.

(** ** Tactics *)

(** Turns boolean facts produced by guards into propositions. *)
Ltac bools :=
  repeat match goal with
  | H : _ || _ = false |- _ => apply orb_false_iff in H; destruct H
  | H : _ && _ = true |- _ => apply andb_true_iff in H; destruct H
  | H : negb _ = false |- _ => apply negb_false_iff in H
  | H : negb _ = true |- _ => apply negb_true_iff in H
  | H : bool_decide _ = true |- _ => apply bool_decide_eq_true in H
  | H : bool_decide _ = false |- _ => apply bool_decide_eq_false in H
  | H : (_ <? _) = true |- _ => apply Z.ltb_lt in H
  | H : (_ <? _) = false |- _ => apply Z.ltb_ge in H
  | H : (_ <=? _) = true |- _ => apply Z.leb_le in H
  | H : (_ <=? _) = false |- _ => apply Z.leb_gt in H
  | H : (_ =? _) = true |- _ => apply Z.eqb_eq in H
  | H : (_ =? _) = false |- _ => apply Z.eqb_neq in H
  | H : ¬ ¬ ?P |- _ => apply dec_stable in H
  | H : Some _ = ?o |- _ => lazymatch o with Some _ => injection H as H | _ => symmetry in H end
  | H : true = ?b |- _ => lazymatch b with true => clear H | _ => symmetry in H end
  | H : false = ?b |- _ => lazymatch b with false => clear H | _ => symmetry in H end
  end.

(** One step of the inversion of a successful run. *)
Ltac minv_step :=
  match goal with
  | H : False |- _ => destruct H
  | H : _ ∧ _ |- _ => destruct H
  | H : ∃ _, _ |- _ => destruct H
  | u : unit |- _ => destruct u
  | H : bind _ _ _ _ = Ok _ _ |- _ =>
      apply bind_ok in H; destruct H as (? & ? & ? & ?); cbv beta in *
  | H : (if ?b then _ else _) _ _ = Ok _ _ |- _ => destruct b eqn:?
  | H : (match ?o with _ => _ end) _ _ = Ok _ _ |- _ => destruct o eqn:?
  | H : (match ?o with _ => _ end _) _ _ = Ok _ _ |- _ => destruct o eqn:?; cbv beta in H
  | H : ?m _ _ = Ok _ _ |- _ => apply (ok_spec (m := m)) in H; cbv beta in H
  end.

(** Inverts every successful run in the context down to the operations that have
    no [OkSpec] instance. *)
Ltac minv := repeat (minv_step; subst); bools.

(** One step of the inversion of a run that returned an error: either a primitive of
    the function raised it, or the function got past it. *)
Ltac einv_step :=
  match goal with
  | H : False |- _ => destruct H
  | H : bind _ _ _ _ = Err _ _ |- _ =>
      apply bind_err in H; destruct H as [H|(? & ? & ? & H)]; cbv beta in H
  | H : (if ?b then _ else _) _ _ = Err _ _ |- _ => destruct b eqn:?
  | H : (match ?o with _ => _ end) _ _ = Err _ _ |- _ => destruct o eqn:?
  | H : (match ?o with _ => _ end _) _ _ = Err _ _ |- _ => destruct o eqn:?; cbv beta in H
  | H : ?m _ _ = Err _ _ |- _ =>
      first [ apply (err_spec (m := m)) in H; cbv beta in H
            | progress (unfold_head_in m H) ]
  | _ => minv_step
  end
with unfold_head_in m H :=
  lazymatch m with
  | ?f _ => unfold_head_in f H
  | _ => unfold m in H; cbv beta in H
  end.

(** Inverts a run that returned an error into the places that can raise it. *)
Ltac einv := repeat (einv_step; subst); bools.

(** A function that only wraps another one gets the specification of what it wraps. *)
Ltac unfold_head m :=
  lazymatch m with
  | ?f _ => unfold_head f
  | _ => unfold m
  end.

#[export] Hint Extern 20 (OkSpec ?m _) =>
  lazymatch m with bind _ _ => fail | _ => unfold_head m end; typeclasses eauto
  : typeclass_instances.

(** ** Reading over writes *)

Section Reads.

Context {H : Host} {HOk : HostOk H}.

Lemma iget_iset w k v : iget (iset w k v) k = Some v.
Proof. apply i_get_set_eq. Qed.

Lemma iget_iset_ne w k k' v : k ≠ k' → iget (iset w k v) k' = iget w k'.
Proof. apply i_get_set_ne. Qed.

Lemma iget_idel w k : iget (idel w k) k = None.
Proof. apply i_get_remove_eq. Qed.

Lemma iget_idel_ne w k k' : k ≠ k' → iget (idel w k) k' = iget w k'.
Proof. apply i_get_remove_ne. Qed.

Lemma iget_iext w n th ex k : iget (iext w n th ex) k = iget w k.
Proof. apply i_get_extend. Qed.

Lemma pget_pset w k v : pget (pset w k v) k = Some v.
Proof. apply p_get_set_eq. Qed.

Lemma pget_pset_ne w k k' v : k ≠ k' → pget (pset w k v) k' = pget w k'.
Proof. apply p_get_set_ne. Qed.

Lemma pget_pdel w k : pget (pdel w k) k = None.
Proof. apply p_get_remove_eq. Qed.

Lemma pget_pdel_ne w k k' : k ≠ k' → pget (pdel w k) k' = pget w k'.
Proof. apply p_get_remove_ne. Qed.

Lemma pget_pext w n k th ex k' : pget (pext w n k th ex) k' = pget w k'.
Proof. apply p_get_extend. Qed.

Lemma tget_tset w n k v : tget (tset w n k v) n k = Some v.
Proof. apply t_get_set_eq. Qed.

Lemma tget_tset_ne w n m k k' v : k ≠ k' → tget (tset w n k v) m k' = tget w m k'.
Proof. apply t_get_set_ne. Qed.

Lemma tget_tdel w n k : tget (tdel w k) n k = None.
Proof. apply t_get_remove_eq. Qed.

Lemma tget_tdel_ne w n k k' : k ≠ k' → tget (tdel w k) n k' = tget w n k'.
Proof. apply t_get_remove_ne. Qed.

Lemma tget_text w n k th ex k' : tget (text w n k th ex) n k' = tget w n k'.
Proof. apply t_get_extend. Qed.

Lemma tget_text_ne w n m k th ex k' : k ≠ k' → tget (text w n k th ex) m k' = tget w m k'.
Proof. apply t_get_extend_ne. Qed.

Lemma pget_with_pers w s s0 k : (∀ k', p_get s k' = p_get s0 k') → pget (with_pers w s) k = p_get s0 k.
Proof. intros E. apply E. Qed.

End Reads.

Ltac key_ne := first [discriminate | congruence | (intros ?; simplify_eq; congruence)].

(** [outside_i w]: the world before the last write of [w], when that write is not to
    instance storage; similarly for the other parts of the world. *)
Ltac outside_i w :=
  lazymatch w with
  | pset ?w0 _ _ => w0 | pdel ?w0 _ => w0 | pext ?w0 _ _ _ _ => w0 | with_pers ?w0 _ => w0
  | tset ?w0 _ _ _ => w0 | tdel ?w0 _ => w0 | text ?w0 _ _ _ _ => w0
  | emit ?w0 _ => w0 | with_ext ?w0 _ => w0 | with_wasm ?w0 _ => w0
  end.

Ltac outside_p w :=
  lazymatch w with
  | iset ?w0 _ _ => w0 | idel ?w0 _ => w0 | iext ?w0 _ _ _ => w0
  | tset ?w0 _ _ _ => w0 | tdel ?w0 _ => w0 | text ?w0 _ _ _ _ => w0
  | emit ?w0 _ => w0 | with_ext ?w0 _ => w0 | with_wasm ?w0 _ => w0
  end.

Ltac outside_t w :=
  lazymatch w with
  | iset ?w0 _ _ => w0 | idel ?w0 _ => w0 | iext ?w0 _ _ _ => w0
  | pset ?w0 _ _ => w0 | pdel ?w0 _ => w0 | pext ?w0 _ _ _ _ => w0 | with_pers ?w0 _ => w0
  | emit ?w0 _ => w0 | with_ext ?w0 _ => w0 | with_wasm ?w0 _ => w0
  end.

Ltac outside_x w :=
  lazymatch w with
  | iset ?w0 _ _ => w0 | idel ?w0 _ => w0 | iext ?w0 _ _ _ => w0
  | pset ?w0 _ _ => w0 | pdel ?w0 _ => w0 | pext ?w0 _ _ _ _ => w0 | with_pers ?w0 _ => w0
  | tset ?w0 _ _ _ => w0 | tdel ?w0 _ => w0 | text ?w0 _ _ _ _ => w0
  | emit ?w0 _ => w0 | with_wasm ?w0 _ => w0
  end.

Ltac outside_e w :=
  lazymatch w with
  | iset ?w0 _ _ => w0 | idel ?w0 _ => w0 | iext ?w0 _ _ _ => w0
  | pset ?w0 _ _ => w0 | pdel ?w0 _ => w0 | pext ?w0 _ _ _ _ => w0 | with_pers ?w0 _ => w0
  | tset ?w0 _ _ _ => w0 | tdel ?w0 _ => w0 | text ?w0 _ _ _ _ => w0
  | with_ext ?w0 _ => w0 | with_wasm ?w0 _ => w0
  end.

(** One evaluation step of a read. *)
Ltac world_step :=
  match goal with
  | |- context [iget ?w ?k] => let w0 := outside_i w in change (iget w k) with (iget w0 k)
  | |- context [iget (iset _ ?k _) ?k] => rewrite iget_iset
  | |- context [iget (iset _ _ _) _] => rewrite iget_iset_ne by key_ne
  | |- context [iget (idel _ ?k) ?k] => rewrite iget_idel
  | |- context [iget (idel _ _) _] => rewrite iget_idel_ne by key_ne
  | |- context [iget (iext _ _ _ _) _] => rewrite iget_iext
  | |- context [pget ?w ?k] => let w0 := outside_p w in change (pget w k) with (pget w0 k)
  | |- context [pget (pset _ ?k _) ?k] => rewrite pget_pset
  | |- context [pget (pset _ _ _) _] => rewrite pget_pset_ne by key_ne
  | |- context [pget (pdel _ ?k) ?k] => rewrite pget_pdel
  | |- context [pget (pdel _ _) _] => rewrite pget_pdel_ne by key_ne
  | |- context [pget (pext _ _ _ _ _) _] => rewrite pget_pext
  | E : ∀ k, p_get ?s k = p_get _ k |- context [pget (with_pers ?w ?s) ?k] =>
      rewrite (pget_with_pers w s _ k E)
  | |- context [p_get (p_set _ ?k _) ?k] => rewrite p_get_set_eq
  | |- context [p_get (p_set _ _ _) _] => rewrite p_get_set_ne by key_ne
  | |- context [p_get (w_pers ?w) ?k] => change (p_get (w_pers w) k) with (pget w k)
  | |- context [tget ?w ?n ?k] => let w0 := outside_t w in change (tget w n k) with (tget w0 n k)
  | |- context [tget (tset _ ?n ?k _) ?n ?k] => rewrite tget_tset
  | |- context [tget (tset _ _ _ _) _ _] => rewrite tget_tset_ne by key_ne
  | |- context [tget (tdel _ ?k) _ ?k] => rewrite tget_tdel
  | |- context [tget (tdel _ _) _ _] => rewrite tget_tdel_ne by key_ne
  | |- context [tget (text _ ?n _ _ _) ?n _] => rewrite tget_text
  | |- context [tget (text _ _ _ _ _) _ _] => rewrite tget_text_ne by key_ne
  | |- context [w_ext ?w] => let w0 := outside_x w in change (w_ext w) with (w_ext w0)
  | |- context [w_ext (with_ext ?w ?x)] => change (w_ext (with_ext w x)) with x
  | |- context [w_events ?w] => let w0 := outside_e w in change (w_events w) with (w_events w0)
  | |- context [w_events (emit ?w ?e)] => change (w_events (emit w e)) with (w_events w ++ [e])
  end.

(** The same in a hypothesis. *)
Ltac world_step_in E0 :=
  match type of E0 with
  | context [iget ?w ?k] => let w0 := outside_i w in change (iget w k) with (iget w0 k) in E0
  | context [iget (iset _ ?k _) ?k] => rewrite iget_iset in E0
  | context [iget (iset _ _ _) _] => rewrite iget_iset_ne in E0 by key_ne
  | context [iget (idel _ ?k) ?k] => rewrite iget_idel in E0
  | context [iget (idel _ _) _] => rewrite iget_idel_ne in E0 by key_ne
  | context [iget (iext _ _ _ _) _] => rewrite iget_iext in E0
  | context [pget ?w ?k] => let w0 := outside_p w in change (pget w k) with (pget w0 k) in E0
  | context [pget (pset _ ?k _) ?k] => rewrite pget_pset in E0
  | context [pget (pset _ _ _) _] => rewrite pget_pset_ne in E0 by key_ne
  | context [pget (pdel _ ?k) ?k] => rewrite pget_pdel in E0
  | context [pget (pdel _ _) _] => rewrite pget_pdel_ne in E0 by key_ne
  | context [pget (pext _ _ _ _ _) _] => rewrite pget_pext in E0
  | context [pget (with_pers ?w ?s) ?k] =>
      match goal with E : ∀ k, p_get s k = p_get _ k |- _ => rewrite (pget_with_pers w s _ k E) in E0 end
  | context [p_get (w_pers ?w) ?k] => change (p_get (w_pers w) k) with (pget w k) in E0
  | context [p_get (p_set _ ?k _) ?k] => rewrite p_get_set_eq in E0
  | context [p_get (p_set _ _ _) _] => rewrite p_get_set_ne in E0 by key_ne
  | context [tget ?w ?n ?k] => let w0 := outside_t w in change (tget w n k) with (tget w0 n k) in E0
  | context [tget (tset _ ?n ?k _) ?n ?k] => rewrite tget_tset in E0
  | context [tget (tset _ _ _ _) _ _] => rewrite tget_tset_ne in E0 by key_ne
  | context [tget (tdel _ ?k) _ ?k] => rewrite tget_tdel in E0
  | context [tget (tdel _ _) _ _] => rewrite tget_tdel_ne in E0 by key_ne
  | context [tget (text _ ?n _ _ _) ?n _] => rewrite tget_text in E0
  | context [tget (text _ _ _ _ _) _ _] => rewrite tget_text_ne in E0 by key_ne
  | context [w_ext ?w] => let w0 := outside_x w in change (w_ext w) with (w_ext w0) in E0
  | context [w_ext (with_ext ?w ?x)] => change (w_ext (with_ext w x)) with x in E0
  end.

(** [world_simpl] evaluates the reads of the goal, [world_simpl_all] those of the
    hypotheses too. *)
Ltac world_simpl := repeat world_step; cbn [kval] in *.

Ltac world_simpl_all :=
  repeat match goal with
  | E : ?T |- _ =>
      lazymatch T with ∀ k, p_get _ k = p_get _ k => fail | _ => progress (repeat world_step_in E) end
  end; world_simpl.

(** ** Preservation of invariants *)

Create HintDb keeps discriminated.

Section Keeps.

Context {H : Host} (I : Ctx → World → Prop).

Lemma keeps_bind {A B} (m : M A) (f : A → M B) :
  keeps I m → (∀ a, keeps I (f a)) → keeps I (bind m f).
Proof.
  intros Hm Hf c w b w' HI Hb. apply bind_ok in Hb as (a & w1 & Ha & Hb).
  unfold keeps in *. eauto.
Qed.

Lemma keeps_pure {A} (m : M A) :
  OkSpec m (λ _ w _ w', w' = w) → keeps I m.
Proof. intros Hs c w a w' HI Hm. apply Hs in Hm. by subst. Qed.

Lemma keeps_both J {A} (m : M A) : keeps I m → keeps J m → keeps (both I J) m.
Proof. intros H1 H2 c w a w' [HI HJ] Hm. split; unfold keeps in *; eauto. Qed.

Lemma keeps_for_each {A} (l : list A) f :
  (∀ x, x ∈ l → keeps I (f x)) → keeps I (for_each l f).
Proof.
  induction l as [|x l IH]; intros Hf; cbn.
  - apply keeps_pure. intros c w a w' Hm. by minv.
  - apply keeps_bind; [apply Hf; left|]. intros _. apply IH. intros y Hy. apply Hf. by right.
Qed.

Lemma keeps_fold_each {A S} (l : list A) (s : S) f :
  (∀ s x, keeps I (f s x)) → keeps I (fold_each l s f).
Proof.
  intros Hf. revert s. induction l as [|x l IH]; intros s; cbn.
  - apply keeps_pure. intros c w a w' Hm. by minv.
  - apply keeps_bind; [apply Hf|]. intros. apply IH.
Qed.

Lemma keeps_on_err {A} (m : M A) h : keeps I m → keeps I (on_err m h).
Proof.
  intros Hm c w a w' HI. unfold on_err.
  destruct (m c w) eqn:E; [|unfold bind, fail; case_match; done|done].
  intros; simplify_eq. unfold keeps in *. eauto.
Qed.

End Keeps.

(** Operations that change no world at all. *)
Ltac solve_pure := intros ? ? ? ? ?; minv; done.

Section Primitive_frames.

Context {H : Host} {HOk : HostOk H} (I : Ctx → World → Prop).

Lemma keeps_ret {A} (x : A) : keeps I (ret x).
Proof. apply keeps_pure. solve_pure. Qed.

Lemma keeps_fail {A} e : keeps I (fail (A:=A) e).
Proof. apply keeps_pure. solve_pure. Qed.

Lemma keeps_panic {A} : keeps I (panic (A:=A)).
Proof. apply keeps_pure. solve_pure. Qed.

Lemma keeps_fail_when b e : keeps I (fail_when b e).
Proof. apply keeps_pure. solve_pure. Qed.

Lemma keeps_ok_or {A} (o : option A) e : keeps I (ok_or o e).
Proof. apply keeps_pure. solve_pure. Qed.

Lemma keeps_unwrap {A} (o : option A) : keeps I (unwrap o).
Proof. apply keeps_pure. solve_pure. Qed.

Lemma keeps_plain_op t z : keeps I (plain_op t z).
Proof. apply keeps_pure. solve_pure. Qed.

Lemma keeps_ledger_sequence : keeps I ledger_sequence.
Proof. apply keeps_pure. solve_pure. Qed.

Lemma keeps_current_contract_address : keeps I current_contract_address.
Proof. apply keeps_pure. solve_pure. Qed.

Lemma keeps_require_auth a : keeps I (require_auth a).
Proof. apply keeps_pure. solve_pure. Qed.

Lemma keeps_instance_get k : keeps I (instance_get k).
Proof. apply keeps_pure. solve_pure. Qed.

Lemma keeps_instance_has k : keeps I (instance_has k).
Proof. apply keeps_pure. solve_pure. Qed.

Lemma keeps_persistent_get k : keeps I (persistent_get k).
Proof. apply keeps_pure. solve_pure. Qed.

Lemma keeps_persistent_has k : keeps I (persistent_has k).
Proof. apply keeps_pure. solve_pure. Qed.

Lemma keeps_temporary_get k : keeps I (temporary_get k).
Proof. apply keeps_pure. solve_pure. Qed.

Context {Ki Kp Kt : Key → bool} {HF : Footprint I Ki Kp Kt}.

Lemma footprint_reads c w w' : same_reads w w' → I c w → I c w'.
Proof. intros (Hi & Hp & Ht). apply footprint; auto. Qed.

Lemma keeps_reads {A} (m : M A) : OkSpec m (λ _ w _ w', same_reads w w') → keeps I m.
Proof. intros Hs c w a w' HI Hm. apply Hs in Hm. by eapply footprint_reads. Qed.

(** A write outside the footprint. *)
Lemma keeps_instance_set_frame k v : Ki k = false → keeps I (instance_set k v).
Proof.
  intros Hk c w a w' HI Hm. minv. refine (footprint _ _ _ _ _ _ HI); [|done..].
  intros k' Hk'. by world_simpl.
Qed.

Lemma keeps_instance_remove_frame k : Ki k = false → keeps I (instance_remove k).
Proof.
  intros Hk c w a w' HI Hm. minv. refine (footprint _ _ _ _ _ _ HI); [|done..].
  intros k' Hk'. by world_simpl.
Qed.

Lemma keeps_persistent_set_frame k v : Kp k = false → keeps I (persistent_set k v).
Proof.
  intros Hk c w a w' HI Hm. minv. refine (footprint _ _ _ _ _ _ HI); [done| |done].
  intros k' Hk'. by world_simpl.
Qed.

Lemma keeps_persistent_remove_frame k : Kp k = false → keeps I (persistent_remove k).
Proof.
  intros Hk c w a w' HI Hm. minv. refine (footprint _ _ _ _ _ _ HI); [done| |done].
  intros k' Hk'. by world_simpl.
Qed.

Lemma keeps_temporary_set_frame k v : Kt k = false → keeps I (temporary_set k v).
Proof.
  intros Hk c w a w' HI Hm. minv. refine (footprint _ _ _ _ _ _ HI); [done..|].
  intros n k' Hk'. by world_simpl.
Qed.

Lemma keeps_temporary_remove_frame k : Kt k = false → keeps I (temporary_remove k).
Proof.
  intros Hk c w a w' HI Hm. minv. refine (footprint _ _ _ _ _ _ HI); [done..|].
  intros n k' Hk'. by world_simpl.
Qed.

Lemma keeps_temporary_extend_ttl_frame k th ex :
  Kt k = false → keeps I (temporary_extend_ttl k th ex).
Proof.
  intros Hk c w a w' HI Hm. minv. refine (footprint _ _ _ _ _ _ HI); [done..|].
  intros n k' Hk'. by world_simpl.
Qed.

Ltac solve_reads := intros ? ? ? ? ?; minv; split_and!; intros; world_simpl; done.

Lemma keeps_instance_extend_ttl th ex : keeps I (instance_extend_ttl th ex).
Proof. apply keeps_reads. solve_reads. Qed.

Lemma keeps_persistent_extend_ttl k th ex : keeps I (persistent_extend_ttl k th ex).
Proof. apply keeps_reads. solve_reads. Qed.

Lemma keeps_publish ev : keeps I (publish ev).
Proof. apply keeps_reads. solve_reads. Qed.

Lemma keeps_token_transfer t f d amt : keeps I (token_transfer t f d amt).
Proof. apply keeps_reads. solve_reads. Qed.

Lemma keeps_token_burn t f amt : keeps I (token_burn t f amt).
Proof. apply keeps_reads. solve_reads. Qed.

Lemma keeps_try_invoke {A} (f : Ctx → xworld → option (A * xworld)) : keeps I (try_invoke f).
Proof. apply keeps_reads. intros c w a w' Hm. minv. destruct Hm as [?|?]; break; subst; done. Qed.

Lemma keeps_update_wasm h : keeps I (update_current_contract_wasm h).
Proof. apply keeps_reads. solve_reads. Qed.

End Primitive_frames.

(** One structural step of a preservation proof. Functions with a lemma in the
    database [keeps] are closed by it; the others are unfolded. *)
Ltac keeps_step :=
  lazymatch goal with
  | |- forall _, _ => intros ?
  | |- keeps _ (bind _ _) => apply keeps_bind
  | |- keeps _ (match ?x with _ => _ end) => destruct x eqn:?
  | |- keeps _ (match ?x with _ => _ end _) => destruct x eqn:?; cbv beta
  | |- keeps _ (for_each _ _) => apply keeps_for_each; intros ? ?
  | |- keeps _ (fold_each _ _ _) => apply keeps_fold_each
  | |- keeps _ (on_err _ _) => apply keeps_on_err
  | |- keeps _ (ret _) => apply keeps_ret
  | |- keeps _ (fail _) => apply keeps_fail
  | |- keeps _ panic => apply keeps_panic
  | |- keeps _ (fail_when _ _) => apply keeps_fail_when
  | |- keeps _ (ok_or _ _) => apply keeps_ok_or
  | |- keeps _ (unwrap _) => apply keeps_unwrap
  | |- keeps _ (plain_op _ _) => apply keeps_plain_op
  | |- keeps _ ledger_sequence => apply keeps_ledger_sequence
  | |- keeps _ current_contract_address => apply keeps_current_contract_address
  | |- keeps _ (require_auth _) => apply keeps_require_auth
  | |- keeps ?J (instance_get ?k) => exact (keeps_instance_get J k)
  | |- keeps _ (instance_has _) => apply keeps_instance_has
  | |- keeps ?J (persistent_get ?k) => exact (keeps_persistent_get J k)
  | |- keeps _ (persistent_has _) => apply keeps_persistent_has
  | |- keeps ?J (temporary_get ?k) => exact (keeps_temporary_get J k)
  | |- keeps _ (instance_set _ _) => eapply keeps_instance_set_frame; [typeclasses eauto | reflexivity]
  | |- keeps _ (instance_remove _) => eapply keeps_instance_remove_frame; [typeclasses eauto | reflexivity]
  | |- keeps _ (persistent_set _ _) => eapply keeps_persistent_set_frame; [typeclasses eauto | reflexivity]
  | |- keeps _ (persistent_remove _) => eapply keeps_persistent_remove_frame; [typeclasses eauto | reflexivity]
  | |- keeps _ (instance_extend_ttl _ _) => eapply keeps_instance_extend_ttl; typeclasses eauto
  | |- keeps _ (persistent_extend_ttl _ _ _) => eapply keeps_persistent_extend_ttl; typeclasses eauto
  | |- keeps _ (temporary_extend_ttl _ _ _) => eapply keeps_temporary_extend_ttl_frame; [typeclasses eauto | reflexivity]
  | |- keeps _ (temporary_set _ _) => eapply keeps_temporary_set_frame; [typeclasses eauto | reflexivity]
  | |- keeps _ (temporary_remove _) => eapply keeps_temporary_remove_frame; [typeclasses eauto | reflexivity]
  | |- keeps _ (publish _) => eapply keeps_publish; typeclasses eauto
  | |- keeps _ (token_transfer _ _ _ _) => eapply keeps_token_transfer; typeclasses eauto
  | |- keeps _ (token_burn _ _ _) => eapply keeps_token_burn; typeclasses eauto
  | |- keeps _ (try_invoke _) => eapply keeps_try_invoke; typeclasses eauto
  | |- keeps _ (update_current_contract_wasm _) => eapply keeps_update_wasm; typeclasses eauto
  | |- keeps _ ?m => first [ solve [auto with keeps nocore] | progress (unfold_head m; cbv beta) ]
  end.

Ltac solve_keeps := repeat keeps_step.

(** ** Write sets

    [writes Wi Wp Wt m]: a successful run of [m] changes at most the instance entries
    selected by [Wi], the persistent entries selected by [Wp] and the temporary
    entries selected by [Wt]. An invariant whose footprint is disjoint from the
    write set is preserved. *)
Definition agrees {H : Host} (Wi Wp Wt : Key → bool) (w0 : World) (_ : Ctx) (w : World) : Prop :=
  (∀ k, Wi k = false → iget w k = iget w0 k) ∧
  (∀ k, Wp k = false → pget w k = pget w0 k) ∧
  (∀ n k, Wt k = false → tget w n k = tget w0 n k).

Definition writes {H : Host} (Wi Wp Wt : Key → bool) {A} (m : M A) : Prop :=
  ∀ w0, keeps (agrees Wi Wp Wt w0) m.

#[export] Instance agrees_footprint {H : Host} Wi Wp Wt w0 :
  Footprint (agrees Wi Wp Wt w0) (λ k, negb (Wi k)) (λ k, negb (Wp k)) (λ k, negb (Wt k)).
Proof.
  intros c w w' Hi Hp Ht (Hi0 & Hp0 & Ht0). split_and!.
  - intros k Hk. rewrite <- Hi by (by rewrite Hk). auto.
  - intros k Hk. rewrite <- Hp by (by rewrite Hk). auto.
  - intros n k Hk. rewrite <- Ht by (by rewrite Hk). auto.
Qed.

Section Writes.

Context {H : Host}.

Lemma writes_ok {A} (m : M A) Wi Wp Wt c w a w' :
  writes Wi Wp Wt m → m c w = Ok a w' → agrees Wi Wp Wt w c w'.
Proof. intros Hw Hm. eapply (Hw w c w); [|done]. by split_and!. Qed.

Lemma keeps_writes {A} (m : M A) I Ki Kp Kt Wi Wp Wt :
  Footprint I Ki Kp Kt → writes Wi Wp Wt m →
  (∀ k, Ki k = true → Wi k = false) → (∀ k, Kp k = true → Wp k = false) →
  (∀ k, Kt k = true → Wt k = false) → keeps I m.
Proof.
  intros HF Hw Hi Hp Ht c w a w' HI Hm.
  destruct (writes_ok _ _ _ _ _ _ _ _ Hw Hm) as (Ei & Ep & Et).
  refine (footprint _ _ _ _ _ _ HI); intros; symmetry; auto.
Qed.

End Writes.

(** ** Which errors a function can raise *)

Definition raises {H : Host} (E : ContractError → bool) {A} (m : M A) : Prop :=
  ∀ c w e w', m c w = Err e w' → E e = true.

Create HintDb raises discriminated.

Section Raises.

Context {H : Host} (E : ContractError → bool).

Lemma raises_bind {A B} (m : M A) (f : A → M B) :
  raises E m → (∀ a, raises E (f a)) → raises E (bind m f).
Proof. intros Hm Hf c w e w' [Hb|(a & w1 & _ & Hb)]%bind_err; [by eapply Hm | by eapply Hf]. Qed.

Lemma raises_none {A} (m : M A) : ErrSpec m (λ _ _ _ _, False) → raises E m.
Proof. intros Hs c w e w' Hm. by apply Hs in Hm. Qed.

Lemma raises_fail {A} e : E e = true → raises E (fail (A:=A) e).
Proof. intros He c w e' w' Hm. by apply err_spec in Hm as [-> _]. Qed.

Lemma raises_fail_when b e : E e = true → raises E (fail_when b e).
Proof. intros He c w e' w' Hm. by apply err_spec in Hm as (_ & -> & _). Qed.

Lemma raises_ok_or {A} (o : option A) e : E e = true → raises E (ok_or o e).
Proof. intros He c w e' w' Hm. by apply err_spec in Hm as (_ & -> & _). Qed.

Lemma raises_for_each {A} (l : list A) f : (∀ x, raises E (f x)) → raises E (for_each l f).
Proof.
  intros Hf. induction l as [|x l IH]; cbn.
  - apply raises_none. typeclasses eauto.
  - apply raises_bind; auto.
Qed.

Lemma raises_fold_each {A S} (l : list A) (s : S) f :
  (∀ s x, raises E (f s x)) → raises E (fold_each l s f).
Proof.
  intros Hf. revert s. induction l as [|x l IH]; intros s; cbn.
  - apply raises_none. typeclasses eauto.
  - apply raises_bind; auto.
Qed.

End Raises.

Ltac raises_step :=
  lazymatch goal with
  | |- forall _, _ => intros ?
  | |- raises _ (bind _ _) => apply raises_bind
  | |- raises _ (match ?x with _ => _ end) => destruct x
  | |- raises _ (match ?x with _ => _ end _) => destruct x; cbv beta
  | |- raises _ (for_each _ _) => apply raises_for_each
  | |- raises _ (fold_each _ _ _) => apply raises_fold_each
  | |- raises _ (fail _) => apply raises_fail; reflexivity
  | |- raises _ (fail_when _ _) => apply raises_fail_when; reflexivity
  | |- raises _ (ok_or _ _) => apply raises_ok_or; reflexivity
  | |- raises ?E (instance_get ?k) => exact (raises_none E (instance_get k) (instance_get_err k))
  | |- raises ?E (persistent_get ?k) => exact (raises_none E (persistent_get k) (persistent_get_err k))
  | |- raises ?E (temporary_get ?k) => exact (raises_none E (temporary_get k) (temporary_get_err k))
  | |- raises _ ?m =>
      first [ apply raises_none; typeclasses eauto
            | solve [auto with raises nocore]
            | progress (unfold_head m; cbv beta) ]
  end.

(** Proves that a function raises only the errors of a set. *)
Ltac solve_raises := repeat raises_step.
