(* ===== verification/RefHost.v ===== *)
(** * A concrete host

    An executable instance of [Host], used by the concrete runs that accompany
    the theorems, and the proof that it satisfies [HostOk]: the documented
    behaviour assumed of the Soroban host is consistent.

    Storage is a table indexed by keys; a temporary entry carries the ledger up
    to which it lives. Token contracts keep a log of transfers and burns and
    accept every amount; a pool pays 99% of its input (95% for pools with a
    negative identifier, which also report no reserves). *)

From stdpp Require Import base decidable strings numbers list.
From S2P Require Import Prelude Types Host.

Local Open Scope Z_scope.

Definition table : Type := ∀ k : Key, option (kval k).

Definition table_empty : table := λ _, None.

Definition table_put (t : table) (k : Key) (o : option (kval k)) : table :=
  λ k', match decide (k = k') with
        | left e => eq_rect k (λ j, option (kval j)) o k' e
        | right _ => t k'
        end.

Definition ttable : Type := ∀ k : Key, option (kval k * Z).

Definition ttable_empty : ttable := λ _, None.

Definition ttable_put (t : ttable) (k : Key) (o : option (kval k * Z)) : ttable :=
  λ k', match decide (k = k') with
        | left e => eq_rect k (λ j, option (kval j * Z)%type) o k' e
        | right _ => t k'
        end.

Definition live (n : Z) {A} (o : option (A * Z)) : option A :=
  match o with Some (v, lu) => if n <=? lu then Some v else None | None => None end.

(** Ledgers a fresh temporary entry lives for. *)
Definition min_temp_ttl : Z := 16.

Definition ttable_set (t : ttable) (n : Z) (k : Key) (v : kval k) : ttable :=
  ttable_put t k (Some (v, match t k with Some (_, lu) => Z.max lu n | None => n + min_temp_ttl end)).

Definition ttable_extend (t : ttable) (n : Z) (k : Key) (th ex : Z) : ttable :=
  match t k with
  | Some (v, lu) =>
      if (n <=? lu) && (lu - n <=? th) then ttable_put t k (Some (v, Z.max lu (n + ex))) else t
  | None => t
  end.

(** The state of the contracts outside the router. *)
Record RefExt := mkRefExt {
  transfers : list (Address * Address * Address * Z);
  burns : list (Address * Address * Z);
  reserves : Address → Z * Z;
  uploaded : list BytesN32
}.

Definition pool_out (pool : Address) (amt : Z) : Z :=
  if addr_id pool <? 0 then Z.quot (amt * 95) 100 else Z.quot (amt * 99) 100.

Definition bump_reserves (r : Address → Z * Z) (p : Address) (di do_ : Z) : Address → Z * Z :=
  λ q, if bool_decide (p = q) then (fst (r q) + di, snd (r q) - do_) else r q.

Definition refHost (checks : bool) : Host := {|
  istore := table;
  i_get s k := s k;
  i_set s k v := table_put s k (Some v);
  i_remove s k := table_put s k None;
  i_extend_ok _ _ _ _ := true;
  i_extend s _ _ _ := s;
  pstore := table;
  p_get s k := s k;
  p_set s k v := table_put s k (Some v);
  p_remove s k := table_put s k None;
  p_extend_ok _ _ _ _ _ := true;
  p_extend s _ _ _ _ := s;
  tstore := ttable;
  t_get s n k := live n (s k);
  t_set := ttable_set;
  t_remove s k := ttable_put s k None;
  t_extend_ok _ _ _ _ _ := true;
  t_extend := ttable_extend;
  xworld := RefExt;
  x_transfer _ x token from to amt :=
    Some (mkRefExt (transfers x ++ [(token, from, to, amt)]) (burns x) (reserves x) (uploaded x));
  x_burn _ x token from amt :=
    Some (mkRefExt (transfers x) (burns x ++ [(token, from, amt)]) (reserves x) (uploaded x));
  x_quote _ x pool _ _ amt := Some (pool_out pool amt, x);
  x_swap _ x pool _ _ amt _ :=
    Some (pool_out pool amt,
          mkRefExt (transfers x) (burns x)
            (bump_reserves (reserves x) pool amt (pool_out pool amt)) (uploaded x));
  x_reserves _ x pool := if addr_id pool <? 0 then None else Some (reserves x pool, x);
  wasm_uploaded x h := bool_decide (h ∈ uploaded x);
  sha256 b := be_bytes 32 (be_value b);
  overflow_checks := checks
|}.

Lemma table_put_eq t k o : table_put t k o k = o.
Proof.
  unfold table_put. destruct (decide (k = k)) as [e|n]; [|done].
  by rewrite (proof_irrel e eq_refl).
Qed.

Lemma table_put_ne t k k' o : k ≠ k' → table_put t k o k' = t k'.
Proof. unfold table_put. intros. by destruct (decide (k = k')). Qed.

Lemma ttable_put_eq t k o : ttable_put t k o k = o.
Proof.
  unfold ttable_put. destruct (decide (k = k)) as [e|n]; [|done].
  by rewrite (proof_irrel e eq_refl).
Qed.

Lemma ttable_put_ne t k k' o : k ≠ k' → ttable_put t k o k' = t k'.
Proof. unfold ttable_put. intros. by destruct (decide (k = k')). Qed.

Lemma live_Some n {A} (o : option (A * Z)) v :
  live n o = Some v ↔ ∃ lu, o = Some (v, lu) ∧ n <= lu.
Proof.
  unfold live. destruct o as [[v' lu]|]; [|naive_solver].
  destruct (Z.leb_spec n lu); naive_solver lia.
Qed.

Lemma ttable_extend_ne t n k th ex k' : k ≠ k' → ttable_extend t n k th ex k' = t k'.
Proof. intros. unfold ttable_extend. repeat case_match; by rewrite ?ttable_put_ne. Qed.

Lemma ttable_extend_get t n k th ex : live n (ttable_extend t n k th ex k) = live n (t k).
Proof.
  unfold ttable_extend. destruct (t k) as [[v lu]|] eqn:E; [|by rewrite E].
  destruct (n <=? lu) eqn:Hn; cbn; [|by rewrite E].
  destruct (lu - n <=? th); [|by rewrite E].
  rewrite ttable_put_eq. cbn. rewrite Hn. apply Z.leb_le in Hn.
  destruct (Z.leb_spec n (Z.max lu (n + ex))); [done|lia].
Qed.

Lemma ttable_extended t n m k ex v :
  live n (t k) = Some v → n <= m <= n + ex → live m (ttable_extend t n k ex ex k) = Some v.
Proof.
  intros (lu & E & Hn)%live_Some Hm. unfold ttable_extend. rewrite E.
  apply live_Some. rewrite (proj2 (Z.leb_le n lu) Hn). cbn.
  destruct (Z.leb_spec (lu - n) ex).
  - rewrite ttable_put_eq. eexists; split; [done|lia].
  - rewrite E. eexists; split; [done|lia].
Qed.

#[export] Instance refHost_ok checks : HostOk (refHost checks).
Proof.
  split; cbn; intros;
    try (by rewrite ?table_put_eq, ?ttable_put_eq); try (by rewrite ?table_put_ne, ?ttable_put_ne by done);
    try done.
  - unfold ttable_set. rewrite ttable_put_eq. apply live_Some.
    eexists; split; [done|]. destruct (s k) as [[? ?]|]; unfold min_temp_ttl; lia.
  - unfold ttable_set. by rewrite ttable_put_ne.
  - destruct (decide (k = k')) as [<-|]; [apply ttable_extend_get | by rewrite ttable_extend_ne].
  - by rewrite ttable_extend_ne.
  - by apply ttable_extended.
  - apply live_Some in H0 as (lu & -> & ?). apply live_Some. exists lu. split; [done|lia].
Qed.

(** ** Worlds and contexts for concrete runs *)

Definition ref_world0 (checks : bool) : World (H := refHost checks) :=
  mkWorld (H := refHost checks) table_empty table_empty ttable_empty
    (mkRefExt [] [] (λ _, (1000000, 1000000)) []) [] zero_bytes32.

(** An invocation at a ledger, of the contract at address 0, signed by every
    address in a list. *)
Definition ref_ctx (n : Z) (by_ : list Address) : Ctx :=
  mkCtx n (mkAddr 0) (λ a, bool_decide (a ∈ by_)).
