(* ===== verification/Events.v ===== *)
(** * events.rs

    The publishing functions of the contract, one per Rust function. *)

From stdpp Require Import base decidable strings numbers list.
From S2P Require Import Prelude Types Host HostLogic.

Local Open Scope Z_scope.
Local Open Scope host_scope.

Section Events.

Context {H : Host}.

Definition initialized (admin : Address) (fee_rate : Z) : M unit :=
  publish (EvInitialized admin fee_rate).

Definition admin_changed (old_admin new_admin : Address) : M unit :=
  publish (EvAdminChanged old_admin new_admin).

Definition pool_registered (pool_address : Address) : M unit :=
  publish (EvPoolRegistered pool_address).

Definition paused : M unit := publish EvPaused.

Definition unpaused : M unit := publish EvUnpaused.

Definition swap_executed (sender : Address) (amount_in amount_out fee : Z) (route : Route) : M unit :=
  n ← ledger_sequence;
  publish (EvSwapExecuted sender amount_in amount_out fee route n).

Definition route_validated (hop_count expires_at : Z) : M unit :=
  n ← ledger_sequence;
  publish (EvRouteValidated hop_count expires_at n).

Definition quote_generated
    (amount_in expected_output fee_amount price_impact_bps hop_count valid_until : Z) : M unit :=
  n ← ledger_sequence;
  publish (EvQuoteGenerated amount_in expected_output fee_amount price_impact_bps hop_count
             valid_until n).

Definition execution_requested (sender : Address) (amount_in hop_count deadline : Z) : M unit :=
  n ← ledger_sequence;
  publish (EvExecutionRequested sender amount_in hop_count deadline n).

Definition execution_failed (sender : Address) (error_code : Z) : M unit :=
  n ← ledger_sequence;
  publish (EvExecutionFailed sender error_code n).

(** ** Multi-sig governance events *)

Definition governance_migrated (old_admin : Address) (signer_count threshold : Z) : M unit :=
  publish (EvGovernanceMigrated old_admin signer_count threshold).

Definition proposal_created (id : Z) (proposer : Address) (action : ProposalAction) : M unit :=
  publish (EvProposalCreated id proposer action).

Definition proposal_approved (id : Z) (signer : Address) (approvals : Z) : M unit :=
  publish (EvProposalApproved id signer approvals).

Definition proposal_executed (id : Z) : M unit := publish (EvProposalExecuted id).

Definition proposal_cancelled (id : Z) (by_ : Address) : M unit :=
  publish (EvProposalCancelled id by_).

Definition guardian_set (guardian : Address) : M unit := publish (EvGuardianSet guardian).

Definition guardian_paused (guardian : Address) : M unit := publish (EvGuardianPaused guardian).

(** ** Upgrade events *)

Definition upgrade_proposed (proposer : Address) (old_hash new_hash : BytesN32)
    (execute_after : Z) : M unit :=
  publish (EvUpgradeProposed proposer old_hash new_hash execute_after).

Definition upgrade_completed (old_hash new_hash : BytesN32) (ledger : Z) : M unit :=
  publish (EvUpgradeCompleted old_hash new_hash ledger).

Definition upgrade_cancelled (by_ : Address) : M unit := publish (EvUpgradeCancelled by_).

Definition migration_completed (major minor patch : Z) : M unit :=
  publish (EvMigrationCompleted major minor patch).

(** ** Token allowlist events *)

Definition token_added (asset : Asset) (added_by : Address) : M unit :=
  publish (EvTokenAdded asset added_by).

Definition token_removed (asset : Asset) (removed_by : Address) : M unit :=
  publish (EvTokenRemoved asset removed_by).

Definition token_updated (asset : Asset) (updated_by : Address) : M unit :=
  publish (EvTokenUpdated asset updated_by).

(** ** MEV protection events *)

Definition high_impact_swap (sender : Address) (impact_bps amount_in : Z) : M unit :=
  publish (EvHighImpactSwap sender impact_bps amount_in).

Definition rate_limit_hit (sender : Address) (swap_count window : Z) : M unit :=
  publish (EvRateLimitHit sender swap_count window).

Definition commitment_created (sender : Address) (commitment_hash : BytesN32)
    (deposit_amount : Z) : M unit :=
  publish (EvCommitmentCreated sender commitment_hash deposit_amount).

Definition commitment_revealed (sender : Address) (commitment_hash : BytesN32) : M unit :=
  publish (EvCommitmentRevealed sender commitment_hash).

Definition ttl_extended (pools_extended ledger : Z) : M unit :=
  publish (EvTtlExtended pools_extended ledger).

Definition ttl_warning (estimated_remaining threshold : Z) : M unit :=
  publish (EvTtlWarning estimated_remaining threshold).

(** ** Fee distribution events *)

Definition fee_collected (asset : Asset) (amount : Z) : M unit :=
  n ← ledger_sequence;
  publish (EvFeeCollected asset amount n).

Definition fees_distributed (asset : Asset) (total_distributed : Z) : M unit :=
  n ← ledger_sequence;
  publish (EvFeesDistributed asset total_distributed n).

Definition fees_burned (asset : Asset) (amount : Z) : M unit :=
  n ← ledger_sequence;
  publish (EvFeesBurned asset amount n).

End Events.

(** ** Specifications of the events that carry the ledger *)

Section Event_specs.

Context {H : Host}.

#[export] Instance swap_executed_spec a i o f r :
  OkSpec (swap_executed a i o f r) (λ c w _ w', w' = emit w (EvSwapExecuted a i o f r (ledger_seq c))).
Proof. intros c w u w' Hm. unfold swap_executed in Hm. by minv. Qed.

#[export] Instance route_validated_spec h x :
  OkSpec (route_validated h x) (λ c w _ w', w' = emit w (EvRouteValidated h x (ledger_seq c))).
Proof. intros c w u w' Hm. unfold route_validated in Hm. by minv. Qed.

#[export] Instance execution_requested_spec a i h d :
  OkSpec (execution_requested a i h d) (λ c w _ w', w' = emit w (EvExecutionRequested a i h d (ledger_seq c))).
Proof. intros c w u w' Hm. unfold execution_requested in Hm. by minv. Qed.

#[export] Instance execution_failed_spec a e :
  OkSpec (execution_failed a e) (λ c w _ w', w' = emit w (EvExecutionFailed a e (ledger_seq c))).
Proof. intros c w u w' Hm. unfold execution_failed in Hm. by minv. Qed.

#[export] Instance fee_collected_spec a x :
  OkSpec (fee_collected a x) (λ c w _ w', w' = emit w (EvFeeCollected a x (ledger_seq c))).
Proof. intros c w u w' Hm. unfold fee_collected in Hm. by minv. Qed.

#[export] Instance fees_distributed_spec a x :
  OkSpec (fees_distributed a x) (λ c w _ w', w' = emit w (EvFeesDistributed a x (ledger_seq c))).
Proof. intros c w u w' Hm. unfold fees_distributed in Hm. by minv. Qed.

#[export] Instance fees_burned_spec a x :
  OkSpec (fees_burned a x) (λ c w _ w', w' = emit w (EvFeesBurned a x (ledger_seq c))).
Proof. intros c w u w' Hm. unfold fees_burned in Hm. by minv. Qed.

End Event_specs.
