(* ===== verification/Storage.v ===== *)
(** * storage.rs

    The storage helpers of the contract: TTL constants and extension helpers, and
    a getter or setter per kind of entry, each as in the source. *)

From stdpp Require Import base decidable strings numbers list.
From S2P Require Import Prelude Types Host HostLogic.

Local Open Scope Z_scope.
Local Open Scope host_scope.

(** ** TTL constants (in ledger sequences) *)

Definition DAY_IN_LEDGERS : Z := 17280.
Definition INSTANCE_TTL_EXTEND_TO : Z := 30 * DAY_IN_LEDGERS.
Definition INSTANCE_TTL_THRESHOLD : Z := 7 * DAY_IN_LEDGERS.
Definition POOL_TTL_EXTEND_TO : Z := 90 * DAY_IN_LEDGERS.
Definition POOL_TTL_THRESHOLD : Z := 22 * DAY_IN_LEDGERS.
Definition VOLUME_TTL_EXTEND_TO : Z := 30 * DAY_IN_LEDGERS.
Definition VOLUME_TTL_THRESHOLD : Z := 7 * DAY_IN_LEDGERS.
Definition NONCE_TTL_EXTEND_TO : Z := 30 * DAY_IN_LEDGERS.
Definition NONCE_TTL_THRESHOLD : Z := 7 * DAY_IN_LEDGERS.

Section Storage.

Context {H : Host}.

(** ** TTL extension helpers *)

Definition extend_instance_ttl : M unit :=
  instance_extend_ttl INSTANCE_TTL_THRESHOLD INSTANCE_TTL_EXTEND_TO.

Definition extend_persistent_ttl (key : Key) (threshold extend_to : Z) : M unit :=
  b ← persistent_has key;
  if b : bool then persistent_extend_ttl key threshold extend_to else ret tt.

Definition extend_pool_ttl (pool : Address) : M unit :=
  extend_persistent_ttl (StorageKey.SupportedPool pool) POOL_TTL_THRESHOLD POOL_TTL_EXTEND_TO.

Definition extend_nonce_ttl (address : Address) : M unit :=
  extend_persistent_ttl (StorageKey.SwapNonce address) NONCE_TTL_THRESHOLD NONCE_TTL_EXTEND_TO.

Definition extend_volume_ttl : M unit :=
  extend_persistent_ttl StorageKey.TotalSwapVolume VOLUME_TTL_THRESHOLD VOLUME_TTL_EXTEND_TO.

(** ** Core storage helpers *)

Definition get_admin : M Address :=
  v ← instance_get StorageKey.Admin;
  unwrap v.

Definition set_admin (admin : Address) : M unit := instance_set StorageKey.Admin admin.

Definition get_fee_rate : M Z :=
  v ← instance_get StorageKey.FeeRate;
  ret (default 0 v).

Definition set_fee_rate (rate : Z) : M unit := instance_set StorageKey.FeeRate rate.

Definition get_fee_to : M Address :=
  v ← instance_get StorageKey.FeeTo;
  unwrap v.

Definition get_fee_to_optional : M (option Address) := instance_get StorageKey.FeeTo.

Definition get_pool_count : M Z :=
  v ← instance_get StorageKey.PoolCount;
  ret (default 0 v).

Definition set_pool_count (count : Z) : M unit := instance_set StorageKey.PoolCount count.

Definition get_paused : M bool :=
  v ← instance_get StorageKey.Paused;
  ret (default false v).

Definition is_initialized : M bool := instance_has StorageKey.Admin.

Definition is_supported_pool (pool : Address) : M bool :=
  persistent_has (StorageKey.SupportedPool pool).

Fixpoint batch_check_pools (pools : list Address) : M bool :=
  match pools with
  | [] => ret true
  | p :: rest =>
      b ← is_supported_pool p;
      if b : bool then batch_check_pools rest else ret false
  end.

Definition get_pool_list : M (list Address) :=
  v ← instance_get StorageKey.PoolList;
  ret (default [] v).

Definition add_to_pool_list (pool : Address) : M unit :=
  list ← get_pool_list;
  instance_set StorageKey.PoolList (list ++ [pool]).

(** ** Nonces *)

Definition get_nonce (address : Address) : M Z :=
  v ← persistent_get (StorageKey.SwapNonce address);
  ret (default 0 v).

Definition increment_nonce (address : Address) : M unit :=
  current ← get_nonce address;
  next ← unwrap (checked_add I128 current 1);
  persistent_set (StorageKey.SwapNonce address) next;;
  extend_nonce_ttl address.

(** ** Swap volume *)

Definition get_total_swap_volume : M Z :=
  v ← persistent_get StorageKey.TotalSwapVolume;
  ret (default 0 v).

Definition add_swap_volume (amount : Z) : M unit :=
  current ← get_total_swap_volume;
  persistent_set StorageKey.TotalSwapVolume
    (default (int_max I128) (checked_add I128 current amount));;
  extend_volume_ttl.

(** ** TTL extension tracking *)

Definition get_last_ttl_extension : M Z :=
  v ← instance_get StorageKey.LastTtlExtension;
  ret (default 0 v).

Definition set_last_ttl_extension (ledger : Z) : M unit :=
  instance_set StorageKey.LastTtlExtension ledger.

(** ** Token transfer: only Soroban tokens are moved *)

Definition transfer_asset (asset : Asset) (from to : Address) (amount : Z) : M unit :=
  match asset with
  | Asset.Soroban address => token_transfer address from to amount
  | _ => ret tt
  end.

(** ** Multi-sig governance helpers *)

Definition is_multisig : M bool :=
  v ← instance_get StorageKey.IsMultiSig;
  ret (default false v).

Definition set_multisig : M unit := instance_set StorageKey.IsMultiSig true.

Definition get_governance : M GovernanceConfig :=
  v ← instance_get StorageKey.Governance;
  unwrap v.

Definition set_governance (config : GovernanceConfig) : M unit :=
  instance_set StorageKey.Governance config.

Definition has_guardian : M bool := instance_has StorageKey.Guardian.

Definition get_guardian : M (option Address) := instance_get StorageKey.Guardian.

Definition set_guardian (guardian : Address) : M unit :=
  instance_set StorageKey.Guardian guardian.

Definition next_proposal_id : M Z :=
  v ← instance_get StorageKey.ProposalCounter;
  next ← unwrap (checked_add U64 (default 0 v) 1);
  instance_set StorageKey.ProposalCounter next;;
  ret next.

Definition get_proposal (id : Z) : M (option Proposal) :=
  persistent_get (StorageKey.ProposalEntry id).

Definition save_proposal (proposal : Proposal) : M unit :=
  persistent_set (StorageKey.ProposalEntry (p_id proposal)) proposal;;
  persistent_extend_ttl (StorageKey.ProposalEntry (p_id proposal)) 17280 (17280 * 30).

(** ** Upgrade helpers *)

Definition get_contract_version : M (option ContractVersion) :=
  instance_get StorageKey.ContractVersionKey.

Definition set_contract_version (version : ContractVersion) : M unit :=
  instance_set StorageKey.ContractVersionKey version;;
  persistent_set (StorageKey.VersionHistory (upgraded_at version)) version;;
  persistent_extend_ttl (StorageKey.VersionHistory (upgraded_at version)) 17280 (17280 * 365).

Definition get_pending_upgrade : M (option PendingUpgrade) :=
  instance_get StorageKey.PendingUpgradeKey.

Definition set_pending_upgrade (pending : PendingUpgrade) : M unit :=
  instance_set StorageKey.PendingUpgradeKey pending.

Definition clear_pending_upgrade : M unit := instance_remove StorageKey.PendingUpgradeKey.

Definition is_migration_done (major minor patch : Z) : M bool :=
  persistent_has (StorageKey.MigrationDone major minor patch).

Definition set_migration_done (major minor patch : Z) : M unit :=
  persistent_set (StorageKey.MigrationDone major minor patch) true;;
  persistent_extend_ttl (StorageKey.MigrationDone major minor patch) 17280 (17280 * 365).

(** ** Token allowlist helpers *)

Definition get_token_info (asset : Asset) : M (option TokenInfo) :=
  persistent_get (StorageKey.AllowedToken asset).

Definition is_token_allowed (asset : Asset) : M bool :=
  persistent_has (StorageKey.AllowedToken asset).

Definition save_token_info (info : TokenInfo) : M unit :=
  persistent_set (StorageKey.AllowedToken (ti_asset info)) info;;
  persistent_extend_ttl (StorageKey.AllowedToken (ti_asset info)) 17280 (17280 * 365).

Definition remove_token (asset : Asset) : M unit :=
  persistent_remove (StorageKey.AllowedToken asset).

Definition get_token_count : M Z :=
  v ← instance_get StorageKey.TokenCount;
  ret (default 0 v).

Definition set_token_count (count : Z) : M unit := instance_set StorageKey.TokenCount count.

Definition get_tokens_by_category_key (asset : Asset) : M (option TokenCategory) :=
  o ← get_token_info asset;
  ret (ti_category <$> o).

(** ** MEV configuration *)

Definition get_mev_config : M (option MevConfig) := instance_get StorageKey.MevConfig.

Definition set_mev_config (config : MevConfig) : M unit :=
  instance_set StorageKey.MevConfig config.

(** ** Commitments (temporary) *)

Definition get_commitment (hash : BytesN32) : M (option CommitmentData) :=
  temporary_get (StorageKey.Commitment hash).

Definition set_commitment (hash : BytesN32) (data : CommitmentData) (ttl_ledgers : Z) : M unit :=
  temporary_set (StorageKey.Commitment hash) data;;
  temporary_extend_ttl (StorageKey.Commitment hash) ttl_ledgers ttl_ledgers.

Definition remove_commitment (hash : BytesN32) : M unit :=
  temporary_remove (StorageKey.Commitment hash).

(** ** Rate limiting (temporary) *)

Definition get_account_swap_count (address : Address) : M Z :=
  v ← temporary_get (StorageKey.AccountSwapCount address);
  ret (default 0 v).

Definition set_account_swap_count (address : Address) (count ttl_ledgers : Z) : M unit :=
  temporary_set (StorageKey.AccountSwapCount address) count;;
  temporary_extend_ttl (StorageKey.AccountSwapCount address) ttl_ledgers ttl_ledgers.

Definition get_account_swap_window_start (address : Address) : M Z :=
  v ← temporary_get (StorageKey.AccountSwapWindowStart address);
  ret (default 0 v).

Definition set_account_swap_window_start (address : Address) (start ttl_ledgers : Z) : M unit :=
  temporary_set (StorageKey.AccountSwapWindowStart address) start;;
  temporary_extend_ttl (StorageKey.AccountSwapWindowStart address) ttl_ledgers ttl_ledgers.

(** ** Whitelist (persistent) *)

Definition is_whitelisted (address : Address) : M bool :=
  v ← persistent_get (StorageKey.Whitelisted address);
  ret (default false v).

Definition set_whitelisted (address : Address) (whitelisted : bool) : M unit :=
  persistent_set (StorageKey.Whitelisted address) whitelisted;;
  if whitelisted then
    persistent_extend_ttl (StorageKey.Whitelisted address) DAY_IN_LEDGERS (DAY_IN_LEDGERS * 30)
  else ret tt.

(** ** Latest known price (instance) *)

Definition get_latest_known_price (token_a token_b : Address) : M (option Z) :=
  instance_get (StorageKey.LatestKnownPrice token_a token_b).

Definition set_latest_known_price (token_a token_b : Address) (price : Z) : M unit :=
  instance_set (StorageKey.LatestKnownPrice token_a token_b) price.

(** ** Fee distribution *)

Definition get_fee_config : M (option FeeConfig) := instance_get StorageKey.FeeConfig.

Definition set_fee_config (config : FeeConfig) : M unit :=
  instance_set StorageKey.FeeConfig config.

Definition get_fee_balance (asset : Asset) : M Z :=
  v ← persistent_get (StorageKey.FeeBalance asset);
  ret (default 0 v).

Definition set_fee_balance (asset : Asset) (amount : Z) : M unit :=
  persistent_set (StorageKey.FeeBalance asset) amount;;
  persistent_extend_ttl (StorageKey.FeeBalance asset) 17280 (17280 * 30).

Definition add_fee_balance (asset : Asset) (amount : Z) : M unit :=
  current ← get_fee_balance asset;
  set_fee_balance asset (default (int_max I128) (checked_add I128 current amount));;
  v ← persistent_get (StorageKey.TotalFeesCollected asset);
  persistent_set (StorageKey.TotalFeesCollected asset)
    (default (int_max I128) (checked_add I128 (default 0 v) amount));;
  persistent_extend_ttl (StorageKey.TotalFeesCollected asset) 17280 (17280 * 365).

Definition get_total_fees_collected (asset : Asset) : M Z :=
  v ← persistent_get (StorageKey.TotalFeesCollected asset);
  ret (default 0 v).

Definition add_total_burned (asset : Asset) (amount : Z) : M unit :=
  v ← persistent_get (StorageKey.TotalFeesBurned asset);
  persistent_set (StorageKey.TotalFeesBurned asset)
    (default (int_max I128) (checked_add I128 (default 0 v) amount));;
  persistent_extend_ttl (StorageKey.TotalFeesBurned asset) 17280 (17280 * 365).

Definition get_total_burned (asset : Asset) : M Z :=
  v ← persistent_get (StorageKey.TotalFeesBurned asset);
  ret (default 0 v).

(** [history.push_front(record)], then [pop_back] when longer than 10. *)
Definition push_distribution_history (asset : Asset) (record : DistributionRecord) : M unit :=
  v ← persistent_get (StorageKey.DistributionHistory asset);
  let history := record :: default [] v in
  let history := if Nat.ltb 10 (length history) then take (length history - 1) history else history in
  persistent_set (StorageKey.DistributionHistory asset) history;;
  persistent_extend_ttl (StorageKey.DistributionHistory asset) 17280 (17280 * 30).

Definition get_distribution_history (asset : Asset) : M (list DistributionRecord) :=
  v ← persistent_get (StorageKey.DistributionHistory asset);
  ret (default [] v).

End Storage.

(** ** Specifications of the helpers *)

Section Specs.

Context {H : Host}.

#[export] Instance get_admin_spec : OkSpec (get_admin)
  (λ c w a w', iget w StorageKey.Admin = Some a ∧ w' = w).
Proof. intros c w a w' Hm. unfold get_admin in Hm. by minv. Qed.

#[export] Instance get_fee_rate_spec : OkSpec (get_fee_rate)
  (λ c w a w', a = default 0 (iget w StorageKey.FeeRate) ∧ w' = w).
Proof. intros c w a w' Hm. unfold get_fee_rate in Hm. by minv. Qed.

#[export] Instance get_fee_to_spec : OkSpec (get_fee_to)
  (λ c w a w', iget w StorageKey.FeeTo = Some a ∧ w' = w).
Proof. intros c w a w' Hm. unfold get_fee_to in Hm. by minv. Qed.

#[export] Instance get_pool_count_spec : OkSpec (get_pool_count)
  (λ c w a w', a = default 0 (iget w StorageKey.PoolCount) ∧ w' = w).
Proof. intros c w a w' Hm. unfold get_pool_count in Hm. by minv. Qed.

#[export] Instance get_paused_spec : OkSpec (get_paused)
  (λ c w a w', a = default false (iget w StorageKey.Paused) ∧ w' = w).
Proof. intros c w a w' Hm. unfold get_paused in Hm. by minv. Qed.

#[export] Instance get_pool_list_spec : OkSpec (get_pool_list)
  (λ c w a w', a = default [] (iget w StorageKey.PoolList) ∧ w' = w).
Proof. intros c w a w' Hm. unfold get_pool_list in Hm. by minv. Qed.

#[export] Instance get_nonce_spec x : OkSpec (get_nonce x)
  (λ c w a w', a = default 0 (pget w (StorageKey.SwapNonce x)) ∧ w' = w).
Proof. intros c w a w' Hm. unfold get_nonce in Hm. by minv. Qed.

#[export] Instance get_total_swap_volume_spec : OkSpec (get_total_swap_volume)
  (λ c w a w', a = default 0 (pget w StorageKey.TotalSwapVolume) ∧ w' = w).
Proof. intros c w a w' Hm. unfold get_total_swap_volume in Hm. by minv. Qed.

#[export] Instance get_last_ttl_extension_spec : OkSpec (get_last_ttl_extension)
  (λ c w a w', a = default 0 (iget w StorageKey.LastTtlExtension) ∧ w' = w).
Proof. intros c w a w' Hm. unfold get_last_ttl_extension in Hm. by minv. Qed.

#[export] Instance is_multisig_spec : OkSpec (is_multisig)
  (λ c w a w', a = default false (iget w StorageKey.IsMultiSig) ∧ w' = w).
Proof. intros c w a w' Hm. unfold is_multisig in Hm. by minv. Qed.

#[export] Instance get_governance_spec : OkSpec (get_governance)
  (λ c w a w', iget w StorageKey.Governance = Some a ∧ w' = w).
Proof. intros c w a w' Hm. unfold get_governance in Hm. by minv. Qed.

#[export] Instance get_token_count_spec : OkSpec (get_token_count)
  (λ c w a w', a = default 0 (iget w StorageKey.TokenCount) ∧ w' = w).
Proof. intros c w a w' Hm. unfold get_token_count in Hm. by minv. Qed.

#[export] Instance get_account_swap_count_spec x : OkSpec (get_account_swap_count x)
  (λ c w a w', a = default 0 (tget w (ledger_seq c) (StorageKey.AccountSwapCount x)) ∧ w' = w).
Proof. intros c w a w' Hm. unfold get_account_swap_count in Hm. by minv. Qed.

#[export] Instance get_account_swap_window_start_spec x : OkSpec (get_account_swap_window_start x)
  (λ c w a w', a = default 0 (tget w (ledger_seq c) (StorageKey.AccountSwapWindowStart x)) ∧ w' = w).
Proof. intros c w a w' Hm. unfold get_account_swap_window_start in Hm. by minv. Qed.

#[export] Instance is_whitelisted_spec x : OkSpec (is_whitelisted x)
  (λ c w a w', a = default false (pget w (StorageKey.Whitelisted x)) ∧ w' = w).
Proof. intros c w a w' Hm. unfold is_whitelisted in Hm. by minv. Qed.

#[export] Instance get_fee_balance_spec x : OkSpec (get_fee_balance x)
  (λ c w a w', a = default 0 (pget w (StorageKey.FeeBalance x)) ∧ w' = w).
Proof. intros c w a w' Hm. unfold get_fee_balance in Hm. by minv. Qed.

#[export] Instance get_contract_version_spec : OkSpec (get_contract_version)
  (λ c w a w', a = iget w StorageKey.ContractVersionKey ∧ w' = w).
Proof. intros c w a w' Hm. unfold get_contract_version in Hm. by minv. Qed.

#[export] Instance get_pending_upgrade_spec : OkSpec (get_pending_upgrade)
  (λ c w a w', a = iget w StorageKey.PendingUpgradeKey ∧ w' = w).
Proof. intros c w a w' Hm. unfold get_pending_upgrade in Hm. by minv. Qed.

#[export] Instance get_guardian_spec : OkSpec (get_guardian)
  (λ c w a w', a = iget w StorageKey.Guardian ∧ w' = w).
Proof. intros c w a w' Hm. unfold get_guardian in Hm. by minv. Qed.

#[export] Instance get_fee_to_optional_spec : OkSpec (get_fee_to_optional)
  (λ c w a w', a = iget w StorageKey.FeeTo ∧ w' = w).
Proof. intros c w a w' Hm. unfold get_fee_to_optional in Hm. by minv. Qed.

#[export] Instance get_mev_config_spec : OkSpec (get_mev_config)
  (λ c w a w', a = iget w StorageKey.MevConfig ∧ w' = w).
Proof. intros c w a w' Hm. unfold get_mev_config in Hm. by minv. Qed.

#[export] Instance get_fee_config_spec : OkSpec (get_fee_config)
  (λ c w a w', a = iget w StorageKey.FeeConfig ∧ w' = w).
Proof. intros c w a w' Hm. unfold get_fee_config in Hm. by minv. Qed.

#[export] Instance get_proposal_spec i : OkSpec (get_proposal i)
  (λ c w a w', a = pget w (StorageKey.ProposalEntry i) ∧ w' = w).
Proof. intros c w a w' Hm. unfold get_proposal in Hm. by minv. Qed.

#[export] Instance get_token_info_spec x : OkSpec (get_token_info x)
  (λ c w a w', a = pget w (StorageKey.AllowedToken x) ∧ w' = w).
Proof. intros c w a w' Hm. unfold get_token_info in Hm. by minv. Qed.

#[export] Instance get_commitment_spec h : OkSpec (get_commitment h)
  (λ c w a w', a = tget w (ledger_seq c) (StorageKey.Commitment h) ∧ w' = w).
Proof. intros c w a w' Hm. unfold get_commitment in Hm. by minv. Qed.

#[export] Instance next_proposal_id_spec : OkSpec next_proposal_id
  (λ c w a w', a = default 0 (iget w StorageKey.ProposalCounter) + 1 ∧ fits U64 a ∧
               w' = iset w StorageKey.ProposalCounter a).
Proof.
  intros c w a w' Hm. unfold next_proposal_id in Hm. minv.
  match goal with E : checked_add _ _ _ = Some _ |- _ => apply chk_Some in E as [-> ?] end. done.
Qed.

#[export] Instance save_proposal_spec p : OkSpec (save_proposal p)
  (λ c w a w', w' = pext (pset w (StorageKey.ProposalEntry (p_id p)) p) (ledger_seq c)
                      (StorageKey.ProposalEntry (p_id p)) 17280 (17280 * 30)).
Proof. intros c w a w' Hm. unfold save_proposal in Hm. by minv. Qed.

#[export] Instance set_contract_version_spec v : OkSpec (set_contract_version v)
  (λ c w a w', w' = pext (pset (iset w StorageKey.ContractVersionKey v)
                            (StorageKey.VersionHistory (upgraded_at v)) v) (ledger_seq c)
                      (StorageKey.VersionHistory (upgraded_at v)) 17280 (17280 * 365)).
Proof. intros c w a w' Hm. unfold set_contract_version in Hm. by minv. Qed.

#[export] Instance set_migration_done_spec x y z : OkSpec (set_migration_done x y z)
  (λ c w a w', w' = pext (pset w (StorageKey.MigrationDone x y z) true) (ledger_seq c)
                      (StorageKey.MigrationDone x y z) 17280 (17280 * 365)).
Proof. intros c w a w' Hm. unfold set_migration_done in Hm. by minv. Qed.

#[export] Instance save_token_info_spec t : OkSpec (save_token_info t)
  (λ c w a w', w' = pext (pset w (StorageKey.AllowedToken (ti_asset t)) t) (ledger_seq c)
                      (StorageKey.AllowedToken (ti_asset t)) 17280 (17280 * 365)).
Proof. intros c w a w' Hm. unfold save_token_info in Hm. by minv. Qed.

#[export] Instance add_to_pool_list_spec p : OkSpec (add_to_pool_list p)
  (λ c w a w', w' = iset w StorageKey.PoolList (default [] (iget w StorageKey.PoolList) ++ [p])).
Proof. intros c w a w' Hm. unfold add_to_pool_list in Hm. by minv. Qed.

#[export] Instance set_commitment_spec h d n : OkSpec (set_commitment h d n)
  (λ c w a w', w' = text (tset w (ledger_seq c) (StorageKey.Commitment h) d) (ledger_seq c)
                      (StorageKey.Commitment h) n n).
Proof. intros c w a w' Hm. unfold set_commitment in Hm. by minv. Qed.

#[export] Instance set_account_swap_count_spec x v n : OkSpec (set_account_swap_count x v n)
  (λ c w a w', w' = text (tset w (ledger_seq c) (StorageKey.AccountSwapCount x) v) (ledger_seq c)
                      (StorageKey.AccountSwapCount x) n n).
Proof. intros c w a w' Hm. unfold set_account_swap_count in Hm. by minv. Qed.

#[export] Instance set_account_swap_window_start_spec x v n :
  OkSpec (set_account_swap_window_start x v n)
  (λ c w a w', w' = text (tset w (ledger_seq c) (StorageKey.AccountSwapWindowStart x) v)
                      (ledger_seq c) (StorageKey.AccountSwapWindowStart x) n n).
Proof. intros c w a w' Hm. unfold set_account_swap_window_start in Hm. by minv. Qed.

#[export] Instance set_fee_balance_spec x v : OkSpec (set_fee_balance x v)
  (λ c w a w', w' = pext (pset w (StorageKey.FeeBalance x) v) (ledger_seq c)
                      (StorageKey.FeeBalance x) 17280 (17280 * 30)).
Proof. intros c w a w' Hm. unfold set_fee_balance in Hm. by minv. Qed.

End Specs.

(** Helpers whose effect on persistent TTLs is left abstract: the persistent
    store after them reads as stated. *)
Section Frames.

Context {H : Host} {HOk : HostOk H}.

#[export] Instance extend_persistent_ttl_spec k th ex : OkSpec (extend_persistent_ttl k th ex)
  (λ c w a w', ∃ s, (∀ k', p_get s k' = p_get (w_pers w) k') ∧ w' = with_pers w s).
Proof.
  intros c w a w' Hm. unfold extend_persistent_ttl in Hm. minv.
  - eexists; split; [|reflexivity]. intros; apply p_get_extend.
  - eexists (w_pers _). split; [|by rewrite with_pers_id]. done.
Qed.

#[export] Instance set_whitelisted_spec x b : OkSpec (set_whitelisted x b)
  (λ c w a w', ∃ s, (∀ k', p_get s k' = p_get (p_set (w_pers w) (StorageKey.Whitelisted x) b) k') ∧
                    w' = with_pers w s).
Proof.
  intros c w a w' Hm. unfold set_whitelisted in Hm. minv.
  - eexists; split; [|reflexivity]. intros; apply p_get_extend.
  - eexists; split; [|reflexivity]. done.
Qed.

#[export] Instance increment_nonce_spec x : OkSpec (increment_nonce x)
  (λ c w a w', ∃ s v, v = default 0 (pget w (StorageKey.SwapNonce x)) + 1 ∧ fits I128 v ∧
     (∀ k', p_get s k' = p_get (p_set (w_pers w) (StorageKey.SwapNonce x) v) k') ∧
     w' = with_pers w s).
Proof.
  intros c w a w' Hm. unfold increment_nonce, extend_nonce_ttl in Hm. minv.
  match goal with E : checked_add _ _ _ = Some _ |- _ => apply chk_Some in E as [-> ?] end.
  eexists _, _. split_and!; [done..|reflexivity].
Qed.

#[export] Instance add_swap_volume_spec x : OkSpec (add_swap_volume x)
  (λ c w a w', ∃ s,
     (∀ k', p_get s k' = p_get (p_set (w_pers w) StorageKey.TotalSwapVolume
         (default (int_max I128)
            (checked_add I128 (default 0 (pget w StorageKey.TotalSwapVolume)) x))) k') ∧
     w' = with_pers w s).
Proof. intros c w a w' Hm. unfold add_swap_volume, extend_volume_ttl in Hm. minv. eauto. Qed.

#[export] Instance add_fee_balance_spec x amt : OkSpec (add_fee_balance x amt)
  (λ c w a w', ∃ s,
     (∀ k', p_get s k' =
        p_get (p_set (p_set (w_pers w) (StorageKey.FeeBalance x)
                 (default (int_max I128)
                    (checked_add I128 (default 0 (pget w (StorageKey.FeeBalance x))) amt)))
                 (StorageKey.TotalFeesCollected x)
                 (default (int_max I128)
                    (checked_add I128 (default 0 (pget w (StorageKey.TotalFeesCollected x))) amt))) k') ∧
     w' = with_pers w s).
Proof.
  intros c w a w' Hm. unfold add_fee_balance in Hm. minv. eexists; split; [|reflexivity].
  intros k'. rewrite p_get_extend. cbn [w_pers pset with_pers pext].
  destruct (decide (k' = StorageKey.TotalFeesCollected x)) as [->|]; [by world_simpl|].
  rewrite !(p_get_set_ne _ (StorageKey.TotalFeesCollected x)) by done. apply p_get_extend.
Qed.

#[export] Instance add_total_burned_spec x amt : OkSpec (add_total_burned x amt)
  (λ c w a w', ∃ s,
     (∀ k', p_get s k' = p_get (p_set (w_pers w) (StorageKey.TotalFeesBurned x)
        (default (int_max I128)
           (checked_add I128 (default 0 (pget w (StorageKey.TotalFeesBurned x))) amt))) k') ∧
     w' = with_pers w s).
Proof.
  intros c w a w' Hm. unfold add_total_burned in Hm. minv. eexists; split; [|reflexivity].
  intros; apply p_get_extend.
Qed.

(** The outcome of the pool check used by every swap path. *)
#[export] Instance batch_check_pools_spec l : OkSpec (batch_check_pools l)
  (λ c w b w', b = forallb (λ p, bool_decide (is_Some (pget w (StorageKey.SupportedPool p)))) l ∧
               w' = w).
Proof.
  induction l as [|p l IH]; intros c w a w' Hm; cbn in Hm; [by minv|].
  unfold is_supported_pool in Hm. minv; cbn.
  - by rewrite bool_decide_eq_true_2.
  - by rewrite bool_decide_eq_false_2.
Qed.

Lemma keeps_batch_check_pools I l : keeps I (batch_check_pools l).
Proof. apply keeps_pure. intros c w a w' Hm. by minv. Qed.

End Frames.

#[export] Hint Resolve keeps_batch_check_pools : keeps.
