(* ===== verification/Upgrade.v ===== *)
(** * upgrade.rs

    Time-locked upgrades in single-admin mode, the WASM replacement shared with
    governance, and the once-per-version migration hook. *)

From stdpp Require Import base decidable strings numbers list.
From S2P Require Import Prelude Types Host HostLogic Events Storage.

Local Open Scope Z_scope.
Local Open Scope host_scope.

Definition MIN_DELAY_LEDGERS : Z := 4320.

Section Upgrade.

Context {H : Host}.

Definition zero_hash : BytesN32 := zero_bytes32.

Definition get_version : M ContractVersion :=
  o ← get_contract_version;
  ret (default (mkContractVersion 1 0 0 zero_hash 0) o).

Definition set_initial_version (hash : BytesN32) : M unit :=
  set_contract_version (mkContractVersion 1 0 0 hash 0).

Definition propose_upgrade (admin : Address) (new_hash : BytesN32) (execute_after : Z) : M unit :=
  require_auth admin;;
  a ← get_admin;
  fail_when (bool_decide (a ≠ admin)) ContractError.Unauthorized;;
  ms ← is_multisig;
  fail_when ms ContractError.UseGovernance;;
  p ← get_paused;
  fail_when p ContractError.Paused;;
  current ← get_version;
  fail_when (bool_decide (wasm_hash current = new_hash)) ContractError.SameWasmHash;;
  fail_when (bool_decide (new_hash = zero_hash)) ContractError.InvalidAmount;;
  pending ← get_pending_upgrade;
  fail_when (bool_decide (is_Some pending)) ContractError.UpgradePending;;
  now ← ledger_sequence;
  earliest ← plain_op U64 (now + MIN_DELAY_LEDGERS);
  let effective_after := if execute_after <? earliest then earliest else execute_after in
  set_pending_upgrade (mkPendingUpgrade new_hash now effective_after admin);;
  upgrade_proposed admin (wasm_hash current) new_hash effective_after;;
  extend_instance_ttl.

(** The post-upgrade hook: at most once per version triple. *)
Definition migrate (version : ContractVersion) : M unit :=
  b ← is_migration_done (major version) (minor version) (patch version);
  fail_when b ContractError.MigrationAlreadyDone;;
  set_migration_done (major version) (minor version) (patch version);;
  migration_completed (major version) (minor version) (patch version).

Definition execute_wasm_upgrade (new_hash : BytesN32) : M unit :=
  old_version ← get_version;
  fail_when (bool_decide (wasm_hash old_version = new_hash)) ContractError.SameWasmHash;;
  update_current_contract_wasm new_hash;;
  p ← plain_op U32 (patch old_version + 1);
  now ← ledger_sequence;
  let new_version := mkContractVersion (major old_version) (minor old_version) p new_hash now in
  set_contract_version new_version;;
  upgrade_completed (wasm_hash old_version) new_hash now;;
  migrate new_version.

Definition execute_upgrade (admin : Address) : M unit :=
  a ← get_admin;
  fail_when (bool_decide (a ≠ admin)) ContractError.Unauthorized;;
  require_auth admin;;
  o ← get_pending_upgrade;
  pending ← ok_or o ContractError.NoUpgradePending;
  now ← ledger_sequence;
  fail_when (now <? execute_after pending) ContractError.UpgradeLocked;;
  p ← get_paused;
  fail_when p ContractError.Paused;;
  clear_pending_upgrade;;
  execute_wasm_upgrade (new_wasm_hash pending);;
  extend_instance_ttl.

Definition cancel_upgrade (admin : Address) : M unit :=
  require_auth admin;;
  o ← get_pending_upgrade;
  pending ← ok_or o ContractError.NoUpgradePending;
  fail_when (bool_decide (proposer pending ≠ admin)) ContractError.Unauthorized;;
  clear_pending_upgrade;;
  upgrade_cancelled admin;;
  extend_instance_ttl.

Definition get_version_for_query : M ContractVersion := get_version.

Definition get_version_at (ledger : Z) : M (option ContractVersion) :=
  persistent_get (StorageKey.VersionHistory ledger).

End Upgrade.
