(* ===== verification/Governance.v ===== *)
(** * governance.rs

    M-of-N governance: the proposal life cycle, the dispatch of approved actions,
    the one-way migration from single-admin mode and the guardian's pause. *)

From stdpp Require Import base decidable strings numbers list.
From S2P Require Import Prelude Types Host HostLogic Events Storage Upgrade.

Local Open Scope Z_scope.
Local Open Scope host_scope.

Definition MAX_SIGNERS : Z := 10.

(** [Vec::len()] *)
Definition vlen {A} (l : list A) : Z := Z.of_nat (length l).

Definition is_signer (config : GovernanceConfig) (addr : Address) : bool :=
  existsb (λ s, bool_decide (s = addr)) (signers config).

Definition has_approved (p : Proposal) (addr : Address) : bool :=
  existsb (λ s, bool_decide (s = addr)) (p_approvals p).

(** The double loop of [init_governance] that looks for equal signers. *)
Fixpoint has_duplicates (l : list Address) : bool :=
  match l with
  | [] => false
  | x :: rest => existsb (λ y, bool_decide (x = y)) rest || has_duplicates rest
  end.

Section Governance.

Context {H : Host}.

(** [total_bps.checked_add(share)] over the recipients; an overflow is
    [InvalidFeeConfig]. *)
Definition checked_total_bps (rs : list FeeRecipient) : M Z :=
  fold_each rs 0 (λ total r,
    ok_or (checked_add U32 total (share_bps r)) ContractError.InvalidFeeConfig).

Definition dispatch_action (action : ProposalAction) : M unit :=
  match action with
  | ProposalAction.SetFeeRate rate =>
      fail_when (1000 <? rate) ContractError.InvalidAmount;;
      set_fee_rate rate
  | ProposalAction.SetFeeTo addr => instance_set StorageKey.FeeTo addr
  | ProposalAction.SetFeeConfig config =>
      fail_when (5 <? vlen (recipients config)) ContractError.InvalidFeeConfig;;
      total_bps ← checked_total_bps (recipients config);
      fail_when (negb (total_bps =? 10000)) ContractError.InvalidFeeConfig;;
      set_fee_config config
  | ProposalAction.RegisterPool pool _ =>
      persistent_set (StorageKey.SupportedPool pool) true;;
      persistent_extend_ttl (StorageKey.SupportedPool pool) 17280 (17280 * 30);;
      count ← get_pool_count;
      new_count ← unwrap (checked_add U32 count 1);
      set_pool_count new_count;;
      pool_registered pool
  | ProposalAction.DeregisterPool pool =>
      persistent_remove (StorageKey.SupportedPool pool);;
      count ← get_pool_count;
      if 0 <? count then set_pool_count (saturating_sub U32 count 1) else ret tt
  | ProposalAction.Pause =>
      instance_set StorageKey.Paused true;;
      paused
  | ProposalAction.Unpause =>
      instance_set StorageKey.Paused false;;
      unpaused
  | ProposalAction.Upgrade hash => execute_wasm_upgrade hash
  | ProposalAction.AddSigner new_signer =>
      config ← get_governance;
      fail_when (MAX_SIGNERS <=? vlen (signers config)) ContractError.SignerLimitReached;;
      set_governance (mkGovernanceConfig (signers config ++ [new_signer]) (threshold config)
                        (proposal_ttl config))
  | ProposalAction.RemoveSigner signer =>
      config ← get_governance;
      fail_when (vlen (signers config) <=? threshold config) ContractError.ThresholdNotMet;;
      set_governance (mkGovernanceConfig
                        (List.filter (λ s, negb (bool_decide (s = signer))) (signers config))
                        (threshold config) (proposal_ttl config))
  | ProposalAction.ChangeThreshold new_threshold =>
      config ← get_governance;
      fail_when ((new_threshold =? 0) || (vlen (signers config) <? new_threshold))
        ContractError.InvalidAmount;;
      set_governance (mkGovernanceConfig (signers config) new_threshold (proposal_ttl config))
  end.

Definition init_governance (signers_ : list Address) (threshold_ proposal_ttl_ : Z)
    (guardian : option Address) : M unit :=
  fail_when ((vlen signers_ =? 0) || (threshold_ =? 0) || (vlen signers_ <? threshold_))
    ContractError.InvalidAmount;;
  fail_when (MAX_SIGNERS <? vlen signers_) ContractError.SignerLimitReached;;
  fail_when (proposal_ttl_ =? 0) ContractError.InvalidAmount;;
  fail_when (has_duplicates signers_) ContractError.InvalidAmount;;
  contract ← current_contract_address;
  fail_when (existsb (λ s, bool_decide (s = contract)) signers_) ContractError.InvalidRecipient;;
  set_governance (mkGovernanceConfig signers_ threshold_ proposal_ttl_);;
  match guardian with
  | Some g => set_guardian g;; guardian_set g
  | None => ret tt
  end.

Definition migrate_to_multisig (admin : Address) (signers_ : list Address)
    (threshold_ proposal_ttl_ : Z) (guardian : option Address) : M unit :=
  require_auth admin;;
  current_admin ← get_admin;
  fail_when (bool_decide (current_admin ≠ admin)) ContractError.Unauthorized;;
  ms ← is_multisig;
  fail_when ms ContractError.AlreadyInitialized;;
  init_governance signers_ threshold_ proposal_ttl_ guardian;;
  set_multisig;;
  governance_migrated admin (vlen signers_) threshold_;;
  extend_instance_ttl.

(** [proposal.executed = true] *)
Definition mark_executed (p : Proposal) : Proposal :=
  mkProposal (p_id p) (p_action p) (p_proposer p) (p_approvals p) (p_created_at p)
    (p_expires_at p) true.

(** [proposal.approvals.push_back(signer)] *)
Definition add_approval (p : Proposal) (signer : Address) : Proposal :=
  mkProposal (p_id p) (p_action p) (p_proposer p) (p_approvals p ++ [signer]) (p_created_at p)
    (p_expires_at p) (p_executed p).

Definition execute_proposal (proposal_id : Z) : M unit :=
  config ← get_governance;
  o ← Storage.get_proposal proposal_id;
  proposal ← ok_or o ContractError.ProposalNotFound;
  fail_when (p_executed proposal) ContractError.ProposalAlreadyExecuted;;
  now ← ledger_sequence;
  fail_when (p_expires_at proposal <? now) ContractError.ProposalExpired;;
  fail_when (vlen (p_approvals proposal) <? threshold config) ContractError.ThresholdNotMet;;
  save_proposal (mark_executed proposal);;
  dispatch_action (p_action proposal);;
  proposal_executed proposal_id;;
  extend_instance_ttl.

Definition propose (signer : Address) (action : ProposalAction) : M Z :=
  require_auth signer;;
  config ← get_governance;
  fail_when (negb (is_signer config signer)) ContractError.Unauthorized;;
  id ← next_proposal_id;
  now ← ledger_sequence;
  save_proposal (mkProposal id action signer [signer] now
                   (saturating_add U64 now (proposal_ttl config)) false);;
  proposal_created id signer action;;
  (if threshold config =? 1 then execute_proposal id else ret tt);;
  extend_instance_ttl;;
  ret id.

Definition approve (signer : Address) (proposal_id : Z) : M unit :=
  require_auth signer;;
  config ← get_governance;
  fail_when (negb (is_signer config signer)) ContractError.Unauthorized;;
  o ← Storage.get_proposal proposal_id;
  proposal ← ok_or o ContractError.ProposalNotFound;
  fail_when (p_executed proposal) ContractError.ProposalAlreadyExecuted;;
  now ← ledger_sequence;
  fail_when (p_expires_at proposal <? now) ContractError.ProposalExpired;;
  fail_when (has_approved proposal signer) ContractError.AlreadyApproved;;
  let proposal := add_approval proposal signer in
  let approval_count := vlen (p_approvals proposal) in
  save_proposal proposal;;
  proposal_approved proposal_id signer approval_count;;
  (if threshold config <=? approval_count then execute_proposal proposal_id else ret tt);;
  extend_instance_ttl.

Definition cancel (signer : Address) (proposal_id : Z) : M unit :=
  require_auth signer;;
  config ← get_governance;
  o ← Storage.get_proposal proposal_id;
  proposal ← ok_or o ContractError.ProposalNotFound;
  fail_when (p_executed proposal) ContractError.ProposalAlreadyExecuted;;
  fail_when (bool_decide (p_proposer proposal ≠ signer) && negb (is_signer config signer))
    ContractError.Unauthorized;;
  save_proposal (mark_executed proposal);;
  proposal_cancelled proposal_id signer;;
  extend_instance_ttl.

Definition guardian_pause (guardian : Address) : M unit :=
  require_auth guardian;;
  o ← get_guardian;
  stored ← ok_or o ContractError.Unauthorized;
  fail_when (bool_decide (stored ≠ guardian)) ContractError.Unauthorized;;
  instance_set StorageKey.Paused true;;
  guardian_paused guardian;;
  extend_instance_ttl.

Definition get_governance_config : M GovernanceConfig :=
  ms ← is_multisig;
  fail_when (negb ms) ContractError.NotMultiSig;;
  get_governance.

Definition get_proposal (proposal_id : Z) : M Proposal :=
  o ← Storage.get_proposal proposal_id;
  ok_or o ContractError.ProposalNotFound.

End Governance.

(** ** What a successful call did *)

Section Inversion.

Context {H : Host}.

(** The proposal with its new approval, and its optional execution. *)
Definition maybe_execute (b : bool) (id : Z) : M unit := if b then execute_proposal id else ret tt.

Lemma execute_proposal_ok id c w w' :
  execute_proposal id c w = Ok tt w' →
  ∃ (cfg : GovernanceConfig) (p : Proposal) w2,
    iget w StorageKey.Governance = Some cfg ∧
    pget w (StorageKey.ProposalEntry id) = Some p ∧
    p_executed p = false ∧ ledger_seq c <= p_expires_at p ∧
    threshold cfg <= vlen (p_approvals p) ∧
    dispatch_action (p_action p) c
      (pext (pset w (StorageKey.ProposalEntry (p_id p)) (mark_executed p)) (ledger_seq c)
         (StorageKey.ProposalEntry (p_id p)) 17280 (17280 * 30)) = Ok tt w2 ∧
    w' = iext (emit w2 (EvProposalExecuted id)) (ledger_seq c)
           INSTANCE_TTL_THRESHOLD INSTANCE_TTL_EXTEND_TO.
Proof. intros Hm. unfold execute_proposal in Hm. minv. by eexists _, _, _. Qed.

Definition new_proposal (c : Ctx) (cfg : GovernanceConfig) (id : Z) (signer : Address)
    (action : ProposalAction) : Proposal :=
  mkProposal id action signer [signer] (ledger_seq c)
    (saturating_add U64 (ledger_seq c) (proposal_ttl cfg)) false.

Lemma propose_ok signer action c w id w' :
  propose signer action c w = Ok id w' →
  ∃ (cfg : GovernanceConfig) w1,
    iget w StorageKey.Governance = Some cfg ∧ signed c signer = true ∧
    is_signer cfg signer = true ∧
    id = default 0 (iget w StorageKey.ProposalCounter) + 1 ∧ fits U64 id ∧
    maybe_execute (threshold cfg =? 1) id c
      (emit (pext (pset (iset w StorageKey.ProposalCounter id) (StorageKey.ProposalEntry id)
                     (new_proposal c cfg id signer action))
               (ledger_seq c) (StorageKey.ProposalEntry id) 17280 (17280 * 30))
         (EvProposalCreated id signer action)) = Ok tt w1 ∧
    w' = iext w1 (ledger_seq c) INSTANCE_TTL_THRESHOLD INSTANCE_TTL_EXTEND_TO.
Proof.
  intros Hm. unfold propose in Hm.
  repeat match goal with
  | E : context [if threshold ?cfg =? 1 then execute_proposal ?i else ret tt] |- _ =>
      change (if threshold cfg =? 1 then execute_proposal i else ret tt)
        with (maybe_execute (threshold cfg =? 1) i) in E
  | _ => minv_step; subst
  end; bools.
  eexists _, _. split_and!; try done.
Qed.

Lemma approve_ok signer id c w w' :
  approve signer id c w = Ok tt w' →
  ∃ (cfg : GovernanceConfig) (p : Proposal) w1,
    iget w StorageKey.Governance = Some cfg ∧ signed c signer = true ∧
    is_signer cfg signer = true ∧
    pget w (StorageKey.ProposalEntry id) = Some p ∧
    p_executed p = false ∧ ledger_seq c <= p_expires_at p ∧ has_approved p signer = false ∧
    maybe_execute (threshold cfg <=? vlen (p_approvals (add_approval p signer))) id c
      (emit (pext (pset w (StorageKey.ProposalEntry (p_id p)) (add_approval p signer))
               (ledger_seq c) (StorageKey.ProposalEntry (p_id p)) 17280 (17280 * 30))
         (EvProposalApproved id signer (vlen (p_approvals (add_approval p signer))))) = Ok tt w1 ∧
    w' = iext w1 (ledger_seq c) INSTANCE_TTL_THRESHOLD INSTANCE_TTL_EXTEND_TO.
Proof.
  intros Hm. unfold approve in Hm.
  repeat match goal with
  | E : context [if threshold ?cfg <=? ?n then execute_proposal ?i else ret tt] |- _ =>
      change (if threshold cfg <=? n then execute_proposal i else ret tt)
        with (maybe_execute (threshold cfg <=? n) i) in E
  | _ => minv_step; subst
  end; bools.
  eexists _, _, _. split_and!; try done.
Qed.

Lemma cancel_ok signer id c w w' :
  cancel signer id c w = Ok tt w' →
  ∃ (cfg : GovernanceConfig) (p : Proposal),
    iget w StorageKey.Governance = Some cfg ∧ signed c signer = true ∧
    pget w (StorageKey.ProposalEntry id) = Some p ∧ p_executed p = false ∧
    (p_proposer p = signer ∨ is_signer cfg signer = true) ∧
    w' = iext (emit (pext (pset w (StorageKey.ProposalEntry (p_id p)) (mark_executed p))
                       (ledger_seq c) (StorageKey.ProposalEntry (p_id p)) 17280 (17280 * 30))
                 (EvProposalCancelled id signer))
           (ledger_seq c) INSTANCE_TTL_THRESHOLD INSTANCE_TTL_EXTEND_TO.
Proof.
  intros Hm. unfold cancel in Hm. minv. eexists _, _. split_and!; try done.
  match goal with E : _ && _ = false |- _ => apply andb_false_iff in E as [E|E]; bools; tauto end.
Qed.

End Inversion.
