(* ===== verification/Tokens.v ===== *)
(** * tokens.rs

    The token allowlist: add, remove, update and batch-add, the append-only
    category index and the validation of the assets of a route. *)

From stdpp Require Import base decidable strings numbers list.
From S2P Require Import Prelude Types Host HostLogic Events Storage Governance.

Local Open Scope Z_scope.
Local Open Scope host_scope.

Definition MAX_BATCH : Z := 10.
Definition MAX_DECIMALS : Z := 19.

Section Tokens.

Context {H : Host}.

Definition validate_token_info (info : TokenInfo) : M unit :=
  fail_when (MAX_DECIMALS <? ti_decimals info) ContractError.InvalidAmount.

Definition cat_len (category : TokenCategory) : M Z :=
  v ← persistent_get (IdxKey.CatLen category);
  ret (default 0 v).

Definition set_cat_len (category : TokenCategory) (len : Z) : M unit :=
  persistent_set (IdxKey.CatLen category) len;;
  persistent_extend_ttl (IdxKey.CatLen category) 17280 (17280 * 365).

Definition push_cat_entry (category : TokenCategory) (asset : Asset) : M unit :=
  idx ← cat_len category;
  persistent_set (IdxKey.CatEntry category idx) asset;;
  persistent_extend_ttl (IdxKey.CatEntry category idx) 17280 (17280 * 365);;
  next ← unwrap (checked_add U32 idx 1);
  set_cat_len category next.

Definition require_admin_auth (caller : Address) : M unit :=
  require_auth caller;;
  ms ← is_multisig;
  fail_when ms ContractError.UseGovernance;;
  a ← get_admin;
  fail_when (bool_decide (a ≠ caller)) ContractError.Unauthorized.

Definition add_token_internal (caller : Address) (info : TokenInfo) : M unit :=
  validate_token_info info;;
  b ← Storage.is_token_allowed (ti_asset info);
  fail_when b ContractError.TokenAlreadyAdded;;
  save_token_info info;;
  push_cat_entry (ti_category info) (ti_asset info);;
  count ← Storage.get_token_count;
  next ← unwrap (checked_add U32 count 1);
  set_token_count next;;
  token_added (ti_asset info) caller;;
  extend_instance_ttl.

Definition add_token (caller : Address) (info : TokenInfo) : M unit :=
  require_admin_auth caller;;
  add_token_internal caller info.

(** The removal shared by the two branches of [remove_token_internal]. *)
Definition do_remove (caller : Address) (asset : Asset) : M unit :=
  Storage.remove_token asset;;
  count ← Storage.get_token_count;
  (if 0 <? count then set_token_count (saturating_sub U32 count 1) else ret tt);;
  token_removed asset caller;;
  extend_instance_ttl.

Definition remove_token_internal (caller : Address) (asset : Asset) : M unit :=
  b ← Storage.is_token_allowed asset;
  fail_when (negb b) ContractError.TokenNotAllowed;;
  match asset with
  | Asset.Soroban addr =>
      used ← persistent_has (StorageKey.SupportedPool addr);
      fail_when used ContractError.TokenInUse;;
      do_remove caller asset
  | _ => do_remove caller asset
  end.

Definition remove_token (caller : Address) (asset : Asset) : M unit :=
  require_admin_auth caller;;
  remove_token_internal caller asset.

Definition update_token_internal (caller : Address) (asset : Asset) (updated : TokenInfo) : M unit :=
  b ← Storage.is_token_allowed asset;
  fail_when (negb b) ContractError.TokenNotAllowed;;
  fail_when (bool_decide (ti_asset updated ≠ asset)) ContractError.InvalidAmount;;
  validate_token_info updated;;
  save_token_info updated;;
  token_updated asset caller;;
  extend_instance_ttl.

Definition update_token (caller : Address) (asset : Asset) (updated : TokenInfo) : M unit :=
  require_admin_auth caller;;
  update_token_internal caller asset updated.

Definition add_tokens_batch (caller : Address) (tokens : list TokenInfo) : M unit :=
  require_admin_auth caller;;
  fail_when (MAX_BATCH <? vlen tokens) ContractError.BatchTooLarge;;
  for_each tokens (λ info, add_token_internal caller info).

Definition is_token_allowed (asset : Asset) : M bool := Storage.is_token_allowed asset.

Definition get_token_info (asset : Asset) : M (option TokenInfo) := Storage.get_token_info asset.

Definition get_token_count : M Z := Storage.get_token_count.

(** The indices [0..len] of the category index. *)
Definition cat_indices (len : Z) : list Z := Z.of_nat <$> List.seq 0 (Z.to_nat len).

Definition get_tokens_by_category (category : TokenCategory) : M (list Asset) :=
  len ← cat_len category;
  fold_each (cat_indices len) [] (λ result i,
    o ← persistent_get (IdxKey.CatEntry category i);
    match o with
    | Some asset =>
        b ← Storage.is_token_allowed asset;
        ret (if b : bool then result ++ [asset] else result)
    | None => ret result
    end).

(** Every asset of every hop is allowed; skipped while the allowlist is empty. *)
Definition validate_route_assets (route : Route) : M unit :=
  count ← Storage.get_token_count;
  if count =? 0 then ret tt
  else
    for_each (hops route) (λ hop,
      s ← Storage.is_token_allowed (hop_source hop);
      fail_when (negb s) ContractError.TokenNotAllowed;;
      d ← Storage.is_token_allowed (hop_destination hop);
      fail_when (negb d) ContractError.TokenNotAllowed).

End Tokens.
