(* ===== verification/Adapters.v ===== *)
(** * adapters.rs and constant_product_adapter.rs

    [AmmAdapter]: the router's calls to pool contracts, each through
    [try_invoke_contract], with failures mapped to contract errors. The
    constant-product adapter is a contract of its own: its instance storage holds
    the address of the pool it fronts ([POOL]), and a failed call to that pool
    traps. *)

From stdpp Require Import base decidable strings numbers list.
From S2P Require Import Prelude Types Host HostLogic.

Local Open Scope Z_scope.
Local Open Scope host_scope.

(** ** adapters.rs *)

Module AmmAdapter.

Section AmmAdapter.

Context {H : Host}.

Definition quote (pool : Address) (input_asset output_asset : Asset) (amount_in : Z) : M Z :=
  call_result ← try_invoke (λ c x, x_quote c x pool input_asset output_asset amount_in);
  ok_or call_result ContractError.AmmQuoteCallFailed.

Definition swap (pool : Address) (input_asset output_asset : Asset) (amount_in min_out : Z) : M Z :=
  call_result ← try_invoke (λ c x, x_swap c x pool input_asset output_asset amount_in min_out);
  ok_or call_result ContractError.AmmSwapCallFailed.

(** Returns the [Result] as a value: its callers never propagate the error. *)
Definition get_reserves (pool : Address) : M ((Z * Z) + ContractError) :=
  reserves_result ← try_invoke (λ c x, x_reserves c x pool);
  ret (match reserves_result with
       | Some val => inl val
       | None => inr ContractError.AmmReservesCallFailed
       end).

End AmmAdapter.

End AmmAdapter.

(** ** constant_product_adapter.rs *)

Module ConstantProductAdapter.

Section ConstantProductAdapter.

Context {H : Host}.

(** The [POOL] entry of the adapter's instance storage. *)
Variable POOL : option Address.

(** [e.invoke_contract]: traps when the callee fails. *)
Definition invoke {A} (f : Ctx → xworld → option (A * xworld)) : M A :=
  o ← try_invoke f;
  unwrap o.

Definition swap (input_asset output_asset : Asset) (amount_in min_out : Z) : M Z :=
  pool_address ← unwrap POOL;
  invoke (λ c x, x_swap c x pool_address input_asset output_asset amount_in min_out).

Definition get_rsrvs : M (Z * Z) :=
  pool_address ← unwrap POOL;
  invoke (λ c x, x_reserves c x pool_address).

Definition adapter_quote (_input_asset _output_asset : Asset) (amount_in : Z) : M Z :=
  '(res_in, res_out) ← get_rsrvs;
  let fee_multiplier := 997 in
  amount_with_fee ← unwrap (checked_mul I128 amount_in fee_multiplier);
  numerator ← unwrap (checked_mul I128 amount_with_fee res_out);
  denominator ← unwrap (match checked_mul I128 res_in 1000 with
                        | Some v => checked_add I128 v amount_with_fee
                        | None => None
                        end);
  (if denominator =? 0 then panic else ret tt);;
  unwrap (checked_div I128 numerator denominator).

End ConstantProductAdapter.

End ConstantProductAdapter.
