(* ===== verification/Fees.v ===== *)
(** * Fee configuration and distribution (router.rs)

    The single-admin fee configuration, the manual distribution entry point and
    the distribution loop it shares with the swap path. *)

From stdpp Require Import base decidable strings numbers list.
From S2P Require Import Prelude Types Host HostLogic Events Storage Governance.

Local Open Scope Z_scope.
Local Open Scope host_scope.

(** The position of the first recipient labelled "treasury". *)
Fixpoint treasury_index (rs : list FeeRecipient) : option nat :=
  match rs with
  | [] => None
  | r :: rest => if bool_decide (label r = "treasury"%string) then Some 0%nat
                 else S <$> treasury_index rest
  end.

(** [total.checked_mul(share).unwrap_or(i128::MAX).checked_div(10000).unwrap_or(0)] *)
Definition share_amount (total_balance share : Z) : Z :=
  default 0 (checked_div I128 (default (int_max I128) (checked_mul I128 total_balance share)) 10000).

(** Whether the recipient at index [i] of [n] takes what is left. *)
Definition takes_dust (treasury : option nat) (n i : nat) : bool :=
  match treasury with
  | Some t => Nat.eqb i t
  | None => Nat.eqb i (n - 1)
  end.

Section Fees.

Context {H : Host}.

(** [total_bps += recipient.share_bps] over the recipients (a plain [u32] sum). *)
Definition plain_total_bps (rs : list FeeRecipient) : M Z :=
  fold_each rs 0 (λ total r, plain_op U32 (total + share_bps r)).

Definition set_fee_distribution_config (config : FeeConfig) : M unit :=
  ms ← is_multisig;
  fail_when ms ContractError.UseGovernance;;
  a ← get_admin;
  require_auth a;;
  total_bps ← plain_total_bps (recipients config);
  fail_when (negb (total_bps =? 10000) || (5 <? vlen (recipients config)))
    ContractError.InvalidFeeConfig;;
  set_fee_config config;;
  extend_instance_ttl.

(** The payment of one recipient. *)
Definition pay_recipient (asset : Asset) (rec_ : FeeRecipient) (amount : Z) : M unit :=
  this ← current_contract_address;
  if bool_decide (label rec_ = "burn"%string) then
    (match asset with
     | Asset.Soroban token_addr =>
         token_burn token_addr this amount;;
         fees_burned asset amount
     | Asset.Issued issuer _ =>
         transfer_asset asset this issuer amount;;
         fees_burned asset amount
     | Asset.Native => ret tt
     end);;
    add_total_burned asset amount
  else transfer_asset asset this (fr_address rec_) amount.

(** The loop over the recipients: the accumulator is [remaining_dust]. *)
Definition distribute_loop (asset : Asset) (total_balance : Z) (treasury : option nat) (n : nat)
    (rs : list (nat * FeeRecipient)) : M Z :=
  fold_each rs total_balance (λ remaining_dust '(i, rec_),
    let amount :=
      if takes_dust treasury n i then remaining_dust
      else share_amount total_balance (share_bps rec_) in
    if 0 <? amount then
      pay_recipient asset rec_ amount;;
      ret (saturating_sub I128 remaining_dust amount)
    else ret remaining_dust).

(** [recipients.iter().enumerate()] *)
Definition enumerate {A} (l : list A) : list (nat * A) := imap pair l.

Definition distribute_fees_internal (asset : Asset) (config : FeeConfig) : M unit :=
  total_balance ← get_fee_balance asset;
  if total_balance =? 0 then ret tt
  else
    set_fee_balance asset 0;;
    distribute_loop asset total_balance (treasury_index (recipients config))
      (length (recipients config)) (enumerate (recipients config));;
    now ← ledger_sequence;
    push_distribution_history asset (mkDistributionRecord now total_balance);;
    fees_distributed asset total_balance.

Definition distribute_fees (asset : Asset) : M unit :=
  o ← get_fee_config;
  config ← ok_or o ContractError.NotInitialized;
  distribute_fees_internal asset config.

End Fees.
