(* ===== verification/Swap.v ===== *)
(** * Swap execution (router.rs)

    [execute_swap_internal] and the functions around it, split at the numbered
    steps of the source: input guards, rate limiting, reserve snapshot, hops,
    fee, slippage guards, reserve validation, settlement. *)

From stdpp Require Import base decidable strings numbers list.
From S2P Require Import Prelude Types Host HostLogic Events Storage Governance Tokens Adapters Fees.

Local Open Scope Z_scope.
Local Open Scope host_scope.

Definition MAX_HOPS : Z := 4.

(** The bytes whose hash a commitment stores. *)
Definition reveal_payload (params : SwapParams) (salt : BytesN32) : Bytes :=
  be_bytes 16 (amount_in params) ++ be_bytes 16 (min_amount_out params) ++
  be_bytes 8 (deadline params) ++ salt.

(** [if route.min_output > min_amount_out { route.min_output } else { min_amount_out }] *)
Definition required_min_out (params : SwapParams) : Z :=
  if min_amount_out params <? min_output (sp_route params) then min_output (sp_route params)
  else min_amount_out params.

Section Swap.

Context {H : Host}.

Definition require_not_paused : M unit :=
  v ← instance_get StorageKey.Paused;
  fail_when (default false v) ContractError.Paused.

Definition require_admin (caller : Address) : M unit :=
  a ← get_admin;
  fail_when (bool_decide (a ≠ caller)) ContractError.Unauthorized;;
  require_auth caller.

(** Steps 1 to 3: amounts, recipient, deadline, shape of the route. *)
Definition swap_input_guards (sender : Address) (params : SwapParams) : M unit :=
  fail_when (amount_in params <=? 0) ContractError.InvalidAmount;;
  fail_when ((min_amount_out params <? 0) || (min_output (sp_route params) <? 0))
    ContractError.InvalidAmount;;
  fail_when (10000 <? sp_max_price_impact_bps params) ContractError.InvalidAmount;;
  fail_when (10000 <? sp_max_execution_spread_bps params) ContractError.InvalidAmount;;
  this ← current_contract_address;
  fail_when (bool_decide (recipient params = this)) ContractError.InvalidRecipient;;
  (if bool_decide (recipient params ≠ sender) then require_auth (recipient params) else ret tt);;
  now ← ledger_sequence;
  fail_when (deadline params <? now) ContractError.DeadlineExceeded;;
  fail_when (now <? not_before params) ContractError.ExecutionTooEarly;;
  fail_when ((vlen (hops (sp_route params)) =? 0) || (4 <? vlen (hops (sp_route params))))
    ContractError.InvalidRoute;;
  for_each (hops (sp_route params)) (λ hop,
    b ← is_supported_pool (hop_pool hop);
    fail_when (negb b) ContractError.PoolNotSupported).

(** Step 4: rate limiting. *)
Definition check_rate_limit (sender : Address) : M unit :=
  o ← Storage.get_mev_config;
  match o with
  | None => ret tt
  | Some mev_config =>
      wl ← is_whitelisted sender;
      if wl : bool then ret tt
      else
        current_ledger ← ledger_sequence;
        window_start ← get_account_swap_window_start sender;
        swap_count ← get_account_swap_count sender;
        within ← (if 0 <? swap_count then
                    window_end ← plain_op U32 (window_start + rate_limit_window_ledgers mev_config);
                    ret (current_ledger <? window_end)
                  else ret false);
        if within : bool then
          if rate_limit_max_swaps mev_config <=? swap_count then
            rate_limit_hit sender swap_count (rate_limit_window_ledgers mev_config);;
            fail ContractError.RateLimitExceeded
          else
            next ← plain_op U32 (swap_count + 1);
            set_account_swap_count sender next (rate_limit_window_ledgers mev_config)
        else
          set_account_swap_window_start sender current_ledger
            (rate_limit_window_ledgers mev_config);;
          set_account_swap_count sender 1 (rate_limit_window_ledgers mev_config)
  end.

(** Step 5: the reserves of every pool of the route, [(0, 0)] when unavailable. *)
Definition snapshot_reserves (hs : list RouteHop) : M (list (Z * Z)) :=
  fold_each hs [] (λ pre_reserves hop,
    r ← AmmAdapter.get_reserves (hop_pool hop);
    ret (pre_reserves ++ [match r with inl v => v | inr _ => (0, 0) end])).

(** Step 7: the hops, each fed with the output of the previous one. *)
Definition run_hops (hs : list RouteHop) (amount : Z) : M (Z * Z) :=
  fold_each hs (amount, 0) (λ '(current_input_amount, total_impact_bps) hop,
    out ← AmmAdapter.swap (hop_pool hop) (hop_source hop) (hop_destination hop)
            current_input_amount 0;
    impact ← plain_op U32 (total_impact_bps + 5);
    ret (out, impact)).

(** Step 8: the protocol fee on an amount, and what is left of it. *)
Definition apply_fee (amount : Z) : M (Z * Z) :=
  fee_rate ← get_fee_rate;
  scaled ← ok_or (checked_mul I128 amount fee_rate) ContractError.Overflow;
  fee_amount ← ok_or (checked_div I128 scaled 10000) ContractError.Overflow;
  final_output ← ok_or (checked_sub I128 amount fee_amount) ContractError.Overflow;
  ret (fee_amount, final_output).

(** Step 9: price-impact, spread and minimum-output guards. *)
Definition slippage_guards (params : SwapParams) (total_impact_bps final_output : Z) : M unit :=
  fail_when ((0 <? sp_max_price_impact_bps params) &&
             (sp_max_price_impact_bps params <? total_impact_bps))
    ContractError.PriceImpactTooHigh;;
  (if (0 <? sp_max_execution_spread_bps params) && (0 <? estimated_output (sp_route params)) then
     spread ← (if final_output <? estimated_output (sp_route params) then
                 diff ← ok_or (checked_sub I128 (estimated_output (sp_route params)) final_output)
                          ContractError.Overflow;
                 scaled ← ok_or (checked_mul I128 diff 10000) ContractError.Overflow;
                 ok_or (checked_div I128 scaled (estimated_output (sp_route params)))
                   ContractError.Overflow
               else ret 0);
     fail_when (sp_max_execution_spread_bps params <? spread) ContractError.SpreadTooHigh
   else ret tt);;
  fail_when (final_output <? required_min_out params) ContractError.SlippageExceeded.

(** Step 10: both reserves of a pool moving the same way is rejected. *)
Definition validate_reserves (hs : list (RouteHop * (Z * Z))) : M unit :=
  for_each hs (λ '(hop, pre),
    if (fst pre =? 0) && (snd pre =? 0) then ret tt
    else
      r ← AmmAdapter.get_reserves (hop_pool hop);
      match r with
      | inl post =>
          let delta_0 := default (int_min I128) (checked_sub I128 (fst post) (fst pre)) in
          let delta_1 := default (int_min I128) (checked_sub I128 (snd post) (snd pre)) in
          fail_when ((0 <? delta_0) && (0 <? delta_1)) ContractError.ReserveManipulationDetected;;
          fail_when ((delta_0 <? 0) && (delta_1 <? 0)) ContractError.ReserveManipulationDetected
      | inr _ => ret tt
      end).

(** Fee collection and automatic distribution. *)
Definition collect_fee (asset : Asset) (fee_amount : Z) : M unit :=
  if 0 <? fee_amount then
    add_fee_balance asset fee_amount;;
    fee_collected asset fee_amount;;
    o ← get_fee_config;
    match o with
    | Some config =>
        if auto_distribute config then
          current_balance ← get_fee_balance asset;
          if min_distribution config <=? current_balance then distribute_fees_internal asset config
          else ret tt
        else ret tt
    | None => ret tt
    end
  else ret tt.

Definition check_ttl_health : M unit :=
  last_extended ← get_last_ttl_extension;
  if last_extended =? 0 then ret tt
  else
    now ← ledger_sequence;
    let elapsed := saturating_sub U32 now last_extended in
    let pools_remaining := saturating_sub U32 POOL_TTL_EXTEND_TO elapsed in
    if pools_remaining <? POOL_TTL_THRESHOLD then
      ttl_warning pools_remaining POOL_TTL_THRESHOLD
    else ret tt.

(** Step 11: the high-impact event. *)
Definition report_impact (sender : Address) (total_impact_bps amount : Z) : M unit :=
  o ← Storage.get_mev_config;
  match o with
  | Some mev_config =>
      if mc_max_price_impact_bps mev_config <? total_impact_bps then
        high_impact_swap sender total_impact_bps amount
      else ret tt
  | None => ret tt
  end.

(** Step 12 to the end: payout, fee, accounting, TTLs, event. *)
Definition settle (sender : Address) (params : SwapParams) (last_hop : RouteHop)
    (fee_amount final_output : Z) : M SwapResult :=
  this ← current_contract_address;
  transfer_asset (hop_destination last_hop) this (recipient params) final_output;;
  collect_fee (hop_destination last_hop) fee_amount;;
  increment_nonce sender;;
  add_swap_volume (amount_in params);;
  for_each (hops (sp_route params)) (λ hop, extend_pool_ttl (hop_pool hop));;
  extend_instance_ttl;;
  check_ttl_health;;
  swap_executed sender (amount_in params) final_output fee_amount (sp_route params);;
  now ← ledger_sequence;
  ret (mkSwapResult (amount_in params) final_output (sp_route params) now).

Definition execute_swap_internal (sender : Address) (params : SwapParams) : M SwapResult :=
  swap_input_guards sender params;;
  check_rate_limit sender;;
  pre_reserves ← snapshot_reserves (hops (sp_route params));
  first_hop ← unwrap (head (hops (sp_route params)));
  transfer_asset (hop_source first_hop) sender (hop_pool first_hop) (amount_in params);;
  '(current_input_amount, total_impact_bps) ← run_hops (hops (sp_route params)) (amount_in params);
  '(fee_amount, final_output) ← apply_fee current_input_amount;
  slippage_guards params total_impact_bps final_output;;
  validate_reserves (zip (hops (sp_route params)) pre_reserves);;
  report_impact sender total_impact_bps (amount_in params);;
  last_hop ← unwrap (last (hops (sp_route params)));
  settle sender params last_hop fee_amount final_output.

Definition execute_swap (sender : Address) (params : SwapParams) : M SwapResult :=
  require_auth sender;;
  require_not_paused;;
  validate_route_assets (sp_route params);;
  o ← Storage.get_mev_config;
  (match o with
   | Some mev_config =>
       fail_when (commitment_required_above mev_config <=? amount_in params)
         ContractError.CommitmentRequired
   | None => ret tt
   end);;
  execute_swap_internal sender params.

(** The integrators' alias: the request is logged before, a failure after. *)
Definition execute (sender : Address) (params : SwapParams) : M SwapResult :=
  execution_requested sender (amount_in params) (vlen (hops (sp_route params))) (deadline params);;
  on_err (execute_swap sender params) (λ err, execution_failed sender (ContractError.code err)).

Definition commit_swap (sender : Address) (commitment_hash : BytesN32) (deposit_amount : Z) : M unit :=
  require_auth sender;;
  require_not_paused;;
  fail_when (deposit_amount <=? 0) ContractError.InvalidAmount;;
  fail_when (bool_decide (commitment_hash = zero_bytes32)) ContractError.InvalidAmount;;
  o ← Storage.get_mev_config;
  mev_config ← ok_or o ContractError.NotInitialized;
  current_ledger ← ledger_sequence;
  expires_at ← plain_op U32 (current_ledger + rate_limit_window_ledgers mev_config);
  set_commitment commitment_hash
    (mkCommitmentData sender deposit_amount commitment_hash current_ledger expires_at)
    (rate_limit_window_ledgers mev_config);;
  commitment_created sender commitment_hash deposit_amount;;
  extend_instance_ttl.

Definition reveal_and_execute (sender : Address) (params : SwapParams) (salt : BytesN32) : M SwapResult :=
  require_auth sender;;
  require_not_paused;;
  let computed_hash := sha256 (reveal_payload params salt) in
  o ← get_commitment computed_hash;
  commitment ← ok_or o ContractError.CommitmentNotFound;
  fail_when (bool_decide (cd_sender commitment ≠ sender)) ContractError.InvalidReveal;;
  now ← ledger_sequence;
  fail_when (cd_expires_at commitment <? now) ContractError.CommitmentExpired;;
  remove_commitment computed_hash;;
  commitment_revealed sender computed_hash;;
  execute_swap_internal sender params.

End Swap.
