(* ===== verification/Router.v ===== *)
(** * Router entry points (router.rs)

    Initialization, single-admin administration, quotes and route validation, TTL
    management and the read-only getters. The entry points that only forward to
    another module ([propose], [add_token], ...) are the constructors of [Call]
    in Contract.v. *)

From stdpp Require Import base decidable strings numbers list.
From S2P Require Import Prelude Types Host HostLogic Events Storage Upgrade Governance Tokens Adapters Fees Swap.

Local Open Scope Z_scope.
Local Open Scope host_scope.

Definition BASE_CPU_PER_HOP : Z := 5000000.
Definition CCI_OVERHEAD : Z := 1000000.

(** Hop-to-hop asset continuity. *)
Fixpoint continuous (hs : list RouteHop) : bool :=
  match hs with
  | a :: (b :: _) as rest => bool_decide (hop_destination a = hop_source b) && continuous rest
  | _ => true
  end.

Section Router.

Context {H : Host}.

Definition initialize (admin : Address) (fee_rate : Z) (fee_to : Address)
    (_signers : option (list Address)) (_threshold _proposal_ttl : option Z)
    (_guardian : option Address) (_initial_wasm_hash : option BytesN32) : M unit :=
  b ← instance_has StorageKey.Admin;
  fail_when b ContractError.AlreadyInitialized;;
  fail_when (1000 <? fee_rate) ContractError.InvalidAmount;;
  fail_when (bool_decide (admin = fee_to)) ContractError.InvalidAmount;;
  instance_set StorageKey.Admin admin;;
  instance_set StorageKey.FeeRate fee_rate;;
  instance_set StorageKey.FeeTo fee_to;;
  instance_set StorageKey.Paused false;;
  set_initial_version (default zero_bytes32 _initial_wasm_hash);;
  now ← ledger_sequence;
  set_last_ttl_extension now;;
  initialized admin fee_rate.

Definition set_admin (new_admin : Address) : M unit :=
  ms ← is_multisig;
  fail_when ms ContractError.UseGovernance;;
  admin ← Storage.get_admin;
  require_auth admin;;
  fail_when (bool_decide (new_admin = admin)) ContractError.InvalidAmount;;
  this ← current_contract_address;
  fail_when (bool_decide (new_admin = this)) ContractError.InvalidRecipient;;
  instance_set StorageKey.Admin new_admin;;
  admin_changed admin new_admin;;
  extend_instance_ttl.

Definition register_pool (pool : Address) : M unit :=
  ms ← is_multisig;
  fail_when ms ContractError.UseGovernance;;
  a ← Storage.get_admin;
  require_auth a;;
  this ← current_contract_address;
  fail_when (bool_decide (pool = this)) ContractError.InvalidRecipient;;
  b ← persistent_has (StorageKey.SupportedPool pool);
  fail_when b ContractError.PoolNotSupported;;
  persistent_set (StorageKey.SupportedPool pool) true;;
  extend_pool_ttl pool;;
  count ← Storage.get_pool_count;
  new_count ← unwrap (checked_add U32 count 1);
  set_pool_count new_count;;
  add_to_pool_list pool;;
  pool_registered pool;;
  extend_instance_ttl.

Definition pause (caller : Address) : M unit :=
  ms ← is_multisig;
  fail_when ms ContractError.UseGovernance;;
  require_admin caller;;
  instance_set StorageKey.Paused true;;
  paused;;
  extend_instance_ttl.

Definition unpause (caller : Address) : M unit :=
  ms ← is_multisig;
  fail_when ms ContractError.UseGovernance;;
  require_admin caller;;
  instance_set StorageKey.Paused false;;
  unpaused;;
  extend_instance_ttl.

(** ** Multi-sig entry points: [NotMultiSig] in single-admin mode *)

Definition require_multisig : M unit :=
  ms ← is_multisig;
  fail_when (negb ms) ContractError.NotMultiSig.

Definition propose (signer : Address) (action : ProposalAction) : M Z :=
  require_multisig;; Governance.propose signer action.

Definition approve_proposal (signer : Address) (proposal_id : Z) : M unit :=
  require_multisig;; Governance.approve signer proposal_id.

Definition execute_proposal (proposal_id : Z) : M unit :=
  require_multisig;; Governance.execute_proposal proposal_id.

Definition cancel_proposal (signer : Address) (proposal_id : Z) : M unit :=
  require_multisig;; Governance.cancel signer proposal_id.

(** ** MEV configuration *)

Definition configure_mev (config : MevConfig) : M unit :=
  a ← Storage.get_admin;
  require_auth a;;
  fail_when (commitment_required_above config <=? 0) ContractError.InvalidAmount;;
  fail_when (rate_limit_window_ledgers config =? 0) ContractError.InvalidAmount;;
  fail_when (rate_limit_max_swaps config =? 0) ContractError.InvalidAmount;;
  fail_when (10000 <? mc_max_price_impact_bps config) ContractError.InvalidAmount;;
  fail_when (10000 <? mc_max_execution_spread_bps config) ContractError.InvalidAmount;;
  set_mev_config config;;
  extend_instance_ttl.

Definition set_whitelist (address : Address) (whitelisted : bool) : M unit :=
  a ← Storage.get_admin;
  require_auth a;;
  set_whitelisted address whitelisted;;
  extend_instance_ttl.

Definition update_known_price (token_a token_b : Address) (price : Z) : M unit :=
  a ← Storage.get_admin;
  require_auth a;;
  set_latest_known_price token_a token_b price;;
  extend_instance_ttl.

Definition get_mev_config : M MevConfig :=
  o ← Storage.get_mev_config;
  ok_or o ContractError.NotInitialized.

(** ** Quotes *)

Definition estimate_resources (amount : Z) (route : Route) : M ResourceEstimate :=
  fail_when ((amount <=? 0) || (vlen (hops route) =? 0)) ContractError.InvalidRoute;;
  let num_hops := vlen (hops route) in
  fail_when (MAX_HOPS <? num_hops) ContractError.InvalidRoute;;
  let estimated_cpu := saturating_add U64 (saturating_mul U64 BASE_CPU_PER_HOP num_hops)
                         (saturating_mul U64 CCI_OVERHEAD num_hops) in
  ret (mkResourceEstimate estimated_cpu
         (saturating_add U32 (saturating_add U32 1 num_hops) 1) 1 1
         (estimated_cpu <? 100000000)).

Definition validate_route_internal (route : Route) : M unit :=
  fail_when (vlen (hops route) =? 0) ContractError.EmptyRoute;;
  fail_when (MAX_HOPS <? vlen (hops route)) ContractError.TooManyHops;;
  now ← ledger_sequence;
  fail_when ((0 <? route_expires_at route) && (route_expires_at route <? now))
    ContractError.RouteExpired;;
  fail_when ((estimated_output route <? 0) || (min_output route <? 0)) ContractError.InvalidAmount;;
  fail_when ((0 <? estimated_output route) && (estimated_output route <? min_output route))
    ContractError.InvalidRoute;;
  fail_when (negb (continuous (hops route))) ContractError.InvalidRoute;;
  validate_route_assets route;;
  b ← batch_check_pools (hop_pool <$> hops route);
  fail_when (negb b) ContractError.PoolNotSupported.

Definition validate_route (route : Route) : M unit := validate_route_internal route.

(** The hop-by-hop quote, with the estimated price impact. *)
Definition quote_hops (hs : list RouteHop) (amount : Z) : M (Z * Z) :=
  fold_each hs (amount, 0) (λ '(current_amount, total_impact_bps) hop,
    out ← AmmAdapter.quote (hop_pool hop) (hop_source hop) (hop_destination hop) current_amount;
    impact ← plain_op U32 (total_impact_bps + 5);
    ret (out, impact)).

Definition get_quote (amount : Z) (route : Route) : M QuoteResult :=
  fail_when (amount <=? 0) ContractError.InsufficientInput;;
  validate_route_internal route;;
  '(current_amount, total_impact_bps) ← quote_hops (hops route) amount;
  '(fee, final_output) ← apply_fee current_amount;
  now ← ledger_sequence;
  ret (mkQuoteResult final_output total_impact_bps fee route (saturating_add U64 now 120)).

(** ** TTL management *)

Definition extend_storage_ttl : M unit :=
  extend_instance_ttl;;
  pool_list ← get_pool_list;
  for_each pool_list extend_pool_ttl;;
  extend_volume_ttl;;
  now ← ledger_sequence;
  set_last_ttl_extension now;;
  ttl_extended (vlen pool_list) now.

Definition get_ttl_status : M TTLStatus :=
  current_ledger ← ledger_sequence;
  last_extended ← get_last_ttl_extension;
  let elapsed := saturating_sub U32 current_ledger last_extended in
  let instance_remaining := saturating_sub U32 INSTANCE_TTL_EXTEND_TO elapsed in
  let pools_remaining := saturating_sub U32 POOL_TTL_EXTEND_TO elapsed in
  ret (mkTTLStatus instance_remaining pools_remaining
         ((instance_remaining <? INSTANCE_TTL_THRESHOLD) || (pools_remaining <? POOL_TTL_THRESHOLD))
         last_extended).

(** ** Read-only getters *)

Definition get_admin : M Address :=
  b ← is_initialized;
  fail_when (negb b) ContractError.NotInitialized;;
  Storage.get_admin.

Definition get_fee_rate_value : M Z := get_fee_rate.

Definition get_fee_to_address : M Address :=
  o ← get_fee_to_optional;
  ok_or o ContractError.NotInitialized.

Definition get_fee_distribution_config : M (option FeeConfig) := get_fee_config.

Definition get_fee_balance (asset : Asset) : M Z := Storage.get_fee_balance asset.

Definition get_total_fees_collected (asset : Asset) : M Z := Storage.get_total_fees_collected asset.

Definition get_total_fees_burned (asset : Asset) : M Z := Storage.get_total_burned asset.

Definition get_distribution_history (asset : Asset) : M (list DistributionRecord) :=
  Storage.get_distribution_history asset.

Definition is_paused : M bool := get_paused.

Definition get_pool_count : M Z := Storage.get_pool_count.

Definition is_pool_registered (pool : Address) : M bool := is_supported_pool pool.

Definition get_total_swap_volume : M Z := Storage.get_total_swap_volume.

End Router.
