(* ===== verification/Contract.v ===== *)
(** * The contract as a transition system

    [Call] lists the state-changing entry points of the router with their
    arguments; [exec] is the contract code each one runs. A [history] interleaves
    invocations (atomic frames, [run]), the passing of ledgers and arbitrary
    changes in other contracts, starting from empty storage, and logs the
    successful calls. *)

From stdpp Require Import base decidable strings numbers relations list.
From S2P Require Import Prelude Types Host HostLogic Events Storage Upgrade Governance Tokens Adapters Fees Swap Router.

Local Open Scope Z_scope.
Local Open Scope host_scope.

Inductive Call :=
| CInitialize (admin : Address) (fee_rate : Z) (fee_to : Address)
    (signers_ : option (list Address)) (threshold_ ttl_ : option Z)
    (guardian : option Address) (hash : option BytesN32)
| CMigrateToMultisig (admin : Address) (signers_ : list Address) (threshold_ ttl_ : Z)
    (guardian : option Address)
| CSetAdmin (new_admin : Address)
| CSetFeeDistributionConfig (config : FeeConfig)
| CDistributeFees (asset : Asset)
| CRegisterPool (pool : Address)
| CPause (caller : Address)
| CUnpause (caller : Address)
| CPropose (signer : Address) (action : ProposalAction)
| CApproveProposal (signer : Address) (id : Z)
| CExecuteProposal (id : Z)
| CCancelProposal (signer : Address) (id : Z)
| CGuardianPause (guardian : Address)
| CProposeUpgrade (admin : Address) (hash : BytesN32) (execute_after : Z)
| CExecuteUpgrade (admin : Address)
| CCancelUpgrade (admin : Address)
| CAddToken (caller : Address) (info : TokenInfo)
| CRemoveToken (caller : Address) (asset : Asset)
| CUpdateToken (caller : Address) (asset : Asset) (updated : TokenInfo)
| CAddTokensBatch (caller : Address) (tokens : list TokenInfo)
| CConfigureMev (config : MevConfig)
| CSetWhitelist (address : Address) (whitelisted : bool)
| CUpdateKnownPrice (token_a token_b : Address) (price : Z)
| CCommitSwap (sender : Address) (hash : BytesN32) (deposit : Z)
| CRevealAndExecute (sender : Address) (params : SwapParams) (salt : BytesN32)
| CExecuteSwap (sender : Address) (params : SwapParams)
| CExecute (sender : Address) (params : SwapParams)
| CGetQuote (amount : Z) (route : Route)
| CExtendStorageTtl.

Definition is_initialize (call : Call) : bool :=
  match call with CInitialize _ _ _ _ _ _ _ _ => true | _ => false end.

(** The arguments of a call are values of their Rust types. *)
Definition wf_call (call : Call) : Prop :=
  match call with
  | CInitialize _ r _ _ _ _ _ h => fits U32 r ∧ (∀ b, h = Some b → wf_hash b)
  | CMigrateToMultisig _ _ th tl _ => fits U32 th ∧ fits U64 tl
  | CSetFeeDistributionConfig cfg => wf_fee_config cfg
  | CPropose _ a => wf_action a
  | CApproveProposal _ i | CExecuteProposal i | CCancelProposal _ i => fits U64 i
  | CProposeUpgrade _ h n => wf_hash h ∧ fits U64 n
  | CAddToken _ i | CUpdateToken _ _ i => fits U32 (ti_decimals i)
  | CAddTokensBatch _ l => Forall (λ i, fits U32 (ti_decimals i)) l
  | CConfigureMev cfg => wf_mev_config cfg
  | CUpdateKnownPrice _ _ p => fits I128 p
  | CCommitSwap _ h d => wf_hash h ∧ fits I128 d
  | CRevealAndExecute _ p salt => wf_params p ∧ wf_hash salt
  | CExecuteSwap _ p | CExecute _ p => wf_params p
  | CGetQuote a r => fits I128 a ∧ wf_route r
  | _ => True
  end.

Section Contract.

Context {H : Host}.

Definition exec (call : Call) : M unit :=
  match call with
  | CInitialize a r t s th tl g h => initialize a r t s th tl g h
  | CMigrateToMultisig a s th tl g => migrate_to_multisig a s th tl g
  | CSetAdmin a => Router.set_admin a
  | CSetFeeDistributionConfig cfg => set_fee_distribution_config cfg
  | CDistributeFees a => distribute_fees a
  | CRegisterPool p => register_pool p
  | CPause a => pause a
  | CUnpause a => unpause a
  | CPropose s a => Router.propose s a;; ret tt
  | CApproveProposal s i => approve_proposal s i
  | CExecuteProposal i => Router.execute_proposal i
  | CCancelProposal s i => cancel_proposal s i
  | CGuardianPause g => guardian_pause g
  | CProposeUpgrade a h n => propose_upgrade a h n
  | CExecuteUpgrade a => execute_upgrade a
  | CCancelUpgrade a => cancel_upgrade a
  | CAddToken c i => add_token c i
  | CRemoveToken c a => Tokens.remove_token c a
  | CUpdateToken c a i => update_token c a i
  | CAddTokensBatch c l => add_tokens_batch c l
  | CConfigureMev cfg => configure_mev cfg
  | CSetWhitelist a b => set_whitelist a b
  | CUpdateKnownPrice a b p => update_known_price a b p
  | CCommitSwap s h d => commit_swap s h d
  | CRevealAndExecute s p salt => reveal_and_execute s p salt;; ret tt
  | CExecuteSwap s p => execute_swap s p;; ret tt
  | CExecute s p => execute s p;; ret tt
  | CGetQuote a r => get_quote a r;; ret tt
  | CExtendStorageTtl => extend_storage_ttl
  end.

(** A freshly deployed contract: no entry in any storage. *)
Definition fresh (w : World) : Prop :=
  (∀ k, iget w k = None) ∧ (∀ k, pget w k = None) ∧ (∀ n k, tget w n k = None).

(** [history me n w h]: the contract deployed at address [me] is in the state [w] at
    ledger [n] after the successful calls [h], latest first. Calls that fail, the
    passing of ledgers and the activity of other contracts may happen in between. *)
Inductive history (me : Address) : Z → World → list (Ctx * Call) → Prop :=
| history_deploy n w :
    fits U32 n → fresh w → history me n w []
| history_call c w call w' h :
    history me (ledger_seq c) w h → self c = me → wf_call call →
    run (exec call) c w = (w', Some (inl tt)) →
    history me (ledger_seq c) w' ((c, call) :: h)
| history_failed c w call w' r h :
    history me (ledger_seq c) w h → self c = me →
    run (exec call) c w = (w', r) → r ≠ Some (inl tt) →
    history me (ledger_seq c) w' h
| history_ledger n m w h :
    history me n w h → n <= m → fits U32 m → history me m w h
| history_other n w x h :
    history me n w h → history me n (with_ext w x) h.

Definition reachable (me : Address) (n : Z) (w : World) : Prop := ∃ h, history me n w h.

(** The induction principle of the development: a property of the ledger, the world
    and the log holds of every history when it holds at deployment, every successful
    call preserves it, and it does not depend on the ledger nor on other contracts. *)
Lemma history_inv (I : Z → World → list (Ctx * Call) → Prop) me :
  (∀ n w, fits U32 n → fresh w → I n w []) →
  (∀ c w call w' h,
     history me (ledger_seq c) w h → I (ledger_seq c) w h → self c = me → wf_call call →
     fits U32 (ledger_seq c) →
     exec call c w = Ok tt w' → I (ledger_seq c) w' ((c, call) :: h)) →
  (∀ n m w h, n <= m → I n w h → I m w h) →
  (∀ n w x h, I n w h → I n (with_ext w x) h) →
  ∀ n w h, history me n w h → fits U32 n ∧ I n w h.
Proof.
  intros Hinit Hcall Hled Hext n w h Hh.
  induction Hh as [| c w call w' h Hh [Hn IH] Hme Hwf Hrun | c w call w' r h Hh [Hn IH] Hme Hrun Hr
    | n m w h Hh [Hn IH] Hle Hm | n w x h Hh [Hn IH] ]; eauto.
  - apply run_ok in Hrun. eauto.
  - assert (w' = w) as -> by (eapply run_not_ok; [done|]; by intros []). done.
Qed.

(** Invariants of the world alone. *)
Lemma reachable_inv (I : Ctx → World → Prop) me n w :
  (∀ c c' w, I c w → I c' w) →
  (∀ c w, fresh w → I c w) →
  (∀ call, wf_call call → keeps I (exec call)) →
  (∀ c w x, I c w → I c (with_ext w x)) →
  reachable me n w → ∀ c, I c w.
Proof.
  intros Hc Hinit Hcall Hext [h Hh].
  refine (proj2 (history_inv (λ _ w _, ∀ c, I c w) me _ _ _ _ n w h Hh)); eauto.
  intros c w0 call w' h' _ HI _ Hwf _ Hex c'. apply (Hc c). eapply Hcall; eauto.
Qed.

End Contract.

(** ** What each entry point may write *)

Definition governed_i (k : Key) : bool :=
  match k with
  | SK StorageKey.FeeRate | SK StorageKey.FeeTo | SK StorageKey.FeeConfig
  | SK StorageKey.PoolCount | SK StorageKey.Paused | SK StorageKey.ContractVersionKey
  | SK StorageKey.Governance => true
  | _ => false
  end.

Definition governed_p (k : Key) : bool :=
  match k with
  | SK (StorageKey.SupportedPool _) | SK (StorageKey.VersionHistory _)
  | SK (StorageKey.MigrationDone _ _ _) => true
  | _ => false
  end.

Definition proposal_p (k : Key) : bool :=
  match k with SK (StorageKey.ProposalEntry _) => true | _ => false end.

Definition fees_p (k : Key) : bool :=
  match k with
  | SK (StorageKey.FeeBalance _) | SK (StorageKey.TotalFeesBurned _)
  | SK (StorageKey.DistributionHistory _) => true
  | _ => false
  end.

Definition swap_p (k : Key) : bool :=
  fees_p k ||
  match k with
  | SK (StorageKey.TotalFeesCollected _) | SK (StorageKey.SwapNonce _)
  | SK StorageKey.TotalSwapVolume => true
  | _ => false
  end.

Definition allowlist_p (k : Key) : bool :=
  match k with SK (StorageKey.AllowedToken _) | IK _ => true | _ => false end.

(** Instance entries a call may write. *)
Definition writes_i (call : Call) (k : Key) : bool :=
  match call, k with
  | CInitialize _ _ _ _ _ _ _ _,
      SK (StorageKey.Admin | StorageKey.FeeRate | StorageKey.FeeTo | StorageKey.Paused
         | StorageKey.ContractVersionKey | StorageKey.LastTtlExtension) => true
  | CMigrateToMultisig _ _ _ _ _,
      SK (StorageKey.Governance | StorageKey.Guardian | StorageKey.IsMultiSig) => true
  | CSetAdmin _, SK StorageKey.Admin => true
  | CSetFeeDistributionConfig _, SK StorageKey.FeeConfig => true
  | CRegisterPool _, SK (StorageKey.PoolCount | StorageKey.PoolList) => true
  | (CPause _ | CUnpause _ | CGuardianPause _), SK StorageKey.Paused => true
  | CPropose _ _, SK StorageKey.ProposalCounter => true
  | (CPropose _ _ | CApproveProposal _ _ | CExecuteProposal _), _ => governed_i k
  | (CProposeUpgrade _ _ _ | CCancelUpgrade _), SK StorageKey.PendingUpgradeKey => true
  | CExecuteUpgrade _, SK (StorageKey.PendingUpgradeKey | StorageKey.ContractVersionKey) => true
  | (CAddToken _ _ | CRemoveToken _ _ | CAddTokensBatch _ _), SK StorageKey.TokenCount => true
  | CConfigureMev _, SK StorageKey.MevConfig => true
  | CUpdateKnownPrice _ _ _, SK (StorageKey.LatestKnownPrice _ _) => true
  | CExtendStorageTtl, SK StorageKey.LastTtlExtension => true
  | _, _ => false
  end.

(** Persistent entries a call may write. *)
Definition writes_p (call : Call) (k : Key) : bool :=
  match call, k with
  | CInitialize _ _ _ _ _ _ _ _, SK (StorageKey.VersionHistory _) => true
  | CDistributeFees _, _ => fees_p k
  | CRegisterPool _, SK (StorageKey.SupportedPool _) => true
  | (CPropose _ _ | CApproveProposal _ _ | CExecuteProposal _), _ => governed_p k || proposal_p k
  | CCancelProposal _ _, _ => proposal_p k
  | CExecuteUpgrade _, SK (StorageKey.VersionHistory _ | StorageKey.MigrationDone _ _ _) => true
  | (CAddToken _ _ | CRemoveToken _ _ | CUpdateToken _ _ _ | CAddTokensBatch _ _), _ => allowlist_p k
  | CSetWhitelist _ _, SK (StorageKey.Whitelisted _) => true
  | (CRevealAndExecute _ _ _ | CExecuteSwap _ _ | CExecute _ _), _ => swap_p k
  | _, _ => false
  end.

(** Temporary entries a call may write. *)
Definition writes_t (call : Call) (k : Key) : bool :=
  match call, k with
  | (CRevealAndExecute _ _ _ | CExecuteSwap _ _ | CExecute _ _),
      SK (StorageKey.AccountSwapCount _ | StorageKey.AccountSwapWindowStart _) => true
  | (CRevealAndExecute _ _ _ | CCommitSwap _ _ _), SK (StorageKey.Commitment _) => true
  | _, _ => false
  end.

Section Contract_frames.

Context {H : Host} {HOk : HostOk H}.

Lemma exec_writes call : writes (writes_i call) (writes_p call) (writes_t call) (exec call).
Proof. intros w0. destruct call; cbn [exec]; solve_keeps. Qed.

(** An invariant is preserved by every call that writes outside its footprint. *)
Lemma exec_frame call I Ki Kp Kt :
  Footprint I Ki Kp Kt →
  (∀ k, Ki k = true → writes_i call k = false) →
  (∀ k, Kp k = true → writes_p call k = false) →
  (∀ k, Kt k = true → writes_t call k = false) → keeps I (exec call).
Proof. intros HF. apply keeps_writes; [done|apply exec_writes]. Qed.

Lemma exec_iget call c w u w' k :
  exec call c w = Ok u w' → writes_i call k = false → iget w' k = iget w k.
Proof. intros Hx. by apply (writes_ok _ _ _ _ _ _ _ _ (exec_writes call) Hx). Qed.

Lemma exec_pget call c w u w' k :
  exec call c w = Ok u w' → writes_p call k = false → pget w' k = pget w k.
Proof. intros Hx. by apply (writes_ok _ _ _ _ _ _ _ _ (exec_writes call) Hx). Qed.

Lemma exec_tget call c w u w' n k :
  exec call c w = Ok u w' → writes_t call k = false → tget w' n k = tget w n k.
Proof. intros Hx. by apply (writes_ok _ _ _ _ _ _ _ _ (exec_writes call) Hx). Qed.

End Contract_frames.

(** Closes the calls that write outside the footprint of the invariant. *)
Ltac frame_calls :=
  try solve [eapply exec_frame;
             [typeclasses eauto | by intros [[]|[]] | by intros [[]|[]] | by intros [[]|[]]]].
