(* ===== verification/Scenarios.v ===== *)
(** * Concrete histories

    Executable runs of the contract on the concrete host of RefHost.v: [play]
    executes a list of calls, and a run that succeeds is a [history]. The runs
    below exercise every group of entry points; the theorems about reachable
    states are instantiated on them. *)

From stdpp Require Import base decidable strings numbers list.
From S2P Require Import Prelude Types Host HostLogic RefHost Events Storage Upgrade Governance Tokens Adapters Fees Swap Router Contract.

Local Open Scope Z_scope.
Local Open Scope host_scope.

Section Play.

Context {H : Host}.

Fixpoint play (calls : list (Ctx * Call)) (w : World) : option World :=
  match calls with
  | [] => Some w
  | (c, call) :: rest =>
      match exec call c w with
      | Ok _ w' => play rest w'
      | _ => None
      end
  end.

Definition end_ledger (n : Z) (calls : list (Ctx * Call)) : Z :=
  fold_left (λ _ p, ledger_seq (fst p)) calls n.

(** Calls that can follow each other from ledger [n] on. *)
Fixpoint playable (me : Address) (n : Z) (calls : list (Ctx * Call)) : Prop :=
  match calls with
  | [] => True
  | (c, call) :: rest =>
      self c = me ∧ wf_call call ∧ n <= ledger_seq c ∧ fits U32 (ledger_seq c) ∧
      playable me (ledger_seq c) rest
  end.

Lemma play_history me n w h calls w' :
  history me n w h → playable me n calls → play calls w = Some w' →
  history me (end_ledger n calls) w' (reverse calls ++ h).
Proof.
  revert n w h. induction calls as [|[c call] calls IH]; intros n w h Hh Hok Hp;
    cbn [play playable] in *; [naive_solver|].
  destruct Hok as (Hme & Hwf & Hle & Hn & Hok).
  destruct (exec call c w) as [[] w1|e w1|] eqn:E; simplify_eq.
  rewrite reverse_cons, <- app_assoc.
  eapply IH; [|done|done]. econstructor; [|done|done|by apply run_ok].
  by eapply history_ledger.
Qed.

End Play.

(** Whether a run returns [Ok]: evaluated on concrete worlds. *)
Definition succeeds {H : Host} {A} (m : M A) (c : Ctx) (w : World) : bool :=
  match m c w with Ok _ _ => true | _ => false end.

Lemma succeeds_ok {H : Host} {A} (m : M A) c w :
  succeeds m c w = true → ∃ a w', m c w = Ok a w'.
Proof. unfold succeeds. destruct (m c w); eauto; done. Qed.

(** Whether a run returns the given error. *)
Definition fails_with {H : Host} {A} (m : M A) (c : Ctx) (w : World) (e : ContractError) : bool :=
  match m c w with Err e' _ => bool_decide (e' = e) | _ => false end.

Definition traps {H : Host} {A} (m : M A) (c : Ctx) (w : World) : bool :=
  match m c w with Panic => true | _ => false end.

(** ** The actors *)

Definition router : Address := mkAddr 0.
Definition admin : Address := mkAddr 1.
Definition treasury : Address := mkAddr 2.
Definition trader : Address := mkAddr 3.
Definition guardian : Address := mkAddr 5.
Definition alice : Address := mkAddr 6.
Definition bob : Address := mkAddr 7.
Definition carol : Address := mkAddr 8.
Definition usd : Asset := Asset.Soroban (mkAddr 10).
Definition eur : Asset := Asset.Soroban (mkAddr 11).
Definition pool_a : Address := mkAddr 20.
Definition pool_b : Address := mkAddr 21.
Definition hash1 : BytesN32 := replicate 32 1.
Definition salt1 : BytesN32 := replicate 32 7.

Definition token_usd : TokenInfo :=
  mkTokenInfo usd "US Dollar" "USD" 7 true TokenCategory.Stablecoin 0 admin.
Definition token_eur : TokenInfo :=
  mkTokenInfo eur "Euro" "EUR" 7 true TokenCategory.Stablecoin 0 admin.

Definition route1 : Route :=
  mkRoute [mkRouteHop usd eur pool_a PoolType.AmmConstProd;
           mkRouteHop eur usd pool_b PoolType.AmmConstProd] 0 9000 0.

Definition swap1 : SwapParams := mkSwapParams route1 10000 9500 trader 5000 0 100 0.

Definition mev1 : MevConfig := mkMevConfig 500 500 10 2 100000.

Definition fees1 : FeeConfig :=
  mkFeeConfig [mkFeeRecipient alice 3333 "dev"; mkFeeRecipient bob 1667 "burn";
               mkFeeRecipient treasury 5000 "treasury"] 5 true.

(** The hash [trader] commits to before revealing [swap1]. *)
Definition commit1 : BytesN32 := be_bytes 32 (be_value (reveal_payload swap1 salt1)).

(** ** Single-admin operation *)

Definition setup_calls : list (Ctx * Call) :=
  [(ref_ctx 100 [admin], CInitialize admin 30 treasury None None None None None);
   (ref_ctx 101 [admin], CRegisterPool pool_a);
   (ref_ctx 101 [admin], CRegisterPool pool_b);
   (ref_ctx 102 [admin], CSetFeeDistributionConfig fees1);
   (ref_ctx 103 [admin], CConfigureMev mev1);
   (ref_ctx 104 [admin], CAddToken admin token_usd);
   (ref_ctx 104 [admin], CAddTokensBatch admin [token_eur])].

Definition swap_calls : list (Ctx * Call) :=
  setup_calls ++
  [(ref_ctx 110 [trader], CExecuteSwap trader swap1);
   (ref_ctx 112 [trader], CExecute trader swap1);
   (ref_ctx 113 [trader], CCommitSwap trader commit1 10000);
   (ref_ctx 120 [trader], CRevealAndExecute trader swap1 salt1);
   (ref_ctx 121 [], CDistributeFees eur);
   (ref_ctx 122 [], CExtendStorageTtl)].

Definition upgrade_calls : list (Ctx * Call) :=
  setup_calls ++ [(ref_ctx 200 [admin], CProposeUpgrade admin hash1 0)].

(** ** Multi-sig operation *)

Definition multisig_calls : list (Ctx * Call) :=
  setup_calls ++
  [(ref_ctx 300 [admin], CMigrateToMultisig admin [alice; bob; carol] 2 1000 (Some guardian));
   (ref_ctx 301 [alice], CPropose alice (ProposalAction.SetFeeRate 50));
   (ref_ctx 302 [bob], CApproveProposal bob 1);
   (ref_ctx 303 [guardian], CGuardianPause guardian);
   (ref_ctx 304 [carol], CPropose carol ProposalAction.Unpause)].

Definition cancel_calls : list (Ctx * Call) :=
  multisig_calls ++ [(ref_ctx 305 [carol], CCancelProposal carol 2)].

(** The world after a run on the concrete host, from an empty storage on which
    [hash1] has been uploaded. *)
Definition world0 (checks : bool) : World (H := refHost checks) :=
  mkWorld (H := refHost checks) table_empty table_empty ttable_empty
    (mkRefExt [] [] (λ _, (1000000, 1000000)) [hash1]) [] zero_bytes32.

Definition after (calls : list (Ctx * Call)) : World (H := refHost true) :=
  default (world0 true) (play (H := refHost true) calls (world0 true)).

Definition plays (calls : list (Ctx * Call)) : bool :=
  match play (H := refHost true) calls (world0 true) with Some _ => true | None => false end.

Lemma plays_history calls :
  plays calls = true → playable router 0 calls →
  history (H := refHost true) router (end_ledger 0 calls) (after calls) (reverse calls).
Proof.
  unfold plays, after. intros Hp Hok.
  destruct (play calls (world0 true)) as [w|] eqn:E; [|done]. cbn.
  rewrite <- (app_nil_r (reverse calls)). eapply play_history; [|done|done].
  apply history_deploy; [split; cbn; lia|]. by split_and!.
Qed.

(** Discharges [playable] on a concrete list of calls. *)
Ltac solve_playable :=
  repeat split; try solve [apply length_be_bytes | apply be_bytes_byte]; cbn; try lia; try (repeat constructor; unfold is_byte, fits; cbn; lia); try done.

Lemma setup_history : history (H := refHost true) router 104 (after setup_calls) (reverse setup_calls).
Proof. apply (plays_history setup_calls); [by vm_compute | solve_playable]. Qed.

Lemma swap_history : history (H := refHost true) router 122 (after swap_calls) (reverse swap_calls).
Proof. apply (plays_history swap_calls); [by vm_compute | solve_playable]. Qed.

Lemma upgrade_history :
  history (H := refHost true) router 200 (after upgrade_calls) (reverse upgrade_calls).
Proof. apply (plays_history upgrade_calls); [by vm_compute | solve_playable]. Qed.

Lemma multisig_history :
  history (H := refHost true) router 304 (after multisig_calls) (reverse multisig_calls).
Proof. apply (plays_history multisig_calls); [by vm_compute | solve_playable]. Qed.

Lemma cancel_history :
  history (H := refHost true) router 305 (after cancel_calls) (reverse cancel_calls).
Proof. apply (plays_history cancel_calls); [by vm_compute | solve_playable]. Qed.

(** A call that succeeds, with facts evaluated on the world it leads to. *)
Definition result_world {H : Host} {A} (m : M A) (c : Ctx) (w : World) : World :=
  match m c w with Ok _ w' => w' | _ => w end.

Lemma succeeds_result {H : Host} (m : M unit) c w :
  succeeds m c w = true → m c w = Ok tt (result_world m c w).
Proof. unfold succeeds, result_world. by destruct (m c w) as [[] ?| |]. Qed.
