(* ===== verification/Invariants.v ===== *)
(** * Configuration invariants of every reachable state

    What the entry points of the contract can never break, whatever the order of
    the calls: the fee cap, a fee configuration whose shares add up to 100%, and
    the size of the distribution history. *)

From stdpp Require Import base decidable strings numbers list.
From S2P Require Import Prelude Types Host HostLogic RefHost Events Storage Upgrade Governance Tokens Adapters Fees Swap Router Contract Scenarios.

Local Open Scope Z_scope.
Local Open Scope host_scope.

(** ** The shapes the invariants talk about *)

(** Exactly one instance entry. *)
Definition only (k0 k : Key) : bool := bool_decide (k = k0).

Definition none (_ : Key) : bool := false.

Definition fee_rate_of {H : Host} (w : World) : Z := default 0 (iget w StorageKey.FeeRate).

Definition fee_rate_ok {H : Host} (_ : Ctx) (w : World) : Prop := 0 <= fee_rate_of w <= 1000.

(** At most five recipients whose shares are 10000 basis points together. *)
Definition shares_ok (f : FeeConfig) : Prop :=
  Forall (λ r, fits U32 (share_bps r)) (recipients f) ∧
  (length (recipients f) <= 5)%nat ∧
  sum_of share_bps (recipients f) = 10000.

Definition fee_config_ok {H : Host} (_ : Ctx) (w : World) : Prop :=
  ∀ f, iget w StorageKey.FeeConfig = Some f → shares_ok f.

(** Proposals only carry actions whose arguments are values of their Rust types. *)
Definition actions_wf {H : Host} (_ : Ctx) (w : World) : Prop :=
  ∀ i p, pget w (StorageKey.ProposalEntry i) = Some p → wf_action (p_action p).

Section Invariants.

Context {H : Host} {HOk : HostOk H}.

#[export] Instance fee_rate_footprint :
  Footprint fee_rate_ok (only StorageKey.FeeRate) none none.
Proof. intros c w w' Hi _ _. unfold fee_rate_ok, fee_rate_of. by rewrite <- Hi. Qed.

#[export] Instance fee_config_footprint :
  Footprint fee_config_ok (only StorageKey.FeeConfig) none none.
Proof. intros c w w' Hi _ _. unfold fee_config_ok. by rewrite <- Hi. Qed.

#[export] Instance actions_wf_footprint : Footprint actions_wf none proposal_p none.
Proof. intros c w w' _ Hp _. unfold actions_wf. intros Hw i p. rewrite <- Hp by done. apply Hw. Qed.

(** ** Proposals *)

Lemma keeps_save_proposal_wf p : wf_action (p_action p) → keeps actions_wf (save_proposal p).
Proof.
  intros Hp c w a w' HI Hm. minv. intros i q. world_simpl.
  destruct (decide (i = p_id p)) as [->|]; world_simpl; [by intros [= <-]|apply HI].
Qed.

Lemma keeps_dispatch_wf a : keeps actions_wf (dispatch_action a).
Proof. destruct a; cbn [dispatch_action]; solve_keeps. Qed.

Section Governed.

Context (I : Ctx → World → Prop) {Ki Kp Kt} {HF : Footprint I Ki Kp Kt}.
Hypothesis Hctr : Ki StorageKey.ProposalCounter = false.
Hypothesis Hprop : ∀ i, Kp (StorageKey.ProposalEntry i) = false.
Hypothesis Hdispatch : ∀ a, wf_action a → keeps I (dispatch_action a).

Abbreviation IW := (both I actions_wf).

Lemma keeps_save_proposal p : wf_action (p_action p) → keeps IW (save_proposal p).
Proof.
  intros Hp. apply keeps_both; [|by apply keeps_save_proposal_wf].
  unfold save_proposal. repeat keeps_step.
  eapply keeps_persistent_set_frame; [typeclasses eauto | apply Hprop].
Qed.

Lemma keeps_dispatch a : wf_action a → keeps IW (dispatch_action a).
Proof. intros. apply keeps_both; [by apply Hdispatch | apply keeps_dispatch_wf]. Qed.

(** Reading a proposal yields a well-formed action. *)
Lemma keeps_get_proposal i {A} (f : Proposal → M A) :
  (∀ p, wf_action (p_action p) → keeps IW (f p)) →
  keeps IW (bind (Storage.get_proposal i) (λ o, bind (ok_or o ContractError.ProposalNotFound) f)).
Proof.
  intros Hf c w a w' HI Hm. unfold Storage.get_proposal in Hm. minv.
  eapply Hf; [|done|done]. destruct HI as [_ HI]. eapply HI. done.
Qed.

#[local] Hint Resolve keeps_save_proposal keeps_dispatch : keeps.
#[local] Hint Extern 1 (wf_action _) => assumption : keeps.

Ltac gov_step := first [ apply keeps_get_proposal; intros ? ? | keeps_step ].

Lemma keeps_execute_proposal i : keeps IW (Governance.execute_proposal i).
Proof. unfold Governance.execute_proposal. repeat gov_step. Qed.

#[local] Hint Resolve keeps_execute_proposal : keeps.

Lemma keeps_next_proposal_id : keeps IW next_proposal_id.
Proof.
  unfold next_proposal_id. repeat keeps_step.
  eapply keeps_instance_set_frame; [typeclasses eauto | cbn; by rewrite Hctr].
Qed.

#[local] Hint Resolve keeps_next_proposal_id : keeps.

Lemma keeps_propose s a : wf_action a → keeps IW (Governance.propose s a).
Proof. intros Ha. unfold Governance.propose. repeat gov_step. Qed.

Lemma keeps_approve s i : keeps IW (Governance.approve s i).
Proof. unfold Governance.approve. repeat gov_step. Qed.

Lemma keeps_cancel s i : keeps IW (Governance.cancel s i).
Proof. unfold Governance.cancel. repeat gov_step. Qed.

#[local] Hint Resolve keeps_propose keeps_approve keeps_cancel : keeps.

(** An invariant that proposals can only affect through the actions they carry is
    preserved by the whole contract when the remaining calls preserve it. *)
Lemma governed_calls :
  (∀ call, match call with
           | CPropose _ _ | CApproveProposal _ _ | CExecuteProposal _ | CCancelProposal _ _ => True
           | _ => wf_call call → keeps I (exec call)
           end) →
  ∀ call, wf_call call → keeps IW (exec call).
Proof.
  intros Hrest call Hwf. specialize (Hrest call).
  destruct call; try (apply keeps_both; [by apply Hrest | frame_calls]);
    cbn [exec] in *; cbn in Hwf; repeat keeps_step.
Qed.

End Governed.

(** ** The fee rate *)

Lemma fee_rate_dispatch a : wf_action a → keeps fee_rate_ok (dispatch_action a).
Proof.
  destruct a; cbn [dispatch_action]; intros Hwf; try solve [solve_keeps].
  intros c w x w' HI Hm. minv. unfold fee_rate_ok, fee_rate_of. world_simpl.
  unfold wf_action, fits in Hwf. cbn in *. lia.
Qed.

Lemma fee_rate_initialize a r t s th tl g h :
  fits U32 r → keeps fee_rate_ok (initialize a r t s th tl g h).
Proof.
  intros Hr c w x w' HI Hm. unfold initialize, set_initial_version in Hm. minv.
  unfold fee_rate_ok, fee_rate_of. world_simpl. unfold fits in Hr. cbn in *. lia.
Qed.

Lemma fee_rate_calls call : wf_call call → keeps (both fee_rate_ok actions_wf) (exec call).
Proof.
  revert call. eapply governed_calls; [typeclasses eauto | done | done | apply fee_rate_dispatch |].
  intros call. destruct call; try done; intros Hwf; frame_calls.
  apply fee_rate_initialize, Hwf.
Qed.

(** ** The fee configuration *)

Lemma checked_total_bps_ok rs acc c w n w' :
  fold_each rs acc (λ total r,
    ok_or (checked_add U32 total (share_bps r)) ContractError.InvalidFeeConfig) c w = Ok n w' →
  n = acc + sum_of share_bps rs ∧ w' = w.
Proof.
  revert acc w. induction rs as [|r rs IH]; intros acc w Hm; cbn in Hm; [minv; cbn; split; [lia|done]|].
  minv. match goal with E : checked_add _ _ _ = Some _ |- _ => apply chk_Some in E as [-> _] end.
  match goal with E : fold_each _ _ _ _ _ = Ok _ _ |- _ => apply IH in E as [-> ->] end.
  cbn. unfold sum_of. split; [lia|done].
Qed.

Lemma plain_total_bps_ok rs acc c w n w' :
  overflow_checks = true →
  fold_each rs acc (λ total r, plain_op U32 (total + share_bps r)) c w = Ok n w' →
  n = acc + sum_of share_bps rs ∧ w' = w.
Proof.
  intros Hov. revert acc w.
  induction rs as [|r rs IH]; intros acc w Hm; cbn in Hm; [minv; cbn; split; [lia|done]|].
  minv.
  match goal with E : fold_each _ _ _ _ _ = Ok _ _ |- _ =>
    rewrite wrap_id in E by auto; apply IH in E as [-> ->] end.
  cbn. unfold sum_of. split; [lia|done].
Qed.

Lemma vlen_le {A} (l : list A) n : vlen l <= n → (length l <= Z.to_nat n)%nat.
Proof. unfold vlen. lia. Qed.

Lemma fee_config_dispatch a : wf_action a → keeps fee_config_ok (dispatch_action a).
Proof.
  destruct a; cbn [dispatch_action]; intros Hwf; try solve [solve_keeps].
  intros c w x w' HI Hm. unfold checked_total_bps in Hm. minv.
  match goal with E : fold_each _ _ _ _ _ = Ok _ _ |- _ => apply checked_total_bps_ok in E as [-> ->] end.
  intros f. world_simpl. intros [= <-]. destruct Hwf. split_and!; [done| |done].
  by apply (vlen_le _ 5).
Qed.

Lemma fee_config_set cfg :
  overflow_checks = true → wf_fee_config cfg → keeps fee_config_ok (set_fee_distribution_config cfg).
Proof.
  intros Hov Hwf c w x w' HI Hm. unfold set_fee_distribution_config, plain_total_bps in Hm. minv.
  match goal with E : fold_each _ _ _ _ _ = Ok _ _ |- _ =>
    apply plain_total_bps_ok in E as [-> ->]; [|done] end.
  intros f. world_simpl. intros [= <-]. destruct Hwf. split_and!; [done| |done].
  by apply (vlen_le _ 5).
Qed.

Lemma fee_config_calls call :
  overflow_checks = true → wf_call call → keeps (both fee_config_ok actions_wf) (exec call).
Proof.
  intros Hov. revert call.
  eapply governed_calls; [typeclasses eauto | done | done | apply fee_config_dispatch |].
  intros call. destruct call; try done; intros Hwf; frame_calls.
  by apply fee_config_set.
Qed.

Lemma fresh_actions_wf c w : fresh w → actions_wf c w.
Proof. intros (_ & Hp & _) i p. by rewrite Hp. Qed.

End Invariants.

Section Theorems.

Context {H : Host} {HOk : HostOk H}.

Lemma reachable_fee_rate me n w : reachable me n w → 0 <= fee_rate_of w <= 1000.
Proof.
  intros Hr. refine (proj1 (reachable_inv (both fee_rate_ok actions_wf) me n w _ _ _ _ Hr (mkCtx n me (λ _, false)))).
  - done.
  - intros c w0 Hf. split; [|by apply fresh_actions_wf]. destruct Hf as (Hi & _).
    unfold fee_rate_ok, fee_rate_of. rewrite Hi. cbn. lia.
  - apply fee_rate_calls.
  - done.
Qed.

(** In every reachable state of the contract the protocol fee rate is between 0
    and 1000 basis points (10%), whichever mix of initialization, governance and
    other calls led there. *)
Theorem fee_rate_capped me n w : reachable me n w → 0 <= fee_rate_of w <= 1000.
Proof. apply reachable_fee_rate. Qed.

(** With overflow checks compiled in, every fee configuration the contract ever
    stores has at most five recipients and shares that add up to exactly 10000 basis
    points, through the admin path and through governance alike. *)
Theorem fee_config_total me n w f :
  overflow_checks = true → reachable me n w →
  iget w StorageKey.FeeConfig = Some f → shares_ok f.
Proof.
  intros Hov Hr. refine (proj1 (reachable_inv (both fee_config_ok actions_wf) me n w _ _ _ _ Hr
                                  (mkCtx n me (λ _, false))) f).
  - done.
  - intros c w0 Hf. split; [|by apply fresh_actions_wf]. destruct Hf as (Hi & _).
    intros g. by rewrite Hi.
  - intros. by apply fee_config_calls.
  - done.
Qed.

End Theorems.

Lemma fee_rate_capped_witness :
  fee_rate_of (after multisig_calls) = 50 ∧ 0 <= fee_rate_of (after multisig_calls) <= 1000.
Proof.
  split; [by vm_compute|]. apply (fee_rate_capped router 304). eexists. apply multisig_history.
Defined.

Lemma fee_config_total_witness :
  iget (after swap_calls) StorageKey.FeeConfig = Some fees1 ∧ shares_ok fees1.
Proof.
  split; [by vm_compute|].
  apply (fee_config_total (H := refHost true) router 122 (after swap_calls)); [done| |by vm_compute].
  eexists. apply swap_history.
Defined.
