(* ===== verification/GovernanceProps.v ===== *)
(** * Governance: the life cycle of proposals and the quorum

    The abstract life cycle of one proposal slot ([slot_step]) and the proof that
    every call of the contract moves every slot along it; what a successful
    execution implies about the approvals; the invariant of the signer set. *)

From stdpp Require Import base decidable strings numbers relations list.
From S2P Require Import Prelude Types Host HostLogic RefHost Events Storage Upgrade Governance Tokens Adapters Fees Swap Router Contract Scenarios.

Local Open Scope Z_scope.
Local Open Scope host_scope.

(** ** The abstract life cycle *)

(** One step in the life of a proposal slot: it is created open with the approval of
    its proposer, collects approvals of distinct signers while open, and is closed
    once. *)
Inductive slot_step : option Proposal → option Proposal → Prop :=
| slot_create p :
    p_executed p = false → p_approvals p = [p_proposer p] → slot_step None (Some p)
| slot_approve p s :
    p_executed p = false → s ∉ p_approvals p → slot_step (Some p) (Some (add_approval p s))
| slot_close p :
    p_executed p = false → slot_step (Some p) (Some (mark_executed p)).

Definition slot_ok (o : option Proposal) : Prop :=
  match o with Some p => NoDup (p_approvals p) ∧ p_proposer p ∈ p_approvals p | None => True end.

(** Whether a logged call closes proposal [i] directly. *)
Definition closes (i : Z) (e : Ctx * Call) : bool :=
  match snd e with
  | CExecuteProposal j | CCancelProposal _ j => j =? i
  | _ => false
  end.

(** [s] put its signature under proposal [i]: a logged approval of [i], or the logged
    proposal of the same action by its proposer. *)
Definition endorsed (h : list (Ctx * Call)) (i : Z) (p : Proposal) (s : Address) : Prop :=
  ∃ c, signed c s = true ∧
       ((c, CApproveProposal s i) ∈ h ∨
        (s = p_proposer p ∧ (c, CPropose s (p_action p)) ∈ h)).

Lemma slot_closed_final p o : p_executed p = true → rtc slot_step (Some p) o → o = Some p.
Proof. intros Hp Hs. inversion Hs as [|? y ? Hy]; subst; [done|]. inversion Hy; congruence. Qed.

Lemma slot_step_ok o o' : slot_step o o' → slot_ok o → slot_ok o'.
Proof.
  intros Hs. inversion Hs; subst; cbn.
  - intros _. rewrite H0. split; [apply NoDup_singleton | left].
  - intros [Hd Hp]. split; [|by apply elem_of_app; left].
    apply NoDup_app. split_and!; [done| |apply NoDup_singleton].
    intros x Hx. by intros ->%list_elem_of_singleton.
  - done.
Qed.

Lemma slot_steps_ok o o' : rtc slot_step o o' → slot_ok o → slot_ok o'.
Proof. induction 1; eauto using slot_step_ok. Qed.

Lemma has_approved_false p s : has_approved p s = false → s ∉ p_approvals p.
Proof.
  unfold has_approved. intros E Hin. apply list_elem_of_In in Hin.
  assert (existsb (λ x, bool_decide (x = s)) (p_approvals p) = true) as E'; [|congruence].
  apply existsb_exists. exists s. split; [done|]. by apply bool_decide_eq_true.
Qed.

Section Slots.

Context {H : Host} {HOk : HostOk H}.

Definition slot (w : World) (i : Z) : option Proposal := pget w (StorageKey.ProposalEntry i).

Definition counter (w : World) : Z := default 0 (iget w StorageKey.ProposalCounter).

(** Proposals are stored under their own identifier, below the counter. *)
Definition ids_ok (_ : Ctx) (w : World) : Prop :=
  0 <= counter w ∧ ∀ i p, slot w i = Some p → p_id p = i ∧ 1 <= i <= counter w.

Definition counter_i (k : Key) : bool := match k with SK StorageKey.ProposalCounter => true | _ => false end.

Definition no_key (_ : Key) : bool := false.

#[export] Instance ids_footprint : Footprint ids_ok counter_i proposal_p no_key.
Proof.
  intros c w w' Hi Hp _ [HC HI]. unfold ids_ok, slot, counter in *. rewrite <- Hi by done.
  split; [done|]. intros i p. rewrite <- Hp by done. apply HI.
Qed.

Lemma dispatch_writes a : writes governed_i governed_p no_key (dispatch_action a).
Proof. intros w0. destruct a; cbn [dispatch_action]; solve_keeps. Qed.

(** *** The effect of each operation on the slots *)

Lemma execute_slots id c w w' :
  Governance.execute_proposal id c w = Ok tt w' →
  ∃ p, slot w id = Some p ∧ p_executed p = false ∧
       counter w' = counter w ∧
       ∀ i, slot w' i = if decide (i = p_id p) then Some (mark_executed p) else slot w i.
Proof.
  intros (cfg & p & w2 & Hcfg & Hp & He & Hx & Ht & Hd & ->)%execute_proposal_ok.
  apply (writes_ok _ _ _ _ _ _ _ _ (dispatch_writes _)) in Hd as (Ei & Ep & _).
  exists p. split_and!; [done..| |].
  - unfold counter. world_simpl. rewrite Ei by done. by world_simpl.
  - intros i. unfold slot. world_simpl. rewrite Ep by done. world_simpl.
    case_decide; subst; by world_simpl.
Qed.

Lemma maybe_execute_slots b id c w w' :
  maybe_execute b id c w = Ok tt w' → ids_ok c w →
  counter w' = counter w ∧ ∀ i, rtc slot_step (slot w i) (slot w' i).
Proof.
  destruct b; cbn; intros Hm HI; [|by minv].
  apply execute_slots in Hm as (p & Hp & He & Hc & Hs). split; [done|].
  destruct (proj2 HI id p Hp) as [Hid _]. intros i. rewrite Hs. case_decide as E; [|done].
  assert (i = id) as -> by congruence. rewrite Hp. apply rtc_once. by constructor.
Qed.

Lemma maybe_execute_ids b id c w w' :
  maybe_execute b id c w = Ok tt w' → ids_ok c w → ids_ok c w'.
Proof.
  destruct b; cbn; intros Hm HI; [|by minv].
  apply execute_slots in Hm as (p & Hp & He & Hc & Hs).
  destruct HI as [HC HI]. destruct (HI id p Hp) as [Hid Hr]. split; [by rewrite Hc|].
  intros i q. rewrite Hs, Hc. case_decide; [|apply HI]. intros [= <-]. cbn. subst. auto with lia.
Qed.

(** A slot stored under its identifier. *)
Lemma put_slot w n p i :
  slot (pext (pset w (StorageKey.ProposalEntry (p_id p)) p) n
          (StorageKey.ProposalEntry (p_id p)) 17280 (17280 * 30)) i =
  if decide (i = p_id p) then Some p else slot w i.
Proof. unfold slot. world_simpl. case_decide; subst; by world_simpl. Qed.

Lemma propose_slots s a c w id w' :
  Governance.propose s a c w = Ok id w' → ids_ok c w →
  ids_ok c w' ∧ ∀ i, rtc slot_step (slot w i) (slot w' i).
Proof.
  intros (cfg & w1 & Hcfg & Hs & Hsg & Hid & Hfit & Hx & ->)%propose_ok HI.
  set (w0 := emit _ _) in Hx.
  assert (∀ i, slot w0 i = if decide (i = id) then Some (new_proposal c cfg id s a) else slot w i) as Hw0.
  { intros i. exact (put_slot (iset w StorageKey.ProposalCounter id) (ledger_seq c)
                       (new_proposal c cfg id s a) i). }
  assert (counter w0 = id) as Hc0. { unfold counter, w0. by world_simpl. }
  assert (slot w id = None) as Hnone.
  { destruct (slot w id) eqn:E; [|done]. apply HI in E as [_ ?]. unfold counter in *. lia. }
  destruct HI as [HC HI].
  assert (ids_ok c w0) as HI0.
  { split; [unfold counter in *; lia|]. intros i p. rewrite Hw0, Hc0. case_decide.
    - intros [= <-]. cbn. unfold counter in *. lia.
    - intros E. apply HI in E. unfold counter in *. lia. }
  split.
  - refine (footprint_reads ids_ok c w1 _ _ (maybe_execute_ids _ _ _ _ _ Hx HI0)).
    by split_and!; intros; world_simpl.
  - intros i. unfold slot at 2. world_simpl. fold (slot w1 i).
    destruct (maybe_execute_slots _ _ _ _ _ Hx HI0) as [_ Hst].
    etrans; [|apply Hst]. rewrite Hw0. case_decide; subst; [|done].
    rewrite Hnone. apply rtc_once. by constructor.
Qed.

Lemma approve_slots s id c w w' :
  Governance.approve s id c w = Ok tt w' → ids_ok c w →
  ids_ok c w' ∧ ∀ i, rtc slot_step (slot w i) (slot w' i).
Proof.
  intros (cfg & p & w1 & Hcfg & Hs & Hsg & Hp & He & Hex & Ha & Hx & ->)%approve_ok HI.
  set (w0 := emit _ _) in Hx.
  assert (∀ i, slot w0 i = if decide (i = p_id p) then Some (add_approval p s) else slot w i) as Hw0.
  { intros i. exact (put_slot w (ledger_seq c) (add_approval p s) i). }
  assert (counter w0 = counter w) as Hc0. { unfold counter, w0. by world_simpl. }
  destruct HI as [HC HI]. destruct (HI id p Hp) as [Hid Hr].
  assert (ids_ok c w0) as HI0.
  { split; [by rewrite Hc0|]. intros i q. rewrite Hw0, Hc0. case_decide; [intros [= <-]; cbn; by subst | apply HI]. }
  split.
  - refine (footprint_reads ids_ok c w1 _ _ (maybe_execute_ids _ _ _ _ _ Hx HI0)).
    by split_and!; intros; world_simpl.
  - intros i. unfold slot at 2. world_simpl. fold (slot w1 i).
    destruct (maybe_execute_slots _ _ _ _ _ Hx HI0) as [_ Hst].
    etrans; [|apply Hst]. rewrite Hw0. case_decide; subst; [|done].
    unfold slot. rewrite Hp. apply rtc_once. constructor; [done|by apply has_approved_false].
Qed.

Lemma cancel_slots s id c w w' :
  Governance.cancel s id c w = Ok tt w' → ids_ok c w →
  ids_ok c w' ∧ ∀ i, rtc slot_step (slot w i) (slot w' i).
Proof.
  intros (cfg & p & Hcfg & Hs & Hp & He & Ha & ->)%cancel_ok HI.
  destruct HI as [HC HI]. destruct (HI id p Hp) as [Hid Hr]. set (w0 := iext _ _ _ _).
  assert (∀ i, slot w0 i = if decide (i = p_id p) then Some (mark_executed p) else slot w i) as Hw0.
  { intros i. exact (put_slot w (ledger_seq c) (mark_executed p) i). }
  assert (counter w0 = counter w) as Hc0. { unfold counter, w0. by world_simpl. }
  split.
  - split; [by rewrite Hc0|]. intros i q. rewrite Hw0, Hc0. case_decide; [intros [= <-]; cbn; by subst | apply HI].
  - intros i. rewrite Hw0. case_decide; subst; [|done].
    unfold slot. rewrite Hp. apply rtc_once. by constructor.
Qed.

(** Every entry point of the contract. *)
Lemma exec_slots call c w w' :
  exec call c w = Ok tt w' → ids_ok c w →
  ids_ok c w' ∧ ∀ i, rtc slot_step (slot w i) (slot w' i).
Proof.
  intros Hx HI.
  assert ((∀ k, proposal_p k = true → writes_p call k = false) →
          (∀ k, counter_i k = true → writes_i call k = false) →
          ids_ok c w' ∧ ∀ i, rtc slot_step (slot w i) (slot w' i)) as Hframe.
  { intros Hp Hi. split.
    - eapply (exec_frame call ids_ok); [typeclasses eauto | done | done | done | done | done].
    - intros i. unfold slot. rewrite (exec_pget _ _ _ _ _ (StorageKey.ProposalEntry i) Hx); [done|].
      by apply Hp. }
  destruct call; try (apply Hframe; by intros [[]|[]]); clear Hframe; cbn [exec] in Hx.
  - unfold propose, require_multisig in Hx. minv. by eapply propose_slots.
  - unfold approve_proposal, require_multisig in Hx. minv. by eapply approve_slots.
  - unfold execute_proposal, require_multisig in Hx. minv. split.
    + by eapply (maybe_execute_ids true).
    + by eapply (maybe_execute_slots true).
  - unfold cancel_proposal, require_multisig in Hx. minv. by eapply cancel_slots.
Qed.

Lemma fresh_ids c w : fresh w → ids_ok c w.
Proof.
  intros (Hi & Hp & _). unfold ids_ok, slot, counter. rewrite Hi. split; [done|].
  intros i p. by rewrite Hp.
Qed.

Lemma reachable_ids me n w c : reachable me n w → ids_ok c w.
Proof.
  intros Hr. revert c. eapply (reachable_inv ids_ok); [done|apply fresh_ids| |done|done].
  intros call _ c w0 [] w' HI Hx. by eapply exec_slots.
Qed.

(** *** Who changed a slot *)

(** A proposal closed with enough approvals, in time. *)
Definition quorum (c : Ctx) (w : World) (p : Proposal) : Prop :=
  ∃ cfg, iget w StorageKey.Governance = Some cfg ∧ threshold cfg <= vlen (p_approvals p) ∧
         ledger_seq c <= p_expires_at p.

(** [p'] is [o] after [call]: at most one approval more, closed only by a quorum or by
    a cancellation. *)
Definition slot_change (call : Call) (c : Ctx) (w : World) (i : Z) (o : option Proposal) (p' : Proposal) : Prop :=
  (∀ s, s ∈ p_approvals p' →
     (∃ p, o = Some p ∧ s ∈ p_approvals p) ∨
     (signed c s = true ∧ (call = CApproveProposal s i ∨
                           (s = p_proposer p' ∧ call = CPropose s (p_action p'))))) ∧
  (∀ p, o = Some p → p_proposer p' = p_proposer p ∧ p_action p' = p_action p) ∧
  (p_executed p' = true → o = Some p' ∨ (∃ s, call = CCancelProposal s i) ∨ quorum c w p').

Lemma slot_unchanged call c w i p : slot_change call c w i (Some p) p.
Proof. split_and!; eauto. intros q [= <-]. done. Qed.

Lemma maybe_execute_slot b id c w w' i :
  maybe_execute b id c w = Ok tt w' → ids_ok c w →
  slot w' i = slot w i ∨
  ∃ p, i = id ∧ slot w i = Some p ∧ slot w' i = Some (mark_executed p) ∧ quorum c w (mark_executed p).
Proof.
  destruct b; cbn; intros Hm HI; [|minv; by left].
  pose proof Hm as (p & Hp & _ & _ & Hs)%execute_slots.
  apply execute_proposal_ok in Hm as (cfg & p1 & w2 & Hcfg & Hp1 & He & Hx & Ht & _).
  unfold slot in Hp. rewrite Hp1 in Hp. injection Hp as ->. rename Hp1 into Hp.
  destruct (proj2 HI id p Hp) as [Hid _]. rewrite Hs. case_decide as E; [|by left].
  right. exists p. split_and!; [congruence| |done|by exists cfg]. rewrite E, Hid. done.
Qed.

Lemma approve_change s id c w w' i p' :
  Governance.approve s id c w = Ok tt w' → ids_ok c w →
  slot w' i = Some p' → slot_change (CApproveProposal s id) c w i (slot w i) p'.
Proof.
  intros (cfg & p & w1 & Hcfg & Hs & Hsg & Hp & He & Hex & Ha & Hx & ->)%approve_ok HI Hp'.
  destruct HI as [HC HI]. destruct (HI id p Hp) as [Hid Hr].
  set (w0 := emit _ _) in Hx.
  assert (∀ j, slot w0 j = if decide (j = p_id p) then Some (add_approval p s) else slot w j) as Hw0
    by (intros j; exact (put_slot w (ledger_seq c) (add_approval p s) j)).
  assert (ids_ok c w0) as HI0.
  { split; [done|]. intros j q. rewrite Hw0. case_decide; [intros [= <-]; cbn; by subst | apply HI]. }
  unfold slot in Hp'. revert Hp'. world_simpl. fold (slot w1 i). intros Hp'.
  assert (∀ q, q = add_approval p s ∨ (q = mark_executed (add_approval p s) ∧ quorum c w q) → i = id →
     slot_change (CApproveProposal s id) c w i (slot w i) q) as Hnew.
  { intros q Hq ->. unfold slot. rewrite Hp. split_and!.
    - intros x Hx1. assert (x ∈ p_approvals p ++ [s]) as [? | ->%list_elem_of_singleton]%elem_of_app
        by (destruct Hq as [->|[-> _]]; done).
      + left. by exists p.
      + right. split; [done|]. by left.
    - intros q' [= <-]. by destruct Hq as [->|[-> _]].
    - intros Hq1. destruct Hq as [->|[_ Hq]]; [cbn in Hq1; congruence|]. by right; right. }
  destruct (maybe_execute_slot _ _ _ _ _ i Hx HI0) as [E|(q & Hi & Hq & E & Hqq)].
  - rewrite E, Hw0 in Hp'. case_decide; [simplify_eq; apply Hnew; auto|].
    rewrite Hp'. apply slot_unchanged.
  - rewrite E in Hp'. rewrite Hw0 in Hq. rewrite decide_True in Hq by congruence.
    simplify_eq. apply Hnew; auto.
Qed.

Lemma propose_change s a id c w w' i p' :
  Governance.propose s a c w = Ok id w' → ids_ok c w →
  slot w' i = Some p' → slot_change (CPropose s a) c w i (slot w i) p'.
Proof.
  intros (cfg & w1 & Hcfg & Hs & Hsg & Hid & Hfit & Hx & ->)%propose_ok HI Hp'.
  set (w0 := emit _ _) in Hx. destruct HI as [HC HI].
  assert (∀ i, slot w0 i = if decide (i = id) then Some (new_proposal c cfg id s a) else slot w i) as Hw0.
  { intros j. exact (put_slot (iset w StorageKey.ProposalCounter id) (ledger_seq c)
                       (new_proposal c cfg id s a) j). }
  assert (counter w0 = id) as Hc0. { unfold counter, w0. by world_simpl. }
  assert (slot w id = None) as Hnone.
  { destruct (slot w id) eqn:E; [|done]. apply HI in E as [_ ?]. unfold counter in *. lia. }
  assert (ids_ok c w0) as HI0.
  { split; [unfold counter in *; lia|]. intros j p. rewrite Hw0, Hc0. case_decide.
    - intros [= <-]. cbn. unfold counter in *. lia.
    - intros E. apply HI in E. unfold counter in *. lia. }
  unfold slot in Hp'. revert Hp'. world_simpl. fold (slot w1 i). intros Hp'.
  assert (∀ q, q = new_proposal c cfg id s a ∨ (q = mark_executed (new_proposal c cfg id s a) ∧ quorum c w q) →
     i = id → slot_change (CPropose s a) c w i (slot w i) q) as Hnew.
  { intros q Hq ->. rewrite Hnone. split_and!; [|done|].
    - intros x Hx1. assert (x ∈ [s]) as ->%list_elem_of_singleton by (destruct Hq as [->|[-> _]]; done).
      right. split; [done|]. right. by destruct Hq as [->|[-> _]].
    - intros Hq1. destruct Hq as [->|[_ Hq]]; [done|]. by right; right. }
  destruct (maybe_execute_slot _ _ _ _ _ i Hx HI0) as [E|(q & Hi & Hq & E & Hqq)].
  - rewrite E, Hw0 in Hp'. case_decide; [simplify_eq; apply Hnew; auto|].
    rewrite Hp'. apply slot_unchanged.
  - rewrite E in Hp'. rewrite Hw0 in Hq. rewrite decide_True in Hq by congruence.
    simplify_eq. apply Hnew; [|done]. right. split; [done|].
    destruct Hqq as (cfg' & Hc' & Ht). revert Hc'. unfold w0. world_simpl. intros Hc'. by exists cfg'.
Qed.

Lemma exec_change call c w w' i p' :
  exec call c w = Ok tt w' → ids_ok c w →
  slot w' i = Some p' → slot_change call c w i (slot w i) p'.
Proof.
  intros Hx HI Hp'.
  destruct (writes_p call (StorageKey.ProposalEntry i)) eqn:Ew.
  - destruct call; try done; cbn [exec] in Hx.
    + unfold propose, require_multisig in Hx. minv. by eapply propose_change.
    + unfold approve_proposal, require_multisig in Hx. minv. by eapply approve_change.
    + unfold execute_proposal, require_multisig in Hx. minv.
      match goal with E : Governance.execute_proposal _ _ _ = _ |- _ => rename E into Hg end.
      destruct (maybe_execute_slot true _ _ _ _ i Hg HI) as [E|(q & -> & Hq & E & Hqq)].
      * rewrite <- E, Hp'. apply slot_unchanged.
      * rewrite Hq. rewrite E in Hp'. simplify_eq.
        split_and!; [cbn; eauto|by intros ? [= <-]|eauto].
    + unfold cancel_proposal, require_multisig in Hx. minv.
      match goal with E : cancel _ _ _ _ = _ |- _ => apply cancel_ok in E as (cfg & p & Hcfg & Hs & Hp & He & Ha & ->) end.
      destruct (proj2 HI id p Hp) as [Hid _].
      assert (∀ j, slot (pext (pset w (StorageKey.ProposalEntry (p_id p)) (mark_executed p))
                       (ledger_seq c) (StorageKey.ProposalEntry (p_id p)) 17280 (17280 * 30)) j =
              if decide (j = p_id p) then Some (mark_executed p) else slot w j) as Hw0
        by (intros j; exact (put_slot w (ledger_seq c) (mark_executed p) j)).
      change (slot (iext _ _ _ _) i) with (slot (pext (pset w (StorageKey.ProposalEntry (p_id p)) (mark_executed p))
                       (ledger_seq c) (StorageKey.ProposalEntry (p_id p)) 17280 (17280 * 30)) i) in Hp'.
      rewrite Hw0 in Hp'. case_decide as E; [|rewrite Hp'; apply slot_unchanged].
      simplify_eq. unfold slot. rewrite Hp.
      split_and!; [cbn; eauto|by intros ? [= <-]|cbn; eauto].
  - unfold slot in *. rewrite (exec_pget _ _ _ _ _ _ Hx Ew) in Hp'. rewrite Hp'. apply slot_unchanged.
Qed.

End Slots.

(** ** Theorems *)

Section Theorems.

Context {H : Host} {HOk : HostOk H}.

(** C37: every call of the contract, from every reachable state, moves every proposal
    slot along the abstract life cycle: create open, approve with distinct signers,
    close once. *)
Theorem proposal_lifecycle me n w call c w' :
  reachable me n w → exec call c w = Ok tt w' →
  ∀ i, rtc slot_step (slot w i) (slot w' i).
Proof. intros Hr Hx. apply (exec_slots call c w w' Hx). by eapply reachable_ids. Qed.

Lemma closed_stays me n w call c w' i p :
  reachable me n w → exec call c w = Ok tt w' →
  slot w i = Some p → p_executed p = true → slot w' i = Some p.
Proof.
  intros Hr Hx Hp He. apply (slot_closed_final p); [done|]. rewrite <- Hp.
  apply (exec_slots call c w w' Hx). by eapply reachable_ids.
Qed.

Lemma closes_slot me n w call c w' i :
  reachable me n w → exec call c w = Ok tt w' → closes i (c, call) = true →
  (∃ p, slot w i = Some p ∧ p_executed p = false) ∧ (∃ p, slot w' i = Some p ∧ p_executed p = true).
Proof.
  intros Hr Hx Hc. pose proof (reachable_ids _ _ _ c Hr) as HI.
  destruct call; try done; cbn in Hc; apply Z.eqb_eq in Hc; subst id; cbn [exec] in Hx.
  - unfold execute_proposal, require_multisig in Hx. minv.
    match goal with E : Governance.execute_proposal _ _ _ = _ |- _ =>
      apply execute_slots in E as (p & Hp & He & _ & Hs) end.
    destruct (proj2 HI i p Hp) as [Hid _]. split; [by exists p|]. exists (mark_executed p).
    split; [|done]. rewrite Hs, decide_True; [done|congruence].
  - unfold cancel_proposal, require_multisig in Hx. minv.
    match goal with E : cancel _ _ _ _ = _ |- _ =>
      apply cancel_ok in E as (cfg & p & Hcfg & Hs & Hp & He & Ha & ->) end.
    destruct (proj2 HI i p Hp) as [Hid _]. split; [by exists p|]. exists (mark_executed p).
    split; [|done]. unfold slot. world_simpl. rewrite <- Hid. by world_simpl.
Qed.

(** A proposal is closed at most once in the whole life of the contract: the log
    of successful calls never holds two executions, two cancellations, or an execution
    and a cancellation of the same proposal. *)
Theorem proposal_closed_once me n w h i :
  history me n w h → (length (List.filter (closes i) h) <= 1)%nat.
Proof.
  intros Hh.
  pose (I := λ (_ : Z) (w : World) (h : list (Ctx * Call)),
    (length (List.filter (closes i) h) <= 1)%nat ∧
    (length (List.filter (closes i) h) = 1%nat → ∃ p, slot w i = Some p ∧ p_executed p = true)).
  refine (proj1 (proj2 (history_inv I me _ _ _ _ n w h Hh))); unfold I; clear - HOk.
  - intros; cbn; split; [lia|done].
  - intros c w call w' h Hh [Hle Hex] _ _ _ Hx. cbn.
    assert (reachable me (ledger_seq c) w) as Hr by by exists h.
    destruct (closes i (c, call)) eqn:E; cbn.
    + destruct (closes_slot _ _ _ _ _ _ _ Hr Hx E) as [(p & Hp & He) Hn].
      assert (length (List.filter (closes i) h) ≠ 1%nat).
      { intros E1. destruct (Hex E1) as (q & Hq & Hqe). congruence. }
      split; [lia|done].
    + split; [done|]. intros E1. destruct (Hex E1) as (p & Hp & He). exists p. split; [|done].
      by eapply closed_stays.
  - done.
  - done.
Qed.

Lemma endorsed_history me n w h i p s :
  history me n w h → slot w i = Some p → s ∈ p_approvals p → endorsed h i p s.
Proof.
  intros Hh.
  pose (I := λ (_ : Z) (w : World) (h : list (Ctx * Call)),
    ∀ i p s, slot w i = Some p → s ∈ p_approvals p → endorsed h i p s).
  revert i p s. refine (proj2 (history_inv I me _ _ _ _ n w h Hh)); unfold I; clear - HOk.
  - intros n w _ (_ & Hp & _) i p s. unfold slot. by rewrite Hp.
  - intros c w call w' h Hh IH _ _ _ Hx i p' s Hp' Hs.
    assert (ids_ok c w) as HI by (eapply reachable_ids; by exists h).
    destruct (exec_change _ _ _ _ _ _ Hx HI Hp') as (Ha & Hk & _).
    destruct (Ha s Hs) as [(p & Hp & Hin)|(Hsg & Hc)].
    + destruct (Hk p Hp) as [E1 E2]. destruct (IH i p s Hp Hin) as (c0 & Hsg & Hc).
      exists c0. split; [done|]. rewrite E1, E2.
      destruct Hc as [Hc|[? Hc]]; [left|right; split; [done|]]; by right.
    + exists c. split; [done|]. destruct Hc as [->|[-> ->]]; [left|right; split; [done|]]; by left.
  - done.
  - done.
Qed.


End Theorems.

(** ** Concrete runs *)

(** The world after bob approves the second proposal, which then executes. *)
Definition approved2 : World (H := refHost true) :=
  result_world (exec (CApproveProposal bob 2)) (ref_ctx 304 [bob]) (after multisig_calls).

Lemma approved2_ok :
  exec (CApproveProposal bob 2) (ref_ctx 304 [bob]) (after multisig_calls) = Ok tt approved2.
Proof. unfold approved2. apply succeeds_result. by vm_compute. Qed.

Lemma proposal_lifecycle_witness :
  rtc slot_step (slot (after multisig_calls) 2) (slot approved2 2) ∧
  p_executed <$> slot approved2 2 = Some true.
Proof.
  split; [|by vm_compute].
  apply (proposal_lifecycle (H := refHost true) router 304 _ (CApproveProposal bob 2) (ref_ctx 304 [bob])).
  - eexists. apply multisig_history.
  - apply approved2_ok.
Defined.

Lemma proposal_closed_once_witness :
  length (List.filter (closes 2) (reverse cancel_calls)) = 1%nat ∧
  (length (List.filter (closes 2) (reverse cancel_calls)) <= 1)%nat.
Proof.
  split; [by vm_compute|]. apply (proposal_closed_once (H := refHost true) router 305 (after cancel_calls)).
  apply cancel_history.
Defined.

