(* ===== verification/UpgradeProps.v ===== *)
(** * Upgrades: the time lock and the version history

    What the history of a contract says about upgrades in single-admin mode, and
    the invariant on versions that keeps the migration hook from ever blocking an
    upgrade. *)

From stdpp Require Import base decidable strings numbers list.
From S2P Require Import Prelude Types Host HostLogic RefHost Events Storage Upgrade Governance Tokens Adapters Fees Swap Router Contract Scenarios GovernanceProps.

Local Open Scope Z_scope.
Local Open Scope host_scope.

Section Timelock.

Context {H : Host} {HOk : HostOk H}.

(** What [get_version] returns. *)
Definition version (w : World) : ContractVersion :=
  default (mkContractVersion 1 0 0 zero_hash 0) (iget w StorageKey.ContractVersionKey).

(** A pending upgrade comes from a logged, signed proposal and is locked for the
    minimum delay from its ledger on. *)
Definition pending_ok (n : Z) (w : World) (h : list (Ctx * Call)) : Prop :=
  ∀ p, iget w StorageKey.PendingUpgradeKey = Some p →
  ∃ c e, (c, CProposeUpgrade (proposer p) (new_wasm_hash p) e) ∈ h ∧
         signed c (proposer p) = true ∧ ledger_seq c = proposed_at p ∧
         proposed_at p + MIN_DELAY_LEDGERS <= execute_after p.

Lemma propose_upgrade_ok a hash e c w w' :
  fits U32 (ledger_seq c) →
  propose_upgrade a hash e c w = Ok tt w' →
  signed c a = true ∧
  ∃ p, iget w' StorageKey.PendingUpgradeKey = Some p ∧ proposer p = a ∧ new_wasm_hash p = hash ∧
       proposed_at p = ledger_seq c ∧ ledger_seq c + MIN_DELAY_LEDGERS <= execute_after p.
Proof.
  intros Hn Hm. unfold propose_upgrade, get_version in Hm. minv. split; [done|].
  eexists; split; [by world_simpl|]. cbn. split_and!; try done.
  rewrite wrap_id by (unfold fits, MIN_DELAY_LEDGERS in *; cbn in *; lia).
  case_match; bools; lia.
Qed.

Lemma pending_history me n w h : history me n w h → pending_ok n w h.
Proof.
  intros Hh. refine (proj2 (history_inv pending_ok me _ _ _ _ n w h Hh)).
  - intros n0 w0 _ (Hi & _) p. by rewrite Hi.
  - intros c w0 call w' h0 _ HI _ Hwf Hn Hx p Hp.
    destruct (writes_i call StorageKey.PendingUpgradeKey) eqn:E.
    + destruct call; try done; cbn [exec] in Hx.
      * apply propose_upgrade_ok in Hx as (Hs & q & Hq & Ha & Hh' & Hat & Hd); [|done].
        simplify_eq. eexists c, _. split_and!; [left|congruence..].
      * exfalso. revert Hp. unfold execute_upgrade, execute_wasm_upgrade, migrate, get_version in Hx.
        minv. by world_simpl.
      * exfalso. revert Hp. unfold cancel_upgrade in Hx. minv. by world_simpl.
    + rewrite (exec_iget _ _ _ _ _ _ Hx E) in Hp. destruct (HI p Hp) as (c0 & e & Hin & ?).
      exists c0, e. split; [by right|done].
  - done.
  - done.
Qed.

(** C8: the admin's upgrade replaces the code only if the same hash was proposed, under the
    proposer's signature, at least [MIN_DELAY_LEDGERS] (4320) ledgers before, and only
    under the current admin's signature while the contract is not paused; the upgrade
    consumes the proposal, the contract runs the proposed code, and the stored version
    names its hash and the current ledger, with the major and minor numbers as before and
    the patch number increased by one (modulo 2^32). *)
Theorem upgrade_timelock me c w h a w' :
  history me (ledger_seq c) w h → execute_upgrade a c w = Ok tt w' →
  ∃ c0 p e, iget w StorageKey.PendingUpgradeKey = Some p ∧
    (c0, CProposeUpgrade (proposer p) (new_wasm_hash p) e) ∈ h ∧
    signed c0 (proposer p) = true ∧
    ledger_seq c0 + MIN_DELAY_LEDGERS <= ledger_seq c ∧
    signed c a = true ∧ iget w StorageKey.Admin = Some a ∧
    default false (iget w StorageKey.Paused) = false ∧
    iget w' StorageKey.PendingUpgradeKey = None ∧
    w_wasm w' = new_wasm_hash p ∧
    iget w' StorageKey.ContractVersionKey =
      Some (mkContractVersion (major (version w)) (minor (version w))
              ((patch (version w) + 1) mod 2 ^ 32) (new_wasm_hash p) (ledger_seq c)).
Proof.
  intros Hh Hm. pose proof (pending_history _ _ _ _ Hh) as HP.
  unfold execute_upgrade, execute_wasm_upgrade, migrate, get_version in Hm. minv.
  match goal with E : iget w (SK StorageKey.PendingUpgradeKey) = Some ?p |- _ =>
    destruct (HP p E) as (c0 & e & Hin & Hs & Hat & Hd); exists c0, p, e end.
  split_and!; try done; try (world_simpl; done); subst; try done; [lia|].
  world_simpl. fold (version w). f_equal. f_equal. unfold wrap. cbn [int_min int_max]. by rewrite Z.sub_0_r, Z.add_0_r.
Qed.

End Timelock.

Lemma upgrade_timelock_witness :
  ∃ w', execute_upgrade (H := refHost true) admin (ref_ctx 4520 [admin]) (after upgrade_calls) = Ok tt w' ∧
        w_wasm w' = hash1.
Proof.
  destruct (succeeds_ok (execute_upgrade (H := refHost true) admin) (ref_ctx 4520 [admin])
              (after upgrade_calls) ltac:(by vm_compute)) as ([] & w' & Hx).
  exists w'. split; [done|].
  destruct (upgrade_timelock (H := refHost true) router (ref_ctx 4520 [admin]) (after upgrade_calls)
    (reverse upgrade_calls) admin w'
    (history_ledger _ 200 4520 _ _ upgrade_history ltac:(lia) ltac:(unfold fits; cbn; lia)) Hx)
    as (c0 & p & e & Hp & _ & _ & _ & _ & _ & _ & _ & Hw & _).
  assert (new_wasm_hash <$> iget (after upgrade_calls) StorageKey.PendingUpgradeKey = Some hash1) as E
    by (by vm_compute).
  rewrite Hp in E. rewrite Hw. by injection E.
Defined.

(** ** Versions and migrations *)

Section Versions.

Context {H : Host} {HOk : HostOk H}.

Definition migrated (w : World) (v : Z * Z * Z) : Prop :=
  is_Some (pget w (StorageKey.MigrationDone (fst (fst v)) (snd (fst v)) (snd v))).

Definition triple (v : ContractVersion) : Z * Z * Z := (major v, minor v, patch v).

Definition same_version (w w' : World) : Prop :=
  iget w' StorageKey.ContractVersionKey = iget w StorageKey.ContractVersionKey ∧
  ∀ v, migrated w' v ↔ migrated w v.

(** The patch number grows by one and the new version is recorded as migrated. *)
Definition bumped (w w' : World) : Prop :=
  is_Some (iget w' StorageKey.ContractVersionKey) ∧
  triple (version w') = (major (version w), minor (version w), wrap U32 (patch (version w) + 1)) ∧
  ∀ v, migrated w' v ↔ v = triple (version w') ∨ migrated w v.

Lemma same_version_refl w : same_version w w.
Proof. by split. Qed.

Lemma same_version_trans w1 w2 w3 : same_version w1 w2 → same_version w2 w3 → same_version w1 w3.
Proof. intros [E1 M1] [E2 M2]. split; [congruence|]. intros v. by rewrite M2. Qed.

Lemma same_version_bumped w1 w2 w3 : same_version w1 w2 → bumped w2 w3 → bumped w1 w3.
Proof.
  intros [E1 M1] (Hs & Ht & M2). unfold bumped, version in *. rewrite E1 in Ht.
  split_and!; [done|done|]. intros v. by rewrite M2, M1.
Qed.

Lemma bumped_same_version w1 w2 w3 : bumped w1 w2 → same_version w2 w3 → bumped w1 w3.
Proof.
  intros (Hs & Ht & M1) [E2 M2]. unfold bumped, version in *. rewrite E2.
  split_and!; [done|done|]. intros v. by rewrite M2, M1.
Qed.

Lemma execute_wasm_upgrade_bumps hash c w w' :
  execute_wasm_upgrade hash c w = Ok tt w' → bumped w w'.
Proof.
  intros Hm. unfold execute_wasm_upgrade, migrate, get_version in Hm. minv.
  unfold bumped, version, triple. split_and!; [by world_simpl|by world_simpl|].
  intros [[a b] p]. unfold migrated. cbn. world_simpl. cbn.
  match goal with |- context [StorageKey.MigrationDone ?x ?y ?z] =>
    destruct (decide ((a, b, p) = (x, y, z))) as [E|E] end.
  - injection E as -> -> ->. world_simpl. split; [by left|done].
  - rewrite pget_pset_ne by (intros E'; apply E; by injection E' as -> -> ->). world_simpl. naive_solver.
Qed.

Definition version_as (w0 : World) (_ : Ctx) (w : World) : Prop := same_version w0 w.

Definition version_i (k : Key) : bool :=
  match k with SK StorageKey.ContractVersionKey => true | _ => false end.

Definition migration_p (k : Key) : bool :=
  match k with SK (StorageKey.MigrationDone _ _ _) => true | _ => false end.

#[export] Instance version_as_footprint w0 : Footprint (version_as w0) version_i migration_p no_key.
Proof.
  intros c w w' Hi Hp _ [E M]. unfold version_as, same_version, migrated in *.
  split; [by rewrite <- Hi|]. intros v. by rewrite <- Hp, M.
Qed.

Lemma keeps_version {A} (m : M A) c w a w' :
  (∀ w0, keeps (version_as w0) m) → m c w = Ok a w' → same_version w w'.
Proof. intros Hk Hm. exact (Hk w c w a w' (same_version_refl w) Hm). Qed.

Definition version_call (w w' : World) : Prop := same_version w w' ∨ bumped w w'.

Lemma version_call_before w1 w2 w3 : same_version w1 w2 → version_call w2 w3 → version_call w1 w3.
Proof. intros E [?|?]; [left; by eapply same_version_trans | right; by eapply same_version_bumped]. Qed.

Lemma version_call_after w1 w2 w3 : version_call w1 w2 → same_version w2 w3 → version_call w1 w3.
Proof. intros [?|?] E; [left; by eapply same_version_trans | right; by eapply bumped_same_version]. Qed.

Lemma dispatch_version a c w w' : dispatch_action a c w = Ok tt w' → version_call w w'.
Proof.
  intros Hm. destruct a; cbn [dispatch_action] in Hm;
    try solve [left; refine (keeps_version _ _ _ _ _ _ Hm); intros w0; solve_keeps].
  right. by eapply execute_wasm_upgrade_bumps.
Qed.

Ltac solve_same_version :=
  split; [by world_simpl | intros [[? ?] ?]; unfold migrated; cbn; by world_simpl].

Lemma maybe_execute_version b id c w w' : maybe_execute b id c w = Ok tt w' → version_call w w'.
Proof.
  destruct b; cbn; intros Hm; [|minv; left; apply same_version_refl].
  apply execute_proposal_ok in Hm as (cfg & p & w2 & _ & _ & _ & _ & _ & Hd & ->).
  eapply version_call_after; [eapply version_call_before; [|by eapply dispatch_version]|];
    solve_same_version.
Qed.

(** Whether the call may change the version. *)
Lemma exec_version call c w w' :
  exec call c w = Ok tt w' →
  is_initialize call = false → version_call w w'.
Proof.
  intros Hx Hni.
  destruct call; try done; clear Hni;
    try solve [left; refine (keeps_version _ _ _ _ _ _ Hx); intros w0; frame_calls]; cbn [exec] in Hx.
  - unfold propose, require_multisig in Hx. minv.
    match goal with E : Governance.propose _ _ _ _ = _ |- _ =>
      apply propose_ok in E as (cfg & w1 & _ & _ & _ & _ & _ & Hg & ->) end.
    eapply version_call_after; [eapply version_call_before; [|by eapply maybe_execute_version]|];
      solve_same_version.
  - unfold approve_proposal, require_multisig in Hx. minv.
    match goal with E : Governance.approve _ _ _ _ = _ |- _ =>
      apply approve_ok in E as (cfg & p & w1 & _ & _ & _ & _ & _ & _ & _ & Hg & ->) end.
    eapply version_call_after; [eapply version_call_before; [|by eapply maybe_execute_version]|];
      solve_same_version.
  - unfold execute_proposal, require_multisig in Hx. minv. by eapply (maybe_execute_version true).
  - unfold execute_upgrade in Hx.
    repeat match goal with
    | E : execute_wasm_upgrade _ _ _ = Ok _ _ |- _ => apply execute_wasm_upgrade_bumps in E
    | _ => minv_step; subst
    end.
    right. eapply same_version_bumped; [|eapply bumped_same_version; [done|]]; solve_same_version.
Qed.

(** *** Before initialization *)

Definition uninitialized (w : World) : Prop := iget w StorageKey.Admin = None.

(** An uninitialized contract is in single-admin mode and has no version. *)
Definition blank (w : World) : Prop :=
  default false (iget w StorageKey.IsMultiSig) = false ∧
  iget w StorageKey.ContractVersionKey = None ∧ ∀ v, ¬ migrated w v.

(** The calls that need an administrator or multi-sig mode fail on a blank contract. *)
Lemma blank_call call c w w' :
  exec call c w = Ok tt w' → uninitialized w → blank w →
  is_initialize call = false → blank w' ∧ uninitialized w'.
Proof.
  intros Hx Ha (Hms & Hv & Hm) Hni. unfold uninitialized in *.
  assert (writes_i call StorageKey.Admin = false ∧ writes_i call StorageKey.IsMultiSig = false ∧
          writes_i call StorageKey.ContractVersionKey = false) as (E1 & E2 & E3).
  { destruct call; try done; exfalso; cbn [exec] in Hx.
    - unfold migrate_to_multisig in Hx. minv. congruence.
    - unfold Router.set_admin in Hx. minv. congruence.
    - unfold propose, require_multisig in Hx. minv. congruence.
    - unfold approve_proposal, require_multisig in Hx. minv. congruence.
    - unfold execute_proposal, require_multisig in Hx. minv. congruence.
    - unfold execute_upgrade in Hx. minv. congruence. }
  rewrite (exec_iget _ _ _ _ _ _ Hx E1). split; [|done].
  unfold blank. rewrite (exec_iget _ _ _ _ _ _ Hx E2), (exec_iget _ _ _ _ _ _ Hx E3).
  split_and!; [done..|]. intros v Hv'. apply (Hm v).
  destruct (exec_version _ _ _ _ Hx Hni) as [[_ Hs]|(Hs & _)]; [by apply Hs|].
  rewrite (exec_iget _ _ _ _ _ _ Hx E3), Hv in Hs. by destruct Hs.
Qed.

Lemma admin_stays call c w w' :
  exec call c w = Ok tt w' → is_Some (iget w StorageKey.Admin) → is_Some (iget w' StorageKey.Admin).
Proof.
  intros Hx Ha. destruct (writes_i call StorageKey.Admin) eqn:E.
  - destruct call; try done; cbn [exec] in Hx.
    + unfold initialize, set_initial_version in Hx. minv. by world_simpl.
    + unfold Router.set_admin in Hx. minv. by world_simpl.
  - by rewrite (exec_iget _ _ _ _ _ _ Hx E).
Qed.

(** *** The invariant *)

Definition version_inv (_ : Z) (w : World) (h : list (Ctx * Call)) : Prop :=
  (uninitialized w → blank w) ∧
  (Z.of_nat (length h) < 2 ^ 32 →
   major (version w) = 1 ∧ minor (version w) = 0 ∧ 0 <= patch (version w) <= Z.of_nat (length h) ∧
   ∀ a b p, migrated w (a, b, p) → a = 1 ∧ b = 0 ∧ 1 <= p <= patch (version w)).

Lemma initialize_version a r t s th tl g h0 c w w' n h :
  initialize a r t s th tl g h0 c w = Ok tt w' → version_inv n w h →
  version_inv n w' ((c, CInitialize a r t s th tl g h0) :: h).
Proof.
  intros Hm [Hb _]. unfold initialize, set_initial_version in Hm. minv.
  match goal with E : ¬ is_Some (iget w _) |- _ => apply eq_None_not_Some in E; rename E into Ha end.
  destruct (Hb Ha) as (_ & _ & Hmig). split.
  - unfold uninitialized. by world_simpl.
  - intros _. unfold version. world_simpl. cbn. split_and!; [done|done|lia|lia|].
    intros x y z Hz. exfalso. apply (Hmig (x, y, z)). revert Hz. unfold migrated. cbn. by world_simpl.
Qed.

Lemma version_history me n w h : history me n w h → version_inv n w h.
Proof.
  intros Hh. refine (proj2 (history_inv version_inv me _ _ _ _ n w h Hh)).
  - intros n0 w0 _ (Hi & Hp & _). unfold version_inv, blank, version, migrated. rewrite !Hi.
    split; [intros _; split_and!; [done..|]; intros v; rewrite Hp; by intros []|].
    intros _. cbn. split_and!; [lia..|]. intros a b p. rewrite Hp. by intros [].
  - intros c w0 call w' h0 _ [Hb Hv] _ _ _ Hx.
    destruct (is_initialize call) eqn:Hni.
    { destruct call; try done. by eapply initialize_version. }
    split.
    + intros Hu. destruct (iget w0 StorageKey.Admin) eqn:Ea.
      * destruct (admin_stays _ _ _ _ Hx ltac:(by rewrite Ea)) as [x Hx']. unfold uninitialized in Hu. congruence.
      * by apply (blank_call call c w0 w' Hx Ea (Hb Ea)).
    + cbn [length]. rewrite Nat2Z.inj_succ. intros Hl. destruct Hv as (V1 & V2 & V3 & V4); [lia|].
      destruct (exec_version _ _ _ _ Hx Hni) as [[E M]|(Hs & E & M)].
      * unfold version in *. rewrite E. split_and!; [done..|lia|lia|].
        intros a b p. rewrite M. apply V4.
      * unfold triple in E. injection E as E1 E2 E3.
        rewrite wrap_id in E3 by (unfold fits; cbn; lia).
        split_and!; [congruence|congruence|lia|lia|]. intros a b p. rewrite M. unfold triple.
        intros [[= -> -> ->]|Hm]; [rewrite E1, E2; lia|]. apply V4 in Hm. lia.
  - done.
  - done.
Qed.

(** The once-per-version migration hook never stands in the way of an upgrade: in
    every state with fewer than 2^32 successful calls behind it, [execute_wasm_upgrade]
    does not fail with [MigrationAlreadyDone], and when it succeeds the version triple
    moves from 1.0.p to 1.0.(p+1), which is recorded as migrated. *)
Theorem upgrade_not_blocked_by_migration me n w h hash c :
  history me n w h → Z.of_nat (length h) < 2 ^ 32 - 1 →
  (∀ w', execute_wasm_upgrade hash c w ≠ Err ContractError.MigrationAlreadyDone w') ∧
  (∀ w', execute_wasm_upgrade hash c w = Ok tt w' →
     triple (version w) = (1, 0, patch (version w)) ∧
     triple (version w') = (1, 0, patch (version w) + 1) ∧
     migrated w' (triple (version w')) ∧ ¬ migrated w (triple (version w'))).
Proof.
  intros Hh Hl. destruct (version_history _ _ _ _ Hh) as [_ Hv].
  destruct Hv as (V1 & V2 & V3 & V4); [lia|].
  assert (fits U32 (patch (version w) + 1)) as Hf by (unfold fits; cbn; lia).
  assert (¬ migrated w (1, 0, patch (version w) + 1)) as Hn by (intros Hm%V4; lia).
  split.
  - intros w' Hm. unfold execute_wasm_upgrade, migrate, get_version in Hm.
    einv; try congruence.
    match goal with E : is_Some _ |- _ => revert E end. world_simpl. fold (version w).
    cbn [major minor patch]. rewrite wrap_id, V1, V2 by done. apply Hn.
  - intros w' (_ & E & M)%execute_wasm_upgrade_bumps. rewrite wrap_id in E by done.
    rewrite V1, V2 in E. rewrite E. unfold triple at 1. rewrite V1, V2. split_and!; [done|done| |done].
    apply M. by left.
Qed.

End Versions.

Lemma upgrade_not_blocked_by_migration_witness :
  ∃ w', execute_wasm_upgrade (H := refHost true) hash1 (ref_ctx 4520 [admin]) (after upgrade_calls) = Ok tt w' ∧
        triple (version w') = (1, 0, 1).
Proof.
  destruct (succeeds_ok (execute_wasm_upgrade (H := refHost true) hash1) (ref_ctx 4520 [admin])
              (after upgrade_calls) ltac:(by vm_compute)) as ([] & w' & Hx).
  exists w'. split; [done|].
  destruct (upgrade_not_blocked_by_migration (H := refHost true) router 200 (after upgrade_calls)
    (reverse upgrade_calls) hash1 (ref_ctx 4520 [admin]) upgrade_history ltac:(by vm_compute)) as [_ Hok].
  destruct (Hok w' Hx) as (_ & E & _).
  assert (patch (version (after upgrade_calls)) = 0) as E0 by (by vm_compute). by rewrite E0 in E.
Defined.
