(* ===== verification/FeesProps.v ===== *)
(** * Fee distribution: who is paid what

    The amounts the distribution loop pays as a pure function ([payouts]), the proof
    that the loop pays exactly these, and conservation: when the recipient that takes
    the rounding dust comes last, the payments add up to the balance. *)

From stdpp Require Import base decidable strings numbers list.
From S2P Require Import Prelude Types Host HostLogic RefHost Events Storage Upgrade Governance Tokens Adapters Fees Swap Router Contract Scenarios Invariants.

Local Open Scope Z_scope.
Local Open Scope host_scope.

(** ** The amounts *)

(** What each recipient gets, in order, out of [remaining]. *)
Fixpoint payouts (total : Z) (dust : nat → bool) (rs : list (nat * FeeRecipient)) (remaining : Z) : list Z :=
  match rs with
  | [] => []
  | (i, r) :: rest =>
      let amount := if dust i then remaining else share_amount total (share_bps r) in
      if 0 <? amount then amount :: payouts total dust rest (saturating_sub I128 remaining amount)
      else 0 :: payouts total dust rest remaining
  end.

(** The payments to the recipients of a configuration. *)
Definition config_payouts (total : Z) (config : FeeConfig) : list Z :=
  payouts total (takes_dust (treasury_index (recipients config)) (length (recipients config)))
    (enumerate (recipients config)) total.

(** The recipient that takes the dust is the last one: no recipient is labelled
    "treasury", or the last one is the first so labelled. *)
Definition dust_last (config : FeeConfig) : Prop :=
  treasury_index (recipients config) = None ∨
  treasury_index (recipients config) = Some (length (recipients config) - 1)%nat.

Section Pay.

Context {H : Host}.

(** Pays the given amounts to the recipients, in order, skipping zero amounts. *)
Definition pay_all (asset : Asset) (ps : list (FeeRecipient * Z)) : M unit :=
  for_each ps (λ '(r, amount), if 0 <? amount then pay_recipient asset r amount else ret tt).

(** The transfer of an asset, as the other contracts see it: only Soroban tokens move. *)
Definition moved (c : Ctx) (x : xworld) (asset : Asset) (from to : Address) (amount : Z) (x' : xworld) : Prop :=
  match asset with
  | Asset.Soroban t => x_transfer c x t from to amount = Some x'
  | _ => x' = x
  end.

(** The payment of one recipient: tokens are burned for the label "burn" and transferred
    otherwise. *)
Definition paid (c : Ctx) (asset : Asset) (r : FeeRecipient) (amount : Z) (x x' : xworld) : Prop :=
  match asset with
  | Asset.Soroban t =>
      if bool_decide (label r = "burn"%string) then x_burn c x t (self c) amount = Some x'
      else x_transfer c x t (self c) (fr_address r) amount = Some x'
  | _ => x' = x
  end.

(** The payments to the recipients, in order; an amount of zero is skipped. *)
Inductive payments (c : Ctx) (asset : Asset) : list (FeeRecipient * Z) → xworld → xworld → Prop :=
| payments_nil x : payments c asset [] x x
| payments_skip r ps x x' : payments c asset ps x x' → payments c asset ((r, 0) :: ps) x x'
| payments_pay r amount ps x x1 x' :
    0 < amount → paid c asset r amount x x1 → payments c asset ps x1 x' →
    payments c asset ((r, amount) :: ps) x x'.

End Pay.

(** ** Arithmetic *)

Lemma share_amount_bound total s :
  0 <= total <= int_max I128 → 0 <= s <= int_max U32 →
  0 <= share_amount total s ∧ share_amount total s * 10000 <= total * s.
Proof.
  intros Ht Hs. unfold share_amount, checked_mul.
  assert (0 <= total * s) by nia.
  destruct (chk I128 (total * s)) as [v|] eqn:E.
  - apply chk_Some in E as [-> Hf].
    change (default (int_max I128) (Some (total * s))) with (total * s).
    unfold checked_div. cbn [Z.eqb]. rewrite Z.quot_div_nonneg by lia.
    assert (0 <= total * s / 10000 <= total * s) by (split; [apply Z.div_pos; lia | apply Z.div_le_upper_bound; lia]).
    assert (int_min I128 <= 0) by done.
    rewrite chk_fits by (unfold fits in *; lia).
    change (default 0 (Some (total * s / 10000))) with (total * s / 10000).
    pose proof (Z.mul_div_le (total * s) 10000). lia.
  - apply chk_None in E. unfold fits in E. assert (int_min I128 <= 0) by done.
    replace (default 0 (checked_div I128 (default (int_max I128) None) 10000))
      with (int_max I128 / 10000) by by vm_compute.
    split; [by vm_compute|]. pose proof (Z.mul_div_le (int_max I128) 10000). lia.
Qed.

(** The share of a recipient: the product is capped at the maximum of [i128]. *)
Lemma share_amount_exact total s :
  0 <= total <= int_max I128 → 0 <= s <= int_max U32 →
  share_amount total s = Z.min (total * s) (int_max I128) / 10000.
Proof.
  intros Ht Hs. unfold share_amount, checked_mul. assert (0 <= total * s) by nia.
  assert (int_min I128 <= 0 ∧ 0 <= int_max I128) as [? ?] by done.
  assert (∀ z, 0 <= z <= int_max I128 → default 0 (checked_div I128 z 10000) = z / 10000) as Hdiv.
  { intros z Hz. unfold checked_div. cbn [Z.eqb]. rewrite Z.quot_div_nonneg by lia.
    assert (0 <= z / 10000 <= z) by (split; [apply Z.div_pos; lia | apply Z.div_le_upper_bound; lia]).
    by rewrite chk_fits by (unfold fits; lia). }
  destruct (chk I128 (total * s)) as [v|] eqn:E.
  - apply chk_Some in E as [-> Hf]. unfold fits in Hf. rewrite Z.min_l by lia. apply Hdiv. lia.
  - apply chk_None in E. unfold fits in E. rewrite Z.min_r by lia. apply Hdiv. lia.
Qed.

Lemma payouts_length total dust rs rem : length (payouts total dust rs rem) = length rs.
Proof. revert rem. induction rs as [|[i r] rs IH]; intros rem; cbn; [done|]. case_match; cbn; by rewrite IH. Qed.

(** The dust taker at the last position receives whatever is left. *)
Lemma payouts_sum total dust rs k rem :
  0 <= total <= int_max I128 → 0 <= rem <= int_max I128 →
  Forall (λ r, fits U32 (share_bps r)) rs → rs ≠ [] →
  (∀ i, (k <= i < k + length rs)%nat → dust i = Nat.eqb i (k + length rs - 1)) →
  total * sum_of share_bps rs <= rem * 10000 →
  sum_of id (payouts total dust (imap (λ i r, ((k + i)%nat, r)) rs) rem) = rem ∧
  Forall (λ a, 0 <= a) (payouts total dust (imap (λ i r, ((k + i)%nat, r)) rs) rem).
Proof.
  intros Ht. revert k rem. induction rs as [|r rs IH]; intros k rem Hrem Hs Hne Hd Hle; [done|].
  apply Forall_cons in Hs as [Hr Hs]. cbn in Hle. rewrite imap_cons. cbn [payouts].
  rewrite Nat.add_0_r. rewrite (Hd k) by (cbn; lia).
  destruct rs as [|r2 rs].
  - assert (Nat.eqb k (k + length [r] - 1) = true) as -> by (apply Nat.eqb_eq; cbn; lia).
    cbn [imap payouts]. destruct (0 <? rem) eqn:E; bools; cbn; unfold id; split; try lia;
      repeat constructor; lia.
  - assert (Nat.eqb k (k + length (r :: r2 :: rs) - 1) = false) as -> by (apply Nat.eqb_neq; cbn; lia).
    destruct (share_amount_bound total (share_bps r)) as [Ha Hb]; [done|by unfold fits in Hr; cbn in *; lia|].
    assert (0 <= total * sum_of share_bps (r2 :: rs)) as Hnn.
    { apply Z.mul_nonneg_nonneg; [lia|]. apply sum_of_nonneg. intros x Hx.
      rewrite Forall_forall in Hs. apply Hs in Hx. unfold fits in Hx; cbn in Hx; lia. }
    assert (imap ((λ i r0, ((k + i)%nat, r0)) ∘ S) (r2 :: rs) =
            imap (λ i r0, ((S k + i)%nat, r0)) (r2 :: rs)) as ->
      by (apply imap_ext; intros; cbn; f_equal; lia).
    assert (sum_of share_bps (r :: r2 :: rs) = share_bps r + sum_of share_bps (r2 :: rs)) as Esum by done.
    cbn in Esum, Hnn.
    destruct (0 <? share_amount total (share_bps r)) eqn:E; bools.
    + set (a := share_amount total (share_bps r)) in *.
      assert (saturating_sub I128 rem a = rem - a) as Esat.
      { apply clamp_id. unfold fits. cbn in *. lia. }
      rewrite Esat. destruct (IH (S k) (rem - a)) as [IH1 IH2]; [cbn in *; lia|done|done| | |].
      * intros i Hi. rewrite Hd by (cbn in *; lia). f_equal. cbn. lia.
      * cbn in *. lia.
      * split; [|by constructor]. cbn in *. unfold id in *. lia.
    + destruct (IH (S k) rem) as [IH1 IH2]; [done|done|done| | |].
      * intros i Hi. rewrite Hd by (cbn in *; lia). f_equal. cbn. lia.
      * cbn in *. lia.
      * split; [|by constructor]. cbn in *. unfold id in *. lia.
Qed.

Lemma treasury_index_lt rs t : treasury_index rs = Some t → (t < length rs)%nat.
Proof.
  revert t. induction rs as [|r rs IH]; intros t; cbn; [done|].
  case_bool_decide; [intros [= <-]; lia|].
  destruct (treasury_index rs) as [t'|]; [|done]. intros [= <-]. specialize (IH t' eq_refl). lia.
Qed.

Lemma dust_last_spec config i :
  dust_last config → (i < length (recipients config))%nat →
  takes_dust (treasury_index (recipients config)) (length (recipients config)) i =
  Nat.eqb i (length (recipients config) - 1).
Proof. unfold dust_last, takes_dust. by intros [-> | ->]. Qed.

Lemma config_payouts_sum total config :
  0 <= total <= int_max I128 → shares_ok config → dust_last config →
  sum_of id (config_payouts total config) = total ∧ Forall (λ a, 0 <= a) (config_payouts total config).
Proof.
  intros Ht (Hf & _ & Hsum) Hd. unfold config_payouts, enumerate.
  assert (imap pair (recipients config) = imap (λ i r, ((0 + i)%nat, r)) (recipients config)) as ->
    by (apply imap_ext; done).
  apply payouts_sum; try done.
  - intros E. by rewrite E in Hsum.
  - intros i Hi. rewrite dust_last_spec by (done || lia). done.
  - rewrite Hsum. lia.
Qed.

Section Loop.

Context {H : Host} {HOk : HostOk H}.

Lemma with_ext_same (w : World) : w = with_ext w (w_ext w).
Proof. by destruct w. Qed.

Lemma transfer_asset_ok asset from to amount c w u w' :
  transfer_asset asset from to amount c w = Ok u w' →
  ∃ x, moved c (w_ext w) asset from to amount x ∧ w' = with_ext w x.
Proof.
  intros Hm. unfold transfer_asset in Hm. minv; cbn.
  - eexists. split; [done|apply with_ext_same].
  - eexists. split; [done|apply with_ext_same].
  - by eexists.
Qed.

Lemma pay_recipient_ok asset r amount c w w' :
  pay_recipient asset r amount c w = Ok tt w' → paid c asset r amount (w_ext w) (w_ext w').
Proof.
  intros Hm. unfold pay_recipient, paid in *.
  repeat match goal with
  | E : transfer_asset _ _ _ _ _ _ = Ok _ _ |- _ => apply transfer_asset_ok in E as (? & E & ->)
  | _ => minv_step; subst
  end; cbn in *; simplify_eq; by rewrite ?bool_decide_eq_true_2, ?bool_decide_eq_false_2.
Qed.

Lemma pay_all_payments asset ps c w w' :
  Forall (λ p, 0 <= p.2) ps → pay_all asset ps c w = Ok tt w' → payments c asset ps (w_ext w) (w_ext w').
Proof.
  revert w. induction ps as [|[r amount] ps IH]; intros w Hnn Hm; unfold pay_all in *; cbn in Hm.
  - minv. constructor.
  - apply Forall_cons in Hnn as [Ha Hnn]. cbn in Ha. apply bind_ok in Hm as ([] & w1 & Hp & Hm).
    destruct (0 <? amount) eqn:E; bools.
    + econstructor; [done|by apply pay_recipient_ok|by apply IH].
    + minv. assert (amount = 0) as -> by lia. constructor. by apply IH.
Qed.

(** The loop of the source and the reference payment agree on every outcome. *)
Lemma loop_pays asset total tr n rs rem c w :
  bind (fold_each rs rem (λ remaining_dust '(i, rec_),
    let amount :=
      if takes_dust tr n i then remaining_dust else share_amount total (share_bps rec_) in
    if 0 <? amount then
      pay_recipient asset rec_ amount;;
      ret (saturating_sub I128 remaining_dust amount)
    else ret remaining_dust)) (λ _, ret tt) c w =
  pay_all asset (zip (snd <$> rs) (payouts total (takes_dust tr n) rs rem)) c w.
Proof.
  revert rem w. induction rs as [|[i r] rs IH]; intros rem w; [done|].
  unfold pay_all. cbn [fold_each payouts fmap list_fmap snd zip_with zip].
  set (amount := if takes_dust tr n i then rem else share_amount total (share_bps r)).
  destruct (0 <? amount) eqn:E; cbn [zip_with for_each].
  - rewrite E. specialize (IH (saturating_sub I128 rem amount)).
    unfold bind in *. destruct (pay_recipient asset r amount c w) as [[] w1|e w1|]; [|done..].
    apply IH.
  - cbn [Z.ltb]. change (0 <? 0) with false. cbv iota. specialize (IH rem).
    unfold bind, ret in *. apply IH.
Qed.

Lemma enumerate_snd {A} (l : list A) : snd <$> enumerate l = l.
Proof.
  unfold enumerate. rewrite fmap_imap. change (imap (const (λ x : A, x)) l = l).
  by rewrite imap_const, list_fmap_id.
Qed.

Lemma distribute_loop_pays asset total config c w r w' :
  distribute_loop asset total (treasury_index (recipients config)) (length (recipients config))
    (enumerate (recipients config)) c w = Ok r w' →
  pay_all asset (zip (recipients config) (config_payouts total config)) c w = Ok tt w'.
Proof.
  intros Hm. unfold config_payouts. rewrite <- (enumerate_snd (recipients config)) at 1.
  rewrite <- loop_pays. apply bind_ok. by exists r, w'.
Qed.

(** Everyone but the dust taker gets the share of the balance, rounded down. *)
Lemma payouts_lookup total dust rs rem i k r :
  0 <= total <= int_max I128 → Forall (λ p, fits U32 (share_bps (snd p))) rs →
  rs !! i = Some (k, r) → dust k = false →
  payouts total dust rs rem !! i = Some (share_amount total (share_bps r)).
Proof.
  intros Ht. revert i rem. induction rs as [|[j r'] rs IH]; intros i rem Hs; [done|].
  apply Forall_cons in Hs as [Hr Hs]. cbn [payouts]. destruct i as [|i]; cbn [lookup list_lookup].
  - intros [= -> ->] ->. destruct (share_amount_bound total (share_bps r)) as [Ha _];
      [done|by unfold fits in Hr; cbn in *; lia|].
    destruct (0 <? share_amount total (share_bps r)) eqn:E; bools; [done|].
    change (Some 0 = Some (share_amount total (share_bps r))). f_equal. lia.
  - intros Hi Hd. case_match; by apply IH.
Qed.

Lemma pay_all_writes asset ps :
  writes (λ _, false) (λ k, match k with SK (StorageKey.TotalFeesBurned _) => true | _ => false end)
    (λ _, false) (pay_all asset ps).
Proof. intros w0. unfold pay_all. solve_keeps. Qed.

Lemma payouts_nonneg total dust rs rem : Forall (λ a, 0 <= a) (payouts total dust rs rem).
Proof.
  revert rem. induction rs as [|[i r] rs IH]; intros rem; cbn; [constructor|].
  case_match; constructor; bools; try apply IH; lia.
Qed.

Lemma zip_payouts_nonneg (rs : list FeeRecipient) total dust irs rem :
  Forall (λ p, 0 <= p.2) (zip rs (payouts total dust irs rem)).
Proof.
  apply Forall_lookup. intros i p (r & a & -> & _ & Ha)%lookup_zip_with_Some.
  by apply (Forall_lookup_1 _ _ _ _ (payouts_nonneg total dust irs rem) Ha).
Qed.

(** The distribution makes the payments of [config_payouts] and empties the balance. *)
Lemma distribute_pays asset config c w w' :
  distribute_fees_internal asset config c w = Ok tt w' →
  let balance := default 0 (pget w (StorageKey.FeeBalance asset)) in
  balance ≠ 0 →
  payments c asset (zip (recipients config) (config_payouts balance config)) (w_ext w) (w_ext w') ∧
  pget w' (StorageKey.FeeBalance asset) = Some 0.
Proof.
  intros Hm balance Hb. unfold distribute_fees_internal, push_distribution_history in Hm.
  repeat match goal with
  | E : distribute_loop _ _ _ _ _ _ _ = Ok _ _ |- _ => apply distribute_loop_pays in E
  | _ => minv_step; subst
  end; bools; [done|].
  match goal with E : pay_all _ _ _ _ = Ok _ _ |- _ =>
    split; [apply pay_all_payments in E;
      [by world_simpl | apply zip_payouts_nonneg] |
    apply (writes_ok _ _ _ _ _ _ _ _ (pay_all_writes _ _)) in E as (_ & Ep & _)] end.
  world_simpl. rewrite Ep by done. by world_simpl.
Qed.

(** C7: a distribution pays out exactly the collected balance, no more and no less. For
    at most five recipients whose shares add up to 10000 and among which the one that takes the dust
    (the first labelled "treasury", or else the last) is the last, and for a positive
    balance: the distribution makes one payment per recipient, in order; the amounts are
    non-negative and add up to the balance; every recipient but the last gets the balance
    times its share over 10000, rounded down, where a product above the maximum of [i128]
    is cut to that maximum; and the balance is zero afterwards. A payment of a Soroban
    token is a transfer by the contract, or a burn for the label "burn"; native and issued
    assets move nothing, and neither does an amount of zero. *)
Theorem fee_distribution_conserves asset config c w w' :
  let balance := default 0 (pget w (StorageKey.FeeBalance asset)) in
  shares_ok config → dust_last config → 0 < balance <= int_max I128 →
  distribute_fees_internal asset config c w = Ok tt w' →
  payments c asset (zip (recipients config) (config_payouts balance config)) (w_ext w) (w_ext w') ∧
  length (config_payouts balance config) = length (recipients config) ∧
  sum_of id (config_payouts balance config) = balance ∧
  Forall (λ a, 0 <= a) (config_payouts balance config) ∧
  (∀ i r, recipients config !! i = Some r → (i < length (recipients config) - 1)%nat →
     config_payouts balance config !! i =
       Some (Z.min (balance * share_bps r) (int_max I128) / 10000)) ∧
  pget w' (StorageKey.FeeBalance asset) = Some 0.
Proof.
  intros balance Hs Hd Hb Hm.
  destruct (distribute_pays _ _ _ _ _ Hm) as (Hp & Hz); [fold balance; lia|].
  destruct (config_payouts_sum balance config) as [Hsum Hnn]; [lia|done|done|].
  split_and!; [done | | done | done | | done].
  - unfold config_payouts, enumerate. by rewrite payouts_length, length_imap.
  - intros i r Hi Hlt. destruct Hs as (Hf & _). rewrite Forall_lookup in Hf.
    rewrite <- share_amount_exact by (try lia; destruct (Hf i r Hi); cbn in *; lia).
    unfold config_payouts, enumerate. apply (payouts_lookup _ _ _ _ i i r).
    + lia.
    + apply Forall_lookup. intros j [k r'] Hj. apply list_lookup_imap_Some in Hj as (y & Hy & [= -> ->]).
      by apply (Hf j).
    + apply list_lookup_imap_Some. by exists r.
    + rewrite dust_last_spec by (done || lia). apply Nat.eqb_neq. lia.
Qed.

End Loop.

(** ** Concrete runs *)

(** A contract that holds 1000 collected units of [eur]. *)
Definition fee_world : World (H := refHost true) :=
  pset (after setup_calls) (StorageKey.FeeBalance eur) 1000.

Lemma fee_distribution_conserves_witness :
  config_payouts 1000 fees1 = [333; 166; 501] ∧ sum_of id (config_payouts 1000 fees1) = 1000.
Proof.
  split; [by vm_compute|].
  destruct (succeeds_ok (distribute_fees_internal (H := refHost true) eur fees1) (ref_ctx 200 [])
              fee_world ltac:(by vm_compute)) as ([] & w' & Hx).
  apply (fee_distribution_conserves (H := refHost true) eur fees1 (ref_ctx 200 []) fee_world w');
    [| |by vm_compute|done].
  - split_and!; [|cbn; lia|done]. repeat constructor; unfold fits; cbn; lia.
  - right. by vm_compute.
Defined.

(** A valid configuration whose treasury is not the last recipient. *)
Definition fees_treasury_first : FeeConfig :=
  mkFeeConfig [mkFeeRecipient treasury 5000 "treasury"; mkFeeRecipient alice 5000 "dev"] 5 false.

(** The code takes the dust for the treasury when the loop reaches it, not after the
    other recipients. With a valid configuration (shares of 50% and 50%) whose treasury
    comes first, a balance of 1000 is paid out as 1000 to the treasury and another 500 to
    the second recipient: the contract transfers 1500. *)
Theorem treasury_first_overpays :
  shares_ok fees_treasury_first ∧
  succeeds (H := refHost true) (distribute_fees_internal eur fees_treasury_first) (ref_ctx 200 []) fee_world = true ∧
  transfers (w_ext (result_world (H := refHost true)
      (distribute_fees_internal eur fees_treasury_first) (ref_ctx 200 []) fee_world)) =
    [(mkAddr 11, router, treasury, 1000); (mkAddr 11, router, alice, 500)].
Proof.
  split_and!; [|by vm_compute|by vm_compute].
  split_and!; [|cbn; lia|done]. repeat constructor; unfold fits; cbn; lia.
Qed.

(** The product of the balance and a share is cut to the maximum of [i128], and the loss
    goes to the recipient that takes the dust: with a balance of that maximum and shares
    of half each, the first recipient gets a ten-thousandth of the balance. *)
Theorem large_balance_underpays :
  config_payouts (int_max I128)
    (mkFeeConfig [mkFeeRecipient alice 5000 "dev"; mkFeeRecipient bob 5000 "ops"] 5 false) =
  [int_max I128 / 10000; int_max I128 - int_max I128 / 10000].
Proof. by vm_compute. Qed.

(** Two shares that add up to 10000 only modulo 2^32. *)
Definition wrapping_shares : FeeConfig :=
  mkFeeConfig [mkFeeRecipient alice (2 ^ 32 - 1) "dev"; mkFeeRecipient bob 10001 "ops"] 5 false.

(** A freshly initialized contract built without overflow checks. *)
Definition unchecked_world : World (H := refHost false) :=
  iset (world0 false) StorageKey.Admin admin.

(** The admin path sums the shares with a plain addition. Compiled without overflow
    checks, it accepts a configuration whose shares add up to 10000 + 2^32 basis points;
    compiled with them, the same call traps. The governance path rejects it either way. *)
Theorem unchecked_share_sum_wraps :
  sum_of share_bps (recipients wrapping_shares) = 10000 + 2 ^ 32 ∧
  succeeds (H := refHost false) (set_fee_distribution_config wrapping_shares) (ref_ctx 200 [admin]) unchecked_world = true ∧
  traps (H := refHost true) (set_fee_distribution_config wrapping_shares) (ref_ctx 200 [admin]) (after setup_calls) = true ∧
  fails_with (H := refHost false) (dispatch_action (ProposalAction.SetFeeConfig wrapping_shares)) (ref_ctx 200 [])
    unchecked_world ContractError.InvalidFeeConfig = true.
Proof. split_and!; by vm_compute. Qed.
