(* ===== verification/SwapProps.v ===== *)
(** * Swap execution: guards, accounting, slippage

    The relational specification of a swap ([hop_chain], [moved]) and what a
    successful execution implies, phase by phase. *)

From stdpp Require Import base decidable strings numbers relations list.
From S2P Require Import Prelude Types Host HostLogic RefHost Events Storage Upgrade Governance Tokens Adapters Fees Swap Router Contract Scenarios Invariants FeesProps.

Local Open Scope Z_scope.
Local Open Scope host_scope.

(** ** The specification *)

(** Saturating addition to an entry that counts up. *)
Definition add_sat (old : Z) (amount : Z) : Z := default (int_max I128) (checked_add I128 old amount).

Section Spec.

Context {H : Host}.

(** The pools of the route called one after the other, each with the output of the
    previous one. *)
Inductive hop_chain (c : Ctx) : xworld → list RouteHop → Z → Z → xworld → Prop :=
| hop_chain_nil x a : hop_chain c x [] a a x
| hop_chain_cons x hop hs a b out x1 x2 :
    x_swap c x (hop_pool hop) (hop_source hop) (hop_destination hop) a 0 = Some (b, x1) →
    hop_chain c x1 hs b out x2 → hop_chain c x (hop :: hs) a out x2.

(** Reading the reserves of pools, any number of times. *)
Definition read_step (c : Ctx) (x x' : xworld) : Prop :=
  ∃ pool v, x_reserves c x pool = Some (v, x').

Definition reserve_reads (c : Ctx) : xworld → xworld → Prop := rtc (read_step c).

(** [gross] is what the pools of the route return for the sender's input, starting from
    the state [w] of the other contracts. *)
Definition pool_output (c : Ctx) (w : World) (sender : Address) (params : SwapParams) (gross : Z) : Prop :=
  ∃ first x0 x1 x2,
    head (hops (sp_route params)) = Some first ∧ reserve_reads c (w_ext w) x0 ∧
    moved c x0 (hop_source first) sender (hop_pool first) (amount_in params) x1 ∧
    hop_chain c x1 (hops (sp_route params)) (amount_in params) gross x2.

Definition fee_rate (w : World) : Z := default 0 (iget w StorageKey.FeeRate).

Definition allowed (w : World) (a : Asset) : Prop := is_Some (pget w (StorageKey.AllowedToken a)).

(** While the allowlist is empty every asset may be routed. *)
Definition route_allowed (w : World) (hs : list RouteHop) : Prop :=
  default 0 (iget w StorageKey.TokenCount) = 0 ∨
  ∀ hop, hop ∈ hs → allowed w (hop_source hop) ∧ allowed w (hop_destination hop).

(** The fee balance of an asset after a swap added its fee. *)
Definition collected (w : World) (asset : Asset) (fee : Z) : Z :=
  add_sat (default 0 (pget w (StorageKey.FeeBalance asset))) fee.

(** The configuration under which a swap distributes the fees at once: there is one, it
    asks for it, a fee was taken, and the balance reaches the minimum. *)
Definition distribution_due (w : World) (asset : Asset) (fee : Z) : option FeeConfig :=
  match iget w StorageKey.FeeConfig with
  | Some config =>
      if (0 <? fee) && auto_distribute config && (min_distribution config <=? collected w asset fee) &&
         negb (collected w asset fee =? 0)
      then Some config else None
  | None => None
  end.

(** What became of the fee: added to the balance, which is either kept (and nobody is
    paid) or distributed to the recipients of the configuration. *)
Definition fee_settled (c : Ctx) (w : World) (asset : Asset) (fee : Z) (x : xworld) (w' : World) : Prop :=
  match distribution_due w asset fee with
  | Some config =>
      payments c asset (zip (recipients config) (config_payouts (collected w asset fee) config)) x (w_ext w') ∧
      pget w' (StorageKey.FeeBalance asset) = Some 0
  | None =>
      w_ext w' = x ∧
      pget w' (StorageKey.FeeBalance asset) =
        if 0 <? fee then Some (collected w asset fee) else pget w (StorageKey.FeeBalance asset)
  end.

(** The guards every swap passes, direct or revealed. *)
Definition swap_guards (c : Ctx) (w : World) (sender : Address) (params : SwapParams) : Prop :=
  0 < amount_in params ∧ 0 <= min_amount_out params ∧ 0 <= min_output (sp_route params) ∧
  sp_max_price_impact_bps params <= 10000 ∧ sp_max_execution_spread_bps params <= 10000 ∧
  recipient params ≠ self c ∧ (recipient params ≠ sender → signed c (recipient params) = true) ∧
  not_before params <= ledger_seq c <= deadline params ∧
  (1 <= length (hops (sp_route params)) <= 4)%nat ∧
  ∀ hop, hop ∈ hops (sp_route params) → is_Some (pget w (StorageKey.SupportedPool (hop_pool hop))).

End Spec.

(** ** The phases *)

Section Phases.

Context {H : Host} {HOk : HostOk H}.

Lemma for_each_pure {A} (l : list A) f (P : A → Ctx → World → Prop) c w u w' :
  (∀ x c w u w', f x c w = Ok u w' → P x c w ∧ w' = w) →
  for_each l f c w = Ok u w' → (∀ x, x ∈ l → P x c w) ∧ w' = w.
Proof.
  intros Hf. induction l as [|x l IH]; cbn; intros Hm.
  - minv. split; [|done]. intros x Hx. by apply not_elem_of_nil in Hx.
  - apply bind_ok in Hm as ([] & w1 & Hx & Hl). apply Hf in Hx as [Hx ->].
    destruct (IH Hl) as [Hall ->]. split; [|done]. intros y [->|Hy]%elem_of_cons; auto.
Qed.

Lemma swap_input_guards_ok sender params c w u w' :
  swap_input_guards sender params c w = Ok u w' → swap_guards c w sender params ∧ w' = w.
Proof.
  intros Hm. unfold swap_input_guards in Hm.
  repeat (minv_step; subst); bools;
    match goal with E : for_each _ _ _ _ = Ok _ _ |- _ =>
      apply (for_each_pure _ _ (λ hop _ w, is_Some (pget w (StorageKey.SupportedPool (hop_pool hop))))) in E
        as [Hpools ->]; [|intros; unfold is_supported_pool in *; by minv] end;
    (split; [|done]); unfold swap_guards, vlen in *; split_and!; try done; try lia; try congruence.
Qed.

Lemma validate_route_assets_ok route c w u w' :
  validate_route_assets route c w = Ok u w' → route_allowed w (hops route) ∧ w' = w.
Proof.
  intros Hm. unfold validate_route_assets in Hm. repeat (minv_step; subst); bools.
  - split; [by left|done].
  - match goal with E : for_each _ _ _ _ = Ok _ _ |- _ =>
      apply (for_each_pure _ _ (λ hop _ w, allowed w (hop_source hop) ∧ allowed w (hop_destination hop))) in E
        as [Hall ->]; [|intros; unfold Storage.is_token_allowed, allowed in *; by minv] end.
    split; [by right|done].
Qed.

Lemma check_rate_limit_ok sender c w u w' :
  check_rate_limit sender c w = Ok u w' → ∃ s, w' = with_temp w s.
Proof.
  intros Hm. unfold check_rate_limit in Hm.
  repeat (minv_step; subst); try (by eexists); exists (w_temp w); by destruct w.
Qed.

Lemma run_hops_ok hs a imp c w r w' :
  fold_each hs (a, imp) (λ '(current_input_amount, total_impact_bps) hop,
    out ← AmmAdapter.swap (hop_pool hop) (hop_source hop) (hop_destination hop)
            current_input_amount 0;
    impact ← plain_op U32 (total_impact_bps + 5);
    ret (out, impact)) c w = Ok r w' →
  0 <= imp → imp + 5 * Z.of_nat (length hs) <= int_max U32 →
  ∃ x', hop_chain c (w_ext w) hs a (fst r) x' ∧ w' = with_ext w x' ∧
        snd r = imp + 5 * Z.of_nat (length hs).
Proof.
  revert a imp w. induction hs as [|hop hs IH]; intros a imp w Hm Hi Hb; cbn in Hm.
  - minv. exists (w_ext w). split_and!; [constructor|by destruct w|cbn; lia].
  - unfold AmmAdapter.swap in Hm. apply bind_ok in Hm as ([b imp'] & w1 & Hs & Hm). cbn [length] in *.
    minv. match goal with E : _ ∨ _ |- _ => destruct E as [E|E]; break; [simplify_eq|congruence] end.
    rewrite wrap_id in Hm by (unfold fits; cbn in *; lia).
    apply IH in Hm as (x' & Hc & -> & ->); [|lia|cbn in *; lia].
    exists x'. split_and!; [by econstructor|done|lia].
Qed.

Lemma apply_fee_ok a c w r w' :
  apply_fee a c w = Ok r w' →
  fst r = Z.quot (a * fee_rate w) 10000 ∧ snd r = a - fst r ∧ w' = w.
Proof.
  intros Hm. unfold apply_fee in Hm. minv.
  repeat match goal with
  | E : checked_mul _ _ _ = Some _ |- _ => apply chk_Some in E as [-> ?]
  | E : checked_sub _ _ _ = Some _ |- _ => apply chk_Some in E as [-> ?]
  | E : checked_div _ _ _ = Some _ |- _ => apply checked_div_Some in E as (_ & -> & ?)
  end. done.
Qed.

(** The spread of the output against the route's estimate, in basis points. *)
Definition spread_bps (params : SwapParams) (out : Z) : Z :=
  if out <? estimated_output (sp_route params) then
    Z.quot ((estimated_output (sp_route params) - out) * 10000) (estimated_output (sp_route params))
  else 0.

Lemma slippage_guards_ok params imp out c w u w' :
  slippage_guards params imp out c w = Ok u w' →
  (0 < sp_max_price_impact_bps params → imp <= sp_max_price_impact_bps params) ∧
  (0 < sp_max_execution_spread_bps params → 0 < estimated_output (sp_route params) →
     spread_bps params out <= sp_max_execution_spread_bps params) ∧
  min_amount_out params <= out ∧ min_output (sp_route params) <= out ∧ w' = w.
Proof.
  intros Hm. unfold slippage_guards in Hm.
  apply bind_ok in Hm as ([] & w1 & Hg & Hm). apply bind_ok in Hm as ([] & w2 & Hs & Hm).
  apply (ok_spec (m := fail_when _ _)) in Hg as [Hg ->], Hm as [Hm ->].
  assert (w2 = w ∧ (0 < sp_max_execution_spread_bps params → 0 < estimated_output (sp_route params) →
            spread_bps params out <= sp_max_execution_spread_bps params)) as [-> Hspread].
  { destruct (_ && _) eqn:E in Hs; [|minv; split; [done|]; apply andb_false_iff in E as [E|E]; bools; lia].
    unfold spread_bps. destruct (out <? estimated_output (sp_route params)); minv;
      repeat match goal with
      | E : checked_mul _ _ _ = Some _ |- _ => apply chk_Some in E as [-> ?]
      | E : checked_sub _ _ _ = Some _ |- _ => apply chk_Some in E as [-> ?]
      | E : checked_div _ _ _ = Some _ |- _ => apply checked_div_Some in E as (_ & -> & ?)
      end; done. }
  unfold required_min_out in Hm.
  assert (min_amount_out params <= out ∧ min_output (sp_route params) <= out) as [H1 H2]
    by (destruct (min_amount_out params <? min_output (sp_route params)) eqn:E; bools; lia).
  split_and!; try done. intros Hpos. apply andb_false_iff in Hg as [Hg|Hg]; bools; lia.
Qed.

Lemma get_reserves_ok pool c w r w' :
  AmmAdapter.get_reserves pool c w = Ok r w' → ∃ x, reserve_reads c (w_ext w) x ∧ w' = with_ext w x.
Proof.
  intros Hm. unfold AmmAdapter.get_reserves in Hm. minv.
  match goal with E : _ ∨ _ |- _ => destruct E as [E|E]; break; subst end.
  - eexists. split; [|reflexivity]. apply rtc_once. by eexists _, _.
  - eexists. split; [|apply with_ext_same]. constructor.
Qed.

Lemma snapshot_reserves_ok hs acc c w r w' :
  fold_each hs acc (λ pre_reserves hop,
    r ← AmmAdapter.get_reserves (hop_pool hop);
    ret (pre_reserves ++ [match r with inl v => v | inr _ => (0, 0) end])) c w = Ok r w' →
  ∃ x, reserve_reads c (w_ext w) x ∧ w' = with_ext w x.
Proof.
  revert acc w. induction hs as [|hop hs IH]; intros acc w Hm; cbn in Hm.
  - minv. eexists. split; [|apply with_ext_same]. constructor.
  - apply bind_ok in Hm as (a & w1 & Hs & Hm). apply bind_ok in Hs as (r1 & w2 & Hr & Hs).
    apply get_reserves_ok in Hr as (x & Hx & ->). minv. apply IH in Hm as (x' & Hx' & ->).
    exists x'. split; [|done]. by etrans.
Qed.

Lemma validate_reserves_ok hs c w u w' :
  validate_reserves hs c w = Ok u w' → ∃ x, reserve_reads c (w_ext w) x ∧ w' = with_ext w x.
Proof.
  revert w. unfold validate_reserves. induction hs as [|[hop pre] hs IH]; intros w Hm; cbn [for_each] in Hm.
  - minv. eexists. split; [|apply with_ext_same]. constructor.
  - apply bind_ok in Hm as ([] & w1 & Hs & Hm).
    assert (∃ x, reserve_reads c (w_ext w) x ∧ w1 = with_ext w x) as (x & Hx & ->).
    { destruct ((fst pre =? 0) && (snd pre =? 0)).
      { minv. eexists. split; [|apply with_ext_same]. constructor. }
      apply bind_ok in Hs as (r1 & w2 & Hr & Hs). apply get_reserves_ok in Hr as (x & Hx & ->).
      destruct r1; minv; by exists x. }
    apply IH in Hm as (x' & Hx' & ->). exists x'. split; [|done]. by etrans.
Qed.

Lemma report_impact_ok sender imp amount c w u w' :
  report_impact sender imp amount c w = Ok u w' →
  w' = w ∨ ∃ ev, w' = emit w ev.
Proof. intros Hm. unfold report_impact in Hm. repeat (minv_step; subst); eauto. Qed.

Definition fees_frame (k : Key) : bool := match k with SK (StorageKey.TotalFeesCollected _) => true | _ => fees_p k end.

Lemma distribute_writes asset config : writes (λ _, false) fees_p (λ _, false) (distribute_fees_internal asset config).
Proof. intros w0. solve_keeps. Qed.

Lemma collect_fee_writes asset fee : writes (λ _, false) fees_frame (λ _, false) (collect_fee asset fee).
Proof. intros w0. unfold collect_fee. solve_keeps. Qed.

Lemma collect_fee_ok asset fee c w u w' :
  collect_fee asset fee c w = Ok u w' → 0 < fee →
  pget w' (StorageKey.TotalFeesCollected asset) =
    Some (add_sat (default 0 (pget w (StorageKey.TotalFeesCollected asset))) fee).
Proof.
  intros Hm Hf. unfold collect_fee in Hm. rewrite (proj2 (Z.ltb_lt 0 fee) Hf) in Hm.
  repeat match goal with
  | E : distribute_fees_internal _ _ _ _ = Ok _ _ |- _ =>
      apply (writes_ok _ _ _ _ _ _ _ _ (distribute_writes _ _)) in E as (_ & Ep & _)
  | _ => minv_step; subst
  end; rewrite ?Ep by done; by world_simpl.
Qed.

(** The call that distributes when the balance reaches the minimum. *)
Lemma distribute_when_due asset config c w w' :
  (if auto_distribute config then
     current_balance ← get_fee_balance asset;
     if min_distribution config <=? current_balance then distribute_fees_internal asset config else ret tt
   else ret tt) c w = Ok tt w' →
  let balance := default 0 (pget w (StorageKey.FeeBalance asset)) in
  if auto_distribute config && (min_distribution config <=? balance) && negb (balance =? 0) then
    payments c asset (zip (recipients config) (config_payouts balance config)) (w_ext w) (w_ext w') ∧
    pget w' (StorageKey.FeeBalance asset) = Some 0
  else w' = w.
Proof.
  intros Hm balance. destruct (auto_distribute config); [|by minv]. cbn [andb].
  apply bind_ok in Hm as (b & w1 & [-> ->]%ok_spec & Hm). fold balance in Hm.
  destruct (min_distribution config <=? balance); [|by minv]. cbn [andb].
  destruct (balance =? 0) eqn:E; bools; cbn [negb].
  - unfold distribute_fees_internal in Hm. apply bind_ok in Hm as (b & w1 & [-> ->]%ok_spec & Hm).
    fold balance in Hm. rewrite E in Hm. by minv.
  - by apply distribute_pays.
Qed.

Lemma collect_fee_settled asset fee c w u w' :
  collect_fee asset fee c w = Ok u w' → fee_settled c w asset fee (w_ext w) w'.
Proof.
  intros Hm. unfold collect_fee, fee_settled, distribution_due in *.
  destruct (0 <? fee) eqn:E; [cbn [andb]|minv; by destruct (iget _ _)].
  apply bind_ok in Hm as ([] & w1 & (s & Es & ->)%ok_spec & Hm).
  apply bind_ok in Hm as ([] & w1 & Hev%ok_spec & Hm). apply bind_ok in Hm as (o & w2 & [-> ->]%ok_spec & Hm).
  assert (pget w1 (StorageKey.FeeBalance asset) = Some (collected w asset fee) ∧ w_ext w1 = w_ext w ∧
          iget w1 StorageKey.FeeConfig = iget w StorageKey.FeeConfig) as (Eb & Ex & Ei).
  { rewrite Hev. split_and!; [|done..]. unfold pget. cbn [w_pers emit with_pers]. rewrite Es. by world_simpl. }
  rewrite Ei in Hm. destruct (iget w StorageKey.FeeConfig) as [config|]; [|by minv].
  destruct u. apply distribute_when_due in Hm. rewrite Eb in Hm. cbn [default] in Hm. cbv zeta in Hm.
  unfold id in Hm. destruct (_ && _) in Hm |- *; [by rewrite <- Ex|by subst w'].
Qed.

Lemma for_each_ext {A} (l : list A) f c w u w' :
  (∀ x c w u w', f x c w = Ok u w' → w_ext w' = w_ext w) →
  for_each l f c w = Ok u w' → w_ext w' = w_ext w.
Proof.
  intros Hf. revert w. induction l as [|x l IH]; intros w Hm; cbn in Hm; [by minv|].
  apply bind_ok in Hm as ([] & w1 & Hx & Hm). rewrite (IH _ Hm). by eapply Hf.
Qed.

Lemma settle_writes sender params hop fee out :
  writes (λ _, false) swap_p (λ _, false) (settle sender params hop fee out).
Proof. intros w0. unfold settle. solve_keeps. Qed.

Lemma ttl_tail_writes (hs : list RouteHop) : writes (λ _, false) (λ _, false) (λ _, false)
    (for_each hs (λ hop, extend_pool_ttl (hop_pool hop));; extend_instance_ttl;; check_ttl_health).
Proof. intros w0. solve_keeps. Qed.

Lemma settle_ok sender params hop fee out c w res w' :
  settle sender params hop fee out c w = Ok res w' →
  res = mkSwapResult (amount_in params) out (sp_route params) (ledger_seq c) ∧
  (∃ x, moved c (w_ext w) (hop_destination hop) (self c) (recipient params) out x ∧
        fee_settled c w (hop_destination hop) fee x w') ∧
  pget w' (StorageKey.SwapNonce sender) = Some (default 0 (pget w (StorageKey.SwapNonce sender)) + 1) ∧
  (∀ a, a ≠ sender → pget w' (StorageKey.SwapNonce a) = pget w (StorageKey.SwapNonce a)) ∧
  pget w' StorageKey.TotalSwapVolume =
    Some (add_sat (default 0 (pget w StorageKey.TotalSwapVolume)) (amount_in params)) ∧
  (0 < fee → pget w' (StorageKey.TotalFeesCollected (hop_destination hop)) =
    Some (add_sat (default 0 (pget w (StorageKey.TotalFeesCollected (hop_destination hop)))) fee)).
Proof.
  intros Hm. unfold settle in Hm.
  apply bind_ok in Hm as (this & w0 & [-> ->]%ok_spec & Hm).
  apply bind_ok in Hm as ([] & w1 & (x & Hmv & ->)%transfer_asset_ok & Hm).
  apply bind_ok in Hm as ([] & w2 & Hcf & Hm).
  apply bind_ok in Hm as ([] & w3 & (s & v & -> & _ & Es & ->)%ok_spec & Hm).
  apply bind_ok in Hm as ([] & w4 & (s' & Es' & ->)%ok_spec & Hm).
  apply bind_ok in Hm as ([] & w5 & Hpools & Hm). apply bind_ok in Hm as ([] & w6 & Hinst & Hm).
  apply bind_ok in Hm as ([] & w7 & Hhealth & Hm).
  assert (agrees (λ _, false) (λ _, false) (λ _, false) (with_pers (with_pers w2 s) s') c w7) as (_ & Ep & _).
  { eapply writes_ok; [apply (ttl_tail_writes (hops (sp_route params)))|].
    apply bind_ok. exists tt, w5. split; [done|]. apply bind_ok. by exists tt, w6. }
  assert (w_ext w7 = w_ext w2) as Ex.
  { apply for_each_ext in Hpools; [|intros; by minv].
    transitivity (w_ext w6); [|transitivity (w_ext w5); [|exact Hpools]]; clear Hpools; [clear Hinst|clear Hhealth].
    - unfold check_ttl_health in Hhealth. by minv.
    - by minv. }
  pose proof (collect_fee_ok _ _ _ _ _ _ Hcf) as Hfee. pose proof (collect_fee_settled _ _ _ _ _ _ Hcf) as Hset.
  apply (writes_ok _ _ _ _ _ _ _ _ (collect_fee_writes _ _)) in Hcf as (_ & Ecf & _).
  minv. split_and!; [done|exists x; split; [done|]|..].
  - unfold fee_settled in *. change (distribution_due (with_ext w x) (hop_destination hop) fee)
      with (distribution_due w (hop_destination hop) fee) in Hset. world_simpl. rewrite Ex, Ep by done.
    by world_simpl.
  - world_simpl. rewrite Ep by done. world_simpl. by rewrite Ecf.
  - intros a Ha. world_simpl. rewrite Ep by done. world_simpl. by rewrite Ecf.
  - world_simpl. rewrite Ep by done. world_simpl. by rewrite Ecf.
  - intros Hpos. world_simpl. rewrite Ep by done. world_simpl. by rewrite Hfee.
Qed.

End Phases.

(** ** A whole swap *)

Section Whole.

Context {H : Host} {HOk : HostOk H}.

(** What an executed swap did: the input went to the first pool, the pools were
    chained, the fee was taken from their output, the rest was paid out. *)
Record swap_done (c : Ctx) (w : World) (sender : Address) (params : SwapParams)
    (gross fee : Z) (res : SwapResult) (w' : World) : Prop := {
  sd_guards : swap_guards c w sender params;
  sd_flow : ∃ first last_hop x0 x1 x2 x3 x4,
    head (hops (sp_route params)) = Some first ∧ last (hops (sp_route params)) = Some last_hop ∧
    reserve_reads c (w_ext w) x0 ∧
    moved c x0 (hop_source first) sender (hop_pool first) (amount_in params) x1 ∧
    hop_chain c x1 (hops (sp_route params)) (amount_in params) gross x2 ∧
    reserve_reads c x2 x3 ∧
    moved c x3 (hop_destination last_hop) (self c) (recipient params) (sr_amount_out res) x4 ∧
    fee_settled c w (hop_destination last_hop) fee x4 w';
  sd_fee : fee = Z.quot (gross * fee_rate w) 10000;
  sd_result : res = mkSwapResult (amount_in params) (gross - fee) (sp_route params) (ledger_seq c);
  sd_min : min_amount_out params <= sr_amount_out res ∧ min_output (sp_route params) <= sr_amount_out res;
  sd_impact : 0 < sp_max_price_impact_bps params →
    5 * Z.of_nat (length (hops (sp_route params))) <= sp_max_price_impact_bps params;
  sd_spread : 0 < sp_max_execution_spread_bps params → 0 < estimated_output (sp_route params) →
    spread_bps params (sr_amount_out res) <= sp_max_execution_spread_bps params;
  sd_fees : ∃ last_hop,
    last (hops (sp_route params)) = Some last_hop ∧
    (0 < fee → pget w' (StorageKey.TotalFeesCollected (hop_destination last_hop)) =
       Some (add_sat (default 0 (pget w (StorageKey.TotalFeesCollected (hop_destination last_hop)))) fee));
  sd_nonce : pget w' (StorageKey.SwapNonce sender) =
    Some (default 0 (pget w (StorageKey.SwapNonce sender)) + 1);
  sd_nonces : ∀ a, a ≠ sender → pget w' (StorageKey.SwapNonce a) = pget w (StorageKey.SwapNonce a);
  sd_volume : pget w' StorageKey.TotalSwapVolume =
    Some (add_sat (default 0 (pget w StorageKey.TotalSwapVolume)) (amount_in params))
}.

Lemma sd_pool_output c w sender params gross fee res w' :
  swap_done c w sender params gross fee res w' → pool_output c w sender params gross.
Proof.
  intros Hd. destruct (sd_flow _ _ _ _ _ _ _ _ Hd)
    as (first & last_hop & x0 & x1 & x2 & x3 & x4 & Hf & Hl & Hr0 & Hmv & Hch & _).
  by exists first, x0, x1, x2.
Qed.

Lemma execute_swap_internal_ok sender params c w res w' :
  execute_swap_internal sender params c w = Ok res w' →
  ∃ gross fee, swap_done c w sender params gross fee res w'.
Proof.
  intros Hm. unfold execute_swap_internal in Hm.
  apply bind_ok in Hm as ([] & w1 & [Hg ->]%swap_input_guards_ok & Hm).
  apply bind_ok in Hm as ([] & w1 & [t ->]%check_rate_limit_ok & Hm).
  apply bind_ok in Hm as (pre & w1 & (x0 & Hread0 & ->)%snapshot_reserves_ok & Hm).
  apply bind_ok in Hm as (first & w1 & [Hfirst ->]%ok_spec & Hm).
  apply bind_ok in Hm as ([] & w1 & (x1 & Hmv & ->)%transfer_asset_ok & Hm).
  apply bind_ok in Hm as ([gross imp] & w1 & Hrun & Hm).
  assert (length (hops (sp_route params)) <= 4)%nat by apply Hg.
  apply run_hops_ok in Hrun as (x2 & Hch & -> & Himp); [|lia|cbn; lia].
  apply bind_ok in Hm as ([fee out] & w1 & (Hfee & Hout & ->)%apply_fee_ok & Hm). cbn in Himp, Hfee, Hout.
  apply bind_ok in Hm as ([] & w1 & (Hi & Hsp & Hmin1 & Hmin2 & ->)%slippage_guards_ok & Hm).
  apply bind_ok in Hm as ([] & w1 & (x3 & Hread3 & ->)%validate_reserves_ok & Hm).
  apply bind_ok in Hm as ([] & w1 & Hrep%report_impact_ok & Hm).
  apply bind_ok in Hm as (last_hop & w2 & [Hlast ->]%ok_spec & Hm).
  apply settle_ok in Hm as (-> & (x4 & Hpay & Hset) & Hn & Hns & Hv & Hf).
  assert (∀ k, pget w1 k = pget w k) as Ep
    by (intros k; destruct Hrep as [->|[ev ->]]; by world_simpl).
  assert (w_ext w1 = x3) as Ex by (by destruct Hrep as [->|[ev ->]]). rewrite Ex in Hpay.
  rewrite Ep in Hn, Hv. exists gross, fee. split; try done.
  - exists first, last_hop, x0, x1, x2, x3, x4. split_and!; try done.
    unfold fee_settled, distribution_due, collected in *. rewrite Ep in Hset.
    by replace (iget w1 StorageKey.FeeConfig) with (iget w StorageKey.FeeConfig) in Hset
      by (by destruct Hrep as [->|[ev ->]]).
  - by rewrite Hout.
  - intros Hpos. specialize (Hi Hpos). lia.
  - exists last_hop. split; [done|]. intros Hpos. rewrite Hf by done. by rewrite Ep.
  - intros a Ha. rewrite Hns by done. apply Ep.
Qed.

Lemma execute_swap_ok sender params c w res w' :
  execute_swap sender params c w = Ok res w' →
  signed c sender = true ∧ default false (iget w StorageKey.Paused) = false ∧
  route_allowed w (hops (sp_route params)) ∧
  (∀ m, iget w StorageKey.MevConfig = Some m → amount_in params < commitment_required_above m) ∧
  execute_swap_internal sender params c w = Ok res w'.
Proof.
  intros Hm. unfold execute_swap, require_not_paused in Hm.
  apply bind_ok in Hm as ([] & w1 & [Hs ->]%ok_spec & Hm).
  apply bind_ok in Hm as ([] & w1 & Hp & Hm). minv.
  all: match goal with E : validate_route_assets _ _ _ = Ok _ _ |- _ =>
         apply validate_route_assets_ok in E as [Hra ->] end; split_and!; try done.
  - intros m' Hm'. congruence.
  - intros m' Hm'. congruence.
Qed.

(** C1: a swap that executes passed every guard: the sender signed, the contract was not
    paused, the amount is below the commit-reveal threshold, every asset of the route is
    allowlisted (when an allowlist exists) and every pool registered, the ledger is
    within the caller's window, a third-party recipient signed too, and the amount paid
    out meets both minimums and the impact and spread limits of the caller. *)
Theorem execute_swap_guards sender params c w res w' :
  execute_swap sender params c w = Ok res w' →
  signed c sender = true ∧
  default false (iget w StorageKey.Paused) = false ∧
  route_allowed w (hops (sp_route params)) ∧
  (∀ m, iget w StorageKey.MevConfig = Some m → amount_in params < commitment_required_above m) ∧
  swap_guards c w sender params ∧
  min_amount_out params <= sr_amount_out res ∧ min_output (sp_route params) <= sr_amount_out res ∧
  (0 < sp_max_price_impact_bps params →
     5 * Z.of_nat (length (hops (sp_route params))) <= sp_max_price_impact_bps params) ∧
  (0 < sp_max_execution_spread_bps params → 0 < estimated_output (sp_route params) →
     spread_bps params (sr_amount_out res) <= sp_max_execution_spread_bps params).
Proof.
  intros (Hs & Hp & Hra & Hmev & Hm)%execute_swap_ok.
  apply execute_swap_internal_ok in Hm as (gross & fee & Hd).
  split_and!; try done; apply Hd.
Qed.

(** C2: a swap that executes moved exactly what it reports, and nothing else. From the
    state of the other contracts before the call to the one after it, and apart from reads
    of pool reserves, these are all the effects, in this order: the input goes from the
    sender to the first pool; the pools are called in the order of the route, each with
    the output of the previous one; the recipient gets the output of the last pool less
    the protocol fee, which is that output times the fee rate over 10000, rounded towards
    zero; and the fee is added to the fee balance (up to the maximum of [i128]), which is
    kept, with nobody paid, or, when the configuration asks for distribution at once and
    the balance reaches its minimum, paid to the recipients of the configuration. The
    reported amounts are the input and this payout. Only Soroban tokens move: transfers of
    native and issued assets have no effect. *)
Theorem execute_swap_flow sender params c w res w' :
  execute_swap sender params c w = Ok res w' →
  ∃ gross fee first last_hop x0 x1 x2 x3 x4,
    head (hops (sp_route params)) = Some first ∧ last (hops (sp_route params)) = Some last_hop ∧
    reserve_reads c (w_ext w) x0 ∧
    moved c x0 (hop_source first) sender (hop_pool first) (amount_in params) x1 ∧
    hop_chain c x1 (hops (sp_route params)) (amount_in params) gross x2 ∧
    reserve_reads c x2 x3 ∧
    fee = Z.quot (gross * fee_rate w) 10000 ∧
    moved c x3 (hop_destination last_hop) (self c) (recipient params) (sr_amount_out res) x4 ∧
    fee_settled c w (hop_destination last_hop) fee x4 w' ∧
    sr_amount_out res + fee = gross ∧ sr_amount_in res = amount_in params ∧
    sr_route res = sp_route params ∧ executed_at res = ledger_seq c.
Proof.
  intros (Hs & Hp & Hra & Hmev & Hm)%execute_swap_ok.
  apply execute_swap_internal_ok in Hm as (gross & fee & Hd).
  destruct (sd_flow _ _ _ _ _ _ _ _ Hd)
    as (first & last_hop & x0 & x1 & x2 & x3 & x4 & Hf & Hl & Hr0 & Hmv & Hch & Hr3 & Hpay & Hset).
  pose proof (sd_result _ _ _ _ _ _ _ _ Hd) as ->.
  exists gross, fee, first, last_hop, x0, x1, x2, x3, x4. cbn.
  split_and!; try done; [apply Hd | lia].
Qed.

(** The books after a swap: the sender's nonce grows by exactly one and no other
    nonce changes, the total volume grows by the input amount, and the fees collected for
    the output asset grow by the fee (both saturating at the maximum of i128). *)
Theorem execute_swap_accounting sender params c w res w' :
  execute_swap sender params c w = Ok res w' →
  pget w' (StorageKey.SwapNonce sender) = Some (default 0 (pget w (StorageKey.SwapNonce sender)) + 1) ∧
  (∀ a, a ≠ sender → pget w' (StorageKey.SwapNonce a) = pget w (StorageKey.SwapNonce a)) ∧
  pget w' StorageKey.TotalSwapVolume =
    Some (add_sat (default 0 (pget w StorageKey.TotalSwapVolume)) (amount_in params)) ∧
  ∃ gross fee last_hop, pool_output c w sender params gross ∧
    last (hops (sp_route params)) = Some last_hop ∧
    fee = Z.quot (gross * fee_rate w) 10000 ∧ sr_amount_out res = gross - fee ∧
    (0 < fee →
     pget w' (StorageKey.TotalFeesCollected (hop_destination last_hop)) =
       Some (add_sat (default 0 (pget w (StorageKey.TotalFeesCollected (hop_destination last_hop)))) fee)).
Proof.
  intros (Hs & Hp & Hra & Hmev & Hm)%execute_swap_ok.
  apply execute_swap_internal_ok in Hm as (gross & fee & Hd).
  split_and!; [apply Hd..|].
  destruct (sd_fees _ _ _ _ _ _ _ _ Hd) as (last_hop & Hl & Hfee).
  exists gross, fee, last_hop. split; [by eapply sd_pool_output|].
  rewrite (sd_result _ _ _ _ _ _ _ _ Hd). cbn. split_and!; try done. apply Hd.
Qed.

End Whole.

(** ** Concrete runs *)

Definition swap_ctx : Ctx := ref_ctx 110 [trader].

Lemma swap1_runs : ∃ res w', execute_swap (H := refHost true) trader swap1 swap_ctx (after setup_calls) = Ok res w'.
Proof. apply succeeds_ok. by vm_compute. Qed.

Lemma execute_swap_guards_witness :
  ∃ res w', execute_swap (H := refHost true) trader swap1 swap_ctx (after setup_calls) = Ok res w' ∧
            9500 <= sr_amount_out res.
Proof.
  destruct swap1_runs as (res & w' & Hx). exists res, w'. split; [done|].
  apply (execute_swap_guards (H := refHost true) trader swap1 swap_ctx (after setup_calls) res w' Hx).
Defined.

Lemma execute_swap_flow_witness :
  ∃ res w' gross fee, execute_swap (H := refHost true) trader swap1 swap_ctx (after setup_calls) = Ok res w' ∧
    fee = Z.quot (gross * 30) 10000 ∧ sr_amount_out res + fee = gross.
Proof.
  destruct swap1_runs as (res & w' & Hx).
  destruct (execute_swap_flow (H := refHost true) trader swap1 swap_ctx (after setup_calls) res w' Hx)
    as (gross & fee & ? & ? & ? & ? & ? & ? & ? & _ & _ & _ & _ & _ & _ & Hf & _ & _ & Hsum & _).
  exists res, w', gross, fee. split_and!; [done| |done].
  assert (fee_rate (after setup_calls) = 30) as E by by vm_compute. by rewrite E in Hf.
Defined.

Lemma execute_swap_accounting_witness :
  ∃ res w', execute_swap (H := refHost true) trader swap1 swap_ctx (after setup_calls) = Ok res w' ∧
    pget w' (StorageKey.SwapNonce trader) = Some 1.
Proof.
  destruct swap1_runs as (res & w' & Hx). exists res, w'. split; [done|].
  destruct (execute_swap_accounting (H := refHost true) trader swap1 swap_ctx (after setup_calls) res w' Hx)
    as [Hn _].
  assert (default 0 (pget (after setup_calls) (StorageKey.SwapNonce trader)) = 0) as E by by vm_compute.
  cbn [kval] in *. by rewrite E in Hn.
Defined.
