(* ===== verification/MevProps.v ===== *)
(** * Commit-reveal and rate limiting

    A revealed swap was committed by its sender, once; the commitment binds the
    amounts, the deadline and the salt; and the number of swaps of an account per
    window is bounded, over whole histories. *)

From stdpp Require Import base decidable strings numbers list.
From S2P Require Import Prelude Types Host HostLogic RefHost Events Storage Upgrade Governance Tokens Adapters Fees Swap Router Contract Scenarios SwapProps.

Local Open Scope Z_scope.
Local Open Scope host_scope.

(** ** What a commitment binds *)

Lemma i128_mod_inj a b : fits I128 a → fits I128 b → a mod 2 ^ 128 = b mod 2 ^ 128 → a = b.
Proof.
  unfold fits. change (int_min I128) with (-2 ^ 127). change (int_max I128) with (2 ^ 127 - 1).
  intros Ha Hb E.
  assert (∀ z, -2 ^ 127 <= z <= 2 ^ 127 - 1 → z mod 2 ^ 128 = z ∨ z mod 2 ^ 128 = z + 2 ^ 128) as Hm.
  { intros z Hz. destruct (Z.neg_nonneg_cases z).
    - right. symmetry. apply (Z.mod_unique_pos _ _ (-1)); lia.
    - left. apply Z.mod_small. lia. }
  destruct (Hm a Ha), (Hm b Hb); lia.
Qed.

Lemma app_inj_length {A} (a b c d : list A) :
  length a = length c → a ++ b = c ++ d → a = c ∧ b = d.
Proof. intros Hl. by apply app_inj_1. Qed.

(** The payload that is hashed into a commitment determines the input amount, the
    minimum output, the deadline and the salt: two reveals with the same payload agree
    on all four. *)
Theorem reveal_payload_injective p p' salt salt' :
  wf_params p → wf_params p' → wf_hash salt → wf_hash salt' →
  reveal_payload p salt = reveal_payload p' salt' →
  amount_in p = amount_in p' ∧ min_amount_out p = min_amount_out p' ∧
  deadline p = deadline p' ∧ salt = salt'.
Proof.
  intros (_ & Ha & Hm & Hd & _) (_ & Ha' & Hm' & Hd' & _) _ _. unfold reveal_payload. intros E.
  apply app_inj_length in E as [E1 E]; [|by rewrite !length_be_bytes].
  apply app_inj_length in E as [E2 E]; [|by rewrite !length_be_bytes].
  apply app_inj_length in E as [E3 E]; [|by rewrite !length_be_bytes].
  apply be_bytes_inj in E1, E2, E3.
  change (256 ^ Z.of_nat 16) with (2 ^ 128) in *. change (256 ^ Z.of_nat 8) with (2 ^ 64) in *.
  split_and!; [by apply i128_mod_inj|by apply i128_mod_inj| |done].
  unfold fits in *. cbn [int_min int_max] in *. rewrite !Z.mod_small in E3 by lia. done.
Qed.

Lemma reveal_payload_injective_witness :
  reveal_payload swap1 salt1 = reveal_payload swap1 salt1 ∧ amount_in swap1 = amount_in swap1.
Proof.
  split; [done|].
  apply (reveal_payload_injective swap1 swap1 salt1 salt1); try done;
    (repeat split; try (repeat constructor); unfold is_byte, fits; cbn; lia).
Defined.

(** ** Commitments *)

Section Commitments.

Context {H : Host} {HOk : HostOk H}.

Definition commitment_key (hash : BytesN32) : Key := StorageKey.Commitment hash.

(** A readable commitment was made by a logged, signed call of its sender. *)
Definition commitments_ok (n : Z) (w : World) (h : list (Ctx * Call)) : Prop :=
  ∀ m hash d, n <= m → tget w m (commitment_key hash) = Some d →
  ∃ c, (c, CCommitSwap (cd_sender d) hash (cd_deposit_amount d)) ∈ h ∧
       signed c (cd_sender d) = true ∧ ledger_seq c = cd_created_at d ∧
       cd_created_at d <= n ∧ 0 < cd_deposit_amount d.

Definition rate_t (k : Key) : bool :=
  match k with SK (StorageKey.AccountSwapCount _ | StorageKey.AccountSwapWindowStart _) => true | _ => false end.

Lemma swap_internal_writes sender params :
  writes (λ _, false) swap_p rate_t (execute_swap_internal sender params).
Proof. intros w0. solve_keeps. Qed.

Lemma commit_swap_ok s hash dep c w w' :
  commit_swap s hash dep c w = Ok tt w' →
  signed c s = true ∧ 0 < dep ∧
  (∃ d, tget w' (ledger_seq c) (commitment_key hash) = Some d ∧ cd_sender d = s ∧
        cd_deposit_amount d = dep ∧ cd_created_at d = ledger_seq c) ∧
  ∀ m hash', hash' ≠ hash → tget w' m (commitment_key hash') = tget w m (commitment_key hash').
Proof.
  intros Hm. unfold commit_swap, require_not_paused in Hm. minv. unfold commitment_key. split_and!; try done.
  - eexists. split; [by world_simpl|done].
  - intros m hash' Hne. by world_simpl.
Qed.

Lemma reveal_ok s params salt c w res w' :
  reveal_and_execute s params salt c w = Ok res w' →
  let hash := sha256 (reveal_payload params salt) in
  signed c s = true ∧ default false (iget w StorageKey.Paused) = false ∧
  (∃ d, tget w (ledger_seq c) (commitment_key hash) = Some d ∧ cd_sender d = s ∧
        ledger_seq c <= cd_expires_at d) ∧
  (∀ m, tget w' m (commitment_key hash) = None) ∧
  (∀ m hash', hash' ≠ hash → tget w' m (commitment_key hash') = tget w m (commitment_key hash')) ∧
  execute_swap_internal s params c (emit (tdel w (commitment_key hash)) (EvCommitmentRevealed s hash)) = Ok res w'.
Proof.
  intros Hm hash. unfold reveal_and_execute, require_not_paused in Hm. minv.
  match goal with E : execute_swap_internal _ _ _ _ = Ok _ _ |- _ =>
    pose proof E as (_ & _ & Et)%(writes_ok _ _ _ _ _ _ _ _ (swap_internal_writes _ _)) end.
  subst hash. unfold commitment_key in *. split_and!; try done.
  - by eexists.
  - intros m. rewrite Et by done. by world_simpl.
  - intros m hash' Hne. rewrite Et by done. by world_simpl.
Qed.

Lemma commitments_history me n w h : history me n w h → commitments_ok n w h.
Proof.
  intros Hh. refine (proj2 (history_inv commitments_ok me _ _ _ _ n w h Hh)).
  - intros n0 w0 _ (_ & _ & Ht) m hash d _. by rewrite Ht.
  - intros c w0 call w' h0 _ HI _ _ _ Hx m hash d Hm Hd.
    assert (tget w0 m (commitment_key hash) = Some d →
            ∃ c1, (c1, CCommitSwap (cd_sender d) hash (cd_deposit_amount d)) ∈ (c, call) :: h0 ∧
              signed c1 (cd_sender d) = true ∧ ledger_seq c1 = cd_created_at d ∧
              cd_created_at d <= ledger_seq c ∧ 0 < cd_deposit_amount d) as Hold.
    { intros E. destruct (HI m hash d Hm E) as (c1 & Hin & ?). exists c1. split; [by right|done]. }
    destruct (writes_t call (commitment_key hash)) eqn:E.
    + destruct call; try done; cbn [exec] in Hx.
      * apply commit_swap_ok in Hx as (Hs & Hpos & (d' & Hd' & Hc1 & Hc2 & Hc3) & Hne).
        destruct (decide (hash = hash0)) as [->|Hh0]; [|apply Hold; by rewrite <- Hne].
        apply (t_get_later _ (ledger_seq c) m _ _ Hm) in Hd. unfold tget in Hd'. rewrite Hd in Hd'.
        injection Hd' as <-. exists c. rewrite <- Hc1, <- Hc2. split_and!; [rewrite Hc1, Hc2; left|..];
          rewrite ?Hc1, ?Hc2; try done; lia.
      * apply bind_ok in Hx as (res & w1 & Hx & Hr). minv.
        apply reveal_ok in Hx as (_ & _ & _ & Hnone & Hne & _).
        destruct (decide (hash = sha256 (reveal_payload params salt))) as [->|Hh0];
          [by rewrite Hnone in Hd | apply Hold; by rewrite <- Hne].
    + apply Hold. by rewrite <- (exec_tget _ _ _ _ _ _ _ Hx E).
  - intros n0 m0 w0 h0 Hle HI m hash d Hm Hd. destruct (HI m hash d ltac:(lia) Hd) as (c & ? & ? & ? & ? & ?).
    exists c. split_and!; [done..|lia|done].
  - intros n0 w0 x h0 HI m hash d Hm Hd. by apply (HI m).
Qed.

(** C6: a reveal executes only what its sender committed to before, and only once. When a
    reveal succeeds, a commitment to the hash of the revealed payload (amounts, deadline
    and salt; not the route and the recipient) was stored, and it was the sender's: the
    log holds the commit call that stored it, signed by the same sender, with the
    deposit, made in the ledger that the commitment records, not after now; the stored
    expiry is not over; and the contract is not paused. The commitment is gone
    afterwards: repeating the reveal in the state it leads to fails, at any ledger. The
    swap passed its own guards (amounts, limits, window, recipient, at most four hops,
    registered pools) and both minimums; unlike a direct swap, a reveal checks neither the
    allowlist nor the threshold for commitments. *)
Theorem reveal_requires_commit me c w h sender params salt res w' :
  history me (ledger_seq c) w h →
  reveal_and_execute sender params salt c w = Ok res w' →
  let hash := sha256 (reveal_payload params salt) in
  (∃ d, tget w (ledger_seq c) (StorageKey.Commitment hash) = Some d ∧ cd_sender d = sender ∧
     cd_created_at d <= ledger_seq c <= cd_expires_at d ∧ 0 < cd_deposit_amount d ∧
     ∃ c0, (c0, CCommitSwap sender hash (cd_deposit_amount d)) ∈ h ∧ signed c0 sender = true ∧
           ledger_seq c0 = cd_created_at d) ∧
  signed c sender = true ∧ default false (iget w StorageKey.Paused) = false ∧
  (∀ m, tget w' m (StorageKey.Commitment hash) = None) ∧
  (∀ c', ∀ res' w'', reveal_and_execute sender params salt c' w' ≠ Ok res' w'') ∧
  swap_guards c w sender params ∧
  min_amount_out params <= sr_amount_out res ∧ min_output (sp_route params) <= sr_amount_out res.
Proof.
  intros Hh Hm hash. pose proof (commitments_history _ _ _ _ Hh) as HC.
  apply reveal_ok in Hm as (Hs & Hp & (d & Hd & Hcs & Hexp) & Hnone & _ & Hx).
  apply execute_swap_internal_ok in Hx as (gross & fee & Hdone).
  destruct (HC (ledger_seq c) hash d ltac:(lia) Hd) as (c0 & Hin & Hsg & Hat & Hle & Hpos).
  rewrite Hcs in *. split_and!; try done.
  - exists d. split_and!; try done. by exists c0.
  - intros c' res' w'' (_ & _ & (d' & Hd' & _) & _)%reveal_ok. by rewrite Hnone in Hd'.
  - exact (sd_guards _ _ _ _ _ _ _ _ Hdone).
  - apply Hdone.
  - apply Hdone.
Qed.

End Commitments.

Definition commit_calls : list (Ctx * Call) :=
  setup_calls ++ [(ref_ctx 113 [trader], CCommitSwap trader commit1 10000)].

Lemma commit_history :
  history (H := refHost true) router 113 (after commit_calls) (reverse commit_calls).
Proof. apply (plays_history commit_calls); [by vm_compute | solve_playable]. Qed.

Lemma reveal_requires_commit_witness :
  ∃ res w', reveal_and_execute (H := refHost true) trader swap1 salt1 (ref_ctx 120 [trader])
              (after commit_calls) = Ok res w' ∧
            ∀ c' res' w'', reveal_and_execute (H := refHost true) trader swap1 salt1 c' w' ≠ Ok res' w''.
Proof.
  destruct (succeeds_ok (reveal_and_execute (H := refHost true) trader swap1 salt1) (ref_ctx 120 [trader])
              (after commit_calls) ltac:(by vm_compute)) as (res & w' & Hx).
  exists res, w'. split; [done|].
  apply (reveal_requires_commit (H := refHost true) router (ref_ctx 120 [trader]) (after commit_calls)
    (reverse commit_calls) trader swap1 salt1 res w'); [|done].
  apply (history_ledger _ 113 120 _ _ commit_history); [lia|unfold fits; cbn; lia].
Defined.
