(* ===== verification/RateProps.v ===== *)
(** * Rate limiting over whole runs

    A fixed-window limiter over temporary storage: an account starts a window with
    its first swap and may swap [rate_limit_max_swaps] times in it. [limited_run] is a
    run of the contract during which an account is subject to one configuration; it
    records the ledgers of the account's successful swaps. *)

From stdpp Require Import base decidable strings numbers list.
From S2P Require Import Prelude Types Host HostLogic RefHost Events Storage Upgrade Governance Tokens Adapters Fees Swap Router Contract Scenarios SwapProps MevProps.

Local Open Scope Z_scope.
Local Open Scope host_scope.

(** The account whose limit a call consumes. *)
Definition swapper (call : Call) : option Address :=
  match call with
  | CExecuteSwap s _ | CExecute s _ | CRevealAndExecute s _ _ => Some s
  | _ => None
  end.

Definition count_key (a : Address) : Key := StorageKey.AccountSwapCount a.
Definition start_key (a : Address) : Key := StorageKey.AccountSwapWindowStart a.

(** How many of the ledgers [ts] fall into the [window] ledgers from [t0] on. *)
Definition swaps_within (window t0 : Z) (ts : list Z) : nat :=
  length (List.filter (λ t, (t0 <=? t) && (t <? t0 + window)) ts).

(** [windowed W N ts s k]: the swaps [ts], latest first, fall into consecutive windows
    of [W] ledgers with at most [N] swaps each; the latest window began at [s] and has
    [k] of them. *)
Inductive windowed (W N : Z) : list Z → Z → Z → Prop :=
| windowed_first t : windowed W N [t] t 1
| windowed_next t ts s k :
    windowed W N ts s k → s + W <= t → windowed W N (t :: ts) t 1
| windowed_more t ts s k :
    windowed W N ts s k → s <= t < s + W → k < N → windowed W N (t :: ts) s (k + 1).

Section Run.

Context {H : Host} {HOk : HostOk H}.

(** The account is subject to the limits of [m]. *)
Definition limited (sender : Address) (m : MevConfig) (w : World) : Prop :=
  iget w StorageKey.MevConfig = Some m ∧
  default false (pget w (StorageKey.Whitelisted sender)) = false.

Inductive limited_run (me sender : Address) (m : MevConfig) : Z → World → list Z → Prop :=
| limited_start n w :
    reachable me n w →
    (∀ n', n <= n' → tget w n' (count_key sender) = None) →
    (∀ n', n <= n' → tget w n' (start_key sender) = None) →
    limited_run me sender m n w []
| limited_call c w call w' ts :
    limited_run me sender m (ledger_seq c) w ts →
    self c = me → limited sender m w →
    ledger_seq c + rate_limit_window_ledgers m <= int_max U32 →
    exec call c w = Ok tt w' →
    limited_run me sender m (ledger_seq c) w'
      (if bool_decide (swapper call = Some sender) then ledger_seq c :: ts else ts)
| limited_ledger n n' w ts :
    limited_run me sender m n w ts → n <= n' → limited_run me sender m n' w ts
| limited_other n w x ts :
    limited_run me sender m n w ts → limited_run me sender m n (with_ext w x) ts.

(** ** The effect of one check *)

Lemma swap_internal_check sender params c w res w' :
  execute_swap_internal sender params c w = Ok res w' →
  ∃ w1, check_rate_limit sender c w = Ok tt w1 ∧
        ∀ n k, tget w' n k = tget w1 n k.
Proof.
  intros Hm. unfold execute_swap_internal in Hm.
  apply bind_ok in Hm as ([] & w1 & [Hg ->]%swap_input_guards_ok & Hm).
  apply bind_ok in Hm as ([] & w1 & Hc & Hm). exists w1. split; [done|].
  eapply (writes_ok _ (λ _, false) swap_p (λ _, false)) in Hm as (_ & _ & Et); [|intros w0; solve_keeps].
  intros n k. by apply Et.
Qed.

(** Every swap path runs the check on a world with the same configuration and the
    same limiter entries. *)
Lemma swap_call_check call s c w w' :
  swapper call = Some s → exec call c w = Ok tt w' →
  ∃ w0 w1, check_rate_limit s c w0 = Ok tt w1 ∧
    (∀ k, iget w0 k = iget w k) ∧ (∀ k, pget w0 k = pget w k) ∧
    (∀ n k, rate_t k = true → tget w0 n k = tget w n k) ∧
    (∀ n k, rate_t k = true → tget w' n k = tget w1 n k).
Proof.
  intros Hs Hx. destruct call; try done; injection Hs as ->; cbn [exec] in Hx;
    apply bind_ok in Hx as (res & w9 & Hx & Hr); minv.
  - apply reveal_ok in Hx as (_ & _ & _ & _ & _ & Hx).
    apply swap_internal_check in Hx as (w1 & Hc & Et).
    match type of Hc with check_rate_limit _ _ ?w0 = _ => exists w0, w1 end.
    split_and!; [done..| |by intros].
    intros n k Hk. by world_simpl.
  - apply execute_swap_ok in Hx as (_ & _ & _ & _ & Hx).
    apply swap_internal_check in Hx as (w1 & Hc & Et). by exists w, w1.
  - unfold execute in Hx. apply bind_ok in Hx as ([] & w2 & ->%ok_spec & Hx).
    unfold on_err in Hx.
    destruct (execute_swap _ _ _ _) as [r w3|e w3|] eqn:E; [|by unfold bind, fail in Hx; case_match|done].
    simplify_eq. apply execute_swap_ok in E as (_ & _ & _ & _ & Hx).
    apply swap_internal_check in Hx as (w1 & Hc & Et). by eexists _, w1.
Qed.

(** Which window the check saw, and what it stored. *)
Lemma check_limited sender m c w w' :
  limited sender m w → fits U32 (rate_limit_max_swaps m) →
  check_rate_limit sender c w = Ok tt w' →
  let W := rate_limit_window_ledgers m in
  let start := default 0 (tget w (ledger_seq c) (start_key sender)) in
  let count := default 0 (tget w (ledger_seq c) (count_key sender)) in
  (0 < count ∧ ledger_seq c < wrap U32 (start + W) ∧ count < rate_limit_max_swaps m ∧
   w' = text (tset w (ledger_seq c) (count_key sender) (count + 1)) (ledger_seq c) (count_key sender) W W) ∨
  ((count <= 0 ∨ wrap U32 (start + W) <= ledger_seq c) ∧
   w' = text (tset (text (tset w (ledger_seq c) (start_key sender) (ledger_seq c)) (ledger_seq c)
                      (start_key sender) W W) (ledger_seq c) (count_key sender) 1)
          (ledger_seq c) (count_key sender) W W).
Proof.
  intros [Hm Hw] HN Hc W start count. unfold check_rate_limit in Hc.
  apply bind_ok in Hc as (o & w1 & [-> ->]%ok_spec & Hc). rewrite Hm in Hc.
  apply bind_ok in Hc as (wl & w1 & [-> ->]%ok_spec & Hc). rewrite Hw in Hc.
  apply bind_ok in Hc as (now & w1 & [-> ->]%ok_spec & Hc).
  apply bind_ok in Hc as (st & w1 & [-> ->]%ok_spec & Hc).
  apply bind_ok in Hc as (cn & w1 & [-> ->]%ok_spec & Hc).
  fold (start_key sender) (count_key sender) in Hc. fold start count W in Hc.
  apply bind_ok in Hc as (within & w1 & Hwi & Hc).
  assert (w1 = w ∧ within = (0 <? count) && (ledger_seq c <? wrap U32 (start + W))) as [-> ->].
  { destruct (0 <? count).
    - apply bind_ok in Hwi as (we & w2 & (-> & _ & ->)%ok_spec & Hwi). by apply ok_spec in Hwi as [-> ->].
    - by apply ok_spec in Hwi as [-> ->]. }
  clear Hwi. clearbody start count W.
  destruct ((0 <? count) && _) eqn:E.
  - left. bools. minv. rewrite (wrap_id _ (count + 1)) by (unfold fits in *; cbn in *; lia). done.
  - right. apply andb_false_iff in E. split; [destruct E; bools; auto|]. by minv.
Qed.

Lemma check_other s sender c w w' n :
  s ≠ sender → check_rate_limit s c w = Ok tt w' →
  tget w' n (count_key sender) = tget w n (count_key sender) ∧
  tget w' n (start_key sender) = tget w n (start_key sender).
Proof.
  intros Hne Hm. unfold check_rate_limit, count_key, start_key in *.
  repeat (minv_step; subst); split; by world_simpl.
Qed.

(** ** The invariant *)

(** The entries of the account at ledgers from [n] on: readable for the rest of the
    window, and never anything else. *)
Definition entries (sender : Address) (W n : Z) (w : World) (s k : Z) : Prop :=
  (∀ n', n <= n' < s + W → tget w n' (start_key sender) = Some s ∧ tget w n' (count_key sender) = Some k) ∧
  (∀ n' v, n <= n' → tget w n' (start_key sender) = Some v → v = s) ∧
  (∀ n' v, n <= n' → tget w n' (count_key sender) = Some v → v = k).

Definition rate_inv (sender : Address) (m : MevConfig) (n : Z) (w : World) (ts : list Z) : Prop :=
  0 <= n ∧
  match ts with
  | [] => (∀ n', n <= n' → tget w n' (count_key sender) = None) ∧
          (∀ n', n <= n' → tget w n' (start_key sender) = None)
  | _ => ∃ s k, windowed (rate_limit_window_ledgers m) (rate_limit_max_swaps m) ts s k ∧
                0 <= s <= n ∧ 1 <= k ∧ entries sender (rate_limit_window_ledgers m) n w s k
  end.

(** A value written and kept alive for [W] ledgers at ledger [n]. *)
Lemma kept_alive w n k v W n' :
  n <= n' <= n + W → tget (text (tset w n k v) n k W W) n' k = Some v.
Proof. intros Hn. apply t_get_extended; [|done]. apply t_get_set_eq. Qed.

Lemma later_is (w : World) n n' k v v' :
  n <= n' → tget w n' k = Some v' → tget w n k = Some v → v' = v.
Proof. intros Hn Hl Hr. pose proof (t_get_later (w_temp w) n n' k v' Hn Hl). unfold tget in *. congruence. Qed.

(** A new window. *)
Lemma entries_new sender W n w :
  0 <= W →
  entries sender W n
    (text (tset (text (tset w n (start_key sender) n) n (start_key sender) W W) n (count_key sender) 1)
       n (count_key sender) W W) n 1.
Proof.
  intros HW. set (w' := text _ _ _ _ _).
  assert (∀ n', n <= n' <= n + W → tget w' n' (start_key sender) = Some n) as Hs.
  { intros n' Hn'. unfold w'. rewrite tget_text_ne, tget_tset_ne by done. by apply kept_alive. }
  assert (∀ n', n <= n' <= n + W → tget w' n' (count_key sender) = Some 1) as Hc.
  { intros n' Hn'. unfold w'. by apply kept_alive. }
  split_and!.
  - intros n' Hn'. split; [apply Hs | apply Hc]; lia.
  - intros n' v Hn' Hv. eapply later_is; [exact Hn'|exact Hv|]. apply Hs. lia.
  - intros n' v Hn' Hv. eapply later_is; [exact Hn'|exact Hv|]. apply Hc. lia.
Qed.

(** One more swap in the current window. *)
Lemma entries_more sender W n w s k :
  0 <= s <= n → n < s + W → entries sender W n w s k →
  entries sender W n (text (tset w n (count_key sender) (k + 1)) n (count_key sender) W W) s (k + 1).
Proof.
  intros Hs Hn (He & Hes & Hec). set (w' := text _ _ _ _ _).
  assert (∀ n', tget w' n' (start_key sender) = tget w n' (start_key sender)) as Est.
  { intros n'. unfold w'. by rewrite tget_text_ne, tget_tset_ne by done. }
  assert (∀ n', n <= n' <= n + W → tget w' n' (count_key sender) = Some (k + 1)) as Ec.
  { intros n' Hn'. unfold w'. by apply kept_alive. }
  split_and!.
  - intros n' Hn'. rewrite Est. split; [by apply He | apply Ec; lia].
  - intros n' v Hn'. rewrite Est. by apply Hes.
  - intros n' v Hn' Hv. eapply later_is; [exact Hn'|exact Hv|]. apply Ec. lia.
Qed.

Lemma rate_inv_swap sender m c w w' ts :
  rate_inv sender m (ledger_seq c) w ts → limited sender m w → wf_mev_config m →
  ledger_seq c + rate_limit_window_ledgers m <= int_max U32 →
  check_rate_limit sender c w = Ok tt w' →
  rate_inv sender m (ledger_seq c) w' (ledger_seq c :: ts).
Proof.
  intros [Hn HI] Hl (_ & _ & HW & HN & _) Hb Hc.
  assert (0 <= rate_limit_window_ledgers m) by (unfold fits in HW; cbn in HW; lia).
  apply (check_limited _ _ _ _ _ Hl HN) in Hc. cbn zeta in Hc.
  set (n := ledger_seq c) in *. set (W := rate_limit_window_ledgers m) in *.
  split; [done|]. destruct ts as [|t ts].
  - destruct HI as [Hc0 Hs0]. rewrite Hc0, Hs0 in Hc by lia.
    destruct Hc as [(Hpos & _)|(_ & ->)]; [cbn in Hpos; lia|].
    exists n, 1. split_and!; [constructor|lia|lia|lia|by apply entries_new].
  - destruct HI as (s & k & Hwin & Hs & Hk & He). pose proof He as (He1 & Hes & Hec).
    destruct (Z.lt_ge_cases n (s + W)) as [Hlt|Hge].
    + destruct (He1 n) as [E1 E2]; [lia|]. rewrite E1, E2 in Hc. cbn in Hc.
      rewrite wrap_id in Hc by (unfold fits; cbn in *; lia).
      destruct Hc as [(_ & _ & HkN & ->)|([?|?] & _)]; [|lia|lia].
      exists s, (k + 1). split_and!; [eapply windowed_more; [exact Hwin|lia|lia]|lia|lia|lia|by apply entries_more].
    + assert (∃ st, default 0 (tget w n (start_key sender)) = st ∧ 0 <= st <= s) as (st & Est & Hst).
      { destruct (tget w n (start_key sender)) as [v|] eqn:E; cbn; [|exists 0; lia].
        rewrite (Hes n v) by (done || lia). exists s. lia. }
      cbn [kval start_key] in *. rewrite Est in Hc.
      rewrite wrap_id in Hc by (unfold fits; cbn in *; lia).
      destruct Hc as [(_ & ? & _)|(_ & ->)]; [lia|].
      exists n, 1. split_and!; [eapply windowed_next; [exact Hwin|lia]|lia|lia|lia|by apply entries_new].
Qed.

(** The limiter entries of the account did not change. *)
Lemma rate_inv_frame sender m n w w' ts :
  (∀ n', n <= n' → tget w' n' (count_key sender) = tget w n' (count_key sender)) →
  (∀ n', n <= n' → tget w' n' (start_key sender) = tget w n' (start_key sender)) →
  rate_inv sender m n w ts → rate_inv sender m n w' ts.
Proof.
  intros Hc Hs [Hn HI]. split; [done|]. destruct ts as [|t ts].
  - destruct HI as [H1 H2]. split; intros n' Hn'; [rewrite Hc | rewrite Hs]; auto.
  - destruct HI as (s & k & Hwin & Hr & Hk & H1 & H2 & H3). exists s, k. do 3 (split; [done|]). split_and!.
    + intros n' Hn'. rewrite Hc, Hs by lia. auto.
    + intros n' v Hn'. rewrite Hs by lia. by apply H2.
    + intros n' v Hn'. rewrite Hc by lia. by apply H3.
Qed.

Lemma rate_inv_later sender m n n' w ts :
  n <= n' → rate_inv sender m n w ts → rate_inv sender m n' w ts.
Proof.
  intros Hle [Hn HI]. split; [lia|]. destruct ts as [|t ts].
  - destruct HI as [H1 H2]. split; intros; [apply H1|apply H2]; lia.
  - destruct HI as (s & k & Hwin & Hr & Hk & H1 & H2 & H3). exists s, k.
    split; [done|]. split; [lia|]. split; [done|]. split_and!; intros.
    + apply H1. lia.
    + apply (H2 n'0); [lia|done].
    + apply (H3 n'0); [lia|done].
Qed.

Lemma reachable_ledger me n w : reachable me n w → 0 <= n.
Proof.
  intros [h Hh]. enough (fits U32 n) as [? _] by done.
  refine (proj1 (history_inv (λ _ _ _, True) me _ _ _ _ n w h Hh)); done.
Qed.

Lemma limited_run_inv me sender m n w ts :
  wf_mev_config m → limited_run me sender m n w ts → rate_inv sender m n w ts.
Proof.
  intros Hwf Hr. induction Hr as [n w Hreach Hc Hs|c w call w' ts Hr IH Hme Hl Hb Hx|n n' w ts Hr IH Hle|n w x ts Hr IH].
  - split; [by eapply reachable_ledger | done].
  - destruct (swapper call) as [s|] eqn:Esw.
    + destruct (swap_call_check _ _ _ _ _ Esw Hx) as (w0 & w1 & Hck & Ei & Ep & Et0 & Et1).
      assert (rate_inv sender m (ledger_seq c) w0 ts) as IH0
        by (eapply rate_inv_frame; [intros; by apply Et0|intros; by apply Et0|done]).
      eapply rate_inv_frame; [intros; by apply Et1|intros; by apply Et1|].
      case_bool_decide as Es.
      * injection Es as ->. eapply rate_inv_swap; try done. split; [rewrite Ei|rewrite Ep]; apply Hl.
      * eapply rate_inv_frame; [| |exact IH0]; intros n' _;
          apply (check_other s sender c w0 w1 n'); congruence.
    + rewrite bool_decide_eq_false_2 by done.
      eapply rate_inv_frame; [| |exact IH]; intros n' _; apply (exec_tget _ _ _ _ _ _ _ Hx);
        by destruct call.
  - by eapply rate_inv_later.
  - done.
Qed.

End Run.

(** ** Counting *)

Lemma swaps_within_cons W t0 t ts :
  Z.of_nat (swaps_within W t0 (t :: ts)) =
  (if (t0 <=? t) && (t <? t0 + W) then 1 else 0) + Z.of_nat (swaps_within W t0 ts).
Proof. unfold swaps_within. cbn. case_match; cbn [length]; lia. Qed.

Lemma swaps_within_none W t0 b ts :
  (∀ t, t ∈ ts → t < b) → b <= t0 → swaps_within W t0 ts = 0%nat.
Proof.
  intros Hts Hb. induction ts as [|t ts IH]; [done|].
  pose proof (swaps_within_cons W t0 t ts) as E. assert (t < b) by (apply Hts; left).
  rewrite IH in E by (intros; apply Hts; by right).
  rewrite (proj2 (Z.leb_gt t0 t)) in E by lia. cbn [andb] in E. lia.
Qed.

Lemma windowed_counts W N ts s k :
  0 <= W → 1 <= N → windowed W N ts s k →
  1 <= k <= N ∧ (∀ t, t ∈ ts → t < s + Z.max W 1) ∧
  (∀ t0, s <= t0 → Z.of_nat (swaps_within W t0 ts) <= k) ∧
  (∀ t0, s - W < t0 → Z.of_nat (swaps_within W t0 ts) <= N + k) ∧
  (∀ t0, Z.of_nat (swaps_within W t0 ts) <= 2 * N).
Proof.
  intros HW0 HN Hw. induction Hw as [t|t ts s k Hw IH Ht|t ts s k Hw IH Ht Hk].
  - assert (∀ t0, Z.of_nat (swaps_within W t0 [t]) <= 1) as H1.
    { intros t0. rewrite swaps_within_cons. case_match; cbn; lia. }
    split_and!; try lia.
    + intros x ->%list_elem_of_singleton. lia.
    + intros t0 _. apply H1.
    + intros t0 _. specialize (H1 t0). lia.
    + intros t0. specialize (H1 t0). lia.
  - destruct IH as (IHk & IHt & IH1 & IH2 & IH3).
    split_and!; try lia.
    + intros x [->|Hx]%elem_of_cons; [lia|]. apply IHt in Hx. lia.
    + intros t0 Ht0. rewrite swaps_within_cons.
      destruct (Z.le_gt_cases W 0) as [HW|HW].
      * assert (Z.of_nat (swaps_within W t0 ts) = 0) as ->.
        { clear - HW. induction ts as [|x ts IH]; [done|]. rewrite swaps_within_cons, IH.
          destruct ((t0 <=? x) && (x <? t0 + W)) eqn:E; [|done]. bools. lia. }
        case_match; lia.
      * rewrite (swaps_within_none W t0 (s + W)); [case_match; lia| |lia].
        intros x Hx. apply IHt in Hx. lia.
    + intros t0 Ht0. rewrite swaps_within_cons. specialize (IH1 t0 ltac:(lia)). case_match; lia.
    + intros t0. rewrite swaps_within_cons. destruct (Z.lt_ge_cases (t - W) t0) as [Hlt|Hge].
      * specialize (IH1 t0 ltac:(lia)). case_match; lia.
      * rewrite (proj2 (Z.ltb_ge t (t0 + W))) by lia. rewrite andb_false_r. specialize (IH3 t0). lia.
  - destruct IH as (IHk & IHt & IH1 & IH2 & IH3).
    split_and!; try lia.
    + intros x [->|Hx]%elem_of_cons; [lia|]. by apply IHt.
    + intros t0 Ht0. rewrite swaps_within_cons. specialize (IH1 t0 Ht0). case_match; lia.
    + intros t0 Ht0. rewrite swaps_within_cons. specialize (IH2 t0 Ht0). case_match; lia.
    + intros t0. rewrite swaps_within_cons. destruct (Z.lt_ge_cases (s - W) t0) as [Hlt|Hge].
      * specialize (IH2 t0 Hlt). case_match; lia.
      * rewrite (proj2 (Z.ltb_ge t (t0 + W))) by lia. rewrite andb_false_r. specialize (IH3 t0). lia.
Qed.

(** C5: the limiter holds over whole runs under one configuration. Take an account with no
    live limiter entries (it has not swapped, or its entries have expired), and a run from
    there on in which it is always subject to the same limit of [N] swaps, at least one,
    per window of [W] ledgers, is not whitelisted, and no call is made within [W] ledgers
    of the last [u32] ledger number. Whatever else happens in between, its successful
    swaps (direct, through the alias, or revealed) fall into consecutive windows of [W]
    ledgers with at most [N] swaps each; in particular any [W] consecutive ledgers see at
    most [2 * N] of them. The temporary entries outlive the window, and their expiry
    starts a new window at the right time. (When the window is changed while entries are
    live this fails: [window_change_forgets].) *)
Theorem rate_limit_enforced {H : Host} {HOk : HostOk H} me sender m n w ts :
  wf_mev_config m → 1 <= rate_limit_max_swaps m →
  limited_run me sender m n w ts →
  (ts = [] ∨ ∃ s k, windowed (rate_limit_window_ledgers m) (rate_limit_max_swaps m) ts s k) ∧
  ∀ t0, Z.of_nat (swaps_within (rate_limit_window_ledgers m) t0 ts) <= 2 * rate_limit_max_swaps m.
Proof.
  intros Hwf HN Hr. destruct (limited_run_inv _ _ _ _ _ _ Hwf Hr) as [_ HI]. destruct ts as [|t ts].
  - split; [by left|]. intros t0. cbn. lia.
  - destruct HI as (s & k & Hw & _). split; [right; by exists s, k|].
    apply (windowed_counts _ _ _ s k); [|done|done].
    destruct Hwf as (_ & _ & HW & _). unfold fits in HW. cbn in HW. lia.
Qed.

(** ** A concrete run: two swaps in a window, then a third one in the next *)

Definition swapped1 : World (H := refHost true) :=
  result_world (exec (CExecuteSwap trader swap1)) (ref_ctx 110 [trader]) (after setup_calls).
Definition swapped2 : World (H := refHost true) :=
  result_world (exec (CExecute trader swap1)) (ref_ctx 112 [trader]) swapped1.
Definition swapped3 : World (H := refHost true) :=
  result_world (exec (CExecuteSwap trader swap1)) (ref_ctx 120 [trader]) swapped2.

Lemma limited_swap n call c w w' ts :
  limited_run (H := refHost true) router trader mev1 n w ts →
  n <= ledger_seq c → self c = router → ledger_seq c + 10 <= int_max U32 →
  swapper call = Some trader → limited (H := refHost true) trader mev1 w →
  exec call c w = Ok tt w' → limited_run (H := refHost true) router trader mev1 (ledger_seq c) w' (ledger_seq c :: ts).
Proof.
  intros Hr Hn Hme Hb Hs Hl Hx.
  assert (ledger_seq c :: ts =
          if bool_decide (swapper call = Some trader) then ledger_seq c :: ts else ts) as ->
    by by rewrite bool_decide_eq_true_2.
  eapply limited_call; [by eapply limited_ledger|done|done|done|done].
Qed.

Lemma rate_limit_enforced_witness :
  limited_run (H := refHost true) router trader mev1 120 swapped3 [120; 112; 110] ∧
  Z.of_nat (swaps_within 10 110 [120; 112; 110]) = 2 ∧
  ∀ t0, Z.of_nat (swaps_within 10 t0 [120; 112; 110]) <= 4.
Proof.
  assert (limited_run (H := refHost true) router trader mev1 120 swapped3 [120; 112; 110]) as Hr.
  { apply (limited_swap 112 (CExecuteSwap trader swap1) (ref_ctx 120 [trader]) swapped2);
      [|done|done|done|done|split; by vm_compute|unfold swapped3; apply succeeds_result; by vm_compute].
    apply (limited_swap 110 (CExecute trader swap1) (ref_ctx 112 [trader]) swapped1);
      [|done|done|done|done|split; by vm_compute|unfold swapped2; apply succeeds_result; by vm_compute].
    apply (limited_swap 104 (CExecuteSwap trader swap1) (ref_ctx 110 [trader]) (after setup_calls));
      [|done|done|done|done|split; by vm_compute|unfold swapped1; apply succeeds_result; by vm_compute].
    apply limited_start; [eexists; apply setup_history|intros; by vm_compute|intros; by vm_compute]. }
  split_and!; [done|by vm_compute|].
  apply (rate_limit_enforced (H := refHost true) router trader mev1 120 swapped3); [|done|done].
  repeat split; cbn; lia.
Defined.

(** ** Changing the window *)

(** The same limit of two swaps, for windows of 100 ledgers. *)
Definition mev_wide : MevConfig := mkMevConfig 500 500 100 2 100000.

Definition widened_calls : list (Ctx * Call) :=
  setup_calls ++
  [(ref_ctx 110 [trader], CExecuteSwap trader swap1);
   (ref_ctx 118 [trader], CExecuteSwap trader swap1);
   (ref_ctx 119 [admin], CConfigureMev mev_wide);
   (ref_ctx 127 [trader], CExecuteSwap trader swap1);
   (ref_ctx 128 [trader], CExecuteSwap trader swap1)].

(** The entries live as long as the configuration asked under which they were written.
    When the admin widens the window from 10 to 100 ledgers after two swaps, the start of
    the window still expires soon: the account swaps twice more, four times within 19
    ledgers under a limit of two per 100. *)
Theorem window_change_forgets :
  plays widened_calls = true ∧
  iget (after widened_calls) StorageKey.MevConfig = Some mev_wide ∧
  swaps_within 100 110 [128; 127; 118; 110] = 4%nat ∧ rate_limit_max_swaps mev_wide = 2.
Proof. split_and!; by vm_compute. Qed.
