(* ===== verification/TokensProps.v ===== *)
(** * The token allowlist

    The token count is the number of allowed tokens in every reachable state, so that
    the route check enforces the allowlist exactly when there is one; and the category
    index lists every allowed token. *)

From stdpp Require Import base decidable strings numbers list.
From S2P Require Import Prelude Types Host HostLogic RefHost Events Storage Upgrade Governance Tokens Adapters Fees Swap Router Contract Scenarios SwapProps.

Local Open Scope Z_scope.
Local Open Scope host_scope.

Section Allowlist.

Context {H : Host} {HOk : HostOk H}.

Definition token_count (w : World) : Z := default 0 (iget w StorageKey.TokenCount).

(** [l] enumerates the allowed tokens. *)
Definition enumerates (w : World) (l : list Asset) : Prop :=
  NoDup l ∧ ∀ a, a ∈ l ↔ allowed w a.

Definition count_ok (_ : Ctx) (w : World) : Prop :=
  (∃ l, enumerates w l ∧ token_count w = Z.of_nat (length l)) ∧ fits U32 (token_count w).

(** Every allowed token has an entry in the index of some category. *)
Definition index_ok (_ : Ctx) (w : World) : Prop :=
  (∀ cat, 0 <= default 0 (pget w (IdxKey.CatLen cat))) ∧
  ∀ a, allowed w a → ∃ cat i,
    0 <= i < default 0 (pget w (IdxKey.CatLen cat)) ∧ pget w (IdxKey.CatEntry cat i) = Some a.

Definition count_i (k : Key) : bool := match k with SK StorageKey.TokenCount => true | _ => false end.

Definition token_p (k : Key) : bool := match k with SK (StorageKey.AllowedToken _) => true | _ => false end.

#[export] Instance count_footprint : Footprint count_ok count_i token_p (λ _, false).
Proof.
  intros c w w' Hi Hp _ [(l & [Hd Hl] & Hc) Hf]. unfold count_ok, token_count in *.
  rewrite <- Hi by done. split; [|done]. exists l. split; [|done]. split; [done|].
  intros a. unfold allowed in *. by rewrite <- Hp.
Qed.

#[export] Instance index_footprint : Footprint index_ok (λ _, false) allowlist_p (λ _, false).
Proof.
  intros c w w' _ Hp _ [HL HI]. split; [intros cat; by rewrite <- Hp|].
  intros a Ha. unfold allowed in Ha. rewrite <- Hp in Ha by done. destruct (HI a Ha) as (cat & i & Hi & He). exists cat, i. by rewrite <- !Hp.
Qed.

(** ** The operations *)

Lemma add_token_internal_ok caller info c w u w' :
  add_token_internal caller info c w = Ok u w' →
  ti_decimals info <= MAX_DECIMALS ∧ ¬ allowed w (ti_asset info) ∧
  pget w' (StorageKey.AllowedToken (ti_asset info)) = Some info ∧
  (∀ a, a ≠ ti_asset info → pget w' (StorageKey.AllowedToken a) = pget w (StorageKey.AllowedToken a)) ∧
  token_count w' = token_count w + 1 ∧ fits U32 (token_count w') ∧
  (let cat := ti_category info in
   let len := default 0 (pget w (IdxKey.CatLen cat)) in
   pget w' (IdxKey.CatLen cat) = Some (len + 1) ∧ pget w' (IdxKey.CatEntry cat len) = Some (ti_asset info) ∧
   (∀ cat' i, (cat', i) ≠ (cat, len) → pget w' (IdxKey.CatEntry cat' i) = pget w (IdxKey.CatEntry cat' i)) ∧
   (∀ cat', cat' ≠ cat → pget w' (IdxKey.CatLen cat') = pget w (IdxKey.CatLen cat'))).
Proof.
  intros Hm. unfold add_token_internal, validate_token_info, push_cat_entry, set_cat_len, cat_len in Hm.
  minv. unfold allowed, token_count in *.
  repeat match goal with E : checked_add _ _ _ = Some _ |- _ => apply chk_Some in E as [-> ?] end.
  assert (∀ cat, pget (pext (pset w (StorageKey.AllowedToken (ti_asset info)) info) (ledger_seq c)
                         (StorageKey.AllowedToken (ti_asset info)) 17280 (17280 * 365)) (IdxKey.CatLen cat) =
                 pget w (IdxKey.CatLen cat)) as E by (intros; by world_simpl).
  cbn [kval] in *. rewrite !E.
  cbn zeta. split_and!; try done; try (world_simpl; done); try (intros; world_simpl; done).
Qed.

Lemma keeps_count_add caller info : keeps count_ok (add_token_internal caller info).
Proof.
  intros c w u w' [(l & [Hd Hl] & Hc) Hf] Hm.
  apply add_token_internal_ok in Hm as (_ & Hn & Ha & Hne & Hcount & Hf' & _).
  split; [|done]. exists (ti_asset info :: l). split; [split|].
  - constructor; [|done]. by rewrite Hl.
  - intros a. rewrite elem_of_cons, Hl. unfold allowed. destruct (decide (a = ti_asset info)) as [->|Hx].
    + rewrite Ha. naive_solver.
    + rewrite Hne by done. naive_solver.
  - rewrite Hcount, Hc. cbn. lia.
Qed.

Lemma keeps_index_add caller info : keeps index_ok (add_token_internal caller info).
Proof.
  intros c w u w' [HL HI] Hm.
  apply add_token_internal_ok in Hm as (_ & _ & Ha & Hne & _ & _ & Hlen & Hent & Hents & Hlens).
  set (cat := ti_category info) in *. set (len := default 0 (pget w (IdxKey.CatLen cat))) in *.
  assert (0 <= len) by apply HL.
  assert (∀ cat', default 0 (pget w (IdxKey.CatLen cat')) <= default 0 (pget w' (IdxKey.CatLen cat'))) as Hmono.
  { intros cat'. destruct (decide (cat' = cat)) as [->|Hc]; [rewrite Hlen; cbn; fold len; lia|].
    rewrite Hlens by done. lia. }
  split; [intros cat'; specialize (HL cat'); specialize (Hmono cat'); lia|].
  intros a Haw. destruct (decide (a = ti_asset info)) as [->|Hx].
  - exists cat, len. rewrite Hlen. cbn. split; [lia|done].
  - unfold allowed in Haw. rewrite Hne in Haw by done. destruct (HI a Haw) as (cat' & i & Hi & He).
    exists cat', i. specialize (Hmono cat'). split; [lia|]. rewrite Hents; [done|].
    intros [= -> ->]. fold len in Hi. lia.
Qed.

Lemma do_remove_ok caller asset c w u w' :
  do_remove caller asset c w = Ok u w' →
  pget w' (StorageKey.AllowedToken asset) = None ∧
  (∀ k : Key, k ≠ StorageKey.AllowedToken asset → pget w' k = pget w k) ∧
  token_count w' = (if 0 <? token_count w then clamp U32 (token_count w - 1) else token_count w).
Proof.
  intros Hm. unfold do_remove, Storage.remove_token in Hm. minv; unfold token_count in *;
    split_and!; try (world_simpl; done); try (intros; world_simpl; done); world_simpl.
  - rewrite (proj2 (Z.ltb_lt _ _)) by done. done.
  - rewrite (proj2 (Z.ltb_ge _ _)) by done. done.
Qed.

Lemma remove_token_internal_ok caller asset c w u w' :
  remove_token_internal caller asset c w = Ok u w' →
  allowed w asset ∧ do_remove caller asset c w = Ok u w'.
Proof.
  intros Hm. unfold remove_token_internal, Storage.is_token_allowed in Hm. unfold allowed.
  repeat match goal with
  | E : do_remove _ _ _ _ = Ok _ _ |- _ => progress bools
  | _ => minv_step; subst
  end; bools; done.
Qed.

Lemma keeps_count_remove caller asset : keeps count_ok (remove_token_internal caller asset).
Proof.
  intros c w u w' [(l & [Hd Hl] & Hc) Hf] [Ha Hm]%remove_token_internal_ok.
  apply do_remove_ok in Hm as (Hnone & Hne & Hcount).
  apply Hl in Ha. apply elem_of_Permutation in Ha as [l0 Hp]. rewrite Hp in Hd.
  apply NoDup_cons in Hd as [Hnin Hd]. rewrite Hp in Hc. cbn in Hc.
  assert (token_count w' = Z.of_nat (length l0)) as Hc'.
  { rewrite Hcount. unfold fits in Hf. rewrite (proj2 (Z.ltb_lt _ _)) by lia.
    unfold clamp. cbn in *. lia. }
  split; [|rewrite Hc'; unfold fits in *; cbn in *; lia].
  exists l0. split; [split; [done|]|done].
  - intros a. unfold allowed. destruct (decide (a = asset)) as [->|Hx].
    + rewrite Hnone. split; [done|by intros []].
    + rewrite Hne by congruence. fold (allowed w a). rewrite <- Hl, Hp, elem_of_cons. naive_solver.
Qed.

Lemma keeps_index_remove caller asset : keeps index_ok (remove_token_internal caller asset).
Proof.
  intros c w u w' [HL HI] [_ Hm]%remove_token_internal_ok.
  apply do_remove_ok in Hm as (Hnone & Hne & _). split; [intros cat; by rewrite Hne|].
  intros a Ha. unfold allowed in Ha. destruct (decide (a = asset)) as [->|Hx]; [by rewrite Hnone in Ha; destruct Ha|].
  rewrite Hne in Ha by congruence. destruct (HI a Ha) as (cat & i & Hi & He).
  exists cat, i. by rewrite !Hne.
Qed.

Lemma update_token_internal_ok caller asset info c w u w' :
  update_token_internal caller asset info c w = Ok u w' →
  allowed w asset ∧ token_count w' = token_count w ∧
  (∀ a, allowed w' a ↔ allowed w a) ∧
  (∀ k : Key, k ≠ StorageKey.AllowedToken asset → pget w' k = pget w k).
Proof.
  intros Hm. unfold update_token_internal, Storage.is_token_allowed, validate_token_info in Hm. minv.
  unfold allowed, token_count. split_and!; try done.
  - by world_simpl.
  - intros a. world_simpl. destruct (decide (a = ti_asset info)) as [->|]; world_simpl; naive_solver.
  - intros k Hk. by world_simpl.
Qed.

Lemma keeps_count_update caller asset info : keeps count_ok (update_token_internal caller asset info).
Proof.
  intros c w u w' [(l & [Hd Hl] & Hc) Hf] (_ & Hcount & Ha & _)%update_token_internal_ok.
  unfold count_ok. rewrite Hcount. split; [|done]. exists l. split; [|done]. split; [done|]. intros a. by rewrite Ha.
Qed.

Lemma keeps_index_update caller asset info : keeps index_ok (update_token_internal caller asset info).
Proof.
  intros c w u w' [HL HI] (_ & _ & Ha & Hne)%update_token_internal_ok. split; [intros cat; by rewrite Hne|].
  intros a Hal. apply Ha in Hal. destruct (HI a Hal) as (cat & i & Hi & He). exists cat, i. by rewrite !Hne.
Qed.

#[local] Hint Resolve keeps_count_add keeps_count_remove keeps_count_update : keeps.
#[local] Hint Resolve keeps_index_add keeps_index_remove keeps_index_update : keeps.

Lemma count_calls call : keeps count_ok (exec call).
Proof. destruct call; frame_calls; cbn [exec]; solve_keeps. Qed.

Lemma index_calls call : keeps index_ok (exec call).
Proof. destruct call; frame_calls; cbn [exec]; solve_keeps. Qed.

Lemma reachable_count me n w : reachable me n w → ∃ l, enumerates w l ∧ token_count w = Z.of_nat (length l).
Proof.
  intros Hr. refine (proj1 (reachable_inv count_ok me n w _ _ _ _ Hr (mkCtx n me (λ _, false)))); try done.
  - intros c w0 (Hi & Hp & _). unfold count_ok, token_count, enumerates, allowed. rewrite Hi.
    split; [|done]. exists []. split_and!; [apply NoDup_nil_2| |done].
    intros a. rewrite Hp. split; [by intros ?%not_elem_of_nil|by intros []].
  - intros call _. apply count_calls.
Qed.

Lemma reachable_index me n w c : reachable me n w → index_ok c w.
Proof.
  intros Hr. refine (reachable_inv index_ok me n w _ _ _ _ Hr c); try done.
  - intros c0 w0 (Hi & Hp & _). split; [intros cat; by rewrite Hp|].
    intros a. unfold allowed. rewrite Hp. by intros [].
  - intros call _. apply index_calls.
Qed.

(** ** The route check *)

Lemma for_each_check {A} (l : list A) (f : A → M unit) (P : A → Prop) e c w :
  (∀ x, f x c w = Ok tt w ∧ P x ∨ f x c w = Err e w ∧ ¬ P x) →
  (for_each l f c w = Ok tt w ∧ ∀ x, x ∈ l → P x) ∨
  (for_each l f c w = Err e w ∧ ¬ ∀ x, x ∈ l → P x).
Proof.
  intros Hf. induction l as [|x l IH]; [left; split; [done|]; intros x Hx; by apply not_elem_of_nil in Hx|].
  cbn [for_each]. unfold bind. destruct (Hf x) as [[-> Hx]|[-> Hx]].
  - destruct IH as [[-> Hl]|[-> Hl]].
    + left. split; [done|]. intros y [->|Hy]%elem_of_cons; auto.
    + right. split; [done|]. intros Hall. apply Hl. intros y Hy. apply Hall. by right.
  - right. split; [done|]. intros Hall. apply Hx, Hall. by left.
Qed.

Lemma is_allowed_run a c w :
  Storage.is_token_allowed a c w = Ok (bool_decide (allowed w a)) w.
Proof. done. Qed.

Lemma route_assets_check me n w route c :
  reachable me n w →
  let ok := (∀ a, ¬ allowed w a) ∨
            ∀ hop, hop ∈ hops route → allowed w (hop_source hop) ∧ allowed w (hop_destination hop) in
  (validate_route_assets route c w = Ok tt w ∧ ok) ∨
  (validate_route_assets route c w = Err ContractError.TokenNotAllowed w ∧ ¬ ok).
Proof.
  intros Hr ok. destruct (reachable_count _ _ _ Hr) as (l & [Hd Hl] & Hc).
  pose (check := λ hop : RouteHop,
      s ← Storage.is_token_allowed (hop_source hop);
      fail_when (negb s) ContractError.TokenNotAllowed;;
      d ← Storage.is_token_allowed (hop_destination hop);
      fail_when (negb d) ContractError.TokenNotAllowed).
  assert (validate_route_assets route c w =
          (if token_count w =? 0 then ret tt else for_each (hops route) check) c w) as -> by reflexivity.
  destruct (token_count w =? 0) eqn:E; bools.
  - left. split; [done|]. left. intros a Ha. apply Hl in Ha. destruct l; [by apply not_elem_of_nil in Ha|].
    cbn in Hc. lia.
  - assert (∃ a, allowed w a) as [a0 Ha0].
    { destruct l as [|a l]; [cbn in Hc; lia|]. exists a. apply Hl. left. }
    edestruct (for_each_check (hops route) check
      (λ hop, allowed w (hop_source hop) ∧ allowed w (hop_destination hop)) ContractError.TokenNotAllowed c w)
      as [[Hx Hall]|[Hx Hno]]; [|left; split; [exact Hx|by right]|right; split; [exact Hx|]].
    + intros hop.
      assert (check hop c w =
        if bool_decide (allowed w (hop_source hop)) && bool_decide (allowed w (hop_destination hop))
        then Ok tt w else Err ContractError.TokenNotAllowed w) as ->.
      { unfold check, bind. rewrite is_allowed_run. destruct (bool_decide (allowed w (hop_source hop))); [|done].
        cbn [negb fail_when ret]. unfold ret. rewrite is_allowed_run.
        by destruct (bool_decide (allowed w (hop_destination hop))). }
      repeat case_bool_decide; cbn; tauto.
    + intros [Hn|Hall]; [by apply (Hn a0)|done].
Qed.

(** In every reachable state the route check enforces the allowlist exactly: it
    passes when no token is allowed at all (the permissive bootstrap mode) or when both
    assets of every hop are allowed, and fails with [TokenNotAllowed] otherwise; it
    changes nothing. The count it consults is the number of allowed tokens. *)
Theorem route_assets_enforced me n w route c :
  reachable me n w →
  let ok := (∀ a, ¬ allowed w a) ∨
            ∀ hop, hop ∈ hops route → allowed w (hop_source hop) ∧ allowed w (hop_destination hop) in
  (validate_route_assets route c w = Ok tt w ∧ ok) ∨
  (validate_route_assets route c w = Err ContractError.TokenNotAllowed w ∧ ¬ ok).
Proof. apply route_assets_check. Qed.

(** ** The category index *)

Lemma category_scan cat (ixs : list Z) acc c w :
  ∃ r, fold_each ixs acc (λ result i,
    o ← persistent_get (IdxKey.CatEntry cat i);
    match o with
    | Some asset =>
        b ← Storage.is_token_allowed asset;
        ret (if b : bool then result ++ [asset] else result)
    | None => ret result
    end) c w = Ok (acc ++ r) w ∧
  ∀ a, a ∈ r ↔ ∃ i, i ∈ ixs ∧ pget w (IdxKey.CatEntry cat i) = Some a ∧ allowed w a.
Proof.
  revert acc. induction ixs as [|i ixs IH]; intros acc.
  - exists []. split; [by rewrite app_nil_r|]. intros a. split; [by intros ?%not_elem_of_nil|].
    by intros (i & ?%not_elem_of_nil & _).
  - cbn [fold_each]. unfold bind at 1 2. unfold persistent_get at 1.
    destruct (pget w (IdxKey.CatEntry cat i)) as [a0|] eqn:E.
    + unfold bind at 1. rewrite is_allowed_run. case_bool_decide as Ha0.
      * destruct (IH (acc ++ [a0])) as (r & Hr & Hin). exists (a0 :: r). cbn [ret].
        rewrite <- app_assoc in Hr. split; [exact Hr|]. intros a. rewrite elem_of_cons, Hin. split.
        -- intros [->|(j & Hj & ?)]; [exists i; split; [left|done] | exists j; split; [by right|done]].
        -- intros (j & [->|Hj]%elem_of_cons & Hja & Ha); [left; congruence|right; by exists j].
      * destruct (IH acc) as (r & Hr & Hin). exists r. split; [exact Hr|]. intros a. rewrite Hin. split.
        -- intros (j & Hj & ?). exists j. split; [by right|done].
        -- intros (j & [->|Hj]%elem_of_cons & Hja & Ha); [|by exists j]. rewrite E in Hja. by simplify_eq.
    + destruct (IH acc) as (r & Hr & Hin). exists r. split; [exact Hr|]. intros a. rewrite Hin. split.
      * intros (j & Hj & ?). exists j. split; [by right|done].
      * intros (j & [->|Hj]%elem_of_cons & Hja & Ha); [congruence|by exists j].
Qed.

(** The category queries always return, change nothing, list only allowed tokens, and
    together list every allowed token: in every reachable state an asset is allowed if
    and only if some category query returns it. *)
Theorem categories_list_allowed me n w c :
  reachable me n w →
  (∀ cat, ∃ l, get_tokens_by_category cat c w = Ok l w) ∧
  ∀ a, allowed w a ↔ ∃ cat l, get_tokens_by_category cat c w = Ok l w ∧ a ∈ l.
Proof.
  intros Hr. destruct (reachable_index _ _ _ c Hr) as [HL HI].
  assert (∀ cat, ∃ l, get_tokens_by_category cat c w = Ok l w ∧
    ∀ a, a ∈ l ↔ ∃ i, i ∈ cat_indices (default 0 (pget w (IdxKey.CatLen cat))) ∧
                      pget w (IdxKey.CatEntry cat i) = Some a ∧ allowed w a) as Hq.
  { intros cat. exact (category_scan cat (cat_indices (default 0 (pget w (IdxKey.CatLen cat)))) [] c w). }
  split; [intros cat; destruct (Hq cat) as (l & Hl & _); by exists l|].
  intros a. split.
  - intros Ha. destruct (HI a Ha) as (cat & i & Hi & He). destruct (Hq cat) as (l & Hl & Hin).
    exists cat, l. split; [done|]. apply Hin. exists i. split_and!; [|done|done].
    unfold cat_indices. apply list_elem_of_fmap. exists (Z.to_nat i). split; [lia|].
    apply list_elem_of_In, in_seq. lia.
  - intros (cat & l & Hl & Ha). destruct (Hq cat) as (l' & Hl' & Hin). rewrite Hl' in Hl. injection Hl as <-.
    apply Hin in Ha as (i & _ & _ & ?). done.
Qed.

End Allowlist.

(** ** Concrete runs *)

Lemma route_assets_enforced_witness :
  allowed (after setup_calls) usd ∧
  validate_route_assets (H := refHost true) route1 (ref_ctx 110 []) (after setup_calls) = Ok tt (after setup_calls) ∧
  validate_route_assets (H := refHost true)
    (mkRoute [mkRouteHop Asset.Native eur pool_a PoolType.Sdex] 0 0 0) (ref_ctx 110 []) (after setup_calls) =
    Err ContractError.TokenNotAllowed (after setup_calls).
Proof.
  assert (reachable (H := refHost true) router 104 (after setup_calls)) as Hr
    by (eexists; apply setup_history).
  split_and!.
  - eexists. by vm_compute.
  - destruct (route_assets_enforced (H := refHost true) router 104 (after setup_calls) route1 (ref_ctx 110 []) Hr)
      as [[Hx _]|[_ Hn]]; [done|]. exfalso. apply Hn. right.
    intros hop Hhop. repeat (apply elem_of_cons in Hhop as [->|Hhop]; [split; eexists; by vm_compute|]).
    by apply not_elem_of_nil in Hhop.
  - destruct (route_assets_enforced (H := refHost true) router 104 (after setup_calls)
      (mkRoute [mkRouteHop Asset.Native eur pool_a PoolType.Sdex] 0 0 0) (ref_ctx 110 []) Hr)
      as [[_ [Hn|Hn]]|[Hx _]]; [| |done].
    + exfalso. apply (Hn usd). eexists. by vm_compute.
    + exfalso. destruct (Hn _ ltac:(left)) as [[x Hx] _]. by vm_compute in Hx.
Defined.

Lemma categories_list_allowed_witness :
  ∃ cat l, get_tokens_by_category (H := refHost true) cat (ref_ctx 110 []) (after setup_calls) =
             Ok l (after setup_calls) ∧ eur ∈ l.
Proof.
  apply (categories_list_allowed (H := refHost true) router 104 (after setup_calls) (ref_ctx 110 [])).
  - eexists. apply setup_history.
  - eexists. by vm_compute.
Defined.
