(* ===== verification/AccessProps.v ===== *)
(** * Who may change what

    The authority behind every change of a privileged entry, the one-way switch to
    multi-sig governance, and the invariant of the signer set with its limits. *)

From stdpp Require Import base decidable strings numbers list.
From S2P Require Import Prelude Types Host HostLogic RefHost Events Storage Upgrade Governance Tokens Adapters Fees Swap Router Contract Scenarios GovernanceProps.

Local Open Scope Z_scope.
Local Open Scope host_scope.

(** ** Privileged entries *)

(** Instance entries that only an authority may change: everything but the record of
    the last TTL extension. *)
Definition privileged_i (k : Key) : bool :=
  match k with SK StorageKey.LastTtlExtension => false | _ => true end.

(** Persistent entries that only an authority may change: pools, proposals, versions,
    migrations, the allowlist with its index, and the whitelist. *)
Definition privileged_p (k : Key) : bool :=
  match k with
  | SK (StorageKey.SupportedPool _ | StorageKey.ProposalEntry _ | StorageKey.VersionHistory _
       | StorageKey.MigrationDone _ _ _ | StorageKey.AllowedToken _ | StorageKey.Whitelisted _) => true
  | IK _ => true
  | _ => false
  end.

Section Authority.

Context {H : Host} {HOk : HostOk H}.

Definition admin_signed (c : Ctx) (w : World) : Prop :=
  ∃ a, iget w StorageKey.Admin = Some a ∧ signed c a = true.

Definition single_admin (w : World) : Prop := default false (iget w StorageKey.IsMultiSig) = false.

Definition multisig (w : World) : Prop := default false (iget w StorageKey.IsMultiSig) = true.

Definition signer_signed (c : Ctx) (w : World) (s : Address) : Prop :=
  signed c s = true ∧ ∃ cfg, iget w StorageKey.Governance = Some cfg ∧ is_signer cfg s = true.

(** The authority each call needs; calls open to everyone have none. *)
Definition authority (call : Call) (c : Ctx) (w : World) : Prop :=
  match call with
  | CInitialize _ _ _ _ _ _ _ _ => iget w StorageKey.Admin = None
  | CSetAdmin _ | CSetFeeDistributionConfig _ | CRegisterPool _ | CPause _ | CUnpause _
  | CProposeUpgrade _ _ _ | CAddToken _ _ | CRemoveToken _ _ | CUpdateToken _ _ _
  | CAddTokensBatch _ _ | CMigrateToMultisig _ _ _ _ _ => admin_signed c w ∧ single_admin w
  | CExecuteUpgrade _ | CConfigureMev _ | CSetWhitelist _ _ | CUpdateKnownPrice _ _ _ => admin_signed c w
  | CCancelUpgrade a =>
      signed c a = true ∧ ∃ p, iget w StorageKey.PendingUpgradeKey = Some p ∧ proposer p = a
  | CGuardianPause g => signed c g = true ∧ iget w StorageKey.Guardian = Some g
  | CPropose s _ | CApproveProposal s _ => multisig w ∧ signer_signed c w s
  | CCancelProposal s i =>
      multisig w ∧ signed c s = true ∧
      ∃ cfg p, iget w StorageKey.Governance = Some cfg ∧ slot w i = Some p ∧
               (p_proposer p = s ∨ is_signer cfg s = true)
  | CExecuteProposal i =>
      multisig w ∧ ∃ p, slot w i = Some p ∧ p_executed p = false ∧ quorum c w p
  | _ => False
  end.

Definition is_public (call : Call) : bool :=
  match call with
  | CDistributeFees _ | CCommitSwap _ _ _ | CRevealAndExecute _ _ _ | CExecuteSwap _ _
  | CExecute _ _ | CGetQuote _ _ | CExtendStorageTtl => true
  | _ => false
  end.

Lemma require_admin_auth_ok a c w u w' :
  require_admin_auth a c w = Ok u w' → admin_signed c w ∧ single_admin w ∧ w' = w.
Proof.
  intros Hm. unfold require_admin_auth, admin_signed, single_admin in *. minv. split_and!; [|done|done].
  eexists. split; [done|]. by subst.
Qed.

Lemma exec_authority call c w w' :
  exec call c w = Ok tt w' → is_public call = false → authority call c w.
Proof.
  intros Hx Hp. destruct call; try done; cbn [exec authority] in *; unfold admin_signed, single_admin, multisig.
  - unfold initialize in Hx. minv. by apply eq_None_not_Some.
  - unfold migrate_to_multisig in Hx. minv. subst. split; [by eexists|done].
  - unfold Router.set_admin in Hx. minv. split; [by eexists|done].
  - unfold set_fee_distribution_config in Hx. minv. split; [by eexists|done].
  - unfold register_pool in Hx. minv. split; [by eexists|done].
  - unfold pause, require_admin in Hx. minv. subst. split; [by eexists|done].
  - unfold unpause, require_admin in Hx. minv. subst. split; [by eexists|done].
  - unfold propose, require_multisig in Hx. minv.
    match goal with E : Governance.propose _ _ _ _ = _ |- _ =>
      apply propose_ok in E as (cfg & w1 & ? & ? & ? & _) end. split; [done|]. split; [done|]. by exists cfg.
  - unfold approve_proposal, require_multisig in Hx. minv.
    match goal with E : Governance.approve _ _ _ _ = _ |- _ =>
      apply approve_ok in E as (cfg & p & w1 & ? & ? & ? & _) end. split; [done|]. split; [done|]. by exists cfg.
  - unfold execute_proposal, require_multisig in Hx. minv.
    match goal with E : Governance.execute_proposal _ _ _ = _ |- _ =>
      apply execute_proposal_ok in E as (cfg & p & w2 & ? & ? & ? & ? & ? & _) end.
    split; [done|]. exists p. split_and!; [done..|by exists cfg].
  - unfold cancel_proposal, require_multisig in Hx. minv.
    match goal with E : Governance.cancel _ _ _ _ = _ |- _ =>
      apply cancel_ok in E as (cfg & p & ? & ? & ? & ? & ? & _) end.
    split_and!; [done..|]. by exists cfg, p.
  - unfold guardian_pause in Hx. minv. by subst.
  - unfold propose_upgrade in Hx. minv. subst. split; [by eexists|done].
  - unfold execute_upgrade in Hx. minv. subst. by eexists.
  - unfold cancel_upgrade in Hx. minv. split; [done|]. by eexists.
  - unfold add_token in Hx. apply bind_ok in Hx as (? & ? & (? & ? & _)%require_admin_auth_ok & _). done.
  - unfold Tokens.remove_token in Hx.
    apply bind_ok in Hx as (? & ? & (? & ? & _)%require_admin_auth_ok & _). done.
  - unfold update_token in Hx. apply bind_ok in Hx as (? & ? & (? & ? & _)%require_admin_auth_ok & _). done.
  - unfold add_tokens_batch in Hx.
    apply bind_ok in Hx as (? & ? & (? & ? & _)%require_admin_auth_ok & _). done.
  - unfold configure_mev in Hx. minv. by eexists.
  - unfold set_whitelist in Hx. minv. by eexists.
  - unfold update_known_price in Hx. minv. by eexists.
Qed.

(** C4: no privileged entry changes without authority. If a successful call changes any
    instance entry other than the TTL record, or any pool, proposal, version, migration,
    allowlist or whitelist entry, then it is one of the authorized calls and its
    authority was present: the stored admin signed (in single-admin mode, where the call
    belongs to it), the guardian signed a guardian pause, the proposer of a pending
    upgrade cancelled it, a signer acted on a proposal, an open proposal had its quorum,
    or the contract was being initialized for the first time. *)
Theorem privileged_change_authorized call c w w' :
  exec call c w = Ok tt w' →
  (∃ k, privileged_i k = true ∧ iget w' k ≠ iget w k) ∨
  (∃ k, privileged_p k = true ∧ pget w' k ≠ pget w k) →
  authority call c w.
Proof.
  intros Hx Hch. destruct (is_public call) eqn:E; [|by eapply exec_authority].
  exfalso. destruct Hch as [(k & Hk & Hne)|(k & Hk & Hne)]; apply Hne.
  - apply (exec_iget _ _ _ _ _ _ Hx). destruct call; try done; by destruct k as [[]|[]].
  - apply (exec_pget _ _ _ _ _ _ Hx). destruct call; try done; by destruct k as [[]|[]].
Qed.

(** ** Multi-sig mode *)

(** The calls of the single administrator that governance replaces. *)
Definition admin_only (call : Call) : bool :=
  match call with
  | CSetAdmin _ | CSetFeeDistributionConfig _ | CRegisterPool _ | CPause _ | CUnpause _
  | CProposeUpgrade _ _ _ | CAddToken _ _ | CRemoveToken _ _ | CUpdateToken _ _ _
  | CAddTokensBatch _ _ | CMigrateToMultisig _ _ _ _ _ => true
  | _ => false
  end.

Lemma multisig_locks call c w w' :
  multisig w → admin_only call = true → exec call c w = Ok tt w' → False.
Proof.
  intros Hms Ha Hx. assert (is_public call = false) as Hp by by destruct call.
  pose proof (exec_authority _ _ _ _ Hx Hp) as Hauth. unfold multisig in Hms.
  destruct call; try done; cbn in Hauth; destruct Hauth as [_ Hs]; unfold single_admin in Hs; congruence.
Qed.

Lemma multisig_stays call c w w' : multisig w → exec call c w = Ok tt w' → multisig w'.
Proof.
  intros Hms Hx. unfold multisig in *.
  destruct (writes_i call StorageKey.IsMultiSig) eqn:E; [|by rewrite (exec_iget _ _ _ _ _ _ Hx E)].
  exfalso. destruct call; try done. eapply (multisig_locks _ c w w' Hms); [|exact Hx]. done.
Qed.

(** the migration to multi-sig is one-way and takes the single administrator out of
    office: once in multi-sig mode, every further history stays in multi-sig mode, and
    none of the administrator's calls (admin change, fee configuration, pool
    registration, pause and unpause, upgrade proposal, allowlist changes, migration)
    succeeds, whoever signs it. *)
Theorem multisig_one_way me n w h call c w' :
  history me n w h →
  (∃ c0 a ss th tl g, (c0, CMigrateToMultisig a ss th tl g) ∈ h) →
  multisig w ∧ (admin_only call = true → exec call c w ≠ Ok tt w').
Proof.
  intros Hh Hin. enough (multisig w) as Hms.
  { split; [done|]. intros Ha Hx. by eapply multisig_locks. }
  pose (I := λ (_ : Z) (w : World) (h : list (Ctx * Call)),
    (∃ c0 a ss th tl g, (c0, CMigrateToMultisig a ss th tl g) ∈ h) → multisig w).
  revert Hin. refine (proj2 (history_inv I me _ _ _ _ n w h Hh)); unfold I; clear - HOk.
  - intros n w _ _ (c0 & a & ss & th & tl & g & Hin). by apply not_elem_of_nil in Hin.
  - intros c w call w' h _ IH _ _ _ Hx (c0 & a & ss & th & tl & g & Hin).
    apply elem_of_cons in Hin as [[= -> <-]|Hin].
    + cbn [exec] in Hx. unfold migrate_to_multisig, init_governance in Hx. unfold multisig. minv; by world_simpl.
    + eapply multisig_stays; [|done]. apply IH. eauto 10.
  - done.
  - done.
Qed.

(** ** The signer set *)

Definition signers_ok (cfg : GovernanceConfig) : Prop :=
  NoDup (signers cfg) ∧ 1 <= threshold cfg <= vlen (signers cfg) ∧ vlen (signers cfg) <= MAX_SIGNERS.

Lemma has_duplicates_spec l : has_duplicates l = false ↔ NoDup l.
Proof.
  induction l as [|x l IH]; cbn; [split; [intros; constructor|done]|].
  rewrite orb_false_iff, IH, NoDup_cons.
  assert (existsb (λ y, bool_decide (x = y)) l = false ↔ x ∉ l) as ->; [|done].
  rewrite <- not_true_iff_false, existsb_exists.
  split.
  - intros Hn Hin. apply Hn. exists x. split; [by apply list_elem_of_In|by apply bool_decide_eq_true].
  - intros Hn (y & Hy & E). bools. subst y. apply Hn. by apply list_elem_of_In.
Qed.

Lemma vlen_app {A} (l1 l2 : list A) : vlen (l1 ++ l2) = vlen l1 + vlen l2.
Proof. unfold vlen. rewrite length_app. lia. Qed.

Lemma filter_removes_one (l : list Address) x :
  NoDup l → vlen l - 1 <= vlen (List.filter (λ s, negb (bool_decide (s = x))) l).
Proof.
  unfold vlen. induction 1 as [|y l Hy Hd IH]; cbn; [lia|].
  case_bool_decide as E; cbn; [|lia]. subst y.
  enough (List.filter (λ s, negb (bool_decide (s = x))) l = l) as -> by lia.
  clear -Hy. induction l as [|z l IH]; cbn; [done|].
  rewrite bool_decide_eq_false_2 by (intros ->; apply Hy; left). cbn. f_equal. apply IH.
  intros Hin. apply Hy. by right.
Qed.

Lemma filter_NoDup (l : list Address) f : NoDup l → NoDup (List.filter f l).
Proof.
  induction 1 as [|y l Hy Hd IH]; cbn; [constructor|].
  case_match; [|done]. apply NoDup_cons. split; [|done].
  intros Hin. apply Hy. apply list_elem_of_In in Hin. apply filter_In in Hin as [Hin _]. by apply list_elem_of_In.
Qed.

Lemma filter_shorter (l : list Address) f : vlen (List.filter f l) <= vlen l.
Proof. unfold vlen. induction l as [|y l IH]; cbn; [lia|]. case_match; cbn; lia. Qed.

Definition governance_is (cfg : GovernanceConfig) (_ : Ctx) (w : World) : Prop :=
  iget w StorageKey.Governance = Some cfg.

#[local] Instance governance_is_footprint cfg :
  Footprint (governance_is cfg)
    (λ k, match k with SK StorageKey.Governance => true | _ => false end) no_key no_key.
Proof. intros c w w' Hi _ _. unfold governance_is. by rewrite <- Hi. Qed.

Lemma signers_ok_dispatch action cfg c w w' :
  iget w StorageKey.Governance = Some cfg → signers_ok cfg → wf_action action →
  (∀ s, action = ProposalAction.AddSigner s → s ∉ signers cfg) →
  dispatch_action action c w = Ok tt w' →
  ∃ cfg', iget w' StorageKey.Governance = Some cfg' ∧ signers_ok cfg'.
Proof.
  intros Hcfg (Hnd & Hth & Hmax) Hwf Hadd Hm.
  assert (keeps (governance_is cfg) (dispatch_action action) →
          ∃ cfg', iget w' StorageKey.Governance = Some cfg' ∧ signers_ok cfg') as Hsame.
  { intros Hk. exists cfg. split; [by eapply Hk|done]. }
  destruct action; try (apply Hsame; cbn [dispatch_action]; solve [solve_keeps]); clear Hsame;
    cbn [dispatch_action] in Hm; minv; simplify_eq;
    (eexists; split; [by world_simpl|]); (split; [|split]); cbn [signers threshold].
  - apply NoDup_app. split_and!; [done| |apply NoDup_singleton].
    intros x Hx ->%list_elem_of_singleton. by apply (Hadd new_signer).
  - rewrite vlen_app. unfold vlen in *. cbn. lia.
  - rewrite vlen_app. unfold vlen in *. cbn. lia.
  - by apply filter_NoDup.
  - pose proof (filter_removes_one (signers cfg) signer Hnd). lia.
  - pose proof (filter_shorter (signers cfg) (λ s, negb (bool_decide (s = signer)))). lia.
  - done.
  - unfold wf_action, fits in Hwf. cbn in Hwf. lia.
  - done.
Qed.

(** C40: migration installs a sound signer set (distinct signers, at most ten, a threshold
    between one and their number), and every action governance can dispatch keeps it
    sound, provided it never adds a signer that is already there. *)
Theorem signer_set_sound c w w' :
  (∀ a ss th tl g, fits U32 th → migrate_to_multisig a ss th tl g c w = Ok tt w' →
     ∃ cfg, iget w' StorageKey.Governance = Some cfg ∧ signers_ok cfg) ∧
  (∀ action cfg, iget w StorageKey.Governance = Some cfg → signers_ok cfg → wf_action action →
     (∀ s, action = ProposalAction.AddSigner s → s ∉ signers cfg) →
     dispatch_action action c w = Ok tt w' →
     ∃ cfg', iget w' StorageKey.Governance = Some cfg' ∧ signers_ok cfg').
Proof.
  split.
  - intros a ss th tl g Hth Hm. unfold migrate_to_multisig, init_governance in Hm.
    unfold fits in Hth. cbn in Hth.
    minv; (eexists; split; [by world_simpl|]); (split_and!; cbn in *; [by apply has_duplicates_spec|lia..]).
  - intros action cfg. apply signers_ok_dispatch.
Qed.

End Authority.

(** ** Concrete runs *)

Lemma privileged_change_authorized_witness :
  authority (H := refHost true) (CApproveProposal bob 2) (ref_ctx 304 [bob]) (after multisig_calls).
Proof.
  apply (privileged_change_authorized (H := refHost true) _ _ _ approved2 approved2_ok).
  left. exists StorageKey.Paused. split; [done|].
  assert (iget approved2 StorageKey.Paused = Some false) as -> by by vm_compute.
  assert (iget (after multisig_calls) StorageKey.Paused = Some true) as -> by by vm_compute. done.
Defined.

Lemma multisig_one_way_witness :
  multisig (after multisig_calls) ∧
  exec (H := refHost true) (CUnpause admin) (ref_ctx 310 [admin]) (after multisig_calls) ≠ Ok tt (after multisig_calls).
Proof.
  destruct (multisig_one_way (H := refHost true) router 304 (after multisig_calls) (reverse multisig_calls)
    (CUnpause admin) (ref_ctx 310 [admin]) (after multisig_calls) multisig_history) as [Hm Hn].
  - exists (ref_ctx 300 [admin]), admin, [alice; bob; carol], 2, 1000, (Some guardian).
    apply elem_of_reverse. unfold multisig_calls. apply elem_of_app. right. left.
  - split; [done|]. by apply Hn.
Defined.

Lemma signer_set_sound_witness :
  ∃ w' cfg', dispatch_action (H := refHost true) (ProposalAction.RemoveSigner carol) (ref_ctx 310 [])
               (after multisig_calls) = Ok tt w' ∧
    iget w' StorageKey.Governance = Some cfg' ∧ signers_ok cfg'.
Proof.
  destruct (succeeds_ok (dispatch_action (H := refHost true) (ProposalAction.RemoveSigner carol)) (ref_ctx 310 [])
              (after multisig_calls) ltac:(by vm_compute)) as ([] & w' & Hx).
  exists w'. destruct (signer_set_sound (H := refHost true) (ref_ctx 310 []) (after multisig_calls) w') as [_ Hd].
  destruct (Hd (ProposalAction.RemoveSigner carol) (mkGovernanceConfig [alice; bob; carol] 2 1000))
    as (cfg' & Hc & Hok); [by vm_compute| |done|done|done|by exists cfg'].
  split_and!; [|by vm_compute..]. apply has_duplicates_spec. by vm_compute.
Defined.

(** Two of two signers add one of them a second time, then remove it. *)
Definition lock_calls : list (Ctx * Call) :=
  setup_calls ++
  [(ref_ctx 300 [admin], CMigrateToMultisig admin [alice; bob] 2 1000 None);
   (ref_ctx 301 [alice], CPropose alice (ProposalAction.AddSigner alice));
   (ref_ctx 302 [bob], CApproveProposal bob 1);
   (ref_ctx 303 [alice], CPropose alice (ProposalAction.RemoveSigner alice));
   (ref_ctx 304 [bob], CApproveProposal bob 2)].

(** The check that is meant to keep the signer set at or above the threshold counts a
    signer twice when it was added twice, so governance can lose its quorum for good: a
    reachable contract has one signer left and a threshold of two. *)
Theorem duplicate_signer_breaks_quorum :
  reachable (H := refHost true) router 304 (after lock_calls) ∧
  iget (after lock_calls) StorageKey.Governance = Some (mkGovernanceConfig [bob] 2 1000).
Proof.
  split; [|by vm_compute]. eexists.
  apply (plays_history lock_calls); [by vm_compute | solve_playable].
Qed.

(** A governance of one registers a pool that is already registered, and deregisters
    one that never was. *)
Definition drift_calls : list (Ctx * Call) :=
  setup_calls ++
  [(ref_ctx 300 [admin], CMigrateToMultisig admin [alice] 1 1000 None);
   (ref_ctx 301 [alice], CPropose alice (ProposalAction.RegisterPool pool_a PoolType.AmmConstProd))].

Definition drift_calls' : list (Ctx * Call) :=
  drift_calls ++
  [(ref_ctx 302 [alice], CPropose alice (ProposalAction.DeregisterPool (mkAddr 99)));
   (ref_ctx 303 [alice], CPropose alice (ProposalAction.DeregisterPool (mkAddr 99)));
   (ref_ctx 304 [alice], CPropose alice (ProposalAction.DeregisterPool (mkAddr 99)))].

(** The pool count is not the number of registered pools once governance is in
    charge: registering a registered pool again raises it to three with two pools
    registered, and deregistering an unknown address lowers it to zero with the same two
    pools registered. *)
Theorem pool_count_drifts :
  reachable (H := refHost true) router 304 (after drift_calls') ∧
  iget (after drift_calls) StorageKey.PoolCount = Some 3 ∧
  iget (after drift_calls') StorageKey.PoolCount = Some 0 ∧
  iget (after drift_calls') StorageKey.PoolList = Some [pool_a; pool_b] ∧
  pget (after drift_calls') (StorageKey.SupportedPool pool_a) = Some true ∧
  pget (after drift_calls') (StorageKey.SupportedPool pool_b) = Some true.
Proof.
  split_and!; [|by vm_compute..]. eexists.
  apply (plays_history drift_calls'); [by vm_compute | solve_playable].
Qed.
