(* ===== verification/RouterProps.v ===== *)
(** * Routes: validation, quotes and execution agree

    The declarative meaning of [validate_route], the errors [execute_swap] can return,
    and how the two relate; the relation of quotes to executed swaps; the fee bound; the
    constant-product adapter. *)

From stdpp Require Import base decidable strings numbers relations list.
From S2P Require Import Prelude Types Host HostLogic RefHost Events Storage Upgrade Governance Tokens Adapters Fees Swap Router Contract Scenarios Invariants FeesProps SwapProps TokensProps.

Local Open Scope Z_scope.
Local Open Scope host_scope.

(** ** The errors of a swap *)

(** Errors that concern the route of a swap. *)
Definition route_error (e : ContractError) : bool :=
  match e with
  | ContractError.InvalidRoute | ContractError.EmptyRoute | ContractError.TooManyHops
  | ContractError.RouteExpired | ContractError.PoolNotSupported | ContractError.TokenNotAllowed => true
  | _ => false
  end.

(** The errors a swap may return besides. *)
Definition swap_error (e : ContractError) : bool :=
  match e with
  | ContractError.Paused | ContractError.CommitmentRequired | ContractError.InvalidAmount
  | ContractError.InvalidRecipient | ContractError.DeadlineExceeded | ContractError.ExecutionTooEarly
  | ContractError.RateLimitExceeded | ContractError.AmmSwapCallFailed | ContractError.Overflow
  | ContractError.PriceImpactTooHigh | ContractError.SpreadTooHigh | ContractError.SlippageExceeded
  | ContractError.ReserveManipulationDetected => true
  | _ => false
  end.

Section Errors.

Context {H : Host} {HOk : HostOk H}.

Definition any_swap_error (e : ContractError) : bool :=
  swap_error e || match e with
                  | ContractError.InvalidRoute | ContractError.PoolNotSupported
                  | ContractError.TokenNotAllowed => true
                  | _ => false
                  end.

Lemma execute_swap_raises sender params : raises any_swap_error (execute_swap sender params).
Proof. solve_raises. Qed.

Definition registered (w : World) (hop : RouteHop) : Prop :=
  is_Some (pget w (StorageKey.SupportedPool (hop_pool hop))).

Lemma pools_check hs c w :
  let check := for_each hs (λ hop,
    b ← is_supported_pool (hop_pool hop); fail_when (negb b) ContractError.PoolNotSupported) in
  (check c w = Ok tt w ∧ ∀ hop, hop ∈ hs → registered w hop) ∨
  (check c w = Err ContractError.PoolNotSupported w ∧ ¬ ∀ hop, hop ∈ hs → registered w hop).
Proof.
  apply for_each_check. intros hop. unfold bind, is_supported_pool, persistent_has. fold (registered w hop).
  destruct (bool_decide_reflect (registered w hop)) as [Hr|Hr]; [by left|by right].
Qed.

Lemma swap_input_guards_err sender params c w e w' :
  swap_input_guards sender params c w = Err e w' →
  (1 <= length (hops (sp_route params)) <= 4)%nat →
  (∀ hop, hop ∈ hops (sp_route params) → registered w hop) → swap_error e = true.
Proof.
  intros Hm Hl Hp. unfold swap_input_guards in Hm.
  repeat lazymatch goal with
  | E : for_each _ _ _ _ = Err _ _ |- _ => fail
  | _ => einv_step; subst
  end; try done; repeat (minv_step; subst).
  all: try (bools; unfold vlen in *; match goal with E : _ || _ = true |- _ =>
              apply orb_true_iff in E as [E|E]; bools; lia end).
  all: match goal with E : for_each _ _ _ _ = Err _ _ |- _ =>
         destruct (pools_check (hops (sp_route params)) c w) as [[Hok _]|[_ Hn]]; [|done];
         cbn zeta in Hok; rewrite Hok in E; done end.
Qed.

Lemma swap_rest_raises sender params c w e w' :
  execute_swap_internal sender params c w = Err e w' →
  swap_input_guards sender params c w = Err e w' ∨ swap_error e = true.
Proof.
  intros Hm. unfold execute_swap_internal in Hm.
  apply bind_err in Hm as [Hm|([] & w1 & _ & Hm)]; [by left|right].
  revert Hm. match goal with |- ?m c w1 = _ → _ => assert (raises swap_error m) as Hr by solve_raises end.
  apply Hr.
Qed.

End Errors.

(** ** Validation *)

Section Validation.

Context {H : Host} {HOk : HostOk H}.

(** Each hop starts with the asset the previous one ends with. *)
Definition chained (hs : list RouteHop) : Prop :=
  ∀ i a b, hs !! i = Some a → hs !! S i = Some b → hop_destination a = hop_source b.

(** What a valid route is. *)
Definition valid_route (c : Ctx) (w : World) (route : Route) : Prop :=
  (1 <= length (hops route) <= 4)%nat ∧
  (0 < route_expires_at route → ledger_seq c <= route_expires_at route) ∧
  0 <= estimated_output route ∧ 0 <= min_output route ∧
  (0 < estimated_output route → min_output route <= estimated_output route) ∧
  chained (hops route) ∧
  ((∀ a, ¬ allowed w a) ∨
   ∀ hop, hop ∈ hops route → allowed w (hop_source hop) ∧ allowed w (hop_destination hop)) ∧
  (∀ hop, hop ∈ hops route → registered w hop).

Lemma continuous_spec hs : continuous hs = true ↔ chained hs.
Proof.
  induction hs as [|a [|b hs] IH].
  - split; [|done]. intros _ i x y Hx. done.
  - split; [|done]. intros _ [|i] x y; done.
  - cbn [continuous]. rewrite andb_true_iff, IH, bool_decide_eq_true. split.
    + intros [Hab Hc] [|i] x y; cbn; [naive_solver|apply Hc].
    + intros Hc. split; [by apply (Hc 0%nat)|]. intros i x y. apply (Hc (S i)).
Qed.

Lemma forallb_registered hs w :
  forallb (λ p, bool_decide (is_Some (pget w (StorageKey.SupportedPool p)))) (hop_pool <$> hs) = true ↔
  ∀ hop, hop ∈ hs → registered w hop.
Proof.
  rewrite forallb_forall. split.
  - intros Hf hop Hin. apply (bool_decide_eq_true _). apply Hf.
    apply list_elem_of_In, list_elem_of_fmap. by exists hop.
  - intros Hf p Hp. apply list_elem_of_In, list_elem_of_fmap in Hp as (hop & -> & Hin).
    apply bool_decide_eq_true. by apply Hf.
Qed.

Lemma batch_check_run l c w :
  batch_check_pools l c w =
  Ok (forallb (λ p, bool_decide (is_Some (pget w (StorageKey.SupportedPool p)))) l) w.
Proof.
  induction l as [|p l IH]; [done|]. cbn. unfold bind, is_supported_pool, persistent_has.
  case_bool_decide; [apply IH|done].
Qed.

Lemma bind_fail_when {A} b e (f : unit → M A) c w :
  bind (fail_when b e) f c w = if b then Err e w else f tt c w.
Proof. by destruct b. Qed.

Lemma bind_run_ok {A B} (m : M A) (f : A → M B) c w a w1 :
  m c w = Ok a w1 → bind m f c w = f a c w1.
Proof. unfold bind. by intros ->. Qed.

Lemma bind_run_err {A B} (m : M A) (f : A → M B) c w e w1 :
  m c w = Err e w1 → bind m f c w = Err e w1.
Proof. unfold bind. by intros ->. Qed.

Lemma validate_route_cases me n w route c :
  reachable me n w →
  (validate_route route c w = Ok tt w ∧ valid_route c w route) ∨
  (∃ e, validate_route route c w = Err e w ∧ route_error e || bool_decide (e = ContractError.InvalidAmount) = true ∧
        ¬ valid_route c w route).
Proof.
  intros Hr. unfold validate_route, validate_route_internal, MAX_HOPS, vlen. rewrite bind_fail_when.
  destruct (Z.of_nat (length (hops route)) =? 0) eqn:E1; bools.
  { right. eexists. split_and!; [done|done|]. intros (? & _). lia. }
  rewrite bind_fail_when. destruct (4 <? Z.of_nat (length (hops route))) eqn:E2; bools.
  { right. eexists. split_and!; [done|done|]. intros (? & _). lia. }
  match goal with |- context [bind ledger_sequence ?f c w] =>
    change (bind ledger_sequence f c w) with (f (ledger_seq c) c w); cbv beta end.
  rewrite bind_fail_when. destruct ((0 <? route_expires_at route) && _) eqn:E3; bools.
  { right. eexists. split_and!; [done|done|]. intros (_ & Hx & _). specialize (Hx ltac:(lia)). lia. }
  rewrite bind_fail_when. destruct (_ || _) eqn:E4; bools.
  { right. eexists. split_and!; [done|done|]. intros (_ & _ & ? & ? & _).
    apply orb_true_iff in E4 as [E|E]; bools; lia. }
  rewrite bind_fail_when. destruct (_ && _) eqn:E5 in |- *; bools.
  { right. eexists. split_and!; [done|done|]. intros (_ & _ & _ & _ & Hx & _). specialize (Hx ltac:(lia)). lia. }
  rewrite bind_fail_when. destruct (continuous (hops route)) eqn:E6; cbn [negb].
  2: { right. eexists. split_and!; [done|done|]. intros (_ & _ & _ & _ & _ & Hx & _).
       apply continuous_spec in Hx. congruence. }
  destruct (route_assets_check me n w route c Hr) as [[Hx Hal]|[Hx Hal]];
    [rewrite (bind_run_ok _ _ _ _ _ _ Hx) | rewrite (bind_run_err _ _ _ _ _ _ Hx)]; clear Hx.
  2: { right. eexists. split_and!; [done|done|]. by intros (_ & _ & _ & _ & _ & _ & Hx & _). }
  rewrite (bind_run_ok _ _ _ _ _ _ (batch_check_run _ c w)).
  destruct (forallb _ _) eqn:E7; cbn.
  - left. split; [done|]. pose proof (proj1 (forallb_registered (hops route) w) E7) as Hreg. apply continuous_spec in E6.
    apply andb_false_iff in E3, E5.
    split_and!; try done; try lia.
  - right. eexists. split_and!; [done|done|]. intros (_ & _ & _ & _ & _ & _ & _ & Hx).
    pose proof (proj2 (forallb_registered (hops route) w) Hx). congruence.
Qed.

(** [validate_route] decides validity: in every reachable state it accepts a route if
    and only if the route has one to four hops, has not expired, has non-negative and
    consistent output bounds, chains its hops asset by asset, uses only allowed assets
    (when an allowlist exists) and only registered pools. It always returns, never traps
    and never changes the state, and rejects with a route error or [InvalidAmount]. *)
Theorem validate_route_correct me n w route c :
  reachable me n w →
  (validate_route route c w = Ok tt w ∧ valid_route c w route) ∨
  (∃ e, validate_route route c w = Err e w ∧ route_error e || bool_decide (e = ContractError.InvalidAmount) = true ∧
        ¬ valid_route c w route).
Proof. apply validate_route_cases. Qed.

(** validation and execution agree: a route that [validate_route] accepts is never
    rejected by [execute_swap] in the same state for a reason that concerns the route
    (shape, expiry, pools, allowlist); what remains are the caller's limits, the pools'
    own failures, rate limiting and the contract being paused. *)
Theorem validated_route_executable me n w params sender c e w' :
  reachable me n w →
  validate_route (sp_route params) c w = Ok tt w →
  execute_swap sender params c w = Err e w' →
  swap_error e = true ∧ route_error e = false.
Proof.
  intros Hr Hv Hm.
  destruct (validate_route_cases me n w (sp_route params) c Hr) as [[_ Hok]|(e0 & Hx & _)]; [|congruence].
  destruct Hok as (Hl & _ & _ & _ & _ & _ & Hal & Hreg).
  enough (swap_error e = true) as Hs by (split; [done|by destruct e]).
  unfold execute_swap in Hm. apply bind_err in Hm as [Hm|([] & w1 & Ha & Hm)]; [by apply err_spec in Hm|].
  apply ok_spec in Ha as [_ ->].
  apply bind_err in Hm as [Hm|([] & w1 & Ha & Hm)]; [unfold require_not_paused in Hm; by einv|].
  assert (w1 = w) as -> by (unfold require_not_paused in Ha; by minv).
  apply bind_err in Hm as [Hm|([] & w1 & [_ ->]%validate_route_assets_ok & Hm)].
  { destruct (route_assets_check me n w (sp_route params) c Hr) as [[Hx _]|[_ Hn]]; [congruence|done]. }
  apply bind_err in Hm as [Hm|(o & w1 & [-> ->]%ok_spec & Hm)]; [by einv|].
  apply bind_err in Hm as [Hm|([] & w1 & Hmev & Hm)].
  { destruct (iget w StorageKey.MevConfig); by einv. }
  assert (w1 = w) as -> by (destruct (iget w StorageKey.MevConfig); by minv).
  apply swap_rest_raises in Hm as [Hm|Hm]; [|done]. by eapply swap_input_guards_err.
Qed.

End Validation.

(** ** Quotes *)

Section Quotes.

Context {H : Host} {HOk : HostOk H}.

(** The quotes of the pools of a route, each for the quote of the previous one. *)
Inductive quote_chain (c : Ctx) : xworld → list RouteHop → Z → Z → xworld → Prop :=
| quote_chain_nil x a : quote_chain c x [] a a x
| quote_chain_cons x hop hs a b out x1 x2 :
    x_quote c x (hop_pool hop) (hop_source hop) (hop_destination hop) a = Some (b, x1) →
    quote_chain c x1 hs b out x2 → quote_chain c x (hop :: hs) a out x2.

Lemma quote_hops_ok hs a imp c w r w' :
  fold_each hs (a, imp) (λ '(current_amount, total_impact_bps) hop,
    out ← AmmAdapter.quote (hop_pool hop) (hop_source hop) (hop_destination hop) current_amount;
    impact ← plain_op U32 (total_impact_bps + 5);
    ret (out, impact)) c w = Ok r w' →
  ∃ x', quote_chain c (w_ext w) hs a (fst r) x' ∧ w' = with_ext w x'.
Proof.
  revert a imp w. induction hs as [|hop hs IH]; intros a imp w Hm; cbn in Hm.
  - minv. eexists. split; [|apply with_ext_same]. constructor.
  - unfold AmmAdapter.quote in Hm. apply bind_ok in Hm as ([b imp'] & w1 & Hs & Hm). minv.
    match goal with E : _ ∨ _ |- _ => destruct E as [E|E]; break; [simplify_eq|congruence] end.
    apply IH in Hm as (x' & Hc & ->). exists x'. split; [by econstructor|done].
Qed.

Lemma get_quote_ok amount route c w q w' :
  get_quote amount route c w = Ok q w' →
  ∃ quoted x, quote_chain c (w_ext w) (hops route) amount quoted x ∧
    fee_amount q = Z.quot (quoted * fee_rate w) 10000 ∧ expected_output q = quoted - fee_amount q.
Proof.
  intros Hm. unfold get_quote in Hm.
  apply bind_ok in Hm as ([] & w1 & [_ ->]%ok_spec & Hm).
  apply bind_ok in Hm as ([] & w1 & Hv & Hm).
  assert (w1 = w) as ->.
  { unfold validate_route_internal in Hv.
    repeat match goal with
    | E : validate_route_assets _ _ _ = Ok _ _ |- _ => apply validate_route_assets_ok in E as [_ ->]
    | _ => minv_step; subst
    end; done. }
  apply bind_ok in Hm as ([quoted imp] & w1 & (x & Hc & ->)%quote_hops_ok & Hm).
  apply bind_ok in Hm as ([fee out] & w1 & (Hf & Ho & ->)%apply_fee_ok & Hm). cbn in *.
  minv. exists quoted, x. split_and!; done.
Qed.


End Quotes.

(** The protocol fee is bounded: in a reachable contract, a swap whose pools return a
    non-negative amount takes between nothing and a tenth of it as a fee, and pays the
    recipient at least nine tenths. *)
Theorem swap_fee_bounded {H : Host} {HOk : HostOk H} me n w sender params c res w' :
  reachable me n w → execute_swap sender params c w = Ok res w' →
  ∃ gross fee, pool_output c w sender params gross ∧ sr_amount_out res + fee = gross ∧
    (0 <= gross → 0 <= fee ∧ 10 * fee <= gross ∧ 9 * gross <= 10 * sr_amount_out res).
Proof.
  intros Hr (_ & _ & _ & _ & Hm)%execute_swap_ok.
  apply execute_swap_internal_ok in Hm as (gross & fee & Hd).
  pose proof (reachable_fee_rate _ _ _ Hr) as Hrate. change (fee_rate_of w) with (fee_rate w) in Hrate.
  pose proof (sd_fee _ _ _ _ _ _ _ _ Hd) as Hfee. rewrite (sd_result _ _ _ _ _ _ _ _ Hd). cbn.
  exists gross, fee. split; [by eapply sd_pool_output|]. split; [lia|]. intros Hg.
  rewrite Z.quot_div_nonneg in Hfee by nia.
  assert (0 <= fee) by (subst fee; apply Z.div_pos; nia).
  assert (10 * fee <= gross); [|lia]. subst fee.
  pose proof (Z.mul_div_le (gross * fee_rate w) 10000 ltac:(lia)). nia.
Qed.

(** ** Concrete runs *)

Lemma setup_reachable : reachable (H := refHost true) router 104 (after setup_calls).
Proof. eexists. apply setup_history. Qed.

Lemma validate_route_correct_witness :
  validate_route (H := refHost true) route1 (ref_ctx 110 []) (after setup_calls) = Ok tt (after setup_calls) ∧
  valid_route (ref_ctx 110 []) (after setup_calls) route1.
Proof.
  destruct (validate_route_correct (H := refHost true) router 104 (after setup_calls) route1 (ref_ctx 110 [])
    setup_reachable) as [Hok|(e & Hx & _)]; [done|].
  exfalso. assert (succeeds (validate_route (H := refHost true) route1) (ref_ctx 110 []) (after setup_calls) = true)
    as Hs by by vm_compute. unfold succeeds in Hs. by rewrite Hx in Hs.
Defined.

(** A swap of the same route that asks for too much. *)
Definition greedy : SwapParams := mkSwapParams route1 10000 9999 trader 5000 0 0 0.

Lemma validated_route_executable_witness :
  ∃ e w', execute_swap (H := refHost true) trader greedy swap_ctx (after setup_calls) = Err e w' ∧
          swap_error e = true ∧ route_error e = false.
Proof.
  destruct (execute_swap (H := refHost true) trader greedy swap_ctx (after setup_calls)) as [r w'|e w'|] eqn:E.
  - exfalso. assert (succeeds (execute_swap (H := refHost true) trader greedy) swap_ctx (after setup_calls) = false)
      as Hs by by vm_compute. unfold succeeds in Hs. by rewrite E in Hs.
  - exists e, w'. split; [done|].
    apply (validated_route_executable (H := refHost true) router 104 (after setup_calls) greedy trader swap_ctx e w'
      setup_reachable); [|done].
    assert (succeeds (validate_route (H := refHost true) route1) swap_ctx (after setup_calls) = true)
      as Hs by by vm_compute.
    destruct (validate_route_cases router 104 (after setup_calls) route1 swap_ctx setup_reachable)
      as [[Hok _]|(e0 & Hx & _)]; [done|]. exfalso. unfold succeeds in Hs. by rewrite Hx in Hs.
  - exfalso.
    assert (match execute_swap (H := refHost true) trader greedy swap_ctx (after setup_calls) with
            | Panic => false | _ => true end = true) as Hs by by vm_compute. by rewrite E in Hs.
Defined.


Lemma swap_fee_bounded_witness :
  ∃ res w' gross fee, execute_swap (H := refHost true) trader swap1 swap_ctx (after setup_calls) = Ok res w' ∧
    sr_amount_out res + fee = gross.
Proof.
  destruct swap1_runs as (res & w' & Hx).
  destruct (swap_fee_bounded (H := refHost true) router 104 (after setup_calls) trader swap1 swap_ctx res w'
    setup_reachable Hx) as (gross & fee & _ & Hs & _).
  exists res, w', gross, fee. split; [exact Hx | exact Hs].
Defined.

(** ** Where execution is laxer than validation *)

(** A route that expired at ledger 50 and whose second hop does not start where the
    first one ends. *)
Definition stale_route : Route :=
  mkRoute [mkRouteHop usd eur pool_a PoolType.AmmConstProd;
           mkRouteHop usd eur pool_b PoolType.AmmConstProd] 0 9000 50.

Definition stale_swap : SwapParams := mkSwapParams stale_route 10000 9500 trader 5000 0 0 0.

(** Execution does not check what validation checks: a route that expired sixty
    ledgers ago and does not even chain its assets is rejected by [validate_route] with
    [RouteExpired], and [execute_swap] executes it in the same state. *)
Theorem stale_route_executes :
  validate_route (H := refHost true) stale_route swap_ctx (after setup_calls) =
    Err ContractError.RouteExpired (after setup_calls) ∧
  succeeds (H := refHost true) (execute_swap trader stale_swap) swap_ctx (after setup_calls) = true.
Proof. split; [reflexivity | by vm_compute]. Qed.

(** ** Events of failed executions *)

(** The failure event of [execute] is never recorded: the function publishes it and
    then returns the error, and the host discards everything a failed invocation did. So
    the log after a failed execution is the log before it, although the code published
    both the request and the failure. *)
Theorem failure_event_discarded {H : Host} sender params c w w' e :
  run (execute sender params) c w = (w', Some (inr e)) →
  w' = w ∧
  ∃ w1, execute sender params c w = Err e w1 ∧
        EvExecutionFailed sender (ContractError.code e) (ledger_seq c) ∈ w_events w1.
Proof.
  unfold run. destruct (execute sender params c w) as [r w1|e1 w1|] eqn:E; intros; simplify_eq.
  split; [done|]. exists w1. split; [done|]. unfold execute in E.
  apply bind_err in E as [E|([] & w2 & ->%ok_spec & E)]; [by einv|].
  unfold on_err in E. destruct (execute_swap sender params c _) as [r w3|e3 w3|]; [done| |done].
  apply bind_err in E as [E|([] & w4 & ->%ok_spec & E)]; [by einv|].
  apply err_spec in E as [-> ->]. cbn. apply elem_of_app. right. left.
Qed.

Lemma failure_event_discarded_witness :
  ∃ w1, execute (H := refHost true) trader greedy swap_ctx (after setup_calls) =
          Err ContractError.SlippageExceeded w1 ∧
        EvExecutionFailed trader 22 110 ∈ w_events w1.
Proof.
  assert (∀ o : outcome (H := refHost true) SwapResult,
    match o with Err ContractError.SlippageExceeded _ => true | _ => false end = true →
    ∃ w1, o = Err ContractError.SlippageExceeded w1) as Ho.
  { intros [| [] |]; try done. eauto. }
  destruct (Ho (execute (H := refHost true) trader greedy swap_ctx (after setup_calls)) ltac:(by vm_compute))
    as [w1 Hx].
  destruct (failure_event_discarded (H := refHost true) trader greedy swap_ctx (after setup_calls)
    (after setup_calls) ContractError.SlippageExceeded) as (_ & w2 & Hx2 & Hin).
  - unfold run. by rewrite Hx.
  - exists w2. split; [exact Hx2 | exact Hin].
Defined.

(** ** The constant-product adapter

    The quote of the adapter on every branch: its exact value, that it never pays out
    the reserve, that the product of the reserves never shrinks, that it is monotone,
    and that it traps instead of wrapping around. *)

(** The formula of the source on exact integers. *)
Definition cp_out (res_in res_out amount : Z) : Z :=
  (amount * 997 * res_out) / (res_in * 1000 + amount * 997).

(** The intermediate values fit into i128. *)
Definition cp_fits (res_in res_out amount : Z) : Prop :=
  fits I128 (amount * 997) ∧ fits I128 (amount * 997 * res_out) ∧
  fits I128 (res_in * 1000) ∧ fits I128 (res_in * 1000 + amount * 997).

Lemma cp_out_bounds r s a :
  0 < r → 0 <= s → 0 <= a →
  0 <= cp_out r s a ∧ (0 < s → cp_out r s a < s) ∧ r * s <= (r + a) * (s - cp_out r s a).
Proof.
  intros Hr Hs Ha. unfold cp_out. set (d := r * 1000 + a * 997). set (q := a * 997 * s / d).
  assert (0 < d) by (unfold d; lia).
  assert (0 <= a * 997 * s) by (apply Z.mul_nonneg_nonneg; lia).
  pose proof (Z.div_mod (a * 997 * s) d ltac:(lia)) as E.
  pose proof (Z.mod_pos_bound (a * 997 * s) d ltac:(lia)) as Hm. fold q in E.
  assert (0 <= q) by (apply Z.div_pos; lia).
  split_and!; [done| |].
  - intros Hs'. apply Z.div_lt_upper_bound; [lia|]. unfold d. nia.
  - assert (q * d <= a * 997 * s) by lia. unfold d in *.
    assert (q * (r + a) * 997 <= a * 997 * s) by nia. nia.
Qed.

Lemma cp_out_mono r s a b :
  0 < r → 0 <= s → 0 <= a <= b → cp_out r s a <= cp_out r s b.
Proof.
  intros Hr Hs Hab. unfold cp_out. set (da := r * 1000 + a * 997). set (db := r * 1000 + b * 997).
  assert (0 < da) by (unfold da; lia). assert (0 < db) by (unfold db; lia).
  apply Z.div_le_lower_bound; [lia|].
  pose proof (Z.mul_div_le (a * 997 * s) da ltac:(lia)) as Hq. set (q := a * 997 * s / da) in *.
  assert (0 <= q) by (apply Z.div_pos; nia).
  assert (a * db <= b * da) by (unfold da, db; nia).
  assert (da * (db * q) <= da * (b * 997 * s)) as Hle; [|nia].
  assert (db * (da * q) <= db * (a * 997 * s)) by nia. nia.
Qed.

Section Adapter.

Context {H : Host}.

Lemma bind_unwrap_Some {A B} (v : A) (f : A → M B) c w : bind (unwrap (Some v)) f c w = f v c w.
Proof. done. Qed.

Lemma bind_unwrap_None {A B} (f : A → M B) c w : bind (unwrap None) f c w = Panic.
Proof. done. Qed.

Import ConstantProductAdapter.

(** The adapter's quote. For positive reserves and a non-negative amount, if no
    intermediate product overflows i128, the quote returns the constant-product output
    with the 0.3% fee, rounded down: less than the output reserve, with the product of
    the reserves not decreasing; if an intermediate product overflows, the call traps and
    never returns a wrapped value. *)
Theorem adapter_quote_correct pool a b amount res_in res_out x c w :
  x_reserves c (w_ext w) pool = Some ((res_in, res_out), x) →
  0 < res_in → 0 < res_out → 0 <= amount →
  (cp_fits res_in res_out amount →
     adapter_quote (Some pool) a b amount c w = Ok (cp_out res_in res_out amount) (with_ext w x) ∧
     0 <= cp_out res_in res_out amount < res_out ∧
     res_in * res_out <= (res_in + amount) * (res_out - cp_out res_in res_out amount)) ∧
  (¬ cp_fits res_in res_out amount → adapter_quote (Some pool) a b amount c w = Panic).
Proof.
  intros Hx Hri Hro Ha.
  assert (adapter_quote (Some pool) a b amount c w =
    bind (unwrap (checked_mul I128 amount 997)) (λ amount_with_fee,
    bind (unwrap (checked_mul I128 amount_with_fee res_out)) (λ numerator,
    bind (unwrap (match checked_mul I128 res_in 1000 with
                  | Some v => checked_add I128 v amount_with_fee | None => None end)) (λ denominator,
    bind (if denominator =? 0 then panic else ret tt) (λ _,
    unwrap (checked_div I128 numerator denominator))))) c (with_ext w x)) as ->.
  { unfold adapter_quote, get_rsrvs, invoke, try_invoke, bind at 1 2 3, unwrap at 1, ret. by rewrite Hx. }
  destruct (cp_out_bounds res_in res_out amount) as (H0 & H1 & H2); [lia..|].
  split.
  - intros (F1 & F2 & F3 & F4). split; [|split; [lia|done]].
    unfold checked_mul, checked_add. rewrite (chk_fits _ _ F1), bind_unwrap_Some.
    rewrite (chk_fits _ _ F2), bind_unwrap_Some.
    rewrite (chk_fits _ _ F3), (chk_fits _ _ F4), bind_unwrap_Some.
    rewrite (proj2 (Z.eqb_neq _ 0)) by lia. unfold bind, ret.
    unfold checked_div. rewrite (proj2 (Z.eqb_neq _ 0)) by lia.
    rewrite Z.quot_div_nonneg by nia. fold (cp_out res_in res_out amount). specialize (H1 Hro).
    rewrite chk_fits; [done|]. unfold fits in *. cbn [int_min int_max] in *.
    assert (cp_out res_in res_out amount <= amount * 997 * res_out); [|lia].
    unfold cp_out. apply Z.div_le_upper_bound; nia.
  - intros Hn. unfold checked_mul, checked_add.
    destruct (chk I128 (amount * 997)) as [v1|] eqn:E1; [|done]. apply chk_Some in E1 as [-> F1].
    rewrite bind_unwrap_Some.
    destruct (chk I128 (amount * 997 * res_out)) as [v2|] eqn:E2; [|done]. apply chk_Some in E2 as [-> F2].
    rewrite bind_unwrap_Some.
    destruct (chk I128 (res_in * 1000)) as [v3|] eqn:E3; [|done]. apply chk_Some in E3 as [-> F3].
    destruct (chk I128 (res_in * 1000 + amount * 997)) as [v4|] eqn:E4; [|done]. apply chk_Some in E4 as [-> F4].
    by destruct Hn.
Qed.

(** A larger input never gets a smaller quote, and the empty input gets nothing. *)
Theorem adapter_quote_monotone pool a b amount amount' res_in res_out x c w out w1 out' w2 :
  x_reserves c (w_ext w) pool = Some ((res_in, res_out), x) →
  0 < res_in → 0 <= res_out → 0 <= amount <= amount' →
  adapter_quote (Some pool) a b amount c w = Ok out w1 →
  adapter_quote (Some pool) a b amount' c w = Ok out' w2 →
  out <= out' ∧ (amount = 0 → out = 0).
Proof.
  intros Hx Hri Hro Ha.
  assert (∀ am o w', 0 <= am → adapter_quote (Some pool) a b am c w = Ok o w' → o = cp_out res_in res_out am) as Hq.
  { intros am o w' Ham Hm. unfold adapter_quote, get_rsrvs, invoke in Hm. minv.
    match goal with E : _ ∨ _ |- _ => destruct E as [E|E]; break; simplify_eq end.
    repeat match goal with
    | E : checked_mul _ _ _ = Some _ |- _ => apply chk_Some in E as [-> ?]
    | E : match checked_mul ?t ?a ?b with _ => _ end = Some _ |- _ => destruct (checked_mul t a b) eqn:?
    | E : checked_add _ _ _ = Some _ |- _ => apply chk_Some in E as [-> ?]
    | E : checked_div _ _ _ = Some _ |- _ => apply checked_div_Some in E as (_ & -> & ?)
    end; try done. unfold cp_out. rewrite Z.quot_div_nonneg; [done|nia|lia]. }
  intros H1%Hq H2%Hq; [|lia|lia]. subst. split.
  - by apply cp_out_mono.
  - intros ->. unfold cp_out. done.
Qed.

End Adapter.

(** ** Concrete runs *)

Definition quote_world : World (H := refHost true) := ref_world0 true.
Definition some_pool : Address := mkAddr 20.

Lemma adapter_quote_correct_witness :
  ConstantProductAdapter.adapter_quote (H := refHost true) (Some some_pool) Asset.Native Asset.Native 1000
    (ref_ctx 1 []) quote_world = Ok (cp_out 1000000 1000000 1000) (with_ext quote_world (w_ext quote_world)) ∧
  cp_out 1000000 1000000 1000 = 996.
Proof.
  split; [|by vm_compute].
  destruct (adapter_quote_correct (H := refHost true) some_pool Asset.Native Asset.Native 1000 1000000 1000000
    (w_ext quote_world) (ref_ctx 1 []) quote_world) as [Hok _]; [done|lia|lia|lia|].
  apply Hok. unfold cp_fits, fits. cbn. lia.
Defined.

Lemma adapter_quote_monotone_witness :
  cp_out 1000000 1000000 1000 <= cp_out 1000000 1000000 2000.
Proof.
  apply (adapter_quote_monotone (H := refHost true) some_pool Asset.Native Asset.Native 1000 2000 1000000 1000000
    (w_ext quote_world) (ref_ctx 1 []) quote_world _ quote_world _ quote_world); try done; by vm_compute.
Defined.
