(* ===== verification/ChainAsset.v ===== *)
(** * Chain-scoped asset identifiers (routing: error.rs, chain_asset.rs)

    [ChainId], [AssetReference] and [ChainAsset] with their printers and parsers,
    the structural validators, and the canonicalization entry point. Messages of
    errors are built as the source's [format!] calls build them. *)

From stdpp Require Import base decidable strings numbers list.
From S2P Require Import Prelude RustStr Result.

Local Open Scope Z_scope.
Local Open Scope str_scope.
Local Open Scope result_scope.

(** ** error.rs *)

Module RoutingError.

Inductive RoutingError :=
| NoRoute (from to : Str)
| InsufficientLiquidity (msg : Str)
| InvalidAmount (msg : Str)
| InvalidPair (msg : Str)
| InvalidAsset (msg : Str)
| Normalization (msg : Str)
| DecimalPrecision (msg : Str)
| Overflow
| DuplicateScorer (msg : Str)
| UnknownScorer (msg : Str).

End RoutingError.

Abbreviation RoutingError := RoutingError.RoutingError (only parsing).

#[export] Instance RoutingError_eq_dec : EqDecision RoutingError.
Proof. solve_decision. Defined.

(** [Err(RoutingError::InvalidAsset(msg))] *)
Definition invalid_asset {A} (msg : Str) : Result A RoutingError := Err (RoutingError.InvalidAsset msg).

(** ** Constants *)

Definition SLIP44_BTC : Z := 0.
Definition SLIP44_ETH : Z := 60.
Definition SLIP44_XLM : Z := 148.
Definition SLIP44_TRX : Z := 195.
Definition SLIP44_SOL : Z := 501.

Definition STELLAR_ISSUER_ALPHABET : Str := $"ABCDEFGHIJKLMNOPQRSTUVWXYZ234567".
Definition BASE58_ALPHABET : Str := $"123456789ABCDEFGHJKLMNPQRSTUVWXYZabcdefghijkmnopqrstuvwxyz".

(** The ellipsis of two error messages. *)
Definition ellipsis : Str := [8230].

(** ** Data *)

Module ChainId.

Inductive ChainId :=
| Stellar (network : Str)
| Eip155 (chain_id : Z)
| Solana (cluster : Str)
| Bitcoin (genesis_hash : Str)
| Tron (network : Str).

End ChainId.

Abbreviation ChainId := ChainId.ChainId (only parsing).

#[export] Instance ChainId_eq_dec : EqDecision ChainId.
Proof. solve_decision. Defined.

Module AssetReference.

Inductive AssetReference :=
| Native
| StellarCredit (code issuer : Str)
| Erc20 (address : Str)
| SplToken (mint : Str)
| Trc20 (address : Str).

End AssetReference.

Abbreviation AssetReference := AssetReference.AssetReference (only parsing).

#[export] Instance AssetReference_eq_dec : EqDecision AssetReference.
Proof. solve_decision. Defined.

Record ChainAsset := mkChainAsset {
  chain : ChainId;
  asset : AssetReference;
}.

#[export] Instance ChainAsset_eq_dec : EqDecision ChainAsset.
Proof. solve_decision. Defined.

(** ** Structural validators *)

Definition split_once_colon (input : Str) : option (Str * Str) := split_once colon input.

Definition normalize_stellar_code (code : Str) : Result Str RoutingError :=
  if bool_decide (code = []) || (12 <? str_len code) || negb (forallb is_ascii_alphanumeric code)
  then invalid_asset ($"invalid stellar asset code: " ++ code)
  else Ok (to_ascii_uppercase code).

Definition validate_stellar_issuer (issuer : Str) : Result Str RoutingError :=
  if negb (str_len issuer =? 56) || negb (starts_with $"G" issuer)
  then invalid_asset
         ($"invalid stellar issuer (expected G" ++ ellipsis ++ $" length 56): " ++ issuer)
  else if negb (forallb (contains STELLAR_ISSUER_ALPHABET) (drop 1 issuer))
  then invalid_asset ($"invalid stellar issuer alphabet: " ++ issuer)
  else Ok issuer.

(** [lower[2..]] is taken only after [starts_with("0x")], so the byte index 2 is
    a character boundary. *)
Definition validate_erc20_address (address : Str) : Result Str RoutingError :=
  let lower := to_ascii_lowercase address in
  if negb (starts_with $"0x" lower && (str_len lower =? 42) &&
           forallb is_ascii_hexdigit (drop 2 lower))
  then invalid_asset ($"invalid erc20 address (expected 0x + 40 hex): " ++ address)
  else Ok lower.

Definition validate_bip122_genesis (reference : Str) : Result unit RoutingError :=
  if negb (str_len reference =? 64) || negb (forallb is_ascii_hexdigit reference)
  then invalid_asset ($"invalid bip122 genesis hash (expected 64 hex chars): " ++ reference)
  else Ok tt.

Definition validate_solana_address (address : Str) : Result Str RoutingError :=
  if (str_len address <? 32) || (44 <? str_len address)
  then invalid_asset ($"invalid solana address length: " ++ address)
  else if negb (forallb (contains BASE58_ALPHABET) address)
  then invalid_asset ($"invalid solana address alphabet: " ++ address)
  else Ok address.

Definition validate_tron_address (address : Str) : Result Str RoutingError :=
  if negb (str_len address =? 34) || negb (starts_with $"T" address)
  then invalid_asset
         ($"invalid tron address (expected T" ++ ellipsis ++ $" length 34): " ++ address)
  else if negb (forallb (contains BASE58_ALPHABET) address)
  then invalid_asset ($"invalid tron address alphabet: " ++ address)
  else Ok address.

(** ** ChainId *)

Definition native_slip44 (c : ChainId) : Z :=
  match c with
  | ChainId.Bitcoin _ => SLIP44_BTC
  | ChainId.Eip155 _ => SLIP44_ETH
  | ChainId.Stellar _ => SLIP44_XLM
  | ChainId.Tron _ => SLIP44_TRX
  | ChainId.Solana _ => SLIP44_SOL
  end.

Definition to_caip2 (c : ChainId) : Str :=
  match c with
  | ChainId.Stellar network => $"stellar:" ++ network
  | ChainId.Eip155 chain_id => $"eip155:" ++ display chain_id
  | ChainId.Solana cluster => $"solana:" ++ cluster
  | ChainId.Bitcoin genesis_hash => $"bip122:" ++ genesis_hash
  | ChainId.Tron network => $"tron:" ++ network
  end.

Definition parse_caip2 (input : Str) : Result ChainId RoutingError :=
  '(namespace, reference) ← ok_or (split_once_colon input)
      (RoutingError.InvalidAsset ($"invalid chain id: " ++ input));
  if bool_decide (namespace = $"stellar") then
    let network := to_ascii_lowercase reference in
    if negb (bool_decide (network = $"pubnet")) && negb (bool_decide (network = $"testnet"))
    then invalid_asset ($"unsupported stellar network: " ++ reference)
    else Ok (ChainId.Stellar network)
  else if bool_decide (namespace = $"eip155") then
    chain_id ← ok_or (parse_uint U64 reference)
      (RoutingError.InvalidAsset ($"invalid eip155 chain id: " ++ reference));
    Ok (ChainId.Eip155 chain_id)
  else if bool_decide (namespace = $"solana") then
    let cluster := to_ascii_lowercase reference in
    if negb (bool_decide (cluster = $"mainnet") || bool_decide (cluster = $"devnet") ||
             bool_decide (cluster = $"testnet"))
    then invalid_asset ($"unsupported solana cluster label: " ++ reference)
    else Ok (ChainId.Solana cluster)
  else if bool_decide (namespace = $"bip122") then
    validate_bip122_genesis reference;;
    Ok (ChainId.Bitcoin (to_ascii_lowercase reference))
  else if bool_decide (namespace = $"tron") then
    let network := to_ascii_lowercase reference in
    if negb (bool_decide (network = $"mainnet") || bool_decide (network = $"nile") ||
             bool_decide (network = $"shasta"))
    then invalid_asset ($"unsupported tron network label: " ++ reference)
    else Ok (ChainId.Tron network)
  else invalid_asset ($"unsupported chain namespace: " ++ namespace).

(** ** AssetReference *)

Definition to_caip19_suffix (a : AssetReference) (c : ChainId) : Str :=
  match a with
  | AssetReference.Native => $"slip44:" ++ display (native_slip44 c)
  | AssetReference.StellarCredit code issuer => $"stellar:" ++ code ++ $":" ++ issuer
  | AssetReference.Erc20 address => $"erc20:" ++ address
  | AssetReference.SplToken mint => $"token:" ++ mint
  | AssetReference.Trc20 address => $"trc20:" ++ address
  end.

(** [!matches!(chain, ChainId::X { .. })] for the four token namespaces. *)
Definition is_stellar (c : ChainId) : bool :=
  match c with ChainId.Stellar _ => true | _ => false end.
Definition is_eip155 (c : ChainId) : bool :=
  match c with ChainId.Eip155 _ => true | _ => false end.
Definition is_solana (c : ChainId) : bool :=
  match c with ChainId.Solana _ => true | _ => false end.
Definition is_tron (c : ChainId) : bool :=
  match c with ChainId.Tron _ => true | _ => false end.

Definition parse_for_chain (c : ChainId) (asset_namespace asset_reference : Str)
    : Result AssetReference RoutingError :=
  if bool_decide (asset_namespace = $"slip44") then
    slip44 ← ok_or (parse_uint U32 asset_reference)
      (RoutingError.InvalidAsset ($"invalid slip44 coin type: " ++ asset_reference));
    let expected := native_slip44 c in
    if negb (slip44 =? expected)
    then invalid_asset ($"slip44:" ++ display slip44 ++ $" is not valid for chain " ++ to_caip2 c ++
                        $" (expected slip44:" ++ display expected ++ $")")
    else Ok AssetReference.Native
  else if bool_decide (asset_namespace = $"native") then
    invalid_asset $"bare 'native' asset namespace is not allowed; use slip44:<coin_type>"
  else if bool_decide (asset_namespace = $"stellar") then
    reject (negb (is_stellar c))
      (RoutingError.InvalidAsset $"stellar credit assets require a stellar:* chain id");;
    '(code, issuer) ← ok_or (split_once_colon asset_reference)
      (RoutingError.InvalidAsset ($"stellar asset requires CODE:ISSUER, got: " ++ asset_reference));
    code ← normalize_stellar_code code;
    issuer ← validate_stellar_issuer issuer;
    Ok (AssetReference.StellarCredit code issuer)
  else if bool_decide (asset_namespace = $"erc20") then
    reject (negb (is_eip155 c))
      (RoutingError.InvalidAsset $"erc20 assets require an eip155:* chain id");;
    address ← validate_erc20_address asset_reference;
    Ok (AssetReference.Erc20 address)
  else if bool_decide (asset_namespace = $"token") then
    reject (negb (is_solana c))
      (RoutingError.InvalidAsset $"solana token assets require a solana:* chain id");;
    mint ← validate_solana_address asset_reference;
    Ok (AssetReference.SplToken mint)
  else if bool_decide (asset_namespace = $"trc20") then
    reject (negb (is_tron c))
      (RoutingError.InvalidAsset $"trc20 assets require a tron:* chain id");;
    address ← validate_tron_address asset_reference;
    Ok (AssetReference.Trc20 address)
  else invalid_asset ($"unsupported asset namespace: " ++ asset_namespace).

(** ** ChainAsset *)

Definition asset_kind_name (a : AssetReference) : Str :=
  match a with
  | AssetReference.Native => $"native"
  | AssetReference.StellarCredit _ _ => $"stellar_credit"
  | AssetReference.Erc20 _ => $"erc20"
  | AssetReference.SplToken _ => $"spl_token"
  | AssetReference.Trc20 _ => $"trc20"
  end.

(** [{:?}] of a plain ASCII name: the name in double quotes. *)
Definition debug_name (s : Str) : Str := [34] ++ s ++ [34].

Definition validate (v : ChainAsset) : Result unit RoutingError :=
  match chain v, asset v with
  | _, AssetReference.Native => Ok tt
  | ChainId.Stellar _, AssetReference.StellarCredit code issuer =>
      normalize_stellar_code code;; validate_stellar_issuer issuer;; Ok tt
  | ChainId.Eip155 _, AssetReference.Erc20 address => validate_erc20_address address;; Ok tt
  | ChainId.Solana _, AssetReference.SplToken mint => validate_solana_address mint;; Ok tt
  | ChainId.Tron _, AssetReference.Trc20 address => validate_tron_address address;; Ok tt
  | c, a => invalid_asset ($"asset kind " ++ debug_name (asset_kind_name a) ++
                           $" is incompatible with chain " ++ to_caip2 c)
  end.

(** [ChainAsset::new] *)
Definition new (c : ChainId) (a : AssetReference) : Result ChainAsset RoutingError :=
  let value := mkChainAsset c a in
  validate value;;
  Ok value.

Definition stellar_native (network : Str) : ChainAsset :=
  mkChainAsset (ChainId.Stellar network) AssetReference.Native.

Definition stellar_credit (network code issuer : Str) : Result ChainAsset RoutingError :=
  code ← normalize_stellar_code code;
  issuer ← validate_stellar_issuer issuer;
  Ok (mkChainAsset (ChainId.Stellar network) (AssetReference.StellarCredit code issuer)).

Definition to_canonical (v : ChainAsset) : Str :=
  to_caip2 (chain v) ++ $"/" ++ to_caip19_suffix (asset v) (chain v).

(** [ChainAsset::parse] *)
Definition parse (input : Str) : Result ChainAsset RoutingError :=
  let input := trim input in
  reject (bool_decide (input = [])) (RoutingError.InvalidAsset $"asset identifier is empty");;
  '(caip2, asset_part) ← ok_or (split_once slash input)
    (RoutingError.InvalidAsset ($"expected chain/asset form, got: " ++ input));
  chain ← parse_caip2 caip2;
  reject (eq_ignore_ascii_case asset_part $"native" ||
          eq_ignore_ascii_case asset_part $"slip44:native")
    (RoutingError.InvalidAsset
       $"slip44:native / bare native are not allowed; use slip44:<coin_type>");;
  '(asset_namespace, asset_reference) ← ok_or (split_once_colon asset_part)
    (RoutingError.InvalidAsset ($"expected asset_namespace:reference, got: " ++ asset_part));
  asset ← parse_for_chain chain asset_namespace asset_reference;
  let parsed := mkChainAsset chain asset in
  validate parsed;;
  Ok parsed.

Definition from_stellar_legacy (legacy : Str) : Result ChainAsset RoutingError :=
  let trimmed := trim legacy in
  if bool_decide (trimmed = []) then invalid_asset $"asset identifier is empty"
  else
    let lower := to_ascii_lowercase trimmed in
    if bool_decide (lower = $"native") || bool_decide (lower = $"xlm")
    then Ok (stellar_native $"pubnet")
    else match split_once colon trimmed with
         | Some (code, issuer) => stellar_credit $"pubnet" code issuer
         | None =>
             if forallb is_ascii_alphanumeric trimmed
             then invalid_asset
                    ($"stellar issued asset requires issuer (CODE:ISSUER), got: " ++ legacy)
             else invalid_asset ($"unrecognized stellar legacy asset: " ++ legacy)
         end.

Definition is_same_chain (v w : ChainAsset) : bool := bool_decide (chain v = chain w).

Definition chain_namespace (v : ChainAsset) : Str :=
  match chain v with
  | ChainId.Stellar _ => $"stellar"
  | ChainId.Eip155 _ => $"eip155"
  | ChainId.Solana _ => $"solana"
  | ChainId.Bitcoin _ => $"bip122"
  | ChainId.Tron _ => $"tron"
  end.

Definition looks_like_caip (input : Str) : bool :=
  let lower := to_ascii_lowercase input in
  starts_with $"stellar:" lower || starts_with $"eip155:" lower || starts_with $"solana:" lower ||
  starts_with $"bip122:" lower || starts_with $"tron:" lower.

Definition canonicalize_asset_id (input : Str) : Result Str RoutingError :=
  let trimmed := trim input in
  reject (bool_decide (trimmed = [])) (RoutingError.InvalidAsset $"asset identifier is empty");;
  if looks_like_caip trimmed then
    v ← parse trimmed;
    Ok (to_canonical v)
  else
    v ← from_stellar_legacy trimmed;
    Ok (to_canonical v).
