(* ===== verification/ChainAssetProps.v ===== *)
(** * Properties of chain-scoped asset identifiers

    Printing and parsing are inverse on canonical assets, parsing only produces
    canonical assets, canonicalization is idempotent, and Stellar assets whose
    code is a chain namespace are not canonicalized. *)

From stdpp Require Import base decidable strings numbers list.
From Stdlib Require Import ZArith Lia.
From S2P Require Import Prelude RustStr Result ChainAsset.

Local Open Scope Z_scope.
Local Open Scope str_scope.

(** ** Canonical form *)

(** The chain ids [parse_caip2] produces. *)
Definition canonical_chain (c : ChainId) : Prop :=
  match c with
  | ChainId.Stellar n => n = $"pubnet" ∨ n = $"testnet"
  | ChainId.Eip155 i => fits U64 i
  | ChainId.Solana n => n = $"mainnet" ∨ n = $"devnet" ∨ n = $"testnet"
  | ChainId.Bitcoin h => validate_bip122_genesis h = Ok tt ∧ to_ascii_lowercase h = h
  | ChainId.Tron n => n = $"mainnet" ∨ n = $"nile" ∨ n = $"shasta"
  end.

(** The asset references [parse_for_chain] produces: every validator accepts its
    part and leaves it unchanged. *)
Definition canonical_asset (c : ChainId) (a : AssetReference) : Prop :=
  match a with
  | AssetReference.Native => True
  | AssetReference.StellarCredit code issuer =>
      is_stellar c = true ∧ normalize_stellar_code code = Ok code ∧
      validate_stellar_issuer issuer = Ok issuer
  | AssetReference.Erc20 address => is_eip155 c = true ∧ validate_erc20_address address = Ok address
  | AssetReference.SplToken mint => is_solana c = true ∧ validate_solana_address mint = Ok mint
  | AssetReference.Trc20 address => is_tron c = true ∧ validate_tron_address address = Ok address
  end.

Definition canonical (v : ChainAsset) : Prop :=
  canonical_chain (chain v) ∧ canonical_asset (chain v) (asset v).

(** ** Alphanumeric strings *)

(** Strings of ASCII letters and digits: they hold neither separators nor spaces. *)
Definition alnum (s : Str) : Prop := Forall (λ c, is_ascii_alphanumeric c = true) s.

(** Evaluates the comparisons of literals in the goal. *)
Ltac closed_bools :=
  repeat match goal with
  | |- context [bool_decide (lit ?a = lit ?b)] =>
      let v := eval vm_compute in (bool_decide (lit a = lit b)) in
      change (bool_decide (lit a = lit b)) with v
  end; cbn [orb andb negb].

Ltac char_solve :=
  unfold ascii_upper, ascii_lower, is_whitespace, is_ascii_alphanumeric, is_ascii_hexdigit,
    is_ascii_digit, is_ascii_upper, is_ascii_lower in *; intros; repeat case_match;
  rewrite ?orb_true_iff, ?andb_true_iff, ?orb_false_iff, ?andb_false_iff, ?Z.leb_le, ?Z.leb_gt,
    ?Z.eqb_eq, ?Z.eqb_neq in *; lia.

Lemma alnum_not_sep s d : alnum s → is_ascii_alphanumeric d = false → d ∉ s.
Proof. intros Hs Hd Hin. unfold alnum in Hs. rewrite Forall_forall in Hs. specialize (Hs d Hin). congruence. Qed.

Lemma alnum_app s t : alnum s → alnum t → alnum (s ++ t).
Proof. apply Forall_app_2. Qed.

Lemma alnum_forallb s f :
  (∀ c, f c = true → is_ascii_alphanumeric c = true) → forallb f s = true → alnum s.
Proof.
  intros Hf H. apply Forall_forall. intros c Hc. apply Hf.
  rewrite forallb_forall in H. by apply H, list_elem_of_In.
Qed.

Lemma alnum_lit s : forallb is_ascii_alphanumeric (lit s) = true → alnum (lit s).
Proof. by apply alnum_forallb. Qed.

Lemma lit_not_sep s d :
  forallb is_ascii_alphanumeric (lit s) = true → is_ascii_alphanumeric d = false → d ∉ lit s.
Proof. intros. by apply alnum_not_sep; [apply alnum_lit|]. Qed.

Lemma alnum_display n : 0 <= n → alnum (display n).
Proof.
  intros Hn. eapply Forall_impl; [by apply (digits_digit 39)|].
  intros c Hc. unfold is_ascii_alphanumeric. by rewrite Hc.
Qed.

Lemma alphabet_alnum s alphabet :
  forallb is_ascii_alphanumeric alphabet = true → forallb (contains alphabet) s = true → alnum s.
Proof.
  intros Ha. apply alnum_forallb. intros c Hc. unfold contains in Hc.
  apply bool_decide_eq_true in Hc. rewrite forallb_forall in Ha. by apply Ha, list_elem_of_In.
Qed.

Lemma hexdigit_alnum c : is_ascii_hexdigit c = true → is_ascii_alphanumeric c = true.
Proof. char_solve. Qed.

#[export] Hint Resolve alnum_app alnum_display hexdigit_alnum : rstr.

(** A string that starts and ends with alphanumeric characters is its own trimming. *)
Lemma trim_alnum s m t :
  alnum s → s ≠ [] → alnum t → t ≠ [] → trim (s ++ m ++ t) = s ++ m ++ t.
Proof.
  intros Hs Hs0 Ht Ht0. apply trim_id.
  - destruct s as [|x s]; [done|]. cbn. intros c [= <-]. inversion Hs; subst. char_solve.
  - intros c. rewrite !last_app. destruct (last t) as [x|] eqn:E; [|by apply last_None in E].
    intros [= ->]. apply last_Some in E as [l ->]. apply Forall_app in Ht as [_ Ht].
    inversion Ht; subst. char_solve.
Qed.

(** ** Validators *)

Lemma issuer_Ok s t : validate_stellar_issuer s = Ok t → t = s ∧ alnum s ∧ s ≠ [].
Proof.
  unfold validate_stellar_issuer. destruct (_ || _) eqn:E1; [done|].
  destruct (forallb _ _) eqn:E2; [|done]. cbn. intros [= ->].
  apply orb_false_iff in E1 as [_ E1]. apply negb_false_iff, starts_with_spec in E1 as [r Er].
  cbn in Er. subst t. cbn in E2. repeat split; [|done].
  constructor; [done|]. by apply alphabet_alnum in E2.
Qed.

Lemma code_Ok s t : normalize_stellar_code s = Ok t → t = to_ascii_uppercase s ∧ alnum t ∧ t ≠ [].
Proof.
  unfold normalize_stellar_code. destruct (_ || _) eqn:E; [done|]. intros [= <-].
  apply orb_false_iff in E as [[E0 _]%orb_false_iff E]. apply negb_false_iff in E.
  apply bool_decide_eq_false in E0. repeat split.
  - apply Forall_fmap. apply alnum_forallb in E; [|done].
    eapply Forall_impl; [exact E|]. intros c. cbn. char_solve.
  - destruct s; [done|]. discriminate.
Qed.

Lemma erc20_Ok s t : validate_erc20_address s = Ok t → t = to_ascii_lowercase s ∧ alnum t ∧ t ≠ [].
Proof.
  unfold validate_erc20_address. destruct (negb _) eqn:E; [done|]. intros [= <-].
  apply negb_false_iff in E. apply andb_true_iff in E as [[E0 _]%andb_true_iff E].
  apply starts_with_spec in E0 as [r Er]. rewrite Er in *. cbn in E.
  repeat split; [|done]. constructor; [done|]. constructor; [done|].
  eapply alnum_forallb in E; [exact E|apply hexdigit_alnum].
Qed.

Lemma bip122_Ok s : validate_bip122_genesis s = Ok tt → alnum s ∧ s ≠ [].
Proof.
  unfold validate_bip122_genesis. destruct (_ || _) eqn:E; [done|]. intros _.
  apply orb_false_iff in E as [E0 E]. apply negb_false_iff in E, E0. split.
  - eapply alnum_forallb; [apply hexdigit_alnum|done].
  - intros ->. discriminate.
Qed.

Lemma solana_Ok s t : validate_solana_address s = Ok t → t = s ∧ alnum s ∧ s ≠ [].
Proof.
  unfold validate_solana_address. destruct (_ || _) eqn:E1; [done|].
  destruct (forallb _ _) eqn:E2; [|done]. cbn. intros [= ->].
  repeat split; [by apply alphabet_alnum in E2|]. intros ->. discriminate.
Qed.

Lemma tron_Ok s t : validate_tron_address s = Ok t → t = s ∧ alnum s ∧ s ≠ [].
Proof.
  unfold validate_tron_address. destruct (_ || _) eqn:E1; [done|].
  destruct (forallb _ _) eqn:E2; [|done]. cbn. intros [= ->].
  repeat split; [by apply alphabet_alnum in E2|]. intros ->. discriminate.
Qed.

(** A case conversion that stays inside a class of characters keeps a string in
    the class and its length. *)
Lemma fmap_class (f : Z → Z) (P : Z → bool) s :
  (∀ c, P c = true → P (f c) = true ∧ utf8_len (f c) = utf8_len c) →
  forallb P s = true → forallb P (f <$> s) = true ∧ str_len (f <$> s) = str_len s.
Proof.
  intros Hf. induction s as [|c s IH]; [done|]. rewrite fmap_cons. cbn [forallb].
  intros [Hc Hs]%andb_true_iff. destruct (IH Hs) as [IH1 IH2], (Hf c Hc) as [Hf1 Hf2].
  rewrite IH1, Hf1. split; [done|]. unfold str_len, sum_of in *. cbn [foldr]. lia.
Qed.

Lemma upper_alnum c : is_ascii_alphanumeric c = true →
  is_ascii_alphanumeric (ascii_upper c) = true ∧ utf8_len (ascii_upper c) = utf8_len c.
Proof. split; [|unfold utf8_len]; char_solve. Qed.

Lemma lower_hexdigit c : is_ascii_hexdigit c = true →
  is_ascii_hexdigit (ascii_lower c) = true ∧ utf8_len (ascii_lower c) = utf8_len c.
Proof. split; [|unfold utf8_len]; char_solve. Qed.

Lemma code_idemp s t : normalize_stellar_code s = Ok t → normalize_stellar_code t = Ok t.
Proof.
  intros H. destruct (code_Ok _ _ H) as (-> & _ & Hne). revert H.
  unfold normalize_stellar_code. destruct (_ || _) eqn:E; [done|]. intros _.
  apply orb_false_iff in E as [[_ El]%orb_false_iff E]. apply negb_false_iff in E.
  destruct (fmap_class _ _ s upper_alnum E) as [E1 E2].
  unfold to_ascii_uppercase in *. rewrite E1, E2, El.
  rewrite (bool_decide_eq_false_2 _ Hne). cbn. f_equal. apply upper_idemp.
Qed.

Lemma erc20_idemp s t : validate_erc20_address s = Ok t → validate_erc20_address t = Ok t.
Proof.
  intros H. destruct (erc20_Ok _ _ H) as (-> & _). revert H.
  unfold validate_erc20_address. rewrite !lower_idemp. by destruct (negb _).
Qed.

Lemma bip122_lower s :
  validate_bip122_genesis s = Ok tt → validate_bip122_genesis (to_ascii_lowercase s) = Ok tt.
Proof.
  unfold validate_bip122_genesis. destruct (_ || _) eqn:E; [done|]. intros _.
  apply orb_false_iff in E as [E0 E]. apply negb_false_iff in E, E0.
  destruct (fmap_class _ _ s lower_hexdigit E) as [E1 E2].
  unfold to_ascii_lowercase. by rewrite E1, E2, E0.
Qed.

(** ** Chain ids *)

Lemma native_slip44_fits c : fits U32 (native_slip44 c).
Proof. destruct c; by split; vm_compute. Qed.

(** What a canonical chain id prints as: a namespace and an alphanumeric reference. *)
Lemma to_caip2_shape c :
  canonical_chain c →
  ∃ ns r, to_caip2 c = ns ++ colon :: r ∧ alnum ns ∧ ns ≠ [] ∧ alnum r.
Proof.
  destruct c as [n|i|n|h|n]; cbn [canonical_chain]; intros H;
    [exists $"stellar", n | exists $"eip155", (display i) | exists $"solana", n |
     exists $"bip122", h | exists $"tron", n];
    (split; [reflexivity|]); (split; [by apply alnum_lit|]); (split; [done|]).
  - by destruct H as [-> | ->]; apply alnum_lit.
  - apply alnum_display. unfold fits in H. cbn in H. lia.
  - by destruct H as [-> | [-> | ->]]; apply alnum_lit.
  - destruct H as [H _]. by apply bip122_Ok.
  - by destruct H as [-> | [-> | ->]]; apply alnum_lit.
Qed.

Lemma slash_not_in_caip2 c : canonical_chain c → slash ∉ to_caip2 c.
Proof.
  intros (ns & r & -> & Hn & _ & Hr)%to_caip2_shape.
  apply not_elem_of_app. split; [by apply alnum_not_sep|].
  apply not_elem_of_cons. split; [done|by apply alnum_not_sep].
Qed.

Lemma parse_caip2_print c : canonical_chain c → parse_caip2 (to_caip2 c) = Ok c.
Proof.
  unfold parse_caip2, split_once_colon. intros H.
  destruct c as [n|i|n|h|n]; cbn [canonical_chain] in H; unfold to_caip2.
  - by destruct H as [-> | ->].
  - change ($"eip155:" ++ display i) with ($"eip155" ++ colon :: display i).
    rewrite split_once_app by (by apply lit_not_sep).
    cbn [ok_or try_]. closed_bools. by rewrite parse_display by done.
  - by destruct H as [-> | [-> | ->]].
  - change ($"bip122:" ++ h) with ($"bip122" ++ colon :: h).
    rewrite split_once_app by (by apply lit_not_sep).
    cbn [ok_or try_]. closed_bools. destruct H as [-> Hl]. cbn. by rewrite Hl.
  - by destruct H as [-> | [-> | ->]].
Qed.

Lemma parse_caip2_canonical s c : parse_caip2 s = Ok c → canonical_chain c.
Proof.
  unfold parse_caip2. intros H. rinv. case_match; subst. repeat case_bool_decide; rinv.
  all: repeat (match type of H with (if ?b then _ else _) = _ => destruct b eqn:?; [discriminate H|] end);
    rinv; cbn [canonical_chain].
  all: repeat match goal with
    | E : negb _ = false |- _ => apply negb_false_iff in E
    | E : _ || _ = true |- _ => apply orb_true_iff in E
    | E : _ && _ = false |- _ => apply andb_false_iff in E
    | E : bool_decide _ = true |- _ => apply bool_decide_eq_true in E
    end; try naive_solver.
  - by eapply parse_uint_fits; [|split; vm_compute].
  - split; [by apply bip122_lower|apply lower_idemp].
Qed.

(** ** Assets *)

(** What a canonical asset reference prints as. *)
Lemma suffix_shape c a :
  canonical_asset c a →
  ∃ ns m r, to_caip19_suffix a c = ns ++ colon :: m ++ r ∧ alnum ns ∧ alnum r ∧ r ≠ [].
Proof.
  destruct a as [|code issuer|address|mint|address]; cbn [canonical_asset]; intros H.
  - exists $"slip44", [], (display (native_slip44 c)). repeat split.
    + by apply alnum_lit.
    + apply alnum_display, native_slip44_fits.
    + apply digits_ne; lia.
  - destruct H as (_ & _ & (_ & Hi & Hne)%issuer_Ok).
    exists $"stellar", (code ++ $":"), issuer. cbn [to_caip19_suffix]. rewrite <- app_assoc.
    repeat split; [by apply alnum_lit|done..].
  - destruct H as (_ & (_ & Hi & Hne)%erc20_Ok).
    exists $"erc20", [], address. repeat split; [by apply alnum_lit|done..].
  - destruct H as (_ & (_ & Hi & Hne)%solana_Ok).
    exists $"token", [], mint. repeat split; [by apply alnum_lit|done..].
  - destruct H as (_ & (_ & Hi & Hne)%tron_Ok).
    exists $"trc20", [], address. repeat split; [by apply alnum_lit|done..].
Qed.

(** The suffix is split at its first colon and parsed back. *)
Lemma parse_suffix_print c a :
  canonical_asset c a →
  ∃ ns r, split_once_colon (to_caip19_suffix a c) = Some (ns, r) ∧ parse_for_chain c ns r = Ok a.
Proof.
  unfold split_once_colon.
  destruct a as [|code issuer|address|mint|address]; cbn [canonical_asset]; intros H.
  - exists $"slip44", (display (native_slip44 c)).
    split; [by apply (split_once_app _ $"slip44"), lit_not_sep|].
    unfold parse_for_chain. closed_bools.
    rewrite parse_display by (done || apply native_slip44_fits). cbn. by rewrite Z.eqb_refl.
  - destruct H as (Hc & Hcode & Hi). destruct (code_Ok _ _ Hcode) as (_ & Ha & _).
    exists $"stellar", (code ++ colon :: issuer).
    split; [by apply (split_once_app _ $"stellar"), lit_not_sep|].
    unfold parse_for_chain, split_once_colon. closed_bools. rewrite Hc.
    rewrite split_once_app by (by apply alnum_not_sep). cbn. by rewrite Hcode, Hi.
  - destruct H as (Hc & Hi). exists $"erc20", address.
    split; [by apply (split_once_app _ $"erc20"), lit_not_sep|].
    unfold parse_for_chain. closed_bools. rewrite Hc. cbn. by rewrite Hi.
  - destruct H as (Hc & Hi). exists $"token", mint.
    split; [by apply (split_once_app _ $"token"), lit_not_sep|].
    unfold parse_for_chain. closed_bools. rewrite Hc. cbn. by rewrite Hi.
  - destruct H as (Hc & Hi). exists $"trc20", address.
    split; [by apply (split_once_app _ $"trc20"), lit_not_sep|].
    unfold parse_for_chain. closed_bools. rewrite Hc. cbn. by rewrite Hi.
Qed.

Lemma parse_for_chain_canonical c ns r a : parse_for_chain c ns r = Ok a → canonical_asset c a.
Proof.
  unfold parse_for_chain, invalid_asset. intros H. repeat case_bool_decide; rinv.
  all: try match goal with E : negb _ = false |- _ => apply negb_false_iff in E end.
  - destruct (negb _); [done|]. by rinv.
  - match goal with E : _ = Some ?p |- _ => destruct p end. rinv. cbn [canonical_asset].
    repeat split; [done|by eapply code_idemp|].
    by match goal with E : validate_stellar_issuer _ = _ |- _ => destruct (issuer_Ok _ _ E) as [-> _] end.
  - cbn [canonical_asset]. split; [done|by eapply erc20_idemp].
  - cbn [canonical_asset]. split; [done|].
    by match goal with E : validate_solana_address _ = _ |- _ => destruct (solana_Ok _ _ E) as [-> _] end.
  - cbn [canonical_asset]. split; [done|].
    by match goal with E : validate_tron_address _ = _ |- _ => destruct (tron_Ok _ _ E) as [-> _] end.
Qed.

(** The check after parsing never rejects. *)
Lemma validate_canonical v : canonical v → validate v = Ok tt.
Proof.
  destruct v as [c a]. intros [_ H]. cbn in H. unfold validate.
  destruct a, c; cbn in H |- *; try done; destruct H as [? H]; try done;
    by first [rewrite H | destruct H as [-> ->]].
Qed.

(** The suffix is neither of the two rejected native forms. *)
Lemma suffix_not_native c a :
  eq_ignore_ascii_case (to_caip19_suffix a c) $"native" ||
  eq_ignore_ascii_case (to_caip19_suffix a c) $"slip44:native" = false.
Proof.
  unfold eq_ignore_ascii_case. apply orb_false_iff.
  split; apply bool_decide_eq_false_2; destruct a, c; vm_compute; discriminate.
Qed.

(** ** Whole identifiers *)

Lemma to_canonical_shape v :
  canonical v → ∃ ns m r, to_canonical v = ns ++ m ++ r ∧ alnum ns ∧ ns ≠ [] ∧ alnum r ∧ r ≠ [].
Proof.
  intros [(ns & x & Hc & Hns & Hne & _)%to_caip2_shape (ns' & m & r & Ha & _ & Hr & Hrne)%suffix_shape].
  exists ns, (colon :: x ++ $"/" ++ ns' ++ colon :: m), r.
  unfold to_canonical. rewrite Hc, Ha. split; [|done].
  by rewrite <- !app_assoc, <- !app_comm_cons, <- !app_assoc.
Qed.

Lemma trim_canonical v : canonical v → trim (to_canonical v) = to_canonical v.
Proof. intros (ns & m & r & -> & ? & ? & ? & ?)%to_canonical_shape. by apply trim_alnum. Qed.

Lemma to_canonical_ne v : canonical v → to_canonical v ≠ [].
Proof. intros (ns & m & r & -> & ? & ? & ? & ?)%to_canonical_shape. by intros []%app_eq_nil. Qed.

Lemma parse_to_canonical v : canonical v → parse (to_canonical v) = Ok v.
Proof.
  intros Hv. pose proof Hv as [Hc Ha]. unfold parse. rewrite (trim_canonical v Hv).
  rewrite (bool_decide_eq_false_2 _ (to_canonical_ne v Hv)). unfold to_canonical.
  change ($"/" ++ ?x) with (slash :: x). rewrite (split_once_app slash) by (by apply slash_not_in_caip2). cbn [reject try_ ok_or].
  rewrite (parse_caip2_print _ Hc). cbn [try_]. rewrite suffix_not_native. cbn [reject try_].
  destruct (parse_suffix_print _ _ Ha) as (ns & r & -> & Hp). cbn [ok_or try_]. rewrite Hp.
  cbn [try_]. destruct v as [c a]. cbn [chain asset]. by rewrite (validate_canonical _ Hv).
Qed.

Lemma parse_Ok_canonical s v : parse s = Ok v → canonical v.
Proof.
  unfold parse. intros H. rinv. case_match. rinv. case_match. rinv.
  split; cbn; [by eapply parse_caip2_canonical|by eapply parse_for_chain_canonical].
Qed.

Lemma legacy_canonical s v : from_stellar_legacy s = Ok v → canonical v.
Proof.
  unfold from_stellar_legacy, invalid_asset. intros H. repeat (case_match; try discriminate); rinv.
  - split; [by left|done].
  - unfold stellar_credit in H. rinv. split; cbn; [by left|].
    repeat split; [by eapply code_idemp|].
    by match goal with E : validate_stellar_issuer _ = _ |- _ => destruct (issuer_Ok _ _ E) as [-> _] end.
Qed.

(** Canonical identifiers are recognized as chain-scoped. *)
Lemma looks_like_canonical v : looks_like_caip (to_canonical v) = true.
Proof.
  unfold looks_like_caip, to_canonical, to_ascii_lowercase. destruct v as [c a].
  destruct c; cbn [chain to_caip2]; rewrite <- ?app_assoc, fmap_app;
    change (ascii_lower <$> lit ?s) with (lit s); rewrite starts_with_app;
    by rewrite ?orb_true_r.
Qed.

(** ** Theorems *)

(** C39: printing and parsing are inverse. Every canonical asset is parsed back
    from its printed form, every string the parser accepts denotes a canonical
    asset, and two canonical assets with the same printed form are equal. *)
Theorem chain_asset_roundtrip :
  (∀ v, canonical v → parse (to_canonical v) = Ok v) ∧
  (∀ s v, parse s = Ok v → canonical v) ∧
  (∀ v w, canonical v → canonical w → to_canonical v = to_canonical w → v = w).
Proof.
  split; [exact parse_to_canonical|]. split; [exact parse_Ok_canonical|].
  intros v w Hv%parse_to_canonical Hw%parse_to_canonical E. rewrite E in Hv. congruence.
Qed.

(** Canonicalization is idempotent and lands in the chain-scoped form: what
    [canonicalize_asset_id] returns, for a chain-scoped or a legacy identifier,
    is the printed form of a canonical asset, is accepted by the parser as that
    asset, and is its own canonicalization. *)
Theorem canonicalize_idempotent s t :
  canonicalize_asset_id s = Ok t →
  canonicalize_asset_id t = Ok t ∧ ∃ v, canonical v ∧ t = to_canonical v ∧ parse t = Ok v.
Proof.
  intros H. assert (∃ v, canonical v ∧ t = to_canonical v) as (v & Hv & ->).
  { unfold canonicalize_asset_id in H. rinv. destruct (looks_like_caip _); rinv;
      eexists; (split; [|done]); eauto using parse_Ok_canonical, legacy_canonical. }
  pose proof (parse_to_canonical v Hv) as Hp. split; [|by exists v].
  unfold canonicalize_asset_id. rewrite (trim_canonical v Hv).
  rewrite (bool_decide_eq_false_2 _ (to_canonical_ne v Hv)). cbn [reject try_].
  by rewrite looks_like_canonical, Hp.
Qed.

Lemma canonicalize_idempotent_witness :
  let s := $"  eip155:+1/erc20:0xA0b86991c6218b36c1d19D4a2e9Eb0cE3606eB48 " in
  let t := $"eip155:1/erc20:0xa0b86991c6218b36c1d19d4a2e9eb0ce3606eb48" in
  canonicalize_asset_id s = Ok t ∧ canonicalize_asset_id t = Ok t.
Proof.
  intros s t. assert (canonicalize_asset_id s = Ok t) as H by (vm_compute; reflexivity).
  split; [exact H|]. exact (proj1 (canonicalize_idempotent s t H)).
Defined.

(** The asset codes that are also chain namespaces. *)
Definition reserved_codes : list Str := [$"stellar"; $"eip155"; $"solana"; $"bip122"; $"tron"].

(** Lower-casing neither changes the length of a string nor what is alphanumeric in it. *)
Lemma lower_class s :
  forallb is_ascii_alphanumeric (to_ascii_lowercase s) = forallb is_ascii_alphanumeric s ∧
  str_len (to_ascii_lowercase s) = str_len s.
Proof.
  unfold to_ascii_lowercase. induction s as [|c s [IH1 IH2]]; [done|]. rewrite fmap_cons.
  cbn [forallb]. unfold str_len, sum_of in *. cbn [foldr]. rewrite IH1, IH2. split; f_equal.
  - apply eq_bool_prop_intro. split; intros H; apply Is_true_true in H; apply Is_true_true; char_solve.
  - unfold utf8_len. char_solve.
Qed.

Lemma reserved_code_Ok code :
  to_ascii_lowercase code ∈ reserved_codes →
  normalize_stellar_code code = Ok (to_ascii_uppercase code) ∧ alnum code ∧ code ≠ [].
Proof.
  intros H. destruct (lower_class code) as [E1 E2].
  assert (forallb is_ascii_alphanumeric code = true ∧ str_len code <= 12 ∧ code ≠ []) as (Ha & Hl & Hne).
  { rewrite <- E1, <- E2.
    assert (code ≠ []) as Hne by (intros ->; apply (bool_decide_eq_true_2 (_ ∈ _)) in H; vm_compute in H; discriminate H).
    revert H. unfold reserved_codes. rewrite !elem_of_cons, elem_of_nil.
    by intros [-> | [-> | [-> | [-> | [-> | []]]]]]. }
  split; [|split; [by eapply alnum_forallb|done]]. unfold normalize_stellar_code.
  rewrite (bool_decide_eq_false_2 _ Hne), Ha, (proj2 (Z.ltb_ge _ _) Hl). done.
Qed.

Lemma reserved_looks_like_caip code rest :
  to_ascii_lowercase code ∈ reserved_codes → looks_like_caip (code ++ $":" ++ rest) = true.
Proof.
  unfold looks_like_caip. unfold to_ascii_lowercase at 2 3 4 5 6. rewrite !fmap_app.
  change (ascii_lower <$> code) with (to_ascii_lowercase code).
  unfold reserved_codes. rewrite !elem_of_cons, elem_of_nil, !app_assoc.
  intros [-> | [-> | [-> | [-> | [-> | []]]]]];
    (change (?x ++ (ascii_lower <$> $":")) with (x ++ $":"));
    rewrite starts_with_app || idtac; by rewrite ?orb_true_r.
Qed.

(** Stellar assets whose code is a chain namespace cannot be canonicalized.
    A legacy identifier [CODE:ISSUER] with a valid issuer and a code that is, in
    any case, [stellar], [eip155], [solana], [bip122] or [tron] is a valid Stellar
    asset for [from_stellar_legacy]; [canonicalize_asset_id] takes it for a
    chain-scoped identifier and rejects it. *)
Theorem reserved_codes_rejected code issuer :
  to_ascii_lowercase code ∈ reserved_codes → validate_stellar_issuer issuer = Ok issuer →
  from_stellar_legacy (code ++ $":" ++ issuer) =
    Ok (mkChainAsset (ChainId.Stellar $"pubnet")
          (AssetReference.StellarCredit (to_ascii_uppercase code) issuer)) ∧
  canonicalize_asset_id (code ++ $":" ++ issuer) =
    Err (RoutingError.InvalidAsset ($"expected chain/asset form, got: " ++ code ++ $":" ++ issuer)).
Proof.
  intros Hc Hi. destruct (reserved_code_Ok code Hc) as (Hn & Ha & Hne).
  destruct (issuer_Ok _ _ Hi) as (_ & Hia & Hine).
  pose proof (trim_alnum code $":" issuer Ha Hne Hia Hine) as Ht.
  assert (code ++ $":" ++ issuer ≠ []) as Hne' by (by intros []%app_eq_nil).
  split.
  - unfold from_stellar_legacy. rewrite Ht, (bool_decide_eq_false_2 _ Hne').
    assert (∀ s : string, forallb is_ascii_alphanumeric (lit s) = true →
              bool_decide (to_ascii_lowercase (code ++ $":" ++ issuer) = lit s) = false) as Hlit.
    { intros s Hs. apply bool_decide_eq_false_2. intros E.
      apply (lit_not_sep s colon Hs); [done|]. rewrite <- E. unfold to_ascii_lowercase.
      apply list_elem_of_fmap. exists colon. split; [done|]. apply elem_of_app. right. by left. }
    rewrite !Hlit by done. cbn [orb]. change ($":" ++ issuer) with (colon :: issuer).
    rewrite split_once_app by (by apply alnum_not_sep). unfold stellar_credit.
    by rewrite Hn; cbn [try_]; rewrite Hi.
  - unfold canonicalize_asset_id, parse. rewrite !Ht, (bool_decide_eq_false_2 _ Hne'). cbn [reject try_].
    rewrite (reserved_looks_like_caip code issuer Hc).
    rewrite split_once_None; [done|]. rewrite !not_elem_of_app.
    repeat split; (by apply alnum_not_sep) || (by apply (bool_decide_eq_false (slash ∈ $":")); vm_compute).
Qed.

Lemma reserved_codes_rejected_witness :
  let code := $"TRON" in
  let issuer := $"GBBD47IF6LWK7P7MDEVSCWR7DPUWV3NY3DTQEVFL4NAT4AQH3ZLLFLA5" in
  is_ok (from_stellar_legacy (code ++ $":" ++ issuer)) = true ∧
  is_ok (canonicalize_asset_id (code ++ $":" ++ issuer)) = false.
Proof.
  intros code issuer.
  destruct (reserved_codes_rejected code issuer) as [H1 H2];
    [apply (bool_decide_eq_true_1 (_ ∈ _)); vm_compute; reflexivity | vm_compute; reflexivity |].
  rewrite H1, H2. split; reflexivity.
Defined.
