(* ===== verification/Policy.v ===== *)
(** * Routing policy (routing: cross_chain.rs, policy.rs)

    Bridge metadata and its validation against the endpoints of an edge, the
    provider policy with its kill switches, and [RoutingPolicy] with the checks
    that route discovery consults. *)

From stdpp Require Import base decidable strings numbers list gmap.
From S2P Require Import Prelude RustStr Result ChainAsset.

Local Open Scope Z_scope.
Local Open Scope str_scope.
Local Open Scope result_scope.

(** ** cross_chain.rs *)

Record BridgeEdgeMeta := mkBridgeEdgeMeta {
  b_provider : option Str;
  source_chain : option Str;
  destination_chain : option Str;
}.

#[export] Instance BridgeEdgeMeta_eq_dec : EqDecision BridgeEdgeMeta.
Proof. solve_decision. Defined.

(** [BridgeEdgeMeta::bridge] *)
Definition bridge_meta (provider : Str) (source destination : ChainId) : BridgeEdgeMeta :=
  mkBridgeEdgeMeta (Some provider) (Some (to_caip2 source)) (Some (to_caip2 destination)).

Definition is_cross_chain (m : BridgeEdgeMeta) : bool :=
  match source_chain m, destination_chain m with
  | Some src, Some dst => bool_decide (src ≠ dst)
  | _, _ => false
  end.

Definition validate_against_endpoints (m : BridgeEdgeMeta) (from_asset to_asset : Str)
    : Result unit RoutingError :=
  from ← parse from_asset;
  to ← parse to_asset;
  source ← ok_or (source_chain m)
    (RoutingError.InvalidAsset $"bridge metadata missing source_chain");
  dest ← ok_or (destination_chain m)
    (RoutingError.InvalidAsset $"bridge metadata missing destination_chain");
  reject (bool_decide (source ≠ to_caip2 (chain from)))
    (RoutingError.InvalidAsset ($"bridge source_chain " ++ source ++
       $" does not match from asset chain " ++ to_caip2 (chain from)));;
  reject (bool_decide (dest ≠ to_caip2 (chain to)))
    (RoutingError.InvalidAsset ($"bridge destination_chain " ++ dest ++
       $" does not match to asset chain " ++ to_caip2 (chain to)));;
  Ok tt.

Definition is_bridge_edge (venue_type : Str) (bridge : option BridgeEdgeMeta) : bool :=
  eq_ignore_ascii_case venue_type $"bridge" || bool_decide (is_Some bridge).

Record ProviderPolicy := mkProviderPolicy {
  allowlist : list Str;
  denylist : list Str;
  kill_switches : gmap Str bool;
}.

Definition with_kill_switch (p : ProviderPolicy) (provider : Str) (disabled : bool) : ProviderPolicy :=
  mkProviderPolicy (allowlist p) (denylist p) (<[provider := disabled]> (kill_switches p)).

(** The iteration order over [other.kill_switches] is immaterial: every insertion
    writes [true]. *)
Definition merge_kill_switches (p other : ProviderPolicy) : ProviderPolicy :=
  mkProviderPolicy (allowlist p) (denylist p)
    (map_fold (λ provider (disabled : bool) acc, if disabled then <[provider := true]> acc else acc)
       (kill_switches p) (kill_switches other)).

(** [ProviderPolicy::is_provider_allowed] *)
Definition provider_allowed (p : ProviderPolicy) (provider : option Str) : bool :=
  match provider with
  | None => true
  | Some provider =>
      if default false (kill_switches p !! provider) then false
      else if negb (bool_decide (allowlist p = [])) && negb (bool_decide (provider ∈ allowlist p))
      then false
      else negb (bool_decide (provider ∈ denylist p))
  end.

(** ** policy.rs *)

Definition DEFAULT_SLIPPAGE_BPS : Z := 50.

Record RouteDiagnostic := mkRouteDiagnostic {
  route_id : Str;
  reason : Str;
}.

Record RoutingPolicy := mkRoutingPolicy {
  max_hops : Z;
  venue_allowlist : list Str;
  venue_denylist : list Str;
  asset_denylist : list Str;
  default_slippage_bps : Z;
  venue_slippage_overrides : gmap Str Z;
  provider_policy : ProviderPolicy;
  allow_bridge_edges : bool;
}.

(** [RoutingPolicy::default] *)
Definition default_policy : RoutingPolicy :=
  mkRoutingPolicy 4 [] [] [] DEFAULT_SLIPPAGE_BPS ∅ (mkProviderPolicy [] [] ∅) false.

(** [with_max_hops], [with_asset_denylist], [with_provider_policy],
    [with_allow_bridge_edges] *)
Definition with_max_hops (p : RoutingPolicy) (n : Z) : RoutingPolicy :=
  mkRoutingPolicy n (venue_allowlist p) (venue_denylist p) (asset_denylist p)
    (default_slippage_bps p) (venue_slippage_overrides p) (provider_policy p) (allow_bridge_edges p).

Definition with_asset_denylist (p : RoutingPolicy) (l : list Str) : RoutingPolicy :=
  mkRoutingPolicy (max_hops p) (venue_allowlist p) (venue_denylist p) l
    (default_slippage_bps p) (venue_slippage_overrides p) (provider_policy p) (allow_bridge_edges p).

Definition with_provider_policy (p : RoutingPolicy) (pp : ProviderPolicy) : RoutingPolicy :=
  mkRoutingPolicy (max_hops p) (venue_allowlist p) (venue_denylist p) (asset_denylist p)
    (default_slippage_bps p) (venue_slippage_overrides p) pp (allow_bridge_edges p).

Definition with_allow_bridge_edges (p : RoutingPolicy) (b : bool) : RoutingPolicy :=
  mkRoutingPolicy (max_hops p) (venue_allowlist p) (venue_denylist p) (asset_denylist p)
    (default_slippage_bps p) (venue_slippage_overrides p) (provider_policy p) b.

Definition apply_venue_slippage_overrides (p : RoutingPolicy) (overrides : list (Str * Z)) : RoutingPolicy :=
  mkRoutingPolicy (max_hops p) (venue_allowlist p) (venue_denylist p) (asset_denylist p)
    (default_slippage_bps p)
    (fold_left (λ m '(venue_ref, slippage_bps), <[venue_ref := slippage_bps]> m) overrides
       (venue_slippage_overrides p))
    (provider_policy p) (allow_bridge_edges p).

Definition slippage_bps_for_venue (p : RoutingPolicy) (venue_ref : option Str) : Z :=
  match venue_ref with
  | Some venue_ref =>
      match venue_slippage_overrides p !! venue_ref with
      | Some slippage_bps => slippage_bps
      | None => default_slippage_bps p
      end
  | None => default_slippage_bps p
  end.

Definition is_venue_allowed (p : RoutingPolicy) (venue_type : Str) : bool :=
  if negb (bool_decide (venue_allowlist p = [])) && negb (bool_decide (venue_type ∈ venue_allowlist p))
  then false
  else negb (bool_decide (venue_type ∈ venue_denylist p)).

Definition is_asset_allowed (p : RoutingPolicy) (asset : Str) : bool :=
  negb (bool_decide (asset ∈ asset_denylist p)).

(** [RoutingPolicy::is_provider_allowed] *)
Definition is_provider_allowed (p : RoutingPolicy) (provider : option Str) : bool :=
  provider_allowed (provider_policy p) provider.

(** The hop type of [policy.rs]. *)
Record PolicyHop := mkPolicyHop {
  ph_venue_type : Str;
  ph_asset : Str;
  ph_provider : option Str;
  ph_bridge : option BridgeEdgeMeta;
}.

Fixpoint should_exclude_route (p : RoutingPolicy) (id : Str) (hops : list PolicyHop)
    : option RouteDiagnostic :=
  match hops with
  | [] => None
  | hop :: rest =>
      if is_bridge_edge (ph_venue_type hop) (ph_bridge hop) && negb (allow_bridge_edges p)
      then Some (mkRouteDiagnostic id $"Excluded bridge: settlement not executable")
      else if negb (is_venue_allowed p (ph_venue_type hop))
      then Some (mkRouteDiagnostic id ($"Excluded venue: " ++ ph_venue_type hop))
      else if negb (is_asset_allowed p (ph_asset hop))
      then Some (mkRouteDiagnostic id ($"Excluded asset: " ++ ph_asset hop))
      else if negb (is_provider_allowed p (ph_provider hop))
      then Some (mkRouteDiagnostic id ($"Excluded provider: " ++ default $"<none>" (ph_provider hop)))
      else should_exclude_route p id rest
  end.
