(* ===== verification/Pathfinder.v ===== *)
(** * Path discovery (routing: pathfinder.rs)

    [Pathfinder::find_paths]: the admissible edges as an adjacency map, the
    breadth-first search over simple paths with its queue, and the policy filter.
    Prices are only copied from edges to hops; their type [F64] is a parameter. *)

From stdpp Require Import base decidable strings numbers list gmap.
From S2P Require Import Prelude RustStr Result ChainAsset Policy.

Local Open Scope Z_scope.
Local Open Scope str_scope.
Local Open Scope result_scope.

(** ** Data *)

Record PathfinderConfig := mkPathfinderConfig { min_liquidity_threshold : Z }.

(** [PathfinderConfig::default] *)
Definition default_config : PathfinderConfig := mkPathfinderConfig 1000000.

Record LiquidityEdge {F64 : Type} := mkLiquidityEdge {
  e_from : Str;
  e_to : Str;
  e_venue_type : Str;
  e_venue_ref : Str;
  e_liquidity : Z;
  e_price : F64;
  e_fee_bps : Z;
  e_provider : option Str;
  e_bridge : option BridgeEdgeMeta;
}.

Arguments LiquidityEdge : clear implicits.

Record PathHop {F64 : Type} := mkPathHop {
  source_asset : Str;
  destination_asset : Str;
  h_venue_type : Str;
  h_venue_ref : Str;
  h_price : F64;
  h_fee_bps : Z;
  h_provider : option Str;
  h_bridge : option BridgeEdgeMeta;
}.

Arguments PathHop : clear implicits.

Record SwapPath {F64 : Type} := mkSwapPath {
  path_hops : list (PathHop F64);
  estimated_output : Z;
}.

Arguments SwapPath : clear implicits.

(** [HashMap<String, Vec<LiquidityEdge>>] *)
Abbreviation Graph F64 := (gmap Str (list (LiquidityEdge F64))) (only parsing).

(** ** Running a loop

    [run_loop n step s] iterates [step] up to [2 ^ n] times and stops at the first
    result. *)
Fixpoint run_loop {S R} (n : nat) (step : S → S + R) (s : S) : S + R :=
  match n with
  | O => step s
  | Datatypes.S n' =>
      match run_loop n' step s with
      | inl s' => run_loop n' step s'
      | inr r => inr r
      end
  end.

Section Pathfinder.

Context {F64 : Type}.
Implicit Types (edge : LiquidityEdge F64).

(** The entries of the queue: node, hops so far, visited nodes, estimate. *)
Record Entry := mkEntry {
  current : Str;
  q_hops : list (PathHop F64);
  visited : gset Str;
  q_output : Z;
}.

(** [edge.provider.or_else(|| edge.bridge.provider)] *)
Definition provider_of (provider : option Str) (bridge : option BridgeEdgeMeta) : option Str :=
  match provider with
  | Some p => Some p
  | None => bridge ≫= b_provider
  end.

(** The [continue]s of [build_graph], in order. *)
Definition admissible (config : PathfinderConfig) (policy : RoutingPolicy) edge : bool :=
  if is_bridge_edge (e_venue_type edge) (e_bridge edge) && negb (allow_bridge_edges policy) then false
  else if match e_bridge edge with
          | Some bridge => negb (is_ok (validate_against_endpoints bridge (e_from edge) (e_to edge)))
          | None => false
          end then false
  else if negb (is_venue_allowed policy (e_venue_type edge)) then false
  else if negb (is_provider_allowed policy (provider_of (e_provider edge) (e_bridge edge))) then false
  else if e_liquidity edge <? min_liquidity_threshold config then false
  else true.

Definition build_graph (config : PathfinderConfig) (edges : list (LiquidityEdge F64))
    (policy : RoutingPolicy) : Graph F64 :=
  fold_left (λ (graph : Graph F64) edge,
    if admissible config policy edge
    then <[e_from edge := default [] (graph !! e_from edge) ++ [edge]]> graph
    else graph) edges ∅.

Definition hop_of edge : PathHop F64 :=
  mkPathHop F64 (e_from edge) (e_to edge) (e_venue_type edge) (e_venue_ref edge) (e_price edge)
    (e_fee_bps edge) (e_provider edge) (e_bridge edge).

(** [estimated_output.saturating_mul(9950) / 10000] *)
Definition after_hop (out : Z) : Z := Z.quot (saturating_mul I128 out 9950) 10000.

(** The entries pushed for the neighbours of a popped entry. *)
Definition expand (graph : Graph F64) (x : Entry) : list Entry :=
  flat_map (λ edge,
    if bool_decide (e_to edge ∈ visited x) then []
    else [mkEntry (e_to edge) (q_hops x ++ [hop_of edge]) ({[e_to edge]} ∪ visited x)
            (after_hop (q_output x))])
    (default [] (graph !! current x)).

(** One iteration of the [while let]: the queue and the paths found so far. *)
Definition bfs_step (graph : Graph F64) (to : Str) (max_hops : Z)
    (s : list Entry * list (SwapPath F64)) : (list Entry * list (SwapPath F64)) + list (SwapPath F64) :=
  let '(queue, paths) := s in
  match queue with
  | [] => inr paths
  | x :: queue =>
      if max_hops <=? Z.of_nat (length (q_hops x)) then inl (queue, paths)
      else if bool_decide (current x = to)
      then inl (queue, paths ++ [mkSwapPath F64 (q_hops x) (q_output x)])
      else inl (queue ++ expand graph x, paths)
  end.

(** The edges of the graph, and their number. *)
Definition graph_edges (graph : Graph F64) : list (LiquidityEdge F64) := flat_map snd (map_to_list graph).

Definition graph_size (graph : Graph F64) : nat := length (graph_edges graph).

(** [2 ^ bfs_fuel graph] iterations are enough for the loop to end. *)
Definition bfs_fuel (graph : Graph F64) : nat :=
  let n := graph_size graph in ((n + 2) * (n + 1))%nat.

Definition initial (from : Str) (amount_in : Z) : Entry := mkEntry from [] {[from]} amount_in.

(** [None]: the loop did not end within the fuel. *)
Definition bfs_paths (graph : Graph F64) (from to : Str) (amount_in max_hops : Z)
    : option (list (SwapPath F64)) :=
  match run_loop (bfs_fuel graph) (bfs_step graph to max_hops) ([initial from amount_in], []) with
  | inl _ => None
  | inr paths => Some paths
  end.

Definition policy_hop (h : PathHop F64) : PolicyHop :=
  mkPolicyHop (h_venue_type h) (destination_asset h) (provider_of (h_provider h) (h_bridge h)) (h_bridge h).

Definition filter_paths (policy : RoutingPolicy) (raw_paths : list (SwapPath F64)) : list (SwapPath F64) :=
  omap (λ '(idx, path),
    match should_exclude_route policy ($"route_" ++ display (Z.of_nat idx)) (policy_hop <$> path_hops path) with
    | Some _ => None
    | None => Some path
    end) (imap pair raw_paths).

Definition find_paths (config : PathfinderConfig) (from to : Str) (edges : list (LiquidityEdge F64))
    (amount_in : Z) (policy : RoutingPolicy) : option (Result (list (SwapPath F64)) RoutingError) :=
  if bool_decide (from = []) || bool_decide (to = []) then
    Some (Err (RoutingError.InvalidPair $"source or destination is empty"))
  else if bool_decide (from = to) then
    Some (Err (RoutingError.InvalidPair $"source and destination must differ"))
  else if amount_in <=? 0 then
    Some (Err (RoutingError.InvalidAmount $"amount_in must be positive"))
  else
    let graph := build_graph config edges policy in
    match bfs_paths graph from to amount_in (max_hops policy) with
    | None => None
    | Some raw_paths =>
        if bool_decide (raw_paths = []) then Some (Err (RoutingError.NoRoute from to))
        else
          let filtered_paths := filter_paths policy raw_paths in
          if bool_decide (filtered_paths = []) then Some (Err (RoutingError.NoRoute from to))
          else Some (Ok filtered_paths)
    end.

End Pathfinder.

Arguments Entry : clear implicits.
