(* ===== verification/PathfinderProps.v ===== *)
(** * Properties of path discovery

    The search ends, returns exactly the simple admissible paths shorter than the
    hop limit, shortest first, and never routes through what the policy excludes. *)

From stdpp Require Import base decidable strings numbers list gmap sorting.
From Stdlib Require Import ZArith Lia.
From S2P Require Import Prelude RustStr Result ChainAsset Policy Pathfinder.

Local Open Scope Z_scope.

(** ** Loops *)

Section Loops.

Context {S R : Type} (step : S → S + R).

(** An invariant of the iterations holds of the state in which the loop stops. *)
Lemma run_loop_inv (J : S → Prop) n s :
  (∀ s s', J s → step s = inl s' → J s') → J s →
  match run_loop n step s with
  | inl s' => J s'
  | inr r => ∃ s', J s' ∧ step s' = inr r
  end.
Proof.
  intros HJ. revert s. induction n as [|n IH]; intros s Hs; cbn.
  - destruct (step s) eqn:E; eauto.
  - specialize (IH s Hs) as H1. destruct (run_loop n step s) as [s'|r]; [|done]. by apply IH.
Qed.

(** A loop whose iterations decrease a measure stops. *)
Lemma run_loop_measure (J : S → Prop) (m : S → nat) n s :
  (∀ s s', J s → step s = inl s' → J s' ∧ (m s' < m s)%nat) → J s →
  match run_loop n step s with
  | inl s' => J s' ∧ (m s' + 2 ^ n <= m s)%nat
  | inr _ => True
  end.
Proof.
  intros HJ. revert s. induction n as [|n IH]; intros s Hs; cbn [run_loop].
  - destruct (step s) eqn:E; [|done]. destruct (HJ _ _ Hs E). cbn. split; [done|lia].
  - specialize (IH s Hs) as H1. destruct (run_loop n step s) as [s1|r]; [|done].
    destruct H1 as [Hs1 H1]. specialize (IH s1 Hs1) as H2.
    destruct (run_loop n step s1) as [s2|r]; [|done]. destruct H2 as [Hs2 H2].
    split; [done|]. rewrite Nat.pow_succ_r'. lia.
Qed.

Lemma run_loop_total (J : S → Prop) (m : S → nat) n s :
  (∀ s s', J s → step s = inl s' → J s' ∧ (m s' < m s)%nat) → J s → (m s < 2 ^ n)%nat →
  ∃ r, run_loop n step s = inr r.
Proof.
  intros HJ Hs Hm. pose proof (run_loop_measure J m n s HJ Hs) as H.
  destruct (run_loop n step s) as [s'|r]; [lia|eauto].
Qed.

(** Nor does it go on forever without fuel. *)
Lemma loop_Acc (J : S → Prop) (m : S → nat) s :
  (∀ s s', J s → step s = inl s' → J s' ∧ (m s' < m s)%nat) → J s → Acc (λ s' s, step s = inl s') s.
Proof.
  intros HJ. induction s as [s IH] using (induction_ltof1 _ m). intros Hs. constructor. intros s' E.
  destruct (HJ _ _ Hs E). by apply IH.
Qed.

End Loops.

Section Pathfinder.

Context {F64 : Type}.
Implicit Types (e : LiquidityEdge F64) (x y : Entry F64) (p : SwapPath F64) (g : Graph F64).

(** ** The graph *)

Lemma build_graph_lookup config edges policy k :
  default [] (build_graph config edges policy !! k) =
    List.filter (λ e, admissible config policy e && bool_decide (e_from e = k)) edges.
Proof.
  unfold build_graph.
  assert (∀ acc : Graph F64,
    default [] (fold_left (λ (graph : Graph F64) e,
       if admissible config policy e
       then <[e_from e := default [] (graph !! e_from e) ++ [e]]> graph
       else graph) edges acc !! k) =
    default [] (acc !! k) ++
      List.filter (λ e, admissible config policy e && bool_decide (e_from e = k)) edges) as H.
  { induction edges as [|e es IH]; intros acc; cbn [fold_left List.filter]; [by rewrite app_nil_r|].
    rewrite IH. destruct (admissible config policy e); [|done]. cbn [andb].
    destruct (decide (e_from e = k)) as [->|Hk].
    - rewrite lookup_insert_eq, bool_decide_eq_true_2 by done. cbn. by rewrite <- app_assoc.
    - rewrite lookup_insert_ne, bool_decide_eq_false_2 by done. done. }
  by rewrite H, lookup_empty.
Qed.

Lemma graph_edges_lookup g k l : g !! k = Some l → ∃ l1 l2, graph_edges g = l1 ++ l ++ l2.
Proof.
  intros H%elem_of_map_to_list. unfold graph_edges.
  apply list_elem_of_split in H as (a & b & ->).
  rewrite flat_map_app. cbn. by exists (flat_map snd a), (flat_map snd b).
Qed.

Lemma neighbours_bound g k : (length (default [] (g !! k)) <= graph_size g)%nat.
Proof.
  unfold graph_size. destruct (g !! k) as [l|] eqn:E; cbn; [|lia].
  destruct (graph_edges_lookup _ _ _ E) as (? & ? & ->). rewrite !length_app. lia.
Qed.

Lemma neighbours_incl g k e : e ∈ default [] (g !! k) → e ∈ graph_edges g.
Proof.
  destruct (g !! k) as [l|] eqn:E; cbn; [|by intros ?%elem_of_nil].
  destruct (graph_edges_lookup _ _ _ E) as (? & ? & ->). set_solver.
Qed.

(** ** Entries *)

Lemma elem_of_expand g x y :
  y ∈ expand g x ↔ ∃ e, (e ∈ default [] (g !! current x)) ∧ (e_to e ∉ visited x) ∧
    y = mkEntry (e_to e) (q_hops x ++ [hop_of e]) ({[e_to e]} ∪ visited x) (after_hop (q_output x)).
Proof.
  unfold expand. rewrite list_elem_of_In, in_flat_map. split.
  - intros (e & He & Hy). rewrite <- list_elem_of_In in He. case_bool_decide; [done|].
    destruct Hy as [<-|[]]. by exists e.
  - intros (e & He & Hv & ->). exists e. rewrite <- list_elem_of_In. split; [done|].
    rewrite bool_decide_eq_false_2 by done. by left.
Qed.

Lemma length_expand g x : (length (expand g x) <= graph_size g)%nat.
Proof.
  etrans; [|apply (neighbours_bound g (current x))]. unfold expand.
  induction (default [] (g !! current x)) as [|e l IH]; cbn; [lia|].
  rewrite length_app. case_bool_decide; cbn; lia.
Qed.

(** Entries of the queue: the nodes they visited are distinct and are the start
    and the ends of edges of the graph; the current node is one of them. *)
Record entry_ok g x : Prop := {
  ok_nodup : NoDup (destination_asset <$> q_hops x);
  ok_dests : ∀ a, a ∈ destination_asset <$> q_hops x → a ∈ visited x ∧ a ∈ e_to <$> graph_edges g;
  ok_current : current x ∈ visited x;
}.

Lemma entry_ok_initial g from amount : entry_ok g (initial from amount).
Proof. split; cbn; [constructor|by intros a ?%elem_of_nil|set_solver]. Qed.

Lemma entry_ok_expand g x y : entry_ok g x → y ∈ expand g x → entry_ok g y.
Proof.
  intros [Hn Hd Hc] (e & He & Hv & ->)%elem_of_expand. split; cbn.
  - rewrite fmap_app. apply NoDup_app. split; [done|]. split; [|apply NoDup_singleton].
    intros a [Ha _]%Hd ->%list_elem_of_singleton. done.
  - intros a. rewrite fmap_app, elem_of_app. cbn. intros [[Ha Ha']%Hd|Ha]; [set_solver|].
    apply list_elem_of_singleton in Ha as ->. split; [set_solver|].
    apply list_elem_of_fmap. exists e. split; [done|by eapply neighbours_incl].
  - set_solver.
Qed.

Lemma entry_ok_depth g x : entry_ok g x → (length (q_hops x) <= graph_size g)%nat.
Proof.
  intros [Hn Hd _]. rewrite <- (length_fmap destination_asset).
  unfold graph_size. rewrite <- (length_fmap e_to). apply NoDup_incl_length; [by apply NoDup_ListNoDup|].
  intros a Ha%list_elem_of_In. apply list_elem_of_In. by apply Hd.
Qed.

(** ** Termination *)

(** The weight of an entry: more than the weights of everything it can push. *)
Definition weight g x : nat := (S (graph_size g) ^ (S (graph_size g) - length (q_hops x)))%nat.

Definition queue_weight g (q : list (Entry F64)) : nat := list_sum (weight g <$> q).

Lemma queue_weight_app g q1 q2 : queue_weight g (q1 ++ q2) = (queue_weight g q1 + queue_weight g q2)%nat.
Proof. unfold queue_weight. by rewrite fmap_app, list_sum_app. Qed.

Lemma weight_pos g x : (0 < weight g x)%nat.
Proof. apply Nat.neq_0_lt_0, Nat.pow_nonzero. lia. Qed.

Lemma expand_weight g x : entry_ok g x → (queue_weight g (expand g x) < weight g x)%nat.
Proof.
  intros Hx. pose proof (entry_ok_depth g x Hx) as Hd.
  set (w := (S (graph_size g) ^ (graph_size g - length (q_hops x)))%nat).
  assert (weight g x = S (graph_size g) * w)%nat as ->.
  { unfold weight, w. by rewrite Nat.sub_succ_l, Nat.pow_succ_r' by done. }
  assert (0 < w)%nat by (apply Nat.neq_0_lt_0, Nat.pow_nonzero; lia).
  assert (queue_weight g (expand g x) <= length (expand g x) * w)%nat as Hq.
  { assert (∀ q, (∀ y, y ∈ q → (weight g y <= w)%nat) → (queue_weight g q <= length q * w)%nat) as Hsum.
    { unfold queue_weight, list_sum. induction q as [|y q IH]; cbn; intros Hy; [lia|].
      specialize (IH ltac:(intros; apply Hy; by right)).
      specialize (Hy y ltac:(by left)). lia. }
    apply Hsum. intros y (e & _ & _ & ->)%elem_of_expand. unfold weight, w. cbn.
    rewrite length_app. cbn. apply Nat.pow_le_mono_r; lia. }
  pose proof (length_expand g x) as Hl.
  apply (Nat.mul_le_mono_r _ _ w) in Hl. lia.
Qed.

(** The invariant of the loop: every entry of the queue is sound. *)
Definition queue_ok g (s : list (Entry F64) * list (SwapPath F64)) : Prop := Forall (entry_ok g) (fst s).

Lemma bfs_step_measure g to mh s s' :
  queue_ok g s → bfs_step g to mh s = inl s' →
  queue_ok g s' ∧ (queue_weight g (fst s') < queue_weight g (fst s))%nat.
Proof.
  unfold queue_ok. destruct s as [[|x q] ps]; cbn [bfs_step fst]; [done|].
  intros [Hx Hq]%Forall_cons. pose proof (weight_pos g x).
  change (queue_weight g (x :: q)) with (weight g x + queue_weight g q)%nat.
  destruct (_ <=? _); [intros [= <-]|case_bool_decide; intros [= <-]]; cbn [fst]; [split; [done|lia]..|].
  split.
  - apply Forall_app. split; [done|]. apply Forall_forall. intros y. by apply entry_ok_expand.
  - rewrite queue_weight_app. pose proof (expand_weight g x Hx). lia.
Qed.

Lemma fuel_enough n : (S n ^ S n < 2 ^ ((n + 2) * (n + 1)))%nat.
Proof.
  assert (S n < 2 ^ (n + 2))%nat as H.
  { pose proof (Nat.pow_gt_lin_r 2 (n + 2) ltac:(lia)). lia. }
  rewrite Nat.pow_mul_r. replace (n + 1)%nat with (S n) by lia.
  apply Nat.pow_lt_mono_l; lia.
Qed.

(** The search always ends within its fuel. *)
Lemma bfs_total g from to amount mh : ∃ ps, bfs_paths g from to amount mh = Some ps.
Proof.
  unfold bfs_paths.
  destruct (run_loop_total (bfs_step g to mh) (queue_ok g) (λ s, queue_weight g (fst s))
              (bfs_fuel g) ([initial from amount], [])) as [r ->]; [|..|by eauto].
  - apply bfs_step_measure.
  - constructor; [apply entry_ok_initial|constructor].
  - cbn [fst]. change (queue_weight g [initial from amount]) with
      (S (graph_size g) ^ S (graph_size g) + 0)%nat.
    rewrite Nat.add_0_r. apply fuel_enough.
Qed.

(** C36: the search ends, on every graph and from every asset, cyclic liquidity and any hop limit included: the [while
    let] loop of the search has no infinite run, since what an entry can still put into the
    queue shrinks with each visited asset; and the bound on the iterations that the model
    computes with is never reached. *)
Theorem search_terminates g from to amount mh :
  Acc (λ s' s, bfs_step g to mh s = inl s') ([initial from amount], []) ∧
  ∃ ps, bfs_paths g from to amount mh = Some ps.
Proof.
  split; [|apply bfs_total]. apply (loop_Acc _ (queue_ok g) (λ s, queue_weight g (fst s))); [apply bfs_step_measure|].
  constructor; [apply entry_ok_initial|constructor].
Qed.

(** ** What the search finds *)

(** [found g to mh x p]: processing the entry [x] and what it pushes yields [p]. *)
Inductive found g (to : Str) (mh : Z) : Entry F64 → SwapPath F64 → Prop :=
| found_here x :
    Z.of_nat (length (q_hops x)) < mh → current x = to →
    found g to mh x (mkSwapPath F64 (q_hops x) (q_output x))
| found_later x y p :
    Z.of_nat (length (q_hops x)) < mh → current x ≠ to → y ∈ expand g x → found g to mh y p →
    found g to mh x p.

(** What is still to be found, and what was found. *)
Definition pending g to mh (s : list (Entry F64) * list (SwapPath F64)) p : Prop :=
  p ∈ snd s ∨ ∃ x, x ∈ fst s ∧ found g to mh x p.

Lemma pending_step g to mh s s' p :
  bfs_step g to mh s = inl s' → pending g to mh s' p ↔ pending g to mh s p.
Proof.
  destruct s as [[|x q] ps]; cbn; [done|].
  destruct (Z.leb_spec mh (Z.of_nat (length (q_hops x)))); [intros [= <-]|
    case_bool_decide as Hc; intros [= <-]]; unfold pending; cbn; split.
  - intros [?|(y & ? & ?)]; [by left|]. right. exists y. split; [by right|done].
  - intros [?|(y & [->|?]%elem_of_cons & Hf)]; [by left| |eauto]. inversion Hf; lia.
  - rewrite elem_of_app, list_elem_of_singleton. intros [[?| ->]|(y & ? & ?)]; [by left| |].
    + right. exists x. split; [by left|by constructor].
    + right. exists y. split; [by right|done].
  - rewrite elem_of_app, list_elem_of_singleton.
    intros [?|(y & [->|?]%elem_of_cons & Hf)]; [by left; left| |eauto].
    left. right. by inversion Hf.
  - intros [?|(y & [?|?]%elem_of_app & ?)]; [by left| |].
    + right. exists y. split; [by right|done].
    + right. exists x. split; [by left|by eapply found_later].
  - intros [?|(y & [->|?]%elem_of_cons & Hf)]; [by left| |].
    + inversion Hf as [|? y' ? ? ? Hy Hf']; subst; [done|]. right. exists y'.
      split; [apply elem_of_app; by right|done].
    + right. exists y. split; [apply elem_of_app; by left|done].
Qed.

Lemma bfs_paths_found g from to amount mh ps :
  bfs_paths g from to amount mh = Some ps →
  ∀ p, p ∈ ps ↔ found g to mh (initial from amount) p.
Proof.
  unfold bfs_paths. intros H p.
  pose proof (run_loop_inv (bfs_step g to mh)
    (λ s, pending g to mh s p ↔ found g to mh (initial from amount) p)
    (bfs_fuel g) ([initial from amount], [])) as Hinv.
  destruct (run_loop _ _ _) as [|r]; [done|]. injection H as ->.
  destruct Hinv as ([q ps'] & Hp & Hs).
  - intros s s' Hs Hst. by rewrite (pending_step _ _ _ _ _ _ Hst).
  - unfold pending. cbn. split; [|intros ?; right; exists (initial from amount); split; [by left|done]].
    by intros [?%elem_of_nil|(x & ->%list_elem_of_singleton & ?)].
  - destruct q as [|x q]; cbn in Hs.
    + injection Hs as ->. rewrite <- Hp. unfold pending. cbn. split; [by left|].
      by intros [?|(x & ?%elem_of_nil & _)].
    + by destruct (_ <=? _); [|case_bool_decide].
Qed.

(** ** Walks *)

(** A walk of the graph from [a] to [b] along the edges [es]. *)
Fixpoint walk g (a : Str) (es : list (LiquidityEdge F64)) (b : Str) : Prop :=
  match es with
  | [] => a = b
  | e :: es' => (e ∈ default [] (g !! a)) ∧ walk g (e_to e) es' b
  end.

Lemma walk_end g a es b : walk g a es b → es ≠ [] → b ∈ e_to <$> es.
Proof.
  revert a. induction es as [|e es IH]; intros a; [done|]. cbn. intros [_ Hw] _.
  destruct es as [|e' es]; [cbn in Hw; subst; by left|]. right. by eapply IH.
Qed.

(** The path that extends an entry along [es]. *)
Definition extend_path x (es : list (LiquidityEdge F64)) : SwapPath F64 :=
  mkSwapPath F64 (q_hops x ++ (hop_of <$> es)) (Nat.iter (length es) after_hop (q_output x)).

Lemma found_walk g to mh x p :
  current x ∈ visited x →
  found g to mh x p ↔
  ∃ es, walk g (current x) es to ∧ NoDup (e_to <$> es) ∧
    (∀ a, a ∈ e_to <$> es → a ∉ visited x) ∧
    Z.of_nat (length (q_hops x) + length es) < mh ∧ p = extend_path x es.
Proof.
  unfold extend_path. intros Hc. split.
  - intros Hf. revert Hc. induction Hf as [x Hl Ht|x y p Hl Ht Hy Hf IH]; intros Hc.
    + exists []. cbn. rewrite app_nil_r, Nat.add_0_r.
      split; [done|]. split; [constructor|]. split; [by intros a ?%elem_of_nil|done].
    + apply elem_of_expand in Hy as (e & He & Hv & ->). cbn in IH.
      destruct IH as (es & Hw & Hn & Hd & Hlen & ->); [set_solver|].
      exists (e :: es). cbn [walk length]. rewrite !fmap_cons.
      split; [done|]. split; [constructor; [|done]; intros ?%Hd; set_solver|].
      split; [intros a [->|Ha]%elem_of_cons; [done|specialize (Hd a Ha); set_solver]|].
      rewrite length_app in Hlen. cbn in Hlen. split; [lia|].
      by rewrite <- app_assoc, Nat.iter_succ_r.
  - intros (es & Hw & Hn & Hd & Hlen & ->). revert x Hc Hw Hd Hlen.
    induction es as [|e es IH]; intros x Hc Hw Hd Hlen; cbn in Hw.
    + cbn. rewrite app_nil_r. cbn in Hlen. constructor; [lia|done].
    + destruct Hw as [He Hw]. rewrite fmap_cons in Hn, Hd. apply NoDup_cons in Hn as [Hne Hn].
      assert (current x ≠ to) as Hne'.
      { intros Ht. apply (Hd to); [|by rewrite <- Ht]. rewrite <- fmap_cons.
        by eapply (walk_end g (current x)). }
      eapply found_later; [cbn in Hlen; lia|done| |].
      * apply elem_of_expand. exists e. split; [done|]. split; [apply Hd; by left|reflexivity].
      * specialize (IH Hn (mkEntry (e_to e) (q_hops x ++ [hop_of e]) ({[e_to e]} ∪ visited x)
                             (after_hop (q_output x)))). cbn in IH.
        rewrite <- app_assoc in IH. cbn [length]. rewrite Nat.iter_succ_r. apply IH; [set_solver|done| |].
        -- intros a Ha. assert (a ∉ visited x) by (apply Hd; by right). set_solver.
        -- rewrite length_app. cbn in *. lia.
Qed.

(** ** Order *)

(** Hop counts of the paths found and of the queue, in order, are increasing and
    the queue holds at most two consecutive ones. *)
Definition depths (s : list (Entry F64) * list (SwapPath F64)) : list nat :=
  ((λ p, length (path_hops p)) <$> snd s) ++ ((λ x, length (q_hops x)) <$> fst s).

Definition layered (s : list (Entry F64) * list (SwapPath F64)) : Prop :=
  StronglySorted le (depths s) ∧
  ∀ x y, x ∈ fst s → y ∈ fst s → (length (q_hops y) <= S (length (q_hops x)))%nat.

Lemma expand_depth g x y : y ∈ expand g x → length (q_hops y) = S (length (q_hops x)).
Proof. intros (e & _ & _ & ->)%elem_of_expand. cbn. rewrite length_app. cbn. lia. Qed.

Lemma StronglySorted_const (l : list nat) n : (∀ m, m ∈ l → m = n) → StronglySorted le l.
Proof.
  induction l as [|a l IH]; intros H; constructor.
  - apply IH. intros m Hm. apply H. by right.
  - apply Forall_forall. intros m Hm. rewrite (H a), (H m); [done|by right|by left].
Qed.

Lemma layered_step g to mh s s' : layered s → bfs_step g to mh s = inl s' → layered s'.
Proof.
  destruct s as [[|x q] ps]; [done|]. unfold layered, depths. cbn [bfs_step fst snd].
  rewrite fmap_cons, StronglySorted_app, StronglySorted_cons.
  intros [(Hp & Hps & Hx & Hq) Hl].
  assert (∀ y z, y ∈ q → z ∈ q → (length (q_hops z) <= S (length (q_hops y)))%nat) as Hl'
    by (intros; apply Hl; by right).
  assert (∀ y, y ∈ q → (length (q_hops x) <= length (q_hops y) <= S (length (q_hops x)))%nat) as Hxq.
  { intros y Hy. split; [|apply Hl; [by left|by right]]. rewrite Forall_forall in Hx.
    apply Hx, list_elem_of_fmap. eauto. }
  destruct (_ <=? _); [intros [= <-]|case_bool_decide; intros [= <-]]; cbn [fst snd]; split; try done.
  - rewrite StronglySorted_app. split; [set_solver|done].
  - rewrite fmap_app, <- app_assoc. cbn. rewrite StronglySorted_app, StronglySorted_cons. done.
  - rewrite !fmap_app, !StronglySorted_app. split_and!; try done.
    + intros a b Ha [Hb|Hb]%elem_of_app; [apply Hp; [done|by right]|].
      apply list_elem_of_fmap in Hb as (y & -> & ->%expand_depth).
      specialize (Hp a _ Ha ltac:(by left)). cbn in Hp. lia.
    + intros a b Ha Hb. apply list_elem_of_fmap in Ha as (y & -> & Hy), Hb as (z & -> & ->%expand_depth).
      apply Hxq in Hy. lia.
    + apply (StronglySorted_const _ (S (length (q_hops x)))).
      intros m (y & -> & Hy%expand_depth)%list_elem_of_fmap. done.
  - intros y z [Hy|Hy]%elem_of_app [Hz|Hz]%elem_of_app; [by apply Hl'|..];
      try apply expand_depth in Hy as ->; try apply expand_depth in Hz as ->;
      try apply Hxq in Hy; try apply Hxq in Hz; lia.
Qed.

(** The paths come out shortest first. *)
Lemma bfs_sorted g from to amount mh ps :
  bfs_paths g from to amount mh = Some ps →
  StronglySorted le ((λ p, length (path_hops p)) <$> ps).
Proof.
  unfold bfs_paths. intros H.
  pose proof (run_loop_inv (bfs_step g to mh) layered (bfs_fuel g) ([initial from amount], [])) as Hinv.
  destruct (run_loop _ _ _) as [|r]; [done|]. injection H as ->.
  destruct Hinv as ([q ps'] & [Hs _] & Hst); [apply layered_step|..].
  - split; [repeat constructor|]. cbn. by intros x y ->%list_elem_of_singleton ->%list_elem_of_singleton; lia.
  - destruct q as [|x q]; cbn in Hst; [|by destruct (_ <=? _); [|case_bool_decide]].
    injection Hst as ->. unfold depths in Hs. cbn in Hs. by rewrite app_nil_r in Hs.
Qed.

(** ** The policy filter *)

Definition hop_allowed (policy : RoutingPolicy) (h : PolicyHop) : bool :=
  (negb (is_bridge_edge (ph_venue_type h) (ph_bridge h)) || allow_bridge_edges policy) &&
  is_venue_allowed policy (ph_venue_type h) && is_asset_allowed policy (ph_asset h) &&
  is_provider_allowed policy (ph_provider h).

(** A route is kept iff every hop is allowed; its identifier plays no role. *)
Lemma should_exclude_None policy id hops :
  should_exclude_route policy id hops = None ↔ Forall (λ h, hop_allowed policy h = true) hops.
Proof.
  induction hops as [|h hops IH]; cbn; [by split; [constructor|]|].
  rewrite Forall_cons, <- IH. unfold hop_allowed.
  destruct (is_bridge_edge _ _), (allow_bridge_edges policy), (is_venue_allowed _ _),
    (is_asset_allowed _ _), (is_provider_allowed _ _); cbn; naive_solver.
Qed.

Definition path_allowed (policy : RoutingPolicy) p : Prop :=
  Forall (λ h, hop_allowed policy (policy_hop h) = true) (path_hops p).

#[export] Instance path_allowed_dec policy p : Decision (path_allowed policy p).
Proof. unfold path_allowed. apply _. Defined.

Lemma filter_paths_eq policy ps : filter_paths policy ps = filter (path_allowed policy) ps.
Proof.
  unfold filter_paths. set (f := λ '(idx, path), _).
  assert (∀ idx p, f (idx, p) = if decide (path_allowed policy p) then Some p else None) as Hf.
  { intros idx p. unfold f.
    pose proof (should_exclude_None policy ($"route_" ++ display (Z.of_nat idx))%str
                  (policy_hop <$> path_hops p)) as He.
    rewrite Forall_fmap in He. fold (path_allowed policy p) in He.
    destruct (should_exclude_route _ _ _), (decide _); naive_solver. }
  assert (∀ k : nat → nat, omap f (imap (λ i p, (k i, p)) ps) = filter (path_allowed policy) ps) as H;
    [|apply (H id)].
  induction ps as [|p l IH]; intros k; [done|]. cbn [imap omap list_omap].
  rewrite Hf, filter_cons. destruct (decide _); [f_equal|]; apply (IH (k ∘ S)).
Qed.

(** ** Theorems *)

(** The routes that should be found: admissible edges of the input, chained from
    [from] to [to] through pairwise distinct assets, fewer than [max_hops] of
    them, none of whose destinations is denied; with the estimate after as many
    haircuts as there are hops. *)
Definition valid_route (config : PathfinderConfig) (policy : RoutingPolicy)
    (edges : list (LiquidityEdge F64)) (from to : Str) (amount_in : Z) p : Prop :=
  ∃ es, Forall (λ e, e ∈ edges ∧ admissible config policy e = true) es ∧
    (from :: (e_to <$> es) = (e_from <$> es) ++ [to]) ∧
    NoDup (from :: (e_to <$> es)) ∧
    Z.of_nat (length es) < max_hops policy ∧
    Forall (λ e, is_asset_allowed policy (e_to e) = true) es ∧
    p = mkSwapPath F64 (hop_of <$> es) (Nat.iter (length es) after_hop amount_in).

Lemma elem_of_neighbours config policy edges a e :
  e ∈ default [] (build_graph config edges policy !! a) ↔
  (e ∈ edges ∧ admissible config policy e = true) ∧ e_from e = a.
Proof.
  rewrite build_graph_lookup, list_elem_of_In, filter_In, andb_true_iff, bool_decide_eq_true,
    <- list_elem_of_In. tauto.
Qed.

Lemma walk_chain config policy edges a es b :
  walk (build_graph config edges policy) a es b ↔
  Forall (λ e, e ∈ edges ∧ admissible config policy e = true) es ∧
  a :: (e_to <$> es) = (e_from <$> es) ++ [b].
Proof.
  revert a. induction es as [|e es IH]; intros a; cbn [walk].
  - cbn. split; [intros ->; by split|]. by intros [_ [= ->]].
  - rewrite elem_of_neighbours, IH, Forall_cons, !fmap_cons, <- app_comm_cons. split.
    + intros [[? <-] [? ->]]. by split.
    + intros [[? ?] [= -> ?]]. by split.
Qed.

(** An admissible edge passes every check of the filter but the asset check. *)
Lemma admissible_hop config policy e :
  admissible config policy e = true →
  hop_allowed policy (policy_hop (hop_of e)) = is_asset_allowed policy (e_to e).
Proof.
  unfold admissible, hop_allowed, policy_hop. cbn.
  destruct (is_bridge_edge _ _), (allow_bridge_edges policy), (is_venue_allowed _ _),
    (is_provider_allowed _ _); cbn; repeat case_match; rewrite ?andb_true_r, ?andb_false_r; done.
Qed.

Lemma valid_route_found config policy edges from to amount p :
  valid_route config policy edges from to amount p ↔
  found (build_graph config edges policy) to (max_hops policy) (initial from amount) p ∧
  path_allowed policy p.
Proof.
  rewrite found_walk by (cbn; set_solver). unfold valid_route, path_allowed.
  split.
  - intros (es & He & Hch & Hn & Hl & Ha & ->). apply NoDup_cons in Hn as [Hf Hn]. split.
    + exists es. rewrite walk_chain. cbn. split_and!; try done. set_solver.
    + cbn. apply Forall_fmap. eapply Forall_impl; [apply Forall_and; split; [exact He|exact Ha]|].
      intros e [[_ Had] Has]. cbn. by rewrite (admissible_hop config).
  - intros [(es & Hw & Hn & Hv & Hl & ->) Hp]. apply walk_chain in Hw as [He Hch]. exists es.
    unfold extend_path in *. cbn in *. split_and!; try done.
    + constructor; [|done]. intros Hin. apply (Hv _ Hin). set_solver.
    + rewrite Forall_fmap in Hp. eapply Forall_impl; [apply Forall_and; split; [exact He|exact Hp]|].
      intros e [[_ Had] Has]. cbn in Has. by rewrite (admissible_hop config) in Has.
Qed.

Lemma sorted_filter (P : SwapPath F64 → Prop) `{!∀ p, Decision (P p)} (f : SwapPath F64 → nat) l :
  StronglySorted le (f <$> l) → StronglySorted le (f <$> filter P l).
Proof.
  induction l as [|p l IH]; [done|]. rewrite fmap_cons, StronglySorted_cons, filter_cons.
  intros [Hp Hs]. case_decide; [|by apply IH]. rewrite fmap_cons, StronglySorted_cons.
  split; [|by apply IH]. rewrite Forall_forall in Hp |- *.
  intros n (q & -> & [_ Hq]%list_elem_of_filter)%list_elem_of_fmap.
  apply Hp, list_elem_of_fmap. eauto.
Qed.

(** What [find_paths] returns for a well-formed request. *)
Lemma find_paths_spec config from to edges amount policy :
  from ≠ [] → to ≠ [] → from ≠ to → 0 < amount →
  ∃ ps, (∀ p, p ∈ ps ↔ valid_route config policy edges from to amount p) ∧
    StronglySorted le ((λ p, length (path_hops p)) <$> ps) ∧
    find_paths config from to edges amount policy =
      Some (if decide (ps = []) then Err (RoutingError.NoRoute from to) else Ok ps).
Proof.
  intros Hf Ht Hft Ha. unfold find_paths.
  rewrite !bool_decide_eq_false_2 by done. rewrite (proj2 (Z.leb_gt amount 0) Ha). cbn [orb].
  destruct (bfs_total (build_graph config edges policy) from to amount (max_hops policy)) as [raw Hraw].
  rewrite Hraw. exists (filter_paths policy raw). rewrite filter_paths_eq. split_and!.
  - intros p. rewrite list_elem_of_filter, (bfs_paths_found _ _ _ _ _ _ Hraw), valid_route_found. tauto.
  - apply sorted_filter. by eapply bfs_sorted.
  - destruct raw as [|p raw]; [by rewrite decide_True|]. cbn [bool_decide].
    rewrite bool_decide_eq_false_2 by done. by case_bool_decide; case_decide.
Qed.

(** C28: path discovery is sound, complete and ordered. For a well-formed request
    the search always ends; it returns the valid routes, all of them and nothing
    else (admissible edges chained from source to destination without visiting an
    asset twice, fewer than [max_hops], allowed by the policy), with fewer hops
    first, and reports [NoRoute] exactly when there is none. *)
Theorem find_paths_correct config from to edges amount policy :
  from ≠ [] → to ≠ [] → from ≠ to → 0 < amount →
  (∃ ps, find_paths config from to edges amount policy = Some (Ok ps) ∧ ps ≠ [] ∧
     (∀ p, p ∈ ps ↔ valid_route config policy edges from to amount p) ∧
     StronglySorted le ((λ p, length (path_hops p)) <$> ps)) ∨
  (find_paths config from to edges amount policy = Some (Err (RoutingError.NoRoute from to)) ∧
     ∀ p, ¬ valid_route config policy edges from to amount p).
Proof.
  intros Hf Ht Hft Ha.
  destruct (find_paths_spec config from to edges amount policy Hf Ht Hft Ha) as (ps & Hv & Hs & E).
  rewrite E. destruct (decide (ps = [])) as [->|Hne]; [right|left; by exists ps].
  split; [done|]. intros p Hp%Hv. by apply elem_of_nil in Hp.
Qed.

(** Requests that are not well formed are rejected. *)
Lemma find_paths_Ok config from to (edges : list (LiquidityEdge F64)) amount policy ps :
  find_paths config from to edges amount policy = Some (Ok ps) →
  from ≠ [] ∧ to ≠ [] ∧ from ≠ to ∧ 0 < amount.
Proof.
  unfold find_paths. intros H. destruct (_ || _) eqn:E1; [done|].
  apply orb_false_iff in E1 as [?%bool_decide_eq_false ?%bool_decide_eq_false].
  case_bool_decide; [done|]. destruct (Z.leb_spec amount 0); [done|]. done.
Qed.

Lemma find_paths_elem config from to edges amount policy ps p :
  find_paths config from to edges amount policy = Some (Ok ps) → p ∈ ps →
  valid_route config policy edges from to amount p.
Proof.
  intros H Hp. destruct (find_paths_Ok _ _ _ _ _ _ _ H) as (? & ? & ? & ?).
  destruct (find_paths_spec config from to edges amount policy) as (ps' & Hv & _ & E); [done..|].
  rewrite H in E. destruct (decide _); [done|]. injection E as ->. by apply Hv.
Qed.

(** The policy is enforced on every hop of every route returned: no bridge
    unless bridges are enabled, no venue outside the allowlist or on the
    denylist, no denied destination asset, and no provider that is killed, denied
    or missing from a non-empty allowlist. *)
Theorem routing_policy_enforced config from to edges amount policy ps p h :
  find_paths config from to edges amount policy = Some (Ok ps) → p ∈ ps → h ∈ path_hops p →
  (is_bridge_edge (h_venue_type h) (h_bridge h) = true → allow_bridge_edges policy = true) ∧
  (h_venue_type h ∉ venue_denylist policy) ∧
  (venue_allowlist policy ≠ [] → h_venue_type h ∈ venue_allowlist policy) ∧
  (destination_asset h ∉ asset_denylist policy) ∧
  ∀ pr, provider_of (h_provider h) (h_bridge h) = Some pr →
    kill_switches (provider_policy policy) !! pr ≠ Some true ∧
    (pr ∉ denylist (provider_policy policy)) ∧
    (allowlist (provider_policy policy) ≠ [] → pr ∈ allowlist (provider_policy policy)).
Proof.
  intros H Hp Hh. pose proof (find_paths_elem _ _ _ _ _ _ _ _ H Hp) as [_ Ha]%valid_route_found.
  unfold path_allowed in Ha. rewrite Forall_forall in Ha. specialize (Ha h Hh).
  unfold hop_allowed in Ha. cbn in Ha. rewrite !andb_true_iff in Ha. destruct Ha as [[[Hb Hv] Has] Hpr].
  unfold is_venue_allowed in Hv. unfold is_asset_allowed in Has.
  apply negb_true_iff, bool_decide_eq_false in Has.
  assert (∀ (l d : list Str) (v : Str),
    (if negb (bool_decide (l = [])) && negb (bool_decide (v ∈ l)) then false
     else negb (bool_decide (v ∈ d))) = true → (v ∉ d) ∧ (l ≠ [] → v ∈ l)) as Hlists.
  { intros l d v. repeat case_bool_decide; cbn; naive_solver. }
  destruct (Hlists _ _ _ Hv) as [Hv1 Hv2]. split_and!; try done.
  - intros E. rewrite E in Hb. by destruct (allow_bridge_edges policy).
  - intros pr Epr. rewrite Epr in Hpr. unfold is_provider_allowed, provider_allowed in Hpr.
    destruct (default false _) eqn:Ek; [done|]. destruct (Hlists _ _ _ Hpr). split_and!; try done.
    intros Ek'. by rewrite Ek' in Ek.
Qed.

(** The hop limit is exclusive: with [max_hops = 1], which [validate] accepts
    as the smallest limit, no route is ever found, not even along a direct edge. *)
Theorem max_hops_one_finds_nothing config from to (edges : list (LiquidityEdge F64)) amount policy :
  from ≠ [] → to ≠ [] → from ≠ to → 0 < amount → max_hops policy <= 1 →
  find_paths config from to edges amount policy = Some (Err (RoutingError.NoRoute from to)).
Proof.
  intros Hf Ht Hft Ha Hm.
  destruct (find_paths_spec config from to edges amount policy Hf Ht Hft Ha) as (ps & Hv & _ & ->).
  destruct ps as [|p ps]; [done|].
  destruct (proj1 (Hv p) ltac:(by left)) as (es & _ & Hch & _ & Hl & _).
  destruct es as [|e es]; [|cbn in Hl; lia]. cbn in Hch. congruence.
Qed.

End Pathfinder.

(** ** Examples *)

Local Open Scope str_scope.

(** A direct edge, a detour over a third asset, and a bridge. *)
Definition example_edge (a b venue : string) (liquidity : Z) (bridge : option BridgeEdgeMeta)
    : LiquidityEdge unit :=
  mkLiquidityEdge unit (lit a) (lit b) (lit venue) (lit venue) liquidity tt 30 None bridge.

Definition example_edges : list (LiquidityEdge unit) :=
  [example_edge "A" "B" "sdex" 5000000 None;
   example_edge "B" "C" "amm" 5000000 None;
   example_edge "A" "C" "sdex" 5000000 None;
   example_edge "C" "A" "sdex" 5000000 None;
   example_edge "A" "C" "bridge" 5000000 (Some (mkBridgeEdgeMeta (Some $"x") None None));
   example_edge "A" "C" "sdex" 10 None].

Lemma find_paths_correct_witness :
  let r := find_paths default_config $"A" $"C" example_edges 1000000 default_policy in
  r = Some (Ok [mkSwapPath unit [hop_of (example_edge "A" "C" "sdex" 5000000 None)] 995000;
                mkSwapPath unit [hop_of (example_edge "A" "B" "sdex" 5000000 None);
                                 hop_of (example_edge "B" "C" "amm" 5000000 None)] 990025]) ∧
  ∃ ps, r = Some (Ok ps) ∧
    ∀ p, p ∈ ps ↔ valid_route default_config default_policy example_edges $"A" $"C" 1000000 p.
Proof.
  intros r. split; [vm_compute; reflexivity|].
  destruct (find_paths_correct default_config $"A" $"C" example_edges 1000000 default_policy)
    as [(ps & H1 & _ & H2 & _)|[H1 _]]; [discriminate | discriminate | discriminate | reflexivity | |].
  - exists ps. exact (conj H1 H2).
  - exfalso. vm_compute in H1. discriminate H1.
Defined.

Lemma routing_policy_enforced_witness :
  ∃ ps, find_paths default_config $"A" $"C" example_edges 1000000 default_policy = Some (Ok ps) ∧
    ∀ p h, p ∈ ps → h ∈ path_hops p → is_bridge_edge (h_venue_type h) (h_bridge h) = true → false = true.
Proof.
  eexists. split; [vm_compute; reflexivity|]. intros p h Hp Hh.
  refine (proj1 (routing_policy_enforced default_config $"A" $"C" example_edges 1000000
    default_policy _ p h _ Hp Hh)). vm_compute. reflexivity.
Defined.

Lemma max_hops_one_finds_nothing_witness :
  find_paths default_config $"A" $"C" example_edges 1000000 (with_max_hops default_policy 1) =
    Some (Err (RoutingError.NoRoute $"A" $"C")).
Proof.
  apply max_hops_one_finds_nothing;
    [discriminate | discriminate | discriminate | reflexivity | vm_compute; discriminate].
Defined.
