(* ===== verification/Health.v ===== *)
(** * Venue health (routing: health/circuit_breaker.rs, scorer.rs, freshness.rs, policy.rs, filter.rs)

    Which venues the router may use: a circuit breaker per venue, scores computed in
    binary64 from order books and reserves, freshness of the data, the policy that
    excludes venues with its overrides, and the filter of the liquidity graph. An instant
    is its number of nanoseconds since the epoch. *)

From stdpp Require Import base decidable strings numbers list gmap.
From S2P Require Import Prelude RustStr Result F64 Policy Pathfinder.

Local Open Scope Z_scope.
Local Open Scope str_scope.
Local Open Scope record_scope.

(** ** Time *)

Abbreviation Instant := Z (only parsing).

Definition NANOS : Z := 10 ^ 9.

(** [(a - b).num_seconds()] and [num_milliseconds()] truncate toward zero. *)
Definition num_seconds (d : Z) : Z := Z.quot d NANOS.
Definition num_milliseconds (d : Z) : Z := Z.quot d (10 ^ 6).

(** [Duration::seconds] panics ([None]) outside the range of milliseconds in an [i64]. *)
Definition duration_seconds (secs : Z) : option Z :=
  if (- (int_max I64 / 1000) <=? secs) && (secs <=? int_max I64 / 1000) then Some (secs * NANOS) else None.

(** ** Venues (scorer.rs) *)

Module VenueType.

Inductive VenueType := Sdex | Amm.

(** [Debug] *)
Definition debug (v : VenueType) : Str :=
  match v with
  | Sdex => $"Sdex"
  | Amm => $"Amm"
  end.

End VenueType.

Abbreviation VenueType := VenueType.VenueType (only parsing).

#[export] Instance VenueType_eq_dec : EqDecision VenueType.
Proof. solve_decision. Defined.

(** ** Circuit breakers (circuit_breaker.rs) *)

Module BreakerState.

Inductive BreakerState := Closed | Open | HalfOpen.

End BreakerState.

Abbreviation BreakerState := BreakerState.BreakerState (only parsing).

#[export] Instance BreakerState_eq_dec : EqDecision BreakerState.
Proof. solve_decision. Defined.

Record BreakerConfig := mkBreakerConfig {
  failure_threshold : Z;
  success_threshold : Z;
  recovery_timeout_secs : Z;
}.

Definition default_breaker_config : BreakerConfig := mkBreakerConfig 5 3 30.

Record VenueBreaker := mkVenueBreaker {
  b_state : BreakerState;
  consecutive_failures : Z;
  consecutive_successes : Z;
  last_failure_at : option Instant;
  last_transition_at : Instant;
}.

#[export] Instance VenueBreaker_eta : Eta VenueBreaker := λ b,
  mkVenueBreaker (b_state b) (consecutive_failures b) (consecutive_successes b) (last_failure_at b) (last_transition_at b).

Definition new_breaker (now : Instant) : VenueBreaker := mkVenueBreaker BreakerState.Closed 0 0 None now.

Definition transition_to (now : Instant) (new_state : BreakerState) (b : VenueBreaker) : VenueBreaker :=
  if bool_decide (b_state b ≠ new_state) then mkVenueBreaker new_state 0 0 (last_failure_at b) now else b.

Section Breakers.

(** Whether the build traps on arithmetic overflow. *)
Variable checks : bool.

(** The counters are [u32]; [now] and [now'] are the two readings of the clock. *)
Definition record_failure (now now' : Instant) (config : BreakerConfig) (b : VenueBreaker) : option VenueBreaker :=
  match plain checks U32 (consecutive_failures b + 1) with
  | None => None
  | Some failures =>
      let b1 := b <| consecutive_failures := failures |> <| consecutive_successes := 0 |>
                  <| last_failure_at := Some now |> in
      Some match b_state b1 with
           | BreakerState.Closed =>
               if failure_threshold config <=? failures then transition_to now' BreakerState.Open b1 else b1
           | BreakerState.HalfOpen => transition_to now' BreakerState.Open b1
           | BreakerState.Open => b1
           end
  end.

Definition record_success (now' : Instant) (config : BreakerConfig) (b : VenueBreaker) : option VenueBreaker :=
  match plain checks U32 (consecutive_successes b + 1) with
  | None => None
  | Some successes =>
      let b1 := b <| consecutive_successes := successes |> <| consecutive_failures := 0 |> in
      Some match b_state b1 with
           | BreakerState.HalfOpen =>
               if success_threshold config <=? successes then transition_to now' BreakerState.Closed b1 else b1
           | _ => b1
           end
  end.

Definition check_and_transition (now now' : Instant) (config : BreakerConfig) (b : VenueBreaker) : option VenueBreaker :=
  if bool_decide (b_state b = BreakerState.Open) then
    match last_failure_at b with
    | Some last_failure =>
        match duration_seconds (recovery_timeout_secs config) with
        | Some timeout =>
            Some (if timeout <=? now - last_failure then transition_to now' BreakerState.HalfOpen b else b)
        | None => None
        end
    | None => Some b
    end
  else Some b.

(** The breakers of [CircuitBreakerRegistry]; an operation holds the lock of its venue. *)
Abbreviation Breakers := (gmap Str VenueBreaker) (only parsing).

Definition is_venue_excluded (now now' : Instant) (config : BreakerConfig) (venue_ref : Str) (breakers : Breakers) :
    option (bool * Breakers) :=
  match check_and_transition now now' config (default (new_breaker now) (breakers !! venue_ref)) with
  | Some b => Some (bool_decide (b_state b = BreakerState.Open), <[venue_ref := b]> breakers)
  | None => None
  end.

Definition record_result (now now' : Instant) (config : BreakerConfig) (venue_ref : Str) (success : bool)
    (breakers : Breakers) : option Breakers :=
  let b := default (new_breaker now) (breakers !! venue_ref) in
  match (if success then record_success now' config b else record_failure now now' config b) with
  | Some b' => Some (<[venue_ref := b']> breakers)
  | None => None
  end.

Definition get_state (venue_ref : Str) (breakers : Breakers) : option BreakerState := b_state <$> breakers !! venue_ref.

End Breakers.

Abbreviation Breakers := (gmap Str VenueBreaker) (only parsing).

(** ** Scores (scorer.rs) *)

Record VenueScorerInput := mkVenueScorerInput {
  i_venue_ref : Str;
  i_venue_type : VenueType;
  best_bid_e7 : option Z;
  best_ask_e7 : option Z;
  depth_top_n_e7 : option Z;
  reserve_a_e7 : option Z;
  reserve_b_e7 : option Z;
  tvl_e7 : option Z;
  last_updated_at : option Instant;
}.

(** The signals of a record as they are computed, before they become JSON. *)
Record Signals := mkSignals {
  s_ratio : option f64;
  s_size_e7 : option Z;
  s_staleness_secs : Z;
}.

Record HealthRecord := mkHealthRecord {
  r_venue_ref : Str;
  r_venue_type : VenueType;
  score : f64;
  signals : Signals;
  computed_at : Instant;
}.

Record ScoredVenue := mkScoredVenue {
  v_venue_ref : Str;
  v_venue_type : VenueType;
  v_record : HealthRecord;
}.

Record SdexScorer := mkSdexScorer {
  sdex_staleness_threshold_secs : Z;
  max_spread : f64;
  target_depth_e7 : Z;
  depth_levels : Z;
}.

Record AmmScorer := mkAmmScorer {
  amm_staleness_threshold_secs : Z;
  min_tvl_threshold_e7 : Z;
}.

Definition fone : f64 := of_int 1.

(** [(now - t).num_seconds().max(0) as u64], or [u64::MAX] without a time. *)
Definition staleness (now : Instant) (updated : option Instant) : Z :=
  match updated with
  | Some t => Z.max (num_seconds (now - t)) 0
  | None => int_max U64
  end.

(** [(x / y).clamp(0.0, 1.0)], [(1.0 - x / y).clamp(0.0, 1.0)] *)
Definition share (x y : f64) : f64 := fclamp (fdiv x y) fzero fone.
Definition shortfall (x y : f64) : f64 := fclamp (fsub fone (fdiv x y)) fzero fone.

(** [(0.4 * a + 0.4 * b + 0.2 * c).clamp(0.0, 1.0)] *)
Definition weighted (a b c : f64) : f64 :=
  let w4 := of_decimal false 4 (-1) in
  let w2 := of_decimal false 2 (-1) in
  fclamp (fadd (fadd (fmul w4 a) (fmul w4 b)) (fmul w2 c)) fzero fone.

Definition spread_ratio (bid ask : f64) : f64 :=
  let mid := fdiv (fadd bid ask) (of_int 2) in
  if flt fzero mid then fdiv (fsub ask bid) mid else INFINITY.

Definition sdex_score (s : SdexScorer) (now : Instant) (input : VenueScorerInput) : HealthRecord :=
  let age := staleness now (last_updated_at input) in
  let limit := sdex_staleness_threshold_secs s in
  let record := λ score ratio,
    mkHealthRecord (i_venue_ref input) VenueType.Sdex score (mkSignals ratio (depth_top_n_e7 input) age) now in
  match best_bid_e7 input, best_ask_e7 input with
  | Some bid, Some ask =>
      if limit <? age then record fzero None
      else let ratio := spread_ratio (of_int bid) (of_int ask) in
           record (weighted (shortfall ratio (max_spread s))
                     (share (of_int (default 0 (depth_top_n_e7 input))) (of_int (target_depth_e7 s)))
                     (shortfall (of_int age) (of_int limit))) (Some ratio)
  | _, _ => record fzero None
  end.

Definition amm_score (s : AmmScorer) (now : Instant) (input : VenueScorerInput) : HealthRecord :=
  let age := staleness now (last_updated_at input) in
  let limit := amm_staleness_threshold_secs s in
  let record := λ score ratio,
    mkHealthRecord (i_venue_ref input) VenueType.Amm score (mkSignals ratio (tvl_e7 input) age) now in
  if (limit <? age) || (default 0 (reserve_a_e7 input) =? 0) || (default 0 (reserve_b_e7 input) =? 0)
  then record fzero None
  else record (weighted (fclamp fone fzero fone)
                 (share (of_int (default 0 (tvl_e7 input))) (of_int (min_tvl_threshold_e7 s)))
                 (shortfall (of_int age) (of_int limit))) (Some fzero).

(** [HealthScorer::score_venues]; each venue reads the clock. *)
Definition score_venue (sdex : SdexScorer) (amm : AmmScorer) (input : VenueScorerInput) (now : Instant) : ScoredVenue :=
  mkScoredVenue (i_venue_ref input) (i_venue_type input)
    match i_venue_type input with
    | VenueType.Sdex => sdex_score sdex now input
    | VenueType.Amm => amm_score amm now input
    end.

Definition score_venues (sdex : SdexScorer) (amm : AmmScorer) (inputs : list VenueScorerInput) (clock : list Instant) :
    list ScoredVenue :=
  zip_with (score_venue sdex amm) inputs clock.

(** ** Freshness (freshness.rs, scorer.rs) *)

Record FreshnessThresholds := mkFreshnessThresholds {
  ft_sdex : Z;
  ft_amm : Z;
}.

Definition validate_thresholds (t : FreshnessThresholds) : Result unit Str :=
  if ft_sdex t =? 0 then Err $"freshness_threshold_secs.sdex must be a positive integer greater than zero"
  else if ft_amm t =? 0 then Err $"freshness_threshold_secs.amm must be a positive integer greater than zero"
  else Ok tt.

Record FreshnessResult := mkFreshnessResult {
  is_fresh : bool;
  staleness_secs : Z;
}.

Record FreshnessOutcome := mkFreshnessOutcome {
  fresh_indices : list Z;
  stale_indices : list Z;
  max_staleness_secs : Z;
}.

(** Milliseconds are rounded up to seconds. *)
Definition classify (input : VenueScorerInput) (thresholds : FreshnessThresholds) (now : Instant) : FreshnessResult :=
  let threshold := match i_venue_type input with
                   | VenueType.Sdex => ft_sdex thresholds
                   | VenueType.Amm => ft_amm thresholds
                   end in
  match last_updated_at input with
  | None => mkFreshnessResult false (int_max U64)
  | Some ts =>
      let ms := num_milliseconds (now - ts) in
      let secs := if ms <=? 0 then 0 else (ms + 999) / 1000 in
      mkFreshnessResult (secs <=? threshold) secs
  end.

Definition note (thresholds : FreshnessThresholds) (now : Instant) (acc : Z * FreshnessOutcome) (input : VenueScorerInput) :
    Z * FreshnessOutcome :=
  let (idx, o) := acc in
  let r := classify input thresholds now in
  let worst := if max_staleness_secs o <? staleness_secs r then staleness_secs r else max_staleness_secs o in
  (idx + 1,
   if is_fresh r then mkFreshnessOutcome (fresh_indices o ++ [idx]) (stale_indices o) worst
   else mkFreshnessOutcome (fresh_indices o) (stale_indices o ++ [idx]) worst).

Definition evaluate (inputs : list VenueScorerInput) (thresholds : FreshnessThresholds) (now : Instant) : FreshnessOutcome :=
  snd (fold_left (note thresholds now) inputs (0, mkFreshnessOutcome [] [] 0)).

(** ** Exclusion (policy.rs) *)

Record ExclusionThresholds := mkExclusionThresholds {
  et_sdex : f64;
  et_amm : f64;
}.

Definition default_thresholds : ExclusionThresholds :=
  mkExclusionThresholds (of_decimal false 5 (-1)) (of_decimal false 5 (-1)).

Inductive OverrideDirective := ForceInclude | ForceExclude.

#[export] Instance OverrideDirective_eq_dec : EqDecision OverrideDirective.
Proof. solve_decision. Defined.

Record OverrideEntry := mkOverrideEntry {
  o_venue_ref : Str;
  directive : OverrideDirective;
}.

Record OverrideRegistry := mkOverrideRegistry {
  venue_entries : gmap Str OverrideDirective;
  source_entries : VenueType → option OverrideDirective;
}.

(** A later entry for a venue replaces an earlier one. *)
Definition from_entries (entries : list OverrideEntry) : OverrideRegistry :=
  mkOverrideRegistry (fold_left (λ m e, <[o_venue_ref e := directive e]> m) entries ∅) (λ _, None).

Definition with_source_overrides (r : OverrideRegistry) (sources : VenueType → option OverrideDirective) : OverrideRegistry :=
  mkOverrideRegistry (venue_entries r) sources.

Inductive ExclusionReason :=
| PolicyThreshold (threshold : f64)
| Override
| StaleData
| CircuitBreakerOpen
| LiquidityAnomaly (score : f64) (reasons : list Str).

Record ExcludedVenueInfo := mkExcludedVenueInfo {
  x_venue_ref : Str;
  x_score : f64;
  x_signals : Signals;
  x_reason : ExclusionReason;
}.

(** The configuration of the registry of breakers, if there is one; the breakers
    themselves are shared state. *)
Record ExclusionPolicy := mkExclusionPolicy {
  thresholds : ExclusionThresholds;
  overrides : OverrideRegistry;
  circuit_breaker : option BreakerConfig;
}.

Definition threshold_for (p : ExclusionPolicy) (t : VenueType) : f64 :=
  match t with
  | VenueType.Sdex => et_sdex (thresholds p)
  | VenueType.Amm => et_amm (thresholds p)
  end.

(** What the overrides decide, if anything. *)
Definition override_decision (p : ExclusionPolicy) (venue_ref : Str) (t : VenueType) : option OverrideDirective :=
  let source_directive := source_entries (overrides p) t in
  let venue_directive := venue_entries (overrides p) !! venue_ref in
  if bool_decide (source_directive = Some ForceExclude) then Some ForceExclude
  else match source_directive, venue_directive with
       | _, Some ForceInclude | Some ForceInclude, _ => Some ForceInclude
       | _, Some ForceExclude | Some ForceExclude, _ => Some ForceExclude
       | None, None => None
       end.

(** The breaker is only consulted when there is one. *)
Definition breaker_excludes (p : ExclusionPolicy) (now now' : Instant) (venue_ref : Str) (breakers : Breakers) :
    option (bool * Breakers) :=
  match circuit_breaker p with
  | Some config => is_venue_excluded now now' config venue_ref breakers
  | None => Some (false, breakers)
  end.

(** One venue: the reason for its exclusion, if it is excluded. *)
Definition judge (p : ExclusionPolicy) (now now' : Instant) (v : ScoredVenue) (breakers : Breakers) :
    option (option ExclusionReason * Breakers) :=
  match override_decision p (v_venue_ref v) (v_venue_type v) with
  | Some ForceExclude => Some (Some Override, breakers)
  | Some ForceInclude => Some (None, breakers)
  | None =>
      match breaker_excludes p now now' (v_venue_ref v) breakers with
      | None => None
      | Some (true, breakers') => Some (Some CircuitBreakerOpen, breakers')
      | Some (false, breakers') =>
          let threshold := threshold_for p (v_venue_type v) in
          Some (if flt (score (v_record v)) threshold then Some (PolicyThreshold threshold) else None, breakers')
      end
  end.

(** What happens between the venues: the readings of the clock, and what other threads
    do to the breakers before. *)
Record Moment := mkMoment {
  m_now : Instant;
  m_now' : Instant;
  m_others : Breakers → Breakers;
}.

(** [apply]: the excluded venues with their diagnostics, in order. *)
Fixpoint apply (p : ExclusionPolicy) (scored : list (ScoredVenue * Moment)) (breakers : Breakers) :
    option (list ExcludedVenueInfo * Breakers) :=
  match scored with
  | [] => Some ([], breakers)
  | (v, m) :: rest =>
      match judge p (m_now m) (m_now' m) v (m_others m breakers) with
      | None => None
      | Some (reason, breakers1) =>
          match apply p rest breakers1 with
          | None => None
          | Some (infos, breakers2) =>
              Some (match reason with
                    | Some r => mkExcludedVenueInfo (v_venue_ref v) (score (v_record v)) (signals (v_record v)) r :: infos
                    | None => infos
                    end, breakers2)
          end
      end
  end.

Definition is_excluded (p : ExclusionPolicy) (now now' : Instant) (venue_ref : Str) (t : VenueType) (breakers : Breakers) :
    option (bool * Breakers) :=
  match override_decision p venue_ref t with
  | Some ForceExclude => Some (true, breakers)
  | Some ForceInclude => Some (false, breakers)
  | None => breaker_excludes p now now' venue_ref breakers
  end.

(** ** The filter of the graph (filter.rs) *)

Definition keep_edge (excluded : gset Str) (provider_policy : option ProviderPolicy) (e : LiquidityEdge f64) : bool :=
  negb (bool_decide (e_venue_ref e ∈ excluded)) &&
  negb (is_bridge_edge (e_venue_type e) (e_bridge e)) &&
  match provider_policy with
  | Some policy => provider_allowed policy (provider_of (e_provider e) (e_bridge e))
  | None => true
  end.

Definition filter_edges_with_providers (p : ExclusionPolicy) (edges : list (LiquidityEdge f64))
    (scored : list (ScoredVenue * Moment)) (provider_policy : option ProviderPolicy) (breakers : Breakers) :
    option (list (LiquidityEdge f64) * list ExcludedVenueInfo * Breakers) :=
  match apply p scored breakers with
  | Some (infos, breakers') =>
      let excluded := list_to_set (x_venue_ref <$> infos) in
      Some (filter (λ e, keep_edge excluded provider_policy e = true) edges, infos, breakers')
  | None => None
  end.

Definition filter_edges (p : ExclusionPolicy) (edges : list (LiquidityEdge f64)) (scored : list (ScoredVenue * Moment)) :=
  filter_edges_with_providers p edges scored None.
