(* ===== verification/HealthProps.v ===== *)
(** * Venue health: what is proved

    Scores are numbers of the unit interval, unless the configuration divides zero by
    zero; a breaker follows its three-state machine; the filtered graph holds exactly the
    edges that overrides, breakers, scores, bridges and providers leave. *)

From stdpp Require Import base functions decidable strings numbers list gmap.
From Stdlib Require Import ZArith Lia SpecFloat.
From S2P Require Import Prelude RustStr Result F64 Policy Pathfinder Health.

Local Open Scope Z_scope.
Local Open Scope str_scope.
Local Open Scope record_scope.

(** ** Scores *)

(** Zero, a positive number or infinity: closed under sums, and under products with a
    positive number. *)
Definition nonneg (x : f64) : Prop :=
  match x with
  | S754_zero _ | S754_finite false _ _ | S754_infinity false => True
  | _ => False
  end.

Definition positive (x : f64) : Prop := ∃ m e, x = S754_finite false m e.

Lemma unit_nonneg x : unit_interval x → nonneg x.
Proof. by destruct x as [|[]| |[]]; intros []. Qed.

Lemma nonneg_not_nan x : nonneg x → x ≠ S754_nan.
Proof. by destruct x. Qed.

Lemma fmul_nonneg m e y : unit_interval y → nonneg (fmul (S754_finite false m e) y).
Proof.
  destruct y as [sy|[]| |[] my ey]; try (by intros []). intros _. cbn.
  by destruct (binary_round_aux_spec false (Z.pos (m * my)) (e + ey) loc_Exact) as [->|[->|(? & ? & -> & _)]]; [lia|..].
Qed.

Lemma fadd_nonneg x y : nonneg x → nonneg y → nonneg (fadd x y).
Proof.
  destruct x as [sx|[]| |[] mx ex], y as [sy|[]| |[] my ey]; try done; [by destruct sx, sy|]. intros _ _. cbn.
  rewrite <- Pos2Z.inj_add. cbn [binary_normalize].
  match goal with |- nonneg (binary_round _ _ ?s ?m ?e) => by destruct (binary_round_spec s m e) as [->|[->|(? & ? & ->)]] end.
Qed.

Lemma weighted_unit a b c : unit_interval a → unit_interval b → unit_interval c → unit_interval (weighted a b c).
Proof.
  intros Ha Hb Hc. unfold weighted. apply fclamp_unit, nonneg_not_nan.
  by apply fadd_nonneg; [apply fadd_nonneg|]; apply fmul_nonneg.
Qed.

Lemma share_unit x y : x ≠ S754_nan → positive y → unit_interval (share x y).
Proof. intros Hx (m & e & ->). by apply fclamp_unit, fdiv_not_nan. Qed.

Lemma shortfall_unit x y : x ≠ S754_nan → positive y → unit_interval (shortfall x y).
Proof. intros Hx (m & e & ->). by apply fclamp_unit, fsub_one_not_nan, fdiv_not_nan. Qed.

Lemma fits128_abs n : fits I128 n → Z.abs n < 2 ^ 128.
Proof. unfold fits; cbn. lia. Qed.

Lemma spread_ratio_not_nan bid ask :
  fits I128 bid → fits I128 ask → spread_ratio (of_int bid) (of_int ask) ≠ S754_nan.
Proof.
  intros Hb%fits128_abs%of_int_tame Ha%fits128_abs%of_int_tame. unfold spread_ratio.
  pose proof (fsub_finite 128 _ _ ltac:(lia) Ha Hb) as Hs.
  destruct (fdiv _ _) as [sx|[]| |[] m e]; try done.
  - by apply fdiv_infinite.
  - apply fdiv_not_nan. by destruct (fsub _ _).
Qed.

(** A configuration with positive limits. *)
Record ScorersOk (sdex : SdexScorer) (amm : AmmScorer) : Prop := {
  ok_sdex_limit : 0 < sdex_staleness_threshold_secs sdex < 2 ^ 64;
  ok_spread : positive (max_spread sdex);
  ok_depth : 0 < target_depth_e7 sdex < 2 ^ 127;
  ok_amm_limit : 0 < amm_staleness_threshold_secs amm < 2 ^ 64;
  ok_tvl : 0 < min_tvl_threshold_e7 amm < 2 ^ 127;
}.

(** The prices are values of their type. *)
Definition quoted (input : VenueScorerInput) : Prop :=
  (∀ b, best_bid_e7 input = Some b → fits I128 b) ∧ (∀ a, best_ask_e7 input = Some a → fits I128 a).

Definition limit_for (sdex : SdexScorer) (amm : AmmScorer) (t : VenueType) : Z :=
  match t with
  | VenueType.Sdex => sdex_staleness_threshold_secs sdex
  | VenueType.Amm => amm_staleness_threshold_secs amm
  end.

(** Data that is missing or older than the limit, or a venue without liquidity. *)
Definition unusable (sdex : SdexScorer) (amm : AmmScorer) (input : VenueScorerInput) (now : Instant) : Prop :=
  limit_for sdex amm (i_venue_type input) < staleness now (last_updated_at input) ∨
  match i_venue_type input with
  | VenueType.Sdex => best_bid_e7 input = None ∨ best_ask_e7 input = None
  | VenueType.Amm => default 0 (reserve_a_e7 input) = 0 ∨ default 0 (reserve_b_e7 input) = 0
  end.

Lemma fzero_unit : unit_interval fzero.
Proof. by vm_compute. Qed.

Lemma fone_unit : unit_interval (fclamp fone fzero fone).
Proof. by vm_compute. Qed.

Lemma sdex_score_unit s now input :
  0 < sdex_staleness_threshold_secs s < 2 ^ 64 → positive (max_spread s) → 0 < target_depth_e7 s < 2 ^ 127 → quoted input →
  unit_interval (score (sdex_score s now input)).
Proof.
  intros Hl Hs Hd [Hb Ha]. unfold sdex_score.
  destruct (best_bid_e7 input) as [bid|] eqn:Eb, (best_ask_e7 input) as [ask|] eqn:Ea; try apply fzero_unit.
  destruct (_ <? _); [apply fzero_unit|]. cbn [score]. apply weighted_unit.
  - apply shortfall_unit; [|done]. apply spread_ratio_not_nan; auto.
  - apply share_unit; [apply of_int_not_nan|apply of_int_positive; lia].
  - apply shortfall_unit; [apply of_int_not_nan|apply of_int_positive; lia].
Qed.

Lemma amm_score_unit s now input :
  0 < amm_staleness_threshold_secs s < 2 ^ 64 → 0 < min_tvl_threshold_e7 s < 2 ^ 127 →
  unit_interval (score (amm_score s now input)).
Proof.
  intros Hl Ht. unfold amm_score. destruct (_ || _); [apply fzero_unit|]. cbn [score]. apply weighted_unit.
  - apply fone_unit.
  - apply share_unit; [apply of_int_not_nan|apply of_int_positive; lia].
  - apply shortfall_unit; [apply of_int_not_nan|apply of_int_positive; lia].
Qed.

Lemma score_venue_unusable sdex amm input now :
  unusable sdex amm input now → score (v_record (score_venue sdex amm input now)) = fzero.
Proof.
  unfold unusable, score_venue, sdex_score, amm_score. destruct (i_venue_type input); cbn [v_record limit_for]; intros H.
  - destruct (best_bid_e7 input), (best_ask_e7 input); try done. destruct H as [H|[]]; [|done..].
    by rewrite (proj2 (Z.ltb_lt _ _) H).
  - destruct (_ || _) eqn:E; [done|]. rewrite !orb_false_iff in E. destruct E as [[E1%Z.ltb_ge E2%Z.eqb_neq] E3%Z.eqb_neq]. lia.
Qed.

(** With positive limits, the score of every venue is a number between 0 and 1, never
    NaN, for all prices, reserves and ages; and it is 0 for a venue whose data is missing
    or older than the limit or which has no liquidity. *)
Theorem health_score_bounded sdex amm inputs clock :
  ScorersOk sdex amm → Forall quoted inputs → length clock = length inputs →
  Forall2 (λ input v, v_venue_ref v = i_venue_ref input ∧ v_venue_type v = i_venue_type input ∧
      unit_interval (score (v_record v)) ∧
      (unusable sdex amm input (computed_at (v_record v)) → score (v_record v) = fzero))
    inputs (score_venues sdex amm inputs clock).
Proof.
  intros [] Hq Hlen. unfold score_venues. revert clock Hlen.
  induction Hq as [|input inputs Hq _ IH]; intros [|now clock] Hlen; try done; cbn [zip_with]; constructor; [|by apply IH; injection Hlen].
  split_and!; [done..| |].
  - unfold score_venue. destruct (i_venue_type input); cbn [v_record]; [by apply sdex_score_unit|by apply amm_score_unit].
  - intros Hu. apply score_venue_unusable.
    assert (E : computed_at (v_record (score_venue sdex amm input now)) = now); [|by rewrite E in Hu].
    unfold score_venue, sdex_score, amm_score. destruct (i_venue_type input), (best_bid_e7 input), (best_ask_e7 input); cbn; by repeat case_match.
Qed.

Definition demo_sdex : SdexScorer := mkSdexScorer 60 (of_decimal false 5 (-2)) 10000000000 5.
Definition demo_amm : AmmScorer := mkAmmScorer 60 1000000000.

Definition demo_book : VenueScorerInput :=
  mkVenueScorerInput $"venue:A" VenueType.Sdex (Some 9990000) (Some 10010000) (Some 5000000000) None None None (Some 0).
Definition demo_pool : VenueScorerInput :=
  mkVenueScorerInput $"pool:B" VenueType.Amm None None None (Some 1000000000) (Some 2000000000) (Some 3000000000) None.

Lemma demo_scorers : ScorersOk demo_sdex demo_amm.
Proof. split; cbn; try lia. by eexists _, _. Qed.

Lemma health_score_bounded_witness :
  unit_interval (score (v_record (score_venue demo_sdex demo_amm demo_book 0))) ∧
  score (v_record (score_venue demo_sdex demo_amm demo_pool 0)) = fzero.
Proof.
  assert (Hq : Forall quoted [demo_book; demo_pool]) by (do 2 (apply Forall_cons; split; [split; intros ? [=]; subst; done|]); apply Forall_nil_2).
  pose proof (health_score_bounded demo_sdex demo_amm [demo_book; demo_pool] [0; 0] demo_scorers Hq eq_refl) as H.
  apply Forall2_cons in H as [(_ & _ & H1 & _) H]. apply Forall2_cons in H as [(_ & _ & _ & H2) _].
  split; [exact H1|]. apply H2. by left.
Defined.

(** A limit of zero makes the age divide zero by zero: the score is NaN, which is below
    no threshold. *)
Theorem zero_limit_not_excluded p now now' input amm v breakers :
  let s := mkSdexScorer 0 (of_decimal false 5 (-2)) 10000000000 5 in
  i_venue_type input = VenueType.Sdex → is_Some (best_bid_e7 input) → is_Some (best_ask_e7 input) →
  last_updated_at input = Some now → v = score_venue s amm input now →
  overrides p = mkOverrideRegistry ∅ (λ _, None) → circuit_breaker p = None →
  score (v_record v) = S754_nan ∧ judge p now now' v breakers = Some (None, breakers).
Proof.
  intros s Ht [bid Eb] [ask Ea] El -> Ho Hc.
  assert (E : score (v_record (score_venue s amm input now)) = S754_nan).
  { unfold score_venue, sdex_score. rewrite Ht, Eb, Ea, El. cbn [v_record staleness s sdex_staleness_threshold_secs max_spread target_depth_e7].
    rewrite Z.sub_diag. cbn [score]. unfold weighted.
    replace (shortfall _ (of_int 0)) with S754_nan by done. by destruct (fadd (fmul _ _) (fmul _ _)) as [| | |]. }
  split; [done|]. unfold judge, override_decision, breaker_excludes. rewrite E, Ho, Hc. cbn. by rewrite lookup_empty.
Qed.

(** ** The circuit breaker as a machine *)

(** What a breaker promises: closed with a run of failures, open since a failure, or on
    probation with a run of successes. *)
Inductive Breaker :=
| Shut (failures : Z)
| Tripped (since : Instant)
| Probation (successes : Z).

(** What happens to a venue, with the time. *)
Inductive BreakerEvent :=
| Failed (now : Instant)
| Succeeded
| Asked (now : Instant).

Definition breaker_step (c : BreakerConfig) (ev : BreakerEvent) (a : Breaker) : Breaker :=
  match ev, a with
  | Failed now, Shut k => if failure_threshold c <=? k + 1 then Tripped now else Shut (k + 1)
  | Failed now, _ => Tripped now
  | Succeeded, Shut _ => Shut 0
  | Succeeded, Probation j => if success_threshold c <=? j + 1 then Shut 0 else Probation (j + 1)
  | Succeeded, Tripped since => a
  | Asked now, Tripped since => if recovery_timeout_secs c * NANOS <=? now - since then Probation 0 else a
  | Asked _, _ => a
  end.

Definition refuses (a : Breaker) : bool := if a is Tripped _ then true else false.

(** The answers to the questions of a run, and where it ends. *)
Fixpoint breaker_run (c : BreakerConfig) (evs : list BreakerEvent) (a : Breaker) : list bool * Breaker :=
  match evs with
  | [] => ([], a)
  | ev :: evs =>
      let a' := breaker_step c ev a in
      let (answers, a'') := breaker_run c evs a' in
      (if ev is Asked _ then refuses a' :: answers else answers, a'')
  end.

(** A call of the registry, with the second reading of the clock. *)
Record Call := mkCall {
  c_venue : Str;
  c_event : BreakerEvent;
  c_created : Instant;
  c_later : Instant;
}.

(** One call on the registry: the answer, if it asks, and the breakers. *)
Definition registry_call (checks : bool) (c : BreakerConfig) (k : Call) (breakers : Breakers) : option (option bool * Breakers) :=
  match c_event k with
  | Failed now => (λ b, (None, b)) <$> record_result checks now (c_later k) c (c_venue k) false breakers
  | Succeeded => (λ b, (None, b)) <$> record_result checks (c_created k) (c_later k) c (c_venue k) true breakers
  | Asked now => (λ '(r, b), (Some r, b)) <$> is_venue_excluded now (c_later k) c (c_venue k) breakers
  end.

Fixpoint registry_run (checks : bool) (c : BreakerConfig) (ks : list Call) (breakers : Breakers) :
    option (list (Str * bool) * Breakers) :=
  match ks with
  | [] => Some ([], breakers)
  | k :: ks =>
      match registry_call checks c k breakers with
      | Some (r, breakers1) =>
          match registry_run checks c ks breakers1 with
          | Some (answers, breakers2) => Some (match r with Some b => (c_venue k, b) :: answers | None => answers end, breakers2)
          | None => None
          end
      | None => None
      end
  end.

(** A stored breaker after at most [n] calls represents a state of the machine. *)
Definition represents (n : Z) (b : VenueBreaker) (a : Breaker) : Prop :=
  0 ≤ consecutive_failures b ≤ n ∧ 0 ≤ consecutive_successes b ≤ n ∧
  match b_state b, a with
  | BreakerState.Closed, Shut k => consecutive_failures b = k
  | BreakerState.Open, Tripped since => last_failure_at b = Some since
  | BreakerState.HalfOpen, Probation j => consecutive_successes b = j
  | _, _ => False
  end.

Definition in_range (c : BreakerConfig) : Prop := - (int_max I64 / 1000) ≤ recovery_timeout_secs c ≤ int_max I64 / 1000.

Lemma duration_in_range c : in_range c → duration_seconds (recovery_timeout_secs c) = Some (recovery_timeout_secs c * NANOS).
Proof.
  unfold in_range, duration_seconds. intros [H1 H2].
  by rewrite (proj2 (Z.leb_le _ _) H1), (proj2 (Z.leb_le _ _) H2).
Qed.

Lemma breaker_moves now st b :
  b_state b ≠ st → transition_to now st b = mkVenueBreaker st 0 0 (last_failure_at b) now.
Proof. intros H. unfold transition_to. by rewrite bool_decide_true. Qed.

Lemma represents_mono n n' b a : represents n b a → n ≤ n' → represents n' b a.
Proof. unfold represents. intuition lia. Qed.

Lemma new_breaker_represents n now : 0 ≤ n → represents n (new_breaker now) (Shut 0).
Proof. unfold represents; cbn. lia. Qed.

Section Simulation.

Context (checks : bool) (c : BreakerConfig).

Lemma failure_simulated n now now' b a :
  represents n b a → n + 1 < 2 ^ 32 →
  ∃ b', record_failure checks now now' c b = Some b' ∧ represents (n + 1) b' (breaker_step c (Failed now) a).
Proof.
  intros (Hf & Hs & Ha) Hn. unfold record_failure. rewrite plain_fits by (unfold fits; cbn; lia).
  eexists. split; [done|]. destruct b as [st f s lf lt]. destruct st, a; cbn in *; try done; subst; repeat case_match;
    rewrite ?breaker_moves by done; unfold represents; cbn in *; split_and!; done || lia.
Qed.

Lemma success_simulated n now' b a :
  represents n b a → n + 1 < 2 ^ 32 →
  ∃ b', record_success checks now' c b = Some b' ∧ represents (n + 1) b' (breaker_step c Succeeded a).
Proof.
  intros (Hf & Hs & Ha) Hn. unfold record_success. rewrite plain_fits by (unfold fits; cbn; lia).
  eexists. split; [done|]. destruct b as [st f s lf lt]. destruct st, a; cbn in *; try done; subst; repeat case_match;
    rewrite ?breaker_moves by done; unfold represents; cbn in *; split_and!; done || lia.
Qed.

Lemma check_simulated n now now' b a :
  represents n b a → in_range c →
  ∃ b', check_and_transition now now' c b = Some b' ∧ represents n b' (breaker_step c (Asked now) a) ∧
    bool_decide (b_state b' = BreakerState.Open) = refuses (breaker_step c (Asked now) a).
Proof.
  intros (Hf & Hs & Ha) Hc. unfold check_and_transition. rewrite duration_in_range by done.
  destruct b as [st f s lf lt]. destruct st, a; cbn in *; try done; subst; eexists; (split; [done|]);
    repeat case_match; rewrite ?breaker_moves by done; unfold represents; cbn in *; try done; split_and!; done || lia.
Qed.

(** The registry represents a machine per venue. *)
Definition mirrors (n : Z) (breakers : Breakers) (A : Str → Breaker) : Prop :=
  ∀ v now, represents n (default (new_breaker now) (breakers !! v)) (A v).

Lemma mirrors_insert n v b a breakers A :
  mirrors n breakers A → represents (n + 1) b a → mirrors (n + 1) (<[v := b]> breakers) (<[v := a]> A).
Proof.
  intros HA Hb w now. destruct (decide (w = v)) as [->|Hne].
  - by rewrite lookup_insert_eq, fn_lookup_insert.
  - rewrite lookup_insert_ne, fn_lookup_insert_ne by done. eapply represents_mono; [apply HA|lia].
Qed.

Lemma call_simulated n k breakers A :
  mirrors n breakers A → n + 1 < 2 ^ 32 → in_range c →
  let a := breaker_step c (c_event k) (A (c_venue k)) in
  ∃ breakers', registry_call checks c k breakers = Some (if c_event k is Asked _ then Some (refuses a) else None, breakers') ∧
    mirrors (n + 1) breakers' (<[c_venue k := a]> A).
Proof.
  intros HA Hn Hc. cbv zeta. unfold registry_call, record_result, is_venue_excluded. destruct (c_event k) as [now| |now].
  - destruct (failure_simulated n now (c_later k) _ _ (HA (c_venue k) now) Hn) as (b & -> & Hb).
    eexists. split; [done|]. by apply mirrors_insert.
  - destruct (success_simulated n (c_later k) _ _ (HA (c_venue k) (c_created k)) Hn) as (b & -> & Hb).
    eexists. split; [done|]. by apply mirrors_insert.
  - destruct (check_simulated n now (c_later k) _ _ (HA (c_venue k) now) Hc) as (b & -> & Hb & Hr). cbn. rewrite Hr.
    eexists. split; [done|]. apply mirrors_insert; [done|]. eapply represents_mono; [done|lia].
Qed.

(** What concerns one venue. *)
Definition events_of (v : Str) (ks : list Call) : list BreakerEvent :=
  omap (λ k, if decide (c_venue k = v) then Some (c_event k) else None) ks.

Definition answers_of (v : Str) (answers : list (Str * bool)) : list bool :=
  omap (λ '(w, r), if decide (w = v) then Some r else None) answers.

Lemma run_simulated n ks breakers A :
  mirrors n breakers A → n + Z.of_nat (length ks) < 2 ^ 32 → in_range c →
  ∃ answers breakers', registry_run checks c ks breakers = Some (answers, breakers') ∧
    (∀ v, answers_of v answers = fst (breaker_run c (events_of v ks) (A v))) ∧
    mirrors (n + Z.of_nat (length ks)) breakers' (λ v, snd (breaker_run c (events_of v ks) (A v))).
Proof.
  revert n breakers A. induction ks as [|k ks IH]; intros n breakers A HA Hn Hc.
  { eexists _, _. split_and!; [done..|]. by rewrite Z.add_0_r. }
  cbn [length] in Hn. destruct (call_simulated n k breakers A) as (breakers1 & E1 & HA1); [done|lia|done|].
  destruct (IH (n + 1) breakers1 _ HA1) as (answers & breakers2 & E2 & Hans & HA2); [lia|done|].
  cbn [registry_run]. rewrite E1, E2. eexists _, _. split; [done|].
  set (a := breaker_step c (c_event k) (A (c_venue k))) in *.
  assert (Hrun : ∀ v, breaker_run c (events_of v (k :: ks)) (A v) =
    let r := breaker_run c (events_of v ks) ((<[c_venue k := a]> A) v) in
    (if decide (c_venue k = v) then (if c_event k is Asked _ then refuses a :: fst r else fst r) else fst r, snd r)).
  { intros v. unfold events_of. cbn [omap list_omap]. destruct (decide (c_venue k = v)) as [<-|Hne].
    - rewrite fn_lookup_insert. cbn [breaker_run]. fold a. by destruct (breaker_run _ _ a).
    - rewrite fn_lookup_insert_ne by done. by destruct (breaker_run _ _ _). }
  split; intros v.
  - rewrite Hrun. cbv zeta. cbn [fst]. rewrite <- Hans. destruct (c_event k); cbn; by destruct (decide (c_venue k = v)).
  - intros now. rewrite Hrun. replace (n + Z.of_nat (length (k :: ks))) with (n + 1 + Z.of_nat (length ks)) by (cbn [length]; lia).
    apply HA2.
Qed.

End Simulation.

Definition state_of (a : Breaker) : BreakerState :=
  match a with
  | Shut _ => BreakerState.Closed
  | Tripped _ => BreakerState.Open
  | Probation _ => BreakerState.HalfOpen
  end.

Lemma represents_state n b a : represents n b a → b_state b = state_of a.
Proof. intros (_ & _ & H). by destruct (b_state b), a. Qed.

(** C33: The registry refines one three-state machine per venue. For a timeout of at most
    the largest [i64] over 1000 seconds in absolute value (a longer one panics, see
    [huge_timeout_panics]) and every sequence of fewer than 2^32 reports and questions
    about any venues, in both builds: no call panics, the answers about a venue and the
    state of its breaker are those of the machine run on the calls about that venue alone.
    The machine opens after the configured number of consecutive failures or at any
    failure on probation, goes on probation when asked after the timeout has passed since
    the last failure, and closes after the configured number of consecutive successes. *)
Theorem breakers_refine_machine checks c ks :
  in_range c → Z.of_nat (length ks) < 2 ^ 32 →
  ∃ answers breakers, registry_run checks c ks ∅ = Some (answers, breakers) ∧
    ∀ v, let m := breaker_run c (events_of v ks) (Shut 0) in
      answers_of v answers = fst m ∧
      default BreakerState.Closed (get_state v breakers) = state_of (snd m).
Proof.
  intros Hc Hn. destruct (run_simulated checks c 0 ks ∅ (λ _, Shut 0)) as (answers & breakers & E & Ha & Hm); [|done..|].
  { intros v now. rewrite lookup_empty. by apply new_breaker_represents. }
  eexists _, _. split; [done|]. intros v. split; [apply Ha|].
  rewrite <- (represents_state _ _ _ (Hm v 0)). unfold get_state. by destruct (breakers !! v).
Qed.

Definition demo_config : BreakerConfig := mkBreakerConfig 2 1 1.

Definition demo_calls : list Call :=
  [mkCall $"v1" (Failed 0) 0 0; mkCall $"v2" (Asked 1) 1 1; mkCall $"v1" (Failed 2) 2 2; mkCall $"v1" (Asked 3) 3 3;
   mkCall $"v1" (Asked NANOS) 3 3; mkCall $"v1" (Asked (NANOS + 2)) 3 3; mkCall $"v1" Succeeded 3 3].

Lemma breakers_refine_machine_witness :
  ∃ answers breakers, registry_run true demo_config demo_calls ∅ = Some (answers, breakers) ∧
    answers_of ($"v1") answers = [true; true; false] ∧ answers_of ($"v2") answers = [false] ∧
    default BreakerState.Closed (get_state ($"v1") breakers) = BreakerState.Closed.
Proof.
  destruct (breakers_refine_machine true demo_config demo_calls) as (answers & breakers & E & H); [done..|].
  exists answers, breakers. split; [exact E|]. destruct (H ($"v1")) as [H1 H2], (H ($"v2")) as [H3 _].
  split_and!; [by rewrite H1|by rewrite H3|by rewrite H2].
Defined.

(** A timeout that cannot be written in milliseconds makes the first question about an open
    breaker panic. *)
Example huge_timeout_panics :
  registry_run true (mkBreakerConfig 1 1 (int_max I64)) [mkCall $"v1" (Failed 0) 0 0; mkCall $"v1" (Asked 1) 1 1] ∅ = None.
Proof. by vm_compute. Qed.

(** ** Exclusion *)

(** The operator's overrides: a source that is switched off wins; then any inclusion;
    then the exclusion of the venue. *)
Definition switched_off (p : ExclusionPolicy) (v : ScoredVenue) : Prop :=
  source_entries (overrides p) (v_venue_type v) = Some ForceExclude ∨
  source_entries (overrides p) (v_venue_type v) = None ∧ venue_entries (overrides p) !! v_venue_ref v = Some ForceExclude.

Definition switched_on (p : ExclusionPolicy) (v : ScoredVenue) : Prop :=
  source_entries (overrides p) (v_venue_type v) = Some ForceInclude ∨
  source_entries (overrides p) (v_venue_type v) = None ∧ venue_entries (overrides p) !! v_venue_ref v = Some ForceInclude.

(** The venue's breaker is open and its last failure too recent. *)
Definition breaker_open (p : ExclusionPolicy) (now : Instant) (venue_ref : Str) (breakers : Breakers) : Prop :=
  ∃ c b, circuit_breaker p = Some c ∧ breakers !! venue_ref = Some b ∧ b_state b = BreakerState.Open ∧
    ∀ t, last_failure_at b = Some t → now - t < recovery_timeout_secs c * NANOS.

Definition barred (p : ExclusionPolicy) (now : Instant) (v : ScoredVenue) (breakers : Breakers) : Prop :=
  switched_off p v ∨
  ¬ switched_on p v ∧
  (breaker_open p now (v_venue_ref v) breakers ∨ flt (score (v_record v)) (threshold_for p (v_venue_type v)) = true).

Definition policy_in_range (p : ExclusionPolicy) : Prop := ∀ c, circuit_breaker p = Some c → in_range c.

Lemma override_decision_spec p v :
  match override_decision p (v_venue_ref v) (v_venue_type v) with
  | Some ForceExclude => switched_off p v
  | Some ForceInclude => switched_on p v ∧ ¬ switched_off p v
  | None => ¬ switched_on p v ∧ ¬ switched_off p v
  end.
Proof.
  unfold override_decision, switched_on, switched_off.
  destruct (source_entries (overrides p) (v_venue_type v)) as [[]|] eqn:Es, (venue_entries (overrides p) !! v_venue_ref v) as [[]|] eqn:Ev;
    cbn; naive_solver.
Qed.

(** Asking the breaker of one venue leaves the others alone. *)
Lemma breaker_excludes_spec p now now' venue_ref breakers :
  policy_in_range p →
  ∃ r breakers', breaker_excludes p now now' venue_ref breakers = Some (r, breakers') ∧
    (r = true ↔ breaker_open p now venue_ref breakers) ∧
    ∀ w, w ≠ venue_ref → breakers' !! w = breakers !! w.
Proof.
  intros Hp. unfold breaker_excludes, breaker_open. destruct (circuit_breaker p) as [c|] eqn:Ec.
  2: { eexists _, _. split_and!; [done| |done]. naive_solver. }
  specialize (Hp c Ec). unfold is_venue_excluded, check_and_transition. rewrite duration_in_range by done.
  destruct (breakers !! venue_ref) as [b|] eqn:Eb; cbn [default from_option id].
  2: { eexists _, _. split_and!; [done| |by intros; rewrite lookup_insert_ne]. cbn. naive_solver. }
  destruct (decide (b_state b = BreakerState.Open)) as [Est|Est].
  2: { rewrite bool_decide_false by done. eexists _, _; (split_and!; [done| |by intros; rewrite lookup_insert_ne]).
       rewrite bool_decide_false by done. naive_solver. }
  rewrite bool_decide_true by done. destruct (last_failure_at b) as [t|] eqn:Et; [destruct (recovery_timeout_secs c * NANOS <=? now - t) eqn:El|];
    eexists _, _; (split_and!; [done| |by intros; rewrite lookup_insert_ne]).
  - rewrite breaker_moves by (by rewrite Est). cbn. split; [done|]. intros (c' & b' & [= <-] & [= <-] & _ & H).
    specialize (H t Et). lia.
  - rewrite bool_decide_true by done. split; [|done]. intros _. exists c, b. split_and!; try done. rewrite Et. intros ? [= <-]. lia.
  - rewrite bool_decide_true by done. split; [|done]. intros _. exists c, b. rewrite Et. naive_solver.
Qed.

Lemma judge_spec p now now' v breakers :
  policy_in_range p →
  ∃ reason breakers', judge p now now' v breakers = Some (reason, breakers') ∧
    (is_Some reason ↔ barred p now v breakers) ∧ ∀ w, w ≠ v_venue_ref v → breakers' !! w = breakers !! w.
Proof.
  intros Hp. pose proof (override_decision_spec p v) as Ho. unfold judge, barred.
  destruct (override_decision _ _ _) as [[]|].
  - eexists _, _. split_and!; [done| |done]. rewrite is_Some_alt. naive_solver.
  - eexists _, _. split_and!; [done| |done]. naive_solver.
  - destruct (breaker_excludes_spec p now now' (v_venue_ref v) breakers Hp) as (r & breakers' & -> & Hr & Hw).
    destruct r; eexists _, _; (split_and!; [done| |done]).
    + naive_solver.
    + assert (¬ breaker_open p now (v_venue_ref v) breakers) by (intros Hb%Hr; done).
      destruct (flt _ _); rewrite is_Some_alt; naive_solver.
Qed.

(** No other thread changes the breakers meanwhile. *)
Definition quiet (scored : list (ScoredVenue * Moment)) : Prop := Forall (λ vm, ∀ b, m_others (vm.2) b = b) scored.

Lemma apply_spec p scored breakers :
  policy_in_range p → quiet scored → NoDup ((λ vm, v_venue_ref (vm.1)) <$> scored) →
  ∃ infos breakers', apply p scored breakers = Some (infos, breakers') ∧
    ∀ r, r ∈ x_venue_ref <$> infos ↔ ∃ v m, (v, m) ∈ scored ∧ v_venue_ref v = r ∧ barred p (m_now m) v breakers.
Proof.
  intros Hp Hq. revert breakers. induction Hq as [|[v m] scored Hm Hq IH]; intros breakers Hnd.
  { eexists _, _. split; [done|]. intros r. cbn. split; [by intros ?%elem_of_nil|]. intros (? & ? & ?%elem_of_nil & _). done. }
  apply NoDup_cons in Hnd as [Hv Hnd]. cbn [apply]. cbn [snd] in Hm. rewrite Hm.
  destruct (judge_spec p (m_now m) (m_now' m) v breakers Hp) as (reason & breakers1 & -> & Hr & Hw).
  destruct (IH breakers1 Hnd) as (infos & breakers2 & -> & Hi).
  assert (Hsame : ∀ v' m', (v', m') ∈ scored → barred p (m_now m') v' breakers1 ↔ barred p (m_now m') v' breakers).
  { intros v' m' Hin. unfold barred, breaker_open. rewrite Hw; [done|]. intros E. apply Hv. cbn. rewrite <- E.
    apply list_elem_of_fmap. by exists (v', m'). }
  eexists _, _. split; [done|]. intros r.
  transitivity ((v_venue_ref v = r ∧ barred p (m_now m) v breakers) ∨ r ∈ x_venue_ref <$> infos).
  - rewrite <- Hr. destruct reason as [x|]; cbn; rewrite ?elem_of_cons, is_Some_alt; naive_solver.
  - rewrite Hi. setoid_rewrite elem_of_cons. split.
    + intros [[? ?]|(v' & m' & Hin & ? & Hb)]; [by eauto 10|]. exists v', m'. rewrite <- Hsame by done. eauto.
    + intros (v' & m' & [[= -> ->]|Hin] & ? & Hb); [by left|]. right. exists v', m'. by rewrite Hsame.
Qed.

(** C32: The filtered graph holds exactly the edges that may be used. For a policy whose
    breaker timeout, if it has one, is at most the largest [i64] over 1000 seconds in
    absolute value, scored venues with distinct references, and no other task reporting to
    the registry meanwhile: the filter returns, and an edge is kept if and only if it is in
    the graph, is not a bridge, its provider is allowed, and no scored venue of its
    reference is barred, that is, switched off by the operator, or not switched on and with
    an open breaker whose last failure is younger than the timeout or with a score below
    the threshold. *)
Theorem filtered_graph_exact p edges scored providers breakers :
  policy_in_range p → quiet scored → NoDup ((λ vm, v_venue_ref (vm.1)) <$> scored) →
  ∃ kept infos breakers', filter_edges_with_providers p edges scored providers breakers = Some (kept, infos, breakers') ∧
    ∀ e, e ∈ kept ↔
      e ∈ edges ∧ is_bridge_edge (e_venue_type e) (e_bridge e) = false ∧
      (∀ policy, providers = Some policy → provider_allowed policy (provider_of (e_provider e) (e_bridge e)) = true) ∧
      ¬ ∃ v m, (v, m) ∈ scored ∧ v_venue_ref v = e_venue_ref e ∧ barred p (m_now m) v breakers.
Proof.
  intros Hp Hq Hnd. destruct (apply_spec p scored breakers Hp Hq Hnd) as (infos & breakers' & E & Hi).
  unfold filter_edges_with_providers. rewrite E. eexists _, _, _. split; [done|]. intros e.
  rewrite list_elem_of_filter, <- Hi. unfold keep_edge.
  rewrite !andb_true_iff, !negb_true_iff, bool_decide_eq_false, elem_of_list_to_set. destruct providers; naive_solver.
Qed.

Definition demo_scored (venue_ref : Str) (s : f64) : ScoredVenue :=
  mkScoredVenue venue_ref VenueType.Sdex
    (mkHealthRecord venue_ref VenueType.Sdex s (mkSignals None None 0) 0).

Definition demo_policy : ExclusionPolicy :=
  mkExclusionPolicy default_thresholds
    (from_entries [mkOverrideEntry ($"venue:C") ForceExclude; mkOverrideEntry ($"venue:D") ForceInclude]) (Some demo_config).

Definition demo_moment : Moment := mkMoment 5 5 id.

Definition demo_edge (venue_ref : Str) : LiquidityEdge f64 :=
  mkLiquidityEdge f64 $"XLM" $"USDC" $"sdex" venue_ref 1000 fone 30 None None.

(** A healthy venue, one below the threshold, one excluded, one included, one whose
    breaker is open. *)
Definition demo_graph : list (LiquidityEdge f64) :=
  demo_edge <$> [$"venue:A"; $"venue:B"; $"venue:C"; $"venue:D"; $"venue:E"].

Definition demo_venues : list (ScoredVenue * Moment) :=
  (λ '(r, s), (demo_scored r s, demo_moment)) <$>
    [($"venue:A", fone); ($"venue:B", fzero); ($"venue:C", fone); ($"venue:D", fzero); ($"venue:E", fone)].

Definition demo_breakers : Breakers := {[ $"venue:E" := mkVenueBreaker BreakerState.Open 0 0 (Some 4) 4 ]}.

Lemma filtered_graph_exact_witness :
  ∃ kept infos breakers', filter_edges demo_policy demo_graph demo_venues demo_breakers = Some (kept, infos, breakers') ∧
    kept = demo_edge <$> [$"venue:A"; $"venue:D"] ∧
    ¬ (∃ v m, (v, m) ∈ demo_venues ∧ v_venue_ref v = $"venue:A" ∧ barred demo_policy (m_now m) v demo_breakers).
Proof.
  destruct (filtered_graph_exact demo_policy demo_graph demo_venues None demo_breakers) as (kept & infos & breakers' & E & H).
  - intros c [= <-]. done.
  - repeat (constructor; [done|]). constructor.
  - vm_compute. apply (bool_decide_unpack _). vm_compute. exact I.
  - exists kept, infos, breakers'. split; [exact E|].
    assert (Ek : kept = demo_edge <$> [$"venue:A"; $"venue:D"]).
    { apply (f_equal (fmap (λ r, r.1.1))) in E. vm_compute in E. injection E as <-. reflexivity. }
    split; [exact Ek|]. intros Hb. destruct (proj1 (H (demo_edge ($"venue:A")))) as (_ & _ & _ & Hn).
    { rewrite Ek. left. }
    exact (Hn Hb).
Defined.

(** A venue that is barred whatever the breakers say is excluded, whatever other threads
    do meanwhile. *)
Lemma apply_bars p scored breakers v m :
  policy_in_range p → (v, m) ∈ scored → (∀ b, barred p (m_now m) v b) →
  ∃ infos breakers', apply p scored breakers = Some (infos, breakers') ∧ v_venue_ref v ∈ x_venue_ref <$> infos.
Proof.
  intros Hp. revert breakers.
  assert (Htotal : ∀ l b, ∃ r, apply p l b = Some r).
  { intros l. induction l as [|[v' m'] l IH]; intros b; cbn [apply]; [by eexists|].
    destruct (judge_spec p (m_now m') (m_now' m') v' (m_others m' b) Hp) as (? & b1 & -> & _).
    destruct (IH b1) as [[? ?] ->]. by eexists. }
  induction scored as [|[v' m'] scored IH]; intros breakers Hin Hb; [by apply elem_of_nil in Hin|]. cbn [apply].
  destruct (judge_spec p (m_now m') (m_now' m') v' (m_others m' breakers) Hp) as (reason & b1 & -> & Hr & _).
  apply elem_of_cons in Hin as [[= -> ->]|Hin].
  - destruct (Htotal scored b1) as [[infos b2] ->]. eexists _, _. split; [done|].
    destruct (proj2 Hr (Hb _)) as [x ->]. left.
  - destruct (IH b1 Hin Hb) as (infos & b2 & -> & H). eexists _, _. split; [done|]. destruct reason; [by right|done].
Qed.

(** A venue whose market data is missing or older than the limit, or which has no
    liquidity, is never routed through: whatever the other venues, the providers, the
    breakers and the other threads, no edge with its reference is kept by the filter,
    unless the operator has switched it on or its threshold is not positive. *)
Theorem unusable_venue_unroutable p sdex amm input now m edges scored providers breakers :
  policy_in_range p → unusable sdex amm input now →
  (score_venue sdex amm input now, m) ∈ scored →
  flt fzero (threshold_for p (i_venue_type input)) = true →
  ¬ switched_on p (score_venue sdex amm input now) →
  ∃ kept infos breakers', filter_edges_with_providers p edges scored providers breakers = Some (kept, infos, breakers') ∧
    ∀ e, e ∈ kept → e_venue_ref e ≠ i_venue_ref input.
Proof.
  intros Hp Hu Hin Ht Hon.
  destruct (apply_bars p scored breakers _ m Hp Hin) as (infos & breakers' & E & Hi).
  { intros b. right. split; [done|]. right. by rewrite score_venue_unusable. }
  unfold filter_edges_with_providers. rewrite E. eexists _, _, _. split; [done|].
  intros e [Hk _]%list_elem_of_filter Er. unfold keep_edge in Hk.
  rewrite !andb_true_iff, negb_true_iff, bool_decide_eq_false, elem_of_list_to_set in Hk.
  destruct Hk as [[Hk _] _]. apply Hk. rewrite Er. exact Hi.
Qed.

Lemma unusable_venue_unroutable_witness :
  ∃ kept infos breakers',
    filter_edges_with_providers demo_policy [demo_edge ($"pool:B")] [(score_venue demo_sdex demo_amm demo_pool 0, demo_moment)] None ∅
      = Some (kept, infos, breakers') ∧
    ∀ e, e ∈ kept → e_venue_ref e ≠ $"pool:B".
Proof.
  apply (unusable_venue_unroutable demo_policy demo_sdex demo_amm demo_pool 0 demo_moment).
  - intros c [= <-]. done.
  - left. done.
  - left.
  - vm_compute. reflexivity.
  - intros [H|[_ H]]; vm_compute in H; discriminate H.
Defined.

(** ** Freshness *)

(** Every venue is classified once; data that is fresh is not stale for the scores with
    the same limit. *)
Lemma note_spec th now inputs idx o :
  let r := fold_left (note th now) inputs (idx, o) in
  fst r = idx + Z.of_nat (length inputs) ∧
  fresh_indices (snd r) ++ stale_indices (snd r) ≡ₚ
    (fresh_indices o ++ stale_indices o) ++ seqZ idx (Z.of_nat (length inputs)).
Proof.
  cbv zeta. revert idx o. induction inputs as [|i inputs IH]; intros idx o; cbn [fold_left length].
  - cbn. rewrite seqZ_nil, app_nil_r by lia. split; [lia|done].
  - destruct (note th now (idx, o) i) as [idx' o'] eqn:E. destruct (IH idx' o') as [-> ->].
    unfold note in E. injection E as <- <-. split; [lia|].
    rewrite (seqZ_cons idx) by lia. replace (Z.pred (Z.of_nat (S (length inputs)))) with (Z.of_nat (length inputs)) by lia.
    replace (Z.succ idx) with (idx + 1) by lia.
    destruct (is_fresh _); cbn [fresh_indices stale_indices]; solve_Permutation.
Qed.

Lemma classify_fresh_age input th now sdex amm :
  ft_sdex th = sdex_staleness_threshold_secs sdex → ft_amm th = amm_staleness_threshold_secs amm →
  is_fresh (classify input th now) = true →
  staleness now (last_updated_at input) ≤ Z.max 0 (limit_for sdex amm (i_venue_type input)).
Proof.
  intros Es Ea. unfold classify, staleness. destruct (last_updated_at input) as [t|]; [|done]. cbn [is_fresh].
  intros Hf%Z.leb_le. unfold num_seconds, num_milliseconds, NANOS in *.
  assert (Hl : (if Z.quot (now - t) (10 ^ 6) <=? 0 then 0 else (Z.quot (now - t) (10 ^ 6) + 999) / 1000) ≤ limit_for sdex amm (i_venue_type input))
    by (destruct (i_venue_type input); cbn [limit_for]; lia).
  destruct (Z.le_gt_cases 0 (now - t)) as [Hp|Hn].
  - rewrite !Z.quot_div_nonneg in * by lia.
    pose proof (Z.div_mod (now - t) (10 ^ 6)). pose proof (Z.mod_pos_bound (now - t) (10 ^ 6)).
    destruct (_ <=? 0) eqn:E.
    + apply Z.max_case_strong; [|lia]. intros _. transitivity 0; [|lia]. enough ((now - t) / 10 ^ 9 < 1) by lia.
      apply Z.div_lt_upper_bound; lia.
    + pose proof (Z.div_mod ((now - t) / 10 ^ 6 + 999) 1000). pose proof (Z.mod_pos_bound ((now - t) / 10 ^ 6 + 999) 1000).
      apply Z.max_lub; [|lia]. enough ((now - t) / 10 ^ 9 < limit_for sdex amm (i_venue_type input) + 1) by lia.
      apply Z.div_lt_upper_bound; lia.
  - assert (Z.quot (now - t) (10 ^ 9) ≤ 0); [|lia].
    rewrite <- (Z.opp_involutive (now - t)), Z.quot_opp_l by lia. pose proof (Z.quot_pos (- (now - t)) (10 ^ 9)). lia.
Qed.

Theorem freshness_partition inputs th now :
  fresh_indices (evaluate inputs th now) ++ stale_indices (evaluate inputs th now) ≡ₚ seqZ 0 (Z.of_nat (length inputs)).
Proof. unfold evaluate. by destruct (note_spec th now inputs 0 (mkFreshnessOutcome [] [] 0)) as [_ ->]. Qed.
