(* ===== verification/Optimizer.v ===== *)
(** * Pricing and choice of routes (routing: impact.rs, risk.rs, compaction.rs, scorer.rs,
      optimizer.rs, simulator.rs)

    The calculators of order books and pools, the limits on risk, the compact form of the
    graph, the scorers, and the optimizer that chooses among the paths that were found.
    A panic is a [Fault]. The time that is spent on a route is an argument. *)

From stdpp Require Import base decidable strings numbers list gmap.
From Stdlib Require Import SpecFloat.
From S2P Require Import Prelude RustStr Result F64 ChainAsset Policy Pathfinder.

Local Open Scope Z_scope.
Local Open Scope str_scope.
Local Open Scope result_scope.

Abbreviation Edge := (LiquidityEdge f64) (only parsing).
Abbreviation Hop := (PathHop f64) (only parsing).
Abbreviation Path := (SwapPath f64) (only parsing).

(** A result of code that may panic. *)
Abbreviation R A := (Result A (Fault RoutingError)) (only parsing).

Definition InvalidAmount {A} (msg : Str) : R A := Err (Raised (RoutingError.InvalidAmount msg)).
Definition InsufficientLiquidity {A} (msg : Str) : R A := Err (Raised (RoutingError.InsufficientLiquidity msg)).

Definition SCALE_1E7 : Z := 10000000.
Definition BASIS_POINTS : Z := 10000.

(** ** impact.rs *)

Module Impact.

Section Impact.

(** Whether the build traps on arithmetic overflow. *)
Variable checks : bool.

(** Plain arithmetic of [i128], and its checked forms. *)
Definition plain128 (z : Z) : R Z := ok_or (plain checks I128 z) Panic.
Definition checked128 (z : Z) : R Z := ok_or (chk I128 z) (Raised RoutingError.Overflow).

(** How far a price is above another, in basis points, as [u32]. *)
Definition impact_above (price baseline : Z) : R Z :=
  if baseline <? price then
    diff ← plain128 (price - baseline);
    scaled ← plain128 (diff * BASIS_POINTS);
    if baseline =? 0 then Err Panic else Ok (wrap U32 (Z.quot scaled baseline))
  else Ok 0.

(** Levels are (price, available amount); fills are (amount, price). *)
Fixpoint fill_levels (levels : list (Z * Z)) (remaining total_cost : Z) (fills : list (Z * Z)) :
    R (Z * Z * list (Z * Z)) :=
  match levels with
  | [] => Ok (remaining, total_cost, fills)
  | (price, available) :: rest =>
      if (price <=? 0) || (available <=? 0) then InvalidAmount $"invalid level"
      else if remaining =? 0 then Ok (remaining, total_cost, fills)
      else
        let fill_amount := Z.min remaining available in
        product ← plain128 (fill_amount * price);
        total_cost ← checked128 (total_cost + Z.quot product SCALE_1E7);
        fill_levels rest (remaining - fill_amount) total_cost (fills ++ [(fill_amount, price)])
  end.

Definition calculate_impact (amount_in : Z) (levels : list (Z * Z)) : R (Z * Z * list (Z * Z)) :=
  if amount_in <=? 0 then InvalidAmount $"amount_in must be positive"
  else match levels with
  | [] => InsufficientLiquidity $"empty orderbook"
  | (baseline_price, _) :: _ =>
      ' (remaining, total_cost, fills) ← fill_levels levels amount_in 0 [];
      if 0 <? remaining then
        InsufficientLiquidity ($"insufficient liquidity: " ++ display remaining ++ $" remaining")
      else
        scaled ← plain128 (total_cost * SCALE_1E7);
        let effective_price := Z.quot scaled amount_in in
        impact_bps ← impact_above effective_price baseline_price;
        Ok (impact_bps, effective_price, fills)
  end.

Definition is_book_valid (levels : list (Z * Z)) : bool :=
  negb (bool_decide (levels = [])) && forallb (λ '(p, a), (0 <? p) && (0 <? a)) levels.

Definition quote_constant_product (amount_in reserve_in reserve_out fee_bps : Z) : R (Z * Z) :=
  if amount_in <=? 0 then InvalidAmount $"amount_in must be positive"
  else if (reserve_in <=? 0) || (reserve_out <=? 0) then InvalidAmount $"reserves must be positive"
  else if 10000 <? fee_bps then InvalidAmount $"fee_bps must be in [0, 10000]"
  else
    product ← plain128 (amount_in * (10000 - fee_bps));
    let amount_in_with_fee := Z.quot product 10000 in
    numerator ← checked128 (amount_in_with_fee * reserve_out);
    denominator ← checked128 (reserve_in + amount_in_with_fee);
    if denominator =? 0 then InvalidAmount $"invalid reserve state"
    else
      let output := Z.quot numerator denominator in
      if output <=? 0 then InsufficientLiquidity $"zero output from AMM"
      else
        before ← plain128 (reserve_out * SCALE_1E7);
        after ← plain128 (amount_in * SCALE_1E7);
        impact_bps ← impact_above (Z.quot after output) (Z.quot before reserve_in);
        Ok (output, impact_bps).

Definition quote_constant_product_reverse (amount_out reserve_in reserve_out fee_bps : Z) : R (Z * Z) :=
  if (amount_out <=? 0) || (reserve_out <=? amount_out) then InvalidAmount $"invalid amount_out"
  else if (reserve_in <=? 0) || (reserve_out <=? 0) then InvalidAmount $"reserves must be positive"
  else
    numerator ← checked128 (reserve_in * amount_out);
    denominator ← checked128 (reserve_out - amount_out);
    if denominator <=? 0 then InsufficientLiquidity $"insufficient reserve_out"
    else
      input_before_fee ← checked128 (Z.quot numerator denominator + 1);
      let fee_divisor := 10000 - fee_bps in
      if fee_divisor <=? 0 then InvalidAmount $"invalid fee"
      else
        scaled ← plain128 (input_before_fee * 10000);
        input_required ← plain128 (Z.quot scaled fee_divisor + 1);
        before ← plain128 (reserve_out * SCALE_1E7);
        after ← plain128 (input_required * SCALE_1E7);
        impact_bps ← impact_above (Z.quot after amount_out) (Z.quot before reserve_in);
        Ok (input_required, impact_bps).

Definition validate_trade_size (amount_in reserve_in : Z) : R unit :=
  if Z.quot reserve_in 2 <? amount_in then InvalidAmount $"trade size exceeds 50% of reserve"
  else if amount_in <? 1000000 then InvalidAmount $"trade size too small"
  else Ok tt.

End Impact.

End Impact.

(** ** risk.rs *)

Module ExclusionReason.

Inductive ExclusionReason :=
| MaxExposureExceeded
| MaxImpactExceeded
| LiquidityBelowFloor
| AssetBlacklisted
| LiquidityAnomaly
| ProviderKillSwitch.

(** [Display] *)
Definition to_string (r : ExclusionReason) : Str :=
  match r with
  | MaxExposureExceeded => $"max_exposure_exceeded"
  | MaxImpactExceeded => $"max_impact_exceeded"
  | LiquidityBelowFloor => $"liquidity_below_floor"
  | AssetBlacklisted => $"asset_blacklisted"
  | LiquidityAnomaly => $"liquidity_anomaly"
  | ProviderKillSwitch => $"provider_kill_switch"
  end.

End ExclusionReason.

Abbreviation ExclusionReason := ExclusionReason.ExclusionReason (only parsing).

Record RouteExclusion := mkRouteExclusion {
  x_asset : Str;
  x_reason : ExclusionReason;
  limit_value : Z;
  actual_value : Z;
}.

Record AssetRiskLimit := mkAssetRiskLimit {
  max_exposure : Z;
  r_max_impact_bps : Z;
  liquidity_floor : Z;
  blacklisted : bool;
}.

Record RiskLimitConfig := mkRiskLimitConfig {
  global_defaults : AssetRiskLimit;
  per_asset : gmap Str AssetRiskLimit;
  provider_kill_switches : gmap Str bool;
}.

Module Risk.

(** [AssetRiskLimit::default] *)
Definition default_limit : AssetRiskLimit := mkAssetRiskLimit (int_max I128) 500 1000000 false.
Definition strict : AssetRiskLimit := mkAssetRiskLimit 10000000000 100 100000000 false.
Definition permissive : AssetRiskLimit := mkAssetRiskLimit (int_max I128) 1000 100000 false.

(** [RiskLimitConfig::new] *)
Definition new (global_defaults : AssetRiskLimit) : RiskLimitConfig := mkRiskLimitConfig global_defaults ∅ ∅.
Definition strict_policy : RiskLimitConfig := new strict.
Definition permissive_policy : RiskLimitConfig := new permissive.

(** Also [with_asset_limit]. *)
Definition set_asset_limit (c : RiskLimitConfig) (asset : Str) (limit : AssetRiskLimit) : RiskLimitConfig :=
  mkRiskLimitConfig (global_defaults c) (<[asset := limit]> (per_asset c)) (provider_kill_switches c).

Definition remove_asset_limit (c : RiskLimitConfig) (asset : Str) : RiskLimitConfig * option AssetRiskLimit :=
  (mkRiskLimitConfig (global_defaults c) (delete asset (per_asset c)) (provider_kill_switches c), per_asset c !! asset).

Definition with_provider_kill_switch (c : RiskLimitConfig) (provider : Str) (disabled : bool) : RiskLimitConfig :=
  mkRiskLimitConfig (global_defaults c) (per_asset c) (<[provider := disabled]> (provider_kill_switches c)).

Definition is_provider_killed (c : RiskLimitConfig) (provider : Str) : bool :=
  default false (provider_kill_switches c !! provider).

Definition get_limit (c : RiskLimitConfig) (asset : Str) : AssetRiskLimit :=
  default (global_defaults c) (per_asset c !! asset).

(** The checks of one value of an asset: not blacklisted, and within its limit. *)
Definition validate_value (c : RiskLimitConfig) (asset : Str) (exceeded : AssetRiskLimit → bool) (reason : ExclusionReason)
    (limit : AssetRiskLimit → Z) (actual : Z) : Result unit RouteExclusion :=
  let l := get_limit c asset in
  if blacklisted l then Err (mkRouteExclusion asset ExclusionReason.AssetBlacklisted 0 actual)
  else reject (exceeded l) (mkRouteExclusion asset reason (limit l) actual).

Definition validate_exposure (c : RiskLimitConfig) (asset : Str) (exposure : Z) : Result unit RouteExclusion :=
  validate_value c asset (λ l, max_exposure l <? exposure) ExclusionReason.MaxExposureExceeded max_exposure exposure.

Definition validate_impact (c : RiskLimitConfig) (asset : Str) (impact_bps : Z) : Result unit RouteExclusion :=
  validate_value c asset (λ l, r_max_impact_bps l <? impact_bps) ExclusionReason.MaxImpactExceeded r_max_impact_bps impact_bps.

Definition validate_liquidity (c : RiskLimitConfig) (asset : Str) (liquidity : Z) : Result unit RouteExclusion :=
  validate_value c asset (λ l, liquidity <? liquidity_floor l) ExclusionReason.LiquidityBelowFloor liquidity_floor liquidity.

Definition validate_provider (c : RiskLimitConfig) (provider : Str) : Result unit RouteExclusion :=
  reject (is_provider_killed c provider) (mkRouteExclusion provider ExclusionReason.ProviderKillSwitch 0 1).

Definition error_of {E} (r : Result unit E) : list E :=
  match r with
  | Ok _ => []
  | Err e => [e]
  end.

(** [if exclusions.is_empty() { Ok(()) } else { Err(exclusions) }] *)
Definition unless_any {E} (l : list E) : Result unit (list E) :=
  match l with
  | [] => Ok tt
  | _ => Err l
  end.

Definition validate_route_hop (c : RiskLimitConfig) (asset : Str) (exposure impact_bps liquidity : Z) (provider : option Str) :
    Result unit (list RouteExclusion) :=
  unless_any (error_of (validate_exposure c asset exposure) ++ error_of (validate_impact c asset impact_bps) ++
              error_of (validate_liquidity c asset liquidity) ++
              from_option (λ p, error_of (validate_provider c p)) [] provider).

Definition validate_route (c : RiskLimitConfig) (asset : Str) (exposure impact_bps liquidity : Z) :
    Result unit (list RouteExclusion) :=
  validate_route_hop c asset exposure impact_bps liquidity None.

Definition validate_route_hops (c : RiskLimitConfig) (hops : list (Str * Z * Z * Z * option Str)) :
    Result unit (list RouteExclusion) :=
  unless_any (flat_map (λ '(asset, exposure, impact_bps, liquidity, provider),
                match validate_route_hop c asset exposure impact_bps liquidity provider with
                | Ok _ => []
                | Err l => l
                end) hops).

End Risk.

(** ** compaction.rs *)

Record CompactedEdge := mkCompactedEdge {
  to_idx : Z;
  c_venue_type : Str;
  venue_type_idx : Z;
  c_venue_ref : Str;
  c_liquidity : Z;
  c_price : f64;
  c_fee_bps : Z;
  c_anomaly_score : f64;
  c_provider : option Str;
  c_bridge : option BridgeEdgeMeta;
}.

Record CompactedGraph := mkCompactedGraph {
  assets : list Str;
  asset_map : gmap Str Z;
  edges : list CompactedEdge;
  offsets : list nat;
}.

Module Compaction.

Definition resolved_venue_type (e : CompactedEdge) : Str :=
  if negb (bool_decide (c_venue_type e = [])) then c_venue_type e
  else if venue_type_idx e =? 1 then $"amm"
  else if venue_type_idx e =? 2 then $"bridge"
  else if venue_type_idx e =? 0 then $"sdex"
  else $"unknown".

Definition is_amm (e : CompactedEdge) : bool :=
  bool_decide (resolved_venue_type e = $"amm") || (venue_type_idx e =? 1).

Definition venue_type_idx_for (venue_type : Str) (bridge : option BridgeEdgeMeta) : Z :=
  if eq_ignore_ascii_case venue_type $"amm" then 1
  else if eq_ignore_ascii_case venue_type $"bridge" || bool_decide (is_Some bridge) then 2
  else if eq_ignore_ascii_case venue_type $"sdex" then 0
  else 255.

(** [get_asset_idx], on the map and the list of assets. *)
Definition enter_asset (s : gmap Str Z * list Str) (asset : Str) : gmap Str Z * list Str :=
  match s.1 !! asset with
  | Some _ => s
  | None => (<[asset := wrap U32 (Z.of_nat (length s.2))]> s.1, s.2 ++ [asset])
  end.

Definition enter_assets (l : list Edge) : gmap Str Z * list Str :=
  fold_left (λ s e, enter_asset (enter_asset s (e_from e)) (e_to e)) l (∅, []).

(** Every asset was entered: the [unwrap] does not fail. *)
Definition index_of (m : gmap Str Z) (asset : Str) : Z := default 0 (m !! asset).

Definition compact (m : gmap Str Z) (e : Edge) : CompactedEdge :=
  mkCompactedEdge (index_of m (e_to e)) (e_venue_type e) (venue_type_idx_for (e_venue_type e) (e_bridge e)) (e_venue_ref e)
    (e_liquidity e) (e_price e) (e_fee_bps e) fzero (e_provider e) (e_bridge e).

Definition group_edges (m : gmap Str Z) (l : list Edge) : gmap Z (list CompactedEdge) :=
  fold_left (λ grouped e,
    let from_idx := index_of m (e_from e) in
    <[from_idx := default [] (grouped !! from_idx) ++ [compact m e]]> grouped) l ∅.

(** The loop over the assets: the groups, the edges and the offsets so far. *)
Definition lay_out (s : gmap Z (list CompactedEdge) * list CompactedEdge * list nat) (i : nat) :
    gmap Z (list CompactedEdge) * list CompactedEdge * list nat :=
  let '(grouped, final_edges, offs) := s in
  let k := wrap U32 (Z.of_nat i) in
  (delete k grouped, final_edges ++ default [] (grouped !! k), offs ++ [length final_edges]).

Definition from_edges (l : list Edge) : CompactedGraph :=
  let '(m, names) := enter_assets l in
  let '(_, final_edges, offs) := fold_left lay_out (seq 0 (length names)) (group_edges m l, [], []) in
  mkCompactedGraph names m final_edges (offs ++ [length final_edges]).

(** Indexing out of range panics ([None]). *)
Definition get_neighbors (g : CompactedGraph) (i : nat) : option (list CompactedEdge) :=
  offsets g !! i ≫= λ start,
  offsets g !! S i ≫= λ fin,
  if (start <=? fin)%nat && (fin <=? length (edges g))%nat then Some (take (fin - start) (drop start (edges g))) else None.

Definition neighbors (g : CompactedGraph) (idx : Z) : R (list CompactedEdge) := ok_or (get_neighbors g (Z.to_nat idx)) Panic.

(** The first edge with the venue is updated. *)
Fixpoint update_first (venue_ref : Str) (liquidity : Z) (price : f64) (l : list CompactedEdge) : option (list CompactedEdge) :=
  match l with
  | [] => None
  | e :: rest =>
      if bool_decide (c_venue_ref e = venue_ref) then
        Some (mkCompactedEdge (to_idx e) (c_venue_type e) (venue_type_idx e) (c_venue_ref e) liquidity price (c_fee_bps e)
                (c_anomaly_score e) (c_provider e) (c_bridge e) :: rest)
      else cons e <$> update_first venue_ref liquidity price rest
  end.

Definition update_edge (g : CompactedGraph) (from venue_ref : Str) (liquidity : Z) (price : f64) :
    Result (CompactedGraph * bool) (Fault RoutingError) :=
  match asset_map g !! from with
  | None => Ok (g, false)
  | Some idx =>
      let i := Z.to_nat idx in
      slice ← neighbors g idx;
      start ← ok_or (offsets g !! i) Panic;
      match update_first venue_ref liquidity price slice with
      | None => Ok (g, false)
      | Some slice' =>
          Ok (mkCompactedGraph (assets g) (asset_map g)
                (take start (edges g) ++ slice' ++ drop (start + length slice) (edges g)) (offsets g), true)
      end
  end.

Definition restore (g : CompactedGraph) (from : Str) (e : CompactedEdge) : option Edge :=
  (λ to, mkLiquidityEdge f64 from to (resolved_venue_type e) (c_venue_ref e) (c_liquidity e) (c_price e) (c_fee_bps e)
           (c_provider e) (c_bridge e)) <$> assets g !! Z.to_nat (to_idx e).

(** The edges of the assets from the [i]-th on; [None]: a panic. *)
Fixpoint edges_from (g : CompactedGraph) (i : nat) (names : list Str) : option (list Edge) :=
  match names with
  | [] => Some []
  | from :: names =>
      get_neighbors g i ≫= λ l,
      mapM (restore g from) l ≫= λ l,
      edges_from g (S i) names ≫= λ rest,
      Some (l ++ rest)
  end.

Definition to_edges (g : CompactedGraph) : option (list Edge) := edges_from g 0 (assets g).

End Compaction.

(** ** scorer.rs *)

(** optimizer.rs *)
Record OptimizerPolicy := mkOptimizerPolicy {
  output_weight : f64;
  impact_weight : f64;
  latency_weight : f64;
  max_impact_bps : Z;
  max_compute_time_ms : Z;
  environment : Str;
  scorer : option Str;
}.

Record ScorerInput := mkScorerInput {
  si_output_amount : Z;
  si_impact_bps : Z;
  si_compute_time_us : Z;
  si_hop_count : Z;
  si_policy : OptimizerPolicy;
}.

Record ScorerOutput := mkScorerOutput {
  so_score : f64;
  so_diagnostics : option (gmap Str f64);
}.

(** The trait, which other code may implement. *)
Definition RouteScorer : Type := ScorerInput → ScorerOutput.

Record ScorerRegistry := mkScorerRegistry {
  scorers : gmap Str RouteScorer;
  active : Str;
}.

Module Scorer.

Definition one : f64 := of_int 1.
Definition OUTPUT_NORM : f64 := of_int 1000000000.
Definition IMPACT_NORM : f64 := of_int 1000.
Definition LATENCY_NORM : f64 := of_int 1000000.

(** [x.min(y)]: a NaN gives way to the other value. *)
Definition fmin (x y : f64) : f64 :=
  match x, y with
  | S754_nan, _ => y
  | _, S754_nan => x
  | _, _ => if flt y x then y else x
  end.

(** [(n as f64 / norm).min(1.0)] *)
Definition part (n : Z) (norm : f64) : f64 := fmin (fdiv (of_int n) norm) one.

Definition default_scorer : RouteScorer := λ input,
  let policy := si_policy input in
  let output_score := part (si_output_amount input) OUTPUT_NORM in
  let impact_score := fsub one (part (si_impact_bps input) IMPACT_NORM) in
  let latency_score := fsub one (part (si_compute_time_us input) LATENCY_NORM) in
  mkScorerOutput
    (fadd (fadd (fmul (output_weight policy) output_score) (fmul (impact_weight policy) impact_score))
       (fmul (latency_weight policy) latency_score))
    (Some (<[$"latency" := latency_score]> (<[$"impact" := impact_score]> (<[$"output" := output_score]> ∅)))).

Definition fee_minimizing : RouteScorer := λ input,
  let max_impact := of_int (max_impact_bps (si_policy input)) in
  mkScorerOutput (if fgt max_impact fzero then fsub one (part (si_impact_bps input) max_impact) else fzero) None.

Definition output_maximizing : RouteScorer := λ input,
  mkScorerOutput (part (si_output_amount input) OUTPUT_NORM) None.

Definition builtin : gmap Str RouteScorer :=
  <[$"output_maximizing" := output_maximizing]> (<[$"fee_minimizing" := fee_minimizing]> (<[$"default" := default_scorer]> ∅)).

(** [env]: the variable ROUTING_SCORER. *)
Definition new (env : option Str) : ScorerRegistry :=
  mkScorerRegistry builtin
    (match env with
     | Some name => if bool_decide (is_Some (builtin !! name)) then name else $"default"
     | None => $"default"
     end).

Definition register (r : ScorerRegistry) (name : Str) (s : RouteScorer) : Result ScorerRegistry RoutingError :=
  reject (bool_decide (is_Some (scorers r !! name))) (RoutingError.DuplicateScorer name);;
  Ok (mkScorerRegistry (<[name := s]> (scorers r)) (active r)).

Definition set_active (r : ScorerRegistry) (name : Str) : Result ScorerRegistry RoutingError :=
  reject (negb (bool_decide (is_Some (scorers r !! name)))) (RoutingError.UnknownScorer name);;
  Ok (mkScorerRegistry (scorers r) name).

Definition active_scorer_name (r : ScorerRegistry) : Str := active r.

(** The active scorer is expected to be registered. *)
Definition score (r : ScorerRegistry) (input : ScorerInput) : R ScorerOutput :=
  s ← ok_or (scorers r !! active r) Panic;
  let output := s input in
  Ok (mkScorerOutput (fclamp (so_score output) fzero one) (so_diagnostics output)).

End Scorer.

(** ** optimizer.rs *)

Record RouteMetrics := mkRouteMetrics {
  output_amount : Z;
  impact_bps : Z;
  compute_time_us : Z;
  hop_count : Z;
  score : f64;
  anomaly_score : f64;
  anomaly_reasons : list Str;
}.

(** Without the times and the flagged venues, which are always empty. *)
Record OptimizerDiagnostics := mkOptimizerDiagnostics {
  selected_path : Path;
  metrics : RouteMetrics;
  alternatives : list (Path * RouteMetrics);
  d_policy : OptimizerPolicy;
  excluded_routes : list RouteExclusion;
  active_scorer : Str;
}.

Record HybridOptimizer := mkHybridOptimizer {
  pathfinder : PathfinderConfig;
  policies : gmap Str OptimizerPolicy;
  active_policy_name : Str;
  risk_validator : option RiskLimitConfig;
  scorer_registry : ScorerRegistry;
}.

Module PolicyPresets.

Definition production : OptimizerPolicy :=
  mkOptimizerPolicy (of_decimal false 5 (-1)) (of_decimal false 3 (-1)) (of_decimal false 2 (-1)) 300 500 $"production" None.
Definition analysis : OptimizerPolicy :=
  mkOptimizerPolicy (of_decimal false 7 (-1)) (of_decimal false 25 (-2)) (of_decimal false 5 (-2)) 1000 5000 $"analysis" None.
Definition realtime : OptimizerPolicy :=
  mkOptimizerPolicy (of_decimal false 3 (-1)) (of_decimal false 2 (-1)) (of_decimal false 5 (-1)) 500 100 $"realtime" None.
Definition testing : OptimizerPolicy :=
  mkOptimizerPolicy (of_decimal false 4 (-1)) (of_decimal false 3 (-1)) (of_decimal false 3 (-1)) 400 2000 $"testing" None.

End PolicyPresets.

(** [OptimizerPolicy::default] *)
Definition default_optimizer_policy : OptimizerPolicy :=
  mkOptimizerPolicy (of_decimal false 5 (-1)) (of_decimal false 3 (-1)) (of_decimal false 2 (-1)) 500 1000 $"production" None.

Definition fabs (x : f64) : f64 :=
  match x with
  | S754_zero _ => S754_zero false
  | S754_infinity _ => S754_infinity false
  | S754_nan => S754_nan
  | S754_finite _ m e => S754_finite false m e
  end.

Definition validate_weights (p : OptimizerPolicy) : Result unit RoutingError :=
  let total := fadd (fadd (output_weight p) (impact_weight p)) (latency_weight p) in
  reject (fgt (fabs (fsub total (of_int 1))) (of_decimal false 1 (-2)))
    (RoutingError.InvalidAmount $"policy weights must sum to 1.0");;
  reject (flt (output_weight p) fzero || flt (impact_weight p) fzero || flt (latency_weight p) fzero)
    (RoutingError.InvalidAmount $"policy weights must be non-negative").

Module Optimizer.

(** [env]: the variable ROUTING_SCORER. *)
Definition new (config : PathfinderConfig) (env : option Str) : HybridOptimizer :=
  mkHybridOptimizer config
    (<[$"testing" := PolicyPresets.testing]> (<[$"realtime" := PolicyPresets.realtime]>
       (<[$"analysis" := PolicyPresets.analysis]> (<[$"production" := PolicyPresets.production]> ∅))))
    $"production" None (Scorer.new env).

(** Also [with_risk_limits]. *)
Definition set_risk_limits (o : HybridOptimizer) (config : RiskLimitConfig) : HybridOptimizer :=
  mkHybridOptimizer (pathfinder o) (policies o) (active_policy_name o) (Some config) (scorer_registry o).

Definition clear_risk_limits (o : HybridOptimizer) : HybridOptimizer :=
  mkHybridOptimizer (pathfinder o) (policies o) (active_policy_name o) None (scorer_registry o).

Definition with_scorer_registry (config : PathfinderConfig) (env : option Str) (registry : ScorerRegistry) : HybridOptimizer :=
  let o := new config env in
  mkHybridOptimizer (pathfinder o) (policies o) (active_policy_name o) (risk_validator o) registry.

Definition add_policy (o : HybridOptimizer) (p : OptimizerPolicy) : Result HybridOptimizer RoutingError :=
  validate_weights p;;
  Ok (mkHybridOptimizer (pathfinder o) (<[environment p := p]> (policies o)) (active_policy_name o) (risk_validator o)
        (scorer_registry o)).

Definition set_active_policy (o : HybridOptimizer) (env : Str) : Result HybridOptimizer RoutingError :=
  reject (negb (bool_decide (is_Some (policies o !! env)))) (RoutingError.InvalidAmount ($"policy '" ++ env ++ $"' not found"));;
  Ok (mkHybridOptimizer (pathfinder o) (policies o) env (risk_validator o) (scorer_registry o)).

(** Indexing a map panics when the key is missing. *)
Definition active_policy (o : HybridOptimizer) : R OptimizerPolicy := ok_or (policies o !! active_policy_name o) Panic.

Definition set_scorer (o : HybridOptimizer) (name : Str) : Result HybridOptimizer RoutingError :=
  registry ← Scorer.set_active (scorer_registry o) name;
  Ok (mkHybridOptimizer (pathfinder o) (policies o) (active_policy_name o) (risk_validator o) registry).

Section Find.

(** Whether the build traps on arithmetic overflow. *)
Variable checks : bool.

(** The first edge to the destination over the venue; an index may be out of range. *)
Fixpoint find_edge (g : CompactedGraph) (destination venue_ref : Str) (l : list CompactedEdge) : R (option CompactedEdge) :=
  match l with
  | [] => Ok None
  | e :: rest =>
      to ← ok_or (assets g !! Z.to_nat (to_idx e)) Panic;
      if bool_decide (to = destination) && bool_decide (c_venue_ref e = venue_ref) then Ok (Some e)
      else find_edge g destination venue_ref rest
  end.

(** The output and the impact after one more hop. *)
Definition cross_hop (g : CompactedGraph) (s : Z * Z) (hop : Hop) : R (Z * Z) :=
  let no_route := Raised (RoutingError.NoRoute (source_asset hop) (destination_asset hop)) in
  from_idx ← ok_or (asset_map g !! source_asset hop) no_route;
  l ← Compaction.neighbors g from_idx;
  found ← find_edge g (destination_asset hop) (h_venue_ref hop) l;
  edge ← ok_or found no_route;
  let '(factor, impact) := if Compaction.is_amm edge then (9970, 30) else (9980, 20) in
  product ← ok_or (plain checks I128 (s.1 * factor)) Panic;
  Ok (Z.quot product 10000, saturating_add U32 s.2 impact).

Fixpoint cross_hops (g : CompactedGraph) (s : Z * Z) (hops : list Hop) : R (Z * Z) :=
  match hops with
  | [] => Ok s
  | hop :: rest => s ← cross_hop g s hop; cross_hops g s rest
  end.

(** [elapsed]: the time that this takes, in microseconds. *)
Definition calculate_route_metrics_compacted (o : HybridOptimizer) (path : Path) (g : CompactedGraph) (amount_in elapsed : Z) :
    R RouteMetrics :=
  ' (total_output, total_impact_bps) ← cross_hops g (amount_in, 0) (path_hops path);
  policy ← active_policy o;
  let hops := Z.of_nat (length (path_hops path)) in
  output ← Scorer.score (scorer_registry o) (mkScorerInput total_output total_impact_bps elapsed hops policy);
  Ok (mkRouteMetrics total_output total_impact_bps elapsed hops (so_score output) fzero []).

(** The liquidity of the first edge from the hop's source over the hop's venue. *)
Definition edge_liquidity (g : CompactedGraph) (hop : Hop) : R Z :=
  match asset_map g !! source_asset hop with
  | None => Ok 0
  | Some from_idx =>
      l ← Compaction.neighbors g from_idx;
      Ok (from_option c_liquidity 0 (find (λ e, bool_decide (c_venue_ref e = h_venue_ref hop)) l))
  end.

Definition hop_provider (hop : Hop) : option Str := provider_of (h_provider hop) (h_bridge hop).

(** Whether a path passes the limits on risk, and the exclusions of the hop that fails. *)
Fixpoint check_hops (c : RiskLimitConfig) (routing_policy : RoutingPolicy) (g : CompactedGraph) (amount_in impact : Z)
    (hops : list Hop) : R (bool * list RouteExclusion) :=
  match hops with
  | [] => Ok (true, [])
  | hop :: rest =>
      liquidity ← edge_liquidity g hop;
      let provider := hop_provider hop in
      if negb (is_provider_allowed routing_policy provider) then
        Ok (false, from_option (λ p, [mkRouteExclusion p ExclusionReason.ProviderKillSwitch 0 1]) [] provider)
      else match Risk.validate_route_hop c (destination_asset hop) amount_in impact liquidity provider with
           | Err exclusions => Ok (false, exclusions)
           | Ok _ => check_hops c routing_policy g amount_in impact rest
           end
  end.

(** Whether a scored path is kept, and what is excluded. *)
Definition judge_path (o : HybridOptimizer) (policy : OptimizerPolicy) (routing_policy : RoutingPolicy) (g : CompactedGraph)
    (amount_in : Z) (path : Path) (m : RouteMetrics) : R (bool * list RouteExclusion) :=
  too_slow ← (if max_impact_bps policy <? impact_bps m then Ok true
              else limit ← ok_or (plain checks U64 (max_compute_time_ms policy * 1000)) Panic;
                   Ok (limit <? compute_time_us m));
  if too_slow : bool then Ok (false, [])
  else match risk_validator o with
       | Some c => check_hops c routing_policy g amount_in (impact_bps m) (path_hops path)
       | None => Ok (forallb (λ hop, is_provider_allowed routing_policy (hop_provider hop)) (path_hops path), [])
       end.

(** The loop over the paths; [elapsed i] is the time of the [i]-th. *)
Fixpoint score_paths (o : HybridOptimizer) (policy : OptimizerPolicy) (routing_policy : RoutingPolicy) (g : CompactedGraph)
    (amount_in : Z) (elapsed : nat → Z) (i : nat) (paths : list Path) : R (list (Path * RouteMetrics) * list RouteExclusion) :=
  match paths with
  | [] => Ok ([], [])
  | path :: rest =>
      m ← calculate_route_metrics_compacted o path g amount_in (elapsed i);
      ' (kept, exclusions) ← judge_path o policy routing_policy g amount_in path m;
      ' (scored, excluded) ← score_paths o policy routing_policy g amount_in elapsed (S i) rest;
      Ok (if kept : bool then (path, m) :: scored else scored, exclusions ++ excluded)
  end.

Definition is_nan (x : f64) : bool :=
  match x with
  | S754_nan => true
  | _ => false
  end.

(** Highest score first. Every element of two or more is compared with another: a NaN,
    which cannot be compared, makes the [unwrap] of the comparison panic. *)
Definition sort_scored (l : list (Path * RouteMetrics)) : R (list (Path * RouteMetrics)) :=
  if (2 <=? length l)%nat && existsb (λ x, is_nan (score x.2)) l then Err Panic
  else Ok (stable_sort (λ x y, flt (score y.2) (score x.2)) l).

(** What the search for paths returns is proved to be [Some]. *)
Definition find_optimal_routes_compacted (o : HybridOptimizer) (from to : Str) (g : CompactedGraph) (amount_in : Z)
    (routing_policy : RoutingPolicy) (elapsed : nat → Z) : option (R OptimizerDiagnostics) :=
  match active_policy o, Compaction.to_edges g with
  | Err e, _ => Some (Err e)
  | _, None => Some (Err Panic)
  | Ok policy, Some l =>
      match find_paths (pathfinder o) from to l amount_in routing_policy with
      | None => None
      | Some found => Some (
          paths ← map_err Raised found;
          reject (bool_decide (paths = [])) (Raised (RoutingError.NoRoute from to));;
          ' (scored, excluded) ← score_paths o policy routing_policy g amount_in elapsed 0 paths;
          reject (bool_decide (scored = []))
            (Raised (RoutingError.NoRoute [] $"no routes meet policy or risk constraints"));;
          sorted ← sort_scored scored;
          match sorted with
          | [] => Err Panic
          | (path, m) :: others =>
              Ok (mkOptimizerDiagnostics path m others policy excluded (Scorer.active_scorer_name (scorer_registry o)))
          end)
      end
  end.

Definition find_optimal_routes (o : HybridOptimizer) (from to : Str) (l : list Edge) (amount_in : Z)
    (routing_policy : RoutingPolicy) (elapsed : nat → Z) : option (R OptimizerDiagnostics) :=
  find_optimal_routes_compacted o from to (Compaction.from_edges l) amount_in routing_policy elapsed.

(** The loop over the policies, in an order that is not specified. An error leaves the
    policy of its turn active. *)
Fixpoint run_policies (o : HybridOptimizer) (from to : Str) (l : list Edge) (amount_in : Z) (routing_policy : RoutingPolicy)
    (elapsed : nat → Z) (names : list Str) : option (HybridOptimizer * R (list (Str * OptimizerDiagnostics))) :=
  match names with
  | [] => Some (o, Ok [])
  | name :: rest =>
      match set_active_policy o name with
      | Err e => Some (o, Err (Raised e))
      | Ok o' =>
          find_optimal_routes o' from to l amount_in routing_policy elapsed ≫= λ r,
          match r with
          | Err e => Some (o', Err e)
          | Ok d =>
              run_policies o' from to l amount_in routing_policy elapsed rest ≫= λ '(o'', rs),
              Some (o'', (rs ← rs; Ok ((name, d) :: rs)))
          end
      end
  end.

Definition benchmark_policies (o : HybridOptimizer) (from to : Str) (l : list Edge) (amount_in : Z)
    (routing_policy : RoutingPolicy) (elapsed : nat → Z) (names : list Str) :
    option (HybridOptimizer * R (list (Str * OptimizerDiagnostics))) :=
  run_policies o from to l amount_in routing_policy elapsed names ≫= λ '(o', rs),
  match rs with
  | Err e => Some (o', Err e)
  | Ok results =>
      match set_active_policy o' (active_policy_name o) with
      | Ok o'' => Some (o'', Ok results)
      | Err e => Some (o', Err (Raised e))
      end
  end.

End Find.

End Optimizer.

(** ** simulator.rs *)

Module MarketShock.

Inductive MarketShock :=
| LiquidityDrain (venue_ref : Str) (percentage : f64)
| PriceJump (venue_ref : Str) (percentage : f64)
| VenueOutage (venue_ref : Str).

End MarketShock.

Record SimulationScenario := mkSimulationScenario {
  sc_name : Str;
  from_asset : Str;
  to_asset : Str;
  sc_amount_in : Z;
  shocks : list MarketShock.MarketShock;
  seed : Z;
}.

Record SimulationResult := mkSimulationResult {
  scenario_name : Str;
  baseline : OptimizerDiagnostics;
  shocked : OptimizerDiagnostics;
  stability_score : f64;
  output_delta : Z;
}.

Module Simulator.

Definition at_venue (venue_ref : Str) (liquidity : Edge → Z) (price : Edge → f64) (e : Edge) : Edge :=
  if bool_decide (e_venue_ref e = venue_ref) then
    mkLiquidityEdge f64 (e_from e) (e_to e) (e_venue_type e) (e_venue_ref e) (liquidity e) (price e) (e_fee_bps e) (e_provider e)
      (e_bridge e)
  else e.

Definition apply_shock (l : list Edge) (shock : MarketShock.MarketShock) : list Edge :=
  match shock with
  | MarketShock.LiquidityDrain v percentage =>
      at_venue v (λ e, saturating_sub I128 (e_liquidity e) (to_int I128 (fmul (of_int (e_liquidity e)) percentage))) e_price <$> l
  | MarketShock.PriceJump v percentage =>
      at_venue v e_liquidity (λ e, fmul (e_price e) (fadd (of_int 1) percentage)) <$> l
  | MarketShock.VenueOutage v => at_venue v (λ _, 0) e_price <$> l
  end.

(** [elapsed] and [elapsed']: the times of the two searches. *)
Definition run_scenario (checks : bool) (o : HybridOptimizer) (scenario : SimulationScenario) (base_edges : list Edge)
    (routing_policy : RoutingPolicy) (elapsed elapsed' : nat → Z) : option (R SimulationResult) :=
  let search l elapsed :=
    Optimizer.find_optimal_routes checks o (from_asset scenario) (to_asset scenario) l (sc_amount_in scenario) routing_policy
      elapsed in
  search base_edges elapsed ≫= λ r,
  match r with
  | Err e => Some (Err e)
  | Ok baseline =>
      search (fold_left apply_shock (shocks scenario) base_edges) elapsed' ≫= λ r',
      Some (shocked ← r';
            let out := output_amount (metrics baseline) in
            let out' := output_amount (metrics shocked) in
            delta ← ok_or (plain checks I128 (out' - out)) Panic;
            let stability := if 0 <? out then fdiv (of_int out') (of_int out) else fzero in
            Ok (mkSimulationResult (sc_name scenario) baseline shocked stability delta))
  end.

End Simulator.
