(* ===== verification/OptimizerProps.v ===== *)
(** * Pricing and choice of routes: theorems

    The calculators of order books and pools, the compact graph as another form of the list
    of edges, the limits on risk, and what the optimizer chooses. *)

From stdpp Require Import base decidable strings numbers list gmap sorting.
From Stdlib Require Import SpecFloat.
From S2P Require Import Prelude RustStr Result F64 ChainAsset Policy Pathfinder PathfinderProps HealthProps Optimizer.

Local Open Scope Z_scope.
Local Open Scope str_scope.
Local Open Scope result_scope.

(** ** The calculators *)

Section Impact.

Context (checks : bool).

Lemma plain128_fits z : fits I128 z → Impact.plain128 checks z = Ok z.
Proof. intros H. unfold Impact.plain128. by rewrite plain_fits. Qed.

Lemma checked128_Ok z z' : Impact.checked128 z = Ok z' ↔ z' = z ∧ fits I128 z.
Proof. unfold Impact.checked128. by rewrite ok_or_Ok, chk_Some. Qed.

(** The floor of the fee is at most what the fee leaves. *)
Lemma net_of_fee amount f : 0 <= amount → 0 <= f <= 10000 →
  0 <= Z.quot (amount * f) 10000 <= amount ∧ Z.quot (amount * f) 10000 * 10000 <= amount * f.
Proof.
  intros. rewrite Z.quot_div_nonneg by nia. pose proof (Z.mul_div_le (amount * f) 10000 ltac:(lia)).
  split; [split; [apply Z.div_pos; nia|apply Z.div_le_upper_bound; nia]|nia].
Qed.

(** What a successful quote computed, when the product of the amount and the fee fits. *)
Lemma quote_Ok amount x y fee out impact :
  0 <= fee → fits I128 (amount * (10000 - fee)) →
  Impact.quote_constant_product checks amount x y fee = Ok (out, impact) →
  0 < amount ∧ 0 < x ∧ 0 < y ∧ fee <= 10000 ∧
  out = (amount * (10000 - fee) / 10000) * y / (x + amount * (10000 - fee) / 10000) ∧ 0 < out.
Proof.
  intros Hf Hfit. unfold Impact.quote_constant_product.
  destruct (Z.leb_spec amount 0); [done|].
  destruct (Z.leb_spec x 0); [done|]. destruct (Z.leb_spec y 0); [done|]. cbn [orb].
  destruct (Z.ltb_spec 10000 fee); [done|]. rewrite plain128_fits by done. cbn [try_].
  destruct (net_of_fee amount (10000 - fee) ltac:(lia) ltac:(lia)) as [[Hn _] _].
  rewrite Z.quot_div_nonneg in * by nia. intros H'. rinv.
  rename x0 into num, x1 into den. apply checked128_Ok in H3 as [-> _], H4 as [-> _].
  destruct (Z.eqb_spec (x + amount * (10000 - fee) / 10000) 0); [done|].
  rewrite Z.quot_div_nonneg in H' by nia.
  destruct (Z.leb_spec (amount * (10000 - fee) / 10000 * y / (x + amount * (10000 - fee) / 10000)) 0); [done|].
  rinv. by split_and!.
Qed.

(** With overflow checks, a quote that is given did not overflow. *)
Lemma quote_checked amount x y fee r :
  checks = true → Impact.quote_constant_product checks amount x y fee = Ok r → fits I128 (amount * (10000 - fee)).
Proof.
  intros ->. unfold Impact.quote_constant_product. repeat case_match; try done.
  intros (z & Hz & _)%try_Ok. unfold Impact.plain128, plain in Hz. by apply ok_or_Ok, chk_Some in Hz as [_ ?].
Qed.

(** C31: a quote of a constant-product pool never gives away value. In a build with overflow
    checks, or when the amount times the part that the fee leaves, in basis points, fits an
    [i128]: for a quote that succeeds, the output is the floor of the constant-product
    formula on the input less its fee (rounded down), it is positive and below the reserve,
    and the product of the reserves after the trade is not below the product before, even
    counting only the input less its fee. (Otherwise the product wraps and the output can
    be anything: [unchecked_quote_wraps].) *)
Theorem amm_quote_sound amount x y fee out impact :
  0 <= fee → checks = true ∨ fits I128 (amount * (10000 - fee)) →
  Impact.quote_constant_product checks amount x y fee = Ok (out, impact) →
  let net := amount * (10000 - fee) / 10000 in
  out = net * y / (x + net) ∧ 0 < out < y ∧ x * y <= (x + net) * (y - out) ∧
  (x + net) * (y - out) <= (x + amount) * (y - out).
Proof.
  intros Hf Hor H net. assert (Hfit : fits I128 (amount * (10000 - fee))) by (destruct Hor; [by eapply quote_checked|done]).
  destruct (quote_Ok _ _ _ _ _ _ Hf Hfit H) as (Ha & Hx & Hy & Hfee & Hout & Hpos).
  fold net in Hout.
  destruct (net_of_fee amount (10000 - fee) ltac:(lia) ltac:(lia)) as [Hn _].
  rewrite Z.quot_div_nonneg in Hn by nia. fold net in Hn.
  pose proof (Z.mul_div_le (net * y) (x + net) ltac:(lia)) as Hle. rewrite <- Hout in Hle.
  assert (out < y) by nia. split_and!; nia.
Qed.

Lemma reverse_Ok out x y fee amount impact :
  0 <= fee → fits I128 (10000 * (x * out / (y - out) + 1) + 1) →
  Impact.quote_constant_product_reverse checks out x y fee = Ok (amount, impact) →
  0 < out < y ∧ 0 < x ∧ fee < 10000 ∧ amount = (10000 * (x * out / (y - out) + 1)) / (10000 - fee) + 1.
Proof.
  intros Hf Hfit. unfold Impact.quote_constant_product_reverse.
  destruct (Z.leb_spec out 0); [done|]. destruct (Z.leb_spec y out); [done|]. cbn [orb].
  destruct (Z.leb_spec x 0); [done|]. destruct (Z.leb_spec y 0); [done|]. cbn [orb].
  intros H'. apply try_Ok in H' as (? & [-> _]%checked128_Ok & H').
  apply try_Ok in H' as (? & [-> _]%checked128_Ok & H').
  destruct (Z.leb_spec (y - out) 0); [done|].
  apply try_Ok in H' as (? & [-> _]%checked128_Ok & H').
  rewrite Z.quot_div_nonneg in H' by nia.
  destruct (Z.leb_spec (10000 - fee) 0); [done|].
  set (q := x * out / (y - out)) in *. assert (0 <= q) by (apply Z.div_pos; nia).
  rewrite (Z.mul_comm (q + 1)), plain128_fits in H' by (clearbody q; unfold fits in *; cbn in *; lia).
  cbn [try_] in H'. rewrite Z.quot_div_nonneg in H' by lia.
  assert (0 <= 10000 * (q + 1) / (10000 - fee) <= 10000 * (q + 1)) as Hq.
  { split; [apply Z.div_pos; lia|apply Z.div_le_upper_bound; nia]. }
  rewrite plain128_fits in H' by (unfold fits in *; cbn in *; lia). cbn [try_] in H'. rinv.
  split_and!; lia.
Qed.

(** The reverse quote asks for enough. Whoever pays the input that the reverse quote gives
    for an output receives at least that output: the forward quote on that input, when it
    succeeds, is not below it. *)
Theorem reverse_quote_sufficient out x y fee amount impact out' impact' :
  0 <= fee → fits I128 (10000 * (x * out / (y - out) + 1) + 1) → fits I128 (amount * (10000 - fee)) →
  Impact.quote_constant_product_reverse checks out x y fee = Ok (amount, impact) →
  Impact.quote_constant_product checks amount x y fee = Ok (out', impact') →
  out <= out'.
Proof.
  intros Hf H1 H2 Hr Hq. destruct (reverse_Ok _ _ _ _ _ _ Hf H1 Hr) as (Ho & Hx & Hfee & Ea).
  destruct (quote_Ok _ _ _ _ _ _ Hf H2 Hq) as (Ha & _ & Hy & _ & Eo & _).
  set (q := x * out / (y - out)) in *. set (net := amount * (10000 - fee) / 10000) in *.
  assert (x * out < (q + 1) * (y - out)) as Hq1.
  { pose proof (Z.mul_succ_div_gt (x * out) (y - out) ltac:(lia)). unfold q. lia. }
  assert (10000 * (q + 1) < amount * (10000 - fee)) as Hq2.
  { pose proof (Z.mul_succ_div_gt (10000 * (q + 1)) (10000 - fee) ltac:(lia)). rewrite Ea. lia. }
  assert (q + 1 <= net) by (unfold net; apply Z.div_le_lower_bound; lia).
  assert (0 <= q) by (apply Z.div_pos; nia).
  rewrite Eo. apply Z.div_le_lower_bound; nia.
Qed.

(** What a list of fills costs: each fill at its price, rounded down. *)
Definition fills_cost (fills : list (Z * Z)) : Z := sum_of (λ '(amount, price), amount * price / SCALE_1E7) fills.

Lemma fills_cost_cons amount price l : fills_cost ((amount, price) :: l) = amount * price / SCALE_1E7 + fills_cost l.
Proof. done. Qed.

(** The fills walk down the book: every level but the last that is reached is taken whole. *)
Inductive walks_down : Z → list (Z * Z) → list (Z * Z) → Prop :=
| walks_done levels : walks_down 0 levels []
| walks_whole price available levels amount fills :
    0 < price → 0 < available < amount → walks_down (amount - available) levels fills →
    walks_down amount ((price, available) :: levels) ((available, price) :: fills)
| walks_last price available levels amount :
    0 < price → 0 < amount <= available →
    walks_down amount ((price, available) :: levels) [(amount, price)].

End Impact.

(** In a build with overflow checks, plain arithmetic that succeeds is exact. *)
Lemma plain128_Ok z z' : Impact.plain128 true z = Ok z' → z' = z.
Proof. unfold Impact.plain128. by intros [-> _]%ok_or_Ok%chk_Some. Qed.

Lemma fill_levels_walks levels amount cost fills remaining cost' fills' :
  0 <= amount → Impact.fill_levels true levels amount cost fills = Ok (remaining, cost', fills') →
  0 <= remaining ∧ ∃ new, fills' = fills ++ new ∧ cost' = cost + fills_cost new ∧
    (remaining = 0 → walks_down amount levels new).
Proof.
  revert amount cost fills. induction levels as [|[price available] levels IH]; intros amount cost fills Ha; cbn [Impact.fill_levels].
  - intros [= <- <- <-]. split; [done|]. exists []. rewrite app_nil_r. cbn. split_and!; [done|lia|]. intros ->. constructor.
  - destruct (Z.leb_spec price 0); [done|]. destruct (Z.leb_spec available 0); [done|]. cbn [orb].
    destruct (Z.eqb_spec amount 0) as [->|].
    { intros [= <- <- <-]. split; [done|]. exists []. rewrite app_nil_r. cbn. split_and!; [done|lia|]. constructor. }
    intros H'. apply try_Ok in H' as (? & ->%plain128_Ok & H').
    apply try_Ok in H' as (? & [-> _]%checked128_Ok & H'). rewrite Z.quot_div_nonneg in H' by (unfold SCALE_1E7; nia).
    apply IH in H' as (Hr & new & -> & -> & Hw); [|lia]. split; [done|].
    exists ((Z.min amount available, price) :: new). rewrite <- app_assoc. split_and!; [done|rewrite fills_cost_cons; lia|].
    intros E. specialize (Hw E). destruct (Z.min_spec amount available) as [[? Em]|[? Em]]; rewrite Em in *.
    + rewrite Z.sub_diag in Hw. inversion Hw; subst; [apply walks_last; lia|lia..].
    + destruct (decide (amount = available)) as [->|].
      * rewrite Z.sub_diag in Hw. inversion Hw; subst; [apply walks_last; lia|lia..].
      * constructor; [lia..|done].
Qed.

Lemma walks_down_sum amount levels fills : walks_down amount levels fills → sum_of fst fills = amount.
Proof. unfold sum_of. induction 1; cbn in *; lia. Qed.

(** An order book is consumed level by level. In a build with overflow checks, a
    successful calculation takes whole levels in their order and a part of the last one,
    which add up to the amount; the effective price is the cost of the fills over the
    amount, and the impact is how far that is above the first level's price. *)
Theorem book_walks_down amount levels impact price fills :
  Impact.calculate_impact true amount levels = Ok (impact, price, fills) →
  0 < amount ∧ walks_down amount levels fills ∧ sum_of fst fills = amount ∧
  price = fills_cost fills * SCALE_1E7 / amount ∧
  ∃ first rest, levels = first :: rest ∧
    impact = wrap U32 (Z.max 0 (price - first.1) * BASIS_POINTS / first.1).
Proof.
  unfold Impact.calculate_impact. destruct (Z.leb_spec amount 0); [done|].
  destruct levels as [|[base av] levels]; [done|]. intros H'.
  apply try_Ok in H' as ([[remaining cost] fills'] & Hl & H').
  pose proof Hl as Hb. apply fill_levels_walks in Hl as (Hr & new & -> & -> & Hw); [|lia]. cbn [app] in *.
  destruct (Z.ltb_spec 0 remaining); [done|]. apply try_Ok in H' as (? & ->%plain128_Ok & H').
  apply try_Ok in H' as (i & Hi & H'). injection H' as <- <- <-.
  specialize (Hw ltac:(lia)).
  assert (0 < base) as Hbase by (inversion Hw; subst; lia).
  assert (∀ n l f, walks_down n l f → 0 <= fills_cost f) as Hc.
  { induction 1; [done| |]; rewrite fills_cost_cons;
      apply Z.add_nonneg_nonneg; try done; apply Z.div_pos; unfold SCALE_1E7; nia. }
  specialize (Hc _ _ _ Hw).
  rewrite Z.quot_div_nonneg in * by (unfold SCALE_1E7; lia). rewrite Z.add_0_l in *.
  split_and!; try done; [by eapply walks_down_sum|].
  exists (base, av), levels. split; [done|]. cbn [fst]. unfold Impact.impact_above in Hi.
  destruct (Z.ltb_spec base (fills_cost new * SCALE_1E7 / amount)).
  - apply try_Ok in Hi as (? & ->%plain128_Ok & Hi). apply try_Ok in Hi as (? & ->%plain128_Ok & Hi).
    destruct (Z.eqb_spec base 0); [done|]. injection Hi as <-.
    rewrite Z.quot_div_nonneg by (unfold BASIS_POINTS; lia). by rewrite Z.max_r by lia.
  - injection Hi as <-. rewrite Z.max_l by lia. by rewrite Z.mul_0_l, Z.div_0_l by lia.
Qed.

(** ** The compact graph *)

Section Compaction.

Implicit Types (l : list Edge) (e : Edge) (m : gmap Str Z) (names : list Str).

(** The map and the list of assets agree. *)
Definition indexed (s : gmap Str Z * list Str) : Prop :=
  NoDup s.2 ∧ ∀ a k, s.1 !! a = Some k ↔ ∃ i, s.2 !! i = Some a ∧ k = wrap U32 (Z.of_nat i).

Lemma enter_asset_indexed s a : indexed s → indexed (Compaction.enter_asset s a).
Proof.
  intros [Hn Hm]. unfold Compaction.enter_asset. destruct (s.1 !! a) as [k|] eqn:E; [done|].
  assert (a ∉ s.2) as Ha.
  { intros [i Hi]%list_elem_of_lookup. assert (s.1 !! a = Some (wrap U32 (Z.of_nat i))) by (apply Hm; eauto). congruence. }
  split; cbn.
  - apply NoDup_app. split; [done|]. split; [|apply NoDup_singleton]. intros b Hb ->%list_elem_of_singleton. done.
  - intros b k. rewrite lookup_insert_Some, Hm. split.
    + intros [[-> <-]|[Hne (i & Hi & ->)]].
      * exists (length s.2). by rewrite list_lookup_middle.
      * exists i. by rewrite lookup_app_l by (by eapply lookup_lt_Some).
    + intros (i & Hi & ->). apply lookup_app_Some in Hi as [Hi|[Hl Hi]].
      * right. split; [|eauto]. intros <-. apply Ha. by eapply list_elem_of_lookup_2.
      * apply list_lookup_singleton_Some in Hi as [Hi ->]. left. split; [done|]. f_equal. lia.
Qed.

Lemma enter_asset_grows s a : s.2 ⊆ (Compaction.enter_asset s a).2 ∧
  (length (Compaction.enter_asset s a).2 <= S (length s.2))%nat.
Proof.
  unfold Compaction.enter_asset. destruct (s.1 !! a); cbn; [split; [done|lia]|]. rewrite length_app. cbn.
  split; [set_solver|lia].
Qed.

Lemma enter_asset_elem s a : indexed s → a ∈ (Compaction.enter_asset s a).2.
Proof.
  intros [_ Hm]. unfold Compaction.enter_asset. destruct (s.1 !! a) as [k|] eqn:E; cbn; [|set_solver].
  apply Hm in E as (i & Hi & _). by eapply list_elem_of_lookup_2.
Qed.

Lemma enter_assets_spec l :
  indexed (Compaction.enter_assets l) ∧ (length (Compaction.enter_assets l).2 <= 2 * length l)%nat ∧
  ∀ e, e ∈ l → e_from e ∈ (Compaction.enter_assets l).2 ∧ e_to e ∈ (Compaction.enter_assets l).2.
Proof.
  unfold Compaction.enter_assets.
  assert (∀ s, indexed s →
    let s' := fold_left (λ s e, Compaction.enter_asset (Compaction.enter_asset s (e_from e)) (e_to e)) l s in
    indexed s' ∧ s.2 ⊆ s'.2 ∧ (length s'.2 <= length s.2 + 2 * length l)%nat ∧
    ∀ e, e ∈ l → e_from e ∈ s'.2 ∧ e_to e ∈ s'.2) as H.
  { induction l as [|e l IH]; intros s Hs; cbn [fold_left].
    { split_and!; [done|done|lia|]. by intros e ?%elem_of_nil. }
    set (s1 := Compaction.enter_asset s (e_from e)). set (s2 := Compaction.enter_asset s1 (e_to e)).
    assert (indexed s1) as H1 by by apply enter_asset_indexed.
    assert (indexed s2) as H2 by by apply enter_asset_indexed.
    destruct (IH s2 H2) as (Hi & Hsub & Hl & He). cbn zeta in *.
    pose proof (enter_asset_grows s (e_from e)) as [Hs1 Hl1]. fold s1 in Hs1, Hl1.
    pose proof (enter_asset_grows s1 (e_to e)) as [Hs2 Hl2]. fold s2 in Hs2, Hl2.
    pose proof (enter_asset_elem s (e_from e) Hs) as Hf. fold s1 in Hf.
    pose proof (enter_asset_elem s1 (e_to e) H1) as Ht. fold s2 in Ht.
    split_and!; [done|set_solver|cbn [length]; lia|].
    intros e' [->|He']%elem_of_cons; [set_solver|by apply He]. }
  destruct (H (∅, [])) as (Hi & _ & Hl & He).
  - split; cbn; [constructor|]. intros a k. rewrite lookup_empty, <- (exist_proper (λ _, False)).
    + split; [done|by intros []].
    + intros i. split; [done|]. intros [Hi _]. by destruct i.
  - cbn in *. split_and!; [done|lia|done].
Qed.

(** The edges of a list that start at an asset. *)
Definition starting_at l (a : Str) : list Edge := List.filter (λ e, bool_decide (e_from e = a)) l.

Lemma group_edges_lookup m l k :
  default [] (Compaction.group_edges m l !! k) =
    Compaction.compact m <$> List.filter (λ e, bool_decide (Compaction.index_of m (e_from e) = k)) l.
Proof.
  unfold Compaction.group_edges.
  match goal with |- context [fold_left ?f l ∅] => set (step := f) end.
  assert (∀ acc : gmap Z (list CompactedEdge), default [] (fold_left step l acc !! k) = default [] (acc !! k) ++
    (Compaction.compact m <$> List.filter (λ e, bool_decide (Compaction.index_of m (e_from e) = k)) l)) as H.
  { induction l as [|e l IH]; intros acc; cbn [fold_left List.filter]; [by rewrite app_nil_r|].
    rewrite IH. subst step. cbn beta zeta. destruct (decide (Compaction.index_of m (e_from e) = k)) as [->|Hk].
    - rewrite lookup_insert_eq, bool_decide_eq_true_2 by done. cbn. by rewrite <- app_assoc.
    - rewrite lookup_insert_ne, bool_decide_eq_false_2 by done. done. }
  by rewrite H, lookup_empty.
Qed.

(** [lay_out] appends the groups one after the other, and notes where each begins. *)
Lemma lay_out_spec (G : nat → list CompactedEdge) n start grouped final offs :
  Z.of_nat (start + n) <= 2 ^ 32 →
  (∀ i, (start <= i < start + n)%nat → default [] (grouped !! Z.of_nat i) = G i) →
  ∃ grouped', fold_left Compaction.lay_out (seq start n) (grouped, final, offs) =
    (grouped', final ++ flat_map G (seq start n),
     offs ++ map (λ j, (length final + length (flat_map G (seq start j)))%nat) (seq 0 n)).
Proof.
  revert start grouped final offs. induction n as [|n IH]; intros start grouped final offs Hn HG.
  - exists grouped. cbn. by rewrite !app_nil_r.
  - cbn [seq fold_left]. unfold Compaction.lay_out at 2.
    rewrite wrap_id by (unfold fits; cbn; lia). rewrite (HG start) by lia.
    destruct (IH (S start) (delete (Z.of_nat start) grouped) (final ++ G start) (offs ++ [length final])) as [g' E]; [lia| |].
    + intros i Hi. rewrite lookup_delete_ne by lia. apply HG. lia.
    + exists g'. rewrite E. cbn [flat_map map seq length]. rewrite <- !app_assoc, Nat.add_0_r. do 3 f_equal.
      rewrite <- (seq_shift n 0), map_map. cbn [app]. apply map_ext. intros j.
      cbn [seq flat_map]. rewrite !length_app. lia.
Qed.

Lemma from_edges_spec l :
  2 * Z.of_nat (length l) <= 2 ^ 32 →
  let m := (Compaction.enter_assets l).1 in
  let names := (Compaction.enter_assets l).2 in
  let G i := default [] (Compaction.group_edges m l !! Z.of_nat i) in
  Compaction.from_edges l =
    mkCompactedGraph names m (flat_map G (seq 0 (length names)))
      (map (λ j, length (flat_map G (seq 0 j))) (seq 0 (S (length names)))).
Proof.
  intros Hl m names G. unfold Compaction.from_edges.
  destruct (enter_assets_spec l) as (_ & Hlen & _). subst m names.
  destruct (Compaction.enter_assets l) as [m names]. cbn [fst snd] in *.
  destruct (lay_out_spec G (length names) 0 (Compaction.group_edges m l) [] []) as [g' ->]; [lia|done|].
  f_equal. rewrite seq_S, map_app. cbn. done.
Qed.

Lemma neighbors_group l i :
  2 * Z.of_nat (length l) <= 2 ^ 32 → (i < length (Compaction.enter_assets l).2)%nat →
  let G i := default [] (Compaction.group_edges (Compaction.enter_assets l).1 l !! Z.of_nat i) in
  Compaction.get_neighbors (Compaction.from_edges l) i = Some (G i) ∧
  offsets (Compaction.from_edges l) !! i = Some (length (flat_map G (seq 0 i))).
Proof.
  intros Hl Hlt G. rewrite (from_edges_spec l Hl). fold G. set (names := (Compaction.enter_assets l).2) in *.
  unfold Compaction.get_neighbors. cbn [offsets edges].
  assert (∀ j, (j <= length names)%nat →
    map (λ j, length (flat_map G (seq 0 j))) (seq 0 (S (length names))) !! j = Some (length (flat_map G (seq 0 j)))) as Ho.
  { intros j Hj. rewrite list_lookup_fmap, lookup_seq_lt by lia. done. }
  split; [|apply Ho; lia]. rewrite !Ho by lia. cbn [mbind option_bind].
  assert (flat_map G (seq 0 (length names)) = flat_map G (seq 0 i) ++ G i ++ flat_map G (seq (S i) (length names - S i))) as ->.
  { replace (length names) with (i + S (length names - S i))%nat at 1 by lia.
    rewrite seq_app, flat_map_app. done. }
  rewrite seq_S, flat_map_app. cbn [flat_map Nat.add]. rewrite app_nil_r, !length_app.
  rewrite (proj2 (Nat.leb_le _ _)) by lia. rewrite (proj2 (Nat.leb_le _ _)) by lia. cbn [andb].
  rewrite drop_app_length. f_equal. rewrite Nat.add_comm, Nat.add_sub. apply take_app_length.
Qed.

(** Distinct assets have distinct indices. *)
Lemma index_inj l i a e :
  2 * Z.of_nat (length l) <= 2 ^ 32 → (Compaction.enter_assets l).2 !! i = Some a → e ∈ l →
  Compaction.index_of (Compaction.enter_assets l).1 (e_from e) = Z.of_nat i ↔ e_from e = a.
Proof.
  intros Hl Hi Hin. destruct (enter_assets_spec l) as ([Hnd Hm] & Hlen & He).
  destruct (He e Hin) as [[j Hj]%list_elem_of_lookup _].
  unfold Compaction.index_of. rewrite (proj2 (Hm (e_from e) _) (ex_intro _ j (conj Hj eq_refl))). cbn.
  pose proof (lookup_lt_Some _ _ _ Hj). rewrite wrap_id by (unfold fits; cbn; lia). split.
  - intros ->%Nat2Z.inj. congruence.
  - intros <-. f_equal. by eapply NoDup_lookup.
Qed.

Lemma neighbors_at l i a :
  2 * Z.of_nat (length l) <= 2 ^ 32 → (Compaction.enter_assets l).2 !! i = Some a →
  Compaction.get_neighbors (Compaction.from_edges l) i =
    Some (Compaction.compact (Compaction.enter_assets l).1 <$> starting_at l a).
Proof.
  intros Hl Hi. destruct (neighbors_group l i Hl (lookup_lt_Some _ _ _ Hi)) as [-> _]. f_equal.
  rewrite group_edges_lookup. unfold starting_at. f_equal. apply filter_ext_in. intros e Hin%list_elem_of_In.
  apply bool_decide_ext. by apply index_inj.
Qed.

(** A list of edges that the compact form can hold: venue types are named, and the assets
    can be numbered in 32 bits. *)
Definition compactable l : Prop :=
  2 * Z.of_nat (length l) <= 2 ^ 32 ∧ Forall (λ e, e_venue_type e ≠ []) l.

#[export] Instance compactable_dec l : Decision (compactable l).
Proof. unfold compactable. apply _. Defined.

Lemma index_lookup l a :
  compactable l → a ∈ (Compaction.enter_assets l).2 →
  (Compaction.enter_assets l).2 !! Z.to_nat (Compaction.index_of (Compaction.enter_assets l).1 a) = Some a.
Proof.
  intros [Hl _] [i Hi]%list_elem_of_lookup. destruct (enter_assets_spec l) as ([_ Hm] & Hlen & _).
  unfold Compaction.index_of. rewrite (proj2 (Hm a _) (ex_intro _ i (conj Hi eq_refl))). cbn.
  pose proof (lookup_lt_Some _ _ _ Hi). rewrite wrap_id by (unfold fits; cbn; lia). by rewrite Nat2Z.id.
Qed.

(** Restoring a compacted edge gives back the edge. *)
Lemma restore_compact l e :
  compactable l → e ∈ l →
  Compaction.restore (Compaction.from_edges l) (e_from e) (Compaction.compact (Compaction.enter_assets l).1 e) = Some e.
Proof.
  intros Hc He. destruct (enter_assets_spec l) as (_ & _ & Hin). destruct (Hin e He) as [_ Ht].
  unfold Compaction.restore. destruct Hc as [Hl Hv]. rewrite (from_edges_spec l Hl). cbn [assets Compaction.compact to_idx].
  rewrite index_lookup by done. cbn. f_equal.
  rewrite Forall_forall in Hv. specialize (Hv e He). unfold Compaction.resolved_venue_type. cbn.
  rewrite bool_decide_eq_false_2 by done. by destruct e.
Qed.

Lemma to_edges_from_edges l :
  compactable l →
  Compaction.to_edges (Compaction.from_edges l) = Some (flat_map (starting_at l) (Compaction.enter_assets l).2).
Proof.
  intros Hc. unfold Compaction.to_edges.
  assert (assets (Compaction.from_edges l) = (Compaction.enter_assets l).2) as -> by (by rewrite (from_edges_spec l (proj1 Hc))).
  assert (∀ i names, (∀ j a, names !! j = Some a → (Compaction.enter_assets l).2 !! (i + j)%nat = Some a) →
    Compaction.edges_from (Compaction.from_edges l) i names = Some (flat_map (starting_at l) names)) as H;
    [|by apply (H 0%nat)].
  intros i names. revert i. induction names as [|a names IH]; intros i Hi; [done|]. cbn [Compaction.edges_from flat_map].
  rewrite (neighbors_at l i a); [|apply Hc|by rewrite <- (Nat.add_0_r i); apply (Hi 0%nat a)]. cbn [mbind option_bind].
  assert (mapM (Compaction.restore (Compaction.from_edges l) a)
    (Compaction.compact (Compaction.enter_assets l).1 <$> starting_at l a) = Some (starting_at l a)) as ->.
  { apply mapM_Some. rewrite Forall2_fmap_l. apply Forall_Forall2_diag, Forall_forall. intros e He%list_elem_of_In%filter_In.
    destruct He as [He <-%bool_decide_eq_true]. apply restore_compact; [done|by apply list_elem_of_In]. }
  cbn [mbind option_bind]. rewrite IH; [done|]. intros j b Hj. rewrite <- (Hi (S j) b Hj). f_equal. lia.
Qed.

Lemma flat_map_starting_at l names :
  NoDup names → (∀ e, e ∈ l → e_from e ∈ names) → flat_map (starting_at l) names ≡ₚ l.
Proof.
  intros Hn. induction l as [|e l IH]; intros He.
  - clear. unfold starting_at. by induction names.
  - rewrite <- IH at 2 by (intros e' ?; apply He; by right).
    assert (e_from e ∈ names) as (n1 & n2 & ->)%list_elem_of_split by (apply He; by left).
    apply NoDup_app in Hn as (_ & Hd & [Hn2 _]%NoDup_cons).
    assert (∀ names, e_from e ∉ names → flat_map (starting_at (e :: l)) names = flat_map (starting_at l) names) as Hf.
    { intros names Hni. induction names as [|a names IHn]; [done|]. apply not_elem_of_cons in Hni as [Hne Hni].
      cbn. rewrite IHn, bool_decide_eq_false_2 by done. done. }
    rewrite !flat_map_app. cbn [flat_map]. rewrite !Hf; [|done|]; [|intros Hin; by apply (Hd _ Hin); left].
    unfold starting_at at 2. cbn [List.filter]. rewrite bool_decide_eq_true_2 by done. fold (starting_at l (e_from e)).
    cbn [app]. symmetry. apply Permutation_middle.
Qed.

(** Grouping by source keeps the edges of each source and their order. *)
Lemma starting_at_flat_map l names a (p : Edge → bool) :
  NoDup names → (∀ e, e ∈ l → e_from e ∈ names) →
  List.filter (λ e, p e && bool_decide (e_from e = a)) (flat_map (starting_at l) names) =
  List.filter (λ e, p e && bool_decide (e_from e = a)) l.
Proof.
  intros Hn He.
  assert (∀ b, List.filter (λ e, p e && bool_decide (e_from e = a)) (starting_at l b) =
    if decide (b = a) then List.filter (λ e, p e && bool_decide (e_from e = a)) l else []) as Hs.
  { intros b. unfold starting_at. clear. case_decide as Hb; induction l as [|e l IH]; [done| |done|]; cbn [List.filter].
    - subst b. destruct (decide (e_from e = a)).
      + rewrite !bool_decide_eq_true_2 by done. cbn [List.filter]. rewrite bool_decide_eq_true_2 by done. by rewrite IH.
      + rewrite !bool_decide_eq_false_2 by done. rewrite andb_false_r. done.
    - case_bool_decide; [|done]. cbn [List.filter]. rewrite bool_decide_eq_false_2 by congruence. by rewrite andb_false_r. }
  assert (∀ names, NoDup names → List.filter (λ e, p e && bool_decide (e_from e = a)) (flat_map (starting_at l) names) =
    if decide (a ∈ names) then List.filter (λ e, p e && bool_decide (e_from e = a)) l else []) as H.
  { clear Hn He names. induction names as [|b names IH]; intros Hn; [done|].
    apply NoDup_cons in Hn as [Hb Hn]. cbn [flat_map]. rewrite List.filter_app, Hs, IH by done.
    destruct (decide (b = a)) as [->|]; repeat case_decide; try set_solver. by rewrite app_nil_r. }
  rewrite H by done. case_decide as Ha; [done|]. symmetry. apply elem_of_nil_inv. intros e Hin%list_elem_of_In%filter_In.
  destruct Hin as [Hin [_ <-%bool_decide_eq_true]%andb_true_iff]. by apply Ha, He, list_elem_of_In.
Qed.

(** No source of the search's graph is without edges. *)
Lemma build_graph_nonempty config l policy k : build_graph config l policy !! k ≠ Some [].
Proof.
  unfold build_graph. match goal with |- context [fold_left ?f l ∅] => set (step := f) end.
  assert (∀ acc : Graph f64, acc !! k ≠ Some [] → fold_left step l acc !! k ≠ Some []) as H; [|by apply H].
  induction l as [|e l IH]; intros acc Ha; [done|]. cbn [fold_left]. apply IH. subst step. cbn beta.
  destruct (admissible config policy e); [|done]. rewrite lookup_insert_Some. intros [[_ E]|[_ E]]; [|done].
  by destruct (default [] (acc !! e_from e)).
Qed.

Lemma build_graph_grouped config l policy :
  build_graph config (flat_map (starting_at l) (Compaction.enter_assets l).2) policy = build_graph config l policy.
Proof.
  apply map_eq. intros k.
  pose proof (build_graph_nonempty config l policy k) as H1.
  pose proof (build_graph_nonempty config (flat_map (starting_at l) (Compaction.enter_assets l).2) policy k) as H2.
  pose proof (build_graph_lookup config l policy k) as E1.
  pose proof (build_graph_lookup config (flat_map (starting_at l) (Compaction.enter_assets l).2) policy k) as E2.
  destruct (enter_assets_spec l) as ([Hn _] & _ & He).
  rewrite starting_at_flat_map, <- E1 in E2; [|done|naive_solver].
  destruct (build_graph config (flat_map _ _) policy !! k), (build_graph config l policy !! k); cbn in E2; congruence.
Qed.

(** C30: the compact form of the graph loses nothing. For at most 2^31 edges whose venue types
    are not empty, restoring the edges of the compact graph never indexes out of range and
    gives the same edges, grouped by their source, in each group in their order; and the
    search for paths finds the same routes in the same order as on the original list. *)
Theorem compaction_faithful l :
  compactable l →
  ∃ l' sources, Compaction.to_edges (Compaction.from_edges l) = Some l' ∧ l' ≡ₚ l ∧
    NoDup sources ∧ l' = flat_map (λ a, List.filter (λ e, bool_decide (e_from e = a)) l) sources ∧
    ∀ config from to amount policy, find_paths config from to l' amount policy = find_paths config from to l amount policy.
Proof.
  intros Hc. destruct (enter_assets_spec l) as ([Hn _] & _ & He). eexists _, (Compaction.enter_assets l).2.
  split; [by apply to_edges_from_edges|]. split_and!; [apply flat_map_starting_at; naive_solver|done|done|].
  intros. unfold find_paths. by rewrite build_graph_grouped.
Qed.

(** ** Updates in place *)

(** Updates the first edge from an asset over a venue. *)
Fixpoint update_list (a v : Str) (liquidity : Z) (price : f64) l : option (list Edge) :=
  match l with
  | [] => None
  | e :: l =>
      if bool_decide (e_from e = a) && bool_decide (e_venue_ref e = v) then
        Some (mkLiquidityEdge f64 (e_from e) (e_to e) (e_venue_type e) (e_venue_ref e) liquidity price (e_fee_bps e)
                (e_provider e) (e_bridge e) :: l)
      else cons e <$> update_list a v liquidity price l
  end.

Lemma update_list_assets a v q p l l' :
  update_list a v q p l = Some l' → Compaction.enter_assets l' = Compaction.enter_assets l ∧ length l' = length l.
Proof.
  unfold Compaction.enter_assets. generalize ((∅, []) : gmap Str Z * list Str). revert l'.
  induction l as [|e l IH]; intros l' s; cbn [update_list]; [done|]. destruct (_ && _).
  - by intros [= <-].
  - intros (l1 & E & ->)%fmap_Some. cbn [fold_left length]. destruct (IH _ (Compaction.enter_asset (Compaction.enter_asset s (e_from e)) (e_to e)) E) as [-> ->]. done.
Qed.

(** In the groups, the first edge over the venue in its source's group is updated. *)
Lemma update_list_group m a v q p l (f : Str → Z) k :
  (∀ e, e ∈ l → f (e_from e) = f a → e_from e = a) →
  let group l := Compaction.compact m <$> List.filter (λ e, bool_decide (f (e_from e) = k)) l in
  match update_list a v q p l with
  | Some l' => if decide (k = f a) then Compaction.update_first v q p (group l) = Some (group l') else group l' = group l
  | None => k = f a → Compaction.update_first v q p (group l) = None
  end.
Proof.
  cbv zeta. induction l as [|e l IH]; intros Hinj; [done|].
  specialize (IH ltac:(intros e' ?; apply Hinj; by right)). specialize (Hinj e ltac:(by left)). cbn [update_list].
  destruct (decide (e_from e = a)) as [<-|Ha].
  - rewrite (bool_decide_eq_true_2 (e_from e = e_from e)) by done. cbn [andb].
    destruct (decide (e_venue_ref e = v)) as [Hv|Hv].
    + rewrite (bool_decide_eq_true_2 _ Hv). cbn [List.filter e_from]. case_decide as Hk.
      * rewrite bool_decide_eq_true_2 by done. rewrite !fmap_cons. cbn [Compaction.update_first Compaction.compact c_venue_ref].
        by rewrite bool_decide_eq_true_2 by done.
      * by rewrite bool_decide_eq_false_2 by congruence.
    + rewrite (bool_decide_eq_false_2 _ Hv).
      destruct (update_list (e_from e) v q p l) as [l'|]; cbn [fmap option_fmap option_map List.filter].
      * case_decide as Hk; [|by rewrite bool_decide_eq_false_2 by congruence].
        rewrite !bool_decide_eq_true_2 by done. rewrite !fmap_cons. cbn [Compaction.update_first Compaction.compact c_venue_ref].
        by rewrite bool_decide_eq_false_2, IH by done.
      * intros Hk. rewrite !bool_decide_eq_true_2 by done. rewrite !fmap_cons.
        cbn [Compaction.update_first Compaction.compact c_venue_ref]. by rewrite bool_decide_eq_false_2, (IH Hk) by done.
  - rewrite (bool_decide_eq_false_2 _ Ha). cbn [andb].
    destruct (update_list a v q p l) as [l'|]; cbn [fmap option_fmap option_map List.filter].
    + case_decide as Hk; [rewrite bool_decide_eq_false_2 by naive_solver; exact IH|].
      case_bool_decide; [|done]. by rewrite !fmap_cons, IH.
    + intros Hk. rewrite bool_decide_eq_false_2 by naive_solver. by apply IH.
Qed.

Lemma update_first_length v q p es es' : Compaction.update_first v q p es = Some es' → length es' = length es.
Proof.
  revert es'. induction es as [|e es IH]; intros es'; cbn [Compaction.update_first]; [done|].
  case_bool_decide; [by intros [= <-]|]. intros (es1 & E & ->)%fmap_Some. cbn. by rewrite (IH _ E).
Qed.

(** Replacing one group by another of its length replaces its stretch of the layout. *)
Lemma flat_map_replace {A} (G G' : nat → list A) n i :
  (i < n)%nat → (∀ j, j ≠ i → G' j = G j) → length (G' i) = length (G i) →
  flat_map G' (seq 0 n) =
    take (length (flat_map G (seq 0 i))) (flat_map G (seq 0 n)) ++ G' i ++
    drop (length (flat_map G (seq 0 i)) + length (G i)) (flat_map G (seq 0 n)) ∧
  ∀ j, length (flat_map G' (seq 0 j)) = length (flat_map G (seq 0 j)).
Proof.
  intros Hi HG Hl.
  assert (∀ start k, (∀ j, (start <= j < start + k)%nat → j ≠ i) → flat_map G' (seq start k) = flat_map G (seq start k)) as Hsame.
  { intros start k Hk. rewrite !flat_map_concat_map. f_equal. apply map_ext_in. intros j [? ?]%in_seq. apply HG, Hk. lia. }
  split.
  - replace n with (i + S (n - S i))%nat by lia. rewrite !seq_app, !flat_map_app. cbn [Nat.add seq flat_map].
    rewrite !Hsame by lia. by rewrite take_app_length, <- drop_drop, !drop_app_length.
  - induction j as [|j IH]; [done|]. rewrite !seq_S, !flat_map_app, !length_app, IH. cbn [flat_map Nat.add]. rewrite !app_nil_r.
    destruct (decide (j = i)) as [->|]; [by rewrite Hl|by rewrite HG].
Qed.

(** Updating the compact graph in place is rebuilding it. The update of an edge's
    liquidity and price never indexes out of range; it gives the graph that would be built
    from the list in which the first edge from that asset over that venue is updated, and
    reports whether there is one. *)
Theorem update_in_place l a v q p :
  2 * Z.of_nat (length l) <= 2 ^ 32 →
  Compaction.update_edge (Compaction.from_edges l) a v q p =
    Ok (match update_list a v q p l with
        | Some l' => (Compaction.from_edges l', true)
        | None => (Compaction.from_edges l, false)
        end).
Proof.
  intros Hl. unfold Compaction.update_edge.
  destruct (enter_assets_spec l) as ([Hn Hm] & Hlen & He). set (m := (Compaction.enter_assets l).1) in *.
  assert (asset_map (Compaction.from_edges l) = m) as -> by (by rewrite (from_edges_spec l Hl)).
  destruct (m !! a) as [idx|] eqn:Ei.
  - apply Hm in Ei as (i & Hi & ->). pose proof (lookup_lt_Some _ _ _ Hi) as Hlt.
    rewrite wrap_id by (unfold fits; cbn; lia). rewrite Nat2Z.id.
    destruct (neighbors_group l i Hl Hlt) as [En Eo]. unfold Compaction.neighbors. rewrite Nat2Z.id, En, Eo. cbn [ok_or try_].
    pose proof (update_list_group m a v q p l (Compaction.index_of m)) as Hg. cbv zeta in Hg.
    assert (Compaction.index_of m a = Z.of_nat i) as Ea.
    { unfold Compaction.index_of. rewrite (proj2 (Hm a _) (ex_intro _ i (conj Hi eq_refl))). cbn. by rewrite wrap_id by (unfold fits; cbn; lia). }
    assert (∀ e, e ∈ l → Compaction.index_of m (e_from e) = Compaction.index_of m a → e_from e = a) as Hinj.
    { intros e Hin. rewrite Ea. by apply index_inj. }
    rewrite group_edges_lookup. fold m. destruct (update_list a v q p l) as [l'|] eqn:Eu.
    + destruct (update_list_assets _ _ _ _ _ _ Eu) as [Es El].
      pose proof (Hg (Z.of_nat i) Hinj) as Hgi. rewrite decide_True in Hgi by done. rewrite Hgi.
      do 2 f_equal. rewrite (from_edges_spec l Hl), (from_edges_spec l') by lia. rewrite Es. cbn [assets asset_map edges offsets].
      destruct (flat_map_replace (λ i, default [] (Compaction.group_edges m l !! Z.of_nat i))
        (λ i, default [] (Compaction.group_edges m l' !! Z.of_nat i)) (length (Compaction.enter_assets l).2) i Hlt) as [E1 E2].
      * intros j Hj. rewrite !group_edges_lookup. specialize (Hg (Z.of_nat j) Hinj). by rewrite decide_False in Hg by lia.
      * rewrite !group_edges_lookup. by eapply update_first_length.
      * fold m. rewrite E1. f_equal; [|by apply map_ext]. by rewrite !group_edges_lookup.
    + by rewrite (Hg (Z.of_nat i) Hinj) by done.
  - assert (update_list a v q p l = None) as ->; [|done].
    assert (∀ e, e ∈ l → e_from e ≠ a) as Hne.
    { intros e Hin <-. destruct (He e Hin) as [[j Hj]%list_elem_of_lookup _].
      assert (m !! e_from e = Some (wrap U32 (Z.of_nat j))) by (apply Hm; eauto). congruence. }
    clear - Hne. induction l as [|e l IH]; [done|]. cbn [update_list].
    rewrite bool_decide_eq_false_2 by (apply Hne; by left). cbn [andb]. rewrite IH; [done|]. intros e' ?. apply Hne. by right.
Qed.

End Compaction.

(** ** Scores *)

(** The order of the numbers that are not NaN, as the lexicographic order of three integers. *)
Definition key (x : f64) : Z * Z * Z :=
  match x with
  | S754_infinity s => (if s then -2 else 2, 0, 0)
  | S754_finite true m e => (-1, - e, - Z.pos m)
  | S754_finite false m e => (1, e, Z.pos m)
  | _ => (0, 0, 0)
  end.

Definition key_lt (a b : Z * Z * Z) : Prop :=
  a.1.1 < b.1.1 ∨ a.1.1 = b.1.1 ∧ (a.1.2 < b.1.2 ∨ a.1.2 = b.1.2 ∧ a.2 < b.2).

Lemma flt_key x y : x ≠ S754_nan → y ≠ S754_nan → flt x y = true ↔ key_lt (key x) (key y).
Proof.
  unfold flt, SFltb, key_lt.
  destruct x as [sx|[]| |[] mx ex], y as [sy|[]| |[] my ey]; try done; intros _ _; cbn; try (split; [done|lia]); try (split; [lia|done]).
  all: change Pos.compare_cont with PosDef.Pos.compare_cont in *; change (PosDef.Pos.compare_cont Eq mx my) with (Pos.compare mx my);
    destruct (Z.compare_spec ex ey), (Pos.compare_spec mx my); cbn; (split; [try done; lia|try done; lia]).
Qed.

(** [f64::min] with one, on a quotient that is not NaN. *)
Lemma fmin_one x : x ≠ S754_nan → Scorer.fmin x Scorer.one = if flt Scorer.one x then Scorer.one else x.
Proof. by destruct x. Qed.

(** A number between zero and one, in normal form. *)
Definition fraction (x : f64) : Prop :=
  (∃ s, x = S754_zero s) ∨ ∃ m e, x = S754_finite false m e ∧ Z.pos m <= 2 ^ 53 ∧ -400 <= e ∧ flt Scorer.one x = false.

Lemma one_eq : Scorer.one = S754_finite false 4503599627370496 (-52).
Proof. reflexivity. Qed.

Lemma fraction_one : fraction Scorer.one.
Proof. right. do 2 eexists. split; [apply one_eq|]. split_and!; [lia|lia|reflexivity]. Qed.

(** The quotient of a count by a positive constant, cut at one. *)
Lemma part_fraction n d : 0 <= n < 2 ^ 127 → 0 < d < 2 ^ 127 → fraction (Scorer.part n (of_int d)).
Proof.
  intros Hn Hd. unfold Scorer.part.
  destruct (of_int_positive d ltac:(lia)) as (md & ed & Ed). pose proof (of_int_tame d ltac:(lia)) as Td. rewrite Ed in *.
  destruct Td as [Hmd Hed]. rewrite fmin_one by apply fdiv_not_nan, of_int_not_nan.
  destruct (decide (n = 0)) as [->|Hne]; [by left; exists false|].
  destruct (of_int_positive n ltac:(lia)) as (mn & en & En). pose proof (of_int_tame n ltac:(lia)) as Tn. rewrite En in *.
  destruct Tn as [Hmn Hen]. clear Hn Hd Ed En Hne n d.
  destruct (flt Scorer.one _) eqn:El; [apply fraction_one|]. revert El. cbn.
  destruct (SFdiv_core_binary prec emax (Z.pos mn) en (Z.pos md) ed) as [[q e'] loc] eqn:E.
  assert (0 <= q ∧ -400 <= e') as [Hq He'].
  { unfold SFdiv_core_binary in E. destruct (Z.div_eucl _ _) as [q' r'] eqn:Eq. injection E as <- <- _. split.
    - match type of Eq with Z.div_eucl ?a ?b = _ => pose proof (Z.div_pos a b) as Hp; unfold Z.div in Hp; rewrite Eq in Hp end.
      apply Hp; [|lia]. repeat case_match; try lia. rewrite Z.shiftl_nonneg. lia.
    - fold fexp64. rewrite fexp64_eq. pose proof (Zdigits2_bounds (Z.pos mn) ltac:(lia)) as [_ H1].
      pose proof (Zdigits2_le (Z.pos md) 54 ltac:(lia) ltac:(lia)). unfold Zdigits2 in *. lia. }
  destruct (binary_round_aux_spec false q e' loc Hq) as [->|[->|(m & e & -> & Hm & He)]]; [by left; exists false|done|].
  intros El. right. exists m, e. split_and!; [done..|lia|done].
Qed.

Lemma fraction_not_nan x : fraction x → x ≠ S754_nan.
Proof. by intros [[s ->]|(m & e & -> & _)]. Qed.

(** Numbers that are finite and not negative. *)
Definition usable (x : f64) : Prop :=
  match x with
  | S754_zero _ | S754_finite false _ _ => True
  | _ => False
  end.

Lemma fraction_usable x : fraction x → usable x.
Proof. by intros [[s ->]|(m & e & -> & _)]. Qed.

Lemma complement_usable x : fraction x → usable (fsub Scorer.one x).
Proof.
  intros [[s ->]|(m & e & -> & Hm & He & Hle)]; [done|]. rewrite one_eq. unfold fsub, SFsub.
  destruct (shl_align_spec 4503599627370496 (-52) (Z.min (-52) e)) as [E1 E2].
  destruct (shl_align_spec m e (Z.min (-52) e)) as [E3 E4].
  cbn [cond_Zopp]. rewrite E1, E3, E2, E4. rewrite one_eq in Hle.
  assert (e <= -52 ∧ (e = -52 → Z.pos m <= 4503599627370496)) as [He' Hm'].
  { destruct (decide (key_lt (key (S754_finite false 4503599627370496 (-52))) (key (S754_finite false m e)))) as [H|H].
    - apply flt_key in H; [congruence|done..].
    - unfold key_lt in H. cbn in H. lia. }
  replace (Z.min (-52) (Z.min (-52) e)) with e by lia. replace (Z.min e (Z.min (-52) e)) with e by lia.
  rewrite Z.sub_diag, Z.mul_1_r, (Z.min_r (-52) e) by done.
  assert (4503599627370496 * 2 ^ (-52 - e) = 2 ^ (- e)) as ->.
  { change 4503599627370496 with (2 ^ 52). rewrite <- Z.pow_add_r by lia. f_equal. lia. }
  assert (Z.pos m <= 2 ^ (- e) < 2 ^ 401) as Hb.
  { split; [|apply Z.pow_lt_mono_r; lia]. destruct (decide (e = -52)) as [->|]; [lia|].
    transitivity (2 ^ 53); [done|]. apply Z.pow_le_mono_r; lia. }
  destruct (2 ^ (- e) - Z.pos m) as [|n|n] eqn:En; [done| |lia]. cbn [binary_normalize].
  by destruct (binary_round_finite false n e 401) as (m' & e' & -> & _); [lia..|].
Qed.

Lemma fmul_usable w x : usable w → usable x → nonneg (fmul w x).
Proof.
  destruct w as [sw|[]| |[] mw ew], x as [sx|[]| |[] mx ex]; try done. intros _ _. cbn.
  by destruct (binary_round_aux_spec false (Z.pos (mw * mx)) (ew + ex) loc_Exact) as [->|[->|(? & ? & -> & _)]]; [lia|..].
Qed.

(** ** Well-formed optimizers *)

(** A policy whose weights are numbers and pass the validation, and whose limits fit. *)
Record sound_policy (p : OptimizerPolicy) : Prop := {
  sp_output : output_weight p ≠ S754_nan;
  sp_impact : impact_weight p ≠ S754_nan;
  sp_latency : latency_weight p ≠ S754_nan;
  sp_valid : validate_weights p = Ok tt;
  sp_max_impact : fits U32 (max_impact_bps p);
  sp_time : 0 <= max_compute_time_ms p <= int_max U64 / 1000;
}.

(** A scorer that gives a number on every input that can occur. *)
Definition sane (s : RouteScorer) : Prop :=
  ∀ input, sound_policy (si_policy input) → 0 <= si_output_amount input <= int_max I128 → fits U32 (si_impact_bps input) →
    fits U64 (si_compute_time_us input) → so_score (s input) ≠ S754_nan.

Lemma nonneg_cases x : x ≠ S754_nan → flt x fzero = false → nonneg x ∧ (x = INFINITY ∨ usable x).
Proof. destruct x as [|[]| |[]]; try done; intros _ _; cbn; auto. Qed.

Lemma fadd_infinity x : nonneg x → fadd x INFINITY = INFINITY ∧ fadd INFINITY x = INFINITY.
Proof. by destruct x as [|[]| |[]]. Qed.

(** Weights that pass the validation are finite and not negative. *)
Lemma weights_usable p :
  sound_policy p → usable (output_weight p) ∧ usable (impact_weight p) ∧ usable (latency_weight p).
Proof.
  intros [H1 H2 H3 Hv _ _]. unfold validate_weights in Hv. rinv.
  rewrite !orb_false_iff in Hv. destruct Hv as [[L1 L2] L3].
  apply nonneg_cases in L1 as [N1 U1], L2 as [N2 U2], L3 as [N3 U3]; [|done..].
  assert (fadd (fadd (output_weight p) (impact_weight p)) (latency_weight p) ≠ INFINITY) as Ht.
  { intros E. by rewrite E in H. }
  destruct U1 as [E|?]; [destruct Ht; rewrite E, (proj2 (fadd_infinity _ N2)); by apply fadd_infinity|].
  destruct U2 as [E|?]; [destruct Ht; rewrite E, (proj1 (fadd_infinity _ N1)); by apply fadd_infinity|].
  destruct U3 as [E|?]; [destruct Ht; rewrite E; by apply fadd_infinity, fadd_nonneg|]. done.
Qed.

Lemma default_sane : sane Scorer.default_scorer.
Proof.
  intros i Hp Ho Hi Ht. apply weights_usable in Hp as (W1 & W2 & W3). unfold fits in *. cbn in Ho, Hi, Ht.
  assert (∀ n d, 0 <= n < 2 ^ 127 → 0 < d < 2 ^ 127 → usable (fsub Scorer.one (Scorer.part n (of_int d)))) as Hc.
  { intros. by apply complement_usable, part_fraction. }
  apply nonneg_not_nan. cbn [Scorer.default_scorer so_score].
  apply fadd_nonneg; [apply fadd_nonneg|]; apply fmul_usable; try done; [|apply Hc; lia..].
  apply fraction_usable, part_fraction; lia.
Qed.

Lemma fee_minimizing_sane : sane Scorer.fee_minimizing.
Proof.
  intros i Hp Ho Hi Ht. pose proof (sp_max_impact _ Hp) as Hm. unfold fits in *. cbn in Ho, Hi, Ht, Hm.
  cbn [Scorer.fee_minimizing so_score].
  destruct (decide (max_impact_bps (si_policy i) = 0)) as [->|]; [done|].
  destruct (fgt _ _); [|done]. apply fsub_one_not_nan, fraction_not_nan, part_fraction; lia.
Qed.

Lemma output_maximizing_sane : sane Scorer.output_maximizing.
Proof.
  intros i Hp Ho Hi Ht. cbn in Ho. apply fraction_not_nan, part_fraction; lia.
Qed.

(** What every optimizer keeps true of itself. *)
Record well_formed (o : HybridOptimizer) : Prop := {
  wf_policies : map_Forall (λ _ p, sound_policy p) (policies o);
  wf_policy : is_Some (policies o !! active_policy_name o);
  wf_scorers : map_Forall (λ _ s, sane s) (scorers (scorer_registry o));
  wf_scorer : is_Some (scorers (scorer_registry o) !! active (scorer_registry o));
}.

Lemma builtin_sane : map_Forall (λ _ s, sane s) Scorer.builtin.
Proof.
  unfold Scorer.builtin. repeat (apply map_Forall_insert_2; [|]); [..|apply map_Forall_empty].
  - apply output_maximizing_sane.
  - apply fee_minimizing_sane.
  - apply default_sane.
Qed.

Lemma presets_sound :
  sound_policy PolicyPresets.production ∧ sound_policy PolicyPresets.analysis ∧ sound_policy PolicyPresets.realtime ∧
  sound_policy PolicyPresets.testing.
Proof. split_and!; (split; [by vm_compute..| |]; vm_compute; by split). Qed.

(** The registries that can be built: any scorers may be added that give numbers. *)
Inductive registry : ScorerRegistry → Prop :=
| reg_new env : registry (Scorer.new env)
| reg_register r name s r' : registry r → sane s → Scorer.register r name s = Ok r' → registry r'
| reg_active r name r' : registry r → Scorer.set_active r name = Ok r' → registry r'.

(** The optimizers that can be built, with any sequence of changes to the policies, the
    scorers and the limits on risk. *)
Inductive configured (config : PathfinderConfig) : HybridOptimizer → Prop :=
| conf_new env : configured config (Optimizer.new config env)
| conf_registry env r : registry r → configured config (Optimizer.with_scorer_registry config env r)
| conf_add o p o' : configured config o → sound_policy p → Optimizer.add_policy o p = Ok o' → configured config o'
| conf_policy o name o' : configured config o → Optimizer.set_active_policy o name = Ok o' → configured config o'
| conf_scorer o name o' : configured config o → Optimizer.set_scorer o name = Ok o' → configured config o'
| conf_limits o c : configured config o → configured config (Optimizer.set_risk_limits o c)
| conf_unlimited o : configured config o → configured config (Optimizer.clear_risk_limits o).

Definition registered (r : ScorerRegistry) : Prop :=
  map_Forall (λ _ s, sane s) (scorers r) ∧ is_Some (scorers r !! active r).

(** What a guard found is there. *)
Ltac present := match goal with H : negb (bool_decide _) = false |- _ => by apply negb_false_iff, bool_decide_eq_true in H end.

Lemma registry_registered r : registry r → registered r.
Proof.
  induction 1 as [env|r name s r' _ [Hs Ha] Hsane E|r name r' _ [Hs Ha] E].
  - split; [apply builtin_sane|]. unfold Scorer.new. cbn [scorers active].
    destruct env as [name|]; [case_bool_decide; [done|]|]; by eexists.
  - unfold Scorer.register in E. rinv. split; cbn; [by apply map_Forall_insert_2|].
    rewrite lookup_insert_is_Some'. by right.
  - unfold Scorer.set_active in E. rinv. split; cbn; [done|]. present.
Qed.

Lemma new_policies_sound : map_Forall (λ _ p, sound_policy p) (policies (Optimizer.new default_config None)).
Proof.
  destruct presets_sound as (? & ? & ? & ?). cbn. repeat (apply map_Forall_insert_2; [done|]). apply map_Forall_empty.
Qed.

(** However an optimizer was configured, its policy and its scorer can be looked up, and
    all of its policies and scorers are sound. *)
Lemma configured_well_formed config o : configured config o → well_formed o ∧ pathfinder o = config.
Proof.
  induction 1 as [env|env r Hr|o p o' _ [[] ?] Hp E|o name o' _ [[] ?] E|o name o' _ [[] ?] E|o c _ [[] ?]|o _ [[] ?]].
  - destruct (registry_registered _ (reg_new env)). split; [|done]. split; try done; apply new_policies_sound.
  - destruct (registry_registered _ Hr). split; [|done]. split; try done; apply new_policies_sound.
  - unfold Optimizer.add_policy in E. rinv. split; [|done]. split; cbn; try done; [by apply map_Forall_insert_2|].
    rewrite lookup_insert_is_Some'. by right.
  - unfold Optimizer.set_active_policy in E. rinv. split; [|done]. split; cbn; try done.
    present.
  - unfold Optimizer.set_scorer, Scorer.set_active in E. rinv. split; [|done]. split; cbn; try done.
    present.
  - by split.
  - by split.
Qed.

Lemma scored_by r (s : RouteScorer) input :
  scorers r !! active r = Some s →
  Scorer.score r input = Ok (mkScorerOutput (fclamp (so_score (s input)) fzero (of_int 1)) (so_diagnostics (s input))).
Proof. intros Hs. unfold Scorer.score. change (ScorerInput → ScorerOutput) with RouteScorer. by rewrite Hs. Qed.

(** ** What a route is measured by *)

Section Measure.

Context (checks : bool) (l : list Edge) (Hl : compactable l).

Let g : CompactedGraph := Compaction.from_edges l.

(** The edge that prices a hop: the first from its source to its destination over its venue. *)
Definition priced_by (es : list Edge) (hop : Hop) : option Edge :=
  List.find (λ e, bool_decide (e_to e = destination_asset hop) && bool_decide (e_venue_ref e = h_venue_ref hop))
    (starting_at es (source_asset hop)).

(** What a hop leaves of an amount, out of 10,000, and its impact in basis points. *)
Definition hop_terms (es : list Edge) (hop : Hop) : Z * Z :=
  if from_option (λ e, eq_ignore_ascii_case (e_venue_type e) $"amm") false (priced_by es hop) then (9970, 30) else (9980, 20).

(** The output and the impact of a list of hops. *)
Fixpoint priced (es : list Edge) (out impact : Z) (hops : list Hop) : Z * Z :=
  match hops with
  | [] => (out, impact)
  | hop :: rest =>
      let '(factor, i) := hop_terms es hop in
      priced es (out * factor / 10000) (Z.min (impact + i) (int_max U32)) rest
  end.

(** The hops of the edges of the list. *)
Definition known (hop : Hop) : Prop := ∃ e, e ∈ l ∧ hop = hop_of e.

Lemma source_neighbors a :
  a ∈ (Compaction.enter_assets l).2 →
  ∃ idx, asset_map g !! a = Some idx ∧
    Compaction.neighbors g idx = Ok (Compaction.compact (Compaction.enter_assets l).1 <$> starting_at l a).
Proof.
  intros Ha. pose proof (index_lookup l a Hl Ha) as Hi. destruct Hl as [Hn _].
  assert (asset_map g = (Compaction.enter_assets l).1) as -> by (unfold g; by rewrite (from_edges_spec l Hn)).
  destruct (enter_assets_spec l) as ([_ Hm] & _ & _). apply list_elem_of_lookup in Ha as [i Ha].
  assert ((Compaction.enter_assets l).1 !! a = Some (wrap U32 (Z.of_nat i))) as E by (apply Hm; eauto).
  unfold Compaction.index_of in Hi. rewrite E in Hi. eexists. split; [done|].
  unfold Compaction.neighbors. unfold g. erewrite neighbors_at by done. done.
Qed.

Lemma find_edge_spec dest venue es :
  (∀ e, e ∈ es → e ∈ l) →
  Optimizer.find_edge g dest venue (Compaction.compact (Compaction.enter_assets l).1 <$> es) =
    Ok (Compaction.compact (Compaction.enter_assets l).1 <$>
          List.find (λ e, bool_decide (e_to e = dest) && bool_decide (e_venue_ref e = venue)) es).
Proof.
  induction es as [|e es IH]; intros Hes; [done|]. rewrite fmap_cons. cbn [Optimizer.find_edge List.find].
  destruct (enter_assets_spec l) as (_ & _ & He). destruct (He e) as [_ Ht]; [apply Hes; by left|].
  assert (assets g = (Compaction.enter_assets l).2) as -> by (unfold g; by rewrite (from_edges_spec l (proj1 Hl))).
  cbn [Compaction.compact to_idx c_venue_ref]. rewrite index_lookup by done. cbn [ok_or try_].
  destruct (_ && _); [done|]. apply IH. intros e' ?. apply Hes. by right.
Qed.

Lemma is_amm_compact m e :
  e_venue_type e ≠ [] → Compaction.is_amm (Compaction.compact m e) = eq_ignore_ascii_case (e_venue_type e) $"amm".
Proof.
  intros Hv. unfold Compaction.is_amm, Compaction.resolved_venue_type. cbn [Compaction.compact c_venue_type venue_type_idx].
  rewrite (bool_decide_eq_false_2 (e_venue_type e = [])) by done. cbn [negb]. unfold Compaction.venue_type_idx_for. case_bool_decide as E; [by rewrite E|]. cbn [orb].
  by repeat case_match.
Qed.

Lemma in_starting_at e a : e ∈ starting_at l a ↔ e ∈ l ∧ e_from e = a.
Proof. unfold starting_at. by rewrite !list_elem_of_In, filter_In, bool_decide_eq_true. Qed.

(** A hop of an edge of the list is always priced. *)
Lemma priced_by_known hop : known hop → ∃ e, priced_by l hop = Some e ∧ e ∈ l.
Proof.
  intros (e & He & ->). unfold priced_by. destruct (List.find _ _) as [e'|] eqn:E.
  - exists e'. split; [done|]. apply find_some in E as [Hin _]. by apply list_elem_of_In, in_starting_at in Hin as [? _].
  - apply find_none with (x := e) in E; [|by apply list_elem_of_In, in_starting_at].
    cbn in E. by rewrite !bool_decide_eq_true_2 in E.
Qed.

Lemma cross_hop_spec out impact hop :
  known hop → 0 <= out → out * 9980 <= int_max I128 → fits U32 impact →
  let '(factor, i) := hop_terms l hop in
  Optimizer.cross_hop checks g (out, impact) hop = Ok (out * factor / 10000, Z.min (impact + i) (int_max U32)) ∧
  0 <= out * factor / 10000 <= out.
Proof.
  intros Hk Ho Hb Hi. unfold Optimizer.cross_hop, hop_terms.
  destruct (priced_by_known hop Hk) as (e & Ep & He). rewrite Ep. cbn [from_option].
  destruct Hk as (e0 & He0 & ->). destruct (enter_assets_spec l) as (_ & _ & Hin). destruct (Hin e0 He0) as [Hf _].
  destruct (source_neighbors _ Hf) as (idx & Ei & En). cbn [hop_of source_asset fst snd]. rewrite Ei. cbn [ok_or try_]. rewrite En. cbn [try_].
  rewrite find_edge_spec by (intros e' [? _]%in_starting_at; done). cbn [try_].
  change (List.find _ _) with (priced_by l (hop_of e0)). rewrite Ep. cbn [fmap option_fmap option_map ok_or try_].
  destruct Hl as [_ Hv]. rewrite Forall_forall in Hv. rewrite (is_amm_compact _ _ (Hv e He)).
  unfold fits in Hi. cbn in Hi, Hb.
  assert (∀ f i, 0 <= f <= 9980 → 0 <= i →
    (product ← ok_or (plain checks I128 (out * f)) (Panic (E := RoutingError));
     Ok (Z.quot product 10000, saturating_add U32 impact i)) = Ok (out * f / 10000, Z.min (impact + i) (int_max U32)) ∧
    0 <= out * f / 10000 <= out) as H.
  { intros f i Hf' Hi'. rewrite plain_fits by (unfold fits; cbn; nia). cbn [ok_or try_]. rewrite Z.quot_div_nonneg by nia.
    split; [|split; [apply Z.div_pos; nia|apply Z.div_le_upper_bound; nia]]. unfold saturating_add, clamp. cbn. do 2 f_equal. lia. }
  destruct (eq_ignore_ascii_case _ _); by apply H.
Qed.

Lemma cross_hops_spec hops out impact :
  Forall known hops → 0 <= out → out * 9980 <= int_max I128 → fits U32 impact →
  Optimizer.cross_hops checks g (out, impact) hops = Ok (priced l out impact hops) ∧
  0 <= (priced l out impact hops).1 <= out ∧ fits U32 (priced l out impact hops).2.
Proof.
  intros Hh. revert out impact. induction Hh as [|hop hops Hk _ IH]; intros out impact Ho Hb Hi; [done|].
  cbn [Optimizer.cross_hops priced]. pose proof (cross_hop_spec out impact hop Hk Ho Hb Hi) as H.
  assert (0 <= (hop_terms l hop).2) as Hpos by (unfold hop_terms; destruct (from_option _ _ _); cbn; lia).
  destruct (hop_terms l hop) as [factor i]. destruct H as [-> Ho']. cbn [try_ snd] in *.
  destruct (IH (out * factor / 10000) (Z.min (impact + i) (int_max U32))) as (-> & Hr & Hf); [lia|nia|unfold fits in *; cbn in *; lia|].
  split_and!; [done|lia|lia|done].
Qed.

(** The liquidity that the limits see: of the first edge from the source over the venue. *)
Definition seen_liquidity (es : list Edge) (hop : Hop) : Z :=
  from_option e_liquidity 0 (List.find (λ e, bool_decide (e_venue_ref e = h_venue_ref hop)) (starting_at es (source_asset hop))).

Lemma edge_liquidity_spec hop : known hop → Optimizer.edge_liquidity g hop = Ok (seen_liquidity l hop).
Proof.
  intros (e0 & He0 & ->). unfold Optimizer.edge_liquidity, seen_liquidity.
  destruct (enter_assets_spec l) as (_ & _ & Hin). destruct (Hin e0 He0) as [Hf _].
  destruct (source_neighbors _ Hf) as (idx & Ei & En). cbn [hop_of source_asset h_venue_ref]. rewrite Ei, En. cbn [try_]. f_equal.
  clear. induction (starting_at l (e_from e0)) as [|e es IH]; [done|]. rewrite fmap_cons. cbn [find List.find Compaction.compact c_venue_ref].
  by case_bool_decide.
Qed.

(** A hop that is within the limits of its destination. *)
Definition within_limits (c : RiskLimitConfig) (asset : Str) (exposure impact liquidity : Z) (provider : option Str) : Prop :=
  let limit := Risk.get_limit c asset in
  blacklisted limit = false ∧ exposure <= max_exposure limit ∧ impact <= r_max_impact_bps limit ∧
  liquidity_floor limit <= liquidity ∧ ∀ p, provider = Some p → provider_kill_switches c !! p ≠ Some true.

Lemma validate_value_errors c asset exceeded reason limit actual :
  Risk.error_of (Risk.validate_value c asset exceeded reason limit actual) = [] ↔
  blacklisted (Risk.get_limit c asset) = false ∧ exceeded (Risk.get_limit c asset) = false.
Proof. unfold Risk.validate_value, reject. destruct (blacklisted _), (exceeded _); naive_solver. Qed.

Lemma validate_route_hop_spec c asset exposure impact liquidity provider :
  is_ok (Risk.validate_route_hop c asset exposure impact liquidity provider) = true ↔
  within_limits c asset exposure impact liquidity provider.
Proof.
  unfold Risk.validate_route_hop, within_limits.
  assert (∀ (es : list RouteExclusion), is_ok (Risk.unless_any es) = true ↔ es = []) as -> by (by intros []).
  rewrite !app_nil. unfold Risk.validate_exposure, Risk.validate_impact, Risk.validate_liquidity.
  rewrite !validate_value_errors, !Z.ltb_ge.
  assert (from_option (λ p, Risk.error_of (Risk.validate_provider c p)) [] provider = [] ↔
    ∀ p, provider = Some p → provider_kill_switches c !! p ≠ Some true) as ->; [|naive_solver].
  destruct provider as [p|]; cbn; [|naive_solver]. unfold Risk.validate_provider, Risk.is_provider_killed, reject.
  destruct (provider_kill_switches c !! p) as [[]|] eqn:E; cbn; naive_solver.
Qed.

#[export] Instance within_limits_dec c asset exposure impact liquidity provider :
  Decision (within_limits c asset exposure impact liquidity provider).
Proof.
  destruct (is_ok (Risk.validate_route_hop c asset exposure impact liquidity provider)) eqn:E.
  - left. by apply validate_route_hop_spec.
  - right. rewrite <- validate_route_hop_spec. congruence.
Defined.

(** A route that may be chosen: within the policy's limits on impact and time, over
    providers that are allowed, and within the limits on risk at every hop. *)
Definition eligible (es : list Edge) (limits : option RiskLimitConfig) (policy : OptimizerPolicy) (routing_policy : RoutingPolicy)
    (amount_in : Z) (x : Path * RouteMetrics) : Prop :=
  impact_bps x.2 <= max_impact_bps policy ∧ compute_time_us x.2 <= max_compute_time_ms policy * 1000 ∧
  Forall (λ hop, is_provider_allowed routing_policy (Optimizer.hop_provider hop) = true ∧
    if limits is Some c then
      within_limits c (destination_asset hop) amount_in (impact_bps x.2) (seen_liquidity es hop) (Optimizer.hop_provider hop)
    else True) (path_hops x.1).

#[export] Instance eligible_dec es limits policy routing_policy amount_in x :
  Decision (eligible es limits policy routing_policy amount_in x).
Proof.
  unfold eligible. apply and_dec; [apply _|]. apply and_dec; [apply _|]. apply Forall_dec. intros hop.
  apply and_dec; [apply _|]. destruct limits; apply _.
Defined.

Lemma check_hops_spec c routing_policy amount_in impact hops :
  Forall known hops →
  ∃ xs, Optimizer.check_hops c routing_policy g amount_in impact hops =
    Ok (bool_decide (Forall (λ hop, is_provider_allowed routing_policy (Optimizer.hop_provider hop) = true ∧
      within_limits c (destination_asset hop) amount_in impact (seen_liquidity l hop) (Optimizer.hop_provider hop)) hops), xs).
Proof.
  induction 1 as [|hop hops Hk _ [xs IH]]; [by exists []|]. cbn [Optimizer.check_hops]. rewrite edge_liquidity_spec by done. cbn [try_].
  destruct (is_provider_allowed _ _) eqn:Ea; cbn [negb].
  - pose proof (validate_route_hop_spec c (destination_asset hop) amount_in impact (seen_liquidity l hop) (Optimizer.hop_provider hop)) as Hv.
    destruct (Risk.validate_route_hop _ _ _ _ _ _) as [[]|ys]; cbn in Hv.
    + exists xs. rewrite IH. do 2 f_equal. apply bool_decide_ext. rewrite Forall_cons. naive_solver.
    + exists ys. rewrite bool_decide_eq_false_2; [done|]. by intros [[_ ?%Hv] _]%Forall_cons.
  - eexists. rewrite bool_decide_eq_false_2; [done|]. intros [[? _] _]%Forall_cons. congruence.
Qed.

Lemma judge_path_spec o policy routing_policy amount_in path m :
  Forall known (path_hops path) → sound_policy policy →
  ∃ xs, Optimizer.judge_path checks o policy routing_policy g amount_in path m =
    Ok (bool_decide (eligible l (risk_validator o) policy routing_policy amount_in (path, m)), xs).
Proof.
  intros Hk Hp. unfold Optimizer.judge_path, eligible. cbn [fst snd].
  destruct (Z.ltb_spec (max_impact_bps policy) (impact_bps m)); cbn [try_].
  { exists []. rewrite bool_decide_eq_false_2; [done|]. lia. }
  destruct (sp_time _ Hp) as [Ht1 Ht2]. change (int_max U64 / 1000) with 18446744073709551 in Ht2.
  rewrite plain_fits by (unfold fits; cbn; lia). cbn [ok_or try_].
  destruct (Z.ltb_spec (max_compute_time_ms policy * 1000) (compute_time_us m)).
  { exists []. rewrite bool_decide_eq_false_2; [done|]. lia. }
  destruct (risk_validator o) as [c|].
  - destruct (check_hops_spec c routing_policy amount_in (impact_bps m) (path_hops path) Hk) as [xs ->]. exists xs.
    do 2 f_equal. apply bool_decide_ext. naive_solver.
  - exists []. do 2 f_equal. symmetry.
    destruct (forallb _ _) eqn:E; [apply bool_decide_eq_true_2|apply bool_decide_eq_false_2].
    + split_and!; [done..|]. apply Forall_forall. intros hop Hh%list_elem_of_In. rewrite forallb_forall in E. by split; [apply E|].
    + intros (_ & _ & Hf). apply not_true_iff_false in E. apply E, forallb_forall. intros hop Hh%list_elem_of_In.
      rewrite Forall_forall in Hf. by apply Hf.
Qed.

(** The measures of a path: what its hops leave, and the score of that. *)
Definition measured (es : list Edge) (s : RouteScorer) (policy : OptimizerPolicy) (amount_in elapsed : Z) (path : Path) : RouteMetrics :=
  let '(out, impact) := priced es amount_in 0 (path_hops path) in
  let hops := Z.of_nat (length (path_hops path)) in
  mkRouteMetrics out impact elapsed hops
    (fclamp (so_score (s (mkScorerInput out impact elapsed hops policy))) fzero (of_int 1)) fzero [].

(** The paths with their measures, the [i]-th with its time. *)
Fixpoint measure_all (es : list Edge) (s : RouteScorer) (policy : OptimizerPolicy) (amount_in : Z) (elapsed : nat → Z) (i : nat)
    (paths : list Path) : list (Path * RouteMetrics) :=
  match paths with
  | [] => []
  | path :: rest => (path, measured es s policy amount_in (elapsed i) path) :: measure_all es s policy amount_in elapsed (S i) rest
  end.

Context (o : HybridOptimizer) (policy : OptimizerPolicy) (s : RouteScorer).
Context (Hpolicy : policies o !! active_policy_name o = Some policy) (Hsound : sound_policy policy).
Context (Hscorer : scorers (scorer_registry o) !! active (scorer_registry o) = Some s) (Hsane : sane s).

Lemma metrics_spec path amount_in elapsed :
  Forall known (path_hops path) → 0 <= amount_in → amount_in * 9980 <= int_max I128 → fits U64 elapsed →
  Optimizer.calculate_route_metrics_compacted checks o path g amount_in elapsed = Ok (measured l s policy amount_in elapsed path) ∧
  unit_interval (score (measured l s policy amount_in elapsed path)).
Proof.
  intros Hk Ha Hb Ht. unfold Optimizer.calculate_route_metrics_compacted, measured, Optimizer.active_policy.
  destruct (cross_hops_spec (path_hops path) amount_in 0 Hk Ha Hb ltac:(done)) as (-> & Ho & Hi).
  destruct (priced l amount_in 0 (path_hops path)) as [out impact]. cbn [try_ fst snd] in *.
  rewrite Hpolicy. cbn [ok_or try_]. rewrite (scored_by _ _ _ Hscorer). cbn [try_ so_score score]. split; [done|].
  apply fclamp_unit, Hsane; cbn [si_policy si_output_amount si_impact_bps si_compute_time_us]; try done. cbn in Hb |- *. lia.
Qed.

Lemma score_paths_spec routing_policy amount_in elapsed paths i :
  Forall (λ p, Forall known (path_hops p)) paths → 0 <= amount_in → amount_in * 9980 <= int_max I128 → (∀ i, fits U64 (elapsed i)) →
  ∃ xs, Optimizer.score_paths checks o policy routing_policy g amount_in elapsed i paths =
    Ok (filter (eligible l (risk_validator o) policy routing_policy amount_in)
          (measure_all l s policy amount_in elapsed i paths), xs) ∧
    Forall (λ x, unit_interval (score x.2)) (measure_all l s policy amount_in elapsed i paths).
Proof.
  intros Hk Ha Hb Ht. revert i. induction Hk as [|path paths Hp _ IH]; intros i; [by exists []|].
  cbn [Optimizer.score_paths measure_all]. destruct (metrics_spec path amount_in (elapsed i) Hp Ha Hb (Ht i)) as [-> Hu]. cbn [try_].
  destruct (judge_path_spec o policy routing_policy amount_in path (measured l s policy amount_in (elapsed i) path) Hp Hsound) as [ys ->].
  cbn [try_]. destruct (IH (S i)) as (xs & -> & Hf). cbn [try_]. eexists. split; [|by constructor].
  rewrite filter_cons. by case_bool_decide; case_decide.
Qed.

End Measure.

(** ** The order of the results *)

Definition ranked (x y : Path * RouteMetrics) : Prop := flt (score x.2) (score y.2) = false.

Lemma unit_not_nan x : unit_interval x → x ≠ S754_nan.
Proof. intros H%unit_nonneg. by apply nonneg_not_nan. Qed.

Lemma sort_scored_spec xs :
  Forall (λ x, unit_interval (score x.2)) xs →
  ∃ ys, Optimizer.sort_scored xs = Ok ys ∧ ys ≡ₚ xs ∧ StronglySorted ranked ys.
Proof.
  intros Hu. unfold Optimizer.sort_scored.
  assert (existsb (λ x, Optimizer.is_nan (score x.2)) xs = false) as ->.
  { apply not_true_iff_false. rewrite existsb_exists. intros (x & Hx%list_elem_of_In & Hn).
    rewrite Forall_forall in Hu. specialize (Hu x Hx). apply unit_not_nan in Hu. by destruct (score x.2). }
  rewrite andb_false_r. eexists. split; [done|]. split; [apply stable_sort_perm|].
  apply (stable_sort_sorted _ (λ x, unit_interval (score x.2))); [| |done].
  - intros x y Hx%unit_not_nan Hy%unit_not_nan H%flt_key; [|done..]. apply not_true_iff_false.
    intros H'%flt_key; [|done..]. unfold key_lt in *. lia.
  - intros x y z Hx%unit_not_nan Hy%unit_not_nan Hz%unit_not_nan H%flt_key; [|done..]. rewrite <- !not_true_iff_false.
    intros Hn H'%flt_key; [|done..]. apply Hn, flt_key; [done..|]. unfold key_lt in *. lia.
Qed.

Lemma valid_route_known config policy l from to amount p :
  valid_route config policy l from to amount p → Forall (known l) (path_hops p).
Proof.
  intros (es & He & _ & _ & _ & _ & ->). cbn. apply Forall_fmap. eapply Forall_impl; [exact He|]. intros e [He' _]. by exists e.
Qed.

(** The candidates among which an optimizer chooses: the paths that were found, measured by
    its scorer, that are eligible. *)
Definition candidates (o : HybridOptimizer) (policy : OptimizerPolicy) (s : RouteScorer) (l : list Edge) (amount_in : Z)
    (routing_policy : RoutingPolicy) (elapsed : nat → Z) (paths : list Path) : list (Path * RouteMetrics) :=
  filter (eligible l (risk_validator o) policy routing_policy amount_in) (measure_all l s policy amount_in elapsed 0 paths).


(** ** Simulated shocks *)

Lemma score_paths_sub checks o policy routing_policy g amount elapsed i paths scored xs :
  Optimizer.score_paths checks o policy routing_policy g amount elapsed i paths = Ok (scored, xs) →
  ∀ x, x ∈ scored → x.1 ∈ paths.
Proof.
  revert i scored xs. induction paths as [|path paths IH]; intros i scored xs; cbn [Optimizer.score_paths].
  { intros [= <- <-] x ?%elem_of_nil. done. }
  intros H x Hx. apply try_Ok in H as (m & _ & H). apply try_Ok in H as ([kept ys] & _ & H).
  apply try_Ok in H as ([scored' xs'] & E & H). injection H as <- _.
  destruct kept; [apply elem_of_cons in Hx as [->|Hx]; [by left|]|]; right; by eapply IH.
Qed.

Lemma sort_scored_perm xs ys : Optimizer.sort_scored xs = Ok ys → ys ≡ₚ xs.
Proof. unfold Optimizer.sort_scored. destruct (_ && _); [done|]. intros [= <-]. apply stable_sort_perm. Qed.

(** Every route in a result is a valid route, whatever the configuration. *)
Lemma result_valid checks o from to l amount routing_policy elapsed d :
  compactable l → Optimizer.find_optimal_routes checks o from to l amount routing_policy elapsed = Some (Ok d) →
  ∀ x, x ∈ (selected_path d, metrics d) :: alternatives d →
    valid_route (pathfinder o) routing_policy l from to amount x.1.
Proof.
  intros Hl. unfold Optimizer.find_optimal_routes, Optimizer.find_optimal_routes_compacted.
  destruct (Optimizer.active_policy o) as [policy|]; [|done]. rewrite (to_edges_from_edges l Hl).
  assert (find_paths (pathfinder o) from to (flat_map (starting_at l) (Compaction.enter_assets l).2) amount routing_policy =
    find_paths (pathfinder o) from to l amount routing_policy) as -> by (unfold find_paths; by rewrite build_graph_grouped).
  destruct (find_paths _ _ _ _ _ _) as [[paths|]|] eqn:Ef; [|done..]. cbn [map_err try_]. intros [= H] x Hx. apply try_unit_Ok in H as [_ H].
  apply try_Ok in H as ([scored xs] & Es & H). apply try_unit_Ok in H as [_ H]. apply try_Ok in H as (ys & Hs & H).
  destruct ys as [|[path m] ys]; [done|]. injection H as <-. cbn [selected_path metrics alternatives] in Hx.
  eapply find_paths_elem; [exact Ef|]. eapply score_paths_sub; [exact Es|]. by rewrite <- (sort_scored_perm _ _ Hs).
Qed.

(** The venue offers nothing on any edge. *)
Definition drained (v : Str) (l : list Edge) : Prop := Forall (λ e, e_venue_ref e = v → e_liquidity e = 0) l.

Lemma shock_length l shock : length (Simulator.apply_shock l shock) = length l.
Proof. destruct shock; cbn; apply length_fmap. Qed.

Lemma shock_drained v l shock :
  drained v l ∨ shock = MarketShock.VenueOutage v → drained v (Simulator.apply_shock l shock).
Proof.
  unfold drained. intros H. destruct shock as [w q|w q|w]; cbn [Simulator.apply_shock]; rewrite Forall_fmap.
  - destruct H as [H|]; [|done]. eapply Forall_impl; [exact H|]. intros e He. unfold Simulator.at_venue. cbn.
    case_bool_decide; [|done]. cbn. intros Hv. rewrite (He Hv).
    destruct q as [|[]| |]; done.
  - destruct H as [H|]; [|done]. eapply Forall_impl; [exact H|]. intros e He. unfold Simulator.at_venue. cbn. by case_bool_decide.
  - apply Forall_forall. intros e He. unfold Simulator.at_venue. cbn. case_bool_decide as Hw; [done|]. intros Hv.
    destruct H as [H|[= ->]]; [|done]. rewrite Forall_forall in H. by apply H.
Qed.

Lemma shocks_drained v l shocks :
  drained v l ∨ MarketShock.VenueOutage v ∈ shocks → drained v (fold_left Simulator.apply_shock shocks l).
Proof.
  revert l. induction shocks as [|shock shocks IH]; intros l H; cbn [fold_left].
  - destruct H as [H|H%elem_of_nil]; done.
  - apply IH. destruct H as [H|[E|H]%elem_of_cons]; [left|left|by right]; apply shock_drained; auto.
Qed.

Lemma shocks_compactable l shocks : compactable l → compactable (fold_left Simulator.apply_shock shocks l).
Proof.
  revert l. induction shocks as [|shock shocks IH]; intros l Hl; cbn [fold_left]; [done|]. apply IH. destruct Hl as [Hn Hv].
  split; [by rewrite shock_length|]. destruct shock; cbn [Simulator.apply_shock]; apply Forall_fmap; (eapply Forall_impl; [exact Hv|]);
    intros e He; cbn; unfold Simulator.at_venue; by case_bool_decide.
Qed.

(** A simulated outage is felt. With a positive threshold on liquidity, whatever else
    happens to the market before or after the outage of a venue, no route that is chosen or
    offered in the shocked market goes over that venue. *)
Theorem outage_avoided checks o scenario l routing_policy elapsed elapsed' r v :
  compactable l → 0 < min_liquidity_threshold (pathfinder o) → MarketShock.VenueOutage v ∈ shocks scenario →
  Simulator.run_scenario checks o scenario l routing_policy elapsed elapsed' = Some (Ok r) →
  ∀ x hop, x ∈ (selected_path (shocked r), metrics (shocked r)) :: alternatives (shocked r) → hop ∈ path_hops x.1 →
    h_venue_ref hop ≠ v.
Proof.
  intros Hl Ht Hv H x hop Hx Hh Eh. unfold Simulator.run_scenario in H.
  apply bind_Some in H as ([base|] & _ & H); [|done]. apply bind_Some in H as (r' & Es & H). injection H as H.
  apply try_Ok in H as (d & -> & H). apply try_Ok in H as (delta & _ & H). injection H as <-. cbn [shocked] in Hx.
  pose proof (result_valid _ _ _ _ _ _ _ _ _ (shocks_compactable l (shocks scenario) Hl) Es x Hx) as (es & He & _ & _ & _ & _ & Ep).
  rewrite Ep in Hh. cbn in Hh. apply list_elem_of_fmap in Hh as (e & -> & Hin).
  rewrite Forall_forall in He. destruct (He e Hin) as [Hel Hadm].
  pose proof (shocks_drained v l (shocks scenario) (or_intror Hv)) as Hd. unfold drained in Hd. rewrite Forall_forall in Hd.
  specialize (Hd e Hel Eh). unfold admissible in Hadm.
  destruct (Z.ltb_spec (e_liquidity e) (min_liquidity_threshold (pathfinder o))); [|lia].
  by repeat case_match.
Qed.

(** ** Where the code departs from what it means to do *)

(** A pool whose input reserve exceeds its output reserve ten million times has the price
    zero before the trade: a quote that has a positive output divides by it. *)
Theorem lopsided_pool_panics checks amount x y fee :
  let net := amount * (10000 - fee) / 10000 in
  0 < amount → 0 < x → 0 < y → 0 <= fee <= 10000 → y * SCALE_1E7 < x → x + net <= net * y →
  fits I128 (amount * SCALE_1E7 * BASIS_POINTS) → fits I128 (net * y) → fits I128 (x + net) →
  Impact.quote_constant_product checks amount x y fee = Err Panic.
Proof.
  intros net Ha Hx Hy Hf Hlop Hout H1 H2 H3. unfold Impact.quote_constant_product.
  destruct (net_of_fee amount (10000 - fee) ltac:(lia) ltac:(lia)) as [[Hn Hn'] _].
  rewrite Z.quot_div_nonneg in Hn, Hn' by nia. fold net in Hn, Hn'.
  unfold SCALE_1E7, BASIS_POINTS in *. unfold fits in H1, H2, H3. cbn in H1, H2, H3.
  rewrite (proj2 (Z.leb_gt amount 0) Ha), (proj2 (Z.leb_gt x 0) Hx), (proj2 (Z.leb_gt y 0) Hy). cbn [orb].
  rewrite (proj2 (Z.ltb_ge 10000 fee)) by lia.
  rewrite plain128_fits by (unfold fits; cbn; nia). cbn [try_]. rewrite Z.quot_div_nonneg by nia. fold net.
  rewrite (proj2 (checked128_Ok (net * y) _)) by (by split; [|unfold fits; cbn; lia]). cbn [try_].
  rewrite (proj2 (checked128_Ok (x + net) _)) by (by split; [|unfold fits; cbn; lia]). cbn [try_].
  rewrite (proj2 (Z.eqb_neq (x + net) 0)) by lia. rewrite Z.quot_div_nonneg by nia.
  assert (1 <= net * y / (x + net) < amount) as Ho.
  { split; [apply Z.div_le_lower_bound; lia|apply Z.div_lt_upper_bound; nia]. }
  set (out := net * y / (x + net)) in *. clearbody out. rewrite (proj2 (Z.leb_gt out 0)) by lia.
  rewrite !plain128_fits by (unfold fits; cbn; lia). cbn [try_]. rewrite !Z.quot_div_nonneg by lia.
  rewrite (Z.div_small (y * 10000000) x) by lia.
  assert (10000000 <= amount * 10000000 / out <= amount * 10000000) as Hp.
  { split; [apply Z.div_le_lower_bound; nia|apply Z.div_le_upper_bound; nia]. }
  unfold Impact.impact_above. rewrite (proj2 (Z.ltb_lt 0 _)) by lia.
  rewrite plain128_fits by (unfold fits; cbn; lia). cbn [try_].
  rewrite plain128_fits by (unfold BASIS_POINTS, fits; cbn; lia). done.
Qed.

Lemma lopsided_pool_panics_witness : Impact.quote_constant_product true 1000000000 2000000000 100 30 = Err Panic.
Proof. apply lopsided_pool_panics; vm_compute; repeat split; discriminate. Defined.

(** The price before is taken as output over input and the price after as input over output.
    Selling a millionth of the input reserve of a pool moves its price by next to nothing
    and is reported as an impact of 100,000,001 basis points; paying fifty times the input
    reserve takes 98 percent of the output reserve and is reported as no impact at all. *)
Theorem pool_impact_inverted :
  Impact.quote_constant_product true 1000000 1000000000000 10000000000 0 = Ok (9999, 100000001) ∧
  Impact.quote_constant_product true 500000000000 10000000000 1000000000000 0 = Ok (980392156862, 0).
Proof. by split. Qed.

(** ** A small market *)

Definition market_edge (from to venue_type venue_ref : Str) (provider : option Str) : Edge :=
  mkLiquidityEdge f64 from to venue_type venue_ref 5000000 (of_int 1) 30 provider None.

(** A pool and an order book between the same assets, and a way around. *)
Definition market : list Edge :=
  [market_edge $"XLM" $"USDC" $"amm" $"pool:1" None; market_edge $"XLM" $"USDC" $"sdex" $"book:1" None;
   market_edge $"XLM" $"EURC" $"sdex" $"book:2" None; market_edge $"EURC" $"USDC" $"AMM" $"pool:2" None].

Definition nan_policy : OptimizerPolicy := mkOptimizerPolicy S754_nan S754_nan S754_nan 500 1000 $"custom" None.

(** Weights that are not numbers pass the validation, which only compares; the scores are
    then not numbers either, and comparing two routes panics. *)
Theorem nan_weights_panic :
  ∃ o o', Optimizer.add_policy (Optimizer.new default_config None) nan_policy = Ok o ∧
    Optimizer.set_active_policy o $"custom" = Ok o' ∧
    Optimizer.find_optimal_routes true o' $"XLM" $"USDC" market 1000000 default_policy (λ _, 0) = Some (Err Panic).
Proof. eexists _, _. split; [reflexivity|]. split; [reflexivity|]. vm_compute. reflexivity. Qed.

(** The clamp of a score keeps what is not a number. *)
Theorem clamp_keeps_nan r (s : RouteScorer) input :
  scorers r !! active r = Some s → so_score (s input) = S754_nan →
  ∃ out, Scorer.score r input = Ok out ∧ so_score out = S754_nan.
Proof.
  intros Hs Hn. rewrite (scored_by r s input Hs). eexists. split; [done|]. cbn [so_score]. by rewrite Hn.
Qed.

(** Comparing the policies leaves the optimizer with the policy whose turn failed. *)
Theorem failed_benchmark_switches_policy checks o from to amount routing_policy elapsed name rest p :
  policies o !! name = Some p → from ≠ [] → to ≠ [] → from ≠ to → 0 < amount →
  ∃ o' e, Optimizer.benchmark_policies checks o from to [] amount routing_policy elapsed (name :: rest) = Some (o', Err e) ∧
    active_policy_name o' = name.
Proof.
  intros Hp Hf Ht Hne Ha. unfold Optimizer.benchmark_policies. cbn [Optimizer.run_policies]. unfold Optimizer.set_active_policy.
  rewrite (bool_decide_eq_true_2 (is_Some (policies o !! name))) by eauto. cbn [negb reject try_].
  unfold Optimizer.find_optimal_routes, Optimizer.find_optimal_routes_compacted, Optimizer.active_policy. cbn [policies active_policy_name].
  rewrite Hp. cbn [ok_or pathfinder].
  assert (Compaction.to_edges (Compaction.from_edges []) = Some []) as -> by reflexivity.
  destruct (find_paths_spec (pathfinder o) from to ([] : list Edge) amount routing_policy Hf Ht Hne Ha) as (ps & Hv & _ & ->).
  destruct ps as [|path ps].
  - rewrite decide_True by done. cbn. by eexists _, _.
  - destruct (proj1 (Hv path)) as (es & He & Hch & _); [by left|]. destruct es as [|e es]; [cbn in Hch; congruence|].
    apply Forall_cons in He as [[?%elem_of_nil _] _]. done.
Qed.

(** ** Examples *)

(** A hundred thousand units into a balanced pool with a fee of thirty basis points. *)
Lemma amm_quote_sound_witness :
  let quote := Impact.quote_constant_product true 100000 10000000 10000000 30 in
  quote = Ok (98715, 130) ∧ 0 < 98715 < 10000000 ∧ 10000000 * 10000000 <= (10000000 + 99700) * (10000000 - 98715).
Proof.
  intros quote. assert (quote = Ok (98715, 130)) as E by reflexivity.
  destruct (amm_quote_sound true 100000 10000000 10000000 30 98715 130) as (_ & H1 & H2 & _);
    [vm_compute; discriminate|left; reflexivity|exact E|]. exact (conj E (conj H1 H2)).
Defined.

(** Without overflow checks the amount less its fee wraps: a pool of a million each quotes an
    output of 996 for an input of 34130628577827328331331455108503329, which would take
    all but one unit of the reserve. *)
Theorem unchecked_quote_wraps :
  let amount := 34130628577827328331331455108503329 in
  fst <$> match Impact.quote_constant_product false amount 1000000 1000000 30 with Ok r => Some r | Err _ => None end = Some 996 ∧
  (amount * 9970 / 10000) * 1000000 / (1000000 + amount * 9970 / 10000) = 999999.
Proof. split; by vm_compute. Qed.

Lemma reverse_quote_sufficient_witness :
  Impact.quote_constant_product_reverse true 98715 10000000 10000000 30 = Ok (100001, 130) ∧
  Impact.quote_constant_product true 100001 10000000 10000000 30 = Ok (98715, 130) ∧ 98715 <= 98715.
Proof.
  split; [reflexivity|]. split; [reflexivity|].
  apply (reverse_quote_sufficient true 98715 10000000 10000000 30 100001 130 98715 130);
    [vm_compute; discriminate|vm_compute; split; discriminate|vm_compute; split; discriminate|reflexivity|reflexivity].
Defined.

Lemma book_walks_down_witness :
  let levels := [(10000000, 600); (11000000, 500); (12000000, 500)] in
  Impact.calculate_impact true 1000 levels = Ok (400, 10400000, [(600, 10000000); (400, 11000000)]) ∧
  walks_down 1000 levels [(600, 10000000); (400, 11000000)].
Proof.
  intros levels. split; [reflexivity|].
  apply (book_walks_down 1000 levels 400 10400000 [(600, 10000000); (400, 11000000)]). reflexivity.
Defined.

Lemma market_compactable : compactable market.
Proof. split; [vm_compute; discriminate|]. repeat (apply Forall_cons; split; [discriminate|]). apply Forall_nil_2. Qed.

Lemma compaction_faithful_witness :
  ∃ l, Compaction.to_edges (Compaction.from_edges market) = Some l ∧ l ≡ₚ market ∧
    find_paths default_config $"XLM" $"USDC" l 1000000 default_policy =
    find_paths default_config $"XLM" $"USDC" market 1000000 default_policy.
Proof.
  destruct (compaction_faithful market market_compactable) as (l & sources & E & Hp & _ & _ & Hf). exists l.
  exact (conj E (conj Hp (Hf default_config $"XLM" $"USDC" 1000000 default_policy))).
Defined.

Lemma update_in_place_witness :
  ∃ l, update_list $"XLM" $"book:1" 7 fzero market = Some l ∧
    Compaction.update_edge (Compaction.from_edges market) $"XLM" $"book:1" 7 fzero = Ok (Compaction.from_edges l, true).
Proof. eexists. split; [reflexivity|]. apply (update_in_place market). vm_compute. discriminate. Defined.


(** The order book fails, and the pool takes its place. *)
Definition outage : SimulationScenario :=
  mkSimulationScenario $"outage" $"XLM" $"USDC" 1000000 [MarketShock.VenueOutage $"book:1"; MarketShock.PriceJump $"book:1" (of_int 1)] 1.

Lemma outage_avoided_witness :
  ∃ r, Simulator.run_scenario true (Optimizer.new default_config None) outage market default_policy (λ _, 5) (λ _, 5) = Some (Ok r) ∧
    h_venue_ref <$> path_hops (selected_path (baseline r)) = [$"book:1"] ∧
    ∀ hop, hop ∈ path_hops (selected_path (shocked r)) → h_venue_ref hop ≠ $"book:1".
Proof.
  eexists. split; [vm_compute; reflexivity|]. split; [reflexivity|].
  intros hop Hh. eapply (outage_avoided true (Optimizer.new default_config None) outage market default_policy (λ _, 5) (λ _, 5));
    [apply market_compactable|reflexivity|left|vm_compute; reflexivity|left|exact Hh].
Defined.
