(* ===== verification/RoutingTools.v ===== *)
(** * Helpers of the routing library (routing: normalization.rs, amm_fallback.rs,
      adaptive_timeout.rs, adaptive_routing.rs, execution_quality.rs, consensus.rs,
      health/anomaly.rs)

    Decimal amounts and levels of liquidity, the tiers of data to fall back to, timeouts
    and budgets that adapt, weights and agreement of sources, sudden changes of liquidity;
    then the theorems on them. Times and the values that atomic cells hold when they are
    read are arguments. *)

From stdpp Require Import base decidable strings numbers list gmap sorting.
From Stdlib Require Import SpecFloat.
From S2P Require Import Prelude RustStr Result F64 ChainAsset Policy Pathfinder HealthProps Optimizer OptimizerProps.

Local Open Scope Z_scope.
Local Open Scope str_scope.
Local Open Scope result_scope.

(** ** normalization.rs *)

Module Normalization.

Inductive VenueType := Sdex | Amm.

Record SdexLevelInput := mkSdexLevelInput {
  offer_id : Z;
  level_price : Str;
  level_amount : Str;
}.

Record AmmReserveInput := mkAmmReserveInput {
  pool_address : Str;
  reserve_selling : Str;
  reserve_buying : Str;
  reserve_fee_bps : Z;
}.

Record NormalizedLiquidityLevel := mkNormalizedLiquidityLevel {
  venue_type : VenueType;
  venue_ref : Str;
  price_e7 : Z;
  available_amount_e7 : Z;
}.

Definition all_digits (s : Str) : bool := forallb is_ascii_digit s.

Definition parse_decimal_to_e7 (value : Str) : Result Z RoutingError :=
  let trimmed := trim value in
  if bool_decide (trimmed = []) then Err (RoutingError.Normalization $"decimal value cannot be empty")
  else if starts_with $"-" trimmed then Err (RoutingError.InvalidAmount $"negative decimal values are not supported")
  else
    let parts := split dot trimmed in
    let int_part := default $"0" (parts !! 0%nat) in
    let frac_part := default [] (parts !! 1%nat) in
    reject (bool_decide (is_Some (parts !! 2%nat))) (RoutingError.DecimalPrecision ($"invalid decimal format: " ++ value));;
    reject (negb (all_digits int_part) || negb (all_digits frac_part))
      (RoutingError.DecimalPrecision ($"non-digit decimal value: " ++ value));;
    reject (7 <? str_len frac_part)
      (RoutingError.DecimalPrecision ($"more than 7 decimal places is not allowed: " ++ value));;
    int_value ← ok_or (parse_sint I128 int_part) (RoutingError.DecimalPrecision ($"invalid integer part: " ++ value));
    frac_value ← (if bool_decide (frac_part = []) then Ok 0
                  else ok_or (parse_sint I128 frac_part)
                         (RoutingError.DecimalPrecision ($"invalid fractional part: " ++ value)));
    scale_factor ← ok_or (chk I128 (10 ^ (7 - str_len frac_part))) RoutingError.Overflow;
    v ← ok_or (checked_mul I128 int_value SCALE_1E7) RoutingError.Overflow;
    f ← ok_or (checked_mul I128 frac_value scale_factor) RoutingError.Overflow;
    ok_or (checked_add I128 v f) RoutingError.Overflow.

Definition normalize_sdex_level (level : SdexLevelInput) : Result NormalizedLiquidityLevel RoutingError :=
  reject (offer_id level <=? 0) (RoutingError.Normalization $"offer_id must be positive");;
  price ← parse_decimal_to_e7 (level_price level);
  amount ← parse_decimal_to_e7 (level_amount level);
  reject ((price <=? 0) || (amount <=? 0)) (RoutingError.InvalidAmount $"SDEX price and amount must be > 0");;
  Ok (mkNormalizedLiquidityLevel Sdex (display (offer_id level)) price amount).

(** The loop stops at the first error. *)
Fixpoint collect {A B E} (f : A → Result B E) (l : list A) : Result (list B) E :=
  match l with
  | [] => Ok []
  | x :: l => y ← f x; ys ← collect f l; Ok (y :: ys)
  end.

(** [sort_by_key(|a| a.price_e7)] *)
Definition sort_levels : list NormalizedLiquidityLevel → list NormalizedLiquidityLevel :=
  stable_sort (λ x y, price_e7 x <? price_e7 y).

Definition normalize_sdex_levels (inputs : list SdexLevelInput) : Result (list NormalizedLiquidityLevel) RoutingError :=
  normalized ← collect normalize_sdex_level inputs;
  Ok (sort_levels normalized).

Definition normalize_amm_reserve (input : AmmReserveInput) : Result NormalizedLiquidityLevel RoutingError :=
  reject (bool_decide (trim (pool_address input) = [])) (RoutingError.Normalization $"pool_address is required");;
  reject (10000 <? reserve_fee_bps input) (RoutingError.Normalization $"fee_bps must be in [0, 10000]");;
  selling ← parse_decimal_to_e7 (reserve_selling input);
  buying ← parse_decimal_to_e7 (reserve_buying input);
  reject ((selling <=? 0) || (buying <=? 0)) (RoutingError.InvalidAmount $"AMM reserves must be > 0");;
  net ← ok_or (checked_mul I128 buying (10000 - reserve_fee_bps input)) RoutingError.Overflow;
  numerator ← ok_or (checked_mul I128 net SCALE_1E7) RoutingError.Overflow;
  denominator ← ok_or (checked_mul I128 selling 10000) RoutingError.Overflow;
  reject (denominator =? 0) (RoutingError.InvalidAmount $"reserve_selling cannot be zero");;
  let price := Z.quot numerator denominator in
  reject (price <=? 0) (RoutingError.InvalidAmount $"computed AMM price must be > 0");;
  Ok (mkNormalizedLiquidityLevel Amm (pool_address input) price selling).

Definition normalize_liquidity (sdex_levels : list SdexLevelInput) (amm_reserves : list AmmReserveInput) :
    Result (list NormalizedLiquidityLevel) RoutingError :=
  levels ← normalize_sdex_levels sdex_levels;
  pools ← collect normalize_amm_reserve amm_reserves;
  Ok (sort_levels (levels ++ pools)).

End Normalization.

(** ** amm_fallback.rs *)

Module Fallback.

Inductive AmmFallbackTier := LiveAmm | CachedAmm | SdexOnly | Empty.

(** [Display] *)
Definition to_string (t : AmmFallbackTier) : Str :=
  match t with
  | LiveAmm => $"live_amm"
  | CachedAmm => $"cached_amm"
  | SdexOnly => $"sdex_only"
  | Empty => $"empty"
  end.

(** Durations in nanoseconds. *)
Record AmmFallbackConfig := mkAmmFallbackConfig {
  live_threshold : Z;
  max_cache_age : Z;
  allow_sdex_fallback : bool;
}.

(** [AmmFallbackConfig::default] *)
Definition default_fallback : AmmFallbackConfig := mkAmmFallbackConfig (60 * 10 ^ 9) (300 * 10 ^ 9) true.

Record AmmEdgeWithAge := mkAmmEdgeWithAge {
  edge : Edge;
  data_age : Z;
}.

Record FallbackResult := mkFallbackResult {
  tier : AmmFallbackTier;
  kept_edges : list Edge;
  reason : Str;
  dropped_edge_count : Z;
}.

Inductive FallbackError := NoViableEdges.

(** The edges of a tier, when it has any. *)
Definition try_tier (t : AmmFallbackTier) (reason : Str) (p : AmmEdgeWithAge → bool) (candidates : list AmmEdgeWithAge) :
    option FallbackResult :=
  match edge <$> List.filter p candidates with
  | [] => None
  | kept => Some (mkFallbackResult t kept reason (Z.of_nat (length candidates) - Z.of_nat (length kept)))
  end.

Definition amm_within (limit : Z) (c : AmmEdgeWithAge) : bool :=
  bool_decide (e_venue_type (edge c) = $"amm") && (data_age c <? limit).

Definition is_sdex (c : AmmEdgeWithAge) : bool := bool_decide (e_venue_type (edge c) = $"sdex").

Definition resolve (config : AmmFallbackConfig) (candidates : list AmmEdgeWithAge) : Result FallbackResult FallbackError :=
  match try_tier LiveAmm $"fresh AMM data available" (amm_within (live_threshold config)) candidates with
  | Some r => Ok r
  | None =>
      match try_tier CachedAmm $"AMM data is stale but within cache window" (amm_within (max_cache_age config)) candidates with
      | Some r => Ok r
      | None =>
          if allow_sdex_fallback config then
            match try_tier SdexOnly $"AMM data unavailable; routing via SDEX only" is_sdex candidates with
            | Some r => Ok r
            | None => Err NoViableEdges
            end
          else Err NoViableEdges
      end
  end.

End Fallback.

(** ** adaptive_timeout.rs *)

(** [x.max(y)]: a NaN gives way to the other value. *)
Definition fmax (x y : f64) : f64 :=
  match x, y with
  | S754_nan, _ => y
  | _, S754_nan => x
  | _, _ => if flt x y then y else x
  end.

Module Timeout.

Record TimeoutConfig := mkTimeoutConfig {
  base_timeout_ms : Z;
  min_timeout_ms : Z;
  max_timeout_ms : Z;
  ema_alpha : f64;
}.

(** [TimeoutConfig::default] *)
Definition default_timeouts : TimeoutConfig := mkTimeoutConfig 500 100 2000 (of_decimal false 1 (-1)).

(** The value that the loop of [record_latency] tries to store over what it has read. *)
Definition new_ema (c : TimeoutConfig) (current_ema latency_ms : Z) : Z :=
  to_int U64 (fadd (fmul (of_int current_ema) (fsub (of_int 1) (ema_alpha c))) (fmul (of_int latency_ms) (ema_alpha c))).

(** [latency.as_millis() as u64], the duration in nanoseconds. *)
Definition latency_ms (latency : Z) : Z := wrap U64 (latency / 10 ^ 6).

(** The shared cell and the calls of [record_latency] that run: what each was given, in
    milliseconds, and what it has read last. [done] are the calls that returned, in the
    order in which they stored. *)
Record Recorders := mkRecorders {
  ema_latency_ms : Z;
  running : list (Z * Z);
  done : list Z;
}.

(** [TimeoutController::new] *)
Definition new (c : TimeoutConfig) : Recorders := mkRecorders (base_timeout_ms c) [] [].

(** A call reads the cell; the exchange succeeds and the call returns; or it fails, perhaps
    for no reason, and the call has read the cell again. *)
Inductive record_step (c : TimeoutConfig) : Recorders → Recorders → Prop :=
| record_load s latency :
    record_step c s (mkRecorders (ema_latency_ms s) ((latency_ms latency, ema_latency_ms s) :: running s) (done s))
| record_store s l1 ms l2 :
    running s = l1 ++ (ms, ema_latency_ms s) :: l2 →
    record_step c s (mkRecorders (new_ema c (ema_latency_ms s) ms) (l1 ++ l2) (done s ++ [ms]))
| record_retry s l1 ms read l2 :
    running s = l1 ++ (ms, read) :: l2 →
    record_step c s (mkRecorders (ema_latency_ms s) (l1 ++ (ms, ema_latency_ms s) :: l2) (done s)).

(** In milliseconds; [clamp] panics ([None]) when the bounds are reversed. *)
Definition calculate_timeout (c : TimeoutConfig) (ema : Z) (health_score : f64) : option Z :=
  let adjusted_ema := fmax (fmul (of_int ema) (of_decimal false 15 (-1))) (of_int (base_timeout_ms c)) in
  let target_ms := fmul adjusted_ema (fmax health_score (of_decimal false 2 (-1))) in
  let final_ms := to_int U64 target_ms in
  if min_timeout_ms c <=? max_timeout_ms c then Some (Z.max (min_timeout_ms c) (Z.min final_ms (max_timeout_ms c))) else None.

End Timeout.

(** ** adaptive_routing.rs *)

Module Adaptive.

Record AdaptivePolicy := mkAdaptivePolicy {
  min_latency_ms : Z;
  max_latency_ms : Z;
  min_quality : f64;
  tuning_step : f64;
}.

(** [AdaptivePolicy::default] *)
Definition default_adaptive : AdaptivePolicy := mkAdaptivePolicy 10 500 (of_decimal false 7 (-1)) (of_decimal false 5 (-2)).

Record QualityMetrics := mkQualityMetrics {
  q_latency_ms : Z;
  quality_score : f64;
  routes_explored : Z;
  best_price_found : f64;
}.

(** The atomic cells. *)
Record AdaptiveRouter := mkAdaptiveRouter {
  frozen : bool;
  current_latency_budget : Z;
  total_requests : Z;
  quality_sum : Z;
}.

Inductive AdaptiveError := Frozen | QualityBelowThreshold.

(** [None]: the sum of the bounds overflows in a build that checks. *)
Definition new (checks : bool) (p : AdaptivePolicy) : option AdaptiveRouter :=
  (λ sum, mkAdaptiveRouter false (Z.quot sum 2) 0 0) <$> plain checks U64 (min_latency_ms p + max_latency_ms p).

Definition freeze (r : AdaptiveRouter) : AdaptiveRouter :=
  mkAdaptiveRouter true (current_latency_budget r) (total_requests r) (quality_sum r).

Definition unfreeze (r : AdaptiveRouter) : AdaptiveRouter :=
  mkAdaptiveRouter false (current_latency_budget r) (total_requests r) (quality_sum r).

Definition mean (sum total : Z) : f64 := fdiv (of_int sum) (fmul (of_int total) (of_int 1000)).

(** The budget that is stored, from the values that were read. *)
Definition tuned_budget (p : AdaptivePolicy) (m : QualityMetrics) (sum total current_budget : Z) : Z :=
  let avg_quality := mean sum total in
  let new_budget :=
    if (q_latency_ms m <? current_budget) && fgt avg_quality (of_decimal false 85 (-2)) then
      to_int U64 (fmul (of_int current_budget) (fadd (of_int 1) (tuning_step p)))
    else if (current_budget <? q_latency_ms m) && flt avg_quality (of_decimal false 75 (-2)) then
      to_int U64 (fmul (of_int current_budget) (fsub (of_int 1) (tuning_step p)))
    else current_budget in
  Z.min (Z.max new_budget (min_latency_ms p)) (max_latency_ms p).

(** A call that no other interrupts. [fetch_add] wraps. *)
Definition adapt (p : AdaptivePolicy) (m : QualityMetrics) (r : AdaptiveRouter) : AdaptiveRouter * Result unit AdaptiveError :=
  if frozen r then (r, Err Frozen)
  else if flt (quality_score m) (min_quality p) then (r, Err QualityBelowThreshold)
  else
    let total := wrap U64 (total_requests r + 1) in
    let sum := wrap U64 (quality_sum r + to_int U64 (fmul (quality_score m) (of_int 1000))) in
    (mkAdaptiveRouter (frozen r) (tuned_budget p m sum total (current_latency_budget r)) total sum, Ok tt).

Definition avg_quality (r : AdaptiveRouter) : f64 :=
  if total_requests r =? 0 then fzero else mean (quality_sum r) (total_requests r).

End Adaptive.

(** ** execution_quality.rs *)

Module Quality.

Record QualityTrackerConfig := mkQualityTrackerConfig {
  ema_alpha : f64;
  default_weight : f64;
  bound_min : f64;
  bound_max : f64;
  error_penalty : f64;
}.

(** [QualityTrackerConfig::default], with [WeightBounds::default]. *)
Definition default_tracker : QualityTrackerConfig :=
  mkQualityTrackerConfig (of_decimal false 1 (-1)) (of_decimal false 5 (-1)) (of_decimal false 1 (-1)) (of_decimal false 95 (-2))
    (of_decimal false 5 (-1)).

(** Without the name of the source, under which it is stored. *)
Record SourceState := mkSourceState {
  quality_ema : f64;
  error_rate_ema : f64;
  weight : f64;
  observation_count : Z;
}.

Record QualityObservation := mkQualityObservation {
  source : Str;
  quality_score : f64;
  is_error : bool;
}.

(** [alpha * signal + (1.0 - alpha) * ema] *)
Definition smooth (alpha signal ema : f64) : f64 := fadd (fmul alpha signal) (fmul (fsub (of_int 1) alpha) ema).

(** The states by source, under the lock. [None]: the counter overflows in a build that
    checks, or [clamp] panics because the bounds are not in order. *)
Definition record (checks : bool) (c : QualityTrackerConfig) (obs : QualityObservation) (state : gmap Str SourceState) :
    option (gmap Str SourceState) :=
  let score := fclamp (quality_score obs) fzero (of_int 1) in
  let error_signal := if is_error obs then of_int 1 else fzero in
  let entry := default (mkSourceState (default_weight c) fzero (default_weight c) 0) (state !! source obs) in
  let quality := smooth (ema_alpha c) score (quality_ema entry) in
  let errors := smooth (ema_alpha c) error_signal (error_rate_ema entry) in
  plain checks U64 (observation_count entry + 1) ≫= λ count,
  let raw_weight := fmul quality (fsub (of_int 1) (fmul (error_penalty c) errors)) in
  if fle (bound_min c) (bound_max c) then
    Some (<[source obs := mkSourceState quality errors (fclamp raw_weight (bound_min c) (bound_max c)) count]> state)
  else None.

Definition current_weights (state : gmap Str SourceState) : gmap Str f64 := weight <$> state.

Definition weight_for (c : QualityTrackerConfig) (state : gmap Str SourceState) (source : Str) : f64 :=
  from_option weight (default_weight c) (state !! source).

Definition apply_to_policy_weights (state : gmap Str SourceState) (weights : gmap Str f64) : gmap Str f64 :=
  current_weights state ∪ weights.

End Quality.

(** ** consensus.rs *)

Module Consensus.

Record ConsensusPolicy := mkConsensusPolicy {
  source_weights : gmap Str f64;
  freshness_window : Z;
  consensus_threshold : f64;
}.

(** [ConsensusPolicy::default] *)
Definition default_consensus : ConsensusPolicy := mkConsensusPolicy ∅ 5 (of_decimal false 6 (-1)).

Record RouteCandidate := mkRouteCandidate {
  source : Str;
  hops : list Str;
  price : f64;
  timestamp : Z;
}.

Record ConsensusDiagnostics := mkConsensusDiagnostics {
  winning_route : RouteCandidate;
  runner_ups : list RouteCandidate;
  consensus_score : f64;
  conflict_detected : bool;
  resolution_reason : Str;
}.

Inductive ConsensusError := NoCandidates | NoConsensus (msg : Str).

Definition half : f64 := of_decimal false 5 (-1).

Definition weighted (p : ConsensusPolicy) (now : Z) (c : RouteCandidate) : RouteCandidate * f64 :=
  let base_weight := default half (source_weights p !! source c) in
  let freshness_penalty := if freshness_window p <? saturating_sub U64 now (timestamp c) then half else of_int 1 in
  (c, fmul (fmul base_weight freshness_penalty) (fdiv (of_int 1) (fadd (price c) (of_decimal false 1 (-3))))).

Definition close (top s : f64) : bool := flt (fabs (fsub s top)) (of_decimal false 1 (-2)).

(** When one of several scores is NaN the order that the sort leaves is not specified: [None]. *)
Definition resolve (p : ConsensusPolicy) (now : Z) (candidates : list RouteCandidate) :
    option (Result ConsensusDiagnostics ConsensusError) :=
  let scores := weighted p now <$> candidates in
  if (2 <=? length scores)%nat && existsb (λ x, match x.2 with S754_nan => true | _ => false end) scores then None
  else Some (
    match stable_sort (λ x y : RouteCandidate * f64, flt y.2 x.2) scores with
    | [] => Err NoCandidates
    | (winner, top_score) :: others =>
        let agreeing := List.filter (λ x, close top_score x.2) ((winner, top_score) :: others) in
        let consensus_weight := fold_left (λ acc _, fadd acc (default half (source_weights p !! ([] : Str)))) agreeing fzero in
        let conflict :=
          match others with
          | [] => false
          | (_, second) :: _ => flt (fdiv (fabs (fsub top_score second)) top_score) (of_decimal false 15 (-2))
          end in
        Ok (mkConsensusDiagnostics winner (fst <$> others) (Scorer.fmin consensus_weight (of_int 1)) conflict
              (if conflict then $"Price threshold difference < 15%"
               else $"Source '" ++ source winner ++ $"' selected by weight"))
    end).

End Consensus.

(** ** health/anomaly.rs *)

Module Anomaly.

Record AnomalyPoolThresholds := mkAnomalyPoolThresholds {
  pool_reserve_delta_threshold : option f64;
  pool_alert_threshold : option f64;
}.

Record AnomalyConfig := mkAnomalyConfig {
  reserve_delta_threshold : f64;
  depth_collapse_threshold : f64;
  alert_threshold : f64;
  per_pool : gmap Str AnomalyPoolThresholds;
  stale_read_is_anomaly : bool;
  max_reserve_age_secs : Z;
}.

(** [AnomalyConfig::default] *)
Definition default_anomalies : AnomalyConfig :=
  mkAnomalyConfig (of_decimal false 5 (-1)) (of_decimal false 8 (-1)) (of_decimal false 7 (-1)) ∅ true 120.

(** Without the name of the venue, under which it is stored. *)
Record VenueHistory := mkVenueHistory {
  last_reserves : option (Z * Z);
  last_depth : option Z;
  last_updated_at : Z;
}.

Record AnomalyResult := mkAnomalyResult {
  r_venue_ref : Str;
  r_score : f64;
  r_reasons : list Str;
}.

Definition thresholds_for (c : AnomalyConfig) (venue_ref : Str) : f64 * f64 :=
  match per_pool c !! venue_ref with
  | Some pool => (default (reserve_delta_threshold c) (pool_reserve_delta_threshold pool),
                  default (alert_threshold c) (pool_alert_threshold pool))
  | None => (reserve_delta_threshold c, alert_threshold c)
  end.

(** [format!("{:.1}", x)] *)
Definition print1 (s : bool) (n : Z) : Str := (if s then [45] else []) ++ digits 309 (n / 10) ++ [dot] ++ fixed_digits 1 n.

Definition format1 (x : f64) : Str :=
  match x with
  | S754_zero s => print1 s 0
  | S754_infinity s => (if s then [45] else []) ++ $"inf"
  | S754_nan => $"NaN"
  | S754_finite s m e => print1 s (if 0 <=? e then Zpos m * 2 ^ e * 10 else div_even (Zpos m * 10) (2 ^ (- e)))
  end.

Definition percent (x : f64) : Str := format1 (fmul x (of_int 100)) ++ $"%".

Definition point9 : f64 := of_decimal false 9 (-1).

(** A finding: the score is raised and a reason is added. *)
Definition raise (score : f64) (reason : Str) (s : f64 * list Str) : f64 * list Str := (fmax s.1 score, s.2 ++ [reason]).

(** Times in nanoseconds. *)
Definition check_age (c : AnomalyConfig) (now : Z) (reserve_updated_at : option Z) (s : f64 * list Str) : f64 * list Str :=
  if stale_read_is_anomaly c then
    match reserve_updated_at with
    | None => raise point9 $"Stale read: missing reserve_updated_at" s
    | Some ts =>
        let age_secs := Z.max (Z.quot (now - ts) (10 ^ 9)) 0 in
        if max_reserve_age_secs c <? age_secs then
          raise point9 ($"Stale read: reserve_updated_at age " ++ display age_secs ++ $"s > " ++ display (max_reserve_age_secs c) ++ $"s") s
        else s
    end
  else s.

(** [(current - last) / last] *)
Definition change (last current : Z) : f64 := fdiv (fsub (of_int current) (of_int last)) (of_int last).

Definition scaled (x threshold : f64) : f64 := fmul (Scorer.fmin (fdiv x threshold) (of_int 1)) point9.

Definition check_reserves (threshold : f64) (last current : option (Z * Z)) (s : f64 * list Str) : f64 * list Str :=
  match last, current with
  | Some (last_a, last_b), Some (curr_a, curr_b) =>
      if (0 <? last_a) && (0 <? last_b) then
        let delta_a := change last_a curr_a in
        let delta_b := change last_b curr_b in
        let abs_max_delta := fmax (fabs delta_a) (fabs delta_b) in
        if fgt abs_max_delta threshold then
          let dir := if flt delta_a fzero && flt delta_b fzero then $"drain" else $"spike" in
          raise (scaled abs_max_delta threshold)
            ($"AMM reserve " ++ dir ++ $": " ++ percent abs_max_delta ++ $" (threshold " ++ percent threshold ++ $")") s
        else s
      else s
  | _, _ => s
  end.

Definition check_depth (c : AnomalyConfig) (last current : option Z) (s : f64 * list Str) : f64 * list Str :=
  match last, current with
  | Some last_d, Some curr_d =>
      if 0 <? last_d then
        let collapse := fdiv (fsub (of_int last_d) (of_int curr_d)) (of_int last_d) in
        if fgt collapse (depth_collapse_threshold c) then
          raise (scaled collapse (depth_collapse_threshold c)) ($"Significant depth collapse: " ++ percent collapse) s
        else s
      else s
  | _, _ => s
  end.

(** The detector's history by venue. *)
Definition update_and_detect (c : AnomalyConfig) (now : Z) (venue_ref : Str) (current_reserves : option (Z * Z))
    (current_depth : option Z) (reserve_updated_at : option Z) (history : gmap Str VenueHistory) :
    gmap Str VenueHistory * AnomalyResult :=
  let threshold := (thresholds_for c venue_ref).1 in
  let h := default (mkVenueHistory current_reserves current_depth now) (history !! venue_ref) in
  let s := check_depth c (last_depth h) current_depth
             (check_reserves threshold (last_reserves h) current_reserves (check_age c now reserve_updated_at (fzero, []))) in
  (<[venue_ref := mkVenueHistory current_reserves current_depth now]> history,
   mkAnomalyResult venue_ref (Scorer.fmin (fclamp s.1 fzero (of_int 1)) (of_int 1)) s.2).

Definition is_anomalous (c : AnomalyConfig) (r : AnomalyResult) : bool := fle (thresholds_for c (r_venue_ref r)).2 (r_score r).

End Anomaly.

(** * Theorems *)

(** ** Decimals *)

Lemma digits_value_app s a : fold_left (λ a c, 10 * a + (c - 48)) s a = a * 10 ^ Z.of_nat (length s) + digits_value s.
Proof.
  unfold digits_value. revert a. induction s as [|c s IH]; intros a; cbn [fold_left length].
  - rewrite Z.pow_0_r. lia.
  - rewrite (IH (10 * a + (c - 48))), (IH (10 * 0 + (c - 48))), Nat2Z.inj_succ, Z.pow_succ_r by lia. lia.
Qed.

Lemma is_digit c : is_ascii_digit c = true ↔ 48 <= c <= 57.
Proof. unfold is_ascii_digit. rewrite andb_true_iff, !Z.leb_le. lia. Qed.

Lemma digits_value_nonneg s : Forall (λ c, is_ascii_digit c = true) s → 0 <= digits_value s < 10 ^ Z.of_nat (length s).
Proof.
  induction 1 as [|c s Hc _ IH]; [done|]. unfold digits_value. cbn [fold_left length].
  rewrite digits_value_app, Nat2Z.inj_succ, Z.pow_succ_r by lia. apply is_digit in Hc. nia.
Qed.

(** Parsing digits gives their value, unless it is out of range. *)
Lemma parse_i128_digits s a :
  Forall (λ c, is_ascii_digit c = true) s → 0 <= a <= int_max I128 →
  fold_left (parse_digit I128) s (Some a) = chk I128 (fold_left (λ a c, 10 * a + (c - 48)) s a).
Proof.
  intros Hs. revert a. induction Hs as [|c s Hc Hs IH]; intros a Ha.
  - cbn [fold_left]. rewrite chk_fits; [done|]. unfold fits. cbn in *. lia.
  - cbn [fold_left parse_digit]. rewrite Hc. apply is_digit in Hc.
    pose proof (digits_value_nonneg s Hs) as Hv. pose proof (Z.pow_pos_nonneg 10 (Z.of_nat (length s)) ltac:(lia) ltac:(lia)) as Hp.
    assert (∀ l, fold_left (parse_digit I128) l None = None) as Hnone by (induction l; done).
    unfold checked_mul, checked_add.
    assert (∀ x, int_max I128 < x → chk I128 (fold_left (λ a c, 10 * a + (c - 48)) s x) = None) as Hbig.
    { intros x Hx. apply chk_None. rewrite digits_value_app. unfold fits. cbn in *. nia. }
    destruct (decide (10 * a <= int_max I128)) as [H1|H1].
    + rewrite (chk_fits I128 (a * 10)) by (unfold fits; cbn in *; lia).
      destruct (decide (10 * a + (c - 48) <= int_max I128)) as [H2|H2].
      * rewrite chk_fits by (unfold fits; cbn in *; lia). rewrite IH by (cbn in *; lia). do 2 f_equal. lia.
      * rewrite (proj2 (chk_None I128 (a * 10 + (c - 48)))) by (unfold fits; cbn in *; lia). rewrite Hnone, Hbig by lia. done.
    + rewrite (proj2 (chk_None I128 (a * 10))) by (unfold fits; cbn in *; lia). rewrite Hnone, Hbig by lia. done.
Qed.

Lemma parse_sint_digits s :
  s ≠ [] → Forall (λ c, is_ascii_digit c = true) s → parse_sint I128 s = chk I128 (digits_value s).
Proof.
  intros Hne Hs. unfold digits_value. rewrite <- parse_i128_digits by (done || (cbn; lia)).
  destruct s as [|c s]; [done|]. pose proof Hs as [Hc _]%Forall_cons. apply is_digit in Hc.
  assert (parse_uint I128 (c :: s) = fold_left (parse_digit I128) (c :: s) (Some 0)) as Hu.
  { unfold parse_uint. rewrite (proj2 (Z.eqb_neq c 43)) by lia. done. }
  unfold parse_sint. destruct s as [|c' s]; [done|]. by rewrite (proj2 (Z.eqb_neq c 45)) by lia.
Qed.

Lemma all_digits_spec s : Normalization.all_digits s = true ↔ Forall (λ c, is_ascii_digit c = true) s.
Proof.
  unfold Normalization.all_digits. rewrite forallb_forall, Forall_forall. by setoid_rewrite <- list_elem_of_In.
Qed.

Lemma split_plain d s : d ∉ s → split d s = [s].
Proof.
  induction s as [|c s IH]; [done|]. intros [Hc Hs]%not_elem_of_cons. cbn [split].
  rewrite (proj2 (Z.eqb_neq c d)) by done. by rewrite IH.
Qed.

Lemma split_at d a b : d ∉ a → split d (a ++ d :: b) = a :: split d b.
Proof.
  induction a as [|c a IH]; intros Ha; cbn [app split]; [by rewrite Z.eqb_refl|].
  apply not_elem_of_cons in Ha as [Hc Ha]. rewrite (proj2 (Z.eqb_neq c d)) by done. by rewrite IH.
Qed.

Lemma digits_no_dot s : Forall (λ c, is_ascii_digit c = true) s → dot ∉ s.
Proof. intros H Hd. rewrite Forall_forall in H. by specialize (H dot Hd). Qed.

(** The text of a decimal: digits, and perhaps a point and up to seven more. *)
Definition decimal_text (s i f : Str) : Prop :=
  ((s = i ∧ f = []) ∨ s = i ++ dot :: f) ∧ i ≠ [] ∧ Forall (λ c, is_ascii_digit c = true) i ∧
  Forall (λ c, is_ascii_digit c = true) f ∧ (length f <= 7)%nat.

(** Its value in units of 10^-7. *)
Definition decimal_e7 (i f : Str) : Z := digits_value i * 10 ^ 7 + digits_value f * 10 ^ (7 - Z.of_nat (length f)).

Lemma decimal_parts s i f :
  decimal_text s i f →
  split dot s !! 0%nat = Some i ∧ default [] (split dot s !! 1%nat) = f ∧ split dot s !! 2%nat = None ∧
  s ≠ [] ∧ starts_with $"-" s = false.
Proof.
  intros (Hs & Hne & Hi & Hf & _). assert (∃ c i', i = c :: i' ∧ c ≠ 45) as (c & i' & -> & Hc).
  { destruct i as [|c i']; [done|]. exists c, i'. split; [done|]. apply Forall_cons in Hi as [Hc%is_digit _]. lia. }
  apply digits_no_dot in Hi, Hf. assert (starts_with $"-" s = false ∧ s ≠ []) as [? ?].
  { rewrite <- not_true_iff_false, starts_with_spec. destruct Hs as [[-> _]| ->]; split; try done; intros [r [= ? _]]; done. }
  destruct Hs as [[-> ->]| ->]; [by rewrite split_plain|]. by rewrite split_at, split_plain.
Qed.

Lemma str_len_digits s : Forall (λ c, is_ascii_digit c = true) s → str_len s = Z.of_nat (length s).
Proof. intros H. apply str_len_ascii. eapply Forall_impl; [exact H|]. intros c Hc%is_digit. lia. Qed.

Lemma decimal_e7_bounds i f :
  Forall (λ c, is_ascii_digit c = true) i → Forall (λ c, is_ascii_digit c = true) f → (length f <= 7)%nat →
  0 <= digits_value i ∧ 0 <= digits_value f * 10 ^ (7 - Z.of_nat (length f)) < 10 ^ 7.
Proof.
  intros Hi Hf Hl. apply digits_value_nonneg in Hi, Hf. split; [lia|].
  replace (10 ^ 7) with (10 ^ Z.of_nat (length f) * 10 ^ (7 - Z.of_nat (length f))); [nia|].
  rewrite <- Z.pow_add_r by lia. f_equal. lia.
Qed.

Lemma decimal_run value i f :
  decimal_text (trim value) i f →
  Normalization.parse_decimal_to_e7 value =
    (_ ← ok_or (chk I128 (digits_value i)) (RoutingError.DecimalPrecision ($"invalid integer part: " ++ value));
     ok_or (chk I128 (decimal_e7 i f)) RoutingError.Overflow).
Proof.
  intros Ht. destruct (decimal_parts _ _ _ Ht) as (E0 & E1 & E2 & Hne & Hm). destruct Ht as (_ & Hine & Hi & Hf & Hl).
  unfold Normalization.parse_decimal_to_e7. rewrite bool_decide_eq_false_2 by done. rewrite Hm, E0, E1, E2. cbn [from_option id].
  rewrite bool_decide_eq_false_2 by (by intros []). cbn [reject try_].
  rewrite (proj2 (all_digits_spec i) Hi), (proj2 (all_digits_spec f) Hf). cbn [negb orb reject try_].
  rewrite str_len_digits by done. rewrite (proj2 (Z.ltb_ge 7 _)) by lia. cbn [reject try_].
  destruct (decimal_e7_bounds i f Hi Hf Hl) as [Hi0 Hf7]. pose proof (digits_value_nonneg f Hf) as Hfv.
  assert (0 < 10 ^ (7 - Z.of_nat (length f)) <= 10 ^ 7) as Hp by (split; [apply Z.pow_pos_nonneg; lia|apply Z.pow_le_mono_r; lia]).
  rewrite parse_sint_digits by done. destruct (chk I128 (digits_value i)) as [v|] eqn:Ev; [|done]. cbn [ok_or try_].
  apply chk_Some in Ev as [-> Hfit].
  assert (10 ^ Z.of_nat (length f) <= 10 ^ 7) by (apply Z.pow_le_mono_r; lia).
  assert ((if bool_decide (f = []) then Ok 0
           else ok_or (parse_sint I128 f) (RoutingError.DecimalPrecision ($"invalid fractional part: " ++ value))) =
    Ok (digits_value f)) as ->.
  { case_bool_decide as E; [by rewrite E|]. rewrite parse_sint_digits, chk_fits; [done| |done..]. unfold fits. cbn in *. lia. }
  cbn [try_]. rewrite (chk_fits I128 (10 ^ _)) by (unfold fits; cbn in *; lia). cbn [ok_or try_].
  unfold checked_mul, checked_add, SCALE_1E7, decimal_e7.
  rewrite (chk_fits I128 (digits_value f * _)) by (unfold fits; cbn in *; lia).
  change 10000000 with (10 ^ 7). destruct (chk I128 (digits_value i * 10 ^ 7)) as [v|] eqn:Ev.
  - apply chk_Some in Ev as [-> _]. done.
  - apply chk_None in Ev. cbn [ok_or try_].
    rewrite (proj2 (chk_None _ _)); [done|]. unfold fits in *. cbn in *. lia.
Qed.

(** Decimal amounts are read exactly: a text is accepted, as a number of units of 10^-7, if
    and only if, trimmed, it is digits with perhaps a point and at most seven digits more
    whose value is that number, and the number fits. *)
Theorem decimal_exact value n :
  Normalization.parse_decimal_to_e7 value = Ok n ↔
  ∃ i f, decimal_text (trim value) i f ∧ n = decimal_e7 i f ∧ n <= int_max I128.
Proof.
  split.
  - intros H.
    assert (∃ i f, decimal_text (trim value) i f) as (i & f & Ht).
    { unfold Normalization.parse_decimal_to_e7 in H. case_bool_decide as Hne; [done|]. destruct (starts_with _ _); [done|].
      apply try_unit_Ok in H as [H2%reject_Ok H]. apply bool_decide_eq_false in H2.
      apply try_unit_Ok in H as [Hd%reject_Ok H]. apply orb_false_iff in Hd as [Hi%negb_false_iff Hf%negb_false_iff].
      apply all_digits_spec in Hi, Hf. apply try_unit_Ok in H as [Hl%reject_Ok H]. apply Z.ltb_ge in Hl.
      rewrite str_len_digits in Hl by done. apply try_Ok in H as (iv & Hiv & _).
      exists (default $"0" (split dot (trim value) !! 0%nat)), (default [] (split dot (trim value) !! 1%nat)).
      split_and!; [|intros E; by rewrite E in Hiv|done|done|lia].
      destruct (decide (dot ∈ trim value)) as [(a & b & E & Ha)%list_elem_of_split_l|Hno]; [|left; by rewrite split_plain].
      right. rewrite E in *. rewrite split_at in * by done. cbn [lookup list_lookup from_option id] in *.
      destruct (decide (dot ∈ b)) as [(a' & b' & E' & Ha')%list_elem_of_split_l|Hno].
      - destruct H2. rewrite E'. rewrite split_at by done. cbn. destruct (split dot b') eqn:Es; [|by eexists].
        by destruct b'; cbn in Es; repeat case_match.
      - by rewrite split_plain. }
    exists i, f. split; [done|]. rewrite (decimal_run _ _ _ Ht) in H. rinv. apply chk_Some in H as [-> [_ ?]]. done.
  - intros (i & f & Ht & -> & Hn). rewrite (decimal_run _ _ _ Ht). destruct Ht as (_ & _ & Hi & Hf & Hl).
    destruct (decimal_e7_bounds i f Hi Hf Hl). unfold decimal_e7 in *.
    rewrite !chk_fits by (unfold fits; cbn in *; lia). done.
Qed.

(** ** Levels of liquidity *)

Section Levels.

Import Normalization.

Definition cheaper (x y : NormalizedLiquidityLevel) : Prop := price_e7 x <= price_e7 y.

Lemma sort_levels_spec l : sort_levels l ≡ₚ l ∧ StronglySorted cheaper (sort_levels l).
Proof.
  split; [apply stable_sort_perm|].
  eapply sorted_impl; [|apply (stable_sort_sorted _ (λ _, True)); [| |by apply Forall_true]].
  - intros x y H. unfold in_order in H. apply Z.ltb_ge in H. done.
  - intros x y _ _. rewrite Z.ltb_lt, Z.ltb_ge. lia.
  - intros x y z _ _ _. rewrite Z.ltb_lt, !Z.ltb_ge. lia.
Qed.

Lemma collect_Ok {A B E} (f : A → Result B E) l ys : collect f l = Ok ys ↔ Forall2 (λ x y, f x = Ok y) l ys.
Proof.
  revert ys. induction l as [|x l IH]; intros ys; cbn [collect].
  - split; [by intros [= <-]|]. by inversion 1.
  - rewrite try_Ok. setoid_rewrite try_Ok. split.
    + intros (y & Hy & ys' & Hc & [= <-]). constructor; [done|]. by apply IH.
    + inversion 1; subst. eexists. split; [done|]. eexists. split; [by apply IH|done].
Qed.

Definition positive_level (x : NormalizedLiquidityLevel) : Prop := 0 < price_e7 x ∧ 0 < available_amount_e7 x.

Lemma sdex_level_positive level x : normalize_sdex_level level = Ok x → positive_level x.
Proof.
  unfold normalize_sdex_level. intros H. rinv. rewrite orb_false_iff, !Z.leb_gt in *. by unfold positive_level.
Qed.

Lemma amm_level_positive input x : normalize_amm_reserve input = Ok x → positive_level x.
Proof.
  unfold normalize_amm_reserve. intros H. rinv. rewrite ?orb_false_iff, ?Z.leb_gt in *. unfold positive_level. cbn. by intuition.
Qed.

(** Normalized liquidity is a book. If the levels of the order book and of the pools are
    normalized, the result is exactly the normalized levels, by ascending price, all with
    positive prices and amounts: a list that the impact calculator never refuses as
    invalid. *)
Theorem normalized_is_book sdex pools levels :
  normalize_liquidity sdex pools = Ok levels →
  (∃ xs ys, Forall2 (λ i x, normalize_sdex_level i = Ok x) sdex xs ∧ Forall2 (λ i y, normalize_amm_reserve i = Ok y) pools ys ∧
     levels ≡ₚ xs ++ ys) ∧
  StronglySorted cheaper levels ∧
  (levels ≠ [] → Impact.is_book_valid ((λ x, (price_e7 x, available_amount_e7 x)) <$> levels) = true).
Proof.
  unfold normalize_liquidity, normalize_sdex_levels. intros H. apply try_Ok in H as (l & H1 & H).
  apply try_Ok in H1 as (xs & Hx & H1). injection H1 as <-. apply try_Ok in H as (ys & Hy & H). injection H as <-.
  apply collect_Ok in Hx, Hy. destruct (sort_levels_spec (sort_levels xs ++ ys)) as [Hp Hs].
  assert (sort_levels (sort_levels xs ++ ys) ≡ₚ xs ++ ys) as Hp' by (by rewrite Hp, (proj1 (sort_levels_spec xs))).
  split; [by exists xs, ys|]. split; [done|]. intros Hne. unfold Impact.is_book_valid.
  apply andb_true_iff. split; [by rewrite bool_decide_eq_false_2 by (by intros ?%fmap_nil_inv)|].
  assert (Forall positive_level (sort_levels (sort_levels xs ++ ys))) as Hpos.
  { rewrite Hp', Forall_app. split.
    - eapply Forall2_Forall_r; [exact Hx|]. apply Forall_true. intros i x. apply sdex_level_positive.
    - eapply Forall2_Forall_r; [exact Hy|]. apply Forall_true. intros i x. apply amm_level_positive. }
  apply forallb_forall. intros [p a] (x & [= -> ->] & Hin)%list_elem_of_In%list_elem_of_fmap. rewrite Forall_forall in Hpos.
  destruct (Hpos x Hin). apply andb_true_iff. rewrite !Z.ltb_lt. done.
Qed.

End Levels.

(** ** Fallback *)

Section Fallback.

Import Fallback.

(** The candidates that belong to a tier. *)
Definition in_tier (c : AmmFallbackConfig) (t : AmmFallbackTier) (x : AmmEdgeWithAge) : bool :=
  match t with
  | LiveAmm => amm_within (live_threshold c) x
  | CachedAmm => amm_within (max_cache_age c) x
  | SdexOnly => allow_sdex_fallback c && is_sdex x
  | Empty => false
  end.

Definition tier_rank (t : AmmFallbackTier) : Z :=
  match t with
  | LiveAmm => 0
  | CachedAmm => 1
  | SdexOnly => 2
  | Empty => 3
  end.

Lemma try_tier_spec t msg p l :
  match try_tier t msg p l with
  | Some r => List.filter p l ≠ [] ∧ tier r = t ∧ kept_edges r = edge <$> List.filter p l ∧
      dropped_edge_count r = Z.of_nat (length (List.filter (λ x, negb (p x)) l))
  | None => List.filter p l = []
  end.
Proof.
  unfold try_tier. destruct (List.filter p l) as [|x xs] eqn:E; [done|]. rewrite fmap_cons. cbn [tier kept_edges dropped_edge_count].
  split_and!; [done..|]. pose proof (filter_length p l) as Hl. rewrite E in Hl. cbn [length] in *. rewrite length_fmap. lia.
Qed.

Lemma filter_nil_forall {A} (p : A → bool) l : List.filter p l = [] ↔ Forall (λ x, p x = false) l.
Proof.
  induction l as [|x l IH]; cbn [List.filter]; [by split|]. rewrite Forall_cons. destruct (p x); naive_solver.
Qed.

(** The best tier that has data is used: the edges that are kept are exactly the candidates
    of the reported tier, there is one, and no better tier has a candidate; there is an
    error exactly when no tier has one. *)
Theorem fallback_best_tier c l :
  match resolve c l with
  | Ok r => kept_edges r = edge <$> List.filter (in_tier c (tier r)) l ∧ kept_edges r ≠ [] ∧
      dropped_edge_count r = Z.of_nat (length (List.filter (λ x, negb (in_tier c (tier r) x)) l)) ∧
      ∀ t, tier_rank t < tier_rank (tier r) → Forall (λ x, in_tier c t x = false) l
  | Err _ => ∀ t, Forall (λ x, in_tier c t x = false) l
  end.
Proof.
  unfold resolve.
  pose proof (try_tier_spec LiveAmm $"fresh AMM data available" (amm_within (live_threshold c)) l) as H0.
  destruct (try_tier LiveAmm _ _ _) as [r|].
  { destruct H0 as (Hne & -> & -> & ->). split_and!; [done|by intros ?%fmap_nil_inv|done|]. intros []; cbn; lia. }
  pose proof (try_tier_spec CachedAmm $"AMM data is stale but within cache window" (amm_within (max_cache_age c)) l) as H1.
  destruct (try_tier CachedAmm _ _ _) as [r|].
  { destruct H1 as (Hne & -> & -> & ->). split_and!; [done|by intros ?%fmap_nil_inv|done|].
    intros []; cbn; try lia. intros _. by apply filter_nil_forall. }
  assert (∀ l : list AmmEdgeWithAge, Forall (λ _, false = false) l) as Hf by (intros l'; by apply Forall_true).
  destruct (allow_sdex_fallback c) eqn:Ea.
  - pose proof (try_tier_spec SdexOnly $"AMM data unavailable; routing via SDEX only" is_sdex l) as H2.
    destruct (try_tier SdexOnly _ _ _) as [r|].
    + destruct H2 as (Hne & -> & -> & ->). unfold in_tier at 1 2. rewrite Ea. cbn [andb].
      split_and!; [done|by intros ?%fmap_nil_inv|done|]. intros []; cbn; try lia; intros _; by apply filter_nil_forall.
    + intros []; cbn; rewrite ?Ea; try done; by apply filter_nil_forall.
  - intros []; cbn; rewrite ?Ea; try done; by apply filter_nil_forall.
Qed.

(** One fresh pool, and every order book is left out of the result, however fresh. *)
Theorem live_tier_drops_books c l r e :
  resolve c l = Ok r → tier r = LiveAmm → e ∈ kept_edges r → e_venue_type e = $"amm".
Proof.
  intros Hr Ht He. pose proof (fallback_best_tier c l) as H. rewrite Hr in H. destruct H as (Hk & _). rewrite Hk, Ht in He.
  apply list_elem_of_fmap in He as (x & -> & Hx%list_elem_of_In%filter_In). destruct Hx as [_ Hx]. cbn in Hx.
  unfold amm_within in Hx. apply andb_true_iff in Hx as [Hx _]. by apply bool_decide_eq_true in Hx.
Qed.

End Fallback.

(** ** Timeouts *)

(** A timeout is between its bounds, whatever was measured and whatever the health is. *)
Theorem timeout_bounded c ema health :
  Timeout.min_timeout_ms c <= Timeout.max_timeout_ms c →
  ∃ t, Timeout.calculate_timeout c ema health = Some t ∧ Timeout.min_timeout_ms c <= t <= Timeout.max_timeout_ms c.
Proof.
  intros H. unfold Timeout.calculate_timeout. rewrite (proj2 (Z.leb_le _ _) H). eexists. split; [done|]. lia.
Qed.

(** No measurement is lost: however calls of [record_latency] interleave and however often
    exchanges fail, the average is the one after the calls that returned, one after the
    other in some order. *)
Theorem latencies_not_lost c s :
  rtc (Timeout.record_step c) (Timeout.new c) s →
  Timeout.ema_latency_ms s = fold_left (Timeout.new_ema c) (Timeout.done s) (Timeout.base_timeout_ms c).
Proof.
  assert (∀ s0 s, rtc (Timeout.record_step c) s0 s →
    Timeout.ema_latency_ms s0 = fold_left (Timeout.new_ema c) (Timeout.done s0) (Timeout.base_timeout_ms c) →
    Timeout.ema_latency_ms s = fold_left (Timeout.new_ema c) (Timeout.done s) (Timeout.base_timeout_ms c)) as H;
    [|intros Hr; by apply (H _ _ Hr)].
  induction 1 as [|s0 s1 s' Hs _ IH]; [done|]. intros E. apply IH.
  destruct Hs; cbn [Timeout.ema_latency_ms Timeout.done]; [done| |done]. by rewrite fold_left_app, <- E.
Qed.

(** ** Budgets *)

(** Whatever values the cells had when a call read them, the budget that it stores is
    within the bounds. *)
Lemma tuned_budget_bounded p m sum total budget :
  Adaptive.min_latency_ms p <= Adaptive.max_latency_ms p →
  Adaptive.min_latency_ms p <= Adaptive.tuned_budget p m sum total budget <= Adaptive.max_latency_ms p.
Proof. intros H. unfold Adaptive.tuned_budget. lia. Qed.

(** The router over any sequence of calls. *)
Inductive adapted (p : Adaptive.AdaptivePolicy) : Adaptive.AdaptiveRouter → Prop :=
| adapted_new checks r : Adaptive.new checks p = Some r → adapted p r
| adapted_freeze r : adapted p r → adapted p (Adaptive.freeze r)
| adapted_unfreeze r : adapted p r → adapted p (Adaptive.unfreeze r)
| adapted_adapt r m : adapted p r → adapted p (Adaptive.adapt p m r).1.

Theorem budget_bounded p r :
  0 <= Adaptive.min_latency_ms p <= Adaptive.max_latency_ms p → Adaptive.max_latency_ms p < 2 ^ 63 → adapted p r →
  Adaptive.min_latency_ms p <= Adaptive.current_latency_budget r <= Adaptive.max_latency_ms p.
Proof.
  intros Hp Hm. induction 1 as [checks r Hr|r _ IH|r _ IH|r m _ IH].
  - unfold Adaptive.new in Hr. rewrite plain_fits in Hr by (unfold fits; cbn; lia). injection Hr as <-. cbn.
    rewrite Z.quot_div_nonneg by lia. pose proof (Z.div_mod (Adaptive.min_latency_ms p + Adaptive.max_latency_ms p) 2).
    pose proof (Z.mod_pos_bound (Adaptive.min_latency_ms p + Adaptive.max_latency_ms p) 2). lia.
  - done.
  - done.
  - unfold Adaptive.adapt. destruct (Adaptive.frozen r); [done|]. destruct (flt _ _); [done|]. cbn. apply tuned_budget_bounded. lia.
Qed.

(** With the default policy a budget below twenty milliseconds never grows again: five
    percent of it are rounded away. *)
Theorem small_budget_stuck m sum total budget :
  10 <= budget < 20 → Adaptive.tuned_budget Adaptive.default_adaptive m sum total budget <= budget.
Proof.
  intros Hb. unfold Adaptive.tuned_budget.
  assert (∀ b, 10 <= b < 20 →
    to_int U64 (fmul (of_int b) (fadd (of_int 1) (Adaptive.tuning_step Adaptive.default_adaptive))) <= b ∧
    to_int U64 (fmul (of_int b) (fsub (of_int 1) (Adaptive.tuning_step Adaptive.default_adaptive))) <= b) as H.
  { assert (forallb (λ b,
      (to_int U64 (fmul (of_int b) (fadd (of_int 1) (Adaptive.tuning_step Adaptive.default_adaptive))) <=? b) &&
      (to_int U64 (fmul (of_int b) (fsub (of_int 1) (Adaptive.tuning_step Adaptive.default_adaptive))) <=? b)) (seqZ 10 10) = true)
      as Hall by (vm_compute; reflexivity).
    intros b Hb'. rewrite forallb_forall in Hall. specialize (Hall b).
    rewrite andb_true_iff, !Z.leb_le in Hall. apply Hall, list_elem_of_In, elem_of_seqZ. lia. }
  destruct (H budget Hb). change (Adaptive.min_latency_ms Adaptive.default_adaptive) with 10.
  destruct (_ && _); [lia|]. destruct (_ && _); lia.
Qed.

(** ** Weights of sources *)

Lemma not_flt_fle x y : x ≠ S754_nan → y ≠ S754_nan → flt x y = false → fle y x = true.
Proof.
  intros Hx Hy. unfold flt, fle, SFltb, SFleb. rewrite (SFcompare_antisym x y).
  assert (is_Some (SFcompare x y)) as [c ->] by (destruct x as [|[]| |[]], y as [|[]| |[]]; by eauto). by destruct c.
Qed.

Lemma fle_not_nan x y : fle x y = true → x ≠ S754_nan ∧ y ≠ S754_nan.
Proof. by destruct x as [|[]| |[]], y as [|[]| |[]]. Qed.

(** Clamping a number puts it between the bounds. *)
Lemma fclamp_between x lo hi :
  x ≠ S754_nan → fle lo hi = true → fle lo (fclamp x lo hi) = true ∧ fle (fclamp x lo hi) hi = true.
Proof.
  intros Hx Hb. destruct (fle_not_nan _ _ Hb) as [Hlo Hhi]. unfold fclamp, fgt.
  destruct (flt x lo) eqn:E1.
  - destruct (flt hi lo) eqn:E2; by split; rewrite ?fle_refl.
  - destruct (flt hi x) eqn:E2; [by split; rewrite ?fle_refl|]. by split; apply not_flt_fle.
Qed.

(** The trackers that can be reached. *)
Inductive tracked (checks : bool) (c : Quality.QualityTrackerConfig) : gmap Str Quality.SourceState → Prop :=
| tracked_new : tracked checks c ∅
| tracked_record obs st st' : tracked checks c st → Quality.record checks c obs st = Some st' → tracked checks c st'.

Lemma record_insert checks c obs st st' :
  Quality.record checks c obs st = Some st' →
  ∃ e, st' = <[Quality.source obs := e]> st ∧
    Quality.quality_ema e = Quality.smooth (Quality.ema_alpha c) (fclamp (Quality.quality_score obs) fzero (of_int 1))
      (from_option Quality.quality_ema (Quality.default_weight c) (st !! Quality.source obs)) ∧
    fle (Quality.bound_min c) (Quality.bound_max c) = true ∧
    ∃ x, Quality.weight e = fclamp (fmul (Quality.quality_ema e) x) (Quality.bound_min c) (Quality.bound_max c).
Proof.
  unfold Quality.record. intros H. apply bind_Some in H as (count & _ & H). destruct (fle _ _) eqn:E; [|done]. injection H as <-.
  eexists. split; [done|]. cbn [Quality.quality_ema Quality.weight]. split_and!; [|done|by eexists].
  by destruct (st !! Quality.source obs).
Qed.

(** Every weight is between its bounds, or not a number. *)
Theorem weights_bounded checks c st source e :
  tracked checks c st → st !! source = Some e →
  Quality.weight e = S754_nan ∨
  fle (Quality.bound_min c) (Quality.weight e) = true ∧ fle (Quality.weight e) (Quality.bound_max c) = true.
Proof.
  intros Ht. revert e. induction Ht as [|obs st st' _ IH H]; intros e; [by rewrite lookup_empty|].
  apply record_insert in H as (e' & -> & _ & Hb & x & Hw). rewrite lookup_insert_Some. intros [[_ <-]|[_ He]]; [|by apply IH].
  rewrite Hw. destruct (fmul (Quality.quality_ema e') x) eqn:Em; [right|right|by left; destruct (Quality.bound_min c), (Quality.bound_max c)|right];
    by apply fclamp_between.
Qed.

Lemma smooth_nan alpha x y : x = S754_nan ∨ y = S754_nan → Quality.smooth alpha x y = S754_nan.
Proof.
  unfold Quality.smooth, fadd, fmul. intros [-> | ->].
  - by destruct alpha.
  - assert (∀ z, SFmul prec emax z S754_nan = S754_nan) as -> by (by intros []). by destruct (SFmul _ _ alpha x).
Qed.

(** One observation whose score is not a number makes the weight of its source not a number
    for ever, whatever is observed later. *)
Theorem nan_observation_sticks checks c obs st st1 later st2 :
  Quality.quality_score obs = S754_nan → Quality.record checks c obs st = Some st1 →
  foldl (λ r o, r ≫= Quality.record checks c o) (Some st1) later = Some st2 →
  Quality.weight_for c st2 (Quality.source obs) = S754_nan.
Proof.
  intros Hn Hr Hl.
  set (stuck := λ st : gmap Str Quality.SourceState, ∃ e, st !! Quality.source obs = Some e ∧
    Quality.quality_ema e = S754_nan ∧ Quality.weight e = S754_nan).
  assert (∀ e x, Quality.quality_ema e = S754_nan → Quality.weight e = fclamp (fmul (Quality.quality_ema e) x) (Quality.bound_min c) (Quality.bound_max c) →
    Quality.weight e = S754_nan) as Hw.
  { intros e x Hq ->. rewrite Hq. cbn. by destruct (Quality.bound_min c), (Quality.bound_max c). }
  assert (stuck st1) as H1.
  { apply record_insert in Hr as (e & -> & Hq & _ & x & Hx). exists e. rewrite lookup_insert_eq. split; [done|].
    rewrite Hn, smooth_nan in Hq by (by left). split; [done|by eapply Hw]. }
  assert (stuck st2) as (e & He & _ & Hwe); [|unfold Quality.weight_for; by rewrite He].
  clear Hr. revert st1 H1 Hl. induction later as [|o later IH]; intros st1 H1 Hl; cbn [foldl] in Hl; [congruence|].
  cbn [mbind option_bind] in Hl. destruct (Quality.record checks c o st1) as [st'|] eqn:E.
  - apply (IH st'); [|done]. apply record_insert in E as (e & -> & Hq & _ & x & Hx). destruct H1 as (e1 & He1 & Hq1 & Hw1).
    destruct (decide (Quality.source o = Quality.source obs)) as [Hs|Hs].
    + exists e. rewrite Hs, lookup_insert_eq. split; [done|]. rewrite Hs, He1 in Hq. cbn in Hq. rewrite Hq1, smooth_nan in Hq by (by right).
      split; [done|by eapply Hw].
    + exists e1. by rewrite lookup_insert_ne.
  - exfalso. clear -Hl. induction later; [done|]. by apply IHlater.
Qed.

(** ** Consensus *)

Section Consensus.

Import Consensus.

Definition score_of (p : ConsensusPolicy) (now : Z) (c : RouteCandidate) : f64 := (weighted p now c).2.

(** The winner is a candidate with the highest score, and the others are the rest. There is
    an error only without candidates: consensus is never refused. *)
Theorem winner_scores_highest p now cs r :
  resolve p now cs = Some r →
  match r with
  | Ok d => winning_route d :: runner_ups d ≡ₚ cs ∧
      ∀ c, c ∈ runner_ups d → flt (score_of p now (winning_route d)) (score_of p now c) = false
  | Err e => e = NoCandidates ∧ cs = []
  end.
Proof.
  unfold resolve. set (before := λ x y : RouteCandidate * f64, flt y.2 x.2). destruct (_ && _) eqn:Hn; [done|].
  pose proof (stable_sort_perm before (weighted p now <$> cs)) as Hp.
  intros [= <-]. destruct (stable_sort before (weighted p now <$> cs)) as [|[winner top] others] eqn:Es.
  { split; [done|]. apply Permutation_nil in Hp. by apply fmap_nil_inv in Hp. }
  cbn [winning_route runner_ups].
  assert (∀ x, x ∈ (winner, top) :: others → x.2 = score_of p now x.1 ∧ x.1 ∈ cs) as Hw.
  { intros x Hx. rewrite Hp in Hx. apply list_elem_of_fmap in Hx as (c & -> & Hc). done. }
  split.
  - change (winner :: others.*1) with (((winner, top) :: others).*1). rewrite Hp. rewrite <- list_fmap_compose.
    rewrite (list_fmap_ext _ id) by done. by rewrite list_fmap_id.
  - intros c (x & -> & Hx)%list_elem_of_fmap.
    destruct (Hw (winner, top)) as [Ht _]; [by left|]. destruct (Hw x) as [Hxs _]; [by right|]. cbn [fst snd] in Ht. rewrite <- Ht, <- Hxs.
    assert (StronglySorted (in_order before) ((winner, top) :: others)) as [Hall _]%StronglySorted_cons.
    { rewrite <- Es. apply (stable_sort_sorted before (λ x, x.2 ≠ S754_nan)).
      - unfold before. intros y z Hy Hz H%flt_key; [|done..]. apply not_true_iff_false. intros H'%flt_key; [|done..].
        unfold key_lt in *. lia.
      - unfold before. intros y z w Hy Hz Hw' H%flt_key; [|done..]. rewrite <- !not_true_iff_false.
        intros Hno H'%flt_key; [|done..]. apply Hno, flt_key; [done..|]. unfold key_lt in *. lia.
      - apply Forall_forall. intros y Hy E. apply andb_false_iff in Hn as [Hn|Hn].
        + apply Nat.leb_gt in Hn. rewrite <- (Permutation_length Hp) in Hn. destruct others; [by apply elem_of_nil in Hx|cbn in Hn; lia].
        + apply not_true_iff_false in Hn. apply Hn, existsb_exists. exists y. split; [by apply list_elem_of_In|]. by rewrite E. }
    rewrite Forall_forall in Hall. by apply (Hall x Hx).
Qed.

(** The threshold of a policy has no effect. *)
Theorem consensus_threshold_unused p now cs threshold :
  resolve (mkConsensusPolicy (source_weights p) (freshness_window p) threshold) now cs = resolve p now cs.
Proof. done. Qed.

(** The agreement is not weighted by the sources that agree: unless the empty name has a
    weight, it only depends on how many they are. *)
Theorem consensus_counts_heads p now cs d :
  source_weights p !! ([] : Str) = None → resolve p now cs = Some (Ok d) →
  ∃ n : nat, consensus_score d = Scorer.fmin (Nat.iter n (λ acc, fadd acc half) fzero) (of_int 1).
Proof.
  unfold resolve. intros Hw. destruct (_ && _); [done|]. intros [= H].
  destruct (stable_sort _ _) as [|[winner top] others]; [done|]. injection H as <-. cbn [consensus_score]. rewrite Hw. cbn [from_option id].
  assert (∀ l acc, fold_left (λ acc (_ : RouteCandidate * f64), fadd acc half) l acc = Nat.iter (length l) (λ acc, fadd acc half) acc) as Hf.
  { induction l as [|x l IH]; intros acc; [done|]. cbn [fold_left length]. by rewrite IH, Nat.iter_succ_r. }
  eexists. f_equal. apply Hf.
Qed.

End Consensus.

(** ** Anomalies *)

Section Anomaly.

Import Anomaly.

Lemma fmax_not_nan x y : x ≠ S754_nan → fmax x y ≠ S754_nan.
Proof. unfold fmax. intros Hx. destruct x, y; try done; by case_match. Qed.

Lemma unit_fmin x : unit_interval x → Scorer.fmin x (of_int 1) = x.
Proof.
  intros Hx. pose proof (unit_not_nan _ Hx) as Hn. change (of_int 1) with Scorer.one. rewrite fmin_one by done.
  destruct Hx as [_ H]. assert (flt Scorer.one x = false) as ->; [|done].
  change (of_int 1) with Scorer.one in H. unfold flt, fle, SFltb, SFleb in *. rewrite (SFcompare_antisym x Scorer.one).
  by destruct (SFcompare x Scorer.one) as [[]|].
Qed.

(** A check changes the score only together with a reason. *)
Definition sound_check (f : f64 * list Str → f64 * list Str) : Prop :=
  ∀ s, s.1 ≠ S754_nan → (f s).1 ≠ S754_nan ∧ (f s = s ∨ (f s).2 ≠ []).

Lemma raise_sound score reason : sound_check (raise score reason).
Proof. intros s Hs. split; [by apply fmax_not_nan|]. right. cbn. by destruct s.2. Qed.

Lemma checks_sound c now updated threshold last current last' current' :
  sound_check (check_age c now updated) ∧ sound_check (check_reserves threshold last current) ∧ sound_check (check_depth c last' current').
Proof.
  assert (∀ f : f64 * list Str → f64 * list Str, (∀ s, f s = s ∨ ∃ x r, f s = raise x r s) → sound_check f) as H.
  { intros f Hf s Hs. destruct (Hf s) as [->|(x & r & ->)]; [by split; [|left]|]. by apply raise_sound. }
  split_and!; apply H; intros s; unfold check_age, check_reserves, check_depth; repeat case_match; eauto.
Qed.

(** The score of every venue is a number between zero and one, whatever the configuration
    and the data are, and is zero when no reason is given. *)
Theorem anomaly_score_unit c now venue reserves depth updated history :
  let r := (update_and_detect c now venue reserves depth updated history).2 in
  unit_interval (r_score r) ∧ (r_reasons r = [] → r_score r = fzero).
Proof.
  cbn zeta. unfold update_and_detect. cbn [snd r_score r_reasons].
  set (h := default _ (history !! venue)). set (t := (thresholds_for c venue).1).
  destruct (checks_sound c now updated t (last_reserves h) reserves (last_depth h) depth) as (H1 & H2 & H3).
  set (s1 := check_age c now updated (fzero, [])). set (s2 := check_reserves t (last_reserves h) reserves s1).
  set (s3 := check_depth c (last_depth h) depth s2).
  destruct (H1 (fzero, [])) as [N1 E1]; [done|]. fold s1 in N1, E1. destruct (H2 s1 N1) as [N2 E2]. fold s2 in N2, E2.
  destruct (H3 s2 N2) as [N3 E3]. fold s3 in N3, E3.
  pose proof (fclamp_unit _ N3) as Hu. rewrite unit_fmin by done. split; [done|].
  intros Hr. destruct E3 as [E3|]; [|done]. rewrite E3 in Hr |- *. destruct E2 as [E2|]; [|done]. rewrite E2 in Hr |- *.
  destruct E1 as [E1|]; [|done]. by rewrite E1.
Qed.

End Anomaly.
