(* ===== verification/CctpTypes.v ===== *)
(** * Bridge transfers: data and transitions (api: models/v2_cctp.rs, cctp/transitions.rs, cctp/bounds.rs)

    The life cycle of a transfer between Stellar and EVM chains: its statuses, the
    table of allowed transitions, and the size limits of untrusted payloads. *)

From stdpp Require Import base decidable strings numbers list.
From S2P Require Import Prelude RustStr Result.

Local Open Scope Z_scope.
Local Open Scope str_scope.

(** ** models/v2_cctp.rs *)

Module CctpDirection.

Inductive CctpDirection := StellarToEvm | EvmToStellar.

End CctpDirection.

Abbreviation CctpDirection := CctpDirection.CctpDirection (only parsing).

#[export] Instance CctpDirection_eq_dec : EqDecision CctpDirection.
Proof. solve_decision. Defined.

Module CctpFinality.

Inductive CctpFinality := Standard | Fast.

End CctpFinality.

Abbreviation CctpFinality := CctpFinality.CctpFinality (only parsing).

#[export] Instance CctpFinality_eq_dec : EqDecision CctpFinality.
Proof. solve_decision. Defined.

Module CctpTransferStatus.

Inductive CctpTransferStatus :=
| Created
| BurnPrepared
| BurnSubmitted
| AwaitingAttestation
| AttestationReady
| MintPrepared
| MintSubmitted
| Completed
| AttestationFailed
| MintFailedRetryable
| Cancelled
| ProviderKilled.

End CctpTransferStatus.

Abbreviation CctpTransferStatus := CctpTransferStatus.CctpTransferStatus (only parsing).

#[export] Instance CctpTransferStatus_eq_dec : EqDecision CctpTransferStatus.
Proof. solve_decision. Defined.

(** ** transitions.rs *)

Section Transitions.

Import CctpTransferStatus.

Definition is_allowed_transition (from to : CctpTransferStatus) : bool :=
  if bool_decide (from = to) then true
  else match from, to with
       | Created, BurnPrepared
       | Created, Cancelled
       | Created, ProviderKilled
       | BurnPrepared, BurnSubmitted
       | BurnPrepared, AwaitingAttestation
       | BurnPrepared, Cancelled
       | BurnPrepared, ProviderKilled
       | BurnSubmitted, AwaitingAttestation
       | BurnSubmitted, ProviderKilled
       | AwaitingAttestation, AttestationReady
       | AwaitingAttestation, AttestationFailed
       | AwaitingAttestation, ProviderKilled
       | AttestationFailed, AwaitingAttestation
       | AttestationReady, MintPrepared
       | AttestationReady, ProviderKilled
       | MintPrepared, MintSubmitted
       | MintPrepared, MintFailedRetryable
       | MintPrepared, ProviderKilled
       | MintSubmitted, Completed
       | MintSubmitted, MintFailedRetryable
       | MintSubmitted, ProviderKilled
       | MintFailedRetryable, MintPrepared
       | MintFailedRetryable, ProviderKilled => true
       | _, _ => false
       end.

Definition is_terminal (status : CctpTransferStatus) : bool :=
  match status with
  | Completed | Cancelled | ProviderKilled => true
  | _ => false
  end.

Definition is_recoverable_failure (status : CctpTransferStatus) : bool :=
  bool_decide (status = AttestationFailed).

Definition can_cancel (status : CctpTransferStatus) : bool :=
  match status with
  | Created | BurnPrepared => true
  | _ => false
  end.

End Transitions.

(** ** bounds.rs *)

Definition MAX_RAW_MESSAGE_BYTES : Z := 8192.
Definition MAX_ATTESTATION_BYTES : Z := 8192.
Definition MAX_HOOK_DATA_BYTES : Z := 4096.
Definition MAX_MESSAGE_NONCE_LEN : Z := 128.
Definition MAX_TX_HASH_LEN : Z := 66.

Definition check_byte_len (label : Str) (bytes : list Z) (max : Z) : Result unit Str :=
  if max <? Z.of_nat (length bytes)
  then Err (label ++ $" exceeds max " ++ display max ++ $" bytes")
  else Ok tt.

Definition check_str_len (label value : Str) (max : Z) : Result unit Str :=
  if max <? str_len value
  then Err (label ++ $" exceeds max " ++ display max ++ $" chars")
  else Ok tt.

(** ** The words of the statuses (store.rs) *)

Definition direction_str (d : CctpDirection) : Str :=
  match d with
  | CctpDirection.StellarToEvm => $"stellar_to_evm"
  | CctpDirection.EvmToStellar => $"evm_to_stellar"
  end.

Definition finality_str (f : CctpFinality) : Str :=
  match f with
  | CctpFinality.Standard => $"standard"
  | CctpFinality.Fast => $"fast"
  end.

Definition status_str (s : CctpTransferStatus) : Str :=
  match s with
  | CctpTransferStatus.Created => $"created"
  | CctpTransferStatus.BurnPrepared => $"burn_prepared"
  | CctpTransferStatus.BurnSubmitted => $"burn_submitted"
  | CctpTransferStatus.AwaitingAttestation => $"awaiting_attestation"
  | CctpTransferStatus.AttestationReady => $"attestation_ready"
  | CctpTransferStatus.MintPrepared => $"mint_prepared"
  | CctpTransferStatus.MintSubmitted => $"mint_submitted"
  | CctpTransferStatus.Completed => $"completed"
  | CctpTransferStatus.AttestationFailed => $"attestation_failed"
  | CctpTransferStatus.MintFailedRetryable => $"mint_failed_retryable"
  | CctpTransferStatus.Cancelled => $"cancelled"
  | CctpTransferStatus.ProviderKilled => $"provider_killed"
  end.

(** ** Facts *)

Lemma check_byte_len_Ok label bs max : check_byte_len label bs max = Ok tt ↔ Z.of_nat (length bs) <= max.
Proof. unfold check_byte_len. destruct (Z.ltb_spec max (Z.of_nat (length bs))); split; intros; try done; lia. Qed.
