(* ===== verification/CctpMessage.v ===== *)
(** * Bridge messages (api: cctp/message.rs)

    The wire format of a bridge message, a 148-byte header and a burn body of at
    least 228 bytes, its parser, and the check of a parsed message against what the
    corridor expects. Bytes are numbers below 256, arrays of bytes are lists.
    [hex::decode] and [hex::encode] are a parameter ([Hex]). *)

From stdpp Require Import base decidable strings numbers list.
From S2P Require Import Prelude RustStr Result CctpTypes.

Local Open Scope Z_scope.
Local Open Scope str_scope.
Local Open Scope result_scope.

(** ** Parameters *)

(** The [hex] crate: decoding of a string, encoding of bytes. *)
Class Hex := {
  hex_decode : Str → option (list Z);
  hex_encode : list Z → Str;
}.

(** What the crate documents: bytes are written as two hexadecimal digits each,
    and read back; what is read is bytes. *)
Class HexOk (H : Hex) : Prop := {
  hex_decode_bytes s bs : hex_decode s = Some bs → Forall is_byte bs;
  hex_encode_digits bs : Forall is_byte bs → Forall (λ c, is_ascii_hexdigit c = true) (hex_encode bs);
  hex_decode_encode bs : Forall is_byte bs → hex_decode (hex_encode bs) = Some bs;
}.

(** ** Data *)

Definition FINALITY_STANDARD : Z := 2000.
Definition FINALITY_FAST : Z := 1000.

Definition MESSAGE_HEADER_LEN : nat := 148.

Record ParsedBurnMessageBody := mkParsedBurnMessageBody {
  b_version : Z;
  b_burn_token : list Z;
  b_mint_recipient : list Z;
  b_amount : Z;
  b_message_sender : list Z;
  b_max_fee : Z;
  b_fee_executed : Z;
  b_expiration_block : Z;
  b_hook_data : list Z;
}.

Record ParsedCctpMessage := mkParsedCctpMessage {
  m_version : Z;
  m_source_domain : Z;
  m_destination_domain : Z;
  m_nonce : list Z;
  m_sender : list Z;
  m_recipient : list Z;
  m_destination_caller : list Z;
  m_min_finality_threshold : Z;
  m_finality_threshold_executed : Z;
  m_body : ParsedBurnMessageBody;
}.

Module MessageParseError.

Inductive MessageParseError := TooShort | InvalidHex | BodyTooShort | Overflow.

(** [Display] *)
Definition to_string (e : MessageParseError) : Str :=
  match e with
  | TooShort => $"too short"
  | InvalidHex => $"invalid hex"
  | BodyTooShort => $"body too short"
  | Overflow => $"overflow"
  end.

End MessageParseError.

Abbreviation MessageParseError := MessageParseError.MessageParseError (only parsing).

#[export] Instance MessageParseError_eq_dec : EqDecision MessageParseError.
Proof. solve_decision. Defined.

Record CorridorMessageExpectations := mkCorridorMessageExpectations {
  e_source_domain : Z;
  e_destination_domain : Z;
  e_header_recipient : list Z;
  e_header_sender : list Z;
  e_burn_token : list Z;
  e_mint_recipient : list Z;
  e_destination_caller : list Z;
  e_amount_cctp_subunits : Z;
  e_min_finality : Z;
  e_body_message_sender : list Z;
  e_hook_data : option (list Z);
  e_hook_data_required_empty : bool;
}.

Module MessageValidationError.

Inductive MessageValidationError :=
| Parse (e : MessageParseError)
| WrongSourceDomain
| WrongDestinationDomain
| WrongHeaderRecipient
| WrongHeaderSender
| WrongBurnToken
| WrongMintRecipient
| WrongDestinationCaller
| WrongAmount
| WrongFinality
| WrongMessageSender
| WrongHookData
| FinalityNotExecuted
| HookDataTooLarge.

End MessageValidationError.

Abbreviation MessageValidationError := MessageValidationError.MessageValidationError (only parsing).

#[export] Instance MessageValidationError_eq_dec : EqDecision MessageValidationError.
Proof. solve_decision. Defined.

(** ** Reading *)

(** [bytes.get(offset..offset + n)] *)
Definition get_range (bytes : list Z) (offset n : nat) : option (list Z) :=
  if bool_decide (offset + n <= length bytes)%nat then Some (take n (drop offset bytes)) else None.

Definition read_u32_be (bytes : list Z) (offset : nat) : Result Z MessageParseError :=
  slice ← ok_or (get_range bytes offset 4) MessageParseError.TooShort;
  Ok (be_value slice).

Definition read_bytes32 (bytes : list Z) (offset : nat) : Result (list Z) MessageParseError :=
  slice ← ok_or (get_range bytes offset 32) MessageParseError.TooShort;
  Ok slice.

Definition read_u256 (bytes : list Z) (offset : nat) : Result Z MessageParseError :=
  slice ← ok_or (get_range bytes offset 32) MessageParseError.TooShort;
  reject (bool_decide (take 16 slice ≠ replicate 16 0)) MessageParseError.Overflow;;
  Ok (be_value (drop 16 slice)).

Definition parse_burn_message_body (bytes : list Z) : Result ParsedBurnMessageBody MessageParseError :=
  reject (bool_decide (length bytes < 228)%nat) MessageParseError.BodyTooShort;;
  version ← read_u32_be bytes 0;
  burn_token ← read_bytes32 bytes 4;
  mint_recipient ← read_bytes32 bytes 36;
  amount ← read_u256 bytes 68;
  message_sender ← read_bytes32 bytes 100;
  max_fee ← read_u256 bytes 132;
  fee_executed ← read_u256 bytes 164;
  expiration_block ← read_u256 bytes 196;
  let hook_data := drop 228 bytes in
  Ok (mkParsedBurnMessageBody version burn_token mint_recipient amount message_sender max_fee
        fee_executed expiration_block hook_data).

Definition parse_cctp_v2_message (bytes : list Z) : Result ParsedCctpMessage MessageParseError :=
  reject (bool_decide (length bytes < MESSAGE_HEADER_LEN)%nat) MessageParseError.TooShort;;
  version ← read_u32_be bytes 0;
  source_domain ← read_u32_be bytes 4;
  destination_domain ← read_u32_be bytes 8;
  nonce ← read_bytes32 bytes 12;
  sender ← read_bytes32 bytes 44;
  recipient ← read_bytes32 bytes 76;
  destination_caller ← read_bytes32 bytes 108;
  min_finality_threshold ← read_u32_be bytes 140;
  finality_threshold_executed ← read_u32_be bytes 144;
  let body_bytes := drop 148 bytes in
  body ← parse_burn_message_body body_bytes;
  Ok (mkParsedCctpMessage version source_domain destination_domain nonce sender recipient
        destination_caller min_finality_threshold finality_threshold_executed body).

Definition normalize_finality (threshold : Z) : Z :=
  if threshold <=? FINALITY_FAST then FINALITY_FAST else FINALITY_STANDARD.

(** ** Building *)

(** [msg[offset..offset + data.len()].copy_from_slice(data)] *)
Definition copy_at (offset : nat) (data msg : list Z) : list Z :=
  take offset msg ++ data ++ drop (offset + length data) msg.

Definition build_synthetic_cctp_message (expected : CorridorMessageExpectations) : list Z :=
  let hook_len := match e_hook_data expected with Some h => length h | None => 0%nat end in
  let msg := replicate (148 + 228 + hook_len) 0 in
  let msg := copy_at 4 (be_bytes 4 (e_source_domain expected)) msg in
  let msg := copy_at 8 (be_bytes 4 (e_destination_domain expected)) msg in
  let msg := copy_at 44 (e_header_sender expected) msg in
  let msg := copy_at 76 (e_header_recipient expected) msg in
  let msg := copy_at 108 (e_destination_caller expected) msg in
  let msg := copy_at 140 (be_bytes 4 (e_min_finality expected)) msg in
  let msg := copy_at 144 (be_bytes 4 (e_min_finality expected)) msg in
  let body_base := 148%nat in
  let msg := copy_at (body_base + 4) (e_burn_token expected) msg in
  let msg := copy_at (body_base + 36) (e_mint_recipient expected) msg in
  let msg := copy_at (body_base + 68 + 16) (be_bytes 16 (e_amount_cctp_subunits expected)) msg in
  let msg := copy_at (body_base + 100) (e_body_message_sender expected) msg in
  if bool_decide (0 < hook_len)%nat
  then copy_at (body_base + 228) (default [] (e_hook_data expected)) msg
  else msg.

(** ** Hexadecimal messages and validation *)

Section Validation.

Context {H : Hex}.

Definition decode_hex_message (raw : Str) : Result (list Z) MessageParseError :=
  let trimmed := trim raw in
  let hex := strip_0x trimmed in
  ok_or (hex_decode hex) MessageParseError.InvalidHex.

Definition encode_message_hex (bytes : list Z) : Str := $"0x" ++ hex_encode bytes.

Definition validate_message_for_corridor (raw_hex : Str) (expected : CorridorMessageExpectations)
    : Result ParsedCctpMessage MessageValidationError :=
  bytes ← map_err MessageValidationError.Parse (decode_hex_message raw_hex);
  map_err (λ _, MessageValidationError.Parse MessageParseError.TooShort)
    (check_byte_len $"raw_message" bytes MAX_RAW_MESSAGE_BYTES);;
  parsed ← map_err MessageValidationError.Parse (parse_cctp_v2_message bytes);
  reject (negb (m_source_domain parsed =? e_source_domain expected))
    MessageValidationError.WrongSourceDomain;;
  reject (negb (m_destination_domain parsed =? e_destination_domain expected))
    MessageValidationError.WrongDestinationDomain;;
  reject (bool_decide (m_recipient parsed ≠ e_header_recipient expected))
    MessageValidationError.WrongHeaderRecipient;;
  reject (bool_decide (m_sender parsed ≠ e_header_sender expected))
    MessageValidationError.WrongHeaderSender;;
  reject (bool_decide (b_burn_token (m_body parsed) ≠ e_burn_token expected))
    MessageValidationError.WrongBurnToken;;
  reject (bool_decide (b_mint_recipient (m_body parsed) ≠ e_mint_recipient expected))
    MessageValidationError.WrongMintRecipient;;
  reject (bool_decide (b_message_sender (m_body parsed) ≠ e_body_message_sender expected))
    MessageValidationError.WrongMessageSender;;
  reject (bool_decide (m_destination_caller parsed ≠ e_destination_caller expected))
    MessageValidationError.WrongDestinationCaller;;
  reject (negb (b_amount (m_body parsed) =? e_amount_cctp_subunits expected))
    MessageValidationError.WrongAmount;;
  let normalized_min := normalize_finality (m_min_finality_threshold parsed) in
  let normalized_expected := normalize_finality (e_min_finality expected) in
  reject (negb (normalized_min =? normalized_expected)) MessageValidationError.WrongFinality;;
  reject (m_finality_threshold_executed parsed <? normalized_min)
    MessageValidationError.FinalityNotExecuted;;
  reject (negb (is_ok (check_byte_len $"hook_data" (b_hook_data (m_body parsed)) MAX_HOOK_DATA_BYTES)))
    MessageValidationError.HookDataTooLarge;;
  (if e_hook_data_required_empty expected then
     reject (bool_decide (b_hook_data (m_body parsed) ≠ [])) MessageValidationError.WrongHookData
   else match e_hook_data expected with
        | Some expected_hook =>
            reject (bool_decide (b_hook_data (m_body parsed) ≠ expected_hook))
              MessageValidationError.WrongHookData
        | None =>
            reject (bool_decide (b_hook_data (m_body parsed) ≠ [])) MessageValidationError.WrongHookData
        end);;
  Ok parsed.

End Validation.
