(* ===== verification/CctpMessageProps.v ===== *)
(** * Properties of bridge messages

    The parser accepts exactly the bytes of the documented layout, with each error
    for its own inputs, and validation accepts exactly the messages that agree with
    the expectations of the corridor. *)

From stdpp Require Import base decidable strings numbers list.
From Stdlib Require Import ZArith Lia.
From S2P Require Import Prelude RustStr Result CctpTypes CctpMessage.

Local Open Scope Z_scope.
Local Open Scope str_scope.

(** ** The layout *)

Definition u256_bytes (v : Z) : list Z := replicate 16 0 ++ be_bytes 16 v.

(** The bytes of a body and of a message. *)
Definition body_bytes (b : ParsedBurnMessageBody) : list Z :=
  be_bytes 4 (b_version b) ++ b_burn_token b ++ b_mint_recipient b ++ u256_bytes (b_amount b) ++
  b_message_sender b ++ u256_bytes (b_max_fee b) ++ u256_bytes (b_fee_executed b) ++
  u256_bytes (b_expiration_block b) ++ b_hook_data b.

Definition message_bytes (m : ParsedCctpMessage) : list Z :=
  be_bytes 4 (m_version m) ++ be_bytes 4 (m_source_domain m) ++ be_bytes 4 (m_destination_domain m) ++
  m_nonce m ++ m_sender m ++ m_recipient m ++ m_destination_caller m ++
  be_bytes 4 (m_min_finality_threshold m) ++ be_bytes 4 (m_finality_threshold_executed m) ++
  body_bytes (m_body m).

Record body_wf (b : ParsedBurnMessageBody) : Prop := {
  wf_b_version : fits U32 (b_version b);
  wf_b_burn_token : byte_array 32 (b_burn_token b);
  wf_b_mint_recipient : byte_array 32 (b_mint_recipient b);
  wf_b_amount : fits U128 (b_amount b);
  wf_b_message_sender : byte_array 32 (b_message_sender b);
  wf_b_max_fee : fits U128 (b_max_fee b);
  wf_b_fee_executed : fits U128 (b_fee_executed b);
  wf_b_expiration_block : fits U128 (b_expiration_block b);
  wf_b_hook_data : Forall is_byte (b_hook_data b);
}.

Record message_wf (m : ParsedCctpMessage) : Prop := {
  wf_m_version : fits U32 (m_version m);
  wf_m_source_domain : fits U32 (m_source_domain m);
  wf_m_destination_domain : fits U32 (m_destination_domain m);
  wf_m_nonce : byte_array 32 (m_nonce m);
  wf_m_sender : byte_array 32 (m_sender m);
  wf_m_recipient : byte_array 32 (m_recipient m);
  wf_m_destination_caller : byte_array 32 (m_destination_caller m);
  wf_m_min_finality : fits U32 (m_min_finality_threshold m);
  wf_m_executed : fits U32 (m_finality_threshold_executed m);
  wf_m_body : body_wf (m_body m);
}.

(** ** Reading at an offset *)

Lemma get_range_Some bytes off n l :
  get_range bytes off n = Some l ↔ (off + n <= length bytes)%nat ∧ l = take n (drop off bytes).
Proof. unfold get_range. case_bool_decide; naive_solver. Qed.

Lemma get_range_here a b n : length a = n → get_range (a ++ b) 0 n = Some a.
Proof.
  intros <-. apply get_range_Some. rewrite length_app. split; [lia|].
  by rewrite drop_0, take_app_length.
Qed.

Lemma get_range_skip k a b off n :
  length a = k → (k <= off)%nat → get_range (a ++ b) off n = get_range b (off - k) n.
Proof.
  intros <- Hle. unfold get_range. rewrite length_app, drop_app_ge by done.
  destruct (decide (off - length a + n <= length b)%nat); [rewrite !bool_decide_eq_true_2 | rewrite !bool_decide_eq_false_2];
    try done; lia.
Qed.

Lemma take_drop_step (bytes : list Z) off n l :
  take n (drop off bytes) = l → drop off bytes = l ++ drop (off + n) bytes.
Proof. intros <-. rewrite <- drop_drop. by rewrite take_drop. Qed.

Lemma Forall_range bytes off n : Forall is_byte bytes → Forall is_byte (take n (drop off bytes)).
Proof. intros. by apply Forall_take, Forall_drop. Qed.

Lemma length_range (bytes : list Z) off n : (off + n <= length bytes)%nat → length (take n (drop off bytes)) = n.
Proof. intros. rewrite length_take, length_drop. lia. Qed.

(** What each reader found. *)
Lemma read_u32_be_Ok bytes off v : Forall is_byte bytes → read_u32_be bytes off = Ok v →
  take 4 (drop off bytes) = be_bytes 4 v ∧ fits U32 v.
Proof.
  intros Hb H. unfold read_u32_be in H. rinv.
  match goal with H : get_range _ _ _ = Some _ |- _ => apply get_range_Some in H as [Hl ->] end.
  pose proof (length_range _ _ _ Hl) as Hlen. pose proof (Forall_range bytes off 4 Hb) as Hf.
  split; [by rewrite <- Hlen at 2; rewrite be_bytes_be_value|].
  pose proof (be_value_nonneg _ Hf) as Hv. rewrite Hlen in Hv. unfold fits. cbn in *. lia.
Qed.

Lemma read_bytes32_Ok bytes off v : Forall is_byte bytes → read_bytes32 bytes off = Ok v →
  take 32 (drop off bytes) = v ∧ byte_array 32 v.
Proof.
  intros Hb H. unfold read_bytes32 in H. rinv.
  match goal with H : get_range _ _ _ = Some _ |- _ => apply get_range_Some in H as [Hl ->] end.
  split; [done|]. split; [by apply length_range|by apply Forall_range].
Qed.

Lemma read_u256_Ok bytes off v : Forall is_byte bytes → read_u256 bytes off = Ok v →
  take 32 (drop off bytes) = u256_bytes v ∧ fits U128 v.
Proof.
  intros Hb H. unfold read_u256 in H. rinv.
  match goal with H : get_range _ _ _ = Some _ |- _ => apply get_range_Some in H as [Hl ->] end.
  match goal with H : bool_decide (_ ≠ _) = false |- _ => apply bool_decide_eq_false, dec_stable in H as Hz end.
  pose proof (length_range _ _ _ Hl) as Hlen. pose proof (Forall_range bytes off 32 Hb) as Hf.
  revert Hz Hlen Hf. generalize (take 32 (drop off bytes)). intros l Hz Hlen Hf.
  assert (Hd : length (drop 16 l) = 16%nat) by (rewrite length_drop; lia).
  assert (Hfd : Forall is_byte (drop 16 l)) by (by apply Forall_drop).
  split.
  - unfold u256_bytes. pose proof (be_bytes_be_value _ Hfd) as E. rewrite Hd in E.
    by rewrite E, <- Hz, take_drop.
  - pose proof (be_value_nonneg _ Hfd) as Hv. rewrite Hd in Hv. unfold fits. cbn in *. lia.
Qed.

(** ** Parsing and the layout *)

(** Consumes the bytes from offset [off] on, one read at a time. *)
Ltac consume :=
  match goal with
  | Hr : take ?n (drop ?off ?bytes) = ?x |- drop ?off ?bytes = _ =>
      rewrite (take_drop_step bytes off n x Hr); apply f_equal;
      let k := eval vm_compute in (off + n)%nat in change (off + n)%nat with k
  end.

Lemma parse_body_layout bytes b :
  Forall is_byte bytes → parse_burn_message_body bytes = Ok b → body_wf b ∧ bytes = body_bytes b.
Proof.
  intros Hb H. unfold parse_burn_message_body in H. rinv.
  repeat match goal with
  | H : read_u32_be _ _ = Ok _ |- _ => apply (read_u32_be_Ok _ _ _ Hb) in H as [? ?]
  | H : read_bytes32 _ _ = Ok _ |- _ => apply (read_bytes32_Ok _ _ _ Hb) in H as [? ?]
  | H : read_u256 _ _ = Ok _ |- _ => apply (read_u256_Ok _ _ _ Hb) in H as [? ?]
  end.
  split; [by split; cbn; try done; apply Forall_drop|].
  unfold body_bytes. cbn [b_version b_burn_token b_mint_recipient b_amount b_message_sender b_max_fee
    b_fee_executed b_expiration_block b_hook_data]. change bytes with (drop 0 bytes) at 1. repeat consume. done.
Qed.

Lemma parse_message_layout bytes m :
  Forall is_byte bytes → parse_cctp_v2_message bytes = Ok m → message_wf m ∧ bytes = message_bytes m.
Proof.
  intros Hb H. unfold parse_cctp_v2_message in H. rinv.
  match goal with H : parse_burn_message_body _ = Ok _ |- _ =>
    apply parse_body_layout in H as [Hwf Hbody]; [|by apply Forall_drop] end.
  repeat match goal with
  | H : read_u32_be _ _ = Ok _ |- _ => apply (read_u32_be_Ok _ _ _ Hb) in H as [? ?]
  | H : read_bytes32 _ _ = Ok _ |- _ => apply (read_bytes32_Ok _ _ _ Hb) in H as [? ?]
  end.
  split; [by split|].
  unfold message_bytes. cbn [m_version m_source_domain m_destination_domain m_nonce m_sender m_recipient
    m_destination_caller m_min_finality_threshold m_finality_threshold_executed m_body].
  change bytes with (drop 0 bytes) at 1. repeat consume. done.
Qed.

(** ** Parsing what was laid out *)

Lemma read_u32_skip k a b off : length a = k → (k <= off)%nat → read_u32_be (a ++ b) off = read_u32_be b (off - k).
Proof. intros. unfold read_u32_be. by rewrite (get_range_skip k). Qed.

Lemma read_bytes32_skip k a b off : length a = k → (k <= off)%nat → read_bytes32 (a ++ b) off = read_bytes32 b (off - k).
Proof. intros. unfold read_bytes32. by rewrite (get_range_skip k). Qed.

Lemma read_u256_skip k a b off : length a = k → (k <= off)%nat → read_u256 (a ++ b) off = read_u256 b (off - k).
Proof. intros. unfold read_u256. by rewrite (get_range_skip k). Qed.

Lemma length_u256 v : length (u256_bytes v) = 32%nat.
Proof. unfold u256_bytes. by rewrite length_app, length_replicate, length_be_bytes. Qed.

Lemma read_u32_here v rest : fits U32 v → read_u32_be (be_bytes 4 v ++ rest) 0 = Ok v.
Proof.
  intros Hv. unfold read_u32_be. rewrite get_range_here by apply length_be_bytes. cbn [ok_or try_].
  rewrite be_value_be_bytes, Z.mod_small; [done|]. unfold fits in Hv. cbn in *. lia.
Qed.

Lemma read_bytes32_here v rest : byte_array 32 v → read_bytes32 (v ++ rest) 0 = Ok v.
Proof. intros [Hl _]. unfold read_bytes32. by rewrite get_range_here. Qed.

Lemma read_u256_here v rest : fits U128 v → read_u256 (u256_bytes v ++ rest) 0 = Ok v.
Proof.
  intros Hv. unfold read_u256. rewrite get_range_here by apply length_u256. cbn [ok_or try_].
  unfold u256_bytes. rewrite take_app_length', drop_app_length' by done. rewrite bool_decide_eq_false_2 by auto.
  cbn [reject try_]. rewrite be_value_be_bytes, Z.mod_small; [done|]. unfold fits in Hv. cbn in *. lia.
Qed.

Create HintDb seg discriminated.

Lemma byte_array_length n l : byte_array n l → length l = n.
Proof. by intros [? _]. Qed.

#[local] Hint Resolve length_be_bytes length_u256 byte_array_length : seg.

(** Moves to the segment that a read is about. *)
Ltac seek :=
  repeat first
    [ rewrite (read_u32_skip 4) by (eauto with seg || lia) | rewrite (read_u32_skip 32) by (eauto with seg || lia)
    | rewrite (read_bytes32_skip 4) by (eauto with seg || lia) | rewrite (read_bytes32_skip 32) by (eauto with seg || lia)
    | rewrite (read_u256_skip 4) by (eauto with seg || lia) | rewrite (read_u256_skip 32) by (eauto with seg || lia) ];
  cbn [Nat.sub].

Ltac read_next :=
  match goal with
  | |- try_ ?r _ = _ => let H := fresh in
      eassert (H : r = Ok _) by (seek; first [apply read_u32_here | apply read_bytes32_here | apply read_u256_here]; assumption); rewrite H; clear H; cbn [try_]
  end.

(** Skips the segments before the rest. *)
Lemma drop_skip k (a b : list Z) off : length a = k → (k <= off)%nat → drop off (a ++ b) = drop (off - k) b.
Proof. intros <- ?. by rewrite drop_app_ge. Qed.

Ltac skip_segments :=
  repeat first [rewrite (drop_skip 4) by (eauto with seg || lia) | rewrite (drop_skip 32) by (eauto with seg || lia)];
  cbn [Nat.sub]; rewrite drop_0.

(** Bounds the length of the segments from below. *)
Ltac seg_length :=
  rewrite ?length_app, ?length_u256, ?length_be_bytes;
  repeat match goal with H : byte_array _ ?x |- context [length ?x] => rewrite (byte_array_length _ _ H) end;
  lia.

Lemma parse_body_bytes b : body_wf b → parse_burn_message_body (body_bytes b) = Ok b.
Proof.
  intros []. unfold parse_burn_message_body, body_bytes.
  rewrite bool_decide_eq_false_2 by seg_length. cbn [reject try_].
  do 8 read_next. skip_segments. by destruct b.
Qed.

Lemma parse_message_bytes m : message_wf m → parse_cctp_v2_message (message_bytes m) = Ok m.
Proof.
  intros []. unfold parse_cctp_v2_message, message_bytes, MESSAGE_HEADER_LEN.
  rewrite bool_decide_eq_false_2 by seg_length. cbn [reject try_].
  do 9 read_next. skip_segments. rewrite parse_body_bytes by done. by destruct m.
Qed.

Lemma parse_message_iff bytes m :
  Forall is_byte bytes →
  parse_cctp_v2_message bytes = Ok m ↔ message_wf m ∧ bytes = message_bytes m.
Proof.
  intros Hb. split; [by apply parse_message_layout|]. intros [Hwf ->]. by apply parse_message_bytes.
Qed.

(** C23: the parser and the documented layout agree. On any bytes, parsing returns
    a message exactly when the bytes are that message laid out, field by field in
    big-endian order, with its fields in the ranges of their types; in particular
    printing and parsing are inverse, no two byte strings parse to the same message,
    and no byte is ignored. *)
Theorem parse_message_correct bytes m :
  Forall is_byte bytes →
  parse_cctp_v2_message bytes = Ok m ↔ message_wf m ∧ bytes = message_bytes m.
Proof. apply parse_message_iff. Qed.

(** ** Errors of the parser *)

(** The upper halves of the 32-byte integers at the given offsets are zero. *)
Definition high_limbs_zero (bytes : list Z) (offsets : list nat) : Prop :=
  Forall (λ off, take 16 (drop off bytes) = replicate 16 0) offsets.

Lemma read_u32_total bytes off : (off + 4 <= length bytes)%nat → ∃ v, read_u32_be bytes off = Ok v.
Proof. intros Hl. unfold read_u32_be, get_range. rewrite bool_decide_eq_true_2 by done. cbn. by eauto. Qed.

Lemma read_bytes32_total bytes off : (off + 32 <= length bytes)%nat → ∃ v, read_bytes32 bytes off = Ok v.
Proof. intros Hl. unfold read_bytes32, get_range. rewrite bool_decide_eq_true_2 by done. cbn. by eauto. Qed.

Lemma read_u256_cases bytes off : (off + 32 <= length bytes)%nat →
  (take 16 (drop off bytes) = replicate 16 0 ∧ ∃ v, read_u256 bytes off = Ok v) ∨
  (take 16 (drop off bytes) ≠ replicate 16 0 ∧ read_u256 bytes off = Err MessageParseError.Overflow).
Proof.
  intros Hl. unfold read_u256, get_range. rewrite bool_decide_eq_true_2 by done. cbn [ok_or try_].
  rewrite take_take. change (16 `min` 32)%nat with 16%nat.
  destruct (decide (take 16 (drop off bytes) = replicate 16 0)) as [E|E].
  - left. split; [done|]. rewrite bool_decide_eq_false_2 by auto. cbn [reject try_]. by eauto.
  - right. split; [done|]. by rewrite bool_decide_eq_true_2.
Qed.

(** Runs the reads that cannot fail, and splits on the ones that can. *)
Ltac read_total :=
  match goal with
  | |- context [try_ (read_u32_be ?b ?o) _] =>
      let v := fresh "v" in let H := fresh in
      destruct (read_u32_total b o) as [v H]; [lia|]; rewrite H; cbn [try_]
  | |- context [try_ (read_bytes32 ?b ?o) _] =>
      let v := fresh "v" in let H := fresh in
      destruct (read_bytes32_total b o) as [v H]; [lia|]; rewrite H; cbn [try_]
  | |- context [try_ (read_u256 ?b ?o) _] =>
      let H := fresh in
      destruct (read_u256_cases b o) as [[? [? H]]|[? H]]; [lia|..]; rewrite H; cbn [try_]
  end.

Lemma parse_body_total bytes : (228 <= length bytes)%nat →
  (high_limbs_zero bytes [68; 132; 164; 196]%nat ∧ ∃ b, parse_burn_message_body bytes = Ok b) ∨
  (¬ high_limbs_zero bytes [68; 132; 164; 196]%nat ∧ parse_burn_message_body bytes = Err MessageParseError.Overflow).
Proof.
  intros Hl. unfold parse_burn_message_body, high_limbs_zero. rewrite !Forall_cons, Forall_nil.
  rewrite bool_decide_eq_false_2 by lia. cbn [reject try_].
  repeat read_total; [left; split; [tauto|by eauto]|right; split; [tauto|done]..].
Qed.

Lemma high_limbs_drop n bytes offs :
  high_limbs_zero (drop n bytes) offs ↔ high_limbs_zero bytes (Nat.add n <$> offs).
Proof. unfold high_limbs_zero. rewrite Forall_fmap. by setoid_rewrite drop_drop. Qed.

(** Which error the parser reports on which bytes. Fewer than 148 bytes are too
    short, fewer than 376 have too short a body, and longer ones fail only when one
    of the four 32-byte integers exceeds 128 bits; [InvalidHex] is never reported. *)
Theorem parse_message_errors bytes e :
  parse_cctp_v2_message bytes = Err e ↔
  match e with
  | MessageParseError.TooShort => (length bytes < 148)%nat
  | MessageParseError.BodyTooShort => (148 <= length bytes < 376)%nat
  | MessageParseError.Overflow =>
      (376 <= length bytes)%nat ∧ ¬ high_limbs_zero bytes [216; 280; 312; 344]%nat
  | MessageParseError.InvalidHex => False
  end.
Proof.
  unfold parse_cctp_v2_message, MESSAGE_HEADER_LEN. case_bool_decide as Hl; cbn [reject try_].
  - destruct e; split; intros He; try done; try lia; destruct He; lia.
  - repeat read_total. pose proof (high_limbs_drop 148 bytes [68; 132; 164; 196]%nat) as Hd. cbn in Hd.
    destruct (decide (length bytes < 376)%nat) as [Hs|Hs].
    + unfold parse_burn_message_body. rewrite bool_decide_eq_true_2 by (rewrite length_drop; lia).
      cbn. destruct e; split; intros He; try done; try lia; destruct He; lia.
    + destruct (parse_body_total (drop 148 bytes)) as [[Hz [b ->]]|[Hz ->]]; [rewrite length_drop; lia|..];
        cbn; rewrite Hd in Hz; destruct e; split; intros He; try done; try lia; try (by destruct He); by split; [lia|].
Qed.

(** ** Validation *)

(** A message agrees with the expectations of its corridor. The finality it asked
    for is of the expected kind and was reached, and the hook is the expected one. *)
Record agrees (e : CorridorMessageExpectations) (m : ParsedCctpMessage) : Prop := {
  ag_source : m_source_domain m = e_source_domain e;
  ag_destination : m_destination_domain m = e_destination_domain e;
  ag_recipient : m_recipient m = e_header_recipient e;
  ag_sender : m_sender m = e_header_sender e;
  ag_burn_token : b_burn_token (m_body m) = e_burn_token e;
  ag_mint_recipient : b_mint_recipient (m_body m) = e_mint_recipient e;
  ag_message_sender : b_message_sender (m_body m) = e_body_message_sender e;
  ag_caller : m_destination_caller m = e_destination_caller e;
  ag_amount : b_amount (m_body m) = e_amount_cctp_subunits e;
  ag_finality : (m_min_finality_threshold m <= FINALITY_FAST ↔ e_min_finality e <= FINALITY_FAST);
  ag_executed : (if m_min_finality_threshold m <=? FINALITY_FAST then FINALITY_FAST else FINALITY_STANDARD)
                  <= m_finality_threshold_executed m;
  ag_hook_size : Z.of_nat (length (b_hook_data (m_body m))) <= MAX_HOOK_DATA_BYTES;
  ag_hook : b_hook_data (m_body m) =
    if e_hook_data_required_empty e then [] else default [] (e_hook_data e);
}.

Lemma normalize_finality_eq a b :
  normalize_finality a = normalize_finality b ↔ (a <= FINALITY_FAST ↔ b <= FINALITY_FAST).
Proof.
  unfold normalize_finality, FINALITY_FAST, FINALITY_STANDARD.
  destruct (Z.leb_spec a 1000), (Z.leb_spec b 1000); split; intros; lia.
Qed.

Lemma reject_size {E} label bs max (e : E) :
  reject (negb (is_ok (check_byte_len label bs max))) e = Ok tt ↔ Z.of_nat (length bs) <= max.
Proof.
  rewrite reject_Ok, negb_false_iff, <- (check_byte_len_Ok label).
  destruct (check_byte_len label bs max) as [[]|]; split; by intros.
Qed.

Lemma reject_hook {E} (required_empty : bool) (hook : list Z) o (e : E) :
  (if required_empty then reject (bool_decide (hook ≠ [])) e
   else match o with
        | Some h => reject (bool_decide (hook ≠ h)) e
        | None => reject (bool_decide (hook ≠ [])) e
        end) = Ok tt ↔ hook = if required_empty then [] else default [] o.
Proof. destruct required_empty; [|destruct o]; apply reject_ne. Qed.

(** ** The synthetic message *)

Lemma copy_at_skip k a d b off :
  length a = k → (k <= off)%nat → copy_at off d (a ++ b) = a ++ copy_at (off - k) d b.
Proof.
  intros <- Hle. unfold copy_at. rewrite take_app_ge by done. rewrite <- app_assoc. do 3 f_equal.
  rewrite drop_app_ge by lia. f_equal. lia.
Qed.

Lemma copy_at_here d x b : length x = length d → copy_at 0 d (x ++ b) = d ++ b.
Proof. intros Hl. unfold copy_at. cbn. by rewrite drop_app_length'. Qed.

Lemma copy_at_all d x : length x = length d → copy_at 0 d x = d.
Proof. intros Hl. by rewrite <- (app_nil_r x), copy_at_here, app_nil_r. Qed.

(** Expectations with their fields in the ranges of their types. *)
Record expectations_wf (e : CorridorMessageExpectations) : Prop := {
  wf_e_source : fits U32 (e_source_domain e);
  wf_e_destination : fits U32 (e_destination_domain e);
  wf_e_recipient : byte_array 32 (e_header_recipient e);
  wf_e_sender : byte_array 32 (e_header_sender e);
  wf_e_token : byte_array 32 (e_burn_token e);
  wf_e_mint_recipient : byte_array 32 (e_mint_recipient e);
  wf_e_caller : byte_array 32 (e_destination_caller e);
  wf_e_amount : fits U128 (e_amount_cctp_subunits e);
  wf_e_finality : fits U32 (e_min_finality e);
  wf_e_message_sender : byte_array 32 (e_body_message_sender e);
  wf_e_hook : Forall is_byte (default [] (e_hook_data e));
}.

(** The message that [build_synthetic_cctp_message] lays out. *)
Definition synthetic_message (e : CorridorMessageExpectations) : ParsedCctpMessage :=
  mkParsedCctpMessage 0 (e_source_domain e) (e_destination_domain e) (replicate 32 0)
    (e_header_sender e) (e_header_recipient e) (e_destination_caller e) (e_min_finality e) (e_min_finality e)
    (mkParsedBurnMessageBody 0 (e_burn_token e) (e_mint_recipient e) (e_amount_cctp_subunits e)
       (e_body_message_sender e) 0 0 0 (default [] (e_hook_data e))).

Lemma zero_array : byte_array 32 (replicate 32 0).
Proof. split; [done|]. by apply Forall_replicate. Qed.

Lemma synthetic_wf e : expectations_wf e → message_wf (synthetic_message e).
Proof.
  assert (fits U32 0 ∧ fits U128 0) as [? ?] by (unfold fits; cbn; lia).
  intros []. split; try done. apply zero_array.
Qed.

(** The zeroed buffer, cut at the boundaries of the fields. *)
Lemma zeroed_segments h :
  replicate (148 + 228 + h) 0 =
  replicate 4 0 ++ replicate 4 0 ++ replicate 4 0 ++ replicate 32 0 ++ replicate 32 0 ++ replicate 32 0 ++
  replicate 32 0 ++ replicate 4 0 ++ replicate 4 0 ++ replicate 4 0 ++ replicate 32 0 ++ replicate 32 0 ++
  replicate 16 0 ++ replicate 16 0 ++ replicate 32 0 ++ replicate 32 0 ++ replicate 32 0 ++ replicate 32 0 ++
  replicate h 0.
Proof. by rewrite <- !replicate_add. Qed.

Ltac copy_seek :=
  repeat first
    [ rewrite (copy_at_skip 4) by (rewrite ?length_replicate; eauto with seg || lia)
    | rewrite (copy_at_skip 32) by (rewrite ?length_replicate; eauto with seg || lia)
    | rewrite (copy_at_skip 16) by (rewrite ?length_replicate; eauto with seg || lia) ];
  cbn [Nat.sub].

Ltac copy_step :=
  copy_seek; rewrite copy_at_here by (rewrite ?length_replicate; symmetry; eauto with seg).

Lemma build_synthetic_layout e :
  expectations_wf e → build_synthetic_cctp_message e = message_bytes (synthetic_message e).
Proof.
  intros []. unfold build_synthetic_cctp_message. cbn zeta. rewrite zeroed_segments. cbn [Nat.add].
  do 11 copy_step. copy_seek.
  symmetry.
  unfold message_bytes, body_bytes, u256_bytes. cbn [m_version m_source_domain m_destination_domain m_nonce
    m_sender m_recipient m_destination_caller m_min_finality_threshold m_finality_threshold_executed m_body
    b_version b_burn_token b_mint_recipient b_amount b_message_sender b_max_fee b_fee_executed
    b_expiration_block b_hook_data synthetic_message].
  rewrite <- !app_assoc. case_bool_decide as Hh.
  - destruct (e_hook_data e) as [h|]; [|lia]. rewrite copy_at_all by apply length_replicate. done.
  - destruct (e_hook_data e) as [[|? ?]|]; [done|cbn in Hh; lia|done].
Qed.


Section Validation.

Context `{HOk : HexOk}.

Lemma decode_bytes raw bytes : decode_hex_message raw = Ok bytes → Forall is_byte bytes.
Proof. unfold decode_hex_message. rewrite ok_or_Ok. apply hex_decode_bytes. Qed.

Lemma validate_message_iff raw e m :
  validate_message_for_corridor raw e = Ok m ↔
  ∃ bytes, decode_hex_message raw = Ok bytes ∧ Z.of_nat (length bytes) <= MAX_RAW_MESSAGE_BYTES ∧
           message_wf m ∧ bytes = message_bytes m ∧ agrees e m.
Proof.
  unfold validate_message_for_corridor. rewrite try_Ok. apply exist_proper. intros bytes.
  rewrite map_err_Ok, try_unit_Ok, map_err_Ok, check_byte_len_Ok. cbn zeta.
  destruct (decode_hex_message raw) as [bs|] eqn:Hd; [|naive_solver].
  destruct (decide (bs = bytes)) as [->|]; [|naive_solver].
  pose proof (parse_message_iff bytes m (decode_bytes _ _ Hd)) as Hc.
  destruct (parse_cctp_v2_message bytes) as [p|] eqn:Hp; cbn [map_err try_].
  - rewrite !try_unit_Ok, !reject_neq, !reject_ne, reject_lt, reject_size, reject_hook, normalize_finality_eq.
    split.
    + intros (_ & Hs & ? & ? & ? & ? & ? & ? & ? & ? & ? & ? & ? & ? & ? & [= ->]).
      destruct Hc as [[Hwf Hb] _]; [done|]. by split_and!.
    + intros (_ & Hs & Hwf & Hb & Ha). destruct Hc as [_ Hc]. injection (Hc (conj Hwf Hb)) as ->.
      destruct Ha. by split_and!.
  - split; [by intros (_ & _ & ?)|]. intros (_ & _ & Hwf & Hb & _). destruct Hc as [_ Hc]. by specialize (Hc (conj Hwf Hb)).
Qed.

(** C24: validation accepts exactly the corridor's messages. A string is accepted,
    as message [m], exactly when it decodes to at most 8192 bytes which are the
    layout of [m], and [m] agrees with the expectations: domains, the two header
    addresses, token, recipient, sender, caller, amount, kind of finality, hook.
    Nothing else about the string matters. *)
Theorem validate_message_correct raw e m :
  validate_message_for_corridor raw e = Ok m ↔
  ∃ bytes, decode_hex_message raw = Ok bytes ∧ Z.of_nat (length bytes) <= MAX_RAW_MESSAGE_BYTES ∧
           message_wf m ∧ bytes = message_bytes m ∧ agrees e m.
Proof. apply validate_message_iff. Qed.

Lemma hexdigit_not_space c : is_ascii_hexdigit c = true → is_whitespace c = false.
Proof.
  intros Hc. apply not_true_is_false. revert Hc. unfold is_ascii_hexdigit, is_ascii_digit, is_whitespace.
  rewrite !orb_true_iff, !andb_true_iff, !Z.leb_le, !Z.eqb_eq. lia.
Qed.

Lemma decode_encode bs : Forall is_byte bs → decode_hex_message (encode_message_hex bs) = Ok bs.
Proof.
  intros Hb. unfold decode_hex_message, encode_message_hex.
  rewrite trim_id; [by unfold strip_0x; rewrite strip_prefix_app, hex_decode_encode|by intros c [= <-]|].
  intros c Hc. destruct (hex_encode bs) as [|d l] eqn:E using rev_ind; [by injection Hc as <-|].
  pose proof (hex_encode_digits bs Hb) as Hd. rewrite E in Hd.
  rewrite app_assoc, last_snoc in Hc. injection Hc as <-.
  apply Forall_app in Hd as [_ Hd]. inversion_clear Hd. by apply hexdigit_not_space.
Qed.

End Validation.

Lemma length_body_eq b : body_wf b → length (body_bytes b) = (228 + length (b_hook_data b))%nat.
Proof. intros []. unfold body_bytes. seg_length. Qed.

Lemma length_message_bytes m : message_wf m → length (message_bytes m) = (376 + length (b_hook_data (m_body m)))%nat.
Proof. intros []. unfold message_bytes. rewrite ?length_app, length_body_eq by done. seg_length. Qed.

Lemma message_bytes_bytes m : message_wf m → Forall is_byte (message_bytes m).
Proof.
  intros [? ? ? [] [] [] [] ? ? [? [] [] ? [] ? ? ? ?]]. unfold message_bytes, body_bytes, u256_bytes.
  rewrite !Forall_app. split_and!; try done; try apply be_bytes_byte; by apply Forall_replicate.
Qed.

(** The synthetic message of a corridor is accepted by that corridor. Building
    the bytes for well-formed expectations, writing them in hexadecimal and
    validating the result returns the expected message, exactly when the hook is
    one the corridor allows and fits, and the finality is the threshold of its kind
    or more. *)
Theorem synthetic_message_accepted `{HexOk} e :
  expectations_wf e →
  validate_message_for_corridor (encode_message_hex (build_synthetic_cctp_message e)) e =
    Ok (synthetic_message e) ↔
  (if e_hook_data_required_empty e then default [] (e_hook_data e) = [] else True) ∧
  Z.of_nat (length (default [] (e_hook_data e))) <= MAX_HOOK_DATA_BYTES ∧
  (e_min_finality e = FINALITY_FAST ∨ FINALITY_STANDARD <= e_min_finality e).
Proof.
  intros Hwf. pose proof (synthetic_wf e Hwf) as Hm. rewrite build_synthetic_layout by done.
  rewrite validate_message_iff. split.
  - intros (bytes & _ & _ & _ & _ & []). cbn in *. split_and!; [|done|].
    + by destruct (e_hook_data_required_empty e).
    + destruct (Z.leb_spec (e_min_finality e) FINALITY_FAST); [left; lia|by right].
  - intros (Hreq & Hsize & Hfin). exists (message_bytes (synthetic_message e)). split_and!; try done.
    + by apply decode_encode, message_bytes_bytes.
    + rewrite length_message_bytes by done. cbn. unfold MAX_HOOK_DATA_BYTES, MAX_RAW_MESSAGE_BYTES in *. lia.
    + split; try done; cbn.
      * unfold FINALITY_FAST, FINALITY_STANDARD in *. destruct (Z.leb_spec (e_min_finality e) 1000); lia.
      * by destruct (e_hook_data_required_empty e).
Qed.


(** ** Concrete inputs *)

(** A codec: two lower-case digits per byte. *)
Definition hex_digit (n : Z) : Z := if n <? 10 then 48 + n else 87 + n.

Definition hex_value (c : Z) : option Z :=
  if is_ascii_digit c then Some (c - 48)
  else if (97 <=? c) && (c <=? 102) then Some (c - 87)
  else if (65 <=? c) && (c <=? 70) then Some (c - 55) else None.

Fixpoint decode_pairs (s : Str) : option (list Z) :=
  match s with
  | [] => Some []
  | a :: b :: s' => x ← hex_value a; y ← hex_value b; (λ l, x * 16 + y :: l) <$> decode_pairs s'
  | [_] => None
  end.

Definition encode_pairs (bs : list Z) : Str :=
  concat ((λ b, [hex_digit (b / 16); hex_digit (b mod 16)]) <$> bs).

#[local] Instance pairs : Hex := {| hex_decode := decode_pairs; hex_encode := encode_pairs |}.

Lemma hex_value_range c v : hex_value c = Some v → 0 <= v < 16.
Proof.
  unfold hex_value, is_ascii_digit.
  destruct ((48 <=? c) && (c <=? 57)) eqn:E1; [|destruct ((97 <=? c) && (c <=? 102)) eqn:E2;
    [|destruct ((65 <=? c) && (c <=? 70)) eqn:E3; [|done]]];
    rewrite ?andb_true_iff, ?Z.leb_le in *; intros [= <-]; lia.
Qed.

Lemma hex_digit_spec n : 0 <= n < 16 →
  hex_value (hex_digit n) = Some n ∧ is_ascii_hexdigit (hex_digit n) = true.
Proof.
  intros Hn. assert (n ∈ seqZ 0 16) as Hs by (apply elem_of_seqZ; lia). cbn in Hs.
  repeat (apply elem_of_cons in Hs as [->|Hs]; [done|]). by apply elem_of_nil in Hs.
Qed.

Lemma nibbles b : is_byte b → 0 <= b / 16 < 16 ∧ 0 <= b mod 16 < 16 ∧ b / 16 * 16 + b mod 16 = b.
Proof. unfold is_byte. intros Hb. pose proof (Z.div_mod b 16). pose proof (Z.mod_pos_bound b 16). lia. Qed.

Lemma decode_pairs_bytes : ∀ s bs, decode_pairs s = Some bs → Forall is_byte bs.
Proof.
  fix IH 1. intros [|a [|b s]] bs; cbn; [by intros [= <-]|done|].
  intros (x & Hx%hex_value_range & (y & Hy%hex_value_range & (l & Hl%IH & ->)%fmap_Some)%bind_Some)%bind_Some.
  constructor; [|done]. unfold is_byte. lia.
Qed.

#[local] Instance pairs_ok : HexOk pairs.
Proof.
  split; cbn; [exact decode_pairs_bytes|..]; intros bs; unfold encode_pairs;
    induction 1 as [|b bs Hb%nibbles _ IH]; cbn; try done; destruct Hb as (H1 & H2 & H3);
    apply hex_digit_spec in H1 as [E1 F1], H2 as [E2 F2].
  - by repeat constructor.
  - rewrite E1, E2. cbn. rewrite IH. cbn. by rewrite H3.
Qed.

(** A corridor with an empty hook. *)
Definition sample_expectations : CorridorMessageExpectations :=
  mkCorridorMessageExpectations 27 0 (replicate 32 1) (replicate 32 2) (replicate 32 3) (replicate 32 4)
    (replicate 32 0) 1000000 FINALITY_STANDARD (replicate 32 5) None true.

Lemma sample_expectations_wf : expectations_wf sample_expectations.
Proof. split; try done; cbn; (split; [done|by repeat constructor]). Qed.

Lemma parse_message_correct_witness :
  let m := synthetic_message sample_expectations in
  parse_cctp_v2_message (message_bytes m) = Ok m ↔ message_wf m ∧ message_bytes m = message_bytes m.
Proof.
  apply (parse_message_correct (message_bytes (synthetic_message sample_expectations))).
  apply (bool_decide_unpack (Forall (λ b, 0 <= b < 256) (message_bytes (synthetic_message sample_expectations)))).
  by vm_compute.
Defined.

Lemma validate_message_correct_witness :
  let m := synthetic_message sample_expectations in
  let raw := encode_message_hex (message_bytes m) in
  validate_message_for_corridor raw sample_expectations = Ok m ∧
  ∃ bytes, decode_hex_message raw = Ok bytes ∧ Z.of_nat (length bytes) <= MAX_RAW_MESSAGE_BYTES ∧
           message_wf m ∧ bytes = message_bytes m ∧ agrees sample_expectations m.
Proof.
  intros m raw. assert (E : validate_message_for_corridor raw sample_expectations = Ok m) by (by vm_compute).
  split; [exact E|]. apply (proj1 (validate_message_correct raw sample_expectations m) E).
Defined.

Lemma synthetic_message_accepted_witness :
  let e := sample_expectations in
  validate_message_for_corridor (encode_message_hex (build_synthetic_cctp_message e)) e =
    Ok (synthetic_message e).
Proof.
  apply (synthetic_message_accepted sample_expectations).
  - apply sample_expectations_wf.
  - split_and!; [done|by vm_compute|by right].
Defined.
