(* ===== verification/CctpCrypto.v ===== *)
(** * Attestation signatures (api: cctp/attestation_crypto.rs)

    The check of an attestation, a concatenation of 65-byte signatures, against a
    sorted set of enabled signers and a threshold. Hashing and key recovery are
    parameters ([Crypto]); everything around them is here: the signature format, the
    low-s rule, the recovery byte, the order and the membership of the signers. *)

From stdpp Require Import base decidable strings numbers list sorting.
From Stdlib Require Import ZArith Lia.
From S2P Require Import Prelude RustStr Result CctpTypes.

Local Open Scope Z_scope.
Local Open Scope str_scope.
Local Open Scope result_scope.

(** ** Parameters *)

(** [tiny_keccak] and [k256]: the Keccak-256 digest of bytes, the numbers of the
    recovery ids, the checked conversion of 64 bytes to a signature, and the
    recovery of a key, given by its uncompressed encoding [04 || x || y]. *)
Class Crypto := {
  RecoveryId : Type;
  Signature : Type;
  keccak_v256 : list Z → list Z;
  recovery_id_from_byte : Z → option RecoveryId;
  signature_try_from : list Z → option Signature;
  recover_from_prehash : list Z → Signature → RecoveryId → option (list Z);
}.

(** ** Standard library: comparison of arrays and binary search *)

(** [Ord] of byte arrays and slices: lexicographic. *)
Fixpoint bytes_cmp (a b : list Z) : comparison :=
  match a, b with
  | [], [] => Eq
  | [], _ :: _ => Lt
  | _ :: _, [] => Gt
  | x :: a', y :: b' =>
      match Z.compare x y with
      | Eq => bytes_cmp a' b'
      | c => c
      end
  end.

Definition bytes_lt (a b : list Z) : Prop := bytes_cmp a b = Lt.
Definition bytes_le (a b : list Z) : Prop := bytes_cmp a b ≠ Gt.

#[export] Instance bytes_lt_dec a b : Decision (bytes_lt a b).
Proof. unfold bytes_lt. apply _. Defined.

#[export] Instance bytes_le_dec a b : Decision (bytes_le a b).
Proof. unfold bytes_le. apply _. Defined.

(** [slice::binary_search]: halves the range until one element is left; [fuel] is
    the length of the slice, which the range never exceeds. *)
Fixpoint search_base (l : list (list Z)) (key : list Z) (fuel base size : nat) : nat :=
  match fuel with
  | O => base
  | S f =>
      if bool_decide (1 < size)%nat then
        let half := (size / 2)%nat in
        let mid := (base + half)%nat in
        let base' :=
          match l !! mid with
          | Some x => match bytes_cmp x key with Gt => base | _ => mid end
          | None => base
          end in
        search_base l key f base' (size - half)
      else base
  end.

Definition binary_search (l : list (list Z)) (key : list Z) : option nat :=
  let base := search_base l key (length l) 0 (length l) in
  match l !! base with
  | Some x => match bytes_cmp x key with Eq => Some base | _ => None end
  | None => None
  end.

(** ** Data *)

Definition SIGNATURE_LENGTH : nat := 65.

Definition SECP256K1_HALF_N : list Z :=
  [127; 255; 255; 255; 255; 255; 255; 255; 255; 255; 255; 255; 255; 255; 255; 255;
   93; 87; 110; 115; 87; 164; 80; 29; 223; 233; 47; 70; 104; 27; 32; 160].

Module AttestationCryptoError.

Inductive AttestationCryptoError :=
| EmptyMessage
| EmptyAttestation
| MessageTooLarge
| AttestationTooLarge
| InvalidAttestationLength
| InvalidSignatureComponent
| HighS
| InvalidRecoveryId
| RecoveryFailed
| InvalidSignatureOrder
| UnknownSigner
| ThresholdZero
| ThresholdOverflow
| ExtraSignatures.

Definition reason_label (e : AttestationCryptoError) : Str :=
  match e with
  | EmptyMessage => $"empty_message"
  | EmptyAttestation => $"empty_attestation"
  | MessageTooLarge => $"message_too_large"
  | AttestationTooLarge => $"attestation_too_large"
  | InvalidAttestationLength => $"invalid_length"
  | InvalidSignatureComponent => $"invalid_rs"
  | HighS => $"high_s"
  | InvalidRecoveryId => $"invalid_v"
  | RecoveryFailed => $"recovery_failed"
  | InvalidSignatureOrder => $"invalid_order"
  | UnknownSigner => $"unknown_signer"
  | ThresholdZero => $"threshold_zero"
  | ThresholdOverflow => $"threshold_overflow"
  | ExtraSignatures => $"extra_signatures"
  end.

End AttestationCryptoError.

Abbreviation AttestationCryptoError := AttestationCryptoError.AttestationCryptoError (only parsing).

#[export] Instance AttestationCryptoError_eq_dec : EqDecision AttestationCryptoError.
Proof. solve_decision. Defined.

(** ** Signatures *)

Definition normalize_recovery_id (v : Z) : Result Z AttestationCryptoError :=
  if (v =? 27) || (v =? 28) then Ok (v - 27)
  else if (v =? 0) || (v =? 1) then Ok v
  else Err AttestationCryptoError.InvalidRecoveryId.

Definition is_high_s (s : list Z) : bool := bool_decide (bytes_lt SECP256K1_HALF_N s).

Definition parse_signature_component (bytes : list Z)
    : Result (list Z * list Z * Z) AttestationCryptoError :=
  reject (bool_decide (length bytes ≠ SIGNATURE_LENGTH)) AttestationCryptoError.InvalidSignatureComponent;;
  let r := take 32 bytes in
  let s := take 32 (drop 32 bytes) in
  let v := nth 64 bytes 0 in
  reject (bool_decide (r = replicate 32 0) || bool_decide (s = replicate 32 0))
    AttestationCryptoError.InvalidSignatureComponent;;
  reject (is_high_s s) AttestationCryptoError.HighS;;
  Ok (r, s, v).

Definition checked_attestation_len (threshold : Z) : Result Z AttestationCryptoError :=
  reject (threshold =? 0) AttestationCryptoError.ThresholdZero;;
  ok_or (checked_mul U64 threshold (Z.of_nat SIGNATURE_LENGTH)) AttestationCryptoError.ThresholdOverflow.

Section Signatures.

Context {C : Crypto}.

Definition keccak256 (data : list Z) : list Z := keccak_v256 data.

Definition eth_address_from_pubkey_xy (xy : list Z) : list Z := drop 12 (keccak256 xy).

Definition recover_signer_address (digest signature : list Z) : Result (list Z) AttestationCryptoError :=
  ' (r, s, v) ← parse_signature_component signature;
  rid_byte ← normalize_recovery_id v;
  recovery_id ← ok_or (recovery_id_from_byte rid_byte) AttestationCryptoError.InvalidRecoveryId;
  sig ← ok_or (signature_try_from (r ++ s)) AttestationCryptoError.InvalidSignatureComponent;
  encoded ← ok_or (recover_from_prehash digest sig recovery_id) AttestationCryptoError.RecoveryFailed;
  Ok (eth_address_from_pubkey_xy (take 64 (drop 1 encoded))).

(** The loop over the signatures: the last address and the addresses so far.
    The slice is within the attestation, whose length was checked. *)
Fixpoint verify_from (digest attestation : list Z) (enabled_sorted : list (list Z))
    (indices : list nat) (latest : list Z) (recovered : list (list Z))
    : Result (list (list Z)) AttestationCryptoError :=
  match indices with
  | [] => Ok recovered
  | i :: rest =>
      let start := (i * SIGNATURE_LENGTH)%nat in
      let sig := take SIGNATURE_LENGTH (drop start attestation) in
      addr ← recover_signer_address digest sig;
      reject (bool_decide (bytes_le addr latest)) AttestationCryptoError.InvalidSignatureOrder;;
      reject (bool_decide (binary_search enabled_sorted addr = None)) AttestationCryptoError.UnknownSigner;;
      verify_from digest attestation enabled_sorted rest addr (recovered ++ [addr])
  end.

Definition verify_attestation_signatures (message attestation : list Z) (signature_threshold : Z)
    (enabled_sorted : list (list Z)) : Result (list (list Z)) AttestationCryptoError :=
  reject (bool_decide (message = [])) AttestationCryptoError.EmptyMessage;;
  reject (bool_decide (attestation = [])) AttestationCryptoError.EmptyAttestation;;
  map_err (λ _, AttestationCryptoError.MessageTooLarge)
    (check_byte_len $"raw_message" message MAX_RAW_MESSAGE_BYTES);;
  map_err (λ _, AttestationCryptoError.AttestationTooLarge)
    (check_byte_len $"attestation" attestation MAX_ATTESTATION_BYTES);;
  reject (signature_threshold =? 0) AttestationCryptoError.ThresholdZero;;
  expected_len ← ok_or (checked_mul U64 signature_threshold (Z.of_nat SIGNATURE_LENGTH))
                   AttestationCryptoError.ThresholdOverflow;
  reject (negb (Z.of_nat (length attestation) =? expected_len))
    AttestationCryptoError.InvalidAttestationLength;;
  let digest := keccak256 message in
  verify_from digest attestation enabled_sorted (seq 0 (Z.to_nat signature_threshold)) (replicate 20 0) [].

End Signatures.

(** ** Properties of attestation signatures

    Lexicographic order of byte arrays, binary search on a sorted slice, and the
    exact set of attestations that the check accepts. *)

(** ** The order of byte arrays *)

Lemma bytes_cmp_eq a b : bytes_cmp a b = Eq ↔ a = b.
Proof.
  revert b. induction a as [|x a IH]; intros [|y b]; cbn; try done.
  destruct (Z.compare_spec x y) as [->|?|?].
  - rewrite IH. split; [by intros ->|by intros [= ->]].
  - split; [done|]. intros [= -> ->]. lia.
  - split; [done|]. intros [= -> ->]. lia.
Qed.

Lemma bytes_cmp_antisym a b : bytes_cmp b a = CompOpp (bytes_cmp a b).
Proof.
  revert b. induction a as [|x a IH]; intros [|y b]; cbn; try done.
  rewrite (Z.compare_antisym x y). destruct (x ?= y); cbn; auto.
Qed.

Lemma bytes_lt_trans a b c : bytes_lt a b → bytes_lt b c → bytes_lt a c.
Proof.
  unfold bytes_lt. revert b c. induction a as [|x a IH]; intros [|y b] [|z c]; cbn; try done.
  destruct (Z.compare_spec x y), (Z.compare_spec y z), (Z.compare_spec x z); subst; try done; try lia.
  apply IH.
Qed.

Lemma bytes_lt_irrefl a : ¬ bytes_lt a a.
Proof. unfold bytes_lt. by rewrite (proj2 (bytes_cmp_eq a a) eq_refl). Qed.

Lemma bytes_not_le a b : ¬ bytes_le a b ↔ bytes_lt b a.
Proof.
  unfold bytes_le, bytes_lt. rewrite (bytes_cmp_antisym a b).
  destruct (bytes_cmp a b); cbn; split; intros H; try done; try (by intros ?); exfalso; by apply H.
Qed.

Lemma bytes_le_alt a b : bytes_le a b ↔ bytes_lt a b ∨ a = b.
Proof.
  unfold bytes_le, bytes_lt. rewrite <- bytes_cmp_eq. destruct (bytes_cmp a b); naive_solver.
Qed.

#[export] Instance bytes_le_trans : Transitive bytes_le.
Proof.
  intros a b c. rewrite !bytes_le_alt. intros [?| ->] [?| ->]; auto. left. by eapply bytes_lt_trans.
Qed.

#[export] Instance bytes_le_total : Total bytes_le.
Proof.
  intros a b. destruct (decide (bytes_le a b)) as [|H]; [by left|]. right.
  apply bytes_not_le in H. apply bytes_le_alt. by left.
Qed.

#[export] Instance bytes_lt_transitive : Transitive bytes_lt.
Proof. intros a b c. apply bytes_lt_trans. Qed.

(** On arrays of the same length the order is the one of their numbers. *)
Lemma bytes_lt_value a b :
  Forall is_byte a → Forall is_byte b → length a = length b → bytes_lt a b ↔ be_value a < be_value b.
Proof.
  intros Ha. revert b. induction Ha as [|x a Hx Ha IH]; intros b Hb Hl.
  - destruct b; [|done]. cbn. split; [done|lia].
  - destruct Hb as [|y b Hy Hb]; [done|]. injection Hl as Hl. rewrite !be_value_cons, Hl.
    pose proof (be_value_nonneg a Ha) as Hva. pose proof (be_value_nonneg b Hb) as Hvb. rewrite Hl in Hva.
    specialize (IH b Hb Hl). unfold bytes_lt, is_byte in *. cbn [bytes_cmp].
    destruct (Z.compare_spec x y) as [->|?|?]; [rewrite IH; lia|..].
    + split; [intros _|done]. nia.
    + split; [done|]. nia.
Qed.

(** ** Binary search *)

Section BinarySearch.

Context (l : list (list Z)) (key : list Z).
Hypothesis Hsorted : StronglySorted bytes_le l.

(** The elements from [hi] on are above the key, and the one at [base] is not,
    unless [base] is the start. *)
Definition bracket (base hi : nat) : Prop :=
  (∀ j x, (hi <= j)%nat → l !! j = Some x → bytes_cmp x key = Gt) ∧
  (base = 0%nat ∨ ∃ x, l !! base = Some x ∧ bytes_le x key).

Lemma sorted_lookup i j x y : (i <= j)%nat → l !! i = Some x → l !! j = Some y → bytes_le x y.
Proof.
  intros Hij Hi Hj. destruct (decide (i = j)) as [->|].
  - apply bytes_le_alt. right. congruence.
  - revert i j Hij Hi Hj n. induction Hsorted as [|z l' Hs IH Hf]; intros i j Hij Hi Hj n; [done|].
    destruct j as [|j]; [lia|]. destruct i as [|i]; cbn in *.
    + injection Hi as ->. rewrite Forall_lookup in Hf. by eapply Hf.
    + eapply (IH Hs i j); [lia|done..|lia].
Qed.

Lemma search_base_bracket fuel base size :
  (size <= S fuel)%nat → (1 <= size)%nat → (base + size <= length l)%nat → bracket base (base + size) →
  let b := search_base l key fuel base size in (b < length l)%nat ∧ bracket b (S b).
Proof.
  revert base size. induction fuel as [|fuel IH]; intros base size Hf Hs Hl Hb; cbn [search_base].
  { replace size with 1%nat in Hb by lia. split; [lia|]. by rewrite Nat.add_1_r in Hb. }
  case_bool_decide as Hsz.
  2: { replace size with 1%nat in Hb by lia. split; [lia|]. by rewrite Nat.add_1_r in Hb. }
  pose proof (Nat.div_mod size 2). pose proof (Nat.mod_upper_bound size 2).
  destruct (lookup_lt_is_Some_2 l (base + size / 2)) as [x Hx]; [lia|]. cbn zeta. rewrite Hx.
  destruct Hb as [Hgt Hle].
  destruct (bytes_cmp x key) eqn:Ec; apply IH; try lia.
  - split; [intros j y Hj; apply Hgt; lia|]. right. exists x. split; [done|]. unfold bytes_le. by rewrite Ec.
  - split; [intros j y Hj; apply Hgt; lia|]. right. exists x. split; [done|]. unfold bytes_le. by rewrite Ec.
  - split; [|done]. intros j y Hj Hy.
    assert (Hxy : bytes_le x y) by (eapply (sorted_lookup (base + size / 2) j); [lia|done..]).
    rewrite bytes_cmp_antisym. unfold bytes_lt in *.
    assert (bytes_lt key y) as ->; [|done].
    assert (bytes_lt key x) by (unfold bytes_lt; rewrite bytes_cmp_antisym, Ec; done).
    apply bytes_le_alt in Hxy as [?| <-]; [by eapply bytes_lt_trans|done].
Qed.

Lemma binary_search_found : binary_search l key ≠ None ↔ key ∈ l.
Proof.
  unfold binary_search. split.
  - case_match eqn:E; [|done]. case_match eqn:Ec; [|done..]. intros _.
    apply bytes_cmp_eq in Ec as ->. by eapply list_elem_of_lookup_2.
  - intros (j & Hj)%list_elem_of_lookup.
    destruct (search_base_bracket (length l) 0 (length l)) as (Hb & Hgt & Hle).
    + lia.
    + apply lookup_lt_Some in Hj. lia.
    + lia.
    + split; [|by left]. intros i x Hi Hx. apply lookup_lt_Some in Hx. lia.
    + set (b := search_base l key (length l) 0 (length l)) in *.
      destruct (lookup_lt_is_Some_2 l b Hb) as [x Hx]. rewrite Hx.
      enough (x = key) as -> by by rewrite (proj2 (bytes_cmp_eq key key) eq_refl).
      assert (Hjb : (j <= b)%nat).
      { destruct (decide (j <= b)%nat); [done|]. specialize (Hgt j key). 
        rewrite (proj2 (bytes_cmp_eq key key) eq_refl) in Hgt. by specialize (Hgt ltac:(lia) Hj). }
      destruct (decide (j = b)) as [->|Hne]; [congruence|].
      destruct Hle as [Hle|(y & Hy & Hle)]; [lia|]. replace y with x in * by congruence.
      assert (Hkx : bytes_le key x) by (by eapply sorted_lookup).
      apply bytes_le_alt in Hle as [Hlt|?]; [|done].
      apply bytes_not_le in Hlt. done.
Qed.

End BinarySearch.

(** ** Accepted signatures *)

(** The order of the secp256k1 group; the constant is half of it. *)
Definition secp256k1_order : Z :=
  0xfffffffffffffffffffffffffffffffebaaedce6af48a03bbfd25e8cd0364141.

Lemma half_n_value : be_value SECP256K1_HALF_N = (secp256k1_order - 1) / 2.
Proof. reflexivity. Qed.

Lemma nonzero_value l : byte_array 32 l → l ≠ replicate 32 0 → 0 < be_value l.
Proof.
  intros [Hl Hb] Hne. pose proof (be_value_nonneg l Hb).
  destruct (decide (be_value l = 0)) as [E|]; [|lia]. exfalso. apply Hne.
  rewrite <- (be_bytes_be_value l Hb), Hl, E. done.
Qed.

Section Accepted.

Context {C : Crypto}.

Lemma parse_signature_Ok sig r s v :
  parse_signature_component sig = Ok (r, s, v) →
  length sig = 65%nat ∧ r = take 32 sig ∧ s = take 32 (drop 32 sig) ∧ v = nth 64 sig 0 ∧
  r ≠ replicate 32 0 ∧ s ≠ replicate 32 0 ∧ ¬ bytes_lt SECP256K1_HALF_N s.
Proof.
  unfold parse_signature_component. intros H. rinv.
  match goal with Hb : _ || _ = false |- _ => apply orb_false_iff in Hb as [Hr Hs] end.
  match goal with Hb : bool_decide (_ ≠ _) = false |- _ => apply bool_decide_eq_false, dec_stable in Hb end.
  apply bool_decide_eq_false in Hr, Hs. 
  match goal with Hb : is_high_s _ = false |- _ => apply bool_decide_eq_false in Hb end.
  by split_and!.
Qed.

(** A signature from which a signer is recovered is in the strict form: 65
    bytes, [r] not zero, [s] between one and half of the group order, so that its
    mirror image is rejected, and a recovery byte of 0, 1, 27 or 28. *)
Theorem recovered_signature_strict digest sig a :
  Forall is_byte sig → recover_signer_address digest sig = Ok a →
  length sig = 65%nat ∧ 0 < be_value (take 32 sig) ∧
  0 < be_value (take 32 (drop 32 sig)) <= (secp256k1_order - 1) / 2 ∧
  nth 64 sig 0 ∈ [0; 1; 27; 28].
Proof.
  intros Hb H. unfold recover_signer_address in H. apply try_Ok in H as ([[r s] v] & Hp & H).
  apply parse_signature_Ok in Hp as (Hl & -> & -> & -> & Hr & Hs & Hlow). rinv.
  assert (Hrs : byte_array 32 (take 32 sig) ∧ byte_array 32 (take 32 (drop 32 sig))).
  { split; (split; [rewrite length_take, ?length_drop; lia|by auto using Forall_take, Forall_drop]). }
  destruct Hrs as [Har Has]. split_and!; [done|by apply nonzero_value|by apply nonzero_value|..].
  - rewrite <- half_n_value. destruct Has as [Hls Hbs].
    rewrite bytes_lt_value in Hlow; [lia|by repeat constructor|done|by rewrite Hls].
  - match goal with Hn : normalize_recovery_id _ = Ok _ |- _ => revert Hn end.
    unfold normalize_recovery_id. generalize (nth 64 sig 0). intros v.
    destruct (Z.eqb_spec v 27), (Z.eqb_spec v 28), (Z.eqb_spec v 0), (Z.eqb_spec v 1);
      try done; intros _; subst; by repeat constructor.
Qed.

(** The [i]-th signature of an attestation. *)
Definition signature_at (att : list Z) (i : nat) : list Z :=
  take SIGNATURE_LENGTH (drop (i * SIGNATURE_LENGTH) att).

Lemma verify_from_Ok digest att enabled idx latest rec out :
  verify_from digest att enabled idx latest rec = Ok out ↔
  ∃ addrs, out = rec ++ addrs ∧
    Forall2 (λ i a, recover_signer_address digest (signature_at att i) = Ok a) idx addrs ∧
    Sorted bytes_lt (latest :: addrs) ∧ Forall (λ a, binary_search enabled a ≠ None) addrs.
Proof.
  revert latest rec. induction idx as [|i idx IH]; intros latest rec; cbn [verify_from].
  - split.
    + intros [= <-]. exists []. split_and!; [by rewrite app_nil_r|constructor|by repeat constructor|constructor].
    + intros (addrs & -> & H & _). inversion H. by rewrite app_nil_r.
  - cbn zeta. rewrite try_Ok. split.
    + intros (a & Ha & H). apply try_Ok in H as ([] & Hlt%reject_Ok%bool_decide_eq_false%bytes_not_le & H).
      apply try_Ok in H as ([] & Hin%reject_Ok%bool_decide_eq_false & H).
      apply IH in H as (addrs & -> & Hf & Hs & He). exists (a :: addrs).
      split_and!; [by rewrite <- app_assoc|by constructor|constructor; [done|by constructor]|by constructor].
    + intros (addrs & -> & Hf & Hs & He). inversion Hf as [|? a ? addrs' Ha Hf']; subst.
      apply Sorted_inv in Hs as [Hs Hd]. apply HdRel_inv in Hd. apply Forall_cons in He as [Hin He].
      exists a. split; [done|]. rewrite bool_decide_eq_false_2 by (by apply bytes_not_le). cbn [reject try_].
      rewrite bool_decide_eq_false_2 by done. cbn [reject try_]. apply IH. exists addrs'.
      split_and!; [by rewrite <- app_assoc|done..].
Qed.

(** ** Attestations as lists of signatures *)

Lemma signature_at_S att i : signature_at att (S i) = signature_at (drop SIGNATURE_LENGTH att) i.
Proof. unfold signature_at. by rewrite drop_drop. Qed.

Lemma signatures_S att n :
  signature_at att <$> seq 0 (S n) =
  take SIGNATURE_LENGTH att :: (signature_at (drop SIGNATURE_LENGTH att) <$> seq 0 n).
Proof.
  cbn [seq]. rewrite <- fmap_S_seq, fmap_cons. f_equal.
  rewrite <- list_fmap_compose. apply list_fmap_ext. intros ? i _. apply signature_at_S.
Qed.

(** Cutting and joining are inverse. *)
Lemma signatures_concat att n :
  length att = (n * SIGNATURE_LENGTH)%nat →
  concat (signature_at att <$> seq 0 n) = att ∧
  Forall (λ sig, length sig = SIGNATURE_LENGTH) (signature_at att <$> seq 0 n).
Proof.
  revert att. induction n as [|n IH]; intros att Hl.
  - split; [|constructor]. symmetry. by apply nil_length_inv.
  - rewrite signatures_S. destruct (IH (drop SIGNATURE_LENGTH att)) as [E F]; [rewrite length_drop; lia|].
    split; [cbn [concat]; rewrite E; apply take_drop|]. constructor; [rewrite length_take; lia|done].
Qed.

Lemma concat_signatures sigs :
  Forall (λ sig, length sig = SIGNATURE_LENGTH) sigs →
  signature_at (concat sigs) <$> seq 0 (length sigs) = sigs ∧
  length (concat sigs) = (length sigs * SIGNATURE_LENGTH)%nat.
Proof.
  induction 1 as [|sig sigs Hl _ [IH1 IH2]]; [done|]. cbn [length concat]. split.
  - rewrite signatures_S, take_app_length', drop_app_length' by done. by rewrite IH1.
  - rewrite length_app, Hl, IH2. cbn. lia.
Qed.

Lemma verify_signatures_iff message att threshold enabled addrs :
  StronglySorted bytes_le enabled → fits U32 threshold →
  verify_attestation_signatures message att threshold enabled = Ok addrs ↔
  message ≠ [] ∧ Z.of_nat (length message) <= MAX_RAW_MESSAGE_BYTES ∧
  Z.of_nat (length att) <= MAX_ATTESTATION_BYTES ∧ 0 < threshold ∧
  ∃ sigs, att = concat sigs ∧ Z.of_nat (length sigs) = threshold ∧
    Forall (λ sig, length sig = 65%nat) sigs ∧
    Forall2 (λ sig a, recover_signer_address (keccak256 message) sig = Ok a) sigs addrs ∧
    Sorted bytes_lt (replicate 20 0 :: addrs) ∧ Forall (λ a, a ∈ enabled) addrs.
Proof.
  intros Hsorted Hfits. unfold verify_attestation_signatures, checked_mul.
  change (Z.of_nat SIGNATURE_LENGTH) with 65. rewrite chk_fits by (unfold fits in *; cbn in *; lia). cbn [ok_or try_].
  rewrite !try_unit_Ok, !map_err_Ok, !check_byte_len_Ok, reject_neq, !reject_Ok, !bool_decide_eq_false, Z.eqb_neq.
  cbn zeta. rewrite verify_from_Ok. setoid_rewrite binary_search_found; [|done].
  split.
  - intros (Hm & Ha & Hlm & Hla & Ht & Hlen & addrs' & -> & Hf & Hs & He). cbn [app] in *.
    unfold fits in Hfits. cbn in Hfits.
    destruct (signatures_concat att (Z.to_nat threshold)) as [E F]; [unfold SIGNATURE_LENGTH in *; lia|].
    split_and!; try done; try lia. exists (signature_at att <$> seq 0 (Z.to_nat threshold)).
    split_and!; try done; [rewrite length_fmap, length_seq; lia|by apply Forall2_fmap_l].
  - intros (Hm & Hlm & Hla & Ht & sigs & -> & Hn & Hl & Hf & Hs & He).
    destruct (concat_signatures sigs Hl) as [E F]. unfold SIGNATURE_LENGTH in *.
    split_and!; try done; try lia.
    + intros E0. rewrite E0 in F. cbn in F. lia.
    + exists addrs. split_and!; try done. rewrite <- E in Hf. replace (Z.to_nat threshold) with (length sigs) by lia.
      by apply Forall2_fmap_l in Hf.
Qed.

(** C20: which attestations are accepted. For a message and a set of enabled signers
    sorted by address, the check returns the signers exactly when the message is not
    empty, both are within their size limits, the threshold is positive, the attestation is
    the concatenation of as many 65-byte signatures as the threshold says, the
    [i]-th signer is recovered from the [i]-th signature over the hash of the
    message, the signers are strictly increasing (so that none counts twice) and
    above the zero address, and every one of them is enabled. *)
Theorem verify_signatures_correct message att threshold enabled addrs :
  StronglySorted bytes_le enabled → fits U32 threshold →
  verify_attestation_signatures message att threshold enabled = Ok addrs ↔
  message ≠ [] ∧ Z.of_nat (length message) <= MAX_RAW_MESSAGE_BYTES ∧
  Z.of_nat (length att) <= MAX_ATTESTATION_BYTES ∧ 0 < threshold ∧
  ∃ sigs, att = concat sigs ∧ Z.of_nat (length sigs) = threshold ∧
    Forall (λ sig, length sig = 65%nat) sigs ∧
    Forall2 (λ sig a, recover_signer_address (keccak256 message) sig = Ok a) sigs addrs ∧
    Sorted bytes_lt (replicate 20 0 :: addrs) ∧ Forall (λ a, a ∈ enabled) addrs.
Proof. apply verify_signatures_iff. Qed.

End Accepted.

(** ** Concrete inputs *)

(** A toy signature scheme: the key of a signature is its [r], twice. *)
#[local] Instance toy : Crypto := {|
  RecoveryId := Z;
  Signature := list Z;
  keccak_v256 := λ data, take 32 data;
  recovery_id_from_byte := λ v, Some v;
  signature_try_from := λ rs, Some rs;
  recover_from_prehash := λ _ rs _, Some (4 :: take 32 rs ++ take 32 rs);
|}.

(** The signature whose signer is twenty bytes [n]. *)
Definition toy_signature (n : Z) : list Z := replicate 32 n ++ replicate 32 1 ++ [27].

Definition toy_signer (n : Z) : list Z := replicate 20 n.

Lemma recovered_signature_strict_witness :
  recover_signer_address [9] (toy_signature 7) = Ok (toy_signer 7) ∧ 27 ∈ [0; 1; 27; 28].
Proof.
  assert (E : recover_signer_address [9] (toy_signature 7) = Ok (toy_signer 7)) by (by vm_compute).
  split; [exact E|].
  apply (recovered_signature_strict [9] (toy_signature 7) (toy_signer 7)); [|exact E].
  apply (bool_decide_unpack (Forall (λ b, 0 <= b < 256) (toy_signature 7))). by vm_compute.
Defined.

Lemma verify_signatures_correct_witness :
  let enabled := toy_signer <$> [3; 5; 7] in
  verify_attestation_signatures [9] (toy_signature 3 ++ toy_signature 7) 2 enabled =
    Ok [toy_signer 3; toy_signer 7].
Proof.
  intros enabled. apply (verify_signatures_correct [9] _ 2 enabled [toy_signer 3; toy_signer 7]).
  - apply (bool_decide_unpack (StronglySorted bytes_le enabled)). by vm_compute.
  - by split.
  - split_and!; [done..|]. exists [toy_signature 3; toy_signature 7].
    split_and!; [by vm_compute|done|by repeat constructor|by repeat constructor| |].
    + by repeat constructor.
    + by repeat constructor; apply (bool_decide_unpack _); vm_compute.
Defined.
