(* ===== verification/CctpTrust.v ===== *)
(** * Attestation trust (api: cctp/attester_set.rs, cctp/attestation_trust.rs, cctp/attestation.rs)

    Which signers the bridge trusts: the validation of an on-chain attester set
    against the published Iris keys, the cache of trust generations with its refresh
    policy, and the verifier that checks attestations against it.

    The cache is shared by the tasks of the server. Its state is published by one
    atomic swap, under a refresh lock; outside the lock other tasks may publish
    between any two accesses. What the outside supplies, clock readings, Iris keys,
    on-chain sets and the generations that other tasks publish, is an argument
    ([Env]), indexed by how often it was asked. Metrics are not modelled. *)

From stdpp Require Import base decidable strings numbers list sorting.
From S2P Require Import Prelude RustStr Result CctpTypes CctpMessage CctpCrypto.

Local Open Scope Z_scope.
Local Open Scope str_scope.
Local Open Scope result_scope.
Local Open Scope record_scope.

(** ** Constants (config.rs, bounds.rs) *)

Definition STELLAR_TESTNET_DOMAIN : Z := 27.
Definition SEPOLIA_DOMAIN : Z := 0.

Definition MAX_ENABLED_ATTESTERS : Z := 256.
Definition MAX_SIGNATURE_THRESHOLD : Z := 64.
Definition MAX_IRIS_PUBLIC_KEYS : Z := 256.

(** ** attester_set.rs *)

Module AttesterDestination.

Inductive AttesterDestination := Sepolia | StellarTestnet.

Definition domain (d : AttesterDestination) : Z :=
  match d with
  | Sepolia => SEPOLIA_DOMAIN
  | StellarTestnet => STELLAR_TESTNET_DOMAIN
  end.

Definition label (d : AttesterDestination) : Str :=
  match d with
  | Sepolia => $"sepolia"
  | StellarTestnet => $"stellar_testnet"
  end.

End AttesterDestination.

Abbreviation AttesterDestination := AttesterDestination.AttesterDestination (only parsing).

#[export] Instance AttesterDestination_eq_dec : EqDecision AttesterDestination.
Proof. solve_decision. Defined.

(** [Instant] and [Duration] in nanoseconds; [duration_since] saturates at zero. *)
Abbreviation Instant := Z (only parsing).
Abbreviation Duration := Z (only parsing).
Abbreviation Address := (list Z) (only parsing).

Definition duration_since (now earlier : Instant) : Duration := Z.max 0 (now - earlier).

Record RawOnChainAttesterSet := mkRawOnChainAttesterSet {
  raw_signature_threshold : Z;
  raw_enabled_addresses : list Address;
  raw_block_or_ledger : option Str;
}.

Record AttesterSetSnapshot := mkAttesterSetSnapshot {
  destination : AttesterDestination;
  signature_threshold : Z;
  enabled_addresses : list Address;
  iris_set_hash : list Z;
  on_chain_set_hash : list Z;
  enabled_count : Z;
  verified_at : Instant;
  block_or_ledger : option Str;
  snap_source : Str;
  snap_generation : Z;
}.

Module AttesterSetError.

Inductive AttesterSetError :=
| NotReady
| Transient (s : Str)
| ThresholdZero
| ThresholdExceedsEnabled
| InsufficientEnabled
| OnChainNotInIris
| EmptySet
| Stale
| IrisSetHashMismatch
| EnabledCountMismatch
| EnumerationCapExceeded
| ThresholdCapExceeded.

(** [Display] *)
Definition to_string (e : AttesterSetError) : Str :=
  match e with
  | NotReady => $"not ready"
  | Transient s => $"transient: " ++ s
  | ThresholdZero => $"threshold zero"
  | ThresholdExceedsEnabled => $"threshold exceeds enabled attesters"
  | InsufficientEnabled => $"insufficient enabled attesters"
  | OnChainNotInIris => $"on-chain attester not represented in Iris v2 keys"
  | EmptySet => $"empty enabled set"
  | Stale => $"stale snapshot"
  | IrisSetHashMismatch => $"iris set hash mismatch"
  | EnabledCountMismatch => $"enabled count mismatch"
  | EnumerationCapExceeded => $"enumeration cap exceeded"
  | ThresholdCapExceeded => $"threshold cap exceeded"
  end.

End AttesterSetError.

Abbreviation AttesterSetError := AttesterSetError.AttesterSetError (only parsing).

(** [Vec::sort] on a total order: the sorted permutation. *)
Definition sort (l : list Address) : list Address := merge_sort bytes_le l.

(** [Vec::dedup]: drops an element equal to the one kept before it. *)
Fixpoint dedup_from (x : Address) (l : list Address) : list Address :=
  match l with
  | [] => []
  | y :: l' => if bool_decide (y = x) then dedup_from x l' else y :: dedup_from y l'
  end.

Definition dedup (l : list Address) : list Address :=
  match l with
  | [] => []
  | x :: l' => x :: dedup_from x l'
  end.

Definition is_fresh_snapshot (snap : AttesterSetSnapshot) (ttl : Duration) (now : Instant) : bool :=
  duration_since now (verified_at snap) <=? ttl.

Definition is_stale_beyond_snapshot (snap : AttesterSetSnapshot) (max_stale : Duration) (now : Instant) : bool :=
  max_stale <? duration_since now (verified_at snap).

Definition destination_for_message (source_domain destination_domain : Z) : option AttesterDestination :=
  if (source_domain =? STELLAR_TESTNET_DOMAIN) && (destination_domain =? SEPOLIA_DOMAIN)
  then Some AttesterDestination.Sepolia
  else if (source_domain =? SEPOLIA_DOMAIN) && (destination_domain =? STELLAR_TESTNET_DOMAIN)
  then Some AttesterDestination.StellarTestnet
  else None.

Section AttesterSet.

Context {C : Crypto}.

(** The SHA-256 digest of the concatenation of what [update] was given. *)
Variable sha256 : list Z → list Z.

Definition set_hash_on_chain (addresses : list Address) : list Z := sha256 (concat (sort addresses)).

Definition iris_candidate_hash (addresses : list Address) : list Z := keccak256 (concat addresses).

Definition validate_attester_set_parity (destination : AttesterDestination) (on_chain : RawOnChainAttesterSet)
    (iris_addresses : list Address) (iris_set_hash : list Z) (generation : Z) (verified_at : Instant)
    (source : Str) : Result AttesterSetSnapshot AttesterSetError :=
  reject (bool_decide (iris_candidate_hash iris_addresses ≠ iris_set_hash)) AttesterSetError.IrisSetHashMismatch;;
  reject (raw_signature_threshold on_chain =? 0) AttesterSetError.ThresholdZero;;
  reject (MAX_SIGNATURE_THRESHOLD <? raw_signature_threshold on_chain) AttesterSetError.ThresholdCapExceeded;;
  let enabled := raw_enabled_addresses on_chain in
  reject (bool_decide (enabled = [])) AttesterSetError.EmptySet;;
  reject (MAX_ENABLED_ATTESTERS <? Z.of_nat (length enabled)) AttesterSetError.EnumerationCapExceeded;;
  let enabled := dedup (sort enabled) in
  reject (bool_decide (length enabled ≠ length (raw_enabled_addresses on_chain)))
    AttesterSetError.EnabledCountMismatch;;
  enabled_count ← ok_or (chk U32 (Z.of_nat (length enabled))) AttesterSetError.EnumerationCapExceeded;
  reject (enabled_count <? raw_signature_threshold on_chain) AttesterSetError.ThresholdExceedsEnabled;;
  reject (negb (forallb (λ addr, bool_decide (addr ∈ iris_addresses)) enabled)) AttesterSetError.OnChainNotInIris;;
  Ok (mkAttesterSetSnapshot destination (raw_signature_threshold on_chain) enabled iris_set_hash
        (set_hash_on_chain enabled) enabled_count verified_at (raw_block_or_ledger on_chain) source generation).

End AttesterSet.

(** ** attestation_trust.rs *)

Record IrisTrustSnapshot := mkIrisTrustSnapshot {
  addresses : list Address;
  set_hash : list Z;
}.

Record AttestationTrustGeneration := mkAttestationTrustGeneration {
  generation : Z;
  refreshed_at : Instant;
  iris : IrisTrustSnapshot;
  sepolia : AttesterSetSnapshot;
  stellar : AttesterSetSnapshot;
}.

Module AttestationTrustError.

Inductive AttestationTrustError :=
| NotReady
| Stale
| RefreshFailed
| AttesterSet (s : Str)
| Iris (s : Str).

End AttestationTrustError.

Abbreviation AttestationTrustError := AttestationTrustError.AttestationTrustError (only parsing).

(** What the cache asks the outside for, by the number of the request: the clock,
    the Iris keys (or the text of the error), the on-chain set of a reader, and the
    generations that other tasks publish before our next access. [readers] are the
    destinations of the configured readers, in order. *)
Class Env := {
  clock : nat → Instant;
  fetch_public_keys : nat → Result (list Address) Str;
  read_on_chain_set : nat → AttesterDestination → Result RawOnChainAttesterSet AttesterSetError;
  rivals : nat → list AttestationTrustGeneration;
  readers : list AttesterDestination;
  ttl : Duration;
  stale_max : Duration;
  env_crypto :: Crypto;
  env_sha256 : list Z → list Z;
}.

(** The cache and the requests made so far. *)
Record World := mkWorld {
  state : option AttestationTrustGeneration;
  generation_counter : Z;
  generation_build_count : Z;
  clock_reads : nat;
  fetches : nat;
  set_reads : nat;
  turns : nat;
}.

#[export] Instance eta_World : Eta World := λ w,
  mkWorld (state w) (generation_counter w) (generation_build_count w) (clock_reads w) (fetches w)
    (set_reads w) (turns w).

(** [AttestationTrustCache::new] *)
Definition new_cache : World := mkWorld None 0 0 0 0 0 0.

Section Trust.

Context {E : Env}.

Definition W (A : Type) : Type := World → A * World.

Definition wret {A} (a : A) : W A := λ w, (a, w).

Definition wbind {A B} (m : W A) (f : A → W B) : W B := λ w, let (a, w') := m w in f a w'.

Local Notation "x <- m ; k" := (wbind m (λ x : _, k))
  (at level 20, m at level 100, k at level 200, only parsing).

(** [m?] in a function that returns a [Result]. *)
Definition wtry {A B X} (m : W (Result A X)) (f : A → W (Result B X)) : W (Result B X) :=
  wbind m (λ r, match r with Ok a => f a | Err e => wret (Err e) end).

Local Notation "x <-? m ; k" := (wtry m (λ x : _, k))
  (at level 20, m at level 100, k at level 200, only parsing).

Definition now : W Instant := λ w, (clock (clock_reads w), w <| clock_reads ::= S |>).

(** Other tasks publish. *)
Definition yield_others : W unit := λ w,
  (tt, w <| state := match last (rivals (turns w)) with Some g => Some g | None => state w end |>
         <| turns ::= S |>).

(** [self.generation()]: an atomic load. *)
Definition load : W (option AttestationTrustGeneration) := λ w, (state w, w).

Definition is_fresh (g : AttestationTrustGeneration) : W bool :=
  t <- now;
  wret (duration_since t (refreshed_at g) <=? ttl).

Definition is_stale_beyond (g : AttestationTrustGeneration) : W bool :=
  t <- now;
  wret (stale_max <? duration_since t (refreshed_at g)).

Definition is_ready : W bool :=
  o <- load;
  match o with
  | Some g => stale <- is_stale_beyond g; wret (negb stale)
  | None => wret false
  end.

Definition snapshot_for (dest : AttesterDestination) : W (option AttesterSetSnapshot) :=
  o <- load;
  match o with
  | None => wret None
  | Some g =>
      stale <- is_stale_beyond g;
      if stale : bool then wret None
      else wret (Some (match dest with
                       | AttesterDestination.Sepolia => sepolia g
                       | AttesterDestination.StellarTestnet => stellar g
                       end))
  end.

Definition snapshot_source (d : AttesterDestination) : Str :=
  match d with
  | AttesterDestination.Sepolia => $"evm_message_transmitter_v2"
  | AttesterDestination.StellarTestnet => $"stellar_message_transmitter_v2"
  end.

(** The loop over the readers, with the two snapshots found so far. *)
Fixpoint read_sets (rs : list AttesterDestination) (sorted_iris : list Address) (iris_hash : list Z)
    (gen : Z) (t : Instant) (snaps : option AttesterSetSnapshot * option AttesterSetSnapshot)
    : W (Result (option AttesterSetSnapshot * option AttesterSetSnapshot) AttestationTrustError) :=
  match rs with
  | [] => wret (Ok snaps)
  | d :: rs' =>
      on_chain <-? (λ w, (map_err (λ e, AttestationTrustError.AttesterSet (AttesterSetError.to_string e))
                            (read_on_chain_set (set_reads w) d), w <| set_reads ::= S |>));
      snap <-? wret (map_err (λ e, AttestationTrustError.AttesterSet (AttesterSetError.to_string e))
                       (validate_attester_set_parity env_sha256 d on_chain sorted_iris iris_hash gen t
                          (snapshot_source d)));
      read_sets rs' sorted_iris iris_hash gen t
        (match d with
         | AttesterDestination.Sepolia => (Some snap, snd snaps)
         | AttesterDestination.StellarTestnet => (fst snaps, Some snap)
         end)
  end.

Definition build_generation : W (Result AttestationTrustGeneration AttestationTrustError) :=
  t <- now;
  iris_addresses <-? (λ w, (map_err AttestationTrustError.Iris (fetch_public_keys (fetches w)),
                            w <| fetches ::= S |>));
  _ <-? wret (reject (bool_decide (iris_addresses = [])) (AttestationTrustError.Iris $"empty"));
  _ <-? wret (reject (MAX_IRIS_PUBLIC_KEYS <? Z.of_nat (length iris_addresses))
                (AttestationTrustError.Iris $"too many keys"));
  let sorted_iris := dedup (sort iris_addresses) in
  let iris_hash := iris_candidate_hash sorted_iris in
  let iris := mkIrisTrustSnapshot sorted_iris iris_hash in
  gen <- (λ w, (wrap U64 (generation_counter w + 1), w <| generation_counter ::= λ n, wrap U64 (n + 1) |>));
  snaps <-? read_sets readers sorted_iris iris_hash gen t (None, None);
  sepolia <-? wret (ok_or (fst snaps) (AttestationTrustError.AttesterSet $"missing sepolia reader"));
  stellar <-? wret (ok_or (snd snaps) (AttestationTrustError.AttesterSet $"missing stellar reader"));
  wret (Ok (mkAttestationTrustGeneration gen t iris sepolia stellar)).

(** The refresh itself, under the lock. On failure the code looks once more at how
    old the present generation is, and returns the same error either way. *)
Definition rebuild : W (Result unit AttestationTrustError) :=
  r <- build_generation;
  match r with
  | Ok g => λ w, (Ok tt, w <| generation_build_count ::= λ n, wrap U64 (n + 1) |> <| state := Some g |>)
  | Err e =>
      o <- load;
      match o with
      | Some g => _ <- is_stale_beyond g; wret (Err e)
      | None => wret (Err e)
      end
  end.

Definition full_refresh_inner (force : bool) : W (Result unit AttestationTrustError) :=
  _ <- yield_others;
  o <- load;
  match o with
  | None => rebuild
  | Some g =>
      fresh <- (if negb force then is_fresh g else wret false);
      if fresh : bool then wret (Ok tt)
      else
        stale <- is_stale_beyond g;
        if stale : bool then wret (Err AttestationTrustError.Stale) else rebuild
  end.

Definition full_refresh : W (Result unit AttestationTrustError) := full_refresh_inner false.

Definition force_full_refresh : W (Result unit AttestationTrustError) := full_refresh_inner true.

Definition ensure_fresh : W (Result unit AttestationTrustError) :=
  _ <- yield_others;
  o <- load;
  match o with
  | Some g =>
      fresh <- is_fresh g;
      if fresh : bool then wret (Ok tt)
      else
        stale <- is_stale_beyond g;
        if stale : bool then wret (Err AttestationTrustError.Stale) else full_refresh
  | None => full_refresh
  end.

End Trust.

(** ** attestation.rs *)

Module AttestationVerifyError.

Inductive AttestationVerifyError :=
| NotReady
| Empty
| EmptyMessage
| WrongCorridor
| Invalid (s : Str).

(** [From<AttestationCryptoError>] *)
Definition from_crypto (e : AttestationCryptoError) : AttestationVerifyError :=
  Invalid (AttestationCryptoError.reason_label e).

End AttestationVerifyError.

Abbreviation AttestationVerifyError := AttestationVerifyError.AttestationVerifyError (only parsing).

#[export] Instance AttestationVerifyError_eq_dec : EqDecision AttestationVerifyError.
Proof. solve_decision. Defined.

Section Verifier.

Context {E : Env}.

Local Notation "x <- m ; k" := (wbind m (λ x : _, k))
  (at level 20, m at level 100, k at level 200, only parsing).
Local Notation "x <-? m ; k" := (wtry m (λ x : _, k))
  (at level 20, m at level 100, k at level 200, only parsing).

Definition verify_with_snapshot (raw_message attestation : list Z) (snap : AttesterSetSnapshot)
    (iris_hash : list Z) : Result unit AttestationVerifyError :=
  reject (bool_decide (iris_set_hash snap ≠ iris_hash)) AttestationVerifyError.NotReady;;
  _ ← map_err AttestationVerifyError.from_crypto
        (verify_attestation_signatures raw_message attestation (signature_threshold snap)
           (enabled_addresses snap));
  Ok tt.

(** The generation and the snapshot, read one after the other. *)
Definition current_trust (dest : AttesterDestination)
    : W (Result (AttestationTrustGeneration * AttesterSetSnapshot) AttestationVerifyError) :=
  _ <- yield_others;
  generation <-? (o <- load; wret (ok_or o AttestationVerifyError.NotReady));
  _ <- yield_others;
  snap <-? (o <- snapshot_for dest; wret (ok_or o AttestationVerifyError.NotReady));
  wret (Ok (generation, snap)).

Definition not_ready {A X} (m : W (Result A X)) : W (Result A AttestationVerifyError) :=
  r <- m; wret (map_err (λ _, AttestationVerifyError.NotReady) r).

Definition verify_attestation (raw_message attestation : list Z) : W (Result unit AttestationVerifyError) :=
  _ <-? wret (reject (bool_decide (raw_message = [])) AttestationVerifyError.EmptyMessage);
  _ <-? wret (reject (bool_decide (attestation = [])) AttestationVerifyError.Empty);
  _ <-? not_ready ensure_fresh;
  parsed <-? wret (map_err (λ _, AttestationVerifyError.Invalid $"parse") (parse_cctp_v2_message raw_message));
  dest <-? wret (ok_or (destination_for_message (m_source_domain parsed) (m_destination_domain parsed))
                   AttestationVerifyError.WrongCorridor);
  let valid_pair :=
    ((m_source_domain parsed =? STELLAR_TESTNET_DOMAIN) && (m_destination_domain parsed =? SEPOLIA_DOMAIN)) ||
    ((m_source_domain parsed =? SEPOLIA_DOMAIN) && (m_destination_domain parsed =? STELLAR_TESTNET_DOMAIN)) in
  _ <-? wret (reject (negb valid_pair) AttestationVerifyError.WrongCorridor);
  trust <-? current_trust dest;
  match verify_with_snapshot raw_message attestation (snd trust) (set_hash (iris (fst trust))) with
  | Err (AttestationVerifyError.Invalid reason) =>
      if bool_decide (reason = AttestationCryptoError.reason_label AttestationCryptoError.UnknownSigner) then
        _ <-? not_ready force_full_refresh;
        trust' <-? current_trust dest;
        wret (verify_with_snapshot raw_message attestation (snd trust') (set_hash (iris (fst trust'))))
      else wret (Err (AttestationVerifyError.Invalid reason))
  | other => wret other
  end.

(** [CircleAttestationVerifier::bootstrap] *)
Definition bootstrap : W (Result unit AttestationVerifyError) :=
  _ <-? not_ready full_refresh;
  _ <- yield_others;
  ready <- is_ready;
  wret (reject (negb ready) AttestationVerifyError.NotReady).

End Verifier.
