(* ===== verification/CctpTrustProps.v ===== *)
(** * Properties of attestation trust

    What a validated attester set is, that only generations built from validated
    sets are ever published, that an accepted attestation carries a quorum of the
    destination's enabled signers, and what becomes of a generation that grew stale. *)

From stdpp Require Import base decidable strings numbers list sorting.
From Stdlib Require Import ZArith Lia.
From S2P Require Import Prelude RustStr Result CctpTypes CctpMessage CctpCrypto CctpTrust.

Local Open Scope Z_scope.
Local Open Scope record_scope.

(** ** Sorting and removal of duplicates *)

Lemma sort_perm l : sort l ≡ₚ l.
Proof. apply merge_sort_Permutation. Qed.

Lemma sort_sorted l : StronglySorted bytes_le (sort l).
Proof. apply StronglySorted_merge_sort; apply _. Qed.

Lemma dedup_from_length x l : (length (dedup_from x l) <= length l)%nat.
Proof.
  revert x. induction l as [|y l IH]; intros x; cbn; [done|].
  case_bool_decide; cbn; [specialize (IH x); lia|specialize (IH y); lia].
Qed.

Lemma dedup_from_full x l :
  StronglySorted bytes_le (x :: l) → length (dedup_from x l) = length l → dedup_from x l = l ∧ NoDup (x :: l).
Proof.
  revert x. induction l as [|y l IH]; intros x Hs Hl; cbn in *.
  - split; [done|]. apply NoDup_singleton.
  - case_bool_decide as Hyx; cbn in Hl; [pose proof (dedup_from_length x l); lia|].
    apply StronglySorted_inv in Hs as [Hs Hx]. injection Hl as Hl.
    destruct (IH y Hs Hl) as [E Hn]. split; [by rewrite E|]. apply NoDup_cons. split; [|done].
    intros Hin. apply StronglySorted_inv in Hs as [_ Hy]. apply Forall_cons in Hx as [Hxy _].
    apply elem_of_cons in Hin as [?|Hin]; [congruence|].
    rewrite Forall_forall in Hy. specialize (Hy _ Hin). apply Hyx.
    apply bytes_le_alt in Hxy as [Hxy|?]; [|done]. by apply bytes_not_le in Hxy.
Qed.

Lemma dedup_from_NoDup x l : NoDup (x :: l) → dedup_from x l = l.
Proof.
  revert x. induction l as [|y l IH]; intros x [Hx Hn]%NoDup_cons; cbn; [done|].
  rewrite bool_decide_eq_false_2 by (intros ->; apply Hx; left). by rewrite IH.
Qed.

(** Nothing is dropped exactly when there were no duplicates. *)
Lemma dedup_sort_full l :
  length (dedup (sort l)) = length l ↔ NoDup l.
Proof.
  rewrite <- (sort_perm l) at 2 3. pose proof (sort_sorted l) as Hs.
  destruct (sort l) as [|x l'] eqn:E; cbn.
  - split; [intros _; constructor|done].
  - split.
    + intros [= Hl]. by apply dedup_from_full.
    + intros Hn. by rewrite dedup_from_NoDup.
Qed.

Lemma dedup_sort_eq l : NoDup l → dedup (sort l) = sort l.
Proof.
  rewrite <- (sort_perm l) at 1. destruct (sort l) as [|x l']; cbn; [done|].
  intros Hn. by rewrite dedup_from_NoDup.
Qed.

Lemma elem_of_dedup_from a x l : a ∈ x :: dedup_from x l ↔ a ∈ x :: l.
Proof.
  revert x. induction l as [|y l IH]; intros x; cbn; [done|].
  case_bool_decide as Hy; [rewrite IH, !elem_of_cons; naive_solver|].
  rewrite elem_of_cons, IH. by rewrite !elem_of_cons.
Qed.

Lemma elem_of_dedup_sort a l : a ∈ dedup (sort l) ↔ a ∈ l.
Proof.
  rewrite <- (sort_perm l) at 2. destruct (sort l) as [|x l']; [done|]. apply elem_of_dedup_from.
Qed.

(** ** Validated attester sets *)

Section Parity.

Context {C : Crypto} (sha256 : list Z → list Z).

(** An on-chain attester set is accepted exactly when the Iris hash is the hash
    of the Iris keys, the threshold is between one, the cap and the number of
    attesters, the attesters are distinct and at most 256, and every one of them is
    an Iris key; the snapshot then lists the same attesters in increasing order,
    under the same threshold. *)
Theorem attester_parity_correct d raw iris_keys hash gen t src snap :
  0 <= raw_signature_threshold raw →
  validate_attester_set_parity sha256 d raw iris_keys hash gen t src = Ok snap ↔
  hash = iris_candidate_hash iris_keys ∧
  1 <= raw_signature_threshold raw <= MAX_SIGNATURE_THRESHOLD ∧
  raw_signature_threshold raw <= Z.of_nat (length (raw_enabled_addresses raw)) <= MAX_ENABLED_ATTESTERS ∧
  NoDup (raw_enabled_addresses raw) ∧ Forall (λ a, a ∈ iris_keys) (raw_enabled_addresses raw) ∧
  snap = mkAttesterSetSnapshot d (raw_signature_threshold raw) (sort (raw_enabled_addresses raw)) hash
           (set_hash_on_chain sha256 (sort (raw_enabled_addresses raw)))
           (Z.of_nat (length (raw_enabled_addresses raw))) t (raw_block_or_ledger raw) src gen.
Proof.
  intros Ht. unfold validate_attester_set_parity. cbn zeta. rewrite !try_unit_Ok, !reject_ne, !reject_lt.
  rewrite !reject_Ok, Z.eqb_neq, bool_decide_eq_false, dedup_sort_full. split.
  - intros (Hh & Hz & Hcap & Hne & Hmax & Hnd & H). rewrite dedup_sort_eq in H by done.
    rewrite (Permutation_length (sort_perm _)) in H.
    apply try_Ok in H as (n & [-> _]%ok_or_Ok%chk_Some & H).
    apply try_unit_Ok in H as [Hle%reject_lt H]. apply try_unit_Ok in H as [Hin%reject_Ok H].
    injection H as <-. rewrite negb_false_iff, forallb_forall in Hin.
    split_and!; try done; try lia. apply Forall_forall. intros a Ha.
    apply (bool_decide_eq_true (a ∈ iris_keys)), Hin. apply list_elem_of_In. by rewrite sort_perm.
  - intros (Hh & [Hz Hcap] & [Hle Hmax] & Hnd & Hin & ->). split_and!; try done; try lia.
    + intros E. rewrite E in Hle. cbn in Hle. lia.
    + rewrite dedup_sort_eq by done. rewrite (Permutation_length (sort_perm _)).
      rewrite chk_fits by (unfold fits, MAX_ENABLED_ATTESTERS in *; cbn; lia). cbn [ok_or try_].
      apply try_unit_Ok. split; [by apply reject_lt|]. apply try_unit_Ok. split; [|done].
      apply reject_Ok, negb_false_iff, forallb_forall. intros a Ha. apply bool_decide_eq_true.
      rewrite Forall_forall in Hin. apply Hin. rewrite <- sort_perm. by apply list_elem_of_In.
Qed.

End Parity.

(** ** Generations *)

Section Trust.

Context {E : Env}.
Implicit Types (w : World) (g : AttestationTrustGeneration).

(** The snapshot of a destination. *)
Definition snapshot_of (d : AttesterDestination) g : AttesterSetSnapshot :=
  match d with
  | AttesterDestination.Sepolia => sepolia g
  | AttesterDestination.StellarTestnet => stellar g
  end.

(** A snapshot comes from an on-chain set that a reader returned, and passed the
    validation against the keys of its generation. *)
Record snapshot_ok (ks : IrisTrustSnapshot) (n : Z) (t : Instant) (d : AttesterDestination)
     (snap : AttesterSetSnapshot) : Prop := {
  so_read : ∃ i raw, read_on_chain_set i d = Ok raw ∧ enabled_addresses snap ≡ₚ raw_enabled_addresses raw ∧
                     signature_threshold snap = raw_signature_threshold raw;
  so_threshold : 1 <= signature_threshold snap <= MAX_SIGNATURE_THRESHOLD;
  so_enough : signature_threshold snap <= Z.of_nat (length (enabled_addresses snap));
  so_sorted : StronglySorted bytes_le (enabled_addresses snap);
  so_distinct : NoDup (enabled_addresses snap);
  so_known : Forall (λ a, a ∈ addresses ks) (enabled_addresses snap);
  so_hash : iris_set_hash snap = set_hash ks;
  so_generation : snap_generation snap = n;
  so_time : verified_at snap = t;
}.

(** A generation: Iris keys that were fetched, and a snapshot per destination. *)
Record generation_ok g : Prop := {
  go_keys : ∃ j keys, fetch_public_keys j = Ok keys ∧ ∀ a, a ∈ addresses (iris g) ↔ a ∈ keys;
  go_clock : ∃ k, refreshed_at g = clock k;
  go_snapshots d : snapshot_ok (iris g) (generation g) (refreshed_at g) d (snapshot_of d g);
}.

(** Thresholds read from the chain are unsigned numbers. *)
Hypothesis unsigned_thresholds : ∀ i d raw,
  read_on_chain_set i d = Ok raw → 0 <= raw_signature_threshold raw.

(** Other tasks run this code too: what they publish is what [build_generation]
    returns (see [build_generation_ok]). *)
Hypothesis rivals_ok : ∀ n, Forall generation_ok (rivals n).

(** ** Reasoning about the cache *)

(** [wpw m Q w]: what [m] returns from [w], and the world after it, satisfy [Q]. *)
Definition wpw {A} (m : W A) (Q : A → World → Prop) w : Prop := let (a, w') := m w in Q a w'.

Lemma wpw_ret {A} (a : A) (Q : A → World → Prop) w : Q a w → wpw (wret a) Q w.
Proof. done. Qed.

Lemma wpw_bind {A B} (m : W A) (f : A → W B) (Q : B → World → Prop) w :
  wpw m (λ a w', wpw (f a) Q w') w → wpw (wbind m f) Q w.
Proof. unfold wpw, wbind. by destruct (m w). Qed.

Lemma wpw_try {A B X} (m : W (Result A X)) (f : A → W (Result B X)) (Q : Result B X → World → Prop) w :
  wpw m (λ r w', match r with Ok a => wpw (f a) Q w' | Err e => Q (Err e) w' end) w → wpw (wtry m f) Q w.
Proof. unfold wpw, wtry, wbind. destruct (m w) as [[a|e] w']; auto. Qed.

Lemma wpw_mono {A} (m : W A) (Q Q' : A → World → Prop) w :
  wpw m Q w → (∀ a w', Q a w' → Q' a w') → wpw m Q' w.
Proof. unfold wpw. destruct (m w). auto. Qed.

Lemma wpw_now (Q : Instant → World → Prop) w :
  Q (clock (clock_reads w)) (w <| clock_reads ::= S |>) → wpw now Q w.
Proof. done. Qed.

Lemma wpw_load (Q : option AttestationTrustGeneration → World → Prop) w : Q (state w) w → wpw load Q w.
Proof. done. Qed.

(** ** What is built *)

(** The snapshots found so far by the loop over the readers. *)
Definition found_ok ks n t (snaps : option AttesterSetSnapshot * option AttesterSetSnapshot) : Prop :=
  (∀ s, fst snaps = Some s → snapshot_ok ks n t AttesterDestination.Sepolia s) ∧
  (∀ s, snd snaps = Some s → snapshot_ok ks n t AttesterDestination.StellarTestnet s).

Lemma parity_snapshot_ok ks n t d i raw snap :
  read_on_chain_set i d = Ok raw →
  validate_attester_set_parity env_sha256 d raw (addresses ks) (set_hash ks) n t
    (snapshot_source d) = Ok snap →
  snapshot_ok ks n t d snap.
Proof.
  intros Hr Hv. apply attester_parity_correct in Hv as (Hh & Ht & [Hle Hmax] & Hn & Hin & ->);
    [|by eapply unsigned_thresholds].
  split; cbn; try done.
  - exists i, raw. split_and!; try done. apply sort_perm.
  - by rewrite (Permutation_length (sort_perm _)).
  - apply sort_sorted.
  - by rewrite sort_perm.
  - by rewrite sort_perm.
Qed.

Lemma read_sets_ok ks n t rs snaps w :
  found_ok ks n t snaps →
  wpw (read_sets rs (addresses ks) (set_hash ks) n t snaps)
    (λ r w', (state w' = state w ∧ clock_reads w' = clock_reads w) ∧
             match r with Ok snaps' => found_ok ks n t snaps' | Err _ => True end) w.
Proof.
  revert snaps w. induction rs as [|d rs IH]; intros snaps w Hf; cbn [read_sets]; [done|].
  apply wpw_try. unfold wpw at 1. destruct (read_on_chain_set (set_reads w) d) as [raw|e] eqn:Hr; cbn [map_err]; [|done].
  apply wpw_try, wpw_ret.
  destruct (validate_attester_set_parity _ _ _ _ _ _ _ _) as [snap|e] eqn:Hv; cbn [map_err]; [|done].
  pose proof (parity_snapshot_ok ks n t d _ raw snap Hr Hv) as Hs.
  eapply wpw_mono; [apply IH|by intros r w' [[-> ->] ?]].
  destruct Hf as [H1 H2], d; split; cbn; intros s; auto; by intros [= <-].
Qed.

Lemma build_generation_ok w :
  wpw build_generation (λ r w', (state w' = state w ∧ clock_reads w' = S (clock_reads w)) ∧
                                match r with Ok g => generation_ok g | Err _ => True end) w.
Proof.
  unfold build_generation. apply wpw_bind, wpw_now. apply wpw_try. unfold wpw at 1. cbn -[wrap wpw].
  destruct (fetch_public_keys (fetches w)) as [keys|e] eqn:Hk; cbn -[wrap wpw]; [|done].
  apply wpw_try, wpw_ret. case_bool_decide; cbn [reject]; [done|].
  apply wpw_try, wpw_ret. destruct (_ <? _); cbn [reject]; [done|].
  apply wpw_bind. unfold wpw at 1.
  set (ks := mkIrisTrustSnapshot (dedup (sort keys)) (iris_candidate_hash (dedup (sort keys)))).
  apply wpw_try. eapply wpw_mono;
    [apply (read_sets_ok ks (wrap U64 (generation_counter w + 1)) (clock (clock_reads w))); by split|].
  intros [snaps|e] w' [Hw Hf]; [|by split]. apply wpw_try, wpw_ret.
  destruct (fst snaps) as [s1|] eqn:E1; cbn [ok_or]; [|by split]. apply wpw_try, wpw_ret.
  destruct (snd snaps) as [s2|] eqn:E2; cbn [ok_or]; [|by split]. apply wpw_ret. split; [done|].
  destruct Hf as [Hf1 Hf2]. split; cbn.
  - exists (fetches w), keys. split; [done|]. intros a. apply elem_of_dedup_sort.
  - by eexists.
  - intros []; cbn; auto.
Qed.

(** ** The invariant of the cache *)

Definition trusted w : Prop := ∀ g, state w = Some g → generation_ok g.

(** The invariant is kept and the clock only moves on. *)
Definition keeps w w' : Prop := trusted w' ∧ (clock_reads w <= clock_reads w')%nat.

Lemma keeps_refl w : trusted w → keeps w w.
Proof. by split. Qed.

Lemma keeps_trans w1 w2 w3 : keeps w1 w2 → keeps w2 w3 → keeps w1 w3.
Proof. intros [? ?] [? ?]. split; [done|lia]. Qed.

Lemma trusted_state w w' : state w' = state w → trusted w → trusted w'.
Proof. unfold trusted. by intros ->. Qed.

Lemma keeps_tick w w' : state w' = state w → (clock_reads w <= clock_reads w')%nat → trusted w → keeps w w'.
Proof. intros ? ? ?. split; [by eapply trusted_state|done]. Qed.

Lemma yield_keeps w : trusted w → wpw yield_others (λ _ w', keeps w w') w.
Proof.
  intros Hw. unfold wpw, yield_others, update. cbn. split; [|done]. intros g. cbn.
  destruct (last (rivals (turns w))) as [g'|] eqn:El; [|apply Hw]. intros [= <-].
  pose proof (rivals_ok (turns w)) as Hr. apply last_Some in El as [l El]. rewrite El in Hr.
  apply Forall_app in Hr as [_ Hr]. by apply Forall_cons in Hr as [Hr _].
Qed.

Lemma rebuild_keeps w : trusted w → wpw rebuild (λ _ w', keeps w w') w.
Proof.
  intros Hw. unfold rebuild. apply wpw_bind. eapply wpw_mono; [apply build_generation_ok|].
  intros [g|e] w' [[Hs Hc] Hg].
  - unfold wpw, update. cbn. split; cbn; [|lia]. by intros g' [= <-].
  - assert (Hk : keeps w w') by (apply keeps_tick; [done|lia|done]).
    apply wpw_bind, wpw_load. destruct (state w') as [g|] eqn:Es; [|by apply wpw_ret].
    apply wpw_bind. unfold is_stale_beyond. apply wpw_bind, wpw_now, wpw_ret, wpw_ret.
    eapply keeps_trans; [exact Hk|]. apply keeps_tick; [done|cbn; lia|apply Hk].
Qed.

(** Reads the clock once and goes on. *)
Lemma wpw_is_fresh g (Q : bool → World → Prop) w :
  (∀ b, Q b (w <| clock_reads ::= S |>)) → wpw (is_fresh g) Q w.
Proof. intros H. unfold is_fresh. apply wpw_bind, wpw_now, wpw_ret, H. Qed.

Lemma wpw_is_stale g (Q : bool → World → Prop) w :
  (Q (stale_max <? duration_since (clock (clock_reads w)) (refreshed_at g)) (w <| clock_reads ::= S |>)) →
  wpw (is_stale_beyond g) Q w.
Proof. intros H. unfold is_stale_beyond. apply wpw_bind, wpw_now, wpw_ret, H. Qed.

Lemma tick_keeps w : trusted w → keeps w (w <| clock_reads ::= S |>).
Proof. intros. apply keeps_tick; [done|cbn; lia|done]. Qed.

Lemma wpw_keeps_trans {A} (m : W A) w0 w :
  keeps w0 w → (trusted w → wpw m (λ _ w', keeps w w') w) → wpw m (λ _ w', keeps w0 w') w.
Proof.
  intros Hk Hm. eapply wpw_mono; [apply Hm, Hk|]. intros a w' Hk'. by eapply keeps_trans.
Qed.

Lemma full_refresh_keeps force w : trusted w → wpw (full_refresh_inner force) (λ _ w', keeps w w') w.
Proof.
  intros Hw. unfold full_refresh_inner. apply wpw_bind. eapply wpw_mono; [by apply yield_keeps|].
  intros [] w1 H1. apply wpw_bind, wpw_load.
  destruct (state w1) as [g|]; [|by apply wpw_keeps_trans, rebuild_keeps].
  assert (Hrest : ∀ w2, keeps w w2 → ∀ fresh : bool, wpw (if fresh then wret (Ok tt)
    else wbind (is_stale_beyond g) (λ stale : bool, if stale then wret (Err AttestationTrustError.Stale) else rebuild))
    (λ _ w', keeps w w') w2).
  { intros w2 H2 []; [done|]. apply wpw_bind, wpw_is_stale.
    assert (H3 : keeps w (w2 <| clock_reads ::= S |>)) by (eapply keeps_trans, tick_keeps, H2; done).
    destruct (_ <? _); [done|]. by apply wpw_keeps_trans, rebuild_keeps. }
  apply wpw_bind. destruct force; cbn [negb]; [apply wpw_ret; exact (Hrest w1 H1 false)|].
  apply wpw_is_fresh. intros b. apply Hrest. eapply keeps_trans, tick_keeps, H1. done.
Qed.

Lemma ensure_fresh_keeps w : trusted w → wpw ensure_fresh (λ _ w', keeps w w') w.
Proof.
  intros Hw. unfold ensure_fresh. apply wpw_bind. eapply wpw_mono; [by apply yield_keeps|].
  intros [] w1 H1. apply wpw_bind, wpw_load.
  destruct (state w1) as [g|]; [|by apply wpw_keeps_trans, full_refresh_keeps].
  assert (H2 : keeps w (w1 <| clock_reads ::= S |>)) by (eapply keeps_trans, tick_keeps, H1; done).
  apply wpw_bind, wpw_is_fresh. intros []; [done|].
  apply wpw_bind, wpw_is_stale.
  assert (H3 : keeps w (w1 <| clock_reads ::= S |> <| clock_reads ::= S |>)) by (eapply keeps_trans, tick_keeps, H2; done).
  destruct (_ <? _); [done|]. by apply wpw_keeps_trans, full_refresh_keeps.
Qed.

(** ** Snapshots that are handed out *)

(** The snapshot of a trusted generation that was not stale at a clock reading made
    since [w]. *)
Definition served w w' (d : AttesterDestination) (snap : AttesterSetSnapshot) : Prop := ∃ g k,
  generation_ok g ∧ snap = snapshot_of d g ∧ (clock_reads w <= k < clock_reads w')%nat ∧
  duration_since (clock k) (refreshed_at g) <= stale_max.

Lemma current_trust_served d w :
  trusted w → wpw (current_trust d) (λ r w', keeps w w' ∧ match r with Ok p => served w w' d (snd p) | Err _ => True end) w.
Proof.
  intros Hw. unfold current_trust. apply wpw_bind. eapply wpw_mono; [by apply yield_keeps|].
  intros [] w1 H1. apply wpw_try, wpw_bind, wpw_load, wpw_ret.
  destruct (state w1) as [g1|]; cbn [ok_or]; [|done].
  apply wpw_bind. eapply wpw_mono; [apply yield_keeps, H1|]. intros [] w2 H2.
  assert (H12 : keeps w w2) by (by eapply keeps_trans).
  apply wpw_try, wpw_bind. unfold snapshot_for. apply wpw_bind, wpw_load.
  destruct (state w2) as [g|] eqn:Eg; [|by apply wpw_ret, wpw_ret].
  apply wpw_bind, wpw_is_stale.
  assert (H3 : keeps w (w2 <| clock_reads ::= S |>)) by (eapply keeps_trans, tick_keeps, H12; done).
  destruct (Z.ltb_spec stale_max (duration_since (clock (clock_reads w2)) (refreshed_at g))) as [?|Hage];
    apply wpw_ret, wpw_ret; [done|]. cbn [ok_or]. apply wpw_ret. split; [done|].
  exists g, (clock_reads w2). destruct H12 as [Ht Hle]. split_and!; [by apply Ht|by destruct d|done|cbn; lia|done].
Qed.

(** ** Accepted attestations *)

(** The attestation carries signatures over the message by as many distinct
    enabled signers as the snapshot's threshold says. *)
Definition quorum (message att : list Z) (snap : AttesterSetSnapshot) : Prop := ∃ sigs signers,
  att = concat sigs ∧ Z.of_nat (length signers) = signature_threshold snap ∧ NoDup signers ∧
  Forall (λ a, a ∈ enabled_addresses snap) signers ∧
  Forall2 (λ sig a, length sig = 65%nat ∧ recover_signer_address (keccak256 message) sig = Ok a) sigs signers.

Lemma Sorted_lt_NoDup l : Sorted bytes_lt l → NoDup l.
Proof.
  intros Hs%Sorted_StronglySorted; [|apply _]. induction Hs as [|x l _ IH Hf]; constructor; [|done].
  intros Hin. rewrite Forall_forall in Hf. by eapply bytes_lt_irrefl, Hf.
Qed.

Lemma verify_with_snapshot_quorum ks n t d message att snap hash :
  snapshot_ok ks n t d snap → verify_with_snapshot message att snap hash = Ok tt → quorum message att snap.
Proof.
  intros [_ Ht _ Hs _ _ _ _ _] H. unfold verify_with_snapshot in H. rinv.
  match goal with Hv : verify_attestation_signatures _ _ _ _ = Ok ?l |- _ =>
    rename l into signers; apply verify_signatures_iff in Hv as (_ & _ & _ & _ & sigs & -> & Hl & Hlen & Hrec & Hord & Hin) end.
  - exists sigs, signers. split_and!; [done| |apply Sorted_inv in Hord as [Hord _]; by apply Sorted_lt_NoDup|done|].
    + by rewrite <- (Forall2_length _ _ _ Hrec).
    + clear -Hrec Hlen. induction Hrec; [constructor|]. apply Forall_cons in Hlen as [? ?]. constructor; auto.
  - done.
  - unfold fits, MAX_SIGNATURE_THRESHOLD in *. cbn. lia.
Qed.

(** What acceptance means. *)
Definition accepted (message att : list Z) w w' : Prop := ∃ m d g k,
  parse_cctp_v2_message message = Ok m ∧
  destination_for_message (m_source_domain m) (m_destination_domain m) = Some d ∧
  generation_ok g ∧ quorum message att (snapshot_of d g) ∧
  (clock_reads w <= k < clock_reads w')%nat ∧ duration_since (clock k) (refreshed_at g) <= stale_max.

Lemma served_accepted message att m d w1 w w' snap hash :
  parse_cctp_v2_message message = Ok m →
  destination_for_message (m_source_domain m) (m_destination_domain m) = Some d →
  keeps w w1 → served w1 w' d snap → verify_with_snapshot message att snap hash = Ok tt → accepted message att w w'.
Proof.
  intros Hm Hd [_ Hle] (g & k & Hg & -> & Hk & Hage) Hv. exists m, d, g, k. split_and!; try done; try lia.
  eapply verify_with_snapshot_quorum; [apply Hg|exact Hv].
Qed.

(** C18: an attestation that the verifier accepts is backed by a quorum. Whatever
    other tasks publish meanwhile, acceptance means that the message parses, its
    domains name one of the two corridors, and, for the destination of that corridor,
    there is an attester set read from the chain, all of whose members are Iris keys,
    in a generation no older than the stale limit at a time within this call, of
    which as many distinct members as the threshold says signed the message. *)
Theorem accepted_attestation_quorum message att w w' :
  trusted w → verify_attestation message att w = (Ok tt, w') → accepted message att w w'.
Proof.
  intros Hw Hv. enough (H : wpw (verify_attestation message att) (λ r w', r = Ok tt → accepted message att w w') w)
    by (unfold wpw in H; rewrite Hv in H; by apply H).
  clear Hv w'. unfold verify_attestation, not_ready.
  apply wpw_try, wpw_ret. case_bool_decide as He; cbn [reject]; [done|]; clear He.
  apply wpw_try, wpw_ret. case_bool_decide as He; cbn [reject]; [done|]; clear He.
  apply wpw_try, wpw_bind. eapply wpw_mono; [by apply ensure_fresh_keeps|].
  intros [[]|e] w1 H1; apply wpw_ret; cbn [map_err]; [|done].
  apply wpw_try, wpw_ret. destruct (parse_cctp_v2_message message) as [m|] eqn:Hm; cbn [map_err]; [|done].
  apply wpw_try, wpw_ret. destruct (destination_for_message _ _) as [d|] eqn:Hd; cbn [ok_or]; [|done].
  apply wpw_try, wpw_ret. destruct (negb _); cbn [reject]; [done|].
  apply wpw_try. eapply wpw_mono; [apply current_trust_served, H1|]. intros [[g0 snap]|e] w2 [H2 Hs]; [|done]. cbn [fst snd] in *.
  destruct (verify_with_snapshot message att snap _) as [[]|[| | | |reason]] eqn:Hvs; try done.
  - apply wpw_ret. intros _. by eapply (served_accepted _ _ m d w1).
  - case_bool_decide as Hr; [|done]. apply wpw_try, wpw_bind.
    eapply wpw_mono; [apply full_refresh_keeps, H2|]. intros [[]|e] w3 H3; apply wpw_ret; cbn [map_err]; [|done].
    apply wpw_try. eapply wpw_mono; [apply current_trust_served, H3|].
    intros [[g1 snap1]|e] w4 [H4 Hs1]; [|done]. cbn [fst snd] in *. apply wpw_ret. intros Hv1.
    eapply (served_accepted _ _ m d w3); try done. do 2 (eapply keeps_trans; [eassumption|]). done.
Qed.

(** ** Every task *)

(** What tasks do with the cache, with whether it succeeded. *)
Inductive CacheOp :=
| OpEnsureFresh
| OpFullRefresh
| OpForceRefresh
| OpBootstrap
| OpVerify (message att : list Z).

Definition succeeded {A X} (m : W (Result A X)) : W bool := wbind m (λ r, wret (is_ok r)).

Definition exec_cache (op : CacheOp) : W bool :=
  match op with
  | OpEnsureFresh => succeeded ensure_fresh
  | OpFullRefresh => succeeded full_refresh
  | OpForceRefresh => succeeded force_full_refresh
  | OpBootstrap => succeeded bootstrap
  | OpVerify message att => succeeded (verify_attestation message att)
  end.

(** The outcomes of a sequence of operations, and the world after it. *)
Fixpoint exec_cache_ops (ops : list CacheOp) w : list bool * World :=
  match ops with
  | [] => ([], w)
  | op :: ops' =>
      let (b, w1) := exec_cache op w in
      let (bs, w2) := exec_cache_ops ops' w1 in (b :: bs, w2)
  end.

Lemma wpw_try_keeps {A B X} (m : W (Result A X)) (f : A → W (Result B X)) w0 w :
  wpw m (λ _ w', keeps w0 w') w → (∀ a w', keeps w0 w' → wpw (f a) (λ _ w', keeps w0 w') w') →
  wpw (wtry m f) (λ _ w', keeps w0 w') w.
Proof. intros Hm Hf. apply wpw_try. eapply wpw_mono; [exact Hm|]. intros [a|e] w' Hk; auto. Qed.

Lemma not_ready_keeps {A X} (m : W (Result A X)) w0 w :
  wpw m (λ _ w', keeps w0 w') w → wpw (not_ready m) (λ _ w', keeps w0 w') w.
Proof. intros Hm. unfold not_ready. apply wpw_bind. eapply wpw_mono; [exact Hm|]. by intros. Qed.

Lemma verify_keeps message att w : trusted w → wpw (verify_attestation message att) (λ _ w', keeps w w') w.
Proof.
  intros Hw. unfold verify_attestation.
  apply wpw_try_keeps; [apply wpw_ret; by apply keeps_refl|]. intros _ w1 H1.
  apply wpw_try_keeps; [by apply wpw_ret|]. intros _ w2 H2.
  apply wpw_try_keeps; [apply not_ready_keeps; by apply wpw_keeps_trans, ensure_fresh_keeps|]. intros _ w3 H3.
  apply wpw_try_keeps; [by apply wpw_ret|]. intros m w4 H4.
  apply wpw_try_keeps; [by apply wpw_ret|]. intros d w5 H5.
  apply wpw_try_keeps; [by apply wpw_ret|]. intros _ w6 H6.
  assert (Htr : ∀ w', keeps w w' → wpw (current_trust d) (λ _ w'', keeps w w'') w').
  { intros w' Hk. eapply wpw_mono; [apply current_trust_served, Hk|]. intros r w'' [Hk' _]. by eapply keeps_trans. }
  apply wpw_try_keeps; [by apply Htr|]. intros tr w7 H7.
  destruct (verify_with_snapshot message att _ _) as [[]|[]]; try by apply wpw_ret.
  case_bool_decide; [|by apply wpw_ret].
  apply wpw_try_keeps; [apply not_ready_keeps; by apply wpw_keeps_trans, full_refresh_keeps|]. intros _ w8 H8.
  apply wpw_try_keeps; [by apply Htr|]. intros tr' w9 H9. by apply wpw_ret.
Qed.

Lemma bootstrap_keeps w : trusted w → wpw bootstrap (λ _ w', keeps w w') w.
Proof.
  intros Hw. unfold bootstrap. apply wpw_try_keeps; [by apply not_ready_keeps, full_refresh_keeps|].
  intros _ w1 H1. apply wpw_bind. eapply wpw_mono; [apply yield_keeps, H1|]. intros [] w2 H2.
  assert (H3 : keeps w w2) by (by eapply keeps_trans).
  apply wpw_bind. unfold is_ready. apply wpw_bind, wpw_load. destruct (state w2) as [g|]; [|by repeat apply wpw_ret].
  apply wpw_bind, wpw_is_stale, wpw_ret, wpw_ret. eapply keeps_trans, tick_keeps, H3. done.
Qed.

Lemma exec_cache_keeps op w : trusted w → wpw (exec_cache op) (λ _ w', keeps w w') w.
Proof.
  intros Hw. destruct op; cbn [exec_cache]; unfold succeeded; apply wpw_bind;
    (eapply wpw_mono; [|intros r w' Hk; apply wpw_ret; exact Hk]).
  - by apply ensure_fresh_keeps.
  - by apply full_refresh_keeps.
  - by apply full_refresh_keeps.
  - by apply bootstrap_keeps.
  - by apply verify_keeps.
Qed.

(** the cache only ever holds validated trust. From an empty cache, after any
    sequence of refreshes and verifications, and whatever fetches fail in between,
    the published generation (if any) has a snapshot for each destination, both from
    the same fetch of Iris keys, with the same number and time, each a validated
    on-chain set all of whose members are among those keys. *)
Theorem cache_trusted ops g :
  state (snd (exec_cache_ops ops new_cache)) = Some g → generation_ok g.
Proof.
  assert (H : ∀ w, trusted w → trusted (snd (exec_cache_ops ops w))).
  { induction ops as [|op ops IH]; intros w Hw; [done|]. cbn [exec_cache_ops].
    pose proof (exec_cache_keeps op w Hw) as Hk. unfold wpw in Hk.
    destruct (exec_cache op w) as [b w1]. specialize (IH w1 (proj1 Hk)).
    by destruct (exec_cache_ops ops w1). }
  apply H. by intros g'.
Qed.

End Trust.

(** ** Generations that grew stale *)

Section Stale.

Context {E : Env}.

(** All tasks are among the operations considered. *)
Hypothesis alone : ∀ n, rivals n = [].

(** [Instant]s do not go back, and the fresh window is within the stale one. *)
Hypothesis monotone : ∀ i j, (i <= j)%nat → clock i <= clock j.
Hypothesis windows : 0 <= ttl <= stale_max.

(** The cache holds a generation past the stale limit. *)
Definition expired g w : Prop :=
  state w = Some g ∧ stale_max < duration_since (clock (clock_reads w)) (refreshed_at g).

Definition fails_expired {A X} g (r : Result A X) w : Prop := is_ok r = false ∧ expired g w.

Lemma expired_later g w w' :
  expired g w → state w' = state w → (clock_reads w <= clock_reads w')%nat → expired g w'.
Proof.
  intros [Hs Ha] Hs' Hc. split; [congruence|]. pose proof (monotone _ _ Hc). unfold duration_since in *. lia.
Qed.

Lemma yield_expired g w : expired g w → wpw yield_others (λ _ w', expired g w') w.
Proof.
  intros Hx. unfold wpw, yield_others, update. cbn. rewrite alone. cbn. by eapply expired_later.
Qed.

Lemma is_stale_expired g w (Q : bool → World → Prop) :
  expired g w → (∀ w', expired g w' → Q true w') → wpw (is_stale_beyond g) Q w.
Proof.
  intros Hx HQ. apply wpw_is_stale. rewrite (proj2 (Z.ltb_lt _ _) (proj2 Hx)). apply HQ.
  eapply expired_later; [exact Hx|done|cbn; lia].
Qed.

Lemma is_fresh_expired g w (Q : bool → World → Prop) :
  expired g w → (∀ w', expired g w' → Q false w') → wpw (is_fresh g) Q w.
Proof.
  intros Hx HQ. unfold is_fresh. apply wpw_bind, wpw_now, wpw_ret.
  assert (Hf : (duration_since (clock (clock_reads w)) (refreshed_at g) <=? ttl) = false)
    by (apply Z.leb_gt; destruct Hx; lia).
  rewrite Hf. apply HQ. eapply expired_later; [exact Hx|done|cbn; lia].
Qed.

Lemma full_refresh_expired force g w : expired g w → wpw (full_refresh_inner force) (fails_expired g) w.
Proof.
  intros Hx. unfold full_refresh_inner. apply wpw_bind. eapply wpw_mono; [by apply yield_expired|].
  intros [] w1 H1. apply wpw_bind, wpw_load. rewrite (proj1 H1). apply wpw_bind. destruct force; cbn [negb].
  - apply wpw_ret, wpw_bind. apply is_stale_expired; [done|]. intros w2 H2. by apply wpw_ret.
  - apply is_fresh_expired; [done|]. intros w2 H2. apply wpw_bind, is_stale_expired; [done|].
    intros w3 H3. by apply wpw_ret.
Qed.

Lemma ensure_fresh_expired g w : expired g w → wpw ensure_fresh (fails_expired g) w.
Proof.
  intros Hx. unfold ensure_fresh. apply wpw_bind. eapply wpw_mono; [by apply yield_expired|].
  intros [] w1 H1. apply wpw_bind, wpw_load. rewrite (proj1 H1).
  apply wpw_bind, is_fresh_expired; [done|]. intros w2 H2. apply wpw_bind, is_stale_expired; [done|].
  intros w3 H3. by apply wpw_ret.
Qed.

Lemma try_not_ready_expired {A B X} (m : W (Result A X)) (f : A → W (Result B AttestationVerifyError)) g w :
  wpw m (fails_expired g) w → wpw (wtry (not_ready m) f) (fails_expired g) w.
Proof.
  intros Hm. apply wpw_try. unfold not_ready. apply wpw_bind. eapply wpw_mono; [exact Hm|].
  intros [a|e] w' [Hf Hx]; [done|]. by apply wpw_ret.
Qed.

Lemma exec_cache_expired op g w : expired g w → wpw (exec_cache op) (λ b w', b = false ∧ expired g w') w.
Proof.
  intros Hx. destruct op; cbn [exec_cache]; unfold succeeded; apply wpw_bind;
    (eapply (wpw_mono _ (fails_expired g)); [|intros r w' Hk; apply wpw_ret; exact Hk]).
  - by apply ensure_fresh_expired.
  - by apply full_refresh_expired.
  - by apply full_refresh_expired.
  - by apply try_not_ready_expired, full_refresh_expired.
  - unfold verify_attestation. apply wpw_try, wpw_ret. case_bool_decide; [done|].
    apply wpw_try, wpw_ret. case_bool_decide; [done|]. by apply try_not_ready_expired, ensure_fresh_expired.
Qed.

(** An expired cache stays expired. Once the published generation is older than
    the stale limit, every refresh (forced or not, by the background task or not),
    every bootstrap and every verification fails from then on, and the old
    generation stays in place. *)
Theorem expired_cache_stuck ops g w :
  expired g w →
  let (outcomes, w') := exec_cache_ops ops w in
  Forall (λ b, b = false) outcomes ∧ state w' = Some g.
Proof.
  revert w. induction ops as [|op ops IH]; intros w Hx; cbn [exec_cache_ops]; [split; [constructor|apply Hx]|].
  pose proof (exec_cache_expired op g w Hx) as Hop. unfold wpw in Hop.
  destruct (exec_cache op w) as [b w1]. destruct Hop as [-> H1]. specialize (IH w1 H1).
  destruct (exec_cache_ops ops w1) as [bs w2]. destruct IH as [? ?]. split; [by constructor|done].
Qed.

End Stale.

(** ** Concrete inputs *)

(** Three attesters, the same on both chains, two of whom must sign; the clock
    advances by [step] per reading. *)
Definition toy_env (step : Z) : Env := {|
  clock := λ n, step * Z.of_nat n;
  fetch_public_keys := λ _, Ok (toy_signer <$> [7; 3; 5; 3]);
  read_on_chain_set := λ _ _, Ok (mkRawOnChainAttesterSet 2 (toy_signer <$> [5; 3; 7]) None);
  rivals := λ _, [];
  readers := [AttesterDestination.StellarTestnet; AttesterDestination.Sepolia];
  ttl := 1000;
  stale_max := 5000;
  env_crypto := toy;
  env_sha256 := λ data, take 32 data;
|}.

Lemma toy_unsigned step i d raw :
  @read_on_chain_set (toy_env step) i d = Ok raw → 0 <= raw_signature_threshold raw.
Proof. by intros [= <-]. Qed.

Lemma toy_rivals step n : Forall (@generation_ok (toy_env step)) (@rivals (toy_env step) n).
Proof. constructor. Qed.

(** A message from Stellar to Sepolia, attested by two of the three. *)
Definition toy_message : list Z := copy_at 4 (be_bytes 4 STELLAR_TESTNET_DOMAIN) (replicate 376 0).

Definition toy_attestation : list Z := toy_signature 3 ++ toy_signature 7.

Lemma attester_parity_correct_witness :
  let raw := mkRawOnChainAttesterSet 2 (toy_signer <$> [5; 3; 7]) None in
  let keys := toy_signer <$> [3; 5; 7] in
  let hash := @iris_candidate_hash toy keys in
  @validate_attester_set_parity toy (take 32) AttesterDestination.Sepolia raw keys hash 1 0 [] =
    Ok (mkAttesterSetSnapshot AttesterDestination.Sepolia 2 keys hash (take 32 (concat keys)) 3 0 None [] 1).
Proof.
  apply (@attester_parity_correct toy (take 32)).
  - done.
  - split_and!; try done.
    + apply (bool_decide_unpack (NoDup (toy_signer <$> [5; 3; 7]))). by vm_compute.
    + apply (bool_decide_unpack (Forall (λ a, a ∈ toy_signer <$> [3; 5; 7]) (toy_signer <$> [5; 3; 7]))). by vm_compute.
Defined.

Lemma accepted_attestation_quorum_witness :
  match @verify_attestation (toy_env 1) toy_message toy_attestation new_cache with
  | (Ok tt, w') => @accepted (toy_env 1) toy_message toy_attestation new_cache w'
  | _ => False
  end.
Proof.
  destruct (@verify_attestation (toy_env 1) toy_message toy_attestation new_cache) as [[[]|e] w'] eqn:Ev;
    [|by vm_compute in Ev].
  apply (@accepted_attestation_quorum (toy_env 1) (toy_unsigned 1) (toy_rivals 1)).
  - by intros g.
  - exact Ev.
Defined.

Lemma cache_trusted_witness :
  match state (snd (@exec_cache_ops (toy_env 1) [OpBootstrap; OpVerify toy_message toy_attestation; OpForceRefresh] new_cache)) with
  | Some g => generation g = 2 ∧ @generation_ok (toy_env 1) g
  | None => False
  end.
Proof.
  destruct (state (snd (@exec_cache_ops (toy_env 1) _ new_cache))) as [g|] eqn:Es; [|by vm_compute in Es].
  split; [vm_compute in Es; by injection Es as <-|].
  exact (@cache_trusted (toy_env 1) (toy_unsigned 1) (toy_rivals 1) _ g Es).
Defined.

(** A clock so slow to be read that the generation is past the limit at once. *)
Lemma expired_cache_stuck_witness :
  let w := snd (@full_refresh (toy_env 10000) new_cache) in
  match state w with
  | Some g =>
      let (outcomes, w') := @exec_cache_ops (toy_env 10000) [OpFullRefresh; OpForceRefresh; OpBootstrap] w in
      Forall (λ b, b = false) outcomes ∧ state w' = Some g
  | None => False
  end.
Proof.
  intros w. destruct (state w) as [g|] eqn:Es; [|by vm_compute in Es].
  apply (@expired_cache_stuck (toy_env 10000)).
  - done.
  - intros i j Hij. cbn. lia.
  - done.
  - split; [exact Es|]. vm_compute in Es. injection Es as <-. by vm_compute.
Defined.
