(* ===== verification/CctpStore.v ===== *)
(** * Transfer store of the bridge (api: cctp/store.rs)

    [InMemoryCctpTransferStore]: the transfers, the index of source transaction
    hashes and the index of message nonces, with every operation of the
    [CctpTransferStore] trait. The operations mutate the stored transfer in place
    (through [get_mut]), so what a failing operation has already written stays:
    an error carries the store as it then is. Every operation holds the lock of
    the transfers, so operations happen one after the other.

    The clock ([Utc::now]) is read by the operations; each reading is an argument.
    [chrono]'s time stamps are a parameter ([Time]). *)

From stdpp Require Import base decidable strings numbers list gmap.
From S2P Require Import Prelude RustStr Result CctpTypes.

Local Open Scope Z_scope.
Local Open Scope str_scope.
Local Open Scope record_scope.

(** ** Parameters *)

(** [DateTime<Utc>]: its order and the addition of a number of seconds. *)
Class Time := {
  DateTime : Type;
  dt_lt : DateTime → DateTime → bool;
  plus_seconds : DateTime → Z → DateTime;
}.

(** A [Uuid] is a 128-bit number. *)
Abbreviation Uuid := Z (only parsing).

Module CctpStoreError.

(** [Database] is only raised with [sqlx::Error::RowNotFound] here. *)
Inductive CctpStoreError :=
| Database
| NotFound
| InvalidTransition
| DuplicateSourceTxHash
| VersionConflict
| InvalidStatus (s : Str)
| InvalidDirection (s : Str)
| PayloadTooLarge.

End CctpStoreError.

Abbreviation CctpStoreError := CctpStoreError.CctpStoreError (only parsing).

#[export] Instance CctpStoreError_eq_dec : EqDecision CctpStoreError.
Proof. solve_decision. Defined.

Inductive PollLeaseOutcome := Acquired | Skipped.

Module ReattestClaimOutcome.

Inductive ReattestClaimOutcome := Claimed | NotAllowed | InProgress.

End ReattestClaimOutcome.

Abbreviation ReattestClaimOutcome := ReattestClaimOutcome.ReattestClaimOutcome (only parsing).

(** ** Parsing persisted words *)

Definition parse_direction (s : Str) : Result CctpDirection CctpStoreError :=
  if bool_decide (s = $"stellar_to_evm") then Ok CctpDirection.StellarToEvm
  else if bool_decide (s = $"evm_to_stellar") then Ok CctpDirection.EvmToStellar
  else Err (CctpStoreError.InvalidDirection s).

Definition parse_finality (s : Str) : CctpFinality :=
  if bool_decide (s = $"fast") then CctpFinality.Fast else CctpFinality.Standard.

Definition parse_status (s : Str) : Result CctpTransferStatus CctpStoreError :=
  if bool_decide (s = $"created") then Ok CctpTransferStatus.Created
  else if bool_decide (s = $"burn_prepared") then Ok CctpTransferStatus.BurnPrepared
  else if bool_decide (s = $"burn_submitted") then Ok CctpTransferStatus.BurnSubmitted
  else if bool_decide (s = $"awaiting_attestation") then Ok CctpTransferStatus.AwaitingAttestation
  else if bool_decide (s = $"attestation_ready") then Ok CctpTransferStatus.AttestationReady
  else if bool_decide (s = $"mint_prepared") then Ok CctpTransferStatus.MintPrepared
  else if bool_decide (s = $"mint_submitted") then Ok CctpTransferStatus.MintSubmitted
  else if bool_decide (s = $"completed") then Ok CctpTransferStatus.Completed
  else if bool_decide (s = $"attestation_failed") then Ok CctpTransferStatus.AttestationFailed
  else if bool_decide (s = $"mint_failed_retryable") then Ok CctpTransferStatus.MintFailedRetryable
  else if bool_decide (s = $"cancelled") then Ok CctpTransferStatus.Cancelled
  else if bool_decide (s = $"provider_killed") then Ok CctpTransferStatus.ProviderKilled
  else Err (CctpStoreError.InvalidStatus s).

(** ** Data *)

Section Data.

Context {T : Time}.

Record CctpTransfer := mkCctpTransfer {
  transfer_id : Uuid;
  support_reference_id : Str;
  corridor_id : Str;
  t_provider : Str;
  direction : CctpDirection;
  source_chain_id : Str;
  destination_chain_id : Str;
  source_asset : Str;
  source_asset_canonical : Str;
  destination_asset : Str;
  destination_asset_canonical : Str;
  sender : Str;
  recipient : Str;
  mint_submitter : option Str;
  amount : Str;
  destination_amount : Str;
  finality : CctpFinality;
  runtime_fee_quote : option Str;
  max_fee : option Str;
  fee_expires_at : option DateTime;
  quote_expires_at : DateTime;
  status : CctpTransferStatus;
  source_tx_hash : option Str;
  source_approval_tx_hash : option Str;
  source_approval_verified_at : option DateTime;
  destination_tx_hash : option Str;
  iris_message_hash : option Str;
  message_nonce : option Str;
  raw_message : option (list Z);
  attestation : option (list Z);
  retry_count : Z;
  last_provider_error : option Str;
  last_provider_code : option Str;
  version : Z;
  created_at : DateTime;
  updated_at : DateTime;
  terminal_at : option DateTime;
  mint_payload_hash : option Str;
  mint_payload_expires_at : option DateTime;
  approval_payload_hash : option Str;
  approval_expiration_ledger : option Z;
  burn_payload_hash : option Str;
  burn_prepare_step : option Str;
  access_token_hash : option Str;
  last_polled_at : option DateTime;
  poll_lease_until : option DateTime;
  reattest_lease_owner_hash : option Str;
  reattest_lease_until : option DateTime;
  reattest_attempt_count : Z;
  reattest_cooldown_until : option DateTime;
}.

#[export] Instance eta_CctpTransfer : Eta CctpTransfer := λ t,
  mkCctpTransfer (transfer_id t) (support_reference_id t) (corridor_id t) (t_provider t)
    (direction t) (source_chain_id t) (destination_chain_id t) (source_asset t)
    (source_asset_canonical t) (destination_asset t) (destination_asset_canonical t) (sender t)
    (recipient t) (mint_submitter t) (amount t) (destination_amount t) (finality t)
    (runtime_fee_quote t) (max_fee t) (fee_expires_at t) (quote_expires_at t) (status t)
    (source_tx_hash t) (source_approval_tx_hash t) (source_approval_verified_at t)
    (destination_tx_hash t) (iris_message_hash t) (message_nonce t) (raw_message t)
    (attestation t) (retry_count t) (last_provider_error t) (last_provider_code t) (version t)
    (created_at t) (updated_at t) (terminal_at t) (mint_payload_hash t)
    (mint_payload_expires_at t) (approval_payload_hash t) (approval_expiration_ledger t)
    (burn_payload_hash t) (burn_prepare_step t) (access_token_hash t) (last_polled_at t)
    (poll_lease_until t) (reattest_lease_owner_hash t) (reattest_lease_until t)
    (reattest_attempt_count t) (reattest_cooldown_until t).

Record TransferPatch := mkTransferPatch {
  p_source_tx_hash : option Str;
  p_source_approval_tx_hash : option Str;
  p_source_approval_verified_at : option DateTime;
  p_destination_tx_hash : option Str;
  p_iris_message_hash : option Str;
  p_message_nonce : option Str;
  p_raw_message : option (list Z);
  p_attestation : option (list Z);
  p_runtime_fee_quote : option Str;
  p_max_fee : option Str;
  p_fee_expires_at : option DateTime;
  p_last_provider_error : option Str;
  p_last_provider_code : option Str;
  increment_retry : bool;
  clear_terminal_at : bool;
  p_mint_payload_hash : option Str;
  p_mint_payload_expires_at : option DateTime;
  clear_mint_payload : bool;
  p_mint_submitter : option Str;
  p_approval_payload_hash : option Str;
  p_approval_expiration_ledger : option Z;
  p_burn_payload_hash : option Str;
  p_burn_prepare_step : option Str;
}.

#[export] Instance eta_TransferPatch : Eta TransferPatch := λ p,
  mkTransferPatch (p_source_tx_hash p) (p_source_approval_tx_hash p)
    (p_source_approval_verified_at p) (p_destination_tx_hash p) (p_iris_message_hash p)
    (p_message_nonce p) (p_raw_message p) (p_attestation p) (p_runtime_fee_quote p) (p_max_fee p)
    (p_fee_expires_at p) (p_last_provider_error p) (p_last_provider_code p) (increment_retry p)
    (clear_terminal_at p) (p_mint_payload_hash p) (p_mint_payload_expires_at p)
    (clear_mint_payload p) (p_mint_submitter p) (p_approval_payload_hash p)
    (p_approval_expiration_ledger p) (p_burn_payload_hash p) (p_burn_prepare_step p).

(** [TransferPatch::default] *)
Definition default_patch : TransferPatch :=
  mkTransferPatch None None None None None None None None None None None None None false false
    None None false None None None None None.

(** The store: one map per mutex. *)
Record Store := mkStore {
  transfers : gmap Uuid CctpTransfer;
  source_tx_hashes : gmap Str Uuid;
  message_nonces : gmap (Str * Str) Uuid;
}.

#[export] Instance eta_Store : Eta Store := λ s,
  mkStore (transfers s) (source_tx_hashes s) (message_nonces s).

(** [InMemoryCctpTransferStore::default] *)
Definition empty_store : Store := mkStore ∅ ∅ ∅.

End Data.

(** ** Effects *)

Inductive Outcome (S A : Type) :=
| Done (a : A) (s : S)
| Failed (e : CctpStoreError) (s : S)
| Panicked.

Arguments Done {S A} a s.
Arguments Failed {S A} e s.
Arguments Panicked {S A}.

Section Store.

Context {T : Time}.

(** Whether the build traps on arithmetic overflow (the debug profile does, the
    release profile wraps). *)
Variable checks : bool.

Definition St (A : Type) : Type := Store → Outcome Store A.

Definition ret {A} (a : A) : St A := λ s, Done a s.

Definition bind {A B} (m : St A) (f : A → St B) : St B := λ s,
  match m s with
  | Done a s' => f a s'
  | Failed e s' => Failed e s'
  | Panicked => Panicked
  end.

Definition fail {A} (e : CctpStoreError) : St A := λ s, Failed e s.

Definition fail_when (b : bool) (e : CctpStoreError) : St unit := if b then fail e else ret tt.

(** [r.map_err(|_| e)?] *)
Definition check {A E} (r : Result A E) (e : CctpStoreError) : St unit :=
  match r with
  | Ok _ => ret tt
  | Err _ => fail e
  end.

(** [x += 1] on an integer type. *)
Definition plain (t : IntTy) (z : Z) : St Z := λ s,
  if in_range t z then Done z s else if checks then Panicked else Done (wrap t z) s.

(** [guard.get(&transfer_id)], and an assignment through [get_mut]. *)
Definition lookup_transfer (id : Uuid) : St (option CctpTransfer) := λ s, Done (transfers s !! id) s.

Definition modify (id : Uuid) (f : CctpTransfer → CctpTransfer) : St unit := λ s,
  Done tt (s <| transfers ::= alter f id |>).

Local Notation "x ← y ; z" := (bind y (λ x : _, z))
  (at level 20, y at level 100, z at level 200, only parsing).
Local Notation "x ;; z" := (bind x (λ _, z))
  (at level 100, z at level 200, only parsing, right associativity).

(** [guard.get_mut(&transfer_id).ok_or(NotFound)?] *)
Definition get_mut (id : Uuid) : St CctpTransfer :=
  o ← lookup_transfer id;
  match o with
  | Some t => ret t
  | None => fail CctpStoreError.NotFound
  end.

(** The clone returned at the end. *)
Definition cloned (id : Uuid) : St CctpTransfer := get_mut id.

(** [if let Some(v) = o { transfer.field = Some(v); }] *)
Definition assign {A} (set : A → CctpTransfer → CctpTransfer) (o : option A) (t : CctpTransfer)
    : CctpTransfer :=
  match o with
  | Some v => set v t
  | None => t
  end.

(** ** Operations *)

Definition insert (transfer : CctpTransfer) : St unit :=
  o ← lookup_transfer (transfer_id transfer);
  fail_when (bool_decide (is_Some o)) CctpStoreError.Database;;
  (λ s, Done tt (s <| transfers ::= base.insert (transfer_id transfer) transfer |>)).

Definition get (id : Uuid) : St (option CctpTransfer) := lookup_transfer id.

Definition get_authorized (id : Uuid) (token_hash : Str) : St (option CctpTransfer) :=
  o ← lookup_transfer id;
  match o with
  | None => ret None
  | Some t =>
      if bool_decide (access_token_hash t ≠ Some token_hash) then ret None else ret (Some t)
  end.

(** [o.is_some_and(|u| u > now)] *)
Definition active (o : option DateTime) (now : DateTime) : bool :=
  match o with
  | Some u => dt_lt now u
  | None => false
  end.

Definition try_acquire_poll_lease (now : DateTime) (id : Uuid) (lease_secs min_interval_secs : Z)
    : St (option (CctpTransfer * PollLeaseOutcome)) :=
  o ← lookup_transfer id;
  match o with
  | None => ret None
  | Some t =>
      let lease_active := active (poll_lease_until t) now in
      let interval_ok :=
        match last_polled_at t with
        | Some u => negb (dt_lt now (plus_seconds u min_interval_secs))
        | None => true
        end in
      if lease_active || negb interval_ok then ret (Some (t, Skipped))
      else
        modify id (λ t, t <| poll_lease_until := Some (plus_seconds now lease_secs) |>
                          <| last_polled_at := Some now |>
                          <| updated_at := now |>);;
        t' ← cloned id;
        ret (Some (t', Acquired))
  end.

Definition claim_reattest_lease (now : DateTime) (id : Uuid) (owner : Str) (lease_secs max_attempts : Z)
    : St (option (CctpTransfer * ReattestClaimOutcome)) :=
  o ← lookup_transfer id;
  match o with
  | None => ret None
  | Some t =>
      if bool_decide (status t ≠ CctpTransferStatus.AttestationFailed) ||
         (max_attempts <=? reattest_attempt_count t) || active (reattest_cooldown_until t) now
      then ret (Some (t, ReattestClaimOutcome.NotAllowed))
      else
        let lease_active := active (reattest_lease_until t) now in
        if lease_active && bool_decide (reattest_lease_owner_hash t ≠ Some owner)
        then ret (Some (t, ReattestClaimOutcome.InProgress))
        else if lease_active && bool_decide (reattest_lease_owner_hash t = Some owner) then
          modify id (λ t, t <| reattest_lease_until := Some (plus_seconds now lease_secs) |>
                            <| updated_at := now |>);;
          t' ← cloned id;
          ret (Some (t', ReattestClaimOutcome.Claimed))
        else
          modify id (λ t, t <| reattest_lease_owner_hash := Some owner |>
                            <| reattest_lease_until := Some (plus_seconds now lease_secs) |>
                            <| updated_at := now |>);;
          t' ← cloned id;
          ret (Some (t', ReattestClaimOutcome.Claimed))
  end.

(** The guard shared by the two ends of a re-attestation. *)
Definition holds_reattest_lease (t : CctpTransfer) (owner : Str) : bool :=
  negb (bool_decide (status t ≠ CctpTransferStatus.AttestationFailed) ||
        bool_decide (reattest_lease_owner_hash t ≠ Some owner)).

Definition finalize_reattest_success (now : DateTime) (id : Uuid) (owner : Str) : St (option CctpTransfer) :=
  o ← lookup_transfer id;
  match o with
  | None => ret None
  | Some t =>
      if negb (holds_reattest_lease t owner) then ret None
      else
        modify id (λ t, t <| status := CctpTransferStatus.AwaitingAttestation |>);;
        retries ← plain U32 (retry_count t + 1);
        modify id (λ t, t <| retry_count := retries |>);;
        attempts ← plain U32 (reattest_attempt_count t + 1);
        modify id (λ t, t <| reattest_attempt_count := attempts |>
                          <| reattest_lease_owner_hash := None |>
                          <| reattest_lease_until := None |>
                          <| reattest_cooldown_until := None |>
                          <| last_provider_error := None |>
                          <| last_provider_code := None |>
                          <| terminal_at := None |>);;
        v ← plain I32 (version t + 1);
        modify id (λ t, t <| version := v |> <| updated_at := now |>);;
        t' ← cloned id;
        ret (Some t')
  end.

(** The clock is read twice: for the end of the cool-down and for the update. *)
Definition finalize_reattest_failure (now now' : DateTime) (id : Uuid) (owner code error : Str)
    (cooldown_secs : Z) : St (option CctpTransfer) :=
  o ← lookup_transfer id;
  match o with
  | None => ret None
  | Some t =>
      if negb (holds_reattest_lease t owner) then ret None
      else
        attempts ← plain U32 (reattest_attempt_count t + 1);
        modify id (λ t, t <| reattest_attempt_count := attempts |>
                          <| reattest_lease_owner_hash := None |>
                          <| reattest_lease_until := None |>
                          <| reattest_cooldown_until := Some (plus_seconds now cooldown_secs) |>
                          <| last_provider_code := Some code |>
                          <| last_provider_error := Some error |>);;
        v ← plain I32 (version t + 1);
        modify id (λ t, t <| version := v |> <| updated_at := now' |>);;
        t' ← cloned id;
        ret (Some t')
  end.

(** [validate_patch(&patch)?] *)
Definition validate_patch (p : TransferPatch) : St unit :=
  (match p_raw_message p with
   | Some raw => check (check_byte_len $"raw_message" raw MAX_RAW_MESSAGE_BYTES) CctpStoreError.PayloadTooLarge
   | None => ret tt
   end);;
  (match p_attestation p with
   | Some att => check (check_byte_len $"attestation" att MAX_ATTESTATION_BYTES) CctpStoreError.PayloadTooLarge
   | None => ret tt
   end);;
  (match p_source_tx_hash p with
   | Some hash => check (check_str_len $"source_tx_hash" hash MAX_TX_HASH_LEN) CctpStoreError.PayloadTooLarge
   | None => ret tt
   end);;
  (match p_message_nonce p with
   | Some nonce => check (check_str_len $"message_nonce" nonce MAX_MESSAGE_NONCE_LEN) CctpStoreError.PayloadTooLarge
   | None => ret tt
   end).

(** Claims a source transaction hash for a transfer, or finds it claimed by
    another one. *)
Definition claim_source_hash (id : Uuid) (hash : Str) : St unit := λ s,
  match source_tx_hashes s !! hash with
  | Some existing => fail_when (bool_decide (existing ≠ id)) CctpStoreError.DuplicateSourceTxHash s
  | None => Done tt (s <| source_tx_hashes ::= base.insert hash id |>)
  end.

Definition claim_nonce (id : Uuid) (key : Str * Str) : St unit := λ s,
  match message_nonces s !! key with
  | Some existing => fail_when (bool_decide (existing ≠ id)) CctpStoreError.InvalidTransition s
  | None => Done tt (s <| message_nonces ::= base.insert key id |>)
  end.

(** The assignments before the nonce, between the nonce and the status, and
    after the status. *)
Definition patch_before_nonce (p : TransferPatch) (t : CctpTransfer) : CctpTransfer :=
  assign (λ v t, t <| iris_message_hash := Some v |>) (p_iris_message_hash p)
    (assign (λ v t, t <| destination_tx_hash := Some v |>) (p_destination_tx_hash p)
       (assign (λ v t, t <| source_approval_tx_hash := Some v |>) (p_source_approval_tx_hash p) t)).

Definition patch_after_nonce (p : TransferPatch) (t : CctpTransfer) : CctpTransfer :=
  assign (λ v t, t <| last_provider_code := Some v |>) (p_last_provider_code p)
    (assign (λ v t, t <| last_provider_error := Some v |>) (p_last_provider_error p)
       (assign (λ v t, t <| fee_expires_at := Some v |>) (p_fee_expires_at p)
          (assign (λ v t, t <| max_fee := Some v |>) (p_max_fee p)
             (assign (λ v t, t <| runtime_fee_quote := Some v |>) (p_runtime_fee_quote p)
                (assign (λ v t, t <| attestation := Some v |>) (p_attestation p)
                   (assign (λ v t, t <| raw_message := Some v |>) (p_raw_message p) t)))))).

Definition patch_payloads (p : TransferPatch) (t : CctpTransfer) : CctpTransfer :=
  let t := assign (λ v t, t <| mint_payload_hash := Some v |>) (p_mint_payload_hash p) t in
  let t := assign (λ v t, t <| mint_payload_expires_at := Some v |>) (p_mint_payload_expires_at p) t in
  let t := if clear_mint_payload p
           then t <| mint_payload_hash := None |> <| mint_payload_expires_at := None |> else t in
  let t := assign (λ v t, t <| mint_submitter := Some v |>) (p_mint_submitter p) t in
  let t := assign (λ v t, t <| approval_payload_hash := Some v |>) (p_approval_payload_hash p) t in
  let t := assign (λ v t, t <| approval_expiration_ledger := Some v |>) (p_approval_expiration_ledger p) t in
  let t := assign (λ v t, t <| burn_payload_hash := Some v |>) (p_burn_payload_hash p) t in
  assign (λ v t, t <| burn_prepare_step := Some v |>) (p_burn_prepare_step p) t.

(** The clock is read for the update and, when the new status is terminal, again. *)
Definition transition (now now' : DateTime) (id : Uuid) (expected_version : Z)
    (new_status : CctpTransferStatus) (patch : TransferPatch) : St CctpTransfer :=
  transfer ← get_mut id;
  fail_when (negb (version transfer =? expected_version)) CctpStoreError.VersionConflict;;
  fail_when (negb (is_allowed_transition (status transfer) new_status)) CctpStoreError.InvalidTransition;;
  validate_patch patch;;
  (match p_source_tx_hash patch with
   | Some hash =>
       claim_source_hash id hash;;
       modify id (λ t, t <| source_tx_hash := Some hash |>)
   | None => ret tt
   end);;
  modify id (patch_before_nonce patch);;
  (match p_message_nonce patch with
   | Some v =>
       claim_nonce id (source_chain_id transfer, v);;
       modify id (λ t, t <| message_nonce := Some v |>)
   | None => ret tt
   end);;
  modify id (patch_after_nonce patch);;
  (if increment_retry patch then
     n ← plain U32 (retry_count transfer + 1);
     modify id (λ t, t <| retry_count := n |>)
   else ret tt);;
  modify id (λ t, t <| status := new_status |>);;
  v ← plain I32 (version transfer + 1);
  modify id (λ t, t <| version := v |> <| updated_at := now |>);;
  modify id (λ t, if clear_terminal_at patch then t <| terminal_at := None |>
                  else if is_terminal new_status then t <| terminal_at := Some now' |> else t);;
  modify id (patch_payloads patch);;
  cloned id.

Definition record_approval_submission (now : DateTime) (id : Uuid) (expected_version : Z)
    (tx_hash : Str) (verified_at : DateTime) : St CctpTransfer :=
  check (check_str_len $"tx_hash" tx_hash MAX_TX_HASH_LEN) CctpStoreError.PayloadTooLarge;;
  transfer ← get_mut id;
  fail_when (negb (version transfer =? expected_version)) CctpStoreError.VersionConflict;;
  fail_when (bool_decide (status transfer ≠ CctpTransferStatus.BurnPrepared))
    CctpStoreError.InvalidTransition;;
  match source_approval_tx_hash transfer with
  | Some existing =>
      fail_when (bool_decide (existing ≠ tx_hash)) CctpStoreError.InvalidTransition;;
      ret transfer
  | None =>
      modify id (λ t, t <| source_approval_tx_hash := Some tx_hash |>
                        <| source_approval_verified_at := Some verified_at |>);;
      v ← plain I32 (version transfer + 1);
      modify id (λ t, t <| version := v |> <| updated_at := now |>);;
      cloned id
  end.

Definition record_mint_prepared (now now' : DateTime) (id : Uuid) (expected_version : Z)
    (payload_hash : Str) (expires_at : DateTime) (submitter : option Str) : St CctpTransfer :=
  transition now now' id expected_version CctpTransferStatus.MintPrepared
    (default_patch <| p_mint_payload_hash := Some payload_hash |>
                   <| p_mint_payload_expires_at := Some expires_at |>
                   <| p_mint_submitter := submitter |>).

Definition record_mint_submission (now now' : DateTime) (id : Uuid) (expected_version : Z)
    (tx_hash : Str) : St CctpTransfer :=
  transition now now' id expected_version CctpTransferStatus.MintSubmitted
    (default_patch <| p_destination_tx_hash := Some tx_hash |>).

Definition record_mint_completed (now now' : DateTime) (id : Uuid) (expected_version : Z) : St CctpTransfer :=
  transition now now' id expected_version CctpTransferStatus.Completed default_patch.

Definition record_verified_burn (now : DateTime) (id : Uuid) (expected_version : Z) (tx_hash : Str)
    : St CctpTransfer :=
  check (check_str_len $"tx_hash" tx_hash MAX_TX_HASH_LEN) CctpStoreError.PayloadTooLarge;;
  transfer ← get_mut id;
  fail_when (negb (version transfer =? expected_version)) CctpStoreError.VersionConflict;;
  fail_when (bool_decide (status transfer ≠ CctpTransferStatus.BurnPrepared))
    CctpStoreError.InvalidTransition;;
  claim_source_hash id tx_hash;;
  modify id (λ t, t <| source_tx_hash := Some tx_hash |>
                    <| status := CctpTransferStatus.AwaitingAttestation |>);;
  v ← plain I32 (version transfer + 1);
  modify id (λ t, t <| version := v |> <| updated_at := now |>);;
  cloned id.

End Store.
