(* ===== verification/CctpStoreLogic.v ===== *)
(** * Reasoning about the transfer store

    A calculus of weakest preconditions for the operations of the store, the form
    of the stores that an operation goes through ([edited]: one transfer replaced,
    indices grown), and what each operation does to the part of a transfer that the
    theorems are about ([moves]). *)

From stdpp Require Import base decidable strings numbers list gmap.
From Stdlib Require Import ZArith Lia.
From S2P Require Import Prelude RustStr Result CctpTypes CctpStore.

Local Open Scope Z_scope.
Local Open Scope record_scope.
Local Open Scope str_scope.

(** ** Weakest preconditions *)

Section Wp.

Context {T : Time} {checks : bool}.

(** [wp m Q E s]: if [m] returns from [s], then [Q] holds of its result and of
    the store, and if it fails, [E] holds of the store. *)
Definition wp {A} (m : St A) (Q : A → Store → Prop) (E : Store → Prop) (s : Store) : Prop :=
  match m s with
  | Done a s' => Q a s'
  | Failed _ s' => E s'
  | Panicked => True
  end.

Lemma wp_bind {A B} (m : St A) (f : A → St B) Q E s :
  wp m (λ a s', wp (f a) Q E s') E s → wp (bind m f) Q E s.
Proof. unfold wp, bind. by destruct (m s). Qed.

Lemma wp_ret {A} (a : A) (Q : A → Store → Prop) E s : Q a s → wp (ret a) Q E s.
Proof. done. Qed.

Lemma wp_fail {A} e (Q : A → Store → Prop) (E : Store → Prop) s : E s → wp (fail e) Q E s.
Proof. done. Qed.

Lemma wp_fail_when b e (Q : unit → Store → Prop) (E : Store → Prop) s :
  (b = true → E s) → (b = false → Q tt s) → wp (fail_when b e) Q E s.
Proof. destruct b; unfold wp; cbn; auto. Qed.

Lemma wp_check {A X} (r : Result A X) e (Q : unit → Store → Prop) (E : Store → Prop) s :
  E s → Q tt s → wp (check r e) Q E s.
Proof. by destruct r. Qed.

Lemma wp_plain t z (Q : Z → Store → Prop) E s :
  Q (wrap t z) s → wp (plain checks t z) Q E s.
Proof.
  unfold wp, plain. destruct (in_range t z) eqn:Hr; [|by destruct checks].
  apply in_range_spec in Hr. by rewrite wrap_id.
Qed.

Lemma wp_lookup id (Q : option CctpTransfer → Store → Prop) E s :
  Q (transfers s !! id) s → wp (lookup_transfer id) Q E s.
Proof. done. Qed.

Lemma wp_modify id f (Q : unit → Store → Prop) E s :
  Q tt (s <| transfers ::= alter f id |>) → wp (modify id f) Q E s.
Proof. done. Qed.

Lemma wp_get_mut id (Q : CctpTransfer → Store → Prop) (E : Store → Prop) s :
  E s → (∀ t, transfers s !! id = Some t → Q t s) → wp (get_mut id) Q E s.
Proof. unfold wp, get_mut, bind. cbn. intros HE HQ. destruct (transfers s !! id); cbn; auto. Qed.

Lemma wp_mono {A} (m : St A) (Q Q' : A → Store → Prop) (E E' : Store → Prop) s :
  wp m Q E s → (∀ a s', Q a s' → Q' a s') → (∀ s', E s' → E' s') → wp m Q' E' s.
Proof. unfold wp. destruct (m s); auto. Qed.

End Wp.

(** Steps through the operations one statement at a time. *)
Ltac wp_step :=
  match goal with
  | |- wp (bind _ _) _ _ _ => apply wp_bind
  | |- wp (ret _) _ _ _ => apply wp_ret
  | |- wp (fail _) _ _ _ => apply wp_fail
  | |- wp (fail_when _ _) _ _ _ => apply wp_fail_when; intros ?
  | |- wp (check _ _) _ _ _ => apply wp_check
  | |- wp (plain _ _ _) _ _ _ => apply wp_plain
  | |- wp (lookup_transfer _) _ _ _ => apply wp_lookup
  | |- wp (modify _ _) _ _ _ => apply wp_modify
  | |- wp (match ?o with Some _ => _ | None => _ end) _ _ _ => destruct o eqn:?
  | |- wp (if ?b then _ else _) _ _ _ => destruct b eqn:?
  end.

Section Edits.

Context {T : Time}.
Implicit Types (s : Store) (t : CctpTransfer) (id : Uuid).

(** ** Changes of one transfer *)

(** The part of a transfer that the theorems are about. *)
Definition core t :=
  (transfer_id t, source_chain_id t, status t, version t, source_tx_hash t, message_nonce t,
   (poll_lease_until t, last_polled_at t)).

Lemma assign_core {A} (set : A → CctpTransfer → CctpTransfer) o t :
  (∀ v t, core (set v t) = core t) → core (assign set o t) = core t.
Proof. intros H. destruct o; cbn; auto. Qed.

Lemma patch_before_nonce_core p t : core (patch_before_nonce p t) = core t.
Proof. unfold patch_before_nonce. by rewrite !assign_core by done. Qed.

Lemma patch_after_nonce_core p t : core (patch_after_nonce p t) = core t.
Proof. unfold patch_after_nonce. by rewrite !assign_core by done. Qed.

Lemma patch_payloads_core p t : core (patch_payloads p t) = core t.
Proof.
  unfold patch_payloads. cbn zeta. rewrite !assign_core by done.
  destruct (clear_mint_payload p); [|by rewrite !assign_core by done].
  transitivity (core (assign (λ v t, t <| mint_payload_expires_at := Some v |>) (p_mint_payload_expires_at p)
    (assign (λ v t, t <| mint_payload_hash := Some v |>) (p_mint_payload_hash p) t))); [done|].
  by rewrite !assign_core by done.
Qed.

(** A store in which one transfer was replaced and indices may have grown; the
    poll lease may have changed only if [polled]. *)
Record change (polled : bool) s s' id t t' : Prop := {
  ch_before : transfers s !! id = Some t;
  ch_after : transfers s' = <[id := t']> (transfers s);
  ch_fixed : transfer_id t' = transfer_id t ∧ source_chain_id t' = source_chain_id t;
  ch_status : is_allowed_transition (status t) (status t') = true;
  ch_version : version t' = wrap I32 (version t + 1) ∨ version t' = version t ∧ status t' = status t;
  ch_hashes : source_tx_hashes s ⊆ source_tx_hashes s';
  ch_hash : source_tx_hash t' = source_tx_hash t ∨
    ∃ h, source_tx_hash t' = Some h ∧ source_tx_hashes s' !! h = Some id;
  ch_nonces : message_nonces s ⊆ message_nonces s';
  ch_nonce : message_nonce t' = message_nonce t ∨
    ∃ n, message_nonce t' = Some n ∧ message_nonces s' !! (source_chain_id t, n) = Some id;
  ch_poll : polled = false →
    poll_lease_until t' = poll_lease_until t ∧ last_polled_at t' = last_polled_at t;
}.

Lemma allowed_refl x : is_allowed_transition x x = true.
Proof. unfold is_allowed_transition. by rewrite bool_decide_eq_true_2. Qed.

(** [edited s id t H N]: the store [s] with the transfer [id] replaced by [t] and
    with the indices [H] and [N]. *)
Definition edited s id t (H : gmap Str Uuid) (N : gmap (Str * Str) Uuid) : Store :=
  mkStore (<[id := t]> (transfers s)) H N.

Lemma edited_start s id t :
  transfers s !! id = Some t → s = edited s id t (source_tx_hashes s) (message_nonces s).
Proof. intros Hl. destruct s. unfold edited. cbn in *. by rewrite insert_id. Qed.

Lemma wp_modify_edited id f s t H N (Q : unit → Store → Prop) E :
  Q tt (edited s id (f t) H N) → wp (modify id f) Q E (edited s id t H N).
Proof.
  intros HQ. apply wp_modify. unfold edited, update. cbn.
  replace (alter f id (<[id:=t]> (transfers s))) with (<[id := f t]> (transfers s)); [done|].
  apply map_eq. intros j. destruct (decide (j = id)) as [->|Hj].
  - by rewrite lookup_alter_eq, !lookup_insert_eq.
  - by rewrite lookup_alter_ne, !lookup_insert_ne by done.
Qed.

Lemma wp_cloned_edited id s t H N (Q : CctpTransfer → Store → Prop) E :
  Q t (edited s id t H N) → wp (cloned id) Q E (edited s id t H N).
Proof. intros HQ. unfold cloned, get_mut, wp, bind, edited. cbn. by rewrite lookup_insert_eq. Qed.

Lemma wp_claim_source_hash id hash s t H N (Q : unit → Store → Prop) (E : Store → Prop) :
  E (edited s id t H N) →
  (∀ H', H ⊆ H' → H' !! hash = Some id → Q tt (edited s id t H' N)) →
  wp (claim_source_hash id hash) Q E (edited s id t H N).
Proof.
  intros HE HQ. unfold wp, claim_source_hash, edited, update. cbn.
  destruct (H !! hash) as [o|] eqn:Eh.
  - case_bool_decide as Ho; cbn; [done|]. apply HQ; [done|]. rewrite Eh. f_equal.
    by destruct (decide (o = id)).
  - apply HQ; [by apply insert_subseteq|apply lookup_insert_eq].
Qed.

Lemma wp_claim_nonce id key s t H N (Q : unit → Store → Prop) (E : Store → Prop) :
  (∀ o, N !! key = Some o → o ≠ id → E (edited s id t H N)) →
  (∀ N', N ⊆ N' → N' !! key = Some id → Q tt (edited s id t H N')) →
  wp (claim_nonce id key) Q E (edited s id t H N).
Proof.
  intros HE HQ. unfold wp, claim_nonce, edited, update. cbn.
  destruct (N !! key) as [o|] eqn:Eh.
  - case_bool_decide as Ho; cbn; [by eapply HE|]. apply HQ; [done|]. rewrite Eh. f_equal.
    by destruct (decide (o = id)).
  - apply HQ; [by apply insert_subseteq|apply lookup_insert_eq].
Qed.

Lemma wp_validate_patch p (Q : unit → Store → Prop) (E : Store → Prop) s :
  E s → Q tt s → wp (validate_patch p) Q E s.
Proof. intros HE HQ. unfold validate_patch. repeat (wp_step; try done). Qed.

(** An assignment, remembering only what it does to the core. *)
Lemma wp_modify_core id f s t H N (Q : unit → Store → Prop) E :
  (∀ t2, core t2 = core (f t) → Q tt (edited s id t2 H N)) →
  wp (modify id f) Q E (edited s id t H N).
Proof. intros HQ. apply wp_modify_edited. by apply HQ. Qed.

Lemma wp_at {A} (m : St A) (Q : A → Store → Prop) E s id t :
  transfers s !! id = Some t →
  wp m Q E (edited s id t (source_tx_hashes s) (message_nonces s)) → wp m Q E s.
Proof. intros Hl. by rewrite <- (edited_start s id t Hl). Qed.

Lemma terminal_core (b1 b2 : bool) d t :
  core (if b1 then t <| terminal_at := None |> else if b2 then t <| terminal_at := Some d |> else t) = core t.
Proof. by destruct b1, b2. Qed.

(** An operation either leaves the store alone or changes one transfer. *)
Definition moves (polled : bool) s s' : Prop := s' = s ∨ ∃ id t t', change polled s s' id t t'.

Lemma moves_refl b s : moves b s s.
Proof. by left. Qed.

End Edits.

(** Closes [moves b s (edited s id t' H N)] from the equations of cores. *)
Ltac solve_moves :=
  right; do 3 eexists; split; unfold core in *; cbn in *;
  [eassumption | reflexivity | split; congruence |
   first [by match goal with Ha : is_allowed_transition _ _ = true |- _ =>
            first [exact Ha | congruence] end |
          match goal with |- is_allowed_transition ?x ?y = true =>
            replace y with x by congruence; apply allowed_refl end ] |
   first [right; split; congruence | left; congruence] |
   first [reflexivity | assumption] |
   first [left; congruence | right; eexists; split; [|eassumption]; congruence] |
   first [reflexivity | assumption] |
   first [left; congruence | right; eexists; split; [|eassumption]; congruence] |
   intros ?; first [discriminate | split; congruence] ].

Ltac op_step :=
  match goal with
  | |- moves _ ?s ?s => apply moves_refl
  | |- wp (validate_patch _) _ _ _ => apply wp_validate_patch
  | |- wp (modify _ _) _ _ (edited _ _ _ _ _) => apply wp_modify_core; intros ? ?
  | |- wp (cloned _) _ _ (edited _ _ _ _ _) => apply wp_cloned_edited
  | |- wp (claim_source_hash _ _) _ _ (edited _ _ _ _ _) => apply wp_claim_source_hash; [|intros ? ? ?]
  | |- wp (claim_nonce _ _) _ _ (edited _ _ _ _ _) => apply wp_claim_nonce; intros ? ? ?
  | _ => wp_step
  end.

(** Continues at the transfer that the operation found. *)
Ltac enter :=
  match goal with
  | Hl : transfers ?s !! ?id = Some ?t |- wp _ _ _ ?s => apply (wp_at _ _ _ s id t Hl)
  end.

Section Moves.

Context {T : Time} (checks : bool).
Implicit Types (s : Store) (t : CctpTransfer) (id : Uuid).

Lemma transition_moves now now' id ev ns p s :
  wp (transition checks now now' id ev ns p) (λ _ s', moves false s s') (moves false s) s.
Proof.
  unfold transition. apply wp_bind, wp_get_mut; [apply moves_refl|]. intros t Hl.
  op_step. op_step; [apply moves_refl|]. op_step. op_step; [apply moves_refl|].
  op_step. op_step; [apply moves_refl|]. enter.
  match goal with Ha : negb (is_allowed_transition _ _) = false |- _ => apply negb_false_iff in Ha end.
  repeat op_step.
  all: rewrite ?patch_before_nonce_core, ?patch_after_nonce_core, ?patch_payloads_core, ?terminal_core in *.
  all: solve_moves.
Qed.

Lemma poll_lease_moves now id l i s :
  wp (try_acquire_poll_lease now id l i) (λ _ s', moves true s s') (moves true s) s.
Proof.
  unfold try_acquire_poll_lease. op_step. op_step. op_step; [|by repeat op_step].
  op_step; [by repeat op_step|]. enter. repeat op_step. solve_moves.
Qed.

Lemma claim_reattest_moves now id o l m s :
  wp (claim_reattest_lease now id o l m) (λ _ s', moves false s s') (moves false s) s.
Proof.
  unfold claim_reattest_lease. op_step. op_step. op_step; [|by repeat op_step].
  op_step; [by repeat op_step|]. op_step; [by repeat op_step|].
  op_step; enter; repeat op_step; solve_moves.
Qed.

Lemma holds_lease_status t o :
  negb (holds_reattest_lease t o) = false → status t = CctpTransferStatus.AttestationFailed.
Proof. unfold holds_reattest_lease. rewrite !negb_involutive. by intros [?%bool_decide_eq_false%dec_stable _]%orb_false_iff. Qed.

Lemma reattest_success_moves now id o s :
  wp (finalize_reattest_success checks now id o) (λ _ s', moves false s s') (moves false s) s.
Proof.
  unfold finalize_reattest_success. op_step. op_step. op_step; [|by repeat op_step].
  op_step; [by repeat op_step|]. enter.
  pose proof (holds_lease_status _ _ Heqb) as Hst.
  assert (is_allowed_transition (status c) CctpTransferStatus.AwaitingAttestation = true) by (by rewrite Hst).
  repeat op_step; solve_moves.
Qed.

Lemma reattest_failure_moves now now' id o code err cd s :
  wp (finalize_reattest_failure checks now now' id o code err cd) (λ _ s', moves false s s') (moves false s) s.
Proof.
  unfold finalize_reattest_failure. op_step. op_step. op_step; [|by repeat op_step].
  op_step; [by repeat op_step|]. enter. repeat op_step; solve_moves.
Qed.

Lemma approval_moves now id ev h d s :
  wp (record_approval_submission checks now id ev h d) (λ _ s', moves false s s') (moves false s) s.
Proof.
  unfold record_approval_submission. op_step. op_step; [apply moves_refl|].
  apply wp_bind, wp_get_mut; [apply moves_refl|]. intros t Hl.
  op_step. op_step; [apply moves_refl|]. op_step. op_step; [apply moves_refl|].
  op_step; [by repeat op_step|]. enter. repeat op_step; solve_moves.
Qed.

Lemma verified_burn_moves now id ev h s :
  wp (record_verified_burn checks now id ev h) (λ _ s', moves false s s') (moves false s) s.
Proof.
  unfold record_verified_burn. op_step. op_step; [apply moves_refl|].
  apply wp_bind, wp_get_mut; [apply moves_refl|]. intros t Hl.
  op_step. op_step; [apply moves_refl|]. op_step. op_step; [apply moves_refl|].
  match goal with Hb : bool_decide (_ ≠ _) = false |- _ =>
    apply bool_decide_eq_false, dec_stable in Hb as Hst end.
  assert (is_allowed_transition (status t) CctpTransferStatus.AwaitingAttestation = true) by (by rewrite Hst).
  enter. repeat op_step; solve_moves.
Qed.

End Moves.

(** ** What the operations of the transfer store do to the evidence in a transfer

    A transfer as the service's theorems see it: what was fixed by its quote
    ([frozen]) and what the saga collects (the rest of its [View]). For each operation of
    the store, what becomes of the view, when it succeeds and when it fails. *)

Section Views.

Context {T : Time}.
Implicit Types (s : Store) (t : CctpTransfer) (id : Uuid).

(** What the quote fixed. *)
Definition frozen t :=
  (transfer_id t, direction t, (source_chain_id t, destination_chain_id t), (sender t, recipient t, amount t),
   finality t).

Record View := mkView {
  vw_fixed : Uuid * CctpDirection * (Str * Str) * (Str * Str * Str) * CctpFinality;
  vw_status : CctpTransferStatus;
  vw_version : Z;
  vw_source : option Str;
  vw_destination : option Str;
  vw_nonce : option Str;
  vw_raw : option (list Z);
  vw_attestation : option (list Z);
}.

#[export] Instance eta_View : Eta View := λ v,
  mkView (vw_fixed v) (vw_status v) (vw_version v) (vw_source v) (vw_destination v) (vw_nonce v) (vw_raw v)
    (vw_attestation v).

Definition view t : View :=
  mkView (frozen t) (status t) (version t) (source_tx_hash t) (destination_tx_hash t) (message_nonce t)
    (raw_message t) (attestation t).

Lemma view_parts t v : view t = v →
  frozen t = vw_fixed v ∧ status t = vw_status v ∧ version t = vw_version v ∧ source_tx_hash t = vw_source v ∧
  destination_tx_hash t = vw_destination v ∧ message_nonce t = vw_nonce v ∧ raw_message t = vw_raw v ∧
  attestation t = vw_attestation v.
Proof. by intros <-. Qed.

(** [o] if it is there, else [d]. *)
Definition or_old {A} (o d : option A) : option A :=
  match o with
  | Some v => Some v
  | None => d
  end.

(** The next version. *)
Definition bump (v : View) : View := v <| vw_version ::= λ n, wrap I32 (n + 1) |>.

(** The transfer [id] satisfied [P] and was replaced by [t'], whose view is [g] of the
    old one. *)
Definition replaced (P : CctpTransfer → Prop) (g : View → View) id t' s s' : Prop := ∃ t,
  transfers s !! id = Some t ∧ transfers s' = <[id := t']> (transfers s) ∧ P t ∧ view t' = g (view t).

(** No view changed. *)
Definition quiet s s' : Prop := s' = s ∨ ∃ id t', replaced (λ _, True) (λ v, v) id t' s s'.

Lemma quiet_refl s : quiet s s.
Proof. by left. Qed.

(** An assignment that does not concern the view. *)
Lemma assign_view {A} (set : A → CctpTransfer → CctpTransfer) o t :
  (∀ v t, view (set v t) = view t) → view (assign set o t) = view t.
Proof. intros Hv. destruct o; cbn; auto. Qed.

Lemma patch_before_nonce_view p t :
  view (patch_before_nonce p t) = (view t) <| vw_destination ::= or_old (p_destination_tx_hash p) |>.
Proof.
  unfold patch_before_nonce. rewrite assign_view by done.
  destruct (p_source_approval_tx_hash p), (p_destination_tx_hash p); reflexivity.
Qed.

Lemma patch_after_nonce_view p t :
  view (patch_after_nonce p t) =
  (view t) <| vw_raw ::= or_old (p_raw_message p) |> <| vw_attestation ::= or_old (p_attestation p) |>.
Proof.
  unfold patch_after_nonce. rewrite !assign_view by done.
  destruct (p_raw_message p), (p_attestation p); reflexivity.
Qed.

Lemma patch_payloads_view p t : view (patch_payloads p t) = view t.
Proof.
  unfold patch_payloads. cbn zeta. rewrite !assign_view by done.
  destruct (clear_mint_payload p); [|by rewrite !assign_view by done].
  transitivity (view (assign (λ v t, t <| mint_payload_expires_at := Some v |>) (p_mint_payload_expires_at p)
    (assign (λ v t, t <| mint_payload_hash := Some v |>) (p_mint_payload_hash p) t))); [done|].
  by rewrite !assign_view by done.
Qed.

Lemma terminal_view (b1 b2 : bool) d t :
  view (if b1 then t <| terminal_at := None |> else if b2 then t <| terminal_at := Some d |> else t) = view t.
Proof. by destruct b1, b2. Qed.

(** An assignment, remembering only that it turns views by [g]. *)
Lemma wp_modify_as (g : View → View) id f s t Hs N (Q : unit → Store → Prop) E :
  (∀ t, view (f t) = g (view t)) →
  (∀ t2, view t2 = g (view t) → Q tt (edited s id t2 Hs N)) →
  wp (modify id f) Q E (edited s id t Hs N).
Proof. intros Hg HQ. apply wp_modify_edited. by apply HQ. Qed.

Lemma quiet_edited s id t t' Hs N :
  transfers s !! id = Some t → view t' = view t → quiet s (edited s id t' Hs N).
Proof. intros Hl Hv. right. by exists id, t', t. Qed.

End Views.

(** Steps through an operation. *)
Ltac view_step :=
  match goal with
  | |- quiet ?s ?s => apply quiet_refl
  | |- wp (validate_patch _) _ _ _ => apply wp_validate_patch
  | |- wp (cloned _) _ _ (edited _ _ _ _ _) => apply wp_cloned_edited
  | |- wp (claim_source_hash _ _) _ _ (edited _ _ _ _ _) => apply wp_claim_source_hash; [|intros ? ? ?]
  | |- wp (claim_nonce _ _) _ _ (edited _ _ _ _ _) => apply wp_claim_nonce; intros ? ? ?
  | |- wp (modify _ _) _ _ (edited _ _ _ _ _) => fail 1
  | _ => wp_step
  end.

(** Passes an assignment that turns views by [g]. *)
Ltac modify_as g :=
  repeat view_step; apply (wp_modify_as g); [intros; reflexivity|intros ? ?].

(** Follows the equations of views back to the transfer that was read. *)
Ltac chase_views :=
  repeat match goal with Hv : view ?t = _ |- context [view ?t] => rewrite Hv; clear Hv end.

Ltac solve_quiet :=
  match goal with
  | Hl : transfers ?s !! ?id = Some ?t |- quiet ?s (edited ?s ?id _ _ _) =>
      apply (quiet_edited _ _ _ _ _ _ Hl); chase_views; reflexivity
  end.

Ltac solve_replaced :=
  match goal with
  | Hl : transfers ?s !! ?id = Some ?t |- replaced _ _ _ _ _ _ =>
      exists t; split; [exact Hl|]; split; [reflexivity|]; split; [by split_and?|chase_views; reflexivity]
  end.

Section Effects.

Context {T : Time} (checks : bool).
Implicit Types (s : Store) (t : CctpTransfer) (id : Uuid).

(** When a transition is made, and what it does to the view. *)
Definition may_move (ev : Z) ns t : Prop := version t = ev ∧ is_allowed_transition (status t) ns = true.

Definition moved ns (p : TransferPatch) (v : View) : View :=
  bump (v <| vw_status := ns |> <| vw_source ::= or_old (p_source_tx_hash p) |>
          <| vw_destination ::= or_old (p_destination_tx_hash p) |> <| vw_nonce ::= or_old (p_message_nonce p) |>
          <| vw_raw ::= or_old (p_raw_message p) |> <| vw_attestation ::= or_old (p_attestation p) |>).

Lemma source_step id p s t :
  ∀ (Q : unit → Store → Prop) (E : Store → Prop),
  E (edited s id t (source_tx_hashes s) (message_nonces s)) →
  (∀ t2 Hs, view t2 = (view t) <| vw_source ::= or_old (p_source_tx_hash p) |> →
     Q tt (edited s id t2 Hs (message_nonces s))) →
  wp (match p_source_tx_hash p with
      | Some hash => bind (claim_source_hash id hash) (λ _, modify id (λ t, t <| source_tx_hash := Some hash |>))
      | None => ret tt
      end) Q E (edited s id t (source_tx_hashes s) (message_nonces s)).
Proof.
  intros Q E HE HQ. destruct (p_source_tx_hash p) as [hash|].
  - view_step. view_step; [done|]. modify_as (λ v, v <| vw_source := Some hash |>). by apply HQ.
  - by view_step; apply HQ.
Qed.

Lemma nonce_step id p chain s t Hs :
  ∀ (Q : unit → Store → Prop) (E : Store → Prop),
  (p_message_nonce p ≠ None → E (edited s id t Hs (message_nonces s))) →
  (∀ t2 N, view t2 = (view t) <| vw_nonce ::= or_old (p_message_nonce p) |> → Q tt (edited s id t2 Hs N)) →
  wp (match p_message_nonce p with
      | Some v => bind (claim_nonce id (chain, v)) (λ _, modify id (λ t, t <| message_nonce := Some v |>))
      | None => ret tt
      end) Q E (edited s id t Hs (message_nonces s)).
Proof.
  intros Q E HE HQ. destruct (p_message_nonce p) as [n|].
  - view_step. view_step; [by apply HE|]. modify_as (λ v, v <| vw_nonce := Some n |>). by apply HQ.
  - by view_step; apply HQ.
Qed.

Lemma transition_effect now now' id ev ns p s :
  wp (transition checks now now' id ev ns p)
    (λ t' s', replaced (may_move ev ns) (moved ns p) id t' s s')
    (λ s', p_source_tx_hash p = None → p_destination_tx_hash p = None ∨ p_message_nonce p = None → quiet s s') s.
Proof.
  unfold transition. apply wp_bind, wp_get_mut; [intros; apply quiet_refl|]. intros t Hl.
  view_step. view_step; [intros; apply quiet_refl|]. view_step. view_step; [intros; apply quiet_refl|].
  view_step. view_step; [intros; apply quiet_refl|]. enter.
  match goal with Ha : negb (is_allowed_transition _ _) = false, Hv : negb (_ =? _) = false |- _ =>
    apply negb_false_iff in Ha; apply negb_false_iff, Z.eqb_eq in Hv end.
  view_step. apply source_step; [intros; solve_quiet|]. intros t1 Hs H1.
  view_step. apply (wp_modify_as (λ v, v <| vw_destination ::= or_old (p_destination_tx_hash p) |>));
    [apply patch_before_nonce_view|]. intros t2 H2.
  view_step. apply nonce_step.
  { intros Hn Hsrc [Hd|?]; [|done]. rewrite Hsrc in H1. rewrite Hd in H2. solve_quiet. }
  intros t3 N H3. view_step.
  apply (wp_modify_as (λ v, v <| vw_raw ::= or_old (p_raw_message p) |> <| vw_attestation ::= or_old (p_attestation p) |>));
    [apply patch_after_nonce_view|]. intros t4 H4.
  assert (Hr : ∀ Q E, (∀ t5, view t5 = view t4 → Q tt (edited s id t5 Hs N)) →
    wp (if increment_retry p then bind (plain checks U32 (retry_count t + 1))
          (λ n, modify id (λ t, t <| retry_count := n |>)) else ret tt) Q E (edited s id t4 Hs N)).
  { intros Q E HQ. destruct (increment_retry p); [modify_as (λ v : View, v); by apply HQ|view_step; by apply HQ]. }
  view_step. apply Hr. intros t5 H5.
  modify_as (λ v, v <| vw_status := ns |>).
  modify_as (λ v, v <| vw_version := wrap I32 (version t + 1) |>).
  view_step. apply (wp_modify_as (λ v, v)); [intros; apply terminal_view|]. intros t8 H8.
  view_step. apply (wp_modify_as (λ v, v)); [apply patch_payloads_view|]. intros t9 H9.
  view_step. solve_replaced.
Qed.

Lemma poll_lease_effect now id l i s :
  wp (try_acquire_poll_lease now id l i)
    (λ o s', quiet s s' ∧ (∀ t' x, o = Some (t', x) → transfers s' !! id = Some t')) (quiet s) s.
Proof.
  unfold try_acquire_poll_lease. view_step. view_step. view_step.
  - view_step; [view_step; split; [apply quiet_refl|by intros ? ? [= <- <-]]|]. enter.
    modify_as (λ v : View, v). repeat view_step.
    split; [solve_quiet|intros ? ? [= <- <-]; apply lookup_insert_eq].
  - repeat view_step. by split; [apply quiet_refl|].
Qed.

Lemma claim_reattest_effect now id o l m s :
  wp (claim_reattest_lease now id o l m)
    (λ r s', quiet s s' ∧ (∀ t' x, r = Some (t', x) → transfers s' !! id = Some t')) (quiet s) s.
Proof.
  unfold claim_reattest_lease. view_step. view_step. view_step.
  - view_step; [view_step; split; [apply quiet_refl|by intros ? ? [= <- <-]]|].
    view_step; [view_step; split; [apply quiet_refl|by intros ? ? [= <- <-]]|].
    view_step; enter; modify_as (λ v : View, v); repeat view_step;
      (split; [solve_quiet|intros ? ? [= <- <-]; apply lookup_insert_eq]).
  - repeat view_step. by split; [apply quiet_refl|].
Qed.

Lemma reattest_success_effect now id o s :
  wp (finalize_reattest_success checks now id o)
    (λ r s', match r with
             | Some t' => replaced (λ t, status t = CctpTransferStatus.AttestationFailed)
                            (λ v, bump (v <| vw_status := CctpTransferStatus.AwaitingAttestation |>)) id t' s s'
             | None => s' = s
             end) (eq s) s.
Proof.
  unfold finalize_reattest_success. view_step. view_step. view_step; [|by repeat view_step].
  view_step; [by repeat view_step|].
  match goal with Hh : negb (holds_reattest_lease ?t _) = false |- _ =>
    pose proof (holds_lease_status _ _ Hh) as Hst; rename t into told end.
  enter. modify_as (λ v, v <| vw_status := CctpTransferStatus.AwaitingAttestation |>).
  modify_as (λ v : View, v). modify_as (λ v : View, v).
  modify_as (λ v, v <| vw_version := wrap I32 (version told + 1) |>). repeat view_step. solve_replaced.
Qed.

Lemma reattest_failure_effect now now' id o code err cd s :
  wp (finalize_reattest_failure checks now now' id o code err cd)
    (λ r s', match r with
             | Some t' => replaced (λ t, status t = CctpTransferStatus.AttestationFailed) bump id t' s s'
             | None => s' = s
             end) (eq s) s.
Proof.
  unfold finalize_reattest_failure. view_step. view_step. view_step; [|by repeat view_step].
  view_step; [by repeat view_step|].
  match goal with Hh : negb (holds_reattest_lease ?t _) = false |- _ =>
    pose proof (holds_lease_status _ _ Hh) as Hst; rename t into told end.
  enter. modify_as (λ v : View, v).
  modify_as (λ v, v <| vw_version := wrap I32 (version told + 1) |>). repeat view_step. solve_replaced.
Qed.

Lemma approval_effect now id ev h d s :
  wp (record_approval_submission checks now id ev h d)
    (λ t' s', (s' = s ∧ transfers s !! id = Some t') ∨
              replaced (λ t, status t = CctpTransferStatus.BurnPrepared) bump id t' s s')
    (eq s) s.
Proof.
  unfold record_approval_submission. view_step. view_step; [done|].
  apply wp_bind, wp_get_mut; [done|]. intros t Hl.
  view_step. view_step; [done|]. view_step. view_step; [done|].
  match goal with Hb : bool_decide (_ ≠ _) = false |- _ =>
    apply bool_decide_eq_false, dec_stable in Hb as Hst end.
  view_step.
  - view_step. view_step; [done|]. repeat view_step. by left.
  - enter. modify_as (λ v : View, v). modify_as (λ v, v <| vw_version := wrap I32 (version t + 1) |>).
    repeat view_step. right. solve_replaced.
Qed.

Lemma verified_burn_effect now id ev h s :
  wp (record_verified_burn checks now id ev h)
    (λ t' s', replaced (λ t, version t = ev ∧ status t = CctpTransferStatus.BurnPrepared)
       (λ v, bump (v <| vw_status := CctpTransferStatus.AwaitingAttestation |> <| vw_source := Some h |>)) id t' s s')
    (quiet s) s.
Proof.
  unfold record_verified_burn. view_step. view_step; [apply quiet_refl|].
  apply wp_bind, wp_get_mut; [apply quiet_refl|]. intros t Hl.
  view_step. view_step; [apply quiet_refl|]. view_step. view_step; [apply quiet_refl|].
  match goal with Hb : bool_decide (_ ≠ _) = false, Hv : negb (_ =? _) = false |- _ =>
    apply bool_decide_eq_false, dec_stable in Hb as Hst; apply negb_false_iff, Z.eqb_eq in Hv end.
  enter. view_step. view_step; [solve_quiet|].
  modify_as (λ v, v <| vw_status := CctpTransferStatus.AwaitingAttestation |> <| vw_source := Some h |>).
  modify_as (λ v, v <| vw_version := wrap I32 (version t + 1) |>).
  repeat view_step. solve_replaced.
Qed.

Lemma insert_effect t s :
  wp (insert t) (λ _ s', transfers s !! transfer_id t = None ∧
                         transfers s' = <[transfer_id t := t]> (transfers s)) (eq s) s.
Proof.
  unfold insert. view_step. view_step. view_step. view_step; [done|].
  destruct (transfers s !! transfer_id t) eqn:E; [done|]. by unfold wp.
Qed.

End Effects.
