(* ===== verification/CctpStoreProps.v ===== *)
(** * Properties of the transfer store

    Runs of the store from the empty one: transfers follow the life cycle, a
    completed transfer went through every stage, source transactions and message
    nonces belong to one transfer each, and poll leases exclude one another. *)

From stdpp Require Import base decidable strings numbers list gmap.
From Stdlib Require Import ZArith Lia.
From S2P Require Import Prelude RustStr Result CctpTypes CctpStore CctpStoreLogic.

Local Open Scope Z_scope.
Local Open Scope record_scope.
Local Open Scope str_scope.

Section Props.

Context {T : Time} (checks : bool).
Implicit Types (s : Store) (t : CctpTransfer) (id : Uuid).

(** ** Runs *)

(** The operations that write, with their arguments and clock readings. *)
Inductive StoreOp :=
| OpInsert (t : CctpTransfer)
| OpPollLease (now : DateTime) (id : Uuid) (lease interval : Z)
| OpClaimReattest (now : DateTime) (id : Uuid) (owner : Str) (lease attempts : Z)
| OpReattestSuccess (now : DateTime) (id : Uuid) (owner : Str)
| OpReattestFailure (now now' : DateTime) (id : Uuid) (owner code error : Str) (cooldown : Z)
| OpTransition (now now' : DateTime) (id : Uuid) (ev : Z) (ns : CctpTransferStatus) (p : TransferPatch)
| OpApproval (now : DateTime) (id : Uuid) (ev : Z) (hash : Str) (at_ : DateTime)
| OpMintPrepared (now now' : DateTime) (id : Uuid) (ev : Z) (hash : Str) (exp : DateTime) (sub : option Str)
| OpMintSubmission (now now' : DateTime) (id : Uuid) (ev : Z) (hash : Str)
| OpMintCompleted (now now' : DateTime) (id : Uuid) (ev : Z)
| OpVerifiedBurn (now : DateTime) (id : Uuid) (ev : Z) (hash : Str).

Definition discard {A} (m : St A) : St unit := bind m (λ _, ret tt).

Definition exec_op (op : StoreOp) : St unit :=
  match op with
  | OpInsert t => insert t
  | OpPollLease now id l i => discard (try_acquire_poll_lease now id l i)
  | OpClaimReattest now id o l m => discard (claim_reattest_lease now id o l m)
  | OpReattestSuccess now id o => discard (finalize_reattest_success checks now id o)
  | OpReattestFailure now now' id o c e cd => discard (finalize_reattest_failure checks now now' id o c e cd)
  | OpTransition now now' id ev ns p => discard (transition checks now now' id ev ns p)
  | OpApproval now id ev h d => discard (record_approval_submission checks now id ev h d)
  | OpMintPrepared now now' id ev h x sub => discard (record_mint_prepared checks now now' id ev h x sub)
  | OpMintSubmission now now' id ev h => discard (record_mint_submission checks now now' id ev h)
  | OpMintCompleted now now' id ev => discard (record_mint_completed checks now now' id ev)
  | OpVerifiedBurn now id ev h => discard (record_verified_burn checks now id ev h)
  end.

(** New transfers carry no evidence yet. *)
Definition fresh_transfer t : Prop :=
  status t = CctpTransferStatus.Created ∧ source_tx_hash t = None ∧ message_nonce t = None.

Definition op_ok (op : StoreOp) : Prop :=
  match op with
  | OpInsert t => fresh_transfer t
  | _ => True
  end.

(** The store after an operation that returned or failed. *)
Definition after_op (op : StoreOp) s s' : Prop :=
  exec_op op s = Done tt s' ∨ ∃ e, exec_op op s = Failed e s'.

(** The stores of a run, newest first. *)
Inductive run : list Store → Prop :=
| run_start : run [empty_store]
| run_op op s s' l : run (s :: l) → op_ok op → after_op op s s' → run (s' :: s :: l).

(** What one operation does. *)
Definition store_step s s' : Prop :=
  (∃ b, moves b s s') ∨
  ∃ t, fresh_transfer t ∧ transfers s !! transfer_id t = None ∧
       s' = s <| transfers ::= base.insert (transfer_id t) t |>.

Lemma moves_discard {A} (m : St A) b s :
  wp m (λ _ s', moves b s s') (moves b s) s → wp (discard m) (λ _ s', store_step s s') (store_step s) s.
Proof.
  intros H. apply wp_bind. eapply wp_mono; [exact H|..]; cbn; intros; left; by exists b.
Qed.

Lemma exec_op_step op s : op_ok op → wp (exec_op op) (λ _ s', store_step s s') (store_step s) s.
Proof.
  intros Hok. destruct op; cbn [exec_op].
  1: { unfold insert. do 2 wp_step. wp_step. wp_step; [left; exists true; by left|].
       destruct (transfers s !! transfer_id t) eqn:E; [done|]. unfold wp. right. by exists t. }
  all: eapply moves_discard.
  - apply poll_lease_moves.
  - apply claim_reattest_moves.
  - apply reattest_success_moves.
  - apply reattest_failure_moves.
  - apply transition_moves.
  - apply approval_moves.
  - apply transition_moves.
  - apply transition_moves.
  - apply transition_moves.
  - apply verified_burn_moves.
Qed.

Lemma after_op_step op s s' : op_ok op → after_op op s s' → store_step s s'.
Proof.
  intros Hok Ha. pose proof (exec_op_step op s Hok) as H. unfold wp in H.
  by destruct Ha as [E|[e E]]; rewrite E in H.
Qed.

(** ** Ownership of source transactions and nonces *)

Definition owned s : Prop := ∀ id t, transfers s !! id = Some t →
  transfer_id t = id ∧
  (∀ h, source_tx_hash t = Some h → source_tx_hashes s !! h = Some id) ∧
  (∀ n, message_nonce t = Some n → message_nonces s !! (source_chain_id t, n) = Some id).

Lemma owned_step s s' : owned s → store_step s s' → owned s'.
Proof.
  intros Ho [[b [->|(id & t & t' & Hc)]]|(t & (_ & Hh & Hn) & Hl & ->)]; [done|..]; intros j u Hj.
  - destruct Hc as [Hb Ha [Hid Hch] _ _ Hhs Hh Hns Hn _]. rewrite Ha in Hj.
    destruct (decide (j = id)) as [->|Hne].
    + rewrite lookup_insert_eq in Hj. injection Hj as <-. destruct (Ho _ _ Hb) as (Ht & Hh1 & Hn1).
      split; [congruence|]. split.
      * intros h Eh. destruct Hh as [Hh|(h' & Eh' & ?)]; [|congruence].
        eapply lookup_weaken; [apply Hh1; congruence|done].
      * intros n En. rewrite Hch. destruct Hn as [Hn|(n' & En' & ?)]; [|congruence].
        eapply lookup_weaken; [apply Hn1; congruence|done].
    + rewrite lookup_insert_ne in Hj by done. destruct (Ho _ _ Hj) as (Ht & Hh1 & Hn1).
      split; [done|]. split; intros x Ex; (eapply lookup_weaken; [by eauto|done]).
  - unfold update in *. cbn in *. destruct (decide (j = transfer_id t)) as [->|Hne].
    + rewrite lookup_insert_eq in Hj. injection Hj as <-. split; [done|]. split; congruence.
    + rewrite lookup_insert_ne in Hj by done. by apply Ho.
Qed.

Lemma run_owned s l : run (s :: l) → owned s.
Proof.
  remember (s :: l) as sl eqn:E. intros H. revert s l E.
  induction H as [|op s s' l Hr IH Hok Ha]; intros s0 l0 [= <- <-].
  - intros id t. unfold empty_store. cbn. by rewrite lookup_empty.
  - eapply owned_step; [by eapply IH|by eapply after_op_step].
Qed.

(** ** Stages *)

(** The statuses a transfer had along a run, oldest first. *)
Definition stages id (l : list Store) : list CctpTransferStatus :=
  omap (λ s, status <$> transfers s !! id) (reverse l).

Lemma stages_cons id s l :
  stages id (s :: l) = stages id l ++ match transfers s !! id with Some t => [status t] | None => [] end.
Proof.
  unfold stages. rewrite reverse_cons, omap_app. f_equal. cbn. by destruct (transfers s !! id).
Qed.

(** The status of a transfer after an operation. *)
Lemma step_status s s' id t' :
  store_step s s' → transfers s' !! id = Some t' →
  (∃ t, transfers s !! id = Some t ∧ is_allowed_transition (status t) (status t') = true) ∨
  (transfers s !! id = None ∧ status t' = CctpTransferStatus.Created).
Proof.
  intros [[b [->|(j & t & u & Hc)]]|(t & (Hst & _) & Hl & ->)] Ht'.
  - left. exists t'. split; [done|apply allowed_refl].
  - left. rewrite (ch_after _ _ _ _ _ _ Hc) in Ht'. destruct (decide (id = j)) as [->|Hne].
    + rewrite lookup_insert_eq in Ht'. injection Ht' as <-. exists t.
      split; [apply (ch_before _ _ _ _ _ _ Hc)|apply (ch_status _ _ _ _ _ _ Hc)].
    + rewrite lookup_insert_ne in Ht' by done. exists t'. split; [done|apply allowed_refl].
  - unfold update in Ht'. cbn in Ht'. destruct (decide (id = transfer_id t)) as [->|Hne].
    + rewrite lookup_insert_eq in Ht'. injection Ht' as <-. by right.
    + rewrite lookup_insert_ne in Ht' by done. left. exists t'. split; [done|apply allowed_refl].
Qed.

(** Transfers are never removed. *)
Lemma step_stays s s' id : store_step s s' → transfers s' !! id = None → transfers s !! id = None.
Proof.
  intros [[b [->|(j & t & u & Hc)]]|(t & _ & Hl & ->)]; [done|..].
  - rewrite (ch_after _ _ _ _ _ _ Hc). by intros [? _]%lookup_insert_None.
  - unfold update. cbn. by intros [? _]%lookup_insert_None.
Qed.

(** The stages that precede each status on every path from [Created]. *)
Definition milestones (x : CctpTransferStatus) : list CctpTransferStatus :=
  let burned := [CctpTransferStatus.Created; CctpTransferStatus.BurnPrepared] in
  let attested := burned ++ [CctpTransferStatus.AwaitingAttestation; CctpTransferStatus.AttestationReady] in
  let minted := attested ++ [CctpTransferStatus.MintPrepared] in
  match x with
  | CctpTransferStatus.Created => [CctpTransferStatus.Created]
  | CctpTransferStatus.BurnPrepared => burned
  | CctpTransferStatus.BurnSubmitted => burned ++ [CctpTransferStatus.BurnSubmitted]
  | CctpTransferStatus.AwaitingAttestation => burned ++ [CctpTransferStatus.AwaitingAttestation]
  | CctpTransferStatus.AttestationFailed =>
      burned ++ [CctpTransferStatus.AwaitingAttestation; CctpTransferStatus.AttestationFailed]
  | CctpTransferStatus.AttestationReady => attested
  | CctpTransferStatus.MintPrepared => minted
  | CctpTransferStatus.MintFailedRetryable => minted ++ [CctpTransferStatus.MintFailedRetryable]
  | CctpTransferStatus.MintSubmitted => minted ++ [CctpTransferStatus.MintSubmitted]
  | CctpTransferStatus.Completed =>
      minted ++ [CctpTransferStatus.MintSubmitted; CctpTransferStatus.Completed]
  | CctpTransferStatus.Cancelled => [CctpTransferStatus.Created; CctpTransferStatus.Cancelled]
  | CctpTransferStatus.ProviderKilled => [CctpTransferStatus.Created; CctpTransferStatus.ProviderKilled]
  end.

Lemma milestones_step x y :
  is_allowed_transition x y = true → sublist (milestones y) (milestones x ++ [y]).
Proof.
  intros H. destruct x, y; try discriminate H; cbn;
    repeat first [apply sublist_skip | apply sublist_cons | apply sublist_nil].
Qed.

(** Statuses that follow one another along a list. *)
Definition follows (x y : CctpTransferStatus) : Prop := is_allowed_transition x y = true.

(** What the stages of a run say, when the transfer exists. *)
Definition stages_ok id l : Prop :=
  match head (reverse (stages id l)) with
  | Some x => sublist (milestones x) (stages id l) ∧ Forall (λ y, rtc follows y x) (stages id l)
  | None => True
  end.

Lemma last_stage id s l t : transfers s !! id = Some t → head (reverse (stages id (s :: l))) = Some (status t).
Proof. intros Hl. by rewrite stages_cons, Hl, reverse_app. Qed.

Lemma stages_ok_step id s s' l : store_step s s' → stages_ok id (s :: l) → stages id l = [] ∨ is_Some (transfers s !! id) →
  stages_ok id (s' :: s :: l).
Proof.
  intros Hs Hok Hl. destruct (transfers s' !! id) as [t'|] eqn:E'.
  - unfold stages_ok. rewrite (last_stage _ _ _ _ E').
    rewrite (stages_cons id s'), E'. destruct (step_status _ _ _ _ Hs E') as [(t & E & Ha)|(E & Hst)].
    + unfold stages_ok in Hok. rewrite (last_stage _ _ _ _ E) in Hok. destruct Hok as [Hm Hf]. split.
      * etransitivity; [by apply milestones_step|]. by apply sublist_app.
      * apply Forall_app. split; [|by repeat constructor].
        eapply Forall_impl; [exact Hf|]. intros y Hy. cbn in *. eapply rtc_r; [exact Hy|exact Ha].
    + destruct Hl as [Hl|[? Hl]]; [|congruence].
      rewrite stages_cons, E, Hl, Hst. cbn. split; [done|by repeat constructor].
  - pose proof (step_stays _ _ _ Hs E') as E. destruct Hl as [Hl|[? Hl]]; [|congruence].
    unfold stages_ok. by rewrite stages_cons, E', stages_cons, E, Hl.
Qed.

Lemma run_stages id s l : run (s :: l) →
  stages_ok id (s :: l) ∧ (stages id l = [] ∨ is_Some (transfers s !! id)).
Proof.
  remember (s :: l) as sl eqn:E. intros H. revert s l E.
  induction H as [|op s s' l Hr IH Hok Ha]; intros s0 l0 [= <- <-].
  - split; [|by left]. unfold stages_ok, stages. cbn. by rewrite lookup_empty.
  - pose proof (after_op_step _ _ _ Hok Ha) as Hs. destruct (IH _ _ eq_refl) as [Hst Hl].
    split; [by apply stages_ok_step|].
    destruct (transfers s' !! id) as [t'|] eqn:E'; [by right|]. left.
    pose proof (step_stays _ _ _ Hs E') as E. destruct Hl as [Hl|[? Hl]]; [|congruence].
    by rewrite stages_cons, E, Hl.
Qed.

(** ** Theorems on runs *)

(** C21: in every run of the store, however operations interleave and fail, two
    transfers never share a source transaction, and two transfers from the same
    source chain never share a message nonce: the evidence of a burn is used once. *)
Theorem burn_evidence_unique s l id1 id2 t1 t2 :
  run (s :: l) → transfers s !! id1 = Some t1 → transfers s !! id2 = Some t2 → id1 ≠ id2 →
  (∀ h, source_tx_hash t1 = Some h → source_tx_hash t2 ≠ Some h) ∧
  (source_chain_id t1 = source_chain_id t2 →
   ∀ n, message_nonce t1 = Some n → message_nonce t2 ≠ Some n).
Proof.
  intros Hr%run_owned H1 H2 Hne. destruct (Hr _ _ H1) as (_ & Hh1 & Hn1), (Hr _ _ H2) as (_ & Hh2 & Hn2).
  split.
  - intros h E1%Hh1 E2%Hh2. congruence.
  - intros Ec n E1%Hn1 E2%Hn2. rewrite Ec in E1. congruence.
Qed.

(** What every status of a transfer's past reaches is its present one. *)
Lemma follows_from x y : rtc follows x y →
  (is_terminal x = true → y = x) ∧
  (is_terminal y = true → y = CctpTransferStatus.Cancelled → can_cancel x = true ∨ x = y).
Proof.
  induction 1 as [x|x y z Hxy _ [IH1 IH2]]; [by auto|]. unfold follows in Hxy. split.
  - intros Hx. destruct x; try discriminate Hx; destruct y; try discriminate Hxy; by apply IH1.
  - intros Hz ->. destruct (IH2 Hz eq_refl) as [Hy| ->]; [destruct y; try discriminate Hy|];
      destruct x; try discriminate Hxy; auto.
Qed.

(** The stages of a transfer along any run. A completed transfer was created,
    had its burn prepared, waited for an attestation, got it, had its mint prepared
    and submitted, in that order; a transfer is cancelled only out of the stages in
    which nothing was burned yet; and a terminal stage, once seen, is the present one. *)
Theorem transfer_stages s l id t :
  run (s :: l) → transfers s !! id = Some t →
  (status t = CctpTransferStatus.Completed →
     sublist [CctpTransferStatus.Created; CctpTransferStatus.BurnPrepared;
              CctpTransferStatus.AwaitingAttestation; CctpTransferStatus.AttestationReady;
              CctpTransferStatus.MintPrepared; CctpTransferStatus.MintSubmitted;
              CctpTransferStatus.Completed] (stages id (s :: l))) ∧
  (status t = CctpTransferStatus.Cancelled →
     Forall (λ x, can_cancel x = true ∨ x = CctpTransferStatus.Cancelled) (stages id (s :: l))) ∧
  Forall (λ x, is_terminal x = true → status t = x) (stages id (s :: l)).
Proof.
  intros Hr Hl. destruct (run_stages id _ _ Hr) as [Hok _]. unfold stages_ok in Hok.
  rewrite (last_stage _ _ _ _ Hl) in Hok. destruct Hok as [Hm Hf]. split; [|split].
  - intros E. by rewrite E in Hm.
  - intros E. rewrite E in Hf. eapply Forall_impl; [exact Hf|].
    intros x [_ Hx]%follows_from. by apply Hx.
  - eapply Forall_impl; [exact Hf|]. intros x [Hx _]%follows_from. exact Hx.
Qed.

(** ** Sequences of operations *)

Inductive exec_ops : list StoreOp → Store → Store → Prop :=
| exec_nil s : exec_ops [] s s
| exec_cons op ops s s' s'' :
    op_ok op → after_op op s s' → exec_ops ops s' s'' → exec_ops (op :: ops) s s''.

(** The version of a transfer counts the writes to it, modulo the width. *)
Lemma step_version s s' id t :
  store_step s s' → transfers s !! id = Some t →
  ∃ t' k, transfers s' !! id = Some t' ∧ 0 <= k <= 1 ∧ (version t' = version t ∧ k = 0 ∨ version t' = wrap I32 (version t + k)).
Proof.
  intros [[b [->|(j & u & u' & Hc)]]|(u & _ & Hu & ->)] Hl.
  - exists t, 0. split_and!; auto; lia.
  - rewrite (ch_after _ _ _ _ _ _ Hc). destruct (decide (id = j)) as [->|Hne].
    + rewrite (ch_before _ _ _ _ _ _ Hc) in Hl. injection Hl as ->. rewrite lookup_insert_eq.
      destruct (ch_version _ _ _ _ _ _ Hc) as [E|[E _]]; [exists u', 1|exists u', 0]; split_and!; auto; lia.
    + rewrite lookup_insert_ne by done. exists t, 0. split_and!; auto; lia.
  - unfold update. cbn. rewrite lookup_insert_ne by congruence. exists t, 0. split_and!; auto; lia.
Qed.

Lemma ops_version ops s s' id t :
  exec_ops ops s s' → transfers s !! id = Some t →
  ∃ t' k, transfers s' !! id = Some t' ∧ 0 <= k <= Z.of_nat (length ops) ∧
          (version t' = version t ∧ k = 0 ∨ version t' = wrap I32 (version t + k)).
Proof.
  intros H. revert t. induction H as [s|op ops s s' s'' Hok Ha _ IH]; intros t Hl.
  - exists t, 0. split_and!; auto; lia.
  - destruct (step_version _ _ _ _ (after_op_step _ _ _ Hok Ha) Hl) as (u & k1 & Hu & Hk1 & E1).
    destruct (IH _ Hu) as (v & k2 & Hv & Hk2 & E2). exists v, (k1 + k2). rewrite length_cons.
    split_and!; [done|lia|lia|]. destruct E1 as [[E1 ->]|E1], E2 as [[E2 ->]|E2].
    + left. split; [congruence|lia].
    + right. by rewrite E2, E1, Z.add_0_l.
    + right. rewrite E2, E1. by rewrite Z.add_0_r.
    + right. rewrite E2, E1, wrap_add_l. f_equal. lia.
Qed.

(** The version that an operation expects its transfer to have. *)
Definition op_version (op : StoreOp) : option (Uuid * Z) :=
  match op with
  | OpTransition _ _ id ev _ _ | OpApproval _ id ev _ _ | OpMintPrepared _ _ id ev _ _ _
  | OpMintSubmission _ _ id ev _ | OpMintCompleted _ _ id ev | OpVerifiedBurn _ id ev _ => Some (id, ev)
  | _ => None
  end.

(** The version that a write leaves. *)
Definition bumped id ev s s' : Prop :=
  s' = s ∨ ∃ t', transfers s' !! id = Some t' ∧ version t' = wrap I32 (ev + 1).

Lemma bumped_edited id ev s t H N :
  version t = wrap I32 (ev + 1) → bumped id ev s (edited s id t H N).
Proof. intros E. right. exists t. split; [apply lookup_insert_eq|done]. Qed.

Lemma bumped_core id ev s t v H N :
  core t = v → v.1.1.1.2 = wrap I32 (ev + 1) → bumped id ev s (edited s id t H N).
Proof. intros <-. apply bumped_edited. Qed.

Ltac solve_bumped :=
  rewrite ?patch_before_nonce_core, ?patch_after_nonce_core, ?patch_payloads_core, ?terminal_core in *;
  apply bumped_edited; unfold core in *; cbn in *; congruence.

Lemma transition_bumps now now' id ev ns p s :
  wp (transition checks now now' id ev ns p) (λ _ s', bumped id ev s s') (λ _, True) s.
Proof.
  unfold transition. apply wp_bind, wp_get_mut; [done|]. intros t Hl.
  op_step. op_step; [done|]. op_step. op_step; [done|]. op_step. op_step; [done|]. enter.
  match goal with Hv : negb (_ =? _) = false |- _ => apply negb_false_iff, Z.eqb_eq in Hv as <- end.
  repeat first [done | op_step]; solve_bumped.
Qed.

Lemma versioned_bumps op id ev s :
  op_version op = Some (id, ev) → wp (exec_op op) (λ _ s', bumped id ev s s') (λ _, True) s.
Proof.
  destruct op; intros [= -> ->]; cbn [exec_op]; apply wp_bind;
    try (eapply wp_mono; [apply transition_bumps|cbn; auto..]).
  - unfold record_approval_submission. op_step. op_step; [done|].
    apply wp_bind, wp_get_mut; [done|]. intros t Hl. op_step. op_step; [done|]. op_step. op_step; [done|].
    match goal with Hv : negb (_ =? _) = false |- _ => apply negb_false_iff, Z.eqb_eq in Hv as <- end.
    op_step; [op_step; op_step; [done|]; op_step; op_step; by left|].
    enter. repeat first [done | op_step]; solve_bumped.
  - unfold record_verified_burn. op_step. op_step; [done|].
    apply wp_bind, wp_get_mut; [done|]. intros t Hl. op_step. op_step; [done|]. op_step. op_step; [done|].
    match goal with Hv : negb (_ =? _) = false |- _ => apply negb_false_iff, Z.eqb_eq in Hv as <- end.
    enter. repeat first [done | op_step]; solve_bumped.
Qed.

(** An operation that expects another version fails and writes nothing. *)
Lemma stale_version_fails op id ev s t :
  op_version op = Some (id, ev) → transfers s !! id = Some t → version t ≠ ev →
  exec_op op s = Failed CctpStoreError.VersionConflict s ∨
  exec_op op s = Failed CctpStoreError.PayloadTooLarge s.
Proof.
  intros Hop Hl Hv%Z.eqb_neq.
  assert (Htr : ∀ now now' ns p, transition checks now now' id ev ns p s = Failed CctpStoreError.VersionConflict s).
  { intros. unfold transition, get_mut, lookup_transfer, bind. rewrite Hl. cbn. by rewrite Hv. }
  destruct op; try discriminate Hop; injection Hop as -> ->; cbn [exec_op]; unfold discard, bind at 1; rewrite ?Htr; auto;
    unfold record_mint_prepared, record_mint_submission, record_mint_completed; rewrite ?Htr; auto.
  - unfold record_approval_submission, check, get_mut, lookup_transfer, bind.
    destruct (check_str_len _ _ _); cbn; [|by right]. rewrite Hl. cbn. rewrite Hv. by left.
  - unfold record_verified_burn, check, get_mut, lookup_transfer, bind.
    destruct (check_str_len _ _ _); cbn; [|by right]. rewrite Hl. cbn. rewrite Hv. by left.
Qed.

(** C22: optimistic concurrency. Once an operation that expected version [ev] of a
    transfer has written, no other operation that read the same version can write:
    it fails, and leaves the store as it is, for the next [2^32 - 2] operations of
    any kind, after which a wrapping counter could come back. *)
Theorem no_lost_update op1 op2 ops s s1 s2 id ev :
  op_version op1 = Some (id, ev) → exec_op op1 s = Done tt s1 → s1 ≠ s →
  exec_ops ops s1 s2 → Z.of_nat (length ops) < 2 ^ 32 - 1 →
  op_version op2 = Some (id, ev) →
  exec_op op2 s2 = Failed CctpStoreError.VersionConflict s2 ∨
  exec_op op2 s2 = Failed CctpStoreError.PayloadTooLarge s2.
Proof.
  intros H1 E1 Hw Hops Hlen H2. pose proof (versioned_bumps _ _ _ s H1) as Hb.
  unfold wp in Hb. rewrite E1 in Hb. destruct Hb as [?|(t & Hl & Hv)]; [done|].
  destruct (ops_version _ _ _ _ _ Hops Hl) as (t' & k & Hl' & Hk & Hv').
  apply (stale_version_fails _ id ev s2 t' H2 Hl').
  assert (Hw' : version t' = wrap I32 (ev + (1 + k))).
  { destruct Hv' as [[-> ->]| ->]; [by rewrite Hv|]. rewrite Hv, wrap_add_l. f_equal. lia. }
  rewrite Hw'. apply wrap_add_ne. cbn. lia.
Qed.

(** ** Poll leases *)

Definition polls id (op : StoreOp) : bool :=
  match op with
  | OpPollLease _ j _ _ => bool_decide (j = id)
  | _ => false
  end.

(** Operations other than the polls of a transfer keep its lease. *)
Definition same_lease id s s' : Prop := ∀ t, transfers s !! id = Some t →
  ∃ t', transfers s' !! id = Some t' ∧ poll_lease_until t' = poll_lease_until t ∧
        last_polled_at t' = last_polled_at t.

Lemma moves_same_lease id s s' : moves false s s' → same_lease id s s'.
Proof.
  intros [->|(j & u & u' & Hc)] t Hl; [by eauto|]. rewrite (ch_after _ _ _ _ _ _ Hc).
  destruct (decide (id = j)) as [->|Hne].
  - rewrite (ch_before _ _ _ _ _ _ Hc) in Hl. injection Hl as ->. exists u'.
    rewrite lookup_insert_eq. destruct (ch_poll _ _ _ _ _ _ Hc eq_refl) as [-> ->]. done.
  - rewrite lookup_insert_ne by done. by eauto.
Qed.

Lemma wp_same_lease {A} (m : St A) id s :
  wp m (λ _ s', moves false s s') (moves false s) s →
  wp (discard m) (λ _ s', same_lease id s s') (same_lease id s) s.
Proof. intros H. apply wp_bind. eapply wp_mono; [exact H|..]; cbn; intros; by apply moves_same_lease. Qed.

Lemma other_poll_lease now j id l i s : j ≠ id →
  wp (discard (try_acquire_poll_lease now j l i)) (λ _ s', same_lease id s s') (same_lease id s) s.
Proof.
  intros Hne. apply wp_bind. unfold try_acquire_poll_lease. op_step. op_step. op_step.
  - op_step; [op_step; op_step; intros t Hl; by eauto|]. enter. repeat op_step. intros t Hl. exists t.
    unfold edited. cbn. by rewrite lookup_insert_ne.
  - op_step. op_step. intros t Hl. by eauto.
Qed.

Lemma exec_same_lease op id s :
  polls id op = false → wp (exec_op op) (λ _ s', same_lease id s s') (same_lease id s) s.
Proof.
  intros Hp. destruct op; cbn [exec_op].
  1: { unfold insert. do 2 wp_step. wp_step. wp_step; [intros ? ?; by eauto|]. unfold wp. intros u Hu.
       exists u. unfold update. cbn. rewrite lookup_insert_ne; [done|]. intros E.
       destruct (transfers s !! transfer_id t) eqn:?; [done|congruence]. }
  1: { cbn in Hp. case_bool_decide; [done|]. by apply other_poll_lease. }
  all: apply wp_same_lease.
  - apply claim_reattest_moves.
  - apply reattest_success_moves.
  - apply reattest_failure_moves.
  - apply transition_moves.
  - apply approval_moves.
  - apply transition_moves.
  - apply transition_moves.
  - apply transition_moves.
  - apply verified_burn_moves.
Qed.

Lemma ops_same_lease ops id s s' :
  exec_ops ops s s' → Forall (λ op, polls id op = false) ops → same_lease id s s'.
Proof.
  induction 1 as [s|op ops s s' s'' Hok Ha _ IH]; intros Hp t Hl; [by eauto|].
  apply Forall_cons in Hp as [Hp Hps]. pose proof (exec_same_lease op id s Hp) as H. unfold wp in H.
  assert (Hs : same_lease id s s') by (by destruct Ha as [E|[e E]]; rewrite E in H).
  destruct (Hs _ Hl) as (u & Hu & E1 & E2). destruct (IH Hps _ Hu) as (v & Hv & E3 & E4).
  exists v. split; [done|]. split; congruence.
Qed.

(** The transfer that a grant leaves. *)
Lemma granted now id l i s t s1 :
  try_acquire_poll_lease now id l i s = Done (Some (t, Acquired)) s1 →
  ∃ t1, transfers s1 !! id = Some t1 ∧ poll_lease_until t1 = Some (plus_seconds now l) ∧
        last_polled_at t1 = Some now.
Proof.
  intros E.
  assert (H : wp (try_acquire_poll_lease now id l i) (λ r s', r = Some (t, Acquired) →
            ∃ t1, transfers s' !! id = Some t1 ∧ poll_lease_until t1 = Some (plus_seconds now l) ∧
                  last_polled_at t1 = Some now) (λ _, True) s).
  { unfold try_acquire_poll_lease. op_step. op_step. op_step; [|by op_step].
    op_step; [by op_step|]. enter. op_step. apply wp_modify_edited. op_step. op_step. op_step.
    intros _. eexists. split; [apply lookup_insert_eq|]. done. }
  unfold wp in H. rewrite E in H. by apply H.
Qed.

(** A poll lease excludes every other poller. After a lease on a transfer was
    granted at [now1], and whatever the store did since apart from polling that
    transfer, a poll at [now2] is granted exactly when the lease has run out and
    the minimal interval has passed; otherwise it is skipped and writes nothing. *)
Theorem poll_lease_exclusive now1 now2 id l1 i1 l2 i2 s s1 s2 t1 ops :
  try_acquire_poll_lease now1 id l1 i1 s = Done (Some (t1, Acquired)) s1 →
  exec_ops ops s1 s2 → Forall (λ op, polls id op = false) ops →
  ∃ t2, if dt_lt now2 (plus_seconds now1 l1) || dt_lt now2 (plus_seconds now1 i2)
        then try_acquire_poll_lease now2 id l2 i2 s2 = Done (Some (t2, Skipped)) s2
        else ∃ s3, try_acquire_poll_lease now2 id l2 i2 s2 = Done (Some (t2, Acquired)) s3 ∧
                   poll_lease_until t2 = Some (plus_seconds now2 l2) ∧ last_polled_at t2 = Some now2.
Proof.
  intros (u & Hu & E1 & E2)%granted Hops Hp. destruct (ops_same_lease _ _ _ _ Hops Hp _ Hu) as (v & Hv & E3 & E4).
  rewrite E1 in E3. rewrite E2 in E4.
  unfold try_acquire_poll_lease, lookup_transfer, bind, ret, modify, cloned, get_mut.
  rewrite Hv, E3, E4. cbn. rewrite negb_involutive.
  destruct (_ || _); [by eauto|]. unfold bind, lookup_transfer. cbn. rewrite lookup_alter_eq, Hv. cbn. by eauto.
Qed.

(** ** Failures *)

(** The nonce that another transfer holds. *)
Definition nonce_conflict id (p : TransferPatch) s : Prop := ∃ n t other,
  p_message_nonce p = Some n ∧ transfers s !! id = Some t ∧
  message_nonces s !! (source_chain_id t, n) = Some other ∧ other ≠ id.

Lemma transition_fails now now' id ev ns p s :
  wp (transition checks now now' id ev ns p) (λ _ _, True) (λ s', s' = s ∨ nonce_conflict id p s) s.
Proof.
  unfold transition. apply wp_bind, wp_get_mut; [by left|]. intros t Hl.
  op_step. op_step; [by left|]. op_step. op_step; [by left|]. op_step. op_step; [by left|].
  pose proof (edited_start s id t Hl) as Hs. enter. op_step. op_step.
  all: repeat first [done | op_step].
  all: first [by left | right; by repeat eexists].
Qed.

Definition is_transition (op : StoreOp) : bool :=
  match op with
  | OpTransition _ _ _ _ _ _ => true
  | _ => false
  end.

Lemma other_op_fails op s :
  is_transition op = false →
  wp (exec_op op) (λ _ _, True) (λ s', s' = s) s.
Proof.
  intros Hop. destruct op; cbn [exec_op]; [unfold insert; by repeat wp_step|try apply wp_bind..].
  - unfold try_acquire_poll_lease. op_step. op_step. op_step; [op_step; [by op_step|]; enter|by op_step].
    by repeat op_step.
  - unfold claim_reattest_lease. op_step. op_step. op_step; [|by op_step]. op_step; [by op_step|].
    op_step; [by op_step|]. enter. op_step; by repeat op_step.
  - unfold finalize_reattest_success. op_step. op_step. op_step; [|by op_step]. op_step; [by op_step|].
    enter. by repeat op_step.
  - unfold finalize_reattest_failure. op_step. op_step. op_step; [|by op_step]. op_step; [by op_step|].
    enter. by repeat op_step.
  - done.
  - unfold record_approval_submission. op_step. op_step; [done|]. apply wp_bind, wp_get_mut; [done|].
    intros t Hl. op_step. op_step; [done|]. op_step. op_step; [done|]. op_step; [by repeat op_step|].
    enter. by repeat op_step.
  - eapply wp_mono; [apply transition_fails|done|]. by intros s' [|(n & u & o & E & _)].
  - eapply wp_mono; [apply transition_fails|done|]. by intros s' [|(n & u & o & E & _)].
  - eapply wp_mono; [apply transition_fails|done|]. by intros s' [|(n & u & o & E & _)].
  - unfold record_verified_burn. op_step. op_step; [done|]. apply wp_bind, wp_get_mut; [done|].
    intros t Hl. op_step. op_step; [done|]. op_step. op_step; [done|].
    pose proof (edited_start s id t Hl) as Hs. enter. by repeat op_step.
Qed.

(** An operation that fails leaves the store as it was, with one exception: a
    transition whose patch carries a message nonce that another transfer of the
    same source chain holds. *)
Theorem failure_writes_nothing op s e s' :
  exec_op op s = Failed e s' →
  s' = s ∨ ∃ now now' id ev ns p, op = OpTransition now now' id ev ns p ∧ nonce_conflict id p s.
Proof.
  intros E. destruct (is_transition op) eqn:Hop.
  2: { pose proof (other_op_fails op s Hop) as H. unfold wp in H. rewrite E in H. by left. }
  destruct op; try discriminate Hop. pose proof (transition_fails now now' id ev ns p s) as H.
  cbn in E. unfold discard, bind, ret in E. unfold wp in H.
  destruct (transition _ _ _ _ _ _ _ s) eqn:Et; try discriminate E. injection E as <- <-.
  destruct H as [H|H]; [by left|]. right. do 6 eexists. split; [reflexivity|exact H].
Qed.

End Props.

(** ** A concrete clock and a concrete run *)

(** Time stamps as numbers of seconds. *)
#[local] Instance seconds : Time := {| DateTime := Z; dt_lt := Z.ltb; plus_seconds := Z.add |}.

Definition sample_transfer (id : Uuid) : CctpTransfer :=
  mkCctpTransfer id [] [] [] CctpDirection.EvmToStellar $"eip155:1" $"stellar:testnet" [] [] [] []
    [] [] None [] [] CctpFinality.Standard None None None 1000 CctpTransferStatus.Created None None None
    None None None None None 0 None None 0 0 0 None None None None None None None None None None
    None None 0 None.

(** Two transfers; the first runs through all stages, the second stops when it
    presents the nonce of the first. *)
Definition sample_ops : list StoreOp :=
  let tr id v st p := OpTransition 10 10 id v st p in
  let d := default_patch in
  [OpInsert (sample_transfer 1); OpInsert (sample_transfer 2);
   tr 1 0 CctpTransferStatus.BurnPrepared d;
   OpVerifiedBurn 11 1 1 $"0xaa";
   tr 1 2 CctpTransferStatus.AttestationReady (d <| p_message_nonce := Some $"7" |>);
   OpMintPrepared 12 12 1 3 $"h" 90 None;
   OpMintSubmission 13 13 1 4 $"0xcc";
   OpMintCompleted 14 14 1 5;
   tr 2 0 CctpTransferStatus.BurnPrepared d;
   OpVerifiedBurn 15 2 1 $"0xbb"].

(** The stores of a list of operations, newest first. *)
Definition stores (l : list Store) (ops : list StoreOp) : list Store :=
  fold_left (λ l op,
    match l with
    | s :: _ => match exec_op true op s with
                | Done _ s' | Failed _ s' => s' :: l
                | Panicked => l
                end
    | [] => []
    end) ops l.

Lemma stores_run ops l :
  run true l → Forall op_ok ops → run true (stores l ops).
Proof.
  revert l. induction ops as [|op ops IH]; intros l Hr Hok; [done|].
  apply Forall_cons in Hok as [Hop Hok]. cbn. apply IH; [|done]. destruct l as [|s l]; [done|].
  destruct (exec_op true op s) as [[] s'|e s'|] eqn:E; [..|done]; (eapply run_op; [done|exact Hop|]).
  - by left.
  - right. by eexists.
Qed.

(** The store after the first [n] operations of the run, and a transfer in it. *)
Definition sample_stores (n : nat) : list Store := stores [empty_store] (take n sample_ops).

Definition sample_at (n : nat) : Store := default empty_store (head (sample_stores n)).

Definition stored (n : nat) (id : Uuid) : CctpTransfer :=
  default (sample_transfer id) (transfers (sample_at n) !! id).

Lemma stores_ne s l ops : stores (s :: l) ops ≠ [].
Proof.
  revert s l. induction ops as [|op ops IH]; intros s l; [done|]. cbn.
  destruct (exec_op true op s); apply IH.
Qed.

Lemma sample_run n : run true (sample_at n :: tail (sample_stores n)).
Proof.
  assert (H : run true (sample_stores n)).
  { apply stores_run; [constructor|]. apply Forall_take. repeat constructor. }
  unfold sample_at. pose proof (stores_ne empty_store [] (take n sample_ops)) as Hne.
  fold (sample_stores n) in Hne. destruct (sample_stores n); [done|exact H].
Qed.

Lemma burn_evidence_unique_witness :
  source_tx_hash (stored 10 1) = Some $"0xaa" ∧
  (∀ h, source_tx_hash (stored 10 1) = Some h → source_tx_hash (stored 10 2) ≠ Some h).
Proof.
  split; [by vm_compute|].
  apply (burn_evidence_unique true (sample_at 10) (tail (sample_stores 10)) 1 2 (stored 10 1) (stored 10 2)).
  - apply sample_run.
  - by vm_compute.
  - by vm_compute.
  - done.
Defined.

Lemma transfer_stages_witness :
  status (stored 10 1) = CctpTransferStatus.Completed ∧
  sublist [CctpTransferStatus.Created; CctpTransferStatus.BurnPrepared;
           CctpTransferStatus.AwaitingAttestation; CctpTransferStatus.AttestationReady;
           CctpTransferStatus.MintPrepared; CctpTransferStatus.MintSubmitted;
           CctpTransferStatus.Completed] (stages 1 (sample_at 10 :: tail (sample_stores 10))).
Proof.
  split; [by vm_compute|].
  apply (transfer_stages true (sample_at 10) (tail (sample_stores 10)) 1 (stored 10 1)).
  - apply sample_run.
  - by vm_compute.
  - by vm_compute.
Defined.

(** Two operations that read version 0 of the first transfer. *)
Definition competing_op (new_status : CctpTransferStatus) : StoreOp :=
  OpTransition 10 10 1 0 new_status default_patch.

Lemma no_lost_update_witness :
  exec_op true (competing_op CctpTransferStatus.Cancelled) (sample_at 3) =
    Failed CctpStoreError.VersionConflict (sample_at 3) ∨
  exec_op true (competing_op CctpTransferStatus.Cancelled) (sample_at 3) =
    Failed CctpStoreError.PayloadTooLarge (sample_at 3).
Proof.
  apply (no_lost_update true (competing_op CctpTransferStatus.BurnPrepared) _ []
           (sample_at 2) (sample_at 3) (sample_at 3) 1 0).
  - reflexivity.
  - by vm_compute.
  - intros E. apply (f_equal (λ s, status <$> transfers s !! 1)) in E. by vm_compute in E.
  - constructor.
  - cbn. lia.
  - reflexivity.
Defined.

(** A lease of 30 seconds granted at second 20 is still held at second 49. *)
Lemma poll_lease_exclusive_witness :
  match try_acquire_poll_lease (T := seconds) 20 1 30 5 (sample_at 2) with
  | Done _ s1 => ∃ t2, try_acquire_poll_lease (T := seconds) 49 1 30 5 s1 = Done (Some (t2, Skipped)) s1
  | _ => False
  end.
Proof.
  destruct (try_acquire_poll_lease (T := seconds) 20 1 30 5 (sample_at 2)) as [[[t1 []]|] s1| |] eqn:E;
    try (vm_compute in E; discriminate E).
  apply (poll_lease_exclusive (T := seconds) true 20 49 1 30 5 30 5 (sample_at 2) s1 s1 t1 []).
  - exact E.
  - constructor.
  - constructor.
Defined.

(** The second transfer presents the nonce of the first, with other evidence. *)
Definition conflicting_patch : TransferPatch :=
  default_patch <| p_message_nonce := Some $"7" |> <| p_iris_message_hash := Some $"0xdd" |>.

Definition conflicting_op : StoreOp :=
  OpTransition 16 16 2 2 CctpTransferStatus.AttestationReady conflicting_patch.

Lemma failure_writes_nothing_witness :
  exec_op true (OpTransition 16 16 2 7 CctpTransferStatus.Cancelled default_patch) (sample_at 10) =
    Failed CctpStoreError.VersionConflict (sample_at 10) ∧
  (sample_at 10 = sample_at 10 ∨ ∃ now now' id ev ns p,
     OpTransition 16 16 2 7 CctpTransferStatus.Cancelled default_patch = OpTransition now now' id ev ns p ∧
     nonce_conflict id p (sample_at 10)).
Proof.
  split; [by vm_compute|].
  apply (failure_writes_nothing true _ (sample_at 10) CctpStoreError.VersionConflict (sample_at 10)).
  by vm_compute.
Defined.

(** The exception is real: the failed transition has already overwritten the hash
    of the message, while the status and the version stayed. *)
Lemma nonce_conflict_keeps_writes :
  match exec_op true conflicting_op (sample_at 10) with
  | Failed CctpStoreError.InvalidTransition s' =>
      ∃ t', transfers s' !! 2 = Some t' ∧ iris_message_hash (stored 10 2) = None ∧
            iris_message_hash t' = Some $"0xdd" ∧ status t' = status (stored 10 2) ∧
            version t' = version (stored 10 2)
  | _ => False
  end.
Proof. vm_compute. eexists. repeat split. Qed.
