(* ===== verification/CctpLocks.v ===== *)
(** * Idempotency and prepare reservations (api: cctp/idempotency.rs, cctp/prepare_lock.rs)

    The in-memory stores behind two promises of the bridge's API: a quote request
    with an idempotency key creates at most one transfer, and a source account has at
    most one live unsigned payload. Each operation holds the lock of its store; the
    finalization of a quote gives it up between its check, the insertion of the
    transfer and the completion, so these are steps of their own. Clock readings and
    new identifiers are arguments; hashing of requests is a parameter. *)

From stdpp Require Import base decidable strings numbers list gmap.
From S2P Require Import Prelude RustStr Result CctpTypes CctpMessage CctpStore.

Local Open Scope Z_scope.
Local Open Scope str_scope.
Local Open Scope result_scope.
Local Open Scope record_scope.

(** ** idempotency.rs *)

Definition MAX_IDEMPOTENCY_KEY_LEN : Z := 128.
Definition MAX_QUOTE_REQUEST_BYTES : Z := 8192.
Definition IDEMPOTENCY_LEASE_SECS : Z := 30.

Module CctpIdempotencyError.

(** [Database] is not raised by the in-memory store. *)
Inductive CctpIdempotencyError :=
| Store (e : CctpStoreError)
| KeyTooLong
| RequestTooLarge
| Conflict
| PendingInProgress.

End CctpIdempotencyError.

Abbreviation CctpIdempotencyError := CctpIdempotencyError.CctpIdempotencyError (only parsing).

Module IdempotencyState.

Inductive IdempotencyState := Pending | Completed.

End IdempotencyState.

Abbreviation IdempotencyState := IdempotencyState.IdempotencyState (only parsing).

#[export] Instance IdempotencyState_eq_dec : EqDecision IdempotencyState.
Proof. solve_decision. Defined.

Record IdempotencyClaim := mkIdempotencyClaim {
  claim_transfer_id : Uuid;
  claim_state : IdempotencyState;
  is_owner : bool;
  claim_request_hash : Str;
}.

Definition parse_state (raw : Str) : IdempotencyState :=
  if bool_decide (raw = $"completed") then IdempotencyState.Completed else IdempotencyState.Pending.

(** The hash is the hexadecimal SHA-256 digest of the body. *)
Definition hash_quote_request {H : Hex} (sha256 : list Z → list Z) (body : list Z)
    : Result Str CctpIdempotencyError :=
  reject (MAX_QUOTE_REQUEST_BYTES <? Z.of_nat (length body)) CctpIdempotencyError.RequestTooLarge;;
  Ok (hex_encode (sha256 body)).

Definition normalize_idempotency_key (key : Str) : Result Str CctpIdempotencyError :=
  let trimmed := trim key in
  map_err (λ _, CctpIdempotencyError.KeyTooLong)
    (check_str_len $"idempotency_key" trimmed MAX_IDEMPOTENCY_KEY_LEN);;
  reject (bool_decide (trimmed = [])) CctpIdempotencyError.KeyTooLong;;
  Ok trimmed.

Section Idempotency.

Context {T : Time}.

Record IdempotencyEntry := mkIdempotencyEntry {
  request_hash : Str;
  entry_transfer_id : Uuid;
  entry_state : IdempotencyState;
  lease_owner_hash : option Str;
  lease_expires_at : option DateTime;
  entry_expires_at : DateTime;
}.

#[export] Instance eta_IdempotencyEntry : Eta IdempotencyEntry := λ e,
  mkIdempotencyEntry (request_hash e) (entry_transfer_id e) (entry_state e) (lease_owner_hash e)
    (lease_expires_at e) (entry_expires_at e).

(** The table of keys. *)
Abbreviation Entries := (gmap Str IdempotencyEntry).

(** The first step of a claim: an entry past its end is removed. *)
Definition drop_expired (now : DateTime) (key : Str) (entries : Entries) : Entries :=
  match entries !! key with
  | Some entry => if negb (dt_lt now (entry_expires_at entry)) then delete key entries else entries
  | None => entries
  end.

(** [new_id] is the fresh [Uuid::new_v4]. *)
Definition claim_quote (now : DateTime) (new_id : Uuid) (key hash owner : Str) (expires_at : DateTime)
    (entries : Entries) : Result IdempotencyClaim CctpIdempotencyError * Entries :=
  let entries := drop_expired now key entries in
  match entries !! key with
  | Some entry =>
      if bool_decide (request_hash entry ≠ hash) then (Err CctpIdempotencyError.Conflict, entries)
      else if bool_decide (entry_state entry = IdempotencyState.Completed) then
        (Ok (mkIdempotencyClaim (entry_transfer_id entry) IdempotencyState.Completed true (request_hash entry)),
         entries)
      else
        let lease_active := active (lease_expires_at entry) now in
        let is_owner := bool_decide (lease_owner_hash entry = Some owner) in
        if lease_active && negb is_owner then (Err CctpIdempotencyError.PendingInProgress, entries)
        else
          let lease_until := plus_seconds now IDEMPOTENCY_LEASE_SECS in
          (Ok (mkIdempotencyClaim (entry_transfer_id entry) IdempotencyState.Pending true (request_hash entry)),
           <[key := entry <| lease_owner_hash := Some owner |> <| lease_expires_at := Some lease_until |>]> entries)
  | None =>
      let lease_until := plus_seconds now IDEMPOTENCY_LEASE_SECS in
      (Ok (mkIdempotencyClaim new_id IdempotencyState.Pending true hash),
       <[key := mkIdempotencyEntry hash new_id IdempotencyState.Pending (Some owner) (Some lease_until) expires_at]>
         entries)
  end.

(** [finalize_quote], first part: [Ok true] when there is nothing left to do. *)
Definition finalize_check (key owner : Str) (transfer : CctpTransfer) (entries : Entries)
    : Result bool CctpIdempotencyError :=
  match entries !! key with
  | None => Err CctpIdempotencyError.PendingInProgress
  | Some entry =>
      if bool_decide (entry_state entry = IdempotencyState.Completed) then Ok true
      else
        reject (bool_decide (entry_transfer_id entry ≠ transfer_id transfer)) CctpIdempotencyError.Conflict;;
        reject (bool_decide (lease_owner_hash entry ≠ Some owner)) CctpIdempotencyError.PendingInProgress;;
        Ok false
  end.

(** Last part: the entry is marked completed. *)
Definition finalize_complete (key : Str) (entries : Entries) : Result unit CctpIdempotencyError * Entries :=
  match entries !! key with
  | None => (Err CctpIdempotencyError.PendingInProgress, entries)
  | Some entry =>
      (Ok tt, <[key := entry <| entry_state := IdempotencyState.Completed |>
                             <| lease_owner_hash := None |> <| lease_expires_at := None |>]> entries)
  end.

(** The whole of it, when no other task intervenes; [bound] says whether a transfer
    store was bound. The insertion does no arithmetic, so its last case does not arise. *)
Definition finalize_quote (key owner : Str) (transfer : CctpTransfer) (bound : bool)
    (s : Entries * Store) : Result unit CctpIdempotencyError * (Entries * Store) :=
  let (entries, store) := s in
  match finalize_check key owner transfer entries with
  | Err e => (Err e, s)
  | Ok true => (Ok tt, s)
  | Ok false =>
      if negb bound then (Err (CctpIdempotencyError.Store CctpStoreError.NotFound), s)
      else match insert transfer store with
           | Failed e store' => (Err (CctpIdempotencyError.Store e), (entries, store'))
           | Done _ store' =>
               let (r, entries') := finalize_complete key entries in (r, (entries', store'))
           | Panicked => (Err CctpIdempotencyError.PendingInProgress, s)
           end
  end.

Definition expired_key (now : DateTime) (entries : Entries) (k : Str) : bool :=
  match entries !! k with
  | Some e => negb (dt_lt now (entry_expires_at e))
  | None => false
  end.

(** [order] is the order in which the map is iterated. *)
Definition cleanup_expired (now : DateTime) (limit : nat) (order : list Str) (entries : Entries)
    : nat * Entries :=
  let expired := take limit (filter (λ k, expired_key now entries k = true) order) in
  (length expired, foldr delete entries expired).

End Idempotency.

Abbreviation Entries := (gmap Str IdempotencyEntry).

(** ** prepare_lock.rs *)

Definition MAX_PAYLOAD_HASH_LEN : Z := 128.
Definition MAX_PREPARED_PAYLOAD_LEN : Z := 131072.

Module CctpPrepareKind.

Inductive CctpPrepareKind := Approval | Burn | Mint.

Definition as_str (k : CctpPrepareKind) : Str :=
  match k with
  | Approval => $"approval"
  | Burn => $"burn"
  | Mint => $"mint"
  end.

Definition parse_kind (s : Str) : option CctpPrepareKind :=
  if bool_decide (s = $"approval") then Some Approval
  else if bool_decide (s = $"burn") then Some Burn
  else if bool_decide (s = $"mint") then Some Mint
  else None.

End CctpPrepareKind.

Abbreviation CctpPrepareKind := CctpPrepareKind.CctpPrepareKind (only parsing).

Module CctpPrepareLockError.

(** [Database] is not raised by the in-memory store. *)
Inductive CctpPrepareLockError := ActivePrepareExists | PayloadHashMismatch | PayloadTooLarge.

End CctpPrepareLockError.

Abbreviation CctpPrepareLockError := CctpPrepareLockError.CctpPrepareLockError (only parsing).

Section PrepareLock.

Context {T : Time}.

Record CctpActivePrepare := mkCctpActivePrepare {
  source_account : Str;
  prep_transfer_id : Uuid;
  kind : CctpPrepareKind;
  payload_hash : Str;
  prepared_payload : option Str;
  prep_expires_at : DateTime;
  prep_updated_at : DateTime;
}.

#[export] Instance eta_CctpActivePrepare : Eta CctpActivePrepare := λ p,
  mkCctpActivePrepare (source_account p) (prep_transfer_id p) (kind p) (payload_hash p)
    (prepared_payload p) (prep_expires_at p) (prep_updated_at p).

Inductive PrepareAcquireResult :=
| PrepareAcquired
| Idempotent (p : CctpActivePrepare)
| ConflictOtherTransfer (holder_transfer_id : Uuid).

(** The live reservation of each source account. *)
Abbreviation Locks := (gmap Str CctpActivePrepare).

Definition validate_reservation (r : CctpActivePrepare) : Result unit CctpPrepareLockError :=
  reject (bool_decide (payload_hash r = []) || (MAX_PAYLOAD_HASH_LEN <? str_len (payload_hash r)))
    CctpPrepareLockError.PayloadTooLarge;;
  match prepared_payload r with
  | Some payload =>
      reject (bool_decide (payload = []) || (MAX_PREPARED_PAYLOAD_LEN <? str_len payload))
        CctpPrepareLockError.PayloadTooLarge
  | None => Ok tt
  end.

(** [retain]: the entry of [source] goes when it is past its end. *)
Definition purge_expired (now : DateTime) (source : Str) (locks : Locks) : nat * Locks :=
  match locks !! source with
  | Some v => if negb (dt_lt now (prep_expires_at v)) then (1%nat, delete source locks) else (0%nat, locks)
  | None => (0%nat, locks)
  end.

Definition expire_stale_for_source (now : DateTime) (source : Str) (locks : Locks) : nat * Locks :=
  purge_expired now source locks.

(** The clock is read for the purge, for the test of the entry, and for the update. *)
Definition try_acquire (now1 now2 now3 : DateTime) (r : CctpActivePrepare) (locks : Locks)
    : Result PrepareAcquireResult CctpPrepareLockError * Locks :=
  match validate_reservation r with
  | Err e => (Err e, locks)
  | Ok _ =>
      let locks := snd (purge_expired now1 (source_account r) locks) in
      let stored := <[source_account r := r <| prep_updated_at := now3 |>]> in
      match locks !! source_account r with
      | Some existing =>
          if dt_lt now2 (prep_expires_at existing) then
            if bool_decide (prep_transfer_id existing = prep_transfer_id r) then
              if bool_decide (payload_hash existing = payload_hash r) then (Ok (Idempotent existing), locks)
              else (Ok PrepareAcquired, stored locks)
            else (Ok (ConflictOtherTransfer (prep_transfer_id existing)), locks)
          else (Ok PrepareAcquired, stored (delete (source_account r) locks))
      | None => (Ok PrepareAcquired, stored locks)
      end
  end.

Definition release (source : Str) (id : Uuid) (locks : Locks) : bool * Locks :=
  match locks !! source with
  | Some existing =>
      if bool_decide (prep_transfer_id existing = id) then (true, delete source locks) else (false, locks)
  | None => (false, locks)
  end.

Definition get_active (now : DateTime) (source : Str) (locks : Locks) : option CctpActivePrepare * Locks :=
  let locks := snd (purge_expired now source locks) in (locks !! source, locks).

(** [order] is the order in which the map is iterated. *)
Definition get_for_transfer (now : DateTime) (id : Uuid) (order : list Str) (locks : Locks)
    : option CctpActivePrepare * Locks :=
  let locks := filter (λ kv, dt_lt now (prep_expires_at (snd kv)) = true) locks in
  (head (omap (λ k, match locks !! k with
                    | Some v => if bool_decide (prep_transfer_id v = id) then Some v else None
                    | None => None
                    end) order), locks).

End PrepareLock.

Abbreviation Locks := (gmap Str CctpActivePrepare).
