(* ===== verification/CctpLocksProps.v ===== *)
(** * Properties of idempotency keys and prepare reservations

    A key keeps the transfer that its first claim reserved, a completed key has its
    transfer in the store, and a source account is held by one transfer at a time. *)

From stdpp Require Import base decidable strings numbers list gmap.
From Stdlib Require Import ZArith Lia.
From S2P Require Import Prelude RustStr Result CctpTypes CctpMessage CctpStore CctpStoreLogic CctpStoreProps CctpLocks.

Local Open Scope Z_scope.
Local Open Scope str_scope.
Local Open Scope record_scope.

Section Idempotency.

Context {T : Time}.
Implicit Types (entries : Entries) (store : Store) (e : IdempotencyEntry).

(** ** Runs *)

Inductive IdemOp :=
| IClaim (now : DateTime) (new_id : Uuid) (key hash owner : Str) (expires_at : DateTime)
| IFinalize (key owner : Str) (transfer : CctpTransfer) (bound : bool)
| ICleanup (now : DateTime) (limit : nat) (order : list Str).

Definition exec_idem (op : IdemOp) (s : Entries * Store) : Entries * Store :=
  match op with
  | IClaim now id key hash owner x => (snd (claim_quote now id key hash owner x (fst s)), snd s)
  | IFinalize key owner t bound => snd (finalize_quote key owner t bound s)
  | ICleanup now limit order => (snd (cleanup_expired now limit order (fst s)), snd s)
  end.

Definition run_idem (ops : list IdemOp) (s : Entries * Store) : Entries * Store :=
  fold_left (λ s op, exec_idem op s) ops s.

(** The time at which an operation looks for expired entries. *)
Definition idem_time (op : IdemOp) : option DateTime :=
  match op with
  | IClaim now _ _ _ _ _ | ICleanup now _ _ => Some now
  | IFinalize _ _ _ _ => None
  end.

(** All of it happens before [x]. *)
Definition before (x : DateTime) (op : IdemOp) : Prop :=
  match idem_time op with
  | Some now => dt_lt now x = true
  | None => True
  end.

(** ** A reservation stays *)

(** The entry of a key still reserves the same transfer for the same request. *)
Definition same_reservation (key : Str) e entries : Prop := ∃ e',
  entries !! key = Some e' ∧ request_hash e' = request_hash e ∧
  entry_transfer_id e' = entry_transfer_id e ∧ entry_expires_at e' = entry_expires_at e.

Lemma same_refl key e entries : entries !! key = Some e → same_reservation key e entries.
Proof. intros H. by exists e. Qed.

Lemma drop_expired_live now key e entries :
  entries !! key = Some e → dt_lt now (entry_expires_at e) = true → drop_expired now key entries = entries.
Proof. intros Hl Hx. unfold drop_expired. by rewrite Hl, Hx. Qed.

Lemma drop_expired_ne now key key' entries :
  key ≠ key' → drop_expired now key entries !! key' = entries !! key'.
Proof.
  intros Hne. unfold drop_expired. destruct (entries !! key) as [e|]; [|done].
  destruct (negb _); [|done]. by rewrite lookup_delete_ne.
Qed.

Lemma claim_ne now id key key' hash owner x entries :
  key ≠ key' → snd (claim_quote now id key hash owner x entries) !! key' = entries !! key'.
Proof.
  intros Hne. unfold claim_quote. rewrite <- (drop_expired_ne now key key' entries Hne).
  destruct (drop_expired now key entries !! key); [repeat case_match; cbn|cbn]; by rewrite ?lookup_insert_ne.
Qed.

Lemma claim_same now id key key' hash owner x e entries :
  entries !! key' = Some e → dt_lt now (entry_expires_at e) = true →
  same_reservation key' e (snd (claim_quote now id key hash owner x entries)).
Proof.
  intros Hl Hx. destruct (decide (key = key')) as [->|Hne].
  2: { exists e. by rewrite claim_ne. }
  unfold claim_quote. rewrite (drop_expired_live now key' e) by done. rewrite Hl.
  repeat case_match; cbn; try by apply same_refl.
  eexists. rewrite lookup_insert_eq. by split_and!.
Qed.

Lemma finalize_same key key' owner t bound e s :
  fst s !! key' = Some e → same_reservation key' e (fst (snd (finalize_quote key owner t bound s))).
Proof.
  destruct s as [entries store]. cbn [fst]. intros Hl. unfold finalize_quote.
  destruct (finalize_check key owner t entries) as [[]|]; cbn [snd fst]; try by apply same_refl.
  destruct bound; cbn [negb]; [|by apply same_refl].
  destruct (insert t store); cbn [snd fst]; try by apply same_refl.
  unfold finalize_complete. destruct (entries !! key) as [f|] eqn:Ef; cbn [snd fst]; [|by apply same_refl].
  destruct (decide (key = key')) as [->|Hne].
  - eexists. rewrite lookup_insert_eq. replace f with e by congruence. by split_and!.
  - exists e. by rewrite lookup_insert_ne.
Qed.

Lemma foldr_delete_ne (l : list Str) (key : Str) entries :
  key ∉ l → foldr delete entries l !! key = entries !! key.
Proof.
  induction l as [|k l IH]; cbn; [done|]. intros [Hk Hl]%not_elem_of_cons.
  rewrite lookup_delete_ne by congruence. by apply IH.
Qed.

Lemma cleanup_same now limit order key e entries :
  entries !! key = Some e → dt_lt now (entry_expires_at e) = true →
  snd (cleanup_expired now limit order entries) !! key = Some e.
Proof.
  intros Hl Hx. unfold cleanup_expired. cbn [snd]. rewrite foldr_delete_ne; [done|].
  intros Hin. apply elem_of_take in Hin as (i & Hi & _). apply list_elem_of_lookup_2 in Hi.
  apply list_elem_of_filter in Hi as [Hi _]. unfold expired_key in Hi. by rewrite Hl, Hx in Hi.
Qed.

Lemma exec_same op key e s :
  fst s !! key = Some e → before (entry_expires_at e) op → same_reservation key e (fst (exec_idem op s)).
Proof.
  intros Hl Hb. destruct op; cbn [exec_idem fst].
  - by apply claim_same.
  - by apply finalize_same.
  - apply same_refl. by apply cleanup_same.
Qed.

Lemma run_same ops key e s :
  fst s !! key = Some e → Forall (before (entry_expires_at e)) ops →
  same_reservation key e (fst (run_idem ops s)).
Proof.
  revert e s. induction ops as [|op ops IH]; intros e s Hl Hb; cbn; [by apply same_refl|].
  apply Forall_cons in Hb as [Hop Hb]. destruct (exec_same op key e s Hl Hop) as (e' & Hl' & E1 & E2 & E3).
  rewrite <- E3 in Hb. destruct (IH e' _ Hl' Hb) as (e'' & Hl'' & F1 & F2 & F3).
  exists e''. split; [done|]. split_and!; congruence.
Qed.

(** What a successful claim leaves. *)
Lemma claim_leaves now id key hash owner x entries c entries' :
  claim_quote now id key hash owner x entries = (Ok c, entries') →
  ∃ e, entries' !! key = Some e ∧ request_hash e = hash ∧ entry_transfer_id e = claim_transfer_id c.
Proof.
  unfold claim_quote. destruct (drop_expired now key entries !! key) as [e|] eqn:El.
  - case_bool_decide as Hh; [done|]. case_bool_decide.
    + intros [= <- <-]. by exists e.
    + destruct (_ && _); [done|]. intros [= <- <-]. eexists. by rewrite lookup_insert_eq.
  - intros [= <- <-]. eexists. by rewrite lookup_insert_eq.
Qed.

(** Idempotency. After a claim of a key was granted, and whatever claims,
    finalizations and clean-ups the store has served since, a further claim of the
    key before its end never reserves a second transfer: with another request it is
    a conflict, with the same request it returns the transfer of the first claim, or
    is told to wait while another owner's lease is active. *)
Theorem quote_claim_stable now1 id1 key hash owner1 x1 entries0 c entries1 e store1 ops now2 id2 hash2 owner2 x2 :
  claim_quote now1 id1 key hash owner1 x1 entries0 = (Ok c, entries1) →
  entries1 !! key = Some e → Forall (before (entry_expires_at e)) ops →
  dt_lt now2 (entry_expires_at e) = true →
  match fst (claim_quote now2 id2 key hash2 owner2 x2 (fst (run_idem ops (entries1, store1)))) with
  | Ok c2 => hash2 = hash ∧ claim_transfer_id c2 = claim_transfer_id c
  | Err CctpIdempotencyError.Conflict => hash2 ≠ hash
  | Err CctpIdempotencyError.PendingInProgress => hash2 = hash
  | Err _ => False
  end.
Proof.
  intros Hc He Hops Hnow. destruct (claim_leaves _ _ _ _ _ _ _ _ _ Hc) as (e0 & He0 & Hh & Hid).
  replace e0 with e in * by congruence.
  destruct (run_same ops key e (entries1, store1) He Hops) as (e2 & He2 & F1 & F2 & F3).
  unfold claim_quote. rewrite (drop_expired_live now2 key e2) by (rewrite ?F3; done). rewrite He2.
  case_bool_decide as Hne; cbn [fst]; [congruence|].
  case_bool_decide; cbn [fst]; [split; [congruence|cbn; congruence]|].
  destruct (_ && _); cbn [fst]; [congruence|]. split; [congruence|cbn; congruence].
Qed.

(** ** Completed keys *)

Definition completed_stored (s : Entries * Store) : Prop := ∀ key e,
  fst s !! key = Some e → entry_state e = IdempotencyState.Completed →
  is_Some (transfers (snd s) !! entry_transfer_id e).

Lemma claim_completed now id key hash owner x entries key' e :
  snd (claim_quote now id key hash owner x entries) !! key' = Some e →
  entry_state e = IdempotencyState.Completed → entries !! key' = Some e.
Proof.
  destruct (decide (key = key')) as [->|Hne]; [|by rewrite claim_ne].
  assert (Hd : ∀ e, drop_expired now key' entries !! key' = Some e → entries !! key' = Some e).
  { intros e'. unfold drop_expired. destruct (entries !! key') as [e''|] eqn:El; [|congruence].
    destruct (negb _); [by rewrite lookup_delete_eq|congruence]. }
  unfold claim_quote. destruct (drop_expired now key' entries !! key') as [e0|] eqn:El.
  - case_bool_decide; cbn [snd]; [intros He _; by apply Hd; rewrite El, He in *|].
    case_bool_decide as Hc; cbn [snd]; [intros He _; apply Hd; congruence|].
    destruct (_ && _); cbn [snd]; [intros He _; apply Hd; congruence|].
    rewrite lookup_insert_eq. intros [= <-]. by cbn.
  - cbn [snd]. rewrite lookup_insert_eq. by intros [= <-].
Qed.

Lemma insert_stores t store store' :
  insert t store = Done tt store' →
  transfers store' = <[transfer_id t := t]> (transfers store).
Proof.
  unfold insert, bind, lookup_transfer, fail_when, fail, ret. cbn. case_bool_decide; [done|].
  by intros [= <-].
Qed.

Lemma insert_fails t store err store' : insert t store = Failed err store' → store' = store.
Proof.
  unfold insert, bind, lookup_transfer, fail_when, fail, ret. cbn. case_bool_decide; [|done]. by intros [= _ <-].
Qed.

Lemma finalize_completed key owner t bound s :
  completed_stored s → completed_stored (snd (finalize_quote key owner t bound s)).
Proof.
  destruct s as [entries store]. intros Hs. unfold finalize_quote.
  destruct (finalize_check key owner t entries) as [[]|] eqn:Ec; cbn [snd]; try done.
  destruct bound; cbn [negb]; [|done].
  destruct (insert t store) as [[] store'|err store'|] eqn:Ei; cbn [snd]; [|by rewrite (insert_fails _ _ _ _ Ei)|done].
  assert (Hmono : ∀ id, is_Some (transfers store !! id) → is_Some (transfers store' !! id)).
  { intros id [u Hu]. rewrite (insert_stores _ _ _ Ei). destruct (decide (id = transfer_id t)) as [->|].
    - rewrite lookup_insert_eq. by eauto.
    - rewrite lookup_insert_ne by done. by eauto. }
  unfold finalize_complete, finalize_check in *. destruct (entries !! key) as [f|] eqn:Ef; [|done].
  case_bool_decide; [done|]. apply try_Ok in Ec as ([] & Hid%reject_ne & _). cbn [snd].
  intros key' e. cbn [fst snd]. destruct (decide (key = key')) as [->|Hne].
  - rewrite lookup_insert_eq. intros [= <-] _. cbn. rewrite (insert_stores _ _ _ Ei), Hid, lookup_insert_eq. by eauto.
  - rewrite lookup_insert_ne by done. intros Hl Hc. apply Hmono. by eapply Hs.
Qed.

Lemma exec_completed op s : completed_stored s → completed_stored (exec_idem op s).
Proof.
  intros Hs. destruct op; cbn [exec_idem].
  - intros key' e Hl Hc. eapply Hs; [|exact Hc]. by eapply claim_completed.
  - by apply finalize_completed.
  - intros key' e Hl Hc. eapply Hs; [|exact Hc]. cbn [fst] in *. unfold cleanup_expired in Hl. cbn [snd] in Hl.
    revert Hl. generalize (take limit (filter (λ k, expired_key now (fst s) k = true) order)). intros l.
    induction l as [|k l IH]; cbn; [done|]. intros [_ Hl]%lookup_delete_Some. by apply IH.
Qed.

(** A key that reads as completed has its transfer: in every run of claims,
    clean-ups and uninterrupted finalizations from the empty stores, the transfer
    that a completed entry names is in the transfer store. *)
Theorem completed_key_has_transfer ops :
  completed_stored (run_idem ops (∅, empty_store)).
Proof.
  assert (H : ∀ s, completed_stored s → completed_stored (run_idem ops s)).
  { induction ops as [|op ops IH]; intros s Hs; [done|]. cbn. by apply IH, exec_completed. }
  apply H. intros key e. cbn. by rewrite lookup_empty.
Qed.

End Idempotency.

(** ** Reservations *)

Section PrepareLock.

Context {T : Time}.
Implicit Types (locks : Locks) (r p : CctpActivePrepare).

(** Time stamps are ordered. *)
Hypothesis dt_irrefl : ∀ a, dt_lt a a = false.
Hypothesis dt_before : ∀ a b c, dt_lt a b = true → dt_lt c b = false → dt_lt a c = true.

Inductive LockOp :=
| LExpire (now : DateTime) (source : Str)
| LAcquire (now1 now2 now3 : DateTime) (r : CctpActivePrepare)
| LRelease (source : Str) (id : Uuid)
| LGet (now : DateTime) (source : Str)
| LGetFor (now : DateTime) (id : Uuid) (order : list Str).

Definition exec_lock (op : LockOp) (locks : Locks) : Locks :=
  match op with
  | LExpire now source => snd (expire_stale_for_source now source locks)
  | LAcquire now1 now2 now3 r => snd (try_acquire now1 now2 now3 r locks)
  | LRelease source id => snd (release source id locks)
  | LGet now source => snd (get_active now source locks)
  | LGetFor now id order => snd (get_for_transfer now id order locks)
  end.

Definition run_lock (ops : list LockOp) (locks : Locks) : Locks :=
  fold_left (λ locks op, exec_lock op locks) ops locks.

(** The operation happens before [x], and the holder neither releases the account nor
    replaces its reservation by one that ends before [x]. *)
Definition keeps (source : Str) (id : Uuid) (x : DateTime) (op : LockOp) : Prop :=
  match op with
  | LExpire now s | LGet now s => s = source → dt_lt now x = true
  | LAcquire now1 now2 _ r => source_account r = source →
      dt_lt now1 x = true ∧ dt_lt now2 x = true ∧
      (prep_transfer_id r = id → dt_lt (prep_expires_at r) x = false)
  | LRelease s i => ¬ (s = source ∧ i = id)
  | LGetFor now _ _ => dt_lt now x = true
  end.

(** [id] holds [source] at least until [x]. *)
Definition holds_until (source : Str) (id : Uuid) (x : DateTime) locks : Prop := ∃ p,
  locks !! source = Some p ∧ prep_transfer_id p = id ∧ dt_lt (prep_expires_at p) x = false.

Lemma purge_live now source id x locks :
  holds_until source id x locks → dt_lt now x = true → purge_expired now source locks = (0%nat, locks).
Proof.
  intros (p & Hl & _ & Hx) Hn. unfold purge_expired. rewrite Hl. by rewrite (dt_before _ _ _ Hn Hx).
Qed.

Lemma purge_ne now s source locks :
  s ≠ source → snd (purge_expired now s locks) !! source = locks !! source.
Proof.
  intros Hne. unfold purge_expired. destruct (locks !! s); [|done].
  destruct (negb _); cbn; [by rewrite lookup_delete_ne|done].
Qed.

Lemma purge_holds now s source id x locks :
  holds_until source id x locks → (s = source → dt_lt now x = true) →
  holds_until source id x (snd (purge_expired now s locks)).
Proof.
  intros Hh Hn. destruct (decide (s = source)) as [->|Hne].
  - by rewrite (purge_live now source id x) by auto.
  - unfold holds_until. by rewrite purge_ne.
Qed.

Lemma acquire_ne now1 now2 now3 r source locks :
  source_account r ≠ source → snd (try_acquire now1 now2 now3 r locks) !! source = locks !! source.
Proof.
  intros Hne. unfold try_acquire. destruct (validate_reservation r); [|done].
  rewrite <- (purge_ne now1 (source_account r) source locks Hne).
  repeat case_match; cbn; by rewrite ?lookup_insert_ne, ?lookup_delete_ne.
Qed.

(** A valid request for an account that is held: granted to the holder alone. *)
Lemma acquire_held now1 now2 now3 r id x locks :
  validate_reservation r = Ok tt → holds_until (source_account r) id x locks →
  dt_lt now1 x = true → dt_lt now2 x = true →
  if bool_decide (prep_transfer_id r = id) then
    (∃ p, try_acquire now1 now2 now3 r locks = (Ok (Idempotent p), locks)) ∨
    try_acquire now1 now2 now3 r locks =
      (Ok PrepareAcquired, <[source_account r := r <| prep_updated_at := now3 |>]> locks)
  else try_acquire now1 now2 now3 r locks = (Ok (ConflictOtherTransfer id), locks).
Proof.
  intros Hv Hh H1 H2. unfold try_acquire. rewrite Hv, (purge_live now1 _ id x) by done. cbn [snd].
  destruct Hh as (p & Hl & Hid & Hx). rewrite Hl, (dt_before _ _ _ H2 Hx), Hid.
  case_bool_decide as Hr; [|by rewrite bool_decide_false by congruence].
  rewrite bool_decide_true by congruence. case_bool_decide; [left; by exists p|by right].
Qed.

Lemma acquire_holds now1 now2 now3 r source id x locks :
  holds_until source id x locks → keeps source id x (LAcquire now1 now2 now3 r) →
  holds_until source id x (snd (try_acquire now1 now2 now3 r locks)).
Proof.
  intros Hh Hk. destruct (decide (source_account r = source)) as [<-|Hne].
  2: { unfold holds_until. by rewrite acquire_ne. }
  destruct (Hk eq_refl) as (H1 & H2 & H3). destruct (validate_reservation r) as [[]|] eqn:Ev.
  2: { unfold try_acquire. by rewrite Ev. }
  pose proof (acquire_held now1 now2 now3 r id x locks Ev Hh H1 H2) as Ha.
  case_bool_decide as Hr; [|by rewrite Ha]. destruct Ha as [[p ->]| ->]; [done|]. cbn [snd].
  eexists. rewrite lookup_insert_eq. by auto.
Qed.

Lemma release_holds s i source id x locks :
  holds_until source id x locks → ¬ (s = source ∧ i = id) →
  holds_until source id x (snd (release s i locks)).
Proof.
  intros (p & Hl & Hid & Hx) Hk. exists p. split; [|done]. unfold release.
  destruct (locks !! s) as [q|] eqn:Eq; [|done]. case_bool_decide; [|done]. cbn.
  rewrite lookup_delete_ne; [done|]. intros ->. apply Hk. split; congruence.
Qed.

Lemma exec_holds op source id x locks :
  holds_until source id x locks → keeps source id x op → holds_until source id x (exec_lock op locks).
Proof.
  intros Hh Hk. destruct op; cbn [exec_lock].
  - by apply purge_holds.
  - by apply acquire_holds.
  - by apply release_holds.
  - by apply purge_holds.
  - destruct Hh as (p & Hl & Hid & Hx). exists p. split; [|done]. cbn.
    apply map_lookup_filter_Some. split; [done|]. by apply (dt_before _ _ _ Hk Hx).
Qed.

Lemma run_holds ops source id x locks :
  holds_until source id x locks → Forall (keeps source id x) ops →
  holds_until source id x (run_lock ops locks).
Proof.
  revert locks. induction ops as [|op ops IH]; intros locks Hh Hk; [done|].
  apply Forall_cons in Hk as [Hop Hk]. cbn. apply IH; [by apply exec_holds|done].
Qed.

Lemma acquired_holds now1 now2 now3 r locks locks' :
  try_acquire now1 now2 now3 r locks = (Ok PrepareAcquired, locks') →
  holds_until (source_account r) (prep_transfer_id r) (prep_expires_at r) locks'.
Proof.
  unfold try_acquire. destruct (validate_reservation r); [|done]. intros H.
  exists (r <| prep_updated_at := now3 |>). split; [|split; [done|apply dt_irrefl]].
  repeat case_match; simplify_eq; by rewrite lookup_insert_eq.
Qed.

(** C25: one live payload per source account. Once a reservation was acquired, and
    whatever acquisitions, releases, purges and reads come between, as long as the
    holder has neither released the account nor shortened its reservation, until the
    reservation ends: the account still reads as held by that transfer, and any other
    transfer's valid request is refused, names the holder, and changes nothing. *)
Theorem prepare_exclusive now1 now2 now3 r locks0 locks1 ops now4 now5 now6 r2 :
  try_acquire now1 now2 now3 r locks0 = (Ok PrepareAcquired, locks1) →
  Forall (keeps (source_account r) (prep_transfer_id r) (prep_expires_at r)) ops →
  dt_lt now4 (prep_expires_at r) = true → dt_lt now5 (prep_expires_at r) = true →
  source_account r2 = source_account r → prep_transfer_id r2 ≠ prep_transfer_id r →
  validate_reservation r2 = Ok tt →
  let locks := run_lock ops locks1 in
  try_acquire now4 now5 now6 r2 locks = (Ok (ConflictOtherTransfer (prep_transfer_id r)), locks) ∧
  ∃ p, get_active now4 (source_account r) locks = (Some p, locks) ∧ prep_transfer_id p = prep_transfer_id r.
Proof.
  intros Ha Hk H4 H5 Hs Hne Hv locks.
  assert (Hh : holds_until (source_account r) (prep_transfer_id r) (prep_expires_at r) locks)
    by (apply run_holds; [by eapply acquired_holds|done]).
  split.
  - pose proof (acquire_held now4 now5 now6 r2 (prep_transfer_id r) (prep_expires_at r) locks Hv) as Hc.
    rewrite Hs, bool_decide_false in Hc by done. by apply Hc.
  - unfold get_active. rewrite (purge_live now4 _ (prep_transfer_id r) (prep_expires_at r)) by done.
    destruct Hh as (p & Hl & Hid & _). exists p. cbn. by rewrite Hl.
Qed.

End PrepareLock.

(** ** Concrete runs *)

#[local] Existing Instance seconds.

(** A key claimed at second 10 until second 100, taken over by another owner after
    the lease, finalized by it, and claimed again. *)
Lemma quote_claim_stable_witness :
  let owner1 := $"a" in let owner2 := $"b" in
  let first := claim_quote 10 1 $"key" $"h" owner1 100 ∅ in
  let ops := [IClaim 20 2 $"key" $"h" owner2 120; IClaim 50 3 $"key" $"h" owner2 150;
              IFinalize $"key" owner2 (sample_transfer 1) true; ICleanup 60 10 [$"key"]] in
  match fst (claim_quote 99 4 $"key" $"h" owner1 199 (fst (run_idem ops (snd first, empty_store)))) with
  | Ok c2 => claim_transfer_id c2 = 1
  | Err _ => False
  end.
Proof.
  intros owner1 owner2 first ops.
  assert (Hc : first = (Ok (mkIdempotencyClaim 1 IdempotencyState.Pending true $"h"), snd first)) by reflexivity.
  epose proof (quote_claim_stable (T := seconds) 10 1 $"key" $"h" owner1 100 ∅ _ (snd first) _ empty_store ops 99 4 $"h" owner1 199
                 Hc eq_refl) as H.
  specialize (H ltac:(repeat constructor) eq_refl). revert H.
  destruct (fst (claim_quote (T := seconds) 99 4 _ _ _ _ _)) as [c2|err] eqn:E; [by intros [_ ->]|].
  vm_compute in E. done.
Defined.

(** The run above leaves the key completed, with its transfer stored. *)
Lemma completed_key_has_transfer_witness :
  let ops := [IClaim 10 1 $"key" $"h" $"a" 100; IFinalize $"key" $"a" (sample_transfer 1) true] in
  is_Some (transfers (snd (run_idem ops (∅, empty_store))) !! 1).
Proof.
  intros ops.
  pose (e := mkIdempotencyEntry $"h" 1 IdempotencyState.Completed None None 100).
  exact (completed_key_has_transfer ops $"key" e eq_refl eq_refl).
Defined.

(** The hypothesis that a finalization is not interrupted matters: its completion
    step does not look at the entry again. Here the key expires after the check of
    its first owner, a second request claims it, and the completion of the first
    marks the second's claim completed, whose transfer does not exist. *)
Example interrupted_finalization :
  let claimed := snd (claim_quote 10 1 $"key" $"h" $"a" 100 ∅) in
  let reclaimed := snd (claim_quote 100 2 $"key" $"h2" $"b" 200 claimed) in
  finalize_check $"key" $"a" (sample_transfer 1) claimed = Ok false ∧
  match insert (sample_transfer 1) empty_store with
  | Done _ store => ¬ completed_stored (snd (finalize_complete $"key" reclaimed), store)
  | _ => False
  end.
Proof.
  split; [reflexivity|]. destruct (insert (sample_transfer 1) empty_store) as [[] store| |] eqn:E; [|done..].
  intros H. pose (e := mkIdempotencyEntry $"h2" 2 IdempotencyState.Completed None None 200).
  destruct (H $"key" e eq_refl eq_refl) as [t Ht]. cbn [snd] in Ht. by rewrite (insert_stores _ _ _ E) in Ht.
Qed.

Definition sample_prepare (id : Uuid) (hash : Str) (expires : Z) : CctpActivePrepare :=
  mkCctpActivePrepare $"GSRC" id CctpPrepareKind.Burn hash None expires 0.

(** Transfer 1 holds the account until second 100 and renews its payload; transfer 2
    is refused at second 99. *)
Lemma prepare_exclusive_witness :
  let ops := [LAcquire 20 20 20 (sample_prepare 1 $"h2" 120); LAcquire 30 30 30 (sample_prepare 2 $"h3" 90);
              LRelease $"GSRC" 2; LGetFor 99 1 [$"GSRC"]] in
  let locks1 := snd (try_acquire 10 10 10 (sample_prepare 1 $"h" 100) ∅) in
  fst (try_acquire 99 99 99 (sample_prepare 2 $"h3" 200) (run_lock ops locks1)) = Ok (ConflictOtherTransfer 1).
Proof.
  intros ops locks1.
  destruct (prepare_exclusive (T := seconds) Z.ltb_irrefl ltac:(intros a b c; cbn; lia) 10 10 10
    (sample_prepare 1 $"h" 100) ∅ locks1 ops 99 99 99 (sample_prepare 2 $"h3" 200)) as [-> _];
    [reflexivity| |reflexivity|reflexivity|reflexivity|done|reflexivity|reflexivity].
  repeat constructor; try done. by intros [_ [=]].
Defined.
