(* ===== verification/CctpEncoding.v ===== *)
(** * Bridge amounts, addresses and expectations (api: cctp/encoding.rs, cctp/expectations.rs)

    Decimal amounts and their 6- and 7-digit integer forms, addresses as 32 bytes,
    the hook that names a Stellar recipient, and the message that a transfer leads
    the corridor to expect; with the parts of stellar_muxed.rs, config.rs and
    models/v2_cctp.rs that they use. The [stellar_strkey] crate is a parameter
    ([Strkey]). Code that may panic returns a [Fault]. *)

From stdpp Require Import base decidable strings numbers list.
From S2P Require Import Prelude RustStr Result CctpTypes CctpMessage CctpTrust CctpStore.

Local Open Scope Z_scope.
Local Open Scope str_scope.
Local Open Scope result_scope.

(** ** Parameters *)

(** Account (G), muxed (M) and contract (C) addresses: reading and writing. *)
Class Strkey := {
  account_from_string : Str → option (list Z);
  account_to_string : list Z → Str;
  muxed_from_string : Str → option (list Z * Z);
  muxed_to_string : list Z * Z → Str;
  contract_from_string : Str → option (list Z);
  contract_to_string : list Z → Str;
}.

(** ** Data *)

Module EncodingError.

Inductive EncodingError :=
| InvalidEvmAddress (s : Str)
| InvalidStellarContract (s : Str)
| InvalidStellarAccount (s : Str)
| AmountOverflow
| StellarRemainder (s : Str)
| InvalidHookData.

(** [Display] *)
Definition to_string (e : EncodingError) : Str :=
  match e with
  | InvalidEvmAddress s => $"invalid EVM address: " ++ s
  | InvalidStellarContract s => $"invalid Stellar contract strkey: " ++ s
  | InvalidStellarAccount s => $"invalid Stellar G-address: " ++ s
  | AmountOverflow => $"amount overflow"
  | StellarRemainder s => $"amount has non-zero 7th decimal remainder: " ++ s
  | InvalidHookData => $"invalid hook data"
  end.

End EncodingError.

Abbreviation EncodingError := EncodingError.EncodingError (only parsing).

Module StellarRecipientKey.

Inductive StellarRecipientKey :=
| Account (bytes : list Z)
| Muxed (ed25519 : list Z) (id : Z)
| Contract (bytes : list Z).

End StellarRecipientKey.

Abbreviation StellarRecipientKey := StellarRecipientKey.StellarRecipientKey (only parsing).

#[export] Instance StellarRecipientKey_eq_dec : EqDecision StellarRecipientKey.
Proof. solve_decision. Defined.

Record CctpContractAddresses := mkCctpContractAddresses {
  stellar_token_messenger : Str;
  stellar_message_transmitter : Str;
  stellar_cctp_forwarder : Str;
  stellar_usdc : Str;
  sepolia_token_messenger : Str;
  sepolia_message_transmitter : Str;
  sepolia_usdc : Str;
}.

(** The facts that a burn on the source chain must show (verifiers.rs). *)
Record VerifiedBurnFacts := mkVerifiedBurnFacts {
  f_tx_hash : Str;
  f_source_chain_id : Str;
  f_source_domain : Z;
  f_destination_domain : Z;
  f_sender : Str;
  f_amount_cctp_subunits : Z;
  f_burn_token_bytes32 : list Z;
  f_mint_recipient_bytes32 : list Z;
  f_destination_caller_bytes32 : list Z;
  f_min_finality_threshold : Z;
  f_hook_data : option (list Z);
  f_token_messenger_bytes32 : list Z;
  f_block_or_ledger : option Str;
}.

(** ** Constants (config.rs, models/v2_cctp.rs) *)

Definition STELLAR_CCTP_FORWARDER : Str := $"CA66Q2WFBND6V4UEB7RD4SAXSVIWMD6RA4X3U32ELVFGXV5PJK4T4VSZ".
Definition SEPOLIA_TOKEN_MESSENGER : Str := $"0x8FE6B999Dc680CcFDD5Bf7EB0974218be2542DAA".
Definition SEPOLIA_USDC : Str := $"0x1c7d4b196cb0c7b01d743fbc6116a902379c7238".
Definition STELLAR_TESTNET_CHAIN_ID : Str := $"stellar:testnet".
Definition SEPOLIA_CHAIN_ID : Str := $"eip155:11155111".

Definition corridor_min_finality (f : CctpFinality) : Z :=
  match f with
  | CctpFinality.Standard => FINALITY_STANDARD
  | CctpFinality.Fast => FINALITY_FAST
  end.

(** ** Amounts *)

Definition split_decimal (amount : Str) : Result (Str * Str) (Fault EncodingError) :=
  let parts := split dot amount in
  reject ((2 <? Z.of_nat (length parts)) || bool_decide (parts = [])) (Raised EncodingError.AmountOverflow);;
  Ok (nth 0 parts [], nth 1 parts []).

(** [s[..width]] panics inside a character. *)
Definition pad_fraction (fraction : Str) (width : Z) : Result Str (Fault EncodingError) :=
  if width <? str_len fraction then ok_or (slice_to width fraction) Panic
  else Ok (fraction ++ replicate (Z.to_nat (width - str_len fraction)) 48).

Definition parse_decimal_to_subunits (amount : Str) (scale : Z) : Result Z (Fault EncodingError) :=
  ' (whole, fraction) ← split_decimal amount;
  frac ← pad_fraction fraction scale;
  let combined := whole ++ frac in
  ok_or (parse_uint U128 combined) (Raised EncodingError.AmountOverflow).

Definition decimal_to_cctp_subunits (amount : Str) : Result Z (Fault EncodingError) :=
  parse_decimal_to_subunits amount 6.

Definition cctp_subunits_to_stellar_subunits (cctp : Z) : Result Z (Fault EncodingError) :=
  ok_or (checked_mul U128 cctp 10) (Raised EncodingError.AmountOverflow).

Definition stellar_outbound_cctp_amount (amount_7dp : Str)
    : Result (Z * option Str) (Fault EncodingError) :=
  ' (whole, fraction) ← split_decimal amount_7dp;
  frac7 ← pad_fraction fraction 7;
  frac6 ← ok_or (slice_to 6 frac7) Panic;
  let remainder_digit := nth 6 (as_bytes frac7) 48 in
  cctp ← parse_decimal_to_subunits (whole ++ $"." ++ frac6) 6;
  let remainder :=
    if negb (remainder_digit =? 48) then Some ($"0.000000" ++ [remainder_digit]) else None in
  Ok (cctp, remainder).

Definition stellar_outbound_cctp_amount_strict (amount_7dp : Str) : Result Z (Fault EncodingError) :=
  ' (cctp, rem) ← stellar_outbound_cctp_amount amount_7dp;
  match rem with
  | Some r => Err (Raised (EncodingError.StellarRemainder r))
  | None => Ok cctp
  end.

Definition stellar_local_to_canonical_amount (local : Z) : Result Z (Fault EncodingError) :=
  reject (local <=? 0) (Raised EncodingError.AmountOverflow);;
  reject (negb (Z.rem local 10 =? 0)) (Raised (EncodingError.StellarRemainder (display local)));;
  Ok (Z.quot local 10).

Definition stellar_local_to_canonical_amount_allow_zero (local : Z) : Result Z (Fault EncodingError) :=
  if local =? 0 then Ok 0 else stellar_local_to_canonical_amount local.

Definition canonical_to_stellar_local_amount (canonical : Z) : Result Z (Fault EncodingError) :=
  ok_or (checked_mul I128 canonical 10) (Raised EncodingError.AmountOverflow).

(** ** Addresses *)

Definition is_valid_evm_address (address : Str) : bool :=
  let trimmed := trim address in
  if negb (str_len trimmed =? 42) || negb (starts_with $"0x" trimmed) then false
  else forallb is_ascii_hexdigit (drop 2 trimmed).

(** An optional size check of a copy: [copy_from_slice] panics on other lengths. *)
Definition exact_length (n : nat) (bytes : list Z) : Result (list Z) (Fault EncodingError) :=
  if bool_decide (length bytes = n) then Ok bytes else Err Panic.

Section Encoding.

Context {H : Hex} {S : Strkey}.

Definition evm_address_to_bytes32 (address : Str) : Result (list Z) (Fault EncodingError) :=
  reject (negb (is_valid_evm_address address)) (Raised (EncodingError.InvalidEvmAddress address));;
  let hex := default (trim address) (strip_prefix $"0x" (trim address)) in
  bytes ← ok_or (hex_decode hex) Panic;
  bytes ← exact_length 20 bytes;
  Ok (copy_at 12 bytes (replicate 32 0)).

Definition stellar_contract_to_bytes32 (strkey : Str) : Result (list Z) (Fault EncodingError) :=
  ok_or (contract_from_string (trim strkey)) (Raised (EncodingError.InvalidStellarContract strkey)).

Definition stellar_account_to_bytes32 (g_address : Str) : Result (list Z) (Fault EncodingError) :=
  ok_or (account_from_string (trim g_address)) (Raised (EncodingError.InvalidStellarAccount g_address)).

(** stellar_muxed.rs *)
Definition to_strkey (k : StellarRecipientKey) : Str :=
  match k with
  | StellarRecipientKey.Account bytes => account_to_string bytes
  | StellarRecipientKey.Muxed ed25519 id => muxed_to_string (ed25519, id)
  | StellarRecipientKey.Contract bytes => contract_to_string bytes
  end.

(** The error is the message of [VerifierError::Failed]. *)
Definition parse_recipient_strkey (s : Str) : Result StellarRecipientKey Str :=
  let trimmed := trim s in
  match account_from_string trimmed with
  | Some pk => Ok (StellarRecipientKey.Account pk)
  | None =>
      match muxed_from_string trimmed with
      | Some (ed25519, id) => Ok (StellarRecipientKey.Muxed ed25519 id)
      | None =>
          match contract_from_string trimmed with
          | Some c => Ok (StellarRecipientKey.Contract c)
          | None => Err $"invalid recipient strkey"
          end
      end
  end.

Definition is_contract_key (k : StellarRecipientKey) : bool :=
  match k with
  | StellarRecipientKey.Contract _ => true
  | _ => false
  end.

Definition stellar_recipients_match (expected actual : Str) : Result unit Str :=
  expected_key ← parse_recipient_strkey expected;
  reject (is_contract_key expected_key) $"contract recipient not allowed for corridor";;
  actual_key ← parse_recipient_strkey actual;
  reject (is_contract_key actual_key) $"contract forward recipient unsupported";;
  reject (bool_decide (expected_key ≠ actual_key)) $"recipient mismatch".

Definition build_forwarder_hook_data_recipient (recipient : Str) : Result (list Z) (Fault EncodingError) :=
  key ← map_err (λ _, Raised (EncodingError.InvalidStellarAccount recipient)) (parse_recipient_strkey recipient);
  match key with
  | StellarRecipientKey.Contract _ => Err (Raised EncodingError.InvalidHookData)
  | _ =>
      let recipient_bytes := as_bytes (to_strkey key) in
      let hook := replicate (32 + length recipient_bytes) 0 in
      let hook := copy_at 24 (be_bytes 4 0) hook in
      let hook := copy_at 28 (be_bytes 4 (wrap U32 (Z.of_nat (length recipient_bytes)))) hook in
      Ok (copy_at 32 recipient_bytes hook)
  end.

Definition build_forwarder_hook_data_g_recipient (g_address : Str) : Result (list Z) (Fault EncodingError) :=
  build_forwarder_hook_data_recipient g_address.

(** ** Expectations (expectations.rs) *)

Context {T : Time}.

Definition ANY_DESTINATION_CALLER : list Z := replicate 32 0.

Inductive ExpectationError :=
| Encoding (s : Str)
| UnsupportedDirection.

(** [map_err(|e| ExpectationError::Encoding(e.to_string()))] *)
Definition encoded {A} (r : Result A (Fault EncodingError)) : Result A (Fault ExpectationError) :=
  map_err (map_fault (λ e, Encoding (EncodingError.to_string e))) r.

Definition body_message_sender (transfer : CctpTransfer) (d : CctpDirection)
    : Result (list Z) (Fault ExpectationError) :=
  match d with
  | CctpDirection.StellarToEvm =>
      if bool_decide (sender transfer = []) then Ok (replicate 32 0)
      else encoded (stellar_account_to_bytes32 (sender transfer))
  | CctpDirection.EvmToStellar =>
      if bool_decide (sender transfer = []) then Ok (replicate 32 0)
      else encoded (evm_address_to_bytes32 (sender transfer))
  end.

Definition amount_cctp_subunits (transfer : CctpTransfer) : Result Z (Fault ExpectationError) :=
  match direction transfer with
  | CctpDirection.StellarToEvm =>
      ' (amt, _) ← encoded (stellar_outbound_cctp_amount (amount transfer));
      Ok amt
  | CctpDirection.EvmToStellar => encoded (decimal_to_cctp_subunits (amount transfer))
  end.

Definition build_corridor_expectations (transfer : CctpTransfer) (contracts : CctpContractAddresses)
    : Result CorridorMessageExpectations (Fault ExpectationError) :=
  amount_cctp ← amount_cctp_subunits transfer;
  match direction transfer with
  | CctpDirection.StellarToEvm =>
      burn_token ← encoded (stellar_contract_to_bytes32 (stellar_usdc contracts));
      mint_recipient ← encoded (evm_address_to_bytes32 (recipient transfer));
      body_sender ← body_message_sender transfer CctpDirection.StellarToEvm;
      header_recipient ← encoded (evm_address_to_bytes32 SEPOLIA_TOKEN_MESSENGER);
      header_sender ← encoded (stellar_contract_to_bytes32 (stellar_token_messenger contracts));
      Ok (mkCorridorMessageExpectations STELLAR_TESTNET_DOMAIN SEPOLIA_DOMAIN header_recipient header_sender
            burn_token mint_recipient ANY_DESTINATION_CALLER amount_cctp
            (corridor_min_finality (finality transfer)) body_sender None true)
  | CctpDirection.EvmToStellar =>
      burn_token ← encoded (evm_address_to_bytes32 SEPOLIA_USDC);
      forwarder ← encoded (stellar_contract_to_bytes32 STELLAR_CCTP_FORWARDER);
      hook ← encoded (build_forwarder_hook_data_recipient (recipient transfer));
      body_sender ← body_message_sender transfer CctpDirection.EvmToStellar;
      header_recipient ← encoded (stellar_contract_to_bytes32 (stellar_token_messenger contracts));
      header_sender ← encoded (evm_address_to_bytes32 SEPOLIA_TOKEN_MESSENGER);
      Ok (mkCorridorMessageExpectations SEPOLIA_DOMAIN STELLAR_TESTNET_DOMAIN header_recipient header_sender
            burn_token forwarder forwarder amount_cctp
            (corridor_min_finality (finality transfer)) body_sender (Some hook) false)
  end.

Definition build_expected_burn_facts (transfer : CctpTransfer) (contracts : CctpContractAddresses)
    (tx_hash : Str) : Result VerifiedBurnFacts (Fault ExpectationError) :=
  amount_cctp ← amount_cctp_subunits transfer;
  expectations ← build_corridor_expectations transfer contracts;
  let '(source_chain, source_domain, dest_domain) :=
    match direction transfer with
    | CctpDirection.StellarToEvm => (STELLAR_TESTNET_CHAIN_ID, STELLAR_TESTNET_DOMAIN, SEPOLIA_DOMAIN)
    | CctpDirection.EvmToStellar => (SEPOLIA_CHAIN_ID, SEPOLIA_DOMAIN, STELLAR_TESTNET_DOMAIN)
    end in
  token_messenger ←
    match direction transfer with
    | CctpDirection.StellarToEvm => encoded (stellar_contract_to_bytes32 (stellar_token_messenger contracts))
    | CctpDirection.EvmToStellar => encoded (evm_address_to_bytes32 SEPOLIA_TOKEN_MESSENGER)
    end;
  Ok (mkVerifiedBurnFacts tx_hash source_chain source_domain dest_domain (sender transfer) amount_cctp
        (e_burn_token expectations) (e_mint_recipient expectations) (e_destination_caller expectations)
        (corridor_min_finality (finality transfer)) (e_hook_data expectations) token_messenger None).

End Encoding.

(** ** What verifiers and builders say (api: cctp/verifiers.rs, approval.rs, builders/mod.rs)

    The errors of the verifiers of on-chain facts and of the builders of transactions,
    the facts that are verified, and the comparison of the facts of a burn with those
    that a transfer leads to expect. *)

(** ** verifiers.rs *)

Module VerifierError.

Inductive VerifierError :=
| NotReady
| Transient (s : Str)
| TxNotFound
| Failed (s : Str).

(** [Display] *)
Definition to_string (e : VerifierError) : Str :=
  match e with
  | NotReady => $"not ready"
  | Transient s => $"transient: " ++ s
  | TxNotFound => $"tx not found"
  | Failed s => $"verification failed: " ++ s
  end.

End VerifierError.

Abbreviation VerifierError := VerifierError.VerifierError (only parsing).

Module MintVerifyOutcome.

Inductive MintVerifyOutcome :=
| Pending
| Succeeded
| FailedRetryable (reason : Str)
| ReconciliationNonceConsumed.

End MintVerifyOutcome.

Abbreviation MintVerifyOutcome := MintVerifyOutcome.MintVerifyOutcome (only parsing).

Record VerifiedMintFacts := mkVerifiedMintFacts {
  v_tx_hash : Str;
  v_destination_chain_id : Str;
  v_contract_address : Str;
  v_function_selector : Str;
  v_message_hash : list Z;
  v_attestation_hash : list Z;
  v_nonce : Str;
  v_payload_hash : Str;
  v_outcome : MintVerifyOutcome;
  v_recipient_evidence : option Str;
}.

Definition submission_ok (f : VerifiedMintFacts) : bool :=
  negb (bool_decide (v_payload_hash f = [])) &&
  match v_outcome f with
  | MintVerifyOutcome.Pending | MintVerifyOutcome.Succeeded => true
  | _ => false
  end.

Definition facts_match (expected actual : VerifiedBurnFacts) : Result unit Str :=
  (reject (bool_decide (f_tx_hash expected ≠ f_tx_hash actual)) $"tx_hash";;
   reject (bool_decide (f_source_chain_id expected ≠ f_source_chain_id actual)) $"source_chain_id";;
   reject (negb (f_source_domain expected =? f_source_domain actual)) $"source_domain";;
   reject (negb (f_destination_domain expected =? f_destination_domain actual)) $"destination_domain";;
   reject (negb (f_amount_cctp_subunits expected =? f_amount_cctp_subunits actual)) $"amount";;
   reject (bool_decide (f_burn_token_bytes32 expected ≠ f_burn_token_bytes32 actual)) $"burn_token";;
   reject (bool_decide (f_mint_recipient_bytes32 expected ≠ f_mint_recipient_bytes32 actual)) $"mint_recipient";;
   reject (bool_decide (f_destination_caller_bytes32 expected ≠ f_destination_caller_bytes32 actual))
     $"destination_caller";;
   reject (negb (f_min_finality_threshold expected =? f_min_finality_threshold actual)) $"finality";;
   reject (bool_decide (f_token_messenger_bytes32 expected ≠ f_token_messenger_bytes32 actual)) $"token_messenger";;
   reject (bool_decide (f_sender expected ≠ f_sender actual)) $"sender";;
   reject (bool_decide (f_hook_data expected ≠ f_hook_data actual)) $"hook_data")%result.

(** ** approval.rs *)

Record VerifiedApprovalFacts := mkVerifiedApprovalFacts {
  a_tx_hash : Str;
  a_owner : Str;
  a_token_contract : Str;
  a_spender_contract : Str;
  a_amount : Z;
  a_chain_id : Str;
}.

(** ** builders/mod.rs, models/v2_cctp.rs *)

Module BuilderError.

Inductive BuilderError :=
| NotReady
| QuoteExpired
| FeeExpired
| Validation (s : Str)
| SimulationFailed (s : Str)
| Encoding (s : Str)
| AccountLookup (s : Str).

(** [Display] *)
Definition to_string (e : BuilderError) : Str :=
  match e with
  | NotReady => $"not ready"
  | QuoteExpired => $"quote expired"
  | FeeExpired => $"fee quote expired"
  | Validation s => $"validation: " ++ s
  | SimulationFailed s => $"simulation failed: " ++ s
  | Encoding s => $"encoding: " ++ s
  | AccountLookup s => $"account lookup: " ++ s
  end.

End BuilderError.

Abbreviation BuilderError := BuilderError.BuilderError (only parsing).

Inductive PreparedWalletPayload :=
| StellarXdr (network_passphrase xdr_envelope : Str) (source : option Str)
| EvmTransaction (chain_id to data value : Str).
