(* ===== verification/CctpEncodingProps.v ===== *)
(** * Properties of bridge amounts and expectations

    Decimal strings are rounded down to the unit of the wire, what is left behind is
    reported exactly, integer amounts convert back and forth without loss, and a
    message that validates against the expectations of a transfer carries the amount
    and the recipient of that transfer. *)

From stdpp Require Import base decidable strings numbers list.
From Stdlib Require Import ZArith Lia.
From S2P Require Import Prelude RustStr Result CctpTypes CctpMessage CctpMessageProps CctpTrust CctpStore CctpStoreProps CctpEncoding.

Local Open Scope Z_scope.
Local Open Scope str_scope.
Local Open Scope record_scope.

(** ** Decimal numbers *)

(** The number that a string of digits denotes. *)
Definition dec_value (l : Str) : Z := fold_left (λ acc c, acc * 10 + (c - 48)) l 0.

Definition all_digits (l : Str) : Prop := Forall (λ c, is_ascii_digit c = true) l.

Lemma digit_range c : is_ascii_digit c = true ↔ 48 <= c <= 57.
Proof. unfold is_ascii_digit. rewrite andb_true_iff, !Z.leb_le. done. Qed.

Lemma dec_value_snoc l c : dec_value (l ++ [c]) = dec_value l * 10 + (c - 48).
Proof. unfold dec_value. by rewrite fold_left_app. Qed.

Lemma dec_value_nonneg l : all_digits l → 0 <= dec_value l < 10 ^ Z.of_nat (length l).
Proof.
  induction l as [|c l IH] using rev_ind; [done|]. intros [Hl Hc]%Forall_app.
  apply Forall_cons in Hc as [Hc%digit_range _]. specialize (IH Hl).
  rewrite dec_value_snoc, length_app, Nat.add_1_r, Nat2Z.inj_succ, Z.pow_succ_r by lia.
  generalize dependent (10 ^ Z.of_nat (length l)). intros; lia.
Qed.

Lemma dec_value_app l1 l2 : dec_value (l1 ++ l2) = dec_value l1 * 10 ^ Z.of_nat (length l2) + dec_value l2.
Proof.
  induction l2 as [|c l2 IH] using rev_ind; [rewrite app_nil_r; cbn; lia|].
  rewrite app_assoc, !dec_value_snoc, IH, length_app, Nat.add_1_r, Nat2Z.inj_succ, Z.pow_succ_r by lia. lia.
Qed.

Lemma dec_value_zeros n : dec_value (replicate n 48) = 0.
Proof. induction n as [|n IH]; [done|]. by rewrite replicate_S_end, dec_value_snoc, IH. Qed.

(** Parsing digits is checked evaluation. *)
Lemma parse_digits_value l :
  all_digits l → fold_left (parse_digit U128) l (Some 0) = chk U128 (dec_value l).
Proof.
  induction l as [|c l IH] using rev_ind; [done|]. intros [Hl Hc]%Forall_app.
  apply Forall_cons in Hc as [Hc _]. pose proof (proj1 (digit_range c) Hc).
  pose proof (dec_value_nonneg l Hl) as Hv. rewrite fold_left_app, IH, dec_value_snoc by done. cbn.
  unfold parse_digit, chk. destruct (in_range U128 (dec_value l)) eqn:E1.
  - rewrite Hc. unfold checked_mul, checked_add, chk.
    destruct (in_range U128 (dec_value l * 10)) eqn:E2; [done|].
    destruct (in_range U128 (dec_value l * 10 + (c - 48))) eqn:E3; [|done].
    apply in_range_spec in E3. apply not_true_iff_false in E2. rewrite in_range_spec in E2.
    unfold fits in *. cbn in *. lia.
  - destruct (in_range U128 (dec_value l * 10 + (c - 48))) eqn:E3; [|done].
    apply in_range_spec in E3. apply not_true_iff_false in E1. rewrite in_range_spec in E1.
    unfold fits in *. cbn in *. lia.
Qed.

Lemma parse_uint_value l : all_digits l → l ≠ [] → parse_uint U128 l = chk U128 (dec_value l).
Proof.
  intros Hl Hne. destruct l as [|c l]; [done|]. unfold parse_uint.
  pose proof Hl as Hl'. apply Forall_cons in Hl' as [Hc%digit_range _].
  rewrite (proj2 (Z.eqb_neq c 43)) by lia. by apply parse_digits_value.
Qed.

(** ** Splitting and padding *)

Lemma digit_not_dot l : all_digits l → dot ∉ l.
Proof. intros Hl Hin. unfold all_digits in Hl. rewrite Forall_forall in Hl. by specialize (Hl _ Hin). Qed.

Lemma split_none d s : d ∉ s → split d s = [s].
Proof.
  induction s as [|c s IH]; cbn; [done|]. intros [Hc Hn]%not_elem_of_cons.
  rewrite (proj2 (Z.eqb_neq c d)) by congruence. by rewrite IH.
Qed.

Lemma split_one d a b : d ∉ a → d ∉ b → split d (a ++ d :: b) = [a; b].
Proof.
  induction a as [|c a IH]; cbn; intros Ha Hb.
  - by rewrite Z.eqb_refl, split_none.
  - apply not_elem_of_cons in Ha as [Hc Ha]. rewrite (proj2 (Z.eqb_neq c d)) by congruence. by rewrite IH.
Qed.

(** A decimal string: digits, and after a dot more digits, if there is a dot. *)
Definition decimal (whole : Str) (fraction : option Str) : Str :=
  match fraction with
  | Some f => whole ++ dot :: f
  | None => whole
  end.

Lemma split_decimal_digits w f :
  all_digits w → all_digits (default [] f) → split_decimal (decimal w f) = Ok (w, default [] f).
Proof.
  intros Hw Hf. unfold split_decimal. destruct f as [f|]; cbn [decimal default] in *.
  - rewrite split_one by (by apply digit_not_dot). done.
  - rewrite split_none by (by apply digit_not_dot). done.
Qed.

Lemma digits_ascii l : all_digits l → Forall (λ c, c < 128) l.
Proof. intros Hl. eapply Forall_impl; [exact Hl|]. cbn. intros c Hc%digit_range. lia. Qed.

Lemma slice_to_ascii n l : Forall (λ c, c < 128) l → (n <= length l)%nat → slice_to (Z.of_nat n) l = Some (take n l).
Proof.
  intros Hl. revert n. induction Hl as [|c l Hc _ IH]; intros n Hn.
  - cbn in Hn. by replace n with 0%nat by lia.
  - destruct n as [|n]; [done|]. cbn [slice_to]. rewrite (proj2 (Z.eqb_neq _ _)) by lia.
    unfold utf8_len. rewrite (proj2 (Z.ltb_lt c 128) Hc). rewrite (proj2 (Z.leb_le _ _)) by lia.
    replace (Z.of_nat (S n) - 1) with (Z.of_nat n) by lia. cbn in Hn. by rewrite IH by lia.
Qed.

(** The first [width] digits of a fraction, with zeros after its end. *)
Definition padded (width : nat) (f : Str) : Str := take width (f ++ replicate width 48).

Lemma pad_fraction_digits f (n : nat) : all_digits f → pad_fraction f (Z.of_nat n) = Ok (padded n f).
Proof.
  intros Hf. pose proof (digits_ascii _ Hf) as Ha. unfold pad_fraction, padded. rewrite str_len_ascii by done.
  destruct (Z.ltb_spec (Z.of_nat n) (Z.of_nat (length f))).
  - rewrite slice_to_ascii by (done || lia). cbn. by rewrite take_app_le by lia.
  - rewrite take_app_ge by lia. rewrite take_replicate. do 3 f_equal. lia.
Qed.

Lemma padded_digits n f : all_digits f → all_digits (padded n f).
Proof. intros Hf. apply Forall_take, Forall_app. split; [done|]. by apply Forall_replicate. Qed.

Lemma length_padded n f : length (padded n f) = n.
Proof. unfold padded. rewrite length_take, length_app, length_replicate. lia. Qed.

(** [fixed n w f]: the decimal rounded down to [n] places, in units of the last one. *)
Definition fixed (n : nat) (w f : Str) : Z :=
  dec_value (w ++ f) * 10 ^ Z.of_nat n / 10 ^ Z.of_nat (length f).

Lemma fixed_padded n w f : all_digits w → all_digits f → dec_value (w ++ padded n f) = fixed n w f.
Proof.
  intros Hw Hf. unfold fixed, padded. destruct (decide (n <= length f)%nat) as [Hle|Hgt].
  - rewrite take_app_le by done. rewrite <- (take_drop n f) at 2. rewrite app_assoc, (dec_value_app (w ++ take n f)).
    assert (Hd : all_digits (drop n f)) by (by apply Forall_drop).
    pose proof (dec_value_nonneg _ Hd) as Hr. rewrite length_drop in *.
    replace (10 ^ Z.of_nat (length f)) with (10 ^ Z.of_nat (length f - n) * 10 ^ Z.of_nat n)
      by (rewrite <- Z.pow_add_r by lia; f_equal; lia).
    rewrite Z.div_mul_cancel_r by (apply Z.pow_nonzero; lia).
    rewrite Z.div_add_l by (apply Z.pow_nonzero; lia). rewrite Z.div_small; lia.
  - rewrite take_app_ge, take_replicate, app_assoc, dec_value_app, dec_value_zeros, length_replicate by lia.
    rewrite Nat.min_l by lia.
    replace (10 ^ Z.of_nat n) with (10 ^ Z.of_nat (n - length f) * 10 ^ Z.of_nat (length f))
      by (rewrite <- Z.pow_add_r by lia; f_equal; lia).
    rewrite Z.mul_assoc, Z.div_mul by (apply Z.pow_nonzero; lia). lia.
Qed.

(** Parsing a decimal string is evaluation of its first [scale] places. *)
Lemma parse_decimal_fixed w f (n : nat) :
  all_digits w → all_digits (default [] f) → (0 < n)%nat →
  parse_decimal_to_subunits (decimal w f) (Z.of_nat n) =
    ok_or (chk U128 (fixed n w (default [] f))) (Raised EncodingError.AmountOverflow).
Proof.
  intros Hw Hf Hn. unfold parse_decimal_to_subunits. rewrite split_decimal_digits by done. cbn [try_].
  rewrite pad_fraction_digits by done. cbn [try_]. rewrite parse_uint_value.
  - by rewrite fixed_padded.
  - apply Forall_app. split; [done|by apply padded_digits].
  - intros E%(f_equal length). rewrite length_app, length_padded in E. cbn in E. lia.
Qed.

(** Amounts of EVM transfers. A decimal string becomes the number of millionths
    in it, rounded down, or is rejected when that number exceeds 128 bits. *)
Theorem evm_amount_rounds_down w f :
  all_digits w → all_digits (default [] f) →
  decimal_to_cctp_subunits (decimal w f) =
    (let n := dec_value (w ++ default [] f) * 10 ^ 6 / 10 ^ Z.of_nat (length (default [] f)) in
     if in_range U128 n then Ok n else Err (Raised EncodingError.AmountOverflow)).
Proof.
  intros Hw Hf. unfold decimal_to_cctp_subunits. change 6 with (Z.of_nat 6).
  rewrite parse_decimal_fixed by (done || lia). unfold chk, fixed. change (Z.of_nat 6) with 6.
  cbn zeta. by destruct (in_range U128 _).
Qed.

Lemma as_bytes_ascii l : Forall (λ c, c < 128) l → as_bytes l = l.
Proof.
  induction 1 as [|c l Hc _ IH]; [done|]. unfold as_bytes in *. cbn. rewrite IH.
  unfold utf8. by rewrite (proj2 (Z.ltb_lt c 128) Hc).
Qed.

(** The seven places are the six places and one more digit. *)
Lemma padded_7 f : padded 7 f = padded 6 f ++ [nth 6 (padded 7 f) 48].
Proof.
  assert (E : padded 6 f = take 6 (padded 7 f)).
  { unfold padded. rewrite take_take. change (6 `min` 7)%nat with 6%nat.
    change (replicate 7 48) with (replicate 6 48 ++ [48]). rewrite app_assoc.
    by rewrite (take_app_le (f ++ replicate 6 48)) by (rewrite length_app, length_replicate; lia). }
  rewrite E. pose proof (length_padded 7 f) as Hl.
  destruct (padded 7 f) as [|? [|? [|? [|? [|? [|? [|? [|? ?]]]]]]]]; try discriminate Hl. done.
Qed.

Lemma padded_id n f : length f = n → padded n f = f.
Proof. intros <-. unfold padded. by rewrite take_app_length. Qed.

(** The seventh digit. *)
Definition seventh (f : Str) : Z := nth 6 (padded 7 f) 48.

Lemma seventh_digit f : all_digits f → 48 <= seventh f <= 57.
Proof.
  intros Hf. apply digit_range. pose proof (padded_digits 7 f Hf) as Hp. unfold all_digits in Hp.
  rewrite padded_7 in Hp. apply Forall_app in Hp as [_ Hp]. by apply Forall_cons in Hp as [Hp _].
Qed.

Lemma fixed_7 w f : all_digits w → all_digits f → fixed 7 w f = 10 * fixed 6 w f + (seventh f - 48).
Proof.
  intros Hw Hf. rewrite <- !fixed_padded by done. rewrite padded_7, app_assoc, dec_value_snoc.
  unfold seventh. lia.
Qed.

Lemma outbound_fixed w f :
  all_digits w → all_digits (default [] f) →
  stellar_outbound_cctp_amount (decimal w f) =
    match chk U128 (fixed 6 w (default [] f)) with
    | Some n => Ok (n, if seventh (default [] f) =? 48 then None
                       else Some ($"0.000000" ++ [seventh (default [] f)]))
    | None => Err (Raised EncodingError.AmountOverflow)
    end.
Proof.
  intros Hw Hf. unfold stellar_outbound_cctp_amount. rewrite split_decimal_digits by done. cbn [try_].
  change 7 with (Z.of_nat 7). rewrite pad_fraction_digits by done. cbn [try_].
  pose proof (padded_digits 7 _ Hf) as Hp. pose proof (digits_ascii _ Hp) as Ha.
  change 6 with (Z.of_nat 6). rewrite slice_to_ascii by (rewrite ?length_padded; done || lia). cbn [ok_or try_].
  rewrite as_bytes_ascii by done. fold (seventh (default [] f)).
  replace (take 6 (padded 7 (default [] f))) with (padded 6 (default [] f))
    by (rewrite padded_7, take_app_le, take_ge by (rewrite length_padded; lia); done).
  change (w ++ $"." ++ padded 6 (default [] f)) with (decimal w (Some (padded 6 (default [] f)))).
  rewrite parse_decimal_fixed by (try done; try lia; by apply padded_digits). cbn [default from_option id].
  rewrite <- (fixed_padded 6 w (padded 6 _)) by (done || by apply padded_digits).
  rewrite (padded_id 6) by apply length_padded. rewrite fixed_padded by done.
  destruct (chk U128 _); cbn [ok_or try_]; [|done]. by destruct (seventh _ =? 48).
Qed.

(** Amounts of Stellar transfers, which have seven places. The amount is split
    without loss into millionths, which are sent, and the seventh digit, which stays
    on the account and is reported unless it is zero; the strict form accepts
    exactly the amounts that leave nothing behind. *)
Theorem stellar_amount_split w f :
  all_digits w → all_digits (default [] f) →
  let n7 := dec_value (w ++ default [] f) * 10 ^ 7 / 10 ^ Z.of_nat (length (default [] f)) in
  let dust := n7 mod 10 in
  (stellar_outbound_cctp_amount (decimal w f) =
     if in_range U128 (n7 / 10)
     then Ok (n7 / 10, if dust =? 0 then None else Some ($"0.000000" ++ [48 + dust]))
     else Err (Raised EncodingError.AmountOverflow)) ∧
  (∀ n, stellar_outbound_cctp_amount_strict (decimal w f) = Ok n ↔ n7 = 10 * n ∧ fits U128 n).
Proof.
  intros Hw Hf n7 dust. pose proof (fixed_7 w _ Hw Hf) as H7. pose proof (seventh_digit _ Hf) as Hs.
  change (fixed 7 w (default [] f)) with n7 in H7.
  assert (Hq : n7 / 10 = fixed 6 w (default [] f) ∧ dust = seventh (default [] f) - 48).
  { unfold dust. rewrite H7. split.
    - rewrite (Z.mul_comm 10), Z.div_add_l, Z.div_small by lia. lia.
    - rewrite Z.add_comm, Z.mul_comm, Z.mod_add, Z.mod_small by lia. lia. }
  destruct Hq as [Hq Hd]. split.
  - rewrite outbound_fixed, Hq, Hd by done. unfold chk. destruct (in_range U128 _); [|done].
    replace (48 + (seventh (default [] f) - 48)) with (seventh (default [] f)) by lia.
    destruct (Z.eqb_spec (seventh (default [] f)) 48), (Z.eqb_spec (seventh (default [] f) - 48) 0); (done || lia).
  - intros n. unfold stellar_outbound_cctp_amount_strict. rewrite outbound_fixed by done.
    destruct (chk U128 (fixed 6 w (default [] f))) as [n6|] eqn:E; cbn [try_].
    + apply chk_Some in E as [-> Hfit].
      destruct (Z.eqb_spec (seventh (default [] f)) 48); (split; [intros [= <-]|intros [? ?]]); try done; try lia.
      * split; [lia|done].
      * f_equal. lia.
    + apply chk_None in E. split; [done|]. intros [? Hfit]. exfalso. apply E.
      replace (fixed 6 w (default [] f)) with n by lia. done.
Qed.

(** ** Integer amounts *)

(** Integer amounts convert without loss. Scaling up to seven places and down to
    six are inverse on positive amounts that fit; scaling down rejects exactly the
    amounts that are not positive or not a multiple of ten, never rounding. *)
Theorem stellar_units_roundtrip local canonical :
  fits I128 local →
  (stellar_local_to_canonical_amount local = Ok canonical ↔ 0 < canonical ∧ local = 10 * canonical) ∧
  (0 < canonical →
   canonical_to_stellar_local_amount canonical = Ok local ↔
   stellar_local_to_canonical_amount local = Ok canonical).
Proof.
  intros Hfit.
  assert (Hdown : stellar_local_to_canonical_amount local = Ok canonical ↔ 0 < canonical ∧ local = 10 * canonical).
  { unfold stellar_local_to_canonical_amount. rewrite !try_unit_Ok, reject_Ok, reject_neq, Z.leb_gt. split.
    - intros (Hp & Hr & [= <-]). pose proof (Z.quot_rem' local 10). lia.
    - intros [Hp ->]. split; [lia|]. rewrite Z.mul_comm, Z.rem_mul, Z.quot_mul by lia. done. }
  split; [exact Hdown|]. intros Hp. rewrite Hdown. unfold canonical_to_stellar_local_amount, checked_mul.
  rewrite ok_or_Ok, chk_Some. split; [intros [-> _]; lia|]. intros [_ ->]. split; [lia|].
  by rewrite Z.mul_comm.
Qed.

(** ** From the transfer to the message *)

Section Expectations.

Context {X : Hex} {XOk : HexOk X} {K : Strkey} {T : Time}.

Lemma encoded_Ok {A} (r : Result A (Fault EncodingError)) a : encoded r = Ok a ↔ r = Ok a.
Proof. apply map_err_Ok. Qed.

(** An EVM address as 32 bytes: twelve zeros and the twenty bytes of its digits. *)
Lemma evm_address_layout address out :
  evm_address_to_bytes32 address = Ok out →
  ∃ addr, hex_decode (drop 2 (trim address)) = Some addr ∧ length addr = 20%nat ∧ out = replicate 12 0 ++ addr.
Proof.
  unfold evm_address_to_bytes32. intros H.
  apply try_unit_Ok in H as [Hv%reject_Ok%negb_false_iff H]. cbn zeta in H.
  unfold is_valid_evm_address in Hv. destruct (negb _ || negb _) eqn:Ev; [done|].
  apply orb_false_iff in Ev as [_ Hs%negb_false_iff]. apply starts_with_spec in Hs as [r Hr].
  rewrite Hr in *. rewrite strip_prefix_app in H. cbn [default] in H. rinv.
  match goal with Hd : hex_decode _ = Some ?x, He : exact_length 20 ?x = Ok ?y |- _ =>
    unfold exact_length in He; case_bool_decide as Hl; [|done]; injection He as <-; exists x end.
  split_and!; [done|done|]. unfold copy_at. rewrite Hl. cbn. by rewrite app_nil_r.
Qed.

(** The hook that names a recipient. *)
Definition recipient_hook (key : StellarRecipientKey) : list Z :=
  replicate 28 0 ++ be_bytes 4 (Z.of_nat (length (as_bytes (to_strkey key)))) ++ as_bytes (to_strkey key).

Lemma hook_copy bs v :
  copy_at 32 bs (copy_at 28 (be_bytes 4 v) (copy_at 24 (be_bytes 4 0) (replicate (32 + length bs) 0))) =
  replicate 28 0 ++ be_bytes 4 v ++ bs.
Proof.
  rewrite replicate_add. change (replicate 32 0) with (replicate 24 0 ++ replicate 4 0 ++ replicate 4 0).
  rewrite <- !app_assoc. rewrite !(copy_at_skip 24) by (done || lia). cbn [Nat.sub].
  rewrite copy_at_here by done. change (be_bytes 4 0) with (replicate 4 0).
  rewrite !(copy_at_skip 4 (replicate 4 0)) by (done || lia). cbn [Nat.sub].
  rewrite copy_at_here by (by rewrite length_be_bytes).
  rewrite (copy_at_skip 4 (be_bytes 4 v)) by (apply length_be_bytes || lia).
  cbn [Nat.sub]. rewrite copy_at_all by apply length_replicate. by rewrite app_assoc.
Qed.

Lemma hook_layout r hook :
  build_forwarder_hook_data_recipient r = Ok hook → Z.of_nat (length hook) <= MAX_HOOK_DATA_BYTES →
  ∃ key, parse_recipient_strkey r = Ok key ∧ is_contract_key key = false ∧ hook = recipient_hook key.
Proof.
  unfold build_forwarder_hook_data_recipient. intros H Hlen. apply try_Ok in H as (key & Hk%map_err_Ok & H).
  exists key. split; [done|].
  assert (Hh : is_contract_key key = false ∧
    hook = replicate 28 0 ++ be_bytes 4 (wrap U32 (Z.of_nat (length (as_bytes (to_strkey key))))) ++ as_bytes (to_strkey key)).
  { destruct key; try discriminate H; (split; [done|]); cbn zeta in H; rewrite hook_copy in H; congruence. }
  destruct Hh as [Hc ->]. split; [done|]. unfold recipient_hook. rewrite wrap_id; [done|].
  rewrite !length_app, length_be_bytes, length_replicate in Hlen. unfold fits, MAX_HOOK_DATA_BYTES in *. cbn. lia.
Qed.

(** What a message does for a transfer. *)
Definition fulfils (t : CctpTransfer) (m : ParsedCctpMessage) : Prop :=
  match direction t with
  | CctpDirection.StellarToEvm =>
      m_source_domain m = STELLAR_TESTNET_DOMAIN ∧ m_destination_domain m = SEPOLIA_DOMAIN ∧
      (∃ rem, stellar_outbound_cctp_amount (amount t) = Ok (b_amount (m_body m), rem)) ∧
      (∃ addr, hex_decode (drop 2 (trim (recipient t))) = Some addr ∧ length addr = 20%nat ∧
               b_mint_recipient (m_body m) = replicate 12 0 ++ addr) ∧
      b_hook_data (m_body m) = []
  | CctpDirection.EvmToStellar =>
      m_source_domain m = SEPOLIA_DOMAIN ∧ m_destination_domain m = STELLAR_TESTNET_DOMAIN ∧
      decimal_to_cctp_subunits (amount t) = Ok (b_amount (m_body m)) ∧
      contract_from_string (trim STELLAR_CCTP_FORWARDER) = Some (b_mint_recipient (m_body m)) ∧
      (∃ key, parse_recipient_strkey (recipient t) = Ok key ∧ is_contract_key key = false ∧
              b_hook_data (m_body m) = recipient_hook key)
  end.

Lemma accepted_message_fulfils t contracts e raw m :
  build_corridor_expectations t contracts = Ok e → validate_message_for_corridor raw e = Ok m →
  fulfils t m ∧ corridor_min_finality (finality t) <= m_finality_threshold_executed m.
Proof.
  intros Hb Hv. apply validate_message_iff in Hv as (bytes & _ & _ & _ & _ & Ha).
  apply try_Ok in Hb as (amt & Hamt & Hb).
  assert (Hfin : e_min_finality e = corridor_min_finality (finality t) →
    corridor_min_finality (finality t) <= m_finality_threshold_executed m).
  { intros Ef. destruct Ha as [_ _ _ _ _ _ _ _ _ Hk Hx _ _]. rewrite Ef in Hk. revert Hk Hx.
    unfold corridor_min_finality, FINALITY_FAST, FINALITY_STANDARD.
    destruct (finality t), (Z.leb_spec (m_min_finality_threshold m) 1000); lia. }
  unfold fulfils. unfold amount_cctp_subunits in Hamt. destruct (direction t).
  - apply try_Ok in Hamt as ([a rem] & Ho%encoded_Ok & [= ->]).
    apply try_Ok in Hb as (tok & _ & Hb). apply try_Ok in Hb as (mint & Hm%encoded_Ok & Hb).
    apply try_Ok in Hb as (snd' & _ & Hb). apply try_Ok in Hb as (hr & _ & Hb). apply try_Ok in Hb as (hs & _ & Hb).
    injection Hb as <-. split; [|by apply Hfin]. destruct Ha. cbn [e_source_domain e_destination_domain e_mint_recipient
      e_amount_cctp_subunits e_hook_data e_hook_data_required_empty default from_option id] in *.
    split_and!; [done|done|exists rem; congruence| |done].
    apply evm_address_layout in Hm as (addr & ? & ? & ->). by exists addr.
  - apply encoded_Ok in Hamt. apply try_Ok in Hb as (tok & _ & Hb). apply try_Ok in Hb as (fwd & Hf%encoded_Ok & Hb).
    apply try_Ok in Hb as (hook & Hh%encoded_Ok & Hb). apply try_Ok in Hb as (snd' & _ & Hb).
    apply try_Ok in Hb as (hr & _ & Hb). apply try_Ok in Hb as (hs & _ & Hb).
    injection Hb as <-. split; [|by apply Hfin]. destruct Ha. cbn [e_source_domain e_destination_domain e_mint_recipient
      e_amount_cctp_subunits e_hook_data e_hook_data_required_empty default from_option id] in *.
    apply ok_or_Ok in Hf. split_and!; [done|done|congruence|congruence|].
    destruct (hook_layout _ _ Hh) as (key & ? & ? & ->); [congruence|]. by exists key.
Qed.

(** C19: a message accepted for a transfer fulfils it. If the expectations are built
    from a transfer and a message validates against them, the message goes between
    the domains of the transfer's direction, carries the transfer's amount in
    millionths, and pays the transfer's recipient: to Sepolia as the mint recipient,
    with no hook; to Stellar through the forwarder, with a hook that names the
    recipient and is never a contract. The finality that was executed reaches the one
    that the transfer asked for. *)
Theorem accepted_message_fulfils_transfer t contracts e raw m :
  build_corridor_expectations t contracts = Ok e → validate_message_for_corridor raw e = Ok m →
  fulfils t m ∧ corridor_min_finality (finality t) <= m_finality_threshold_executed m.
Proof. apply accepted_message_fulfils. Qed.

End Expectations.

(** ** Concrete inputs *)

Lemma evm_amount_rounds_down_witness :
  decimal_to_cctp_subunits $"12.3456789" = Ok 12345678.
Proof.
  apply (evm_amount_rounds_down $"12" (Some $"3456789")); by repeat constructor.
Defined.

Lemma stellar_amount_split_witness :
  stellar_outbound_cctp_amount $"12.3456789" = Ok (12345678, Some $"0.0000009").
Proof.
  apply (stellar_amount_split $"12" (Some $"3456789")); by repeat constructor.
Defined.

Lemma stellar_units_roundtrip_witness :
  stellar_local_to_canonical_amount 120 = Ok 12 ↔ 0 < 12 ∧ 120 = 10 * 12.
Proof. apply (stellar_units_roundtrip 120 12). by split. Defined.

(** Addresses that are all the same. *)
#[local] Instance toy_strkey : Strkey := {|
  account_from_string := λ s, if bool_decide (s = $"G") then Some (replicate 32 1) else None;
  account_to_string := λ _, $"G";
  muxed_from_string := λ _, None;
  muxed_to_string := λ _, $"M";
  contract_from_string := λ _, Some (replicate 32 3);
  contract_to_string := λ _, $"C";
|}.

Definition toy_transfer : CctpTransfer :=
  (sample_transfer 1) <| amount := $"12.5" |> <| sender := [] |> <| recipient := $"G" |>.

(** The message that the transfer's expectations describe. *)
Definition toy_expected : CorridorMessageExpectations :=
  match @build_corridor_expectations pairs toy_strkey seconds toy_transfer (mkCctpContractAddresses [] [] [] [] [] [] []) with
  | Ok e => e
  | Err _ => sample_expectations
  end.

Lemma accepted_message_fulfils_transfer_witness :
  b_amount (m_body (synthetic_message toy_expected)) = 12500000 ∧
  @fulfils pairs toy_strkey seconds toy_transfer (synthetic_message toy_expected).
Proof.
  split; [by vm_compute|].
  apply (@accepted_message_fulfils_transfer pairs pairs_ok toy_strkey seconds toy_transfer
           (mkCctpContractAddresses [] [] [] [] [] [] []) toy_expected
           (@encode_message_hex pairs (build_synthetic_cctp_message toy_expected))).
  - by vm_compute.
  - by vm_compute.
Defined.
