(* ===== verification/CctpConfig.v ===== *)
(** * Bridge configuration and quote requests (api: cctp/config.rs, models/v2_cctp.rs)

    The typed configuration of the corridor with its validation (addresses, pass
    phrase, service URLs, limits) and the validation of a quote request against the
    one corridor that is offered. Reading the environment is not modelled: whether
    the deployment is a production one is an argument. The strkey crate is the
    parameter [Strkey] of CctpEncoding. *)

From stdpp Require Import base decidable strings numbers list.
From S2P Require Import Prelude RustStr Result CctpTypes CctpMessage CctpTrust CctpStore CctpEncoding.

Local Open Scope Z_scope.
Local Open Scope str_scope.
Local Open Scope result_scope.

(** ** Strings *)

(** [str::split_once(&str)]: the parts around the first occurrence of [p]. *)
Fixpoint split_once_str (p s : Str) : option (Str * Str) :=
  match strip_prefix p s with
  | Some rest => Some ([], rest)
  | None =>
      match s with
      | [] => None
      | c :: s' =>
          match split_once_str p s' with
          | Some (a, b) => Some (c :: a, b)
          | None => None
          end
      end
  end.

(** [str::rsplit_once(char)]: the parts around the last occurrence. *)
Definition rsplit_once (d : Z) (s : Str) : option (Str * Str) :=
  match split_once d (reverse s) with
  | Some (b, a) => Some (reverse a, reverse b)
  | None => None
  end.

(** [str::trim_end_matches(char)] *)
Definition trim_end_matches (d : Z) (s : Str) : Str :=
  reverse ((fix drop_leading (s : Str) : Str :=
              match s with
              | c :: s' => if c =? d then drop_leading s' else s
              | [] => []
              end) (reverse s)).

(** [s.split(d).next().unwrap_or(s)] *)
Definition first_part (d : Z) (s : Str) : Str := nth 0 (split d s) s.

Definition question_mark : Z := 63.
Definition at_sign : Z := 64.
Definition hash_sign : Z := 35.

(** ** Constants *)

Definition STELLAR_TESTNET_PASSPHRASE : Str := $"Test SDF Network ; September 2015".
Definition DEFAULT_IRIS_SANDBOX_URL : Str := $"https://iris-api-sandbox.circle.com".
Definition IRIS_SANDBOX_HOST : Str := $"iris-api-sandbox.circle.com".
Definition DEFAULT_STELLAR_TESTNET_RPC : Str := $"https://soroban-testnet.stellar.org".
Definition STELLAR_TOKEN_MESSENGER : Str := $"CDNG7HXAPBWICI2E3AUBP3YZWZELJLYSB6F5CC7WLDTLTHVM74SLRTHP".
Definition STELLAR_MESSAGE_TRANSMITTER : Str := $"CBJ6MTCKKZG73PMDZCJMSFRD7DQEMI4FKDH7CGDSV4W6FHCRBCQAVVJY".
Definition STELLAR_USDC_CONTRACT : Str := $"CBIELTK6YBZJU5UP2WWQEUCYKLPU6AUNZ2BQ4WWFEIE3USCIHMXQDAMA".
Definition SEPOLIA_MESSAGE_TRANSMITTER : Str := $"0xE737e5cEBEEBa77EFE34D4aa090756590b1CE275".

Definition CCTP_PROVIDER_ID : Str := $"circle-cctp".
Definition CCTP_TESTNET_CORRIDOR_ID : Str := $"circle-cctp:usdc:stellar-testnet:ethereum-sepolia".
Definition STELLAR_TESTNET_USDC_ASSET : Str :=
  $"erc20:CBIELTK6YBZJU5UP2WWQEUCYKLPU6AUNZ2BQ4WWFEIE3USCIHMXQDAMA".
Definition STELLAR_TESTNET_USDC_CANONICAL : Str :=
  $"stellar:testnet/erc20:CBIELTK6YBZJU5UP2WWQEUCYKLPU6AUNZ2BQ4WWFEIE3USCIHMXQDAMA".
Definition SEPOLIA_USDC_ASSET : Str := $"erc20:0x1c7d4b196cb0c7b01d743fbc6116a902379c7238".
Definition SEPOLIA_USDC_CANONICAL : Str :=
  $"eip155:11155111/erc20:0x1c7d4b196cb0c7b01d743fbc6116a902379c7238".

(** ** Configuration *)

Record CctpConfig := mkCctpConfig {
  enabled : bool;
  iris_base_url : Str;
  stellar_domain : Z;
  sepolia_domain : Z;
  stellar_rpc_url : Str;
  stellar_horizon_url : Str;
  stellar_network_passphrase : Str;
  sepolia_rpc_url : Str;
  amount_cap : Str;
  quote_ttl_secs : Z;
  mint_payload_ttl_secs : Z;
  poll_interval_secs : Z;
  poll_timeout_secs : Z;
  iris_timeout_secs : Z;
  iris_max_retries : Z;
  iris_keys_ttl_secs : Z;
  iris_keys_stale_max_secs : Z;
  attester_snapshot_ttl_secs : Z;
  attester_snapshot_stale_max_secs : Z;
  contracts : CctpContractAddresses;
}.

Module CctpConfigError.

Inductive CctpConfigError :=
| MalformedAddress (s : Str)
| WrongDomainPair
| NonHttpsUrl (s : Str)
| MainnetPassphraseOnTestnet
| ZeroOrUnsafeLimit (s : Str)
| FastModeUnsupported
| InvalidEnv (s : Str).

(** [Display] *)
Definition to_string (e : CctpConfigError) : Str :=
  match e with
  | MalformedAddress a => $"malformed address: " ++ a
  | WrongDomainPair => $"domain/chain pair mismatch"
  | NonHttpsUrl u => $"URL must be HTTPS in non-test builds: " ++ u
  | MainnetPassphraseOnTestnet => $"mainnet passphrase on testnet configuration"
  | ZeroOrUnsafeLimit l => $"unsafe limit: " ++ l
  | FastModeUnsupported => $"fast finality not verified for this corridor"
  | InvalidEnv e => e
  end.

End CctpConfigError.

Abbreviation CctpConfigError := CctpConfigError.CctpConfigError (only parsing).

#[export] Instance CctpConfigError_eq_dec : EqDecision CctpConfigError.
Proof. solve_decision. Defined.

(** [CctpConfig::default_testnet] *)
Definition default_testnet : CctpConfig :=
  mkCctpConfig false DEFAULT_IRIS_SANDBOX_URL STELLAR_TESTNET_DOMAIN SEPOLIA_DOMAIN
    DEFAULT_STELLAR_TESTNET_RPC $"https://horizon-testnet.stellar.org" STELLAR_TESTNET_PASSPHRASE []
    $"100000" 300 600 5 1800 10 2 900 86400 900 86400
    (mkCctpContractAddresses STELLAR_TOKEN_MESSENGER STELLAR_MESSAGE_TRANSMITTER STELLAR_CCTP_FORWARDER
       STELLAR_USDC_CONTRACT SEPOLIA_TOKEN_MESSENGER SEPOLIA_MESSAGE_TRANSMITTER SEPOLIA_USDC).

(** User information and query are removed. *)
Definition redact_url (url : Str) : Str :=
  let '(scheme, rest) :=
    match split_once_str $"//" url with
    | Some (a, b) => (a ++ $"//", b)
    | None => ([], url)
    end in
  let host_path := match rsplit_once at_sign rest with Some (_, b) => b | None => rest end in
  let host_path := first_part question_mark host_path in
  scheme ++ host_path.

Record ParsedServiceUrl := mkParsedServiceUrl {
  scheme : Str;
  host : Str;
  port : option Z;
  path : Str;
}.

Definition parse_service_url (url_str : Str) : Result ParsedServiceUrl CctpConfigError :=
  let bad := CctpConfigError.NonHttpsUrl (redact_url url_str) in
  let trimmed := trim url_str in
  reject (contains trimmed hash_sign || contains trimmed at_sign) bad;;
  let '(scheme, rest) :=
    match split_once_str $"//" trimmed with
    | Some (s, r) => (to_ascii_lowercase (trim_end_matches colon s), r)
    | None => ([], trimmed)
    end in
  reject (bool_decide (scheme ≠ $"https") && bool_decide (scheme ≠ $"http")) bad;;
  let '(host_part, path) :=
    match split_once slash rest with
    | Some (h, p) => (h, $"/" ++ first_part question_mark p)
    | None => (rest, $"/")
    end in
  reject (contains host_part question_mark) bad;;
  ' (host, port) ←
    match rsplit_once colon host_part with
    | Some (h, p) =>
        port ← ok_or (parse_uint U16 p) bad;
        Ok (to_ascii_lowercase h, Some port)
    | None => Ok (to_ascii_lowercase host_part, None)
    end;
  Ok (mkParsedServiceUrl scheme host port path).

Definition validate_iris_url (url : Str) : Result unit CctpConfigError :=
  let bad := CctpConfigError.NonHttpsUrl (redact_url url) in
  parsed ← parse_service_url url;
  reject (bool_decide (host parsed ≠ IRIS_SANDBOX_HOST)) bad;;
  reject (bool_decide (scheme parsed ≠ $"https")) bad;;
  reject (bool_decide (path parsed ≠ $"/") && negb (starts_with $"/v2" (path parsed))) bad.

(** [production] is [is_production()]. *)
Definition validate_https_url (production : bool) (url : Str) : Result unit CctpConfigError :=
  let bad := CctpConfigError.NonHttpsUrl (redact_url url) in
  parsed ← parse_service_url url;
  reject (production && bool_decide (scheme parsed ≠ $"https")) bad;;
  reject (bool_decide (scheme parsed ≠ $"https") && bool_decide (scheme parsed ≠ $"http")) bad.

Definition validate_evm_address (addr : Str) : Result unit CctpConfigError :=
  let trimmed := trim addr in
  reject (negb (str_len trimmed =? 42) || negb (starts_with $"0x" trimmed))
    (CctpConfigError.MalformedAddress addr);;
  reject (negb (forallb is_ascii_hexdigit (drop 2 trimmed))) (CctpConfigError.MalformedAddress addr).

(** [CctpConfig::request_url_matches_allowed_host] *)
Definition request_url_matches_allowed_host (url allowed_host : Str) : Result unit CctpConfigError :=
  let bad := CctpConfigError.NonHttpsUrl (redact_url url) in
  parsed ← parse_service_url url;
  reject (bool_decide (host parsed ≠ to_ascii_lowercase allowed_host)) bad;;
  reject (bool_decide (scheme parsed ≠ $"https")) bad;;
  reject (negb (starts_with $"/v2" (path parsed))) bad.

Section Validation.

Context {S : Strkey}.

Definition validate_stellar_contract (addr : Str) : Result unit CctpConfigError :=
  reject (bool_decide (contract_from_string (trim addr) = None)) (CctpConfigError.MalformedAddress addr).

(** [CctpConfig::validate] *)
Definition validate_config (production : bool) (c : CctpConfig) : Result unit CctpConfigError :=
  reject (negb (stellar_domain c =? STELLAR_TESTNET_DOMAIN) || negb (sepolia_domain c =? SEPOLIA_DOMAIN))
    CctpConfigError.WrongDomainPair;;
  validate_stellar_contract (stellar_token_messenger (contracts c));;
  validate_stellar_contract (stellar_message_transmitter (contracts c));;
  validate_stellar_contract (stellar_cctp_forwarder (contracts c));;
  validate_stellar_contract (stellar_usdc (contracts c));;
  validate_evm_address (sepolia_token_messenger (contracts c));;
  validate_evm_address (sepolia_message_transmitter (contracts c));;
  validate_evm_address (sepolia_usdc (contracts c));;
  reject (contains_str $"Public Global Stellar Network" (stellar_network_passphrase c))
    CctpConfigError.MainnetPassphraseOnTestnet;;
  reject (bool_decide (stellar_network_passphrase c ≠ STELLAR_TESTNET_PASSPHRASE))
    CctpConfigError.WrongDomainPair;;
  validate_iris_url (iris_base_url c);;
  validate_https_url production (stellar_rpc_url c);;
  validate_https_url production (stellar_horizon_url c);;
  (if enabled c then
     reject (bool_decide (trim (sepolia_rpc_url c) = []))
       (CctpConfigError.InvalidEnv
          $"CCTP_ENABLED=true requires CCTP_SEPOLIA_RPC_URL or SEPOLIA_RPC_URL");;
     validate_https_url production (sepolia_rpc_url c)
   else if negb (bool_decide (trim (sepolia_rpc_url c) = [])) then
     validate_https_url production (sepolia_rpc_url c)
   else Ok tt);;
  reject (bool_decide (amount_cap c = []) || (quote_ttl_secs c =? 0) || (poll_interval_secs c =? 0) ||
          (poll_timeout_secs c =? 0) || (iris_timeout_secs c =? 0) || (iris_keys_ttl_secs c =? 0) ||
          (iris_keys_stale_max_secs c =? 0) || (attester_snapshot_ttl_secs c =? 0) ||
          (attester_snapshot_stale_max_secs c =? 0))
    (CctpConfigError.ZeroOrUnsafeLimit $"timing or cap").

Definition is_configured (production : bool) (c : CctpConfig) : bool :=
  match validate_config production c with
  | Ok _ => true
  | Err _ => false
  end.

End Validation.

(** ** Quote requests *)

Record CctpChainAsset := mkCctpChainAsset {
  a_chain_id : Str;
  a_asset : Str;
  a_canonical : Str;
  a_symbol : option Str;
}.

Definition stellar_testnet_usdc : CctpChainAsset :=
  mkCctpChainAsset STELLAR_TESTNET_CHAIN_ID STELLAR_TESTNET_USDC_ASSET STELLAR_TESTNET_USDC_CANONICAL (Some $"USDC").

Definition sepolia_usdc_asset : CctpChainAsset :=
  mkCctpChainAsset SEPOLIA_CHAIN_ID SEPOLIA_USDC_ASSET SEPOLIA_USDC_CANONICAL (Some $"USDC").

Record CctpQuoteRequest := mkCctpQuoteRequest {
  q_corridor_id : Str;
  q_provider : Str;
  q_direction : CctpDirection;
  q_source_chain_id : Str;
  q_destination_chain_id : Str;
  q_source_asset : CctpChainAsset;
  q_destination_asset : CctpChainAsset;
  q_amount : Str;
  q_recipient : Str;
  q_sender : option Str;
  q_mint_submitter : option Str;
  q_finality : CctpFinality;
}.

Module CctpValidationError.

Inductive CctpValidationError :=
| UnsupportedCorridor
| InvalidFinality
| InvalidRecipient
| InvalidAmount
| InvalidSender
| InvalidMintSubmitter
| StellarRemainder.

End CctpValidationError.

Abbreviation CctpValidationError := CctpValidationError.CctpValidationError (only parsing).

#[export] Instance CctpValidationError_eq_dec : EqDecision CctpValidationError.
Proof. solve_decision. Defined.

Definition asset_matches_frozen (asset : CctpChainAsset) (chain_id asset_id canonical : Str) : bool :=
  bool_decide (a_chain_id asset = chain_id) && bool_decide (a_asset asset = asset_id) &&
  bool_decide (a_canonical asset = canonical).

(** The characters that an amount must not contain: space, tab, line feed, carriage
    return, plus, minus, e, E. *)
Definition forbidden_in_amount : list Z := [32; 9; 10; 13; 43; 45; 101; 69].

Definition is_valid_positive_decimal_amount (amount : Str) : bool :=
  if bool_decide (amount = []) || existsb (λ c, bool_decide (c ∈ forbidden_in_amount)) amount then false
  else
    let parts := split dot amount in
    let whole := nth 0 parts [] in
    if bool_decide (whole = []) || negb (forallb is_ascii_digit whole) then false
    else if (1 <? str_len whole) && starts_with $"0" whole then false
    else
      match parts with
      | _ :: fraction :: rest =>
          if negb (bool_decide (rest = [])) || bool_decide (fraction = []) ||
             negb (forallb is_ascii_digit fraction)
          then false
          else negb (bool_decide (whole = $"0") && forallb (λ c, c =? 48) fraction)
      | _ => bool_decide (whole ≠ $"0")
      end.

(** [Uuid] and network input aside: 64 hexadecimal digits, with or without prefix. *)
Definition is_valid_tx_hash (tx_hash : Str) : bool :=
  let trimmed := trim tx_hash in
  if bool_decide (trimmed = []) then false
  else
    match (match strip_prefix $"0x" trimmed with Some h => Some h | None => strip_prefix $"0X" trimmed end) with
    | Some hex => (str_len hex =? 64) && forallb is_ascii_hexdigit hex
    | None => (str_len trimmed =? 64) && forallb is_ascii_hexdigit trimmed
    end.

Section Requests.

Context {S : Strkey}.

Definition is_valid_stellar_recipient (address : Str) : bool :=
  match parse_recipient_strkey address with
  | Ok (StellarRecipientKey.Account _) | Ok (StellarRecipientKey.Muxed _ _) => true
  | _ => false
  end.

Definition is_valid_stellar_account (address : Str) : bool :=
  bool_decide (is_Some (account_from_string (trim address))).

(** [CctpQuoteRequest::validate] *)
Definition validate_request (r : CctpQuoteRequest) : Result unit CctpValidationError :=
  reject (bool_decide (q_corridor_id r ≠ CCTP_TESTNET_CORRIDOR_ID) || bool_decide (q_provider r ≠ CCTP_PROVIDER_ID))
    CctpValidationError.UnsupportedCorridor;;
  let '(source_chain, dest_chain, source_asset, source_canonical, dest_asset, dest_canonical) :=
    match q_direction r with
    | CctpDirection.StellarToEvm =>
        (STELLAR_TESTNET_CHAIN_ID, SEPOLIA_CHAIN_ID, STELLAR_TESTNET_USDC_ASSET, STELLAR_TESTNET_USDC_CANONICAL,
         SEPOLIA_USDC_ASSET, SEPOLIA_USDC_CANONICAL)
    | CctpDirection.EvmToStellar =>
        (SEPOLIA_CHAIN_ID, STELLAR_TESTNET_CHAIN_ID, SEPOLIA_USDC_ASSET, SEPOLIA_USDC_CANONICAL,
         STELLAR_TESTNET_USDC_ASSET, STELLAR_TESTNET_USDC_CANONICAL)
    end in
  reject (bool_decide (q_source_chain_id r ≠ source_chain) || bool_decide (q_destination_chain_id r ≠ dest_chain) ||
          negb (asset_matches_frozen (q_source_asset r) source_chain source_asset source_canonical) ||
          negb (asset_matches_frozen (q_destination_asset r) dest_chain dest_asset dest_canonical))
    CctpValidationError.UnsupportedCorridor;;
  reject (negb (is_valid_positive_decimal_amount (q_amount r))) CctpValidationError.InvalidAmount;;
  match q_direction r with
  | CctpDirection.StellarToEvm =>
      reject (negb (is_valid_evm_address (q_recipient r))) CctpValidationError.InvalidRecipient;;
      sender ← ok_or (q_sender r) CctpValidationError.InvalidSender;
      reject (negb (is_valid_stellar_account sender)) CctpValidationError.InvalidSender
  | CctpDirection.EvmToStellar =>
      reject (negb (is_valid_stellar_recipient (q_recipient r))) CctpValidationError.InvalidRecipient;;
      sender ← ok_or (q_sender r) CctpValidationError.InvalidSender;
      reject (negb (is_valid_evm_address sender)) CctpValidationError.InvalidSender;;
      submitter ← ok_or (q_mint_submitter r) CctpValidationError.InvalidMintSubmitter;
      reject (negb (is_valid_stellar_account submitter)) CctpValidationError.InvalidMintSubmitter
  end.

End Requests.
