(* ===== verification/Soroban.v ===== *)
(** * Soroban transactions of the bridge (api: cctp/stellar_contract_events.rs, stellar_muxed.rs,
      stellar_payload.rs, stellar_tx.rs, builders/stellar/encoder.rs)

    Reading contract values and events, the events of Circle's contracts, the invocation
    in an envelope, the hashes that bind an envelope, and the invocations that the
    builders encode. *)

From stdpp Require Import base decidable strings numbers list.
From Stdlib Require Import ZArith Lia.
From S2P Require Import Prelude RustStr Result Xdr CctpTypes CctpMessage CctpEncoding CctpConfig.

Local Open Scope Z_scope.
Local Open Scope str_scope.
Local Open Scope result_scope.

Local Abbreviation Failed := VerifierError.Failed (only parsing).

(** serde_json of a payload; an error is its message. *)
Class PayloadJson := payload_to_json : PreparedWalletPayload → Result Str Str.

(** ** Values (stellar_contract_events.rs) *)

Definition topic_symbol (topics : list ScVal) (index : nat) : Result Str VerifierError :=
  match topics !! index with
  | Some (ScSymbol sym) => Ok sym
  | _ => Err (Failed $"missing event topic symbol")
  end.

Definition scval_to_address (val : ScVal) : Result ScAddress VerifierError :=
  match val with
  | ScAddr a => Ok a
  | _ => Err (Failed $"expected address")
  end.

Definition scval_to_i128 (val : ScVal) : Result Z VerifierError :=
  match val with
  | ScI128 hi lo => Ok (Z.lor (Z.shiftl hi 64) lo)
  | _ => Err (Failed $"expected i128")
  end.

Definition scval_to_u32 (val : ScVal) : Result Z VerifierError :=
  match val with
  | ScU32 v => Ok v
  | _ => Err (Failed $"expected u32")
  end.

Definition scval_to_bytes32 (val : ScVal) : Result (list Z) VerifierError :=
  match val with
  | ScBytes bytes => if (length bytes =? 32)%nat then Ok bytes else Err (Failed $"expected bytes32")
  | _ => Err (Failed $"expected bytes32")
  end.

Definition scval_to_bytes (val : ScVal) : Result (list Z) VerifierError :=
  match val with
  | ScBytes bytes => Ok bytes
  | _ => Err (Failed $"expected bytes")
  end.

(** stellar_rpc.rs *)
Definition scval_to_bool (val : ScVal) : Result bool VerifierError :=
  match val with
  | ScBool v => Ok v
  | _ => Err (Failed $"expected bool")
  end.

(** The first entry with the key. *)
Fixpoint find_entry (entries : list (ScVal * ScVal)) (key : Str) : option ScVal :=
  match entries with
  | [] => None
  | (ScSymbol sym, val) :: rest => if bool_decide (sym = key) then Some val else find_entry rest key
  | _ :: rest => find_entry rest key
  end.

Definition map_get (data : ScVal) (key : Str) : Result ScVal VerifierError :=
  match data with
  | ScMap (Some entries) => ok_or (find_entry entries key) (Failed ($"missing field " ++ key))
  | _ => Err (Failed $"expected event map")
  end.

Definition contract_hash (event : ContractEvent) : Result (list Z) VerifierError :=
  ok_or (contract_id event) (Failed $"missing contract id").

(** ** Events *)

Record DepositForBurnEvent := mkDepositForBurnEvent {
  d_burn_token : ScAddress;
  d_depositor : ScAddress;
  d_min_finality_threshold : Z;
  d_amount : Z;
  d_mint_recipient : list Z;
  d_destination_domain : Z;
  d_destination_token_messenger : list Z;
  d_destination_caller : list Z;
  d_max_fee : Z;
  d_hook_data : list Z;
}.

Record MessageSentEvent := mkMessageSentEvent { ms_message : list Z }.

Record MessageReceivedEvent := mkMessageReceivedEvent {
  mr_caller : ScAddress;
  mr_nonce : list Z;
  mr_finality_threshold_executed : Z;
  mr_source_domain : Z;
  mr_sender : list Z;
  mr_message_body : list Z;
}.

Record MintAndForwardEvent := mkMintAndForwardEvent {
  mf_forward_recipient : Str;
  mf_token : ScAddress;
  mf_amount : Z;
}.

Definition parse_deposit_for_burn (event : ContractEvent) : Result DepositForBurnEvent VerifierError :=
  name ← topic_symbol (topics event) 0;
  reject (bool_decide (name ≠ $"deposit_for_burn")) (Failed $"wrong event");;
  match topics event with
  | [_; t1; t2; t3] =>
      burn_token ← scval_to_address t1;
      depositor ← scval_to_address t2;
      min_finality_threshold ← scval_to_u32 t3;
      v ← map_get (data event) $"amount";
      amount ← scval_to_i128 v;
      v ← map_get (data event) $"mint_recipient";
      mint_recipient ← scval_to_bytes32 v;
      v ← map_get (data event) $"destination_domain";
      destination_domain ← scval_to_u32 v;
      v ← map_get (data event) $"destination_token_messenger";
      destination_token_messenger ← scval_to_bytes32 v;
      v ← map_get (data event) $"destination_caller";
      destination_caller ← scval_to_bytes32 v;
      v ← map_get (data event) $"max_fee";
      max_fee ← scval_to_i128 v;
      hook_data ← match map_get (data event) $"hook_data" with
                  | Ok ScVoid | Err _ => Ok []
                  | Ok v => scval_to_bytes v
                  end;
      Ok (mkDepositForBurnEvent burn_token depositor min_finality_threshold amount mint_recipient destination_domain
            destination_token_messenger destination_caller max_fee hook_data)
  | _ => Err (Failed $"deposit_for_burn topic count")
  end.

Definition parse_message_sent (event : ContractEvent) : Result MessageSentEvent VerifierError :=
  name ← topic_symbol (topics event) 0;
  reject (bool_decide (name ≠ $"message_sent")) (Failed $"wrong event");;
  reject (negb (length (topics event) =? 1)%nat) (Failed $"message_sent topic count");;
  v ← map_get (data event) $"message";
  message ← scval_to_bytes v;
  map_err Failed (check_byte_len $"message" message MAX_RAW_MESSAGE_BYTES);;
  Ok (mkMessageSentEvent message).

Definition parse_message_received (event : ContractEvent) : Result MessageReceivedEvent VerifierError :=
  name ← topic_symbol (topics event) 0;
  reject (bool_decide (name ≠ $"message_received")) (Failed $"wrong event");;
  match topics event with
  | [_; t1; t2; t3] =>
      v ← map_get (data event) $"message_body";
      message_body ← scval_to_bytes v;
      map_err Failed (check_byte_len $"message_body" message_body MAX_RAW_MESSAGE_BYTES);;
      caller ← scval_to_address t1;
      nonce ← scval_to_bytes32 t2;
      finality_threshold_executed ← scval_to_u32 t3;
      v ← map_get (data event) $"source_domain";
      source_domain ← scval_to_u32 v;
      v ← map_get (data event) $"sender";
      sender ← scval_to_bytes32 v;
      Ok (mkMessageReceivedEvent caller nonce finality_threshold_executed source_domain sender message_body)
  | _ => Err (Failed $"message_received topic count")
  end.

(** ** Transactions (stellar_tx.rs) *)

Module TxStatus.

Inductive TxStatus := Success | Failed.

End TxStatus.

Abbreviation TxStatus := TxStatus.TxStatus (only parsing).

#[export] Instance TxStatus_eq_dec : EqDecision TxStatus.
Proof. solve_decision. Defined.

Record FinalizedTx := mkFinalizedTx {
  ft_tx_hash : Str;
  ft_status : TxStatus;
  ft_ledger : Z;
  ft_latest_ledger : option Z;
  ft_created_at : option Str;
  ft_envelope_xdr : Str;
  ft_contract_events : list ContractEvent;
}.

Record ParsedInvoke := mkParsedInvoke {
  source_account : Str;
  operation_source : Str;
  contract_strkey : Str;
  i_contract_hash : list Z;
  function : Str;
  args : list ScVal;
}.

Definition normalize_stellar_tx_hash (hash : Str) : Result Str VerifierError :=
  map_err Failed (check_str_len $"tx_hash" hash MAX_TX_HASH_LEN);;
  let trimmed := trim hash in
  let hex := strip_0x trimmed in
  reject (negb (str_len hex =? 64) || negb (forallb is_ascii_hexdigit hex)) (Failed $"invalid stellar tx hash");;
  Ok (to_ascii_lowercase hex).

Definition MAX_CONTRACT_EVENTS_PER_TX : nat := 256.
Definition MAX_EVENTS_PER_OPERATION : nat := 64.

Section Soroban.

Context {H : Hex} {K : Strkey} {D : Digest} {X : XdrLib} {S : ScLib} {J : PayloadJson}.

Definition address_to_strkey (addr : ScAddress) : Result Str VerifierError :=
  match addr with
  | ScContract hash => Ok (contract_to_string hash)
  | ScAccount key => Ok (account_to_string key)
  | ScMuxedAccount key id => Ok (muxed_to_string (key, id))
  | ScClaimableBalance _ | ScLiquidityPool _ => Err (Failed $"unsupported address type")
  end.

(** *** stellar_muxed.rs *)

Definition sc_address_to_forward_recipient_strkey (addr : ScAddress) : Result Str VerifierError :=
  match addr with
  | ScAccount key => Ok (account_to_string key)
  | ScContract _ => Err (Failed $"contract forward recipient unsupported")
  | ScMuxedAccount key id => Ok (muxed_to_string (key, id))
  | ScClaimableBalance _ | ScLiquidityPool _ => Err (Failed $"unsupported forward recipient address type")
  end.

Definition muxed_recipient_from_scval (val : ScVal) : Result Str VerifierError :=
  match val with
  | ScAddr addr => sc_address_to_forward_recipient_strkey addr
  | _ => Err (Failed $"forward_recipient type")
  end.

Definition muxed_account_xdr_to_strkey (account : MuxedAccount) : Str :=
  match account with
  | Ed25519 key => account_to_string key
  | MuxedEd25519 id key => muxed_to_string (key, id)
  end.

Definition parse_mint_and_forward (event : ContractEvent) : Result MintAndForwardEvent VerifierError :=
  name ← topic_symbol (topics event) 0;
  reject (bool_decide (name ≠ $"mint_and_forward")) (Failed $"wrong event");;
  reject (negb (length (topics event) =? 1)%nat) (Failed $"mint_and_forward topic count");;
  forward_recipient ← map_get (data event) $"forward_recipient";
  recipient_str ← muxed_recipient_from_scval forward_recipient;
  v ← map_get (data event) $"token";
  token ← scval_to_address v;
  v ← map_get (data event) $"amount";
  amount ← scval_to_i128 v;
  Ok (mkMintAndForwardEvent recipient_str token amount).

(** The events of one operation, up to the first error. *)
Fixpoint decode_events (group : list Str) : Result (list ContractEvent) VerifierError :=
  match group with
  | [] => Ok []
  | b64 :: rest =>
      reject (256 * 1024 <? str_len b64) (Failed $"event xdr too large");;
      event ← map_err Failed (event_from_xdr_base64 b64);
      events ← decode_events rest;
      Ok (event :: events)
  end.

Fixpoint decode_groups (nested : list (list Str)) : Result (list ContractEvent) VerifierError :=
  match nested with
  | [] => Ok []
  | group :: rest =>
      reject (MAX_EVENTS_PER_OPERATION <? length group)%nat (Failed $"too many contract events");;
      events ← decode_events group;
      others ← decode_groups rest;
      Ok (events ++ others)
  end.

Definition collect_contract_events (nested : list (list Str)) : Result (list ContractEvent) VerifierError :=
  reject (MAX_CONTRACT_EVENTS_PER_TX <? length nested)%nat (Failed $"too many operation event groups");;
  out ← decode_groups nested;
  reject (MAX_CONTRACT_EVENTS_PER_TX <? length out)%nat (Failed $"too many contract events");;
  Ok out.

(** ** Hashes of envelopes (stellar_payload.rs) *)

Definition passphrase_for_config (config : CctpConfig) : Str :=
  if bool_decide (stellar_network_passphrase config = []) then STELLAR_TESTNET_PASSPHRASE
  else stellar_network_passphrase config.

(** The transaction of a v1 envelope. *)
Definition v1_transaction (env : TransactionEnvelope) : Result Transaction VerifierError :=
  match env with
  | EnvelopeTx tx _ => Ok tx
  | EnvelopeTxFeeBump _ => Err (Failed $"fee-bump envelopes unsupported")
  | EnvelopeTxV0 _ => Err (Failed $"v0 envelopes unsupported")
  end.

Definition unsigned_envelope_xdr (envelope_xdr : Str) : Result Str VerifierError :=
  env ← map_err Failed (from_xdr_base64 envelope_xdr);
  tx ← v1_transaction env;
  map_err Failed (to_xdr_base64 (EnvelopeTx tx [])).

Definition payload_hash_from_envelope_xdr (config : CctpConfig) (envelope_xdr : Str) : Result Str VerifierError :=
  xdr_envelope ← unsigned_envelope_xdr envelope_xdr;
  let payload := StellarXdr (passphrase_for_config config) xdr_envelope None in
  json ← map_err Failed (payload_to_json payload);
  Ok (hex_encode (sha256 (as_bytes json))).

Definition transaction_hash_from_envelope_xdr (envelope_xdr network_passphrase : Str) : Result Str VerifierError :=
  env ← map_err Failed (from_xdr_base64 envelope_xdr);
  tx ← v1_transaction env;
  bytes ← map_err Failed (signature_payload (sha256 (as_bytes network_passphrase)) tx);
  Ok (hex_encode (sha256 bytes)).

(** ** Invocations *)

Definition parse_invoke_args (source operation_source : Str) (contract_address : ScAddress) (function_name : Str)
    (args : list ScVal) : Result ParsedInvoke VerifierError :=
  match contract_address with
  | ScContract hash =>
      Ok (mkParsedInvoke source operation_source (contract_to_string hash) hash function_name args)
  | _ => Err (Failed $"invoke target not contract")
  end.

Definition parse_invoke_envelope (envelope_xdr : Str) : Result ParsedInvoke VerifierError :=
  env ← map_err Failed (from_xdr_base64 envelope_xdr);
  match env with
  | EnvelopeTx tx _ =>
      match tx_operations tx with
      | [op] =>
          let tx_source := muxed_account_xdr_to_strkey (tx_source_account tx) in
          let operation_source := from_option muxed_account_xdr_to_strkey tx_source (o_source_account op) in
          match o_body op with
          | InvokeHostFunction (InvokeContract contract_address function_name args) _ =>
              parse_invoke_args tx_source operation_source contract_address function_name args
          | InvokeHostFunction (OtherHostFunction _) _ => Err (Failed $"expected contract invoke")
          | _ => Err (Failed $"expected invoke")
          end
      | _ => Err (Failed $"expected single operation")
      end
  | _ => Err (Failed $"expected v1 tx")
  end.

(** ** Building invocations (builders/stellar/encoder.rs) *)

Definition contract_address (strkey : Str) : Result ScAddress BuilderError :=
  contract ← ok_or (contract_from_string (trim strkey)) (BuilderError.Validation ($"invalid contract: " ++ strkey));
  Ok (ScContract contract).

Definition account_address (g : Str) : Result ScAddress BuilderError :=
  pk ← ok_or (account_from_string (trim g)) (BuilderError.Validation ($"invalid G-address: " ++ g));
  Ok (ScAccount pk).

(** A symbol has at most 32 bytes. *)
Definition sc_symbol (name : Str) : Result Str BuilderError :=
  reject (32 <? str_len name) (BuilderError.Encoding ($"invalid symbol: " ++ name));;
  Ok name.

(** The upper half as an [i64], the lower half as a [u64]. *)
Definition i128_scval (v : Z) : ScVal := ScI128 (wrap I64 (Z.shiftr v 64)) (wrap U64 v).

Definition approve_args (owner spender_contract : Str) (amount expiration_ledger : Z) : Result (list ScVal) BuilderError :=
  owner_addr ← account_address owner;
  spender_addr ← contract_address spender_contract;
  Ok [ScAddr owner_addr; ScAddr spender_addr; i128_scval amount; ScU32 expiration_ledger].

Definition deposit_for_burn_args (caller : Str) (amount_stellar destination_domain : Z) (mint_recipient : list Z)
    (burn_token : Str) (max_fee_stellar min_finality : Z) : Result (list ScVal) BuilderError :=
  caller_addr ← account_address caller;
  token_addr ← contract_address burn_token;
  Ok [ScAddr caller_addr; i128_scval amount_stellar; ScU32 destination_domain; ScBytes mint_recipient;
      ScAddr token_addr; ScBytes ANY_DESTINATION_CALLER; i128_scval max_fee_stellar; ScU32 min_finality].

(** Variable-length data has at most [u32::MAX] elements. *)
Definition bounded {A E} (l : list A) (e : E) : Result (list A) E :=
  reject (int_max U32 <? Z.of_nat (length l)) e;; Ok l.

Definition mint_and_forward_args (message attestation : list Z) : Result (list ScVal) BuilderError :=
  m ← bounded message (BuilderError.Encoding $"message too large");
  a ← bounded attestation (BuilderError.Encoding $"attestation too large");
  Ok [ScBytes m; ScBytes a].

Record InvokeTxParams := mkInvokeTxParams {
  p_source : Str;
  p_contract : Str;
  p_function : Str;
  p_args : list ScVal;
  p_sequence : Z;
  p_base_fee : Z;
  p_time_bounds : Z * Z;
  p_ledger_bounds : Z * Z;
}.

Definition build_unsigned_invoke_tx (params : InvokeTxParams) : Result Transaction BuilderError :=
  target ← contract_address (p_contract params);
  function_name ← sc_symbol (p_function params);
  args ← bounded (p_args params) (BuilderError.Encoding $"too many contract args");
  source ← ok_or (account_from_string (p_source params)) (BuilderError.Validation $"invalid source");
  Ok (mkTransaction (Ed25519 source) (p_base_fee params) (p_sequence params)
        (CondV2 (Some (p_time_bounds params)) (Some (p_ledger_bounds params)) None 0 0 [])
        MemoNone [mkOperation None (InvokeHostFunction (InvokeContract target function_name args) [])] ExtV0).

(** [now] is the clock in seconds. *)
Definition encode_invoke_at_sequence (now : Z) (source contract function : Str) (args : list ScVal)
    (account_sequence : Z) : Result Str BuilderError :=
  tx ← build_unsigned_invoke_tx
         (mkInvokeTxParams source contract function args account_sequence DEFAULT_BASE_FEE
            (0, now + DEFAULT_TIMEOUT_SECS) (0, int_max U32));
  map_err BuilderError.Encoding (to_xdr_base64 (EnvelopeTx tx [])).

Definition envelope_sequence (xdr : Str) : Result Z BuilderError :=
  env ← map_err BuilderError.Encoding (from_xdr_base64 xdr);
  match env with
  | EnvelopeTx tx _ => Ok (tx_seq_num tx)
  | _ => Err (BuilderError.Encoding $"expected v1 envelope")
  end.

End Soroban.
