(* ===== verification/ChainRpc.v ===== *)
(** * JSON-RPC clients of the bridge (api: cctp/evm_rpc.rs, cctp/stellar_rpc.rs, cctp/stellar_tx.rs)

    A client is a program (Tasks) whose calls are requests to a node, which answers with
    a text or not at all, and readings of the clock. What serde_json makes of an answer
    is a parameter ([RpcJson]). *)

From stdpp Require Import base decidable strings numbers list.
From S2P Require Import Prelude RustStr Result Tasks Xdr CctpTypes CctpMessage CctpEncoding CctpConfig Soroban.

Local Open Scope Z_scope.
Local Open Scope str_scope.
Local Open Scope prog_scope.

(** ** Requests and what they ask for *)

Inductive Rpc :=
| EthGetTransactionByHash (hash : Str)
| EthGetTransactionReceipt (hash : Str)
| EthChainId
| EthBlockNumber
| EthCall (to data block : Str)
| EthGetCode (address : Str)
| GetLatestLedger
| GetLedgerEntries (key_xdr : Str)
| SimulateTransaction (transaction : Str)
| SimulateWithLeeway (transaction : Str)
| GetTransaction (hash : Str).

Record EthTransaction := mkEthTransaction {
  et_from : option Str;
  et_to : option Str;
  et_input : option Str;
}.

Record EthLog := mkEthLog {
  log_address : Str;
  log_topics : list Str;
  log_data : Str;
}.

Record EthReceipt := mkEthReceipt {
  er_status : option Str;
  er_logs : option (list EthLog);
  er_block_number : option Str;
}.

Record GetTransactionResult := mkGetTransactionResult {
  gt_status : Str;
  gt_tx_hash : option Str;
  gt_ledger : option Z;
  gt_latest_ledger : option Z;
  gt_created_at : option Str;
  gt_envelope_xdr : option Str;
  gt_contract_events_xdr : option (list (list Str));
}.

(** The types that answers are read at. The approval verifier reads a receipt without
    its logs. *)
Inductive Shape := STransaction | SReceipt | SReceiptStatus | SString | SLedger | SEntries | SSimulation | SStellarTx.

Definition Payload (s : Shape) : Type :=
  match s with
  | STransaction => EthTransaction
  | SReceipt => EthReceipt
  | SReceiptStatus => option Str * option Str
  | SString => Str
  | SLedger => Z
  | SEntries | SSimulation => list Str
  | SStellarTx => GetTransactionResult
  end.

Record RpcResponse (A : Type) := mkRpcResponse {
  rpc_result : option A;
  rpc_error : option Str;
}.

Arguments mkRpcResponse {A} _ _.
Arguments rpc_result {A} _.
Arguments rpc_error {A} _.

Class RpcJson := {
  request_len : Rpc → Z;
  read_response : ∀ s : Shape, Str → Result (RpcResponse (Payload s)) Str;
}.

(** ** Programs of requests *)

Inductive NodeCall :=
| Post (r : Rpc)
| Clock.

(** The text of the answer or why there is none; the time in seconds. *)
Definition NodeReply (c : NodeCall) : Type :=
  match c with
  | Post _ => Result Str Str
  | Clock => Z
  end.

Abbreviation V A := (Prog NodeReply (Result A VerifierError)) (only parsing).

Local Abbreviation Failed := VerifierError.Failed (only parsing).
Local Abbreviation Transient := VerifierError.Transient (only parsing).

Definition MAX_JSON_BODY_BYTES : Z := 256 * 1024.
Definition MAX_JSON_RESPONSE_BYTES : Z := 1024 * 1024.
Definition SIMULATE_SOURCE : Str := $"GAAAAAAAAAAAAAAAAAAAAAAAAAAAAAAAAAAAAAAAAAAAAAAAAAAAAWHF".
Definition SEPOLIA_CHAIN_ID_NUM : Z := 11155111.

Section Rpc.

Context {H : Hex} {K : Strkey} {D : Digest} {X : XdrLib} {S : ScLib} {R : RpcJson}.

(** *** evm_rpc.rs *)

Definition evm_call (s : Shape) (r : Rpc) : V (Payload s) :=
  refuse (MAX_JSON_BODY_BYTES <? request_len r) (Failed $"rpc request too large");;
  text ← awaited Transient (call (Post r));
  refuse (MAX_JSON_BODY_BYTES <? str_len text) (Failed $"rpc response too large");;
  payload ← lift Failed (read_response s text);
  match rpc_error payload with
  | Some message =>
      if contains_str $"rate limit" (to_ascii_lowercase message) then err (Transient message) else err (Failed message)
  | None => some_or (rpc_result payload) VerifierError.TxNotFound
  end.

Definition eth_call (to data block : Str) : V Str := evm_call SString (EthCall to data block).

Definition chain_id : V Z :=
  text ← evm_call SString EthChainId;
  some_or (parse_hex_uint U64 (trim_start_0x text)) (Failed $"chain id parse").

Definition get_code (address : Str) : V Str := evm_call SString (EthGetCode address).

Definition ensure_chain : V unit :=
  parsed ← chain_id;
  refuse (negb (parsed =? SEPOLIA_CHAIN_ID_NUM)) (Failed $"wrong chain").

Definition normalize_hash (hash : Str) : Str := $"0x" ++ to_ascii_lowercase (strip_0x (trim hash)).

(** *** stellar_rpc.rs *)

(** Whether this is not a test build. *)
Variable production : bool.

Record StellarRpcClient := mkStellarRpcClient {
  rpc_url : Str;
  allowed_host : Str;
  network_passphrase : Str;
}.

(** [built]: whether the HTTP client can be made. *)
Definition new_stellar_client (built : Result unit Str) (config : CctpConfig) : Result StellarRpcClient VerifierError :=
  (reject (bool_decide (trim (stellar_rpc_url config) = [])) VerifierError.NotReady;;
   parsed ← map_err (λ e, Failed (CctpConfigError.to_string e)) (parse_service_url (stellar_rpc_url config));
   reject (production && bool_decide (scheme parsed ≠ $"https")) (Failed $"stellar rpc must be https");;
   map_err Transient built;;
   Ok (mkStellarRpcClient (stellar_rpc_url config) (host parsed) (stellar_network_passphrase config)))%result.

Definition stellar_is_ready (c : StellarRpcClient) : bool := negb (bool_decide (trim (rpc_url c) = [])).

Definition ensure_url (c : StellarRpcClient) (url : Str) : Result unit VerifierError :=
  (parsed ← map_err (λ _, Failed $"rpc url") (parse_service_url url);
   reject (bool_decide (host parsed ≠ allowed_host c)) (Failed $"rpc host mismatch");;
   reject (production && bool_decide (scheme parsed ≠ $"https")) (Failed $"rpc scheme"))%result.

Definition check_rpc_response_len (len : Z) : Result unit VerifierError :=
  reject (MAX_JSON_RESPONSE_BYTES <? len) (Failed $"rpc response too large").

(** The text of the answer to a request. *)
Definition stellar_post (c : StellarRpcClient) (r : Rpc) : V Str :=
  refuse (MAX_JSON_BODY_BYTES <? request_len r) (Failed $"rpc request too large");;
  text ← awaited Transient (call (Post r));
  Return (check_rpc_response_len (str_len text));;
  ok text.

Definition stellar_call (c : StellarRpcClient) (s : Shape) (r : Rpc) : V (Payload s) :=
  Return (ensure_url c (rpc_url c));;
  text ← stellar_post c r;
  payload ← lift Failed (read_response s text);
  match rpc_error payload with
  | Some message => err (Failed message)
  | None => some_or (rpc_result payload) VerifierError.TxNotFound
  end.

Definition latest_ledger (c : StellarRpcClient) : V Z := stellar_call c SLedger GetLatestLedger.

Definition get_account_sequence (c : StellarRpcClient) (account_id : Str) : V Z :=
  pk ← some_or (account_from_string (trim account_id)) (Failed $"invalid G-address");
  key_xdr ← lift Failed (account_key_to_xdr_base64 pk);
  entries ← stellar_call c SEntries (GetLedgerEntries key_xdr);
  item ← some_or (head entries) (Failed $"account not found");
  refuse (256 * 1024 <? str_len item) (Failed $"ledger entry too large");;
  entry ← lift Failed (account_entry_from_xdr_base64 item);
  some_or entry (Failed $"not an account entry").

Definition simulate_scval (c : StellarRpcClient) (contract function : Str) (args : list ScVal) : V ScVal :=
  ledger ← latest_ledger c;
  now ⇐ call Clock;
  xdr ← lift (λ e, Failed (BuilderError.to_string e))
          (encode_invoke_at_sequence now SIMULATE_SOURCE contract function args ledger);
  results ← stellar_call c SSimulation (SimulateTransaction xdr);
  item ← some_or (head results) (Failed $"no sim result");
  lift Failed (scval_from_xdr_base64 item).

(** *** stellar_tx.rs *)

Definition ensure_finalized (c : StellarRpcClient) (tx_ledger : Z) (response_latest : option Z) : V unit :=
  latest ← match response_latest with
           | Some l => ok l
           | None => latest_ledger c
           end;
  refuse (latest <? tx_ledger) (Transient $"tx ledger ahead of network latest").

(** Which errors of the node are temporary. *)
Definition classify_node_error (message : Str) : VerifierError :=
  let lower := to_ascii_lowercase message in
  if contains_str $"not found" lower then VerifierError.TxNotFound
  else if contains_str $"rate" lower || contains_str $"timeout" lower then Transient message
  else Failed message.

Definition check_status (status : Str) : Result unit VerifierError :=
  if bool_decide (status = $"NOT_FOUND") then Err VerifierError.TxNotFound
  else reject (bool_decide (status ≠ $"SUCCESS") && bool_decide (status ≠ $"FAILED"))
         (Failed ($"unknown tx status " ++ status)).

(** The hash that the node returns, if any, is the hash asked for. *)
Definition check_returned_hash (returned : option Str) (normalized computed : Str) : Result unit VerifierError :=
  match returned with
  | None => Ok tt
  | Some r =>
      (returned_norm ← normalize_stellar_tx_hash r;
       reject (bool_decide (returned_norm ≠ normalized) || bool_decide (returned_norm ≠ computed))
         (Failed $"tx hash mismatch"))%result
  end.

Definition get_finalized_transaction (c : StellarRpcClient) (tx_hash : Str) : V FinalizedTx :=
  Return (ensure_url c (rpc_url c));;
  normalized ← Return (normalize_stellar_tx_hash tx_hash);
  text ← stellar_post c (GetTransaction normalized);
  payload ← lift Failed (read_response SStellarTx text);
  match rpc_error payload with
  | Some message => err (classify_node_error message)
  | None =>
      result ← some_or (rpc_result payload) VerifierError.TxNotFound;
      Return (check_status (gt_status result));;
      envelope_xdr ← some_or (gt_envelope_xdr result) (Failed $"missing envelope");
      refuse (512 * 1024 <? str_len envelope_xdr) (Failed $"envelope too large");;
      computed_hash ← Return (transaction_hash_from_envelope_xdr envelope_xdr (network_passphrase c));
      refuse (bool_decide (computed_hash ≠ normalized)) (Failed $"envelope hash mismatch");;
      Return (check_returned_hash (gt_tx_hash result) normalized computed_hash);;
      ledger ← some_or (gt_ledger result) (Failed $"missing ledger");
      ensure_finalized c ledger (gt_latest_ledger result);;
      contract_events ← Return (collect_contract_events (default [] (gt_contract_events_xdr result)));
      let status := if bool_decide (gt_status result = $"SUCCESS") then TxStatus.Success else TxStatus.Failed in
      ok (mkFinalizedTx computed_hash status ledger (gt_latest_ledger result) (gt_created_at result) envelope_xdr
            contract_events)
  end.

Definition simulate_is_nonce_used (c : StellarRpcClient) (message_transmitter : Str) (nonce : list Z) : V bool :=
  val ← simulate_scval c message_transmitter $"is_nonce_used" [ScBytes nonce];
  Return (scval_to_bool val).

(** stellar_readiness_probes.rs *)
Definition simulate_allowance (c : StellarRpcClient) (token owner spender : Str) : V Z :=
  owner_addr ← lift (λ e, Failed (BuilderError.to_string e)) (account_address owner);
  spender_addr ← lift (λ e, Failed (BuilderError.to_string e)) (contract_address spender);
  val ← simulate_scval c token $"allowance" [ScAddr owner_addr; ScAddr spender_addr];
  Return (scval_to_i128 val).

End Rpc.

Definition ensure_testnet_binding (config : CctpConfig) : Result unit VerifierError :=
  reject (bool_decide (stellar_network_passphrase config ≠ STELLAR_TESTNET_PASSPHRASE)) (Failed $"wrong network passphrase").
