(* ===== verification/EvmVerify.v ===== *)
(** * Verifiers of Ethereum transactions (api: cctp/evm_burn_verifier.rs, evm_mint_verifier.rs,
      evm_approval_verifier.rs, evm_allowance.rs)

    Programs of requests to a node (ChainRpc) that decide whether a transaction burned,
    minted or approved what it should. The Solidity ABI (alloy) is a parameter. *)

From stdpp Require Import base decidable strings numbers list.
From S2P Require Import Prelude RustStr Result Tasks Xdr CctpTypes CctpMessage CctpTrust CctpStore CctpEncoding.
From S2P Require Import CctpConfig Soroban ChainRpc.

Local Open Scope Z_scope.
Local Open Scope str_scope.
Local Open Scope prog_scope.

Local Abbreviation Failed := VerifierError.Failed (only parsing).

(** ** The ABI *)

(** An address is 20 bytes, a topic 32; amounts are below 2^256. *)
Record BurnCall := mkBurnCall {
  bc_amount : Z;
  bc_destination_domain : Z;
  bc_mint_recipient : list Z;
  bc_burn_token : list Z;
  bc_destination_caller : list Z;
  bc_max_fee : Z;
  bc_min_finality : Z;
}.

(** [DepositForBurn] *)
Record DepositForBurn := mkDepositForBurn {
  ev_burn_token : list Z;
  ev_amount : Z;
  ev_depositor : list Z;
  ev_mint_recipient : list Z;
  ev_destination_domain : Z;
  ev_destination_token_messenger : list Z;
  ev_destination_caller : list Z;
  ev_max_fee : Z;
  ev_min_finality_threshold : Z;
  ev_hook_data : list Z;
}.

(** [MessageReceived] *)
Record MessageReceived := mkMessageReceived {
  rv_caller : list Z;
  rv_source_domain : Z;
  rv_nonce : list Z;
  rv_sender : list Z;
  rv_finality_threshold_executed : Z;
  rv_message_body : list Z;
}.

(** The functions of the contracts and their arguments. *)
Inductive AbiFn := FDepositForBurn | FDepositForBurnWithHook | FReceiveMessage | FApprove | FUsedNonces | FAllowance.

Definition AbiArgs (f : AbiFn) : Type :=
  match f with
  | FDepositForBurn => BurnCall
  | FDepositForBurnWithHook => BurnCall * list Z
  | FReceiveMessage => list Z * list Z
  | FApprove => list Z * Z
  | FUsedNonces => list Z
  | FAllowance => list Z * list Z
  end.

(** [abi_decode] of the input of a function, validated; the decoding of a log from its
    topics and data; [FromStr] of addresses, topics and bytes; [U256::from_be_slice],
    which panics ([None]) on a value that is too large. *)
Class EvmAbi := {
  abi_encode : ∀ f : AbiFn, AbiArgs f → list Z;
  abi_decode : ∀ f : AbiFn, list Z → Result (AbiArgs f) Str;
  decode_deposit_log : list (list Z) → list Z → option DepositForBurn;
  decode_received_log : list (list Z) → list Z → option MessageReceived;
  parse_address : Str → option (list Z);
  parse_b256 : Str → option (list Z);
  parse_bytes : Str → option (list Z);
  u256_from_be_slice : list Z → option Z;
}.

Definition DEPOSIT_FOR_BURN_SELECTOR : list Z := [142; 2; 80; 238].
Definition DEPOSIT_FOR_BURN_WITH_HOOK_SELECTOR : list Z := [119; 155; 67; 45].
Definition RECEIVE_MESSAGE_SELECTOR : list Z := [87; 236; 253; 40].
Definition NONCE_USED_VALUE : Z := 1.
Definition DEFAULT_MIN_CONFIRMATIONS : Z := 1.

(** ** Burns *)

Record DecodedBurnCall := mkDecodedBurnCall {
  dc_call : BurnCall;
  dc_hook_data : option (list Z);
}.

Definition non_empty {A} (l : list A) : option (list A) :=
  match l with
  | [] => None
  | _ => Some l
  end.

Definition calldata_matches_event (c : DecodedBurnCall) (e : DepositForBurn) : bool :=
  (bc_amount (dc_call c) =? ev_amount e) &&
  (bc_destination_domain (dc_call c) =? ev_destination_domain e) &&
  bool_decide (bc_mint_recipient (dc_call c) = ev_mint_recipient e) &&
  bool_decide (bc_burn_token (dc_call c) = ev_burn_token e) &&
  bool_decide (bc_destination_caller (dc_call c) = ev_destination_caller e) &&
  (bc_max_fee (dc_call c) =? ev_max_fee e) &&
  (bc_min_finality (dc_call c) =? ev_min_finality_threshold e) &&
  bool_decide (default [] (dc_hook_data c) = ev_hook_data e).

Definition address_to_bytes32 (addr : list Z) : list Z := replicate 12 0 ++ addr.

Record EvmRpcBurnVerifier := mkEvmRpcBurnVerifier {
  b_token_messenger : list Z;
  b_min_confirmations : Z;
  b_probe_ok : bool;
}.

Record EvmRpcMintVerifier := mkEvmRpcMintVerifier {
  m_message_transmitter : list Z;
  m_message_transmitter_configured : Str;
  m_min_confirmations : Z;
  m_probe_ok : bool;
}.

Record EvmRpcApprovalVerifier := mkEvmRpcApprovalVerifier {
  p_usdc : list Z;
  p_token_messenger : list Z;
  p_min_confirmations : Z;
  p_probe_ok : bool;
}.

Record ParsedMessageFields := mkParsedMessageFields {
  pm_source_domain : Z;
  pm_nonce : list Z;
  pm_sender : list Z;
  pm_message_body : list Z;
}.

Section Evm.

Context {T : Time} {H : Hex} {D : Digest} {R : RpcJson} {A : EvmAbi} {J : PayloadJson}.

(** Whether the build traps on arithmetic overflow. *)
Variable checks : bool.

(** [format!("{:#x}", address)] *)
Definition show_address (addr : list Z) : Str := $"0x" ++ hex_encode addr.

(** [built]: whether the HTTP client can be made. *)
Definition new_burn_verifier (built : Result unit Str) (config : CctpConfig) (min_confirmations : Z) :
    Result EvmRpcBurnVerifier VerifierError :=
  (reject (bool_decide (trim (sepolia_rpc_url config) = [])) VerifierError.NotReady;;
   token_messenger ← ok_or (parse_address (trim (sepolia_token_messenger (contracts config))))
                       (Failed $"token messenger address");
   map_err VerifierError.Transient built;;
   Ok (mkEvmRpcBurnVerifier token_messenger min_confirmations false))%result.

(** The probe of the deployment decides whether there is a verifier. *)
Definition try_new_burn_verifier (probe_ok : bool) (built : Result unit Str) (config : CctpConfig) :
    Result EvmRpcBurnVerifier VerifierError :=
  (reject (negb probe_ok) VerifierError.NotReady;;
   v ← new_burn_verifier built config DEFAULT_MIN_CONFIRMATIONS;
   Ok (mkEvmRpcBurnVerifier (b_token_messenger v) (b_min_confirmations v) true))%result.

Definition decode_calldata (input : Str) : Result DecodedBurnCall VerifierError :=
  (bytes ← ok_or (hex_decode (strip_0x input)) (Failed $"calldata hex");
   reject (length bytes <? 4)%nat (Failed $"calldata too short");;
   let selector := take 4 bytes in
   if bool_decide (selector = DEPOSIT_FOR_BURN_SELECTOR) then
     c ← map_err Failed (abi_decode FDepositForBurn bytes);
     Ok (mkDecodedBurnCall c None)
   else if bool_decide (selector = DEPOSIT_FOR_BURN_WITH_HOOK_SELECTOR) then
     ' (c, hook) ← map_err Failed (abi_decode FDepositForBurnWithHook bytes);
     Ok (mkDecodedBurnCall c (non_empty hook))
   else Err (Failed $"unknown burn selector"))%result.

(** The topics and data of a log of the contract, if it has topics that can be read. *)
Definition log_of (contract : list Z) (log : EthLog) : option (list (list Z) * list Z) :=
  if negb (eq_ignore_ascii_case (log_address log) (show_address contract)) then None
  else match omap parse_b256 (log_topics log) with
       | [] => None
       | topics => Some (topics, default [] (parse_bytes (log_data log)))
       end.

(** The burns that the logs show. *)
Definition burn_events (token_messenger : list Z) (logs : list EthLog) : list DepositForBurn :=
  omap (λ log, log_of token_messenger log ≫= λ '(topics, data), decode_deposit_log topics data) logs.

(** The receipt is [min] blocks deep; [block_number] is that of the receipt. *)
Definition confirmations_ok (min : Z) (block_number : option Str) : V unit :=
  latest ← evm_call SString EthBlockNumber;
  latest_num ← some_or (parse_hex_uint U64 (trim_start_0x latest)) (Failed $"block parse");
  tx_block ← some_or block_number (Failed $"pending");
  tx_num ← some_or (parse_hex_uint U64 (trim_start_0x tx_block)) (Failed $"tx block parse");
  depth ⇐ or_panic (Prelude.plain checks U64 (saturating_sub U64 latest_num tx_num + 1));
  refuse (depth <? min) (Failed $"insufficient confirmations").

Definition verify_burn (v : EvmRpcBurnVerifier) (tx_hash : Str) : V VerifiedBurnFacts :=
  refuse (negb (b_probe_ok v)) VerifierError.NotReady;;
  let hash := normalize_hash tx_hash in
  tx ← evm_call STransaction (EthGetTransactionByHash hash);
  receipt ← evm_call SReceipt (EthGetTransactionReceipt hash);
  refuse (bool_decide (er_status receipt ≠ Some ($"0x1"))) (Failed $"tx failed");;
  from ← some_or (et_from tx) (Failed $"missing from");
  to ← some_or (et_to tx) (Failed $"missing to");
  refuse (bool_decide (to_ascii_lowercase to ≠ to_ascii_lowercase (show_address (b_token_messenger v))))
    (Failed $"wrong contract");;
  input ← some_or (et_input tx) (Failed $"missing input");
  decoded_call ← Return (decode_calldata input);
  ensure_chain;;
  confirmations_ok (b_min_confirmations v) (er_block_number receipt);;
  match burn_events (b_token_messenger v) (default [] (er_logs receipt)) with
  | [event] =>
      refuse (negb (calldata_matches_event decoded_call event)) (Failed $"calldata/event mismatch");;
      ok (mkVerifiedBurnFacts hash ($"eip155:" ++ display SEPOLIA_CHAIN_ID_NUM) 0 (ev_destination_domain event) from
            (default 0 (chk U128 (ev_amount event))) (address_to_bytes32 (ev_burn_token event)) (ev_mint_recipient event)
            (ev_destination_caller event) (ev_min_finality_threshold event) (non_empty (ev_hook_data event))
            (address_to_bytes32 (b_token_messenger v)) (er_block_number receipt))
  | _ => err (Failed $"ambiguous burn logs")
  end.

(** ** Mints *)

Definition parse_message_fields (message : list Z) : Result ParsedMessageFields VerifierError :=
  (parsed ← map_err (λ e, Failed (MessageParseError.to_string e)) (parse_cctp_v2_message message);
   reject (length message <? MESSAGE_HEADER_LEN)%nat (Failed $"message too short");;
   Ok (mkParsedMessageFields (m_source_domain parsed) (m_nonce parsed) (m_sender parsed)
         (drop MESSAGE_HEADER_LEN message)))%result.

(** The copy of the decoded bytes panics unless there are 32. *)
Definition parse_stored_nonce (nonce : Str) : Result (list Z) (Fault VerifierError) :=
  let trimmed := trim nonce in
  match match strip_prefix $"0x" trimmed with Some h => Some h | None => strip_prefix $"0X" trimmed end with
  | Some hex =>
      (reject (negb (str_len hex =? 64)) (Raised (Failed $"nonce hex length"));;
       bytes ← ok_or (hex_decode hex) (Raised (Failed $"nonce hex"));
       if (length bytes =? 32)%nat then Ok bytes else Err Panic)%result
  | None =>
      (n ← ok_or (parse_uint U128 trimmed) (Raised (Failed $"nonce format"));
       Ok (replicate 16 0 ++ be_bytes 16 n))%result
  end.

Definition decode_receive_input (input : Str) : Result (list Z * list Z) VerifierError :=
  (bytes ← ok_or (hex_decode (trim_start_0x input)) (Failed $"calldata hex");
   map_err Failed (abi_decode FReceiveMessage bytes))%result.

(** The log is about the expected message. *)
Definition receives (expected : ParsedMessageFields) (m : MessageReceived) : bool :=
  (rv_source_domain m =? pm_source_domain expected) &&
  bool_decide (rv_nonce m = pm_nonce expected) &&
  bool_decide (rv_sender m = pm_sender expected) &&
  bool_decide (rv_message_body m = pm_message_body expected).

Definition decode_message_received_logs (v : EvmRpcMintVerifier) (logs : list EthLog) (expected : ParsedMessageFields) : nat :=
  length (filter (λ m, receives expected m = true)
            (omap (λ log, log_of (m_message_transmitter v) log ≫= λ '(topics, data), decode_received_log topics data) logs)).

Definition query_nonce_used (v : EvmRpcMintVerifier) (nonce : list Z) : V bool :=
  ensure_chain;;
  let data := $"0x" ++ hex_encode (abi_encode FUsedNonces nonce) in
  result ← eth_call (show_address (m_message_transmitter v)) data $"latest";
  match trim_start_0x result with
  | [] => ok false
  | hex =>
      bytes ← some_or (hex_decode hex) (Failed $"usedNonces decode");
      value ⇐ or_panic (u256_from_be_slice bytes);
      ok (value =? NONCE_USED_VALUE)
  end.

Definition completion_outcome (v : EvmRpcMintVerifier) (tx_hash : Str) (message : list Z) (nonce : Str) : V MintVerifyOutcome :=
  expected_msg ← Return (parse_message_fields message);
  expected_nonce ← lift_fault id (parse_stored_nonce nonce);
  refuse (bool_decide (pm_nonce expected_msg ≠ expected_nonce)) (Failed $"nonce/message mismatch");;
  let hash := normalize_hash tx_hash in
  receipt ← evm_call SReceipt (EthGetTransactionReceipt hash);
  if bool_decide (er_status receipt ≠ Some ($"0x1")) then ok (MintVerifyOutcome.FailedRetryable $"tx failed")
  else
  confirmations_ok (m_min_confirmations v) (er_block_number receipt);;
  match decode_message_received_logs v (default [] (er_logs receipt)) expected_msg with
  | 1%nat => ok MintVerifyOutcome.Succeeded
  | 0%nat =>
      used ← query_nonce_used v (pm_nonce expected_msg);
      ok (if used : bool then MintVerifyOutcome.ReconciliationNonceConsumed else MintVerifyOutcome.Pending)
  | _ => err (Failed $"ambiguous mint logs")
  end.

(** builders/evm.rs *)
Definition evm_tx_payload (to : Str) (data : list Z) : PreparedWalletPayload :=
  EvmTransaction SEPOLIA_CHAIN_ID to ($"0x" ++ hex_encode data) $"0".

Definition hash_payload (payload : PreparedWalletPayload) : Str :=
  hex_encode (sha256 (as_bytes (unwrap_or [] (payload_to_json payload)))).

Definition verify_mint_submission (v : EvmRpcMintVerifier) (tx_hash : Str) (message attestation : list Z)
    (nonce expected_payload_hash : Str) : V VerifiedMintFacts :=
  refuse (negb (m_probe_ok v)) VerifierError.NotReady;;
  ensure_chain;;
  let hash := normalize_hash tx_hash in
  tx ← evm_call STransaction (EthGetTransactionByHash hash);
  receipt ← evm_call SReceipt (EthGetTransactionReceipt hash);
  refuse (bool_decide (er_status receipt ≠ Some ($"0x1"))) (Failed $"tx failed");;
  confirmations_ok (m_min_confirmations v) (er_block_number receipt);;
  to ← some_or (et_to tx) (Failed $"missing to");
  refuse (bool_decide (to_ascii_lowercase to ≠ to_ascii_lowercase (show_address (m_message_transmitter v))))
    (Failed $"wrong contract");;
  input ← some_or (et_input tx) (Failed $"missing input");
  decoded ← Return (decode_receive_input input);
  refuse (bool_decide (decoded.1 ≠ message) || bool_decide (decoded.2 ≠ attestation))
    (Failed $"message/attestation mismatch");;
  let payload := evm_tx_payload (m_message_transmitter_configured v) (abi_encode FReceiveMessage (message, attestation)) in
  refuse (bool_decide (hash_payload payload ≠ expected_payload_hash)) (Failed $"payload hash mismatch");;
  outcome ⇐ completion_outcome v tx_hash message nonce;
  ok (mkVerifiedMintFacts hash SEPOLIA_CHAIN_ID (show_address (m_message_transmitter v))
        (hex_encode RECEIVE_MESSAGE_SELECTOR) (sha256 message) (sha256 attestation) nonce expected_payload_hash
        (unwrap_or MintVerifyOutcome.Pending outcome) (et_from tx)).

Definition verify_mint_completion (v : EvmRpcMintVerifier) (tx_hash : Str) (message : list Z) (nonce : Str) :
    V MintVerifyOutcome :=
  refuse (negb (m_probe_ok v)) VerifierError.NotReady;;
  completion_outcome v tx_hash message nonce.

(** ** Approvals *)

Definition verify_approval (v : EvmRpcApprovalVerifier) (transfer : CctpTransfer) (tx_hash : Str) (required_amount : Z) :
    V VerifiedApprovalFacts :=
  refuse (negb (p_probe_ok v)) VerifierError.NotReady;;
  ensure_chain;;
  let hash := normalize_hash tx_hash in
  tx ← evm_call STransaction (EthGetTransactionByHash hash);
  receipt ← evm_call SReceiptStatus (EthGetTransactionReceipt hash);
  refuse (bool_decide (receipt.1 ≠ Some ($"0x1"))) (Failed $"tx failed");;
  confirmations_ok (p_min_confirmations v) receipt.2;;
  from ← some_or (et_from tx) (Failed $"missing from");
  refuse (negb (eq_ignore_ascii_case from (sender transfer))) (Failed $"wrong sender");;
  to ← some_or (et_to tx) (Failed $"missing to");
  refuse (bool_decide (to_ascii_lowercase to ≠ to_ascii_lowercase (show_address (p_usdc v)))) (Failed $"wrong token contract");;
  input ← some_or (et_input tx) (Failed $"missing input");
  bytes ← some_or (hex_decode (trim_start_0x input)) (Failed $"calldata hex");
  c ← lift Failed (abi_decode FApprove bytes);
  let (spender, amount) := c : list Z * Z in
  refuse (bool_decide (spender ≠ p_token_messenger v)) (Failed $"wrong spender");;
  approved ← some_or (chk U128 amount) (Failed $"amount overflow");
  refuse (approved <? required_amount) (Failed $"insufficient approval amount");;
  ok (mkVerifiedApprovalFacts hash (sender transfer) (show_address (p_usdc v)) (show_address (p_token_messenger v))
        approved SEPOLIA_CHAIN_ID).

(** evm_allowance.rs: whether the token lets the messenger spend the amount. *)
Definition has_sufficient_allowance (rpc_url : Str) (usdc token_messenger : list Z) (owner token spender amount : Str) :
    Prog NodeReply (Result bool BuilderError) :=
  refuse (bool_decide (trim rpc_url = [])) BuilderError.NotReady;;
  owner_addr ← some_or (parse_address (trim owner)) (BuilderError.Validation ($"invalid owner: " ++ owner));
  token_addr ← some_or (parse_address (trim token)) (BuilderError.Validation ($"invalid token: " ++ token));
  spender_addr ← some_or (parse_address (trim spender)) (BuilderError.Validation ($"invalid spender: " ++ spender));
  refuse (bool_decide (token_addr ≠ usdc) || bool_decide (spender_addr ≠ token_messenger))
    (BuilderError.Validation $"wrong token or spender");;
  required ← lift_fault (λ e, BuilderError.Encoding (EncodingError.to_string e)) (decimal_to_cctp_subunits amount);
  awaited (λ e, match e with
                | VerifierError.NotReady => BuilderError.NotReady
                | VerifierError.Transient m => BuilderError.AccountLookup m
                | other => BuilderError.AccountLookup (VerifierError.to_string other)
                end) ensure_chain;;
  let data := $"0x" ++ hex_encode (abi_encode FAllowance (owner_addr, spender_addr)) in
  result ← awaited (λ e, BuilderError.AccountLookup (VerifierError.to_string e)) (eth_call (show_address usdc) data $"latest");
  match trim_start_0x result with
  | [] => ok false
  | hex =>
      bytes ← some_or (hex_decode hex) (BuilderError.Encoding $"allowance decode");
      allowance ⇐ or_panic (u256_from_be_slice bytes);
      ok (required <=? allowance)
  end.

End Evm.
