(* ===== verification/StellarVerify.v ===== *)
(** * Verifiers of Stellar transactions (api: cctp/stellar_burn_verifier.rs,
      stellar_mint_verifier.rs, stellar_approval_verifier.rs, stellar_allowance.rs)

    Programs of requests to a Soroban node (ChainRpc) that decide whether a finalized
    transaction burned, minted and forwarded, or approved what it should. *)

From stdpp Require Import base decidable strings numbers list.
From S2P Require Import Prelude RustStr Result Tasks Xdr CctpTypes CctpMessage CctpTrust CctpStore CctpEncoding.
From S2P Require Import CctpConfig Soroban ChainRpc EvmVerify.

Local Open Scope Z_scope.
Local Open Scope str_scope.
Local Open Scope prog_scope.

Local Abbreviation Failed := VerifierError.Failed (only parsing).

(** The verifiers share the client; each has the contracts it needs. *)
Record StellarRpcBurnVerifier := mkStellarRpcBurnVerifier {
  sb_rpc : StellarRpcClient;
  sb_token_messenger : Str;
  sb_message_transmitter : Str;
  sb_probe_ok : bool;
}.

Record DecodedBurnInvoke := mkDecodedBurnInvoke {
  di_caller : Str;
  di_local_amount : Z;
  di_destination_domain : Z;
  di_mint_recipient : list Z;
  di_burn_token : Str;
  di_destination_caller : list Z;
  di_local_max_fee : Z;
  di_min_finality : Z;
  di_hook_data : list Z;
}.

Record StellarRpcMintVerifier := mkStellarRpcMintVerifier {
  sm_rpc : StellarRpcClient;
  sm_forwarder : Str;
  sm_message_transmitter : Str;
  sm_usdc : Str;
  sm_config : CctpConfig;
  sm_probe_ok : bool;
}.

Record BoundMintEvents := mkBoundMintEvents {
  bm_forward : MintAndForwardEvent;
  bm_received : MessageReceivedEvent;
}.

Record StellarRpcApprovalVerifier := mkStellarRpcApprovalVerifier {
  sa_rpc : StellarRpcClient;
  sa_usdc : Str;
  sa_token_messenger : Str;
  sa_probe_ok : bool;
}.

(** The results that are Ok. *)
Definition parsed {A E} (r : Result A E) : option A :=
  match r with
  | Ok a => Some a
  | Err _ => None
  end.

Section Stellar.

Context {T : Time} {H : Hex} {K : Strkey} {D : Digest} {X : XdrLib} {S : ScLib} {R : RpcJson} {J : PayloadJson}.

(** Whether this is not a test build. *)
Variable production : bool.

(** ** Burns *)

Definition strkey_of (v : ScVal) : Result Str VerifierError :=
  (a ← scval_to_address v; address_to_strkey a)%result.

Definition decode_burn_invoke (invoke : ParsedInvoke) : Result DecodedBurnInvoke VerifierError :=
  (let with_hook := bool_decide (function invoke = $"deposit_for_burn_with_hook") in
   reject (bool_decide (function invoke ≠ $"deposit_for_burn") && negb with_hook) (Failed $"wrong function");;
   let decode_args a0 a1 a2 a3 a4 a5 a6 a7 hook_data :=
     (caller ← strkey_of a0;
      local_amount ← scval_to_i128 a1;
      destination_domain ← scval_to_u32 a2;
      mint_recipient ← scval_to_bytes32 a3;
      burn_token ← strkey_of a4;
      destination_caller ← scval_to_bytes32 a5;
      local_max_fee ← scval_to_i128 a6;
      min_finality ← scval_to_u32 a7;
      Ok (mkDecodedBurnInvoke caller local_amount destination_domain mint_recipient burn_token destination_caller
            local_max_fee min_finality hook_data))%result in
   match with_hook, args invoke with
   | true, [a0; a1; a2; a3; a4; a5; a6; a7; a8] =>
       hook_data ← scval_to_bytes a8;
       decode_args a0 a1 a2 a3 a4 a5 a6 a7 hook_data
   | false, [a0; a1; a2; a3; a4; a5; a6; a7] => decode_args a0 a1 a2 a3 a4 a5 a6 a7 []
   | _, _ => Err (Failed $"burn arg count")
   end)%result.

Definition invoke_matches_event (c : DecodedBurnInvoke) (e : DepositForBurnEvent) : bool :=
  let canonical_amount := unwrap_or (int_min I128) (stellar_local_to_canonical_amount (di_local_amount c)) in
  let canonical_max_fee := unwrap_or (int_min I128) (stellar_local_to_canonical_amount_allow_zero (di_local_max_fee c)) in
  bool_decide (parsed (address_to_strkey (d_depositor e)) = Some (di_caller c)) &&
  (d_destination_domain e =? di_destination_domain c) &&
  bool_decide (d_mint_recipient e = di_mint_recipient c) &&
  bool_decide (parsed (address_to_strkey (d_burn_token e)) = Some (di_burn_token c)) &&
  bool_decide (d_destination_caller e = di_destination_caller c) &&
  (d_min_finality_threshold e =? di_min_finality c) &&
  bool_decide (d_hook_data e = di_hook_data c) &&
  (d_amount e =? canonical_amount) &&
  (d_max_fee e =? canonical_max_fee).

(** The events that a contract emitted and that can be read, in order; an event without
    a contract is an error. *)
Fixpoint events_of {A} (hash : list Z) (parse : ContractEvent → Result A VerifierError) (events : list ContractEvent) :
    Result (list A) VerifierError :=
  match events with
  | [] => Ok []
  | event :: rest =>
      (h ← contract_hash event;
       found ← events_of hash parse rest;
       Ok (if bool_decide (h = hash) then option_list (parsed (parse event)) ++ found else found))%result
  end.

Definition find_burn_events (events : list ContractEvent) (token_messenger_hash message_transmitter_hash : list Z) :
    Result (DepositForBurnEvent * list Z) VerifierError :=
  (burns ← events_of token_messenger_hash parse_deposit_for_burn events;
   messages ← events_of message_transmitter_hash parse_message_sent events;
   match burns, messages with
   | [burn], [message] => Ok (burn, ms_message message)
   | [_], _ => Err (Failed $"ambiguous message_sent events")
   | _, _ => Err (Failed $"ambiguous deposit_for_burn events")
   end)%result.

Definition failed_encoding (e : EncodingError) : VerifierError := Failed (EncodingError.to_string e).

Definition burn_is_ready (v : StellarRpcBurnVerifier) : bool := sb_probe_ok v && stellar_is_ready (sb_rpc v).

Definition verify_burn (v : StellarRpcBurnVerifier) (tx_hash : Str) : V VerifiedBurnFacts :=
  refuse (negb (burn_is_ready v)) VerifierError.NotReady;;
  tx ← get_finalized_transaction production (sb_rpc v) tx_hash;
  refuse (bool_decide (ft_status tx ≠ TxStatus.Success)) (Failed $"tx failed");;
  invoke ← Return (parse_invoke_envelope (ft_envelope_xdr tx));
  refuse (bool_decide (contract_strkey invoke ≠ sb_token_messenger v)) (Failed $"wrong contract");;
  c ← Return (decode_burn_invoke invoke);
  refuse (bool_decide (di_caller c ≠ operation_source invoke)) (Failed $"caller/op-source mismatch");;
  tm_hash ← lift_fault failed_encoding (stellar_contract_to_bytes32 (sb_token_messenger v));
  mt_hash ← lift_fault failed_encoding (stellar_contract_to_bytes32 (sb_message_transmitter v));
  found ← Return (find_burn_events (ft_contract_events tx) tm_hash mt_hash);
  let (event, raw_message) := found : DepositForBurnEvent * list Z in
  refuse (negb (invoke_matches_event c event)) (Failed $"invoke/event mismatch");;
  parsed_msg ← lift (λ e, Failed (MessageParseError.to_string e)) (parse_cctp_v2_message raw_message);
  refuse (negb (b_amount (m_body parsed_msg) =? wrap U128 (d_amount event))) (Failed $"message/event amount mismatch");;
  refuse (bool_decide (b_mint_recipient (m_body parsed_msg) ≠ d_mint_recipient event))
    (Failed $"message/event recipient mismatch");;
  refuse (negb (m_destination_domain parsed_msg =? d_destination_domain event)) (Failed $"message/event domain mismatch");;
  refuse (bool_decide (d_destination_token_messenger event ≠ m_recipient parsed_msg))
    (Failed $"destination token messenger mismatch");;
  canonical_from_invoke ← lift_fault failed_encoding (stellar_local_to_canonical_amount (di_local_amount c));
  refuse (negb (canonical_from_invoke =? d_amount event)) (Failed $"invoke/event amount mismatch");;
  burn_token ← lift_fault failed_encoding (stellar_contract_to_bytes32 (di_burn_token c));
  ok (mkVerifiedBurnFacts (ft_tx_hash tx) STELLAR_TESTNET_CHAIN_ID (m_source_domain parsed_msg)
        (d_destination_domain event) (di_caller c) (wrap U128 (d_amount event)) burn_token (d_mint_recipient event)
        (d_destination_caller event) (d_min_finality_threshold event) (non_empty (d_hook_data event)) tm_hash
        (Some (display (ft_ledger tx)))).

(** ** Mints *)

Definition decode_mint_invoke (invoke : ParsedInvoke) : Result (list Z * list Z) VerifierError :=
  (reject (bool_decide (function invoke ≠ $"mint_and_forward")) (Failed $"wrong function");;
   match args invoke with
   | [a0; a1] =>
       message ← scval_to_bytes a0;
       attestation ← scval_to_bytes a1;
       Ok (message, attestation)
   | _ => Err (Failed $"mint arg count")
   end)%result.

Definition find_bound_mint_events (tx : FinalizedTx) (expected_nonce forwarder_hash mt_hash : list Z) (forwarder_strkey : Str) :
    Result (option BoundMintEvents) VerifierError :=
  (forwards ← events_of forwarder_hash parse_mint_and_forward (ft_contract_events tx);
   all_received ← events_of mt_hash parse_message_received (ft_contract_events tx);
   let received := filter (λ ev, mr_nonce ev = expected_nonce) all_received in
   match forwards, received with
   | [], [] => Ok None
   | [forward], [received] =>
       caller ← address_to_strkey (mr_caller received);
       reject (bool_decide (caller ≠ forwarder_strkey)) (Failed $"caller not forwarder");;
       Ok (Some (mkBoundMintEvents forward received))
   | _, _ => Err (Failed $"ambiguous mint events")
   end)%result.

(** The slice of the message is in range because of the comparison of lengths. *)
Definition bind_completion_evidence (v : StellarRpcMintVerifier) (message : list Z) (nonce recipient : Str)
    (expected_amount_cctp : Z) (quoted_finality : CctpFinality) (events : BoundMintEvents) : V unit :=
  let received := bm_received events in
  let forward := bm_forward events in
  expected_nonce ← lift_fault id (parse_stored_nonce nonce);
  refuse (bool_decide (mr_nonce received ≠ expected_nonce)) (Failed $"nonce mismatch");;
  refuse (negb (length (mr_message_body received) + MESSAGE_HEADER_LEN =? length message)%nat)
    (Failed $"message length mismatch");;
  refuse (bool_decide (drop MESSAGE_HEADER_LEN message ≠ mr_message_body received)) (Failed $"message_body mismatch");;
  p ← lift (λ e, Failed (MessageParseError.to_string e)) (parse_cctp_v2_message message);
  refuse (bool_decide (m_nonce p ≠ expected_nonce)) (Failed $"parsed nonce mismatch");;
  refuse (negb (mr_source_domain received =? m_source_domain p)) (Failed $"source domain mismatch");;
  refuse (bool_decide (mr_sender received ≠ m_sender p)) (Failed $"sender mismatch");;
  refuse (negb (mr_finality_threshold_executed received =? m_finality_threshold_executed p))
    (Failed $"executed finality mismatch");;
  refuse (negb (m_min_finality_threshold p =? corridor_min_finality quoted_finality))
    (Failed $"min finality policy mismatch");;
  refuse (m_finality_threshold_executed p <? m_min_finality_threshold p) (Failed $"finality below minimum");;
  let net_cctp := saturating_sub U128 expected_amount_cctp (b_fee_executed (m_body p)) in
  expected_forward ← lift_fault failed_encoding (canonical_to_stellar_local_amount (wrap I128 net_cctp));
  refuse (negb (mf_amount forward =? expected_forward)) (Failed $"forward amount mismatch");;
  lift_fault failed_encoding (stellar_contract_to_bytes32 (sm_usdc v));;
  token_addr ← Return (address_to_strkey (mf_token forward));
  refuse (bool_decide (token_addr ≠ sm_usdc v)) (Failed $"forward token mismatch");;
  lift Failed (stellar_recipients_match recipient (mf_forward_recipient forward)).

Definition completion_outcome (v : StellarRpcMintVerifier) (tx_hash : Str) (message : list Z) (nonce recipient : Str)
    (expected_amount_cctp : Z) (quoted_finality : CctpFinality) : V MintVerifyOutcome :=
  expected_nonce ← lift_fault id (parse_stored_nonce nonce);
  tx ← get_finalized_transaction production (sm_rpc v) tx_hash;
  match ft_status tx with
  | TxStatus.Failed => ok (MintVerifyOutcome.FailedRetryable $"tx failed")
  | TxStatus.Success =>
      mt_hash ← lift_fault failed_encoding (stellar_contract_to_bytes32 (sm_message_transmitter v));
      fwd_hash ← lift_fault failed_encoding (stellar_contract_to_bytes32 (sm_forwarder v));
      found ← Return (find_bound_mint_events tx expected_nonce fwd_hash mt_hash (sm_forwarder v));
      match found with
      | Some events =>
          bind_completion_evidence v message nonce recipient expected_amount_cctp quoted_finality events;;
          ok MintVerifyOutcome.Succeeded
      | None =>
          used ← simulate_is_nonce_used production (sm_rpc v) (sm_message_transmitter v) expected_nonce;
          ok (if used : bool then MintVerifyOutcome.ReconciliationNonceConsumed else MintVerifyOutcome.Pending)
      end
  end.

Definition mint_is_ready (v : StellarRpcMintVerifier) : bool := sm_probe_ok v && stellar_is_ready (sm_rpc v).

(** The facts of a submission, with what differs between its two outcomes. *)
Definition mint_facts (v : StellarRpcMintVerifier) (hash : Str) (message attestation : list Z) (nonce payload_hash : Str)
    (outcome : MintVerifyOutcome) (evidence : option Str) : VerifiedMintFacts :=
  mkVerifiedMintFacts hash STELLAR_TESTNET_CHAIN_ID (sm_forwarder v) $"mint_and_forward" (sha256 message)
    (sha256 attestation) nonce payload_hash outcome evidence.

Definition verify_mint_submission (v : StellarRpcMintVerifier) (tx_hash : Str) (message attestation : list Z)
    (nonce expected_payload_hash : Str) (expected_mint_submitter : option Str) : V VerifiedMintFacts :=
  refuse (negb (mint_is_ready v)) VerifierError.NotReady;;
  tx ← get_finalized_transaction production (sm_rpc v) tx_hash;
  match ft_status tx with
  | TxStatus.Failed =>
      ok (mint_facts v (ft_tx_hash tx) message attestation nonce expected_payload_hash
            (MintVerifyOutcome.FailedRetryable $"tx failed") None)
  | TxStatus.Success =>
      invoke ← Return (parse_invoke_envelope (ft_envelope_xdr tx));
      refuse (match expected_mint_submitter with
              | Some expected => bool_decide (operation_source invoke ≠ expected)
              | None => false
              end) (Failed $"mint submitter mismatch");;
      refuse (bool_decide (contract_strkey invoke ≠ sm_forwarder v)) (Failed $"wrong contract");;
      decoded ← Return (decode_mint_invoke invoke);
      refuse (bool_decide (decoded.1 ≠ message) || bool_decide (decoded.2 ≠ attestation))
        (Failed $"message/attestation mismatch");;
      computed_hash ← Return (payload_hash_from_envelope_xdr (sm_config v) (ft_envelope_xdr tx));
      refuse (bool_decide (computed_hash ≠ expected_payload_hash)) (Failed $"payload hash mismatch");;
      ok (mint_facts v (ft_tx_hash tx) message attestation nonce expected_payload_hash MintVerifyOutcome.Pending
            (Some (operation_source invoke)))
  end.

Definition verify_mint_completion (v : StellarRpcMintVerifier) (tx_hash : Str) (message : list Z) (nonce recipient : Str)
    (quoted_finality : CctpFinality) : V MintVerifyOutcome :=
  refuse (negb (mint_is_ready v)) VerifierError.NotReady;;
  p ← lift (λ e, Failed (MessageParseError.to_string e)) (parse_cctp_v2_message message);
  completion_outcome v tx_hash message nonce recipient (b_amount (m_body p)) quoted_finality.

(** ** Approvals *)

Definition decode_approve (invoke : ParsedInvoke) (expected_owner : Str) : Result (Str * Z * option Z) VerifierError :=
  (reject (bool_decide (function invoke ≠ $"approve")) (Failed $"wrong function");;
   match args invoke with
   | [a0; a1; a2; a3] =>
       owner ← strkey_of a0;
       reject (bool_decide (owner ≠ expected_owner)) (Failed $"wrong approval owner");;
       spender ← strkey_of a1;
       amount ← scval_to_i128 a2;
       Ok (spender, amount, parsed (scval_to_u32 a3))
   | _ => Err (Failed $"approve arg count")
   end)%result.

Definition verify_approval (v : StellarRpcApprovalVerifier) (transfer : CctpTransfer) (tx_hash : Str) (required_amount : Z) :
    V VerifiedApprovalFacts :=
  refuse (negb (sa_probe_ok v && stellar_is_ready (sa_rpc v))) VerifierError.NotReady;;
  tx ← get_finalized_transaction production (sa_rpc v) tx_hash;
  refuse (bool_decide (ft_status tx ≠ TxStatus.Success)) (Failed $"tx failed");;
  invoke ← Return (parse_invoke_envelope (ft_envelope_xdr tx));
  refuse (bool_decide (operation_source invoke ≠ sender transfer) && bool_decide (source_account invoke ≠ sender transfer))
    (Failed $"wrong sender");;
  refuse (bool_decide (contract_strkey invoke ≠ sa_usdc v)) (Failed $"wrong token contract");;
  decoded ← Return (decode_approve invoke (sender transfer));
  let '(spender, approved, expiration_ledger) := decoded : Str * Z * option Z in
  refuse (bool_decide (spender ≠ sa_token_messenger v)) (Failed $"wrong spender");;
  refuse (approved <? required_amount) (Failed $"insufficient approval amount");;
  refuse (match expiration_ledger with
          | Some exp => exp <? ft_ledger tx
          | None => false
          end) (Failed $"approval expired");;
  allowance ← simulate_allowance production (sa_rpc v) (sa_usdc v) (sender transfer) (sa_token_messenger v);
  refuse (allowance <? required_amount) (Failed $"on-chain allowance insufficient");;
  ok (mkVerifiedApprovalFacts (ft_tx_hash tx) (sender transfer) (sa_usdc v) (sa_token_messenger v) (wrap U128 approved)
        STELLAR_TESTNET_CHAIN_ID).

(** stellar_allowance.rs *)
Definition has_sufficient_allowance (c : StellarRpcClient) (probe_ok : bool) (usdc token_messenger owner token spender : Str)
    (amount : Z) : Prog NodeReply (Result bool BuilderError) :=
  refuse (negb (probe_ok && stellar_is_ready c)) BuilderError.NotReady;;
  refuse (bool_decide (token ≠ usdc) || bool_decide (spender ≠ token_messenger))
    (BuilderError.Validation $"wrong token or spender");;
  allowance ← awaited (λ e, BuilderError.AccountLookup (VerifierError.to_string e))
                (simulate_allowance production c token owner spender);
  ok (amount <=? allowance).

End Stellar.
