(* ===== verification/VerifyProps.v ===== *)
(** * Verifiers: what a positive answer means

    A node may answer each request as it likes ([told]). If a verifier answers that a
    transaction burned, delivered or approved, then the node showed the transaction, its
    success, its place in the chain and exactly one event that says so; the facts of a
    burn that match those expected of a transfer are that transfer's burn. *)

From stdpp Require Import base decidable strings numbers list.
From Stdlib Require Import ZArith Lia.
From S2P Require Import Prelude RustStr Result Tasks Xdr CctpTypes CctpMessage CctpTrust CctpStore CctpEncoding.
From S2P Require Import CctpConfig Soroban ChainRpc EvmVerify StellarVerify CctpMessageProps CctpStoreProps CctpEncodingProps.

Local Open Scope Z_scope.
Local Open Scope str_scope.

(** Turns the guards that were passed into what they say. *)
Ltac guards :=
  repeat match goal with
  | Hb : negb _ = false |- _ => apply negb_false_iff in Hb
  | Hb : negb _ = true |- _ => apply negb_true_iff in Hb
  | Hb : bool_decide (_ ≠ _) = false |- _ => apply bool_decide_eq_false, dec_stable in Hb
  | Hb : bool_decide _ = true |- _ => apply bool_decide_eq_true in Hb
  | Hb : _ || _ = false |- _ => apply orb_false_iff in Hb as [? ?]
  | Hb : _ && _ = true |- _ => apply andb_true_iff in Hb as [? ?]
  | Hb : (_ =? _) = true |- _ => apply Z.eqb_eq in Hb
  | Hb : (_ <? _) = false |- _ => apply Z.ltb_ge in Hb
  end.

Section Node.

Context {T : Time} {H : Hex} {K : Strkey} {D : Digest} {X : XdrLib} {S : ScLib} {R : RpcJson} {A : EvmAbi} {J : PayloadJson}.
Context (checks production : bool).
Context (told : ∀ c : NodeCall, NodeReply c → Prop).

(** The node answered a request with a payload and no error. *)
Definition node_says (s : Shape) (r : Rpc) (p : Payload s) : Prop :=
  ∃ text resp, told (Post r) (Ok text) ∧ read_response s text = Ok resp ∧ rpc_error resp = None ∧ rpc_result resp = Some p.

Lemma evm_call_says s r p : returns told (evm_call s r) (Ok p) → node_says s r p.
Proof.
  unfold evm_call. intros Hr. pinv. destruct (rpc_error _) eqn:E; [by case_match|]. pinv. unfold node_says. eauto 10.
Qed.

Lemma stellar_call_says c s r p : returns told (stellar_call production c s r) (Ok p) → node_says s r p.
Proof.
  unfold stellar_call, stellar_post. intros Hr. pinv. destruct (rpc_error _) eqn:E; [done|]. pinv. unfold node_says. eauto 10.
Qed.

(** ** Ethereum *)

(** The node runs on Sepolia. *)
Definition on_sepolia : Prop :=
  ∃ text, node_says SString EthChainId text ∧ parse_hex_uint U64 (trim_start_0x text) = Some SEPOLIA_CHAIN_ID_NUM.

(** The receipt's block has [min] confirmations. *)
Definition confirmed (min : Z) (block_number : option Str) : Prop :=
  ∃ latest latest_num block tx_num,
    node_says SString EthBlockNumber latest ∧ parse_hex_uint U64 (trim_start_0x latest) = Some latest_num ∧
    block_number = Some block ∧ parse_hex_uint U64 (trim_start_0x block) = Some tx_num ∧
    min ≤ Z.max (latest_num - tx_num) 0 + 1.

Lemma ensure_chain_says u : returns told ensure_chain (Ok u) → on_sepolia.
Proof.
  unfold ensure_chain, chain_id. intros Hr. pinv. guards. subst.
  match goal with Hc : returns _ (evm_call _ _) _ |- _ => apply evm_call_says in Hc end. unfold on_sepolia. eauto.
Qed.

(** Unsigned arithmetic, whether it wraps or not, does not give more than the sum. *)
Lemma plain_le z d : 0 ≤ z → Prelude.plain checks U64 z = Some d → d ≤ z.
Proof.
  intros Hz. unfold Prelude.plain. destruct checks; [intros [-> _]%chk_Some; lia|]. intros [= <-].
  unfold wrap; cbn. rewrite Z.sub_0_r, Z.add_0_r. by apply Z.mod_le.
Qed.

Lemma confirmations_say min block_number u :
  returns told (confirmations_ok checks min block_number) (Ok u) → confirmed min block_number.
Proof.
  unfold confirmations_ok. intros Hr. pinv. guards.
  match goal with Hc : returns _ (evm_call _ _) _ |- _ => apply evm_call_says in Hc end.
  do 4 eexists. split_and!; [done..|].
  repeat match goal with Hp : parse_hex_uint _ _ = Some _ |- _ => apply parse_hex_uint_fits in Hp; [|done] end.
  match goal with Hp : Prelude.plain _ _ (saturating_sub _ ?a ?b + 1) = Some ?d |- _ =>
    assert (Hs : saturating_sub U64 a b = Z.max (a - b) 0) by (unfold saturating_sub, clamp, fits in *; cbn in *; lia);
    assert (d ≤ Z.max (a - b) 0 + 1); [|lia]; rewrite Hs in Hp; apply plain_le in Hp; lia end.
Qed.

(** What the chain shows of a burn on Ethereum: a successful, confirmed transaction to the
    token messenger, whose input is a burn, and in its receipt exactly one burn event of
    the messenger, which says the same as the input. *)
Record EvmBurn (v : EvmRpcBurnVerifier) (tx_hash : Str) (tx : EthTransaction) (receipt : EthReceipt) (e : DepositForBurn) : Prop := {
  eb_chain : on_sepolia;
  eb_tx : node_says STransaction (EthGetTransactionByHash (normalize_hash tx_hash)) tx;
  eb_receipt : node_says SReceipt (EthGetTransactionReceipt (normalize_hash tx_hash)) receipt;
  eb_status : er_status receipt = Some ($"0x1");
  eb_confirmed : confirmed (b_min_confirmations v) (er_block_number receipt);
  eb_to : ∃ to, et_to tx = Some to ∧ to_ascii_lowercase to = to_ascii_lowercase (show_address (b_token_messenger v));
  eb_call : ∃ input c, et_input tx = Some input ∧ decode_calldata input = Ok c ∧
    dc_call c = mkBurnCall (ev_amount e) (ev_destination_domain e) (ev_mint_recipient e) (ev_burn_token e)
                  (ev_destination_caller e) (ev_max_fee e) (ev_min_finality_threshold e) ∧
    default [] (dc_hook_data c) = ev_hook_data e;
  eb_event : burn_events (b_token_messenger v) (default [] (er_logs receipt)) = [e];
}.

Lemma calldata_matches c e :
  calldata_matches_event c e = true →
  dc_call c = mkBurnCall (ev_amount e) (ev_destination_domain e) (ev_mint_recipient e) (ev_burn_token e)
                (ev_destination_caller e) (ev_max_fee e) (ev_min_finality_threshold e) ∧
  default [] (dc_hook_data c) = ev_hook_data e.
Proof. unfold calldata_matches_event. intros Hm. guards. destruct c as [[] hook]; cbn in *. by subst. Qed.

Lemma evm_burn_evidence v tx_hash f :
  returns told (EvmVerify.verify_burn checks v tx_hash) (Ok f) →
  ∃ tx receipt e, EvmBurn v tx_hash tx receipt e ∧ et_from tx = Some (f_sender f) ∧
    f = mkVerifiedBurnFacts (normalize_hash tx_hash) SEPOLIA_CHAIN_ID 0 (ev_destination_domain e) (f_sender f)
          (default 0 (chk U128 (ev_amount e))) (address_to_bytes32 (ev_burn_token e)) (ev_mint_recipient e)
          (ev_destination_caller e) (ev_min_finality_threshold e) (non_empty (ev_hook_data e))
          (address_to_bytes32 (b_token_messenger v)) (er_block_number receipt).
Proof.
  unfold EvmVerify.verify_burn. intros Hr. pinv. destruct (burn_events _ _) as [|e [|]] eqn:Ee; try done. pinv. guards.
  repeat match goal with
  | Hc : returns _ (evm_call _ _) _ |- _ => apply evm_call_says in Hc
  | Hc : returns _ ensure_chain _ |- _ => apply ensure_chain_says in Hc
  | Hc : returns _ (confirmations_ok _ _ _) _ |- _ => apply confirmations_say in Hc
  | Hc : calldata_matches_event _ _ = true |- _ => apply calldata_matches in Hc as [? ?]
  end.
  do 3 eexists. split_and!; [|done..]. split; eauto 10.
Qed.

Lemma non_empty_Some {B} (l l' : list B) : Some l = non_empty l' → l' = l.
Proof. destruct l'; cbn; congruence. Qed.

Lemma facts_match_fields e f :
  facts_match e f = Ok tt →
  f_tx_hash e = f_tx_hash f ∧ f_source_domain e = f_source_domain f ∧ f_destination_domain e = f_destination_domain f ∧
  f_amount_cctp_subunits e = f_amount_cctp_subunits f ∧ f_burn_token_bytes32 e = f_burn_token_bytes32 f ∧
  f_mint_recipient_bytes32 e = f_mint_recipient_bytes32 f ∧ f_destination_caller_bytes32 e = f_destination_caller_bytes32 f ∧
  f_min_finality_threshold e = f_min_finality_threshold f ∧ f_sender e = f_sender f ∧ f_hook_data e = f_hook_data f.
Proof. unfold facts_match. intros Hm. rinv. guards. by split_and!. Qed.

(** The burn that a transfer from Ethereum asks for. *)
Record EvmBurnOf (t : CctpTransfer) (tx : EthTransaction) (e : DepositForBurn) : Prop := {
  ebo_sender : et_from tx = Some (sender t);
  ebo_amount : decimal_to_cctp_subunits (amount t) = Ok (ev_amount e);
  ebo_domain : ev_destination_domain e = STELLAR_TESTNET_DOMAIN;
  ebo_token : evm_address_to_bytes32 SEPOLIA_USDC = Ok (address_to_bytes32 (ev_burn_token e));
  ebo_forwarder : stellar_contract_to_bytes32 STELLAR_CCTP_FORWARDER = Ok (ev_mint_recipient e);
  ebo_caller : ev_destination_caller e = ev_mint_recipient e;
  ebo_hook : build_forwarder_hook_data_recipient (recipient t) = Ok (ev_hook_data e);
  ebo_finality : ev_min_finality_threshold e = corridor_min_finality (finality t);
}.

(** The facts of a burn on Ethereum that match those expected of a transfer are that
    transfer's burn. *)
Lemma evm_burn_match v t contracts tx_hash expected f :
  direction t = CctpDirection.EvmToStellar → build_expected_burn_facts t contracts tx_hash = Ok expected →
  0 < f_amount_cctp_subunits expected →
  returns told (EvmVerify.verify_burn checks v tx_hash) (Ok f) → facts_match expected f = Ok tt →
  ∃ tx receipt e, EvmBurn v tx_hash tx receipt e ∧ EvmBurnOf t tx e.
Proof.
  intros Hd He Hpos Hr Hm. destruct (evm_burn_evidence _ _ _ Hr) as (tx & receipt & e & Hb & Hfrom & Ef).
  exists tx, receipt, e. split; [done|].
  apply facts_match_fields in Hm as (_ & _ & Hdom & Hamt & Htok & Hrec & Hcal & Hfin & Hsend & Hhook).
  unfold build_expected_burn_facts, build_corridor_expectations, amount_cctp_subunits in He. rewrite Hd in He. rinv.
  rewrite ?encoded_Ok in *. rewrite Ef in Hdom, Hamt, Htok, Hrec, Hcal, Hfin, Hhook.
  cbn [f_destination_domain f_amount_cctp_subunits f_burn_token_bytes32 f_mint_recipient_bytes32 f_destination_caller_bytes32
       f_min_finality_threshold f_sender f_hook_data e_burn_token e_mint_recipient e_destination_caller e_hook_data] in *.
  apply non_empty_Some in Hhook. subst.
  assert (Hu : default 0 (chk U128 (ev_amount e)) = ev_amount e).
  { destruct (chk U128 (ev_amount e)) as [z|] eqn:Ez; cbn [default from_option] in Hpos |- *; [|lia].
    by apply chk_Some in Ez as [-> _]. }
  rewrite Hu in *. split; congruence.
Qed.

(** C11: A verified burn on Ethereum is the transfer's burn. If the verifier returns facts
    and they match those expected of a transfer with a positive amount, then the node
    showed, on Sepolia, a successful and confirmed transaction to the token messenger
    sent by the transfer's sender, whose input and whose only burn event say that
    exactly the transfer's amount of USDC was burned for Stellar, through the forwarder,
    with a hook that names the transfer's recipient and the finality it asked for. *)
Theorem evm_burn_is_transfer_burn v t contracts tx_hash expected f :
  direction t = CctpDirection.EvmToStellar → build_expected_burn_facts t contracts tx_hash = Ok expected →
  0 < f_amount_cctp_subunits expected →
  returns told (EvmVerify.verify_burn checks v tx_hash) (Ok f) → facts_match expected f = Ok tt →
  ∃ tx receipt e, EvmBurn v tx_hash tx receipt e ∧ EvmBurnOf t tx e.
Proof. apply evm_burn_match. Qed.

(** The sender is compared as text: an address with upper-case digits, as wallets show it,
    is never that of a verified burn when the node writes addresses in lower case. *)
Theorem checksummed_sender_refused v t contracts tx_hash expected f :
  (∀ tx from, node_says STransaction (EthGetTransactionByHash (normalize_hash tx_hash)) tx → et_from tx = Some from →
     to_ascii_lowercase from = from) →
  to_ascii_lowercase (sender t) ≠ sender t → build_expected_burn_facts t contracts tx_hash = Ok expected →
  returns told (EvmVerify.verify_burn checks v tx_hash) (Ok f) → facts_match expected f ≠ Ok tt.
Proof.
  intros Hlow Hs He Hr Hm. destruct (evm_burn_evidence _ _ _ Hr) as (tx & receipt & e & Hb & Hfrom & _).
  apply facts_match_fields in Hm as (_ & _ & _ & _ & _ & _ & _ & _ & Hsend & _).
  assert (f_sender expected = sender t) as Et.
  { unfold build_expected_burn_facts in He. destruct (direction t); rinv; done. }
  apply Hs. rewrite <- Et, Hsend. by eapply Hlow; [apply Hb|].
Qed.

(** A hash with upper-case digits or without its prefix is looked up in its normal form,
    and then compared as it was given: its burn is refused. *)
Theorem unnormalized_hash_refused v t contracts tx_hash expected f :
  normalize_hash tx_hash ≠ tx_hash → build_expected_burn_facts t contracts tx_hash = Ok expected →
  returns told (EvmVerify.verify_burn checks v tx_hash) (Ok f) → facts_match expected f ≠ Ok tt.
Proof.
  intros Hn He Hr Hm. destruct (evm_burn_evidence _ _ _ Hr) as (tx & receipt & e & _ & _ & Ef).
  apply facts_match_fields in Hm as (Htx & _). rewrite Ef in Htx. cbn [f_tx_hash] in Htx. apply Hn. rewrite <- Htx.
  unfold build_expected_burn_facts in He. destruct (direction t); rinv; done.
Qed.

(** ** Deliveries on Ethereum *)

(** The message deliveries that the logs of a receipt show. *)
Definition received_events (transmitter : list Z) (logs : list EthLog) : list MessageReceived :=
  omap (λ log, log_of transmitter log ≫= λ '(topics, data), decode_received_log topics data) logs.

(** The chain shows one delivery of the message: in a successful, confirmed transaction,
    exactly one event of the transmitter has its source, nonce, sender and body. *)
Record EvmDelivery (v : EvmRpcMintVerifier) (tx_hash : Str) (message : list Z) (nonce : Str) (receipt : EthReceipt)
    (m : MessageReceived) : Prop := {
  ed_receipt : node_says SReceipt (EthGetTransactionReceipt (normalize_hash tx_hash)) receipt;
  ed_status : er_status receipt = Some ($"0x1");
  ed_confirmed : confirmed (m_min_confirmations v) (er_block_number receipt);
  ed_message : ∃ p, parse_cctp_v2_message message = Ok p ∧ rv_source_domain m = m_source_domain p ∧
    rv_nonce m = m_nonce p ∧ rv_sender m = m_sender p ∧ parse_stored_nonce nonce = Ok (m_nonce p);
  ed_body : rv_message_body m = drop MESSAGE_HEADER_LEN message;
  ed_once : ∃ p, parse_message_fields message = Ok p ∧
    filter (λ m', receives p m' = true) (received_events (m_message_transmitter v) (default [] (er_logs receipt))) = [m];
}.

Lemma evm_completion_evidence v tx_hash message nonce :
  returns told (EvmVerify.completion_outcome checks v tx_hash message nonce) (Ok MintVerifyOutcome.Succeeded) →
  ∃ receipt m, EvmDelivery v tx_hash message nonce receipt m.
Proof.
  unfold EvmVerify.completion_outcome. intros Hr. apply returns_mtry in Hr as (p & Hp & Hr). cbn in Hp. pose proof Hp as Hp'.
  unfold parse_message_fields in Hp. pinv. case_bool_decide as Hst; [pinv; done|]. pinv. guards. rinv.
  destruct (decode_message_received_logs _ _ _) as [|[|n]] eqn:El; [pinv; by case_match| |done].
  unfold decode_message_received_logs in El. fold (received_events (m_message_transmitter v) (default [] (er_logs x1))) in El.
  destruct (filter _ _) as [|m [|]] eqn:Ef; try done.
  assert (Hm : m ∈ [m]) by left. rewrite <- Ef in Hm. apply list_elem_of_filter in Hm as [Hrec Hm].
  unfold receives in Hrec. guards. cbn in *.
  exists x1, m. split; try done.
  - by apply evm_call_says.
  - by eapply confirmations_say.
  - eexists. split_and!; [done..|congruence].
  - eexists. split; [exact Hp'|]. exact Ef.
Qed.

(** ** Stellar *)

(** The node showed the transaction that has this hash in this network, in a ledger that
    is not ahead of the latest one, with its events. *)
Record Finalized (c : StellarRpcClient) (tx_hash : Str) (ft : FinalizedTx) : Prop := {
  fz_hash : normalize_stellar_tx_hash tx_hash = Ok (ft_tx_hash ft);
  fz_envelope : transaction_hash_from_envelope_xdr (ft_envelope_xdr ft) (network_passphrase c) = Ok (ft_tx_hash ft);
  fz_node : ∃ r, node_says SStellarTx (GetTransaction (ft_tx_hash ft)) r ∧
    gt_status r = (if decide (ft_status ft = TxStatus.Success) then $"SUCCESS" else $"FAILED") ∧
    gt_envelope_xdr r = Some (ft_envelope_xdr ft) ∧ gt_ledger r = Some (ft_ledger ft) ∧
    collect_contract_events (default [] (gt_contract_events_xdr r)) = Ok (ft_contract_events ft) ∧
    ∃ latest, (gt_latest_ledger r = Some latest ∨ node_says SLedger GetLatestLedger latest) ∧ ft_ledger ft ≤ latest;
}.

Lemma finalized_says c tx_hash ft :
  returns told (get_finalized_transaction production c tx_hash) (Ok ft) → Finalized c tx_hash ft.
Proof.
  unfold get_finalized_transaction, stellar_post. intros Hr. pinv.
  destruct (rpc_error _) eqn:Ee; [done|]. unfold ensure_finalized in Hr. pinv. guards. subst.
  match goal with Hs : check_status _ = _ |- _ => unfold check_status in Hs; rename Hs into Hst end.
  split; cbn [ft_tx_hash ft_envelope_xdr ft_status ft_ledger ft_contract_events]; [done..|].
  eexists. split_and!; [unfold node_says; by eauto 10| |done..|].
  - by repeat case_bool_decide.
  - destruct (gt_latest_ledger _) as [l|] eqn:El; pinv; eexists; (split; [|done]); [by left|].
    right. by apply (stellar_call_says c).
Qed.

(** What the chain shows of a burn on Stellar: a successful transaction whose only
    operation calls the token messenger to burn, for the account that it acts for; in
    its events exactly one burn, which says the same as the call, and exactly one
    message, which carries the burn. *)
Record StellarBurn (v : StellarRpcBurnVerifier) (tx_hash : Str) (ft : FinalizedTx) (c : DecodedBurnInvoke)
    (e : DepositForBurnEvent) (m : ParsedCctpMessage) : Prop := {
  sbu_final : Finalized (sb_rpc v) tx_hash ft;
  sbu_status : ft_status ft = TxStatus.Success;
  sbu_invoke : ∃ invoke, parse_invoke_envelope (ft_envelope_xdr ft) = Ok invoke ∧
    contract_strkey invoke = sb_token_messenger v ∧ decode_burn_invoke invoke = Ok c ∧ di_caller c = operation_source invoke;
  sbu_events : ∃ tm mt raw, stellar_contract_to_bytes32 (sb_token_messenger v) = Ok tm ∧
    stellar_contract_to_bytes32 (sb_message_transmitter v) = Ok mt ∧
    events_of tm parse_deposit_for_burn (ft_contract_events ft) = Ok [e] ∧
    events_of mt parse_message_sent (ft_contract_events ft) = Ok [mkMessageSentEvent raw] ∧
    parse_cctp_v2_message raw = Ok m;
  sbu_caller : address_to_strkey (d_depositor e) = Ok (di_caller c);
  sbu_token : address_to_strkey (d_burn_token e) = Ok (di_burn_token c);
  sbu_call : d_destination_domain e = di_destination_domain c ∧ d_mint_recipient e = di_mint_recipient c ∧
    d_destination_caller e = di_destination_caller c ∧ d_min_finality_threshold e = di_min_finality c ∧
    d_hook_data e = di_hook_data c;
  sbu_local : 0 < d_amount e ∧ di_local_amount c = 10 * d_amount e;
  sbu_message : b_amount (m_body m) = wrap U128 (d_amount e) ∧ b_mint_recipient (m_body m) = d_mint_recipient e ∧
    m_destination_domain m = d_destination_domain e ∧ m_recipient m = d_destination_token_messenger e;
}.

Lemma parsed_Some {B E} (r : Result B E) b : parsed r = Some b ↔ r = Ok b.
Proof. destruct r; cbn; naive_solver. Qed.

Lemma canonical_amount_Ok local n : stellar_local_to_canonical_amount local = Ok n → 0 < n ∧ local = 10 * n.
Proof.
  unfold stellar_local_to_canonical_amount. intros E. rinv. guards. apply Z.leb_gt in H0.
  pose proof (Z.quot_rem' local 10). lia.
Qed.

Lemma find_burn_events_Ok events tm mt e raw :
  find_burn_events events tm mt = Ok (e, raw) →
  events_of tm parse_deposit_for_burn events = Ok [e] ∧ events_of mt parse_message_sent events = Ok [mkMessageSentEvent raw].
Proof.
  unfold find_burn_events. intros Hf. rinv. repeat case_match; simplify_eq. split; [done|]. by destruct m.
Qed.

Lemma stellar_burn_evidence v tx_hash f :
  returns told (StellarVerify.verify_burn production v tx_hash) (Ok f) →
  ∃ ft c e m tm token, StellarBurn v tx_hash ft c e m ∧
    stellar_contract_to_bytes32 (sb_token_messenger v) = Ok tm ∧ stellar_contract_to_bytes32 (di_burn_token c) = Ok token ∧
    f = mkVerifiedBurnFacts (ft_tx_hash ft) STELLAR_TESTNET_CHAIN_ID (m_source_domain m) (d_destination_domain e)
          (di_caller c) (wrap U128 (d_amount e)) token (d_mint_recipient e) (d_destination_caller e)
          (d_min_finality_threshold e) (non_empty (d_hook_data e)) tm (Some (display (ft_ledger ft))).
Proof.
  unfold StellarVerify.verify_burn. intros Hr. do 9 (apply returns_mtry in Hr as (? & ? & Hr)).
  apply returns_mtry in Hr as ([e raw] & Hf & Hr). pinv. guards. apply find_burn_events_Ok in Hf as [Hf1 Hf2].
  match goal with Hm : invoke_matches_event _ _ = true |- _ => unfold invoke_matches_event in Hm end. guards.
  rewrite ?parsed_Some in *.
  match goal with Hc : stellar_local_to_canonical_amount _ = Ok _ |- _ => apply canonical_amount_Ok in Hc end.
  match goal with Hc : returns _ (get_finalized_transaction _ _ _) _ |- _ => apply finalized_says in Hc end.
  do 6 eexists. split_and!; [|done..]. split; try done; [by eauto 10|by do 3 eexists; split_and!|by subst].
Qed.

(** The burn that a transfer from Stellar asks for. The amounts of a contract are [i128]. *)
Record StellarBurnOf (t : CctpTransfer) (contracts : CctpContractAddresses) (c : DecodedBurnInvoke) (e : DepositForBurnEvent)
    (m : ParsedCctpMessage) : Prop := {
  sbo_sender : di_caller c = sender t;
  sbo_message_amount : amount_cctp_subunits t = Ok (b_amount (m_body m));
  sbo_amount : fits I128 (d_amount e) → amount_cctp_subunits t = Ok (d_amount e) ∧ di_local_amount c = 10 * b_amount (m_body m);
  sbo_domains : m_source_domain m = STELLAR_TESTNET_DOMAIN ∧ m_destination_domain m = SEPOLIA_DOMAIN;
  sbo_token : stellar_contract_to_bytes32 (di_burn_token c) = stellar_contract_to_bytes32 (stellar_usdc contracts);
  sbo_recipient : evm_address_to_bytes32 (recipient t) = Ok (d_mint_recipient e);
  sbo_caller : d_destination_caller e = ANY_DESTINATION_CALLER;
  sbo_hook : d_hook_data e = [];
  sbo_finality : d_min_finality_threshold e = corridor_min_finality (finality t);
}.

Lemma wrap_u128_id n : 0 < n → fits I128 n → wrap U128 n = n.
Proof. intros Hn Hf. apply wrap_id. unfold fits in *; cbn in *; lia. Qed.

(** The same for a burn on Stellar. *)
Lemma stellar_burn_match v t contracts tx_hash expected f :
  direction t = CctpDirection.StellarToEvm → build_expected_burn_facts t contracts tx_hash = Ok expected →
  returns told (StellarVerify.verify_burn production v tx_hash) (Ok f) → facts_match expected f = Ok tt →
  ∃ ft c e m, StellarBurn v tx_hash ft c e m ∧ StellarBurnOf t contracts c e m.
Proof.
  intros Hd He Hr Hm. destruct (stellar_burn_evidence _ _ _ Hr) as (ft & c & e & m & tm & token & Hb & _ & Htk & Ef).
  exists ft, c, e, m. split; [done|].
  apply facts_match_fields in Hm as (_ & Hsd & Hdom & Hamt & Htok & Hrec & Hcal & Hfin & Hsend & Hhook).
  unfold build_expected_burn_facts, build_corridor_expectations in He. rewrite Hd in He. rinv. rewrite ?encoded_Ok in *.
  cbn [f_source_domain f_destination_domain f_amount_cctp_subunits f_burn_token_bytes32 f_mint_recipient_bytes32
       f_destination_caller_bytes32 f_min_finality_threshold f_sender f_hook_data e_burn_token e_mint_recipient
       e_destination_caller e_hook_data] in *.
  destruct Hb as [_ _ _ _ _ _ _ [Hpos Hloc] (Hma & _ & Hmd & _)].
  split; try congruence.
  - intros Hf. rewrite Hma, wrap_u128_id in * by done. by split; [congruence|].
  - split; congruence.
  - by destruct (d_hook_data e).
Qed.

(** C12: A verified burn on Stellar is the transfer's burn. If the verifier returns facts
    and they match those expected of a transfer, then the node showed a successful
    transaction of this hash whose only operation is the sender's call to the token
    messenger, whose only burn event says the same as the call, and whose only message
    carries exactly the transfer's amount to the transfer's recipient on Ethereum; the
    call burned ten units of the ledger for each unit of the amount. *)
Theorem stellar_burn_is_transfer_burn v t contracts tx_hash expected f :
  direction t = CctpDirection.StellarToEvm → build_expected_burn_facts t contracts tx_hash = Ok expected →
  returns told (StellarVerify.verify_burn production v tx_hash) (Ok f) → facts_match expected f = Ok tt →
  ∃ ft c e m, StellarBurn v tx_hash ft c e m ∧ StellarBurnOf t contracts c e m.
Proof. apply stellar_burn_match. Qed.

(** ** Deliveries on Stellar *)

(** The chain shows one delivery of the message: a successful transaction in which the
    forwarder emitted exactly one forwarding, of USDC, of the amount of the message less
    the fee, to the recipient, and the transmitter exactly one receipt of the message,
    by the forwarder, with the message's nonce and body. *)
Record StellarDelivery (v : StellarRpcMintVerifier) (tx_hash : Str) (message : list Z) (nonce recipient : Str)
    (expected_amount : Z) (fin : CctpFinality) (ft : FinalizedTx) (fw : MintAndForwardEvent) (rv : MessageReceivedEvent) : Prop := {
  sd_final : Finalized (sm_rpc v) tx_hash ft;
  sd_status : ft_status ft = TxStatus.Success;
  sd_events : ∃ fwd mt received, stellar_contract_to_bytes32 (sm_forwarder v) = Ok fwd ∧
    stellar_contract_to_bytes32 (sm_message_transmitter v) = Ok mt ∧
    events_of fwd parse_mint_and_forward (ft_contract_events ft) = Ok [fw] ∧
    events_of mt parse_message_received (ft_contract_events ft) = Ok received ∧
    filter (λ ev, mr_nonce ev = mr_nonce rv) received = [rv] ∧ address_to_strkey (mr_caller rv) = Ok (sm_forwarder v);
  sd_body : mr_message_body rv = drop MESSAGE_HEADER_LEN message;
  sd_message : ∃ p, parse_cctp_v2_message message = Ok p ∧ mr_nonce rv = m_nonce p ∧ parse_stored_nonce nonce = Ok (m_nonce p) ∧
    mr_source_domain rv = m_source_domain p ∧ mr_sender rv = m_sender p ∧
    corridor_min_finality fin ≤ mr_finality_threshold_executed rv ∧
    mf_amount fw = 10 * wrap I128 (saturating_sub U128 expected_amount (b_fee_executed (m_body p)));
  sd_token : address_to_strkey (mf_token fw) = Ok (sm_usdc v);
  sd_recipient : ∃ k, parse_recipient_strkey recipient = Ok k ∧ parse_recipient_strkey (mf_forward_recipient fw) = Ok k ∧
    is_contract_key k = false;
}.

Lemma recipients_match_Ok a b :
  stellar_recipients_match a b = Ok tt →
  ∃ k, parse_recipient_strkey a = Ok k ∧ parse_recipient_strkey b = Ok k ∧ is_contract_key k = false.
Proof. unfold stellar_recipients_match. intros Hm. rinv. guards. subst. eauto. Qed.

Lemma find_bound_Ok tx n fwd mt fs events :
  find_bound_mint_events tx n fwd mt fs = Ok (Some events) →
  ∃ received, events_of fwd parse_mint_and_forward (ft_contract_events tx) = Ok [bm_forward events] ∧
    events_of mt parse_message_received (ft_contract_events tx) = Ok received ∧
    filter (λ ev, mr_nonce ev = n) received = [bm_received events] ∧ address_to_strkey (mr_caller (bm_received events)) = Ok fs.
Proof.
  unfold find_bound_mint_events. intros Hf. rinv. case_match; case_match; try done; repeat (case_match; try done).
  rinv. guards. subst. cbn. eauto.
Qed.

Lemma stellar_completion_evidence v tx_hash message nonce recipient amount fin :
  returns told (StellarVerify.completion_outcome production v tx_hash message nonce recipient amount fin)
    (Ok MintVerifyOutcome.Succeeded) →
  ∃ ft fw rv, StellarDelivery v tx_hash message nonce recipient amount fin ft fw rv.
Proof.
  unfold StellarVerify.completion_outcome. intros Hr. pinv. destruct (ft_status _) eqn:Es; [|done]. pinv.
  case_match; [|pinv; by case_match]. unfold bind_completion_evidence in Hr. pinv. guards.
  match goal with Hf : find_bound_mint_events _ _ _ _ _ = _ |- _ => apply find_bound_Ok in Hf as (received & ? & ? & ? & ?) end.
  match goal with Hf : stellar_recipients_match _ _ = _ |- _ => apply recipients_match_Ok in Hf end.
  match goal with Hf : returns _ (get_finalized_transaction _ _ _) _ |- _ => apply finalized_says in Hf end.
  match goal with Hc : canonical_to_stellar_local_amount _ = Ok _ |- _ =>
    unfold canonical_to_stellar_local_amount in Hc; rinv; apply chk_Some in Hc as [-> _] end.
  simplify_eq.
  repeat match goal with E1 : parse_stored_nonce ?n = Ok _, E2 : parse_stored_nonce ?n = Ok _ |- _ =>
    rewrite E1 in E2; injection E2 as E2; subst end.
  do 3 eexists. split; try done.
  - by do 3 eexists; split_and!.
  - eexists. split_and!; try done; try congruence; lia.
Qed.

(** ** Approvals *)

(** The chain shows the approval: a successful, confirmed transaction of the owner to the
    token that lets the messenger spend [amount]. *)
Record EvmApproval (v : EvmRpcApprovalVerifier) (owner tx_hash : Str) (amount : Z) : Prop := {
  ea_chain : on_sepolia;
  ea_tx : ∃ tx from to input bytes, node_says STransaction (EthGetTransactionByHash (normalize_hash tx_hash)) tx ∧
    et_from tx = Some from ∧ eq_ignore_ascii_case from owner = true ∧
    et_to tx = Some to ∧ to_ascii_lowercase to = to_ascii_lowercase (show_address (p_usdc v)) ∧
    et_input tx = Some input ∧ hex_decode (trim_start_0x input) = Some bytes ∧
    abi_decode FApprove bytes = Ok (p_token_messenger v, amount);
  ea_receipt : ∃ block, node_says SReceiptStatus (EthGetTransactionReceipt (normalize_hash tx_hash)) (Some ($"0x1"), block) ∧
    confirmed (p_min_confirmations v) block;
}.

Lemma evm_approval_evidence v t tx_hash required f :
  returns told (EvmVerify.verify_approval checks v t tx_hash required) (Ok f) →
  EvmApproval v (sender t) tx_hash (a_amount f) ∧ required ≤ a_amount f ∧ fits U128 (a_amount f).
Proof.
  unfold EvmVerify.verify_approval. intros Hr. pinv. destruct x11 as [spender amount], x2 as [status block].
  pinv. guards. cbn [fst snd a_amount] in *. subst.
  match goal with Hc : chk U128 _ = Some _ |- _ => apply chk_Some in Hc as [-> ?] end.
  repeat match goal with
  | Hc : returns _ (evm_call _ _) _ |- _ => apply evm_call_says in Hc
  | Hc : returns _ ensure_chain _ |- _ => apply ensure_chain_says in Hc
  | Hc : returns _ (confirmations_ok _ _ _) _ |- _ => apply confirmations_say in Hc
  end.
  split_and!; try done. split; [done| |by eexists]. do 5 eexists. split_and!; done.
Qed.

(** The allowance that a wallet sets when it is asked for no limit does not fit 128 bits,
    and its approval is refused. *)
Theorem unlimited_approval_refused v t tx_hash required f :
  (∀ tx input bytes spender amount,
     node_says STransaction (EthGetTransactionByHash (normalize_hash tx_hash)) tx → et_input tx = Some input →
     hex_decode (trim_start_0x input) = Some bytes → abi_decode FApprove bytes = Ok (spender, amount) → 2 ^ 128 ≤ amount) →
  ¬ returns told (EvmVerify.verify_approval checks v t tx_hash required) (Ok f).
Proof.
  intros Hbig Hr. apply evm_approval_evidence in Hr as [[_ Htx _] [_ Hf]].
  destruct Htx as (tx & from & to & input & bytes & Htx & _ & _ & _ & _ & Hi & Hb & Ha).
  specialize (Hbig _ _ _ _ _ Htx Hi Hb Ha). unfold fits in Hf. cbn in Hf. lia.
Qed.

(** The chain shows the approval on Stellar: the owner's successful call, which had not
    expired in its ledger, and in a simulation now an allowance that is as large. *)
Record StellarApproval (v : StellarRpcApprovalVerifier) (owner tx_hash : Str) (required : Z) (ft : FinalizedTx) : Prop := {
  sap_final : Finalized (sa_rpc v) tx_hash ft;
  sap_status : ft_status ft = TxStatus.Success;
  sap_invoke : ∃ invoke approved expiration, parse_invoke_envelope (ft_envelope_xdr ft) = Ok invoke ∧
    (operation_source invoke = owner ∨ source_account invoke = owner) ∧ contract_strkey invoke = sa_usdc v ∧
    decode_approve invoke owner = Ok (sa_token_messenger v, approved, expiration) ∧ required ≤ approved ∧
    (∀ exp, expiration = Some exp → ft_ledger ft ≤ exp);
  sap_now : ∃ allowance, required ≤ allowance ∧
    returns told (simulate_allowance production (sa_rpc v) (sa_usdc v) owner (sa_token_messenger v)) (Ok allowance);
}.

Lemma stellar_approval_evidence v t tx_hash required f :
  returns told (StellarVerify.verify_approval production v t tx_hash required) (Ok f) →
  ∃ ft, StellarApproval v (sender t) tx_hash required ft ∧ a_tx_hash f = ft_tx_hash ft.
Proof.
  unfold StellarVerify.verify_approval. intros Hr. do 6 (apply returns_mtry in Hr as (? & ? & Hr)).
  apply returns_mtry in Hr as ([[spender approved] expiration] & Hd & Hr). pinv. guards. subst.
  match goal with Hc : returns _ (get_finalized_transaction _ _ _) _ |- _ => apply finalized_says in Hc end.
  eexists. split; [|done]. split; [done..| |by eauto]. do 3 eexists. split_and!; try done.
  - match goal with Hs : _ && _ = false |- _ => apply andb_false_iff in Hs as [Hs|Hs] end; guards; eauto.
  - intros exp ->. by apply Z.ltb_ge.
Qed.

End Node.

(** ** A concrete pair of chains

    Transactions of two transfers of 12.5 USDC, one each way. The codecs know these
    transactions only; the toy addresses of a contract are all the same. *)

#[local] Existing Instance seconds.
#[local] Existing Instance pairs.
#[local] Existing Instance toy_strkey.
Local Open Scope record_scope.

Definition from_evm : CctpTransfer :=
  (sample_transfer 1) <| direction := CctpDirection.EvmToStellar |> <| sender := SEPOLIA_USDC |>
    <| recipient := $"G" |> <| amount := $"12.5" |>.

Definition from_stellar : CctpTransfer :=
  (sample_transfer 1) <| direction := CctpDirection.StellarToEvm |> <| sender := $"G" |>
    <| recipient := SEPOLIA_USDC |> <| amount := $"12.5" |>.

Definition chain_contracts : CctpContractAddresses := contracts default_testnet.

(** What the corridor expects of a transfer: its message and the facts of its burn. *)
Definition message_of (t : CctpTransfer) : list Z :=
  match build_corridor_expectations t chain_contracts with
  | Ok e => build_synthetic_cctp_message e
  | Err _ => []
  end.

Definition burn_of (t : CctpTransfer) (tx_hash : Str) : VerifiedBurnFacts :=
  match build_expected_burn_facts t chain_contracts tx_hash with
  | Ok f => f
  | Err _ => mkVerifiedBurnFacts [] [] 0 0 [] 0 [] [] [] 0 None [] None
  end.

(** Transactions of Stellar are told apart by their sequence number: one byte of their
    hash, thirty-two times. *)
Definition burn_seq : Z := 170.
Definition mint_seq : Z := 187.
Definition burn_hash : Str := concat (replicate 32 $"aa").
Definition mint_hash : Str := concat (replicate 32 $"bb").

Definition contract_key : list Z := replicate 32 3.
Definition account_key : list Z := replicate 32 1.

Definition burn_args : list ScVal :=
  let f := burn_of from_stellar burn_hash in
  [ScAddr (ScAccount account_key); i128_scval (10 * f_amount_cctp_subunits f); ScU32 (f_destination_domain f);
   ScBytes (f_mint_recipient_bytes32 f); ScAddr (ScContract contract_key); ScBytes (f_destination_caller_bytes32 f);
   i128_scval 0; ScU32 (f_min_finality_threshold f)].

Definition envelope (seq : Z) : TransactionEnvelope :=
  EnvelopeTx (mkTransaction (Ed25519 account_key) 100 seq (CondTime 0 0) MemoNone
    [mkOperation None (InvokeHostFunction (InvokeContract (ScContract contract_key) $"deposit_for_burn" burn_args) [])]
    ExtV0) [].

(** The events of the burn and of the delivery on Stellar. *)
Definition chain_event (name : Str) (ts : list ScVal) (fields : list (Str * ScVal)) : ContractEvent :=
  mkContractEvent (Some contract_key) (ScSymbol name :: ts) (ScMap (Some ((λ '(k, v), (ScSymbol k, v)) <$> fields))).

Definition burn_event : ContractEvent :=
  let f := burn_of from_stellar burn_hash in
  chain_event $"deposit_for_burn"
    [ScAddr (ScContract contract_key); ScAddr (ScAccount account_key); ScU32 (f_min_finality_threshold f)]
    [($"amount", i128_scval (f_amount_cctp_subunits f)); ($"mint_recipient", ScBytes (f_mint_recipient_bytes32 f));
     ($"destination_domain", ScU32 (f_destination_domain f));
     ($"destination_token_messenger", ScBytes (take 32 (drop 76 (message_of from_stellar))));
     ($"destination_caller", ScBytes (f_destination_caller_bytes32 f)); ($"max_fee", i128_scval 0)].

Definition sent_event : ContractEvent :=
  chain_event $"message_sent" [] [($"message", ScBytes (message_of from_stellar))].

Definition forward_event : ContractEvent :=
  chain_event $"mint_and_forward" []
    [($"forward_recipient", ScAddr (ScAccount account_key)); ($"token", ScAddr (ScContract contract_key));
     ($"amount", i128_scval 125000000)].

Definition received_event : ContractEvent :=
  let m := message_of from_evm in
  chain_event $"message_received"
    [ScAddr (ScContract contract_key); ScBytes (replicate 32 0); ScU32 2000]
    [($"source_domain", ScU32 SEPOLIA_DOMAIN); ($"sender", ScBytes (take 32 (drop 44 m)));
     ($"message_body", ScBytes (drop MESSAGE_HEADER_LEN m))].

(** The burn on Ethereum. *)
Definition messenger : list Z := drop 12 (f_token_messenger_bytes32 (burn_of from_evm $"0xaa")).

Definition evm_event : DepositForBurn :=
  let f := burn_of from_evm $"0xaa" in
  mkDepositForBurn (drop 12 (f_burn_token_bytes32 f)) (f_amount_cctp_subunits f) (replicate 20 6)
    (f_mint_recipient_bytes32 f) (f_destination_domain f) (replicate 32 0) (f_destination_caller_bytes32 f) 0
    (f_min_finality_threshold f) (default [] (f_hook_data f)).

Definition evm_call_data : BurnCall :=
  mkBurnCall (ev_amount evm_event) (ev_destination_domain evm_event) (ev_mint_recipient evm_event)
    (ev_burn_token evm_event) (ev_destination_caller evm_event) 0 (ev_min_finality_threshold evm_event).

#[local] Instance chain_digest : Digest := take 32.
#[local] Instance chain_xdr : XdrLib := {|
  signature_payload := λ _ tx, Ok (replicate 32 (tx_seq_num tx));
  to_xdr_base64 := λ _, Err $"unknown";
  from_xdr_base64 := λ s, Ok (envelope (if bool_decide (s = burn_hash) then burn_seq else mint_seq));
  valid_key := λ _, false;
  ed25519_verify := λ _ _ _, false;
  base64_valid := λ _, false;
|}.
#[local] Instance chain_sc : ScLib := {|
  event_from_xdr_base64 := λ s,
    if bool_decide (s = $"burn") then Ok burn_event
    else if bool_decide (s = $"sent") then Ok sent_event
    else if bool_decide (s = $"forward") then Ok forward_event
    else Ok received_event;
  scval_from_xdr_base64 := λ _, Err $"unknown";
  account_key_to_xdr_base64 := λ _, Err $"unknown";
  account_entry_from_xdr_base64 := λ _, Err $"unknown";
|}.
#[local] Instance chain_payload : PayloadJson := λ _, Ok $"payload".

(** A text is the hash that was asked for, or the answer itself. *)
#[local] Instance chain_json : RpcJson := {|
  request_len := λ _, 100;
  read_response := λ s text,
    Ok (mkRpcResponse (Some (match s return Payload s with
        | STransaction => mkEthTransaction (Some SEPOLIA_USDC) (Some (show_address messenger)) (Some $"0x779b432d")
        | SReceipt => mkEthReceipt (Some $"0x1") (Some [mkEthLog (show_address messenger) [$"topic"] $"data"]) (Some $"0x10")
        | SReceiptStatus => (Some $"0x1", Some $"0x10")
        | SString => text
        | SLedger => 100
        | SEntries | SSimulation => []
        | SStellarTx => mkGetTransactionResult $"SUCCESS" None (Some 90) (Some 100) None (Some text)
            (Some [if bool_decide (text = burn_hash) then [$"burn"; $"sent"] else [$"forward"; $"received"]])
        end)) None);
|}.
#[local] Instance chain_abi : EvmAbi := {|
  abi_encode := λ _ _, [];
  abi_decode := λ f _,
    match f return Result (AbiArgs f) Str with
    | FDepositForBurnWithHook => Ok (evm_call_data, ev_hook_data evm_event)
    | _ => Err $"unknown"
    end;
  decode_deposit_log := λ _ _, Some evm_event;
  decode_received_log := λ _ _, None;
  parse_address := λ _, None;
  parse_b256 := λ s, Some s;
  parse_bytes := λ s, Some s;
  u256_from_be_slice := λ bytes, Some (be_value bytes);
|}.

(** The nodes of both chains. *)
Definition chain_node (c : NodeCall) : NodeReply c :=
  match c return NodeReply c with
  | Post (GetTransaction hash) => Ok hash
  | Post EthChainId => Ok $"0xaa36a7"
  | Post EthBlockNumber => Ok $"0x20"
  | Post _ => Ok []
  | Clock => 0
  end.

Definition chain_client : StellarRpcClient :=
  mkStellarRpcClient $"https://rpc.example" $"rpc.example" STELLAR_TESTNET_PASSPHRASE.
Definition chain_evm_burn : EvmRpcBurnVerifier := mkEvmRpcBurnVerifier messenger DEFAULT_MIN_CONFIRMATIONS true.
Definition chain_stellar_burn : StellarRpcBurnVerifier := mkStellarRpcBurnVerifier chain_client $"C" $"C" true.
Definition chain_stellar_mint : StellarRpcMintVerifier :=
  mkStellarRpcMintVerifier chain_client $"C" $"C" $"C" default_testnet true.

(** The facts that a verifier returns. *)
Definition shown (p : Prog NodeReply (Result VerifiedBurnFacts VerifierError)) : VerifiedBurnFacts :=
  match run_with chain_node p with
  | Some (Ok f) => f
  | _ => burn_of from_evm []
  end.

Local Abbreviation chain_told := (λ c r, r = chain_node c).

Lemma evm_burn_is_transfer_burn_witness :
  ev_amount evm_event = 12500000 ∧
  ∃ tx receipt e, EvmBurn chain_told chain_evm_burn $"0xaa" tx receipt e ∧ EvmBurnOf from_evm tx e.
Proof.
  split; [by vm_compute|].
  apply (evm_burn_is_transfer_burn true chain_told chain_evm_burn from_evm chain_contracts $"0xaa"
           (burn_of from_evm $"0xaa") (shown (EvmVerify.verify_burn true chain_evm_burn $"0xaa"))).
  - reflexivity.
  - by vm_compute.
  - by vm_compute.
  - apply run_with_returns. by vm_compute.
  - by vm_compute.
Defined.

Lemma stellar_burn_is_transfer_burn_witness :
  f_amount_cctp_subunits (burn_of from_stellar burn_hash) = 12500000 ∧
  ∃ ft c e m, StellarBurn chain_told chain_stellar_burn burn_hash ft c e m ∧ StellarBurnOf from_stellar chain_contracts c e m.
Proof.
  split; [by vm_compute|].
  apply (stellar_burn_is_transfer_burn true chain_told chain_stellar_burn from_stellar chain_contracts burn_hash
           (burn_of from_stellar burn_hash) (shown (StellarVerify.verify_burn true chain_stellar_burn burn_hash))).
  - reflexivity.
  - by vm_compute.
  - apply run_with_returns. by vm_compute.
  - by vm_compute.
Defined.
