(* ===== verification/CctpCalls.v ===== *)
(** * What the bridge service calls (api: cctp/service.rs, verifiers.rs, iris.rs, builders/mod.rs)

    A handler of the service is a program (Tasks) over these calls: a call to the
    transfer store or to the prepare locks, which acts on the shared [World] in one
    step, or a call to the outside ([External]: the clock, Circle's Iris API, the
    verifiers of on-chain facts, the builders of unsigned transactions, the
    kill-switch registry), whose answer is arbitrary. [exec] carries out one call.

    The data of the interfaces (traits) that the service uses is defined first. *)

From stdpp Require Import base decidable strings numbers list gmap.
From S2P Require Import Prelude RustStr Result Tasks CctpTypes CctpMessage CctpTrust CctpStore CctpEncoding.
From S2P Require Import CctpEncoding CctpConfig Soroban CctpLocks Policy.

Local Open Scope Z_scope.
Local Open Scope str_scope.

(** ** iris.rs *)

Record IrisFeeQuote := mkIrisFeeQuote {
  standard_fee : Str;
  fast_fee : option Str;
}.

Module IrisMessageStatus.

Inductive IrisMessageStatus := Pending | Complete.

End IrisMessageStatus.

Abbreviation IrisMessageStatus := IrisMessageStatus.IrisMessageStatus (only parsing).

#[export] Instance IrisMessageStatus_eq_dec : EqDecision IrisMessageStatus.
Proof. solve_decision. Defined.

Record IrisMessage := mkIrisMessage {
  message_hex : Str;
  attestation_hex : option Str;
  cctp_version : Z;
  i_status : IrisMessageStatus;
  event_nonce : Str;
  i_source_tx_hash : option Str;
}.

Module IrisPollOutcome.

Inductive IrisPollOutcome :=
| Pending
| Complete (msg : IrisMessage)
| RateLimited (retry_after_secs : Z)
| NotFound.

End IrisPollOutcome.

Abbreviation IrisPollOutcome := IrisPollOutcome.IrisPollOutcome (only parsing).

Module IrisError.

Inductive IrisError :=
| Http (s : Str)
| Timeout
| Malformed (s : Str)
| RedirectBlocked
| HostNotAllowlisted
| ResponseTooLarge.

(** [Display] *)
Definition to_string (e : IrisError) : Str :=
  match e with
  | Http s => $"HTTP error: " ++ s
  | Timeout => $"timeout"
  | Malformed s => $"malformed response: " ++ s
  | RedirectBlocked => $"redirect blocked"
  | HostNotAllowlisted => $"host not allowlisted"
  | ResponseTooLarge => $"response too large"
  end.

End IrisError.

Abbreviation IrisError := IrisError.IrisError (only parsing).

(** ** builders/mod.rs *)

Module BurnPrepareStep.

Inductive BurnPrepareStep := Approval | Burn.

End BurnPrepareStep.

Abbreviation BurnPrepareStep := BurnPrepareStep.BurnPrepareStep (only parsing).

Module MintPrepareStep.

Inductive MintPrepareStep := Trustline | Mint.

End MintPrepareStep.

Abbreviation MintPrepareStep := MintPrepareStep.MintPrepareStep (only parsing).

#[export] Instance MintPrepareStep_eq_dec : EqDecision MintPrepareStep.
Proof. solve_decision. Defined.

Record PreparedBurnBundle := mkPreparedBurnBundle {
  burn_step : BurnPrepareStep;
  approval_required : bool;
  burn_primary : PreparedWalletPayload;
  required_approvals : list PreparedWalletPayload;
  required_prior_payloads : list PreparedWalletPayload;
  burn_expires_at : Z;
  b_approval_expiration_ledger : option Z;
}.

Record PreparedMintBundle := mkPreparedMintBundle {
  mint_step : MintPrepareStep;
  trustline_required : bool;
  mint_primary : PreparedWalletPayload;
  mint_expires_at : Z;
  bundle_payload_hash : Str;
}.

(** ** Calls *)

Section Calls.

Context {T : Time}.

(** Calls to the outside. *)
Inductive External :=
| Now
| NewUuid
| NewLeaseOwner
| GetProviderPolicy
| BurnVerifierReady (d : CctpDirection)
| AttestationVerifierReady
| MintVerifierReady (d : CctpDirection)
| ApprovalVerifierReady (d : CctpDirection)
| FetchBurnFees (source_domain dest_domain : Z)
| PollMessagesByTx (source_domain : Z) (tx_hash : Str)
| IrisReattest (nonce : Str)
| GetFinalizedTransaction (tx_hash : Str)
| VerifyBurn (d : CctpDirection) (tx_hash : Str)
| VerifyApproval (d : CctpDirection) (transfer : CctpTransfer) (tx_hash : Str) (required : Z)
| VerifyAttestation (message attestation : list Z)
| VerifyMintSubmission (d : CctpDirection) (tx_hash : Str) (message attestation : list Z)
    (nonce expected_payload_hash : Str) (submitter : option Str)
| VerifyMintCompletion (d : CctpDirection) (tx_hash : Str) (message : list Z) (nonce recipient : Str)
    (quoted_finality : CctpFinality)
| PrepareBurn (d : CctpDirection) (transfer : CctpTransfer)
| PrepareMint (d : CctpDirection) (transfer : CctpTransfer).

(** The type of the answer. *)
Definition Answer (e : External) : Type :=
  match e with
  | Now => DateTime
  | NewUuid => Uuid
  | NewLeaseOwner => Str
  | GetProviderPolicy => ProviderPolicy
  | BurnVerifierReady _ | AttestationVerifierReady | MintVerifierReady _ | ApprovalVerifierReady _ => bool
  | FetchBurnFees _ _ => Result IrisFeeQuote IrisError
  | PollMessagesByTx _ _ => Result IrisPollOutcome IrisError
  | IrisReattest _ => Result unit IrisError
  | GetFinalizedTransaction _ => Result FinalizedTx VerifierError
  | VerifyBurn _ _ => Result VerifiedBurnFacts VerifierError
  | VerifyApproval _ _ _ _ => Result unit VerifierError
  | VerifyAttestation _ _ => Result unit AttestationVerifyError
  | VerifyMintSubmission _ _ _ _ _ _ _ => Result VerifiedMintFacts VerifierError
  | VerifyMintCompletion _ _ _ _ _ _ => Result MintVerifyOutcome VerifierError
  | PrepareBurn _ _ => Result PreparedBurnBundle BuilderError
  | PrepareMint _ _ => Result PreparedMintBundle BuilderError
  end.

(** Every call of a handler: to the store, to the locks, to the outside. *)
Inductive Call :=
| CInsert (transfer : CctpTransfer)
| CGet (id : Uuid)
| CPollLease (id : Uuid) (lease_secs min_interval_secs : Z)
| CClaimReattest (id : Uuid) (owner : Str) (lease_secs max_attempts : Z)
| CReattestSuccess (id : Uuid) (owner : Str)
| CReattestFailure (id : Uuid) (owner code error : Str) (cooldown_secs : Z)
| CTransition (id : Uuid) (expected_version : Z) (new_status : CctpTransferStatus) (patch : TransferPatch)
| CApproval (id : Uuid) (expected_version : Z) (tx_hash : Str) (verified_at : DateTime)
| CMintPrepared (id : Uuid) (expected_version : Z) (hash : Str) (expires_at : DateTime) (submitter : option Str)
| CMintSubmission (id : Uuid) (expected_version : Z) (tx_hash : Str)
| CMintCompleted (id : Uuid) (expected_version : Z)
| CVerifiedBurn (id : Uuid) (expected_version : Z) (tx_hash : Str)
| CAcquire (reservation : CctpActivePrepare)
| CRelease (source : Str) (id : Uuid)
| CGetForTransfer (id : Uuid)
| CExternal (e : External).

Definition Reply (c : Call) : Type :=
  match c with
  | CInsert _ => Result unit CctpStoreError
  | CGet _ => Result (option CctpTransfer) CctpStoreError
  | CPollLease _ _ _ => Result (option (CctpTransfer * PollLeaseOutcome)) CctpStoreError
  | CClaimReattest _ _ _ _ => Result (option (CctpTransfer * ReattestClaimOutcome)) CctpStoreError
  | CReattestSuccess _ _ | CReattestFailure _ _ _ _ _ => Result (option CctpTransfer) CctpStoreError
  | CTransition _ _ _ _ | CApproval _ _ _ _ | CMintPrepared _ _ _ _ _ | CMintSubmission _ _ _
  | CMintCompleted _ _ | CVerifiedBurn _ _ _ => Result CctpTransfer CctpStoreError
  | CAcquire _ => Result PrepareAcquireResult CctpPrepareLockError
  | CRelease _ _ => Result bool CctpPrepareLockError
  | CGetForTransfer _ => Result (option CctpActivePrepare) CctpPrepareLockError
  | CExternal e => Answer e
  end.

Definition ask (e : External) : Prog Reply (Answer e) := call (CExternal e).

(** ** Execution of a call *)

Record World := mkWorld {
  w_store : Store;
  w_locks : Locks;
}.

(** What the outside decides in one step: the readings of the clock, the order in
    which a map is iterated, the answer. *)
Record Oracle := mkOracle {
  o_now1 : DateTime;
  o_now2 : DateTime;
  o_now3 : DateTime;
  o_order : list Str;
  o_answer : ∀ e, Answer e;
}.

(** Whether the build traps on arithmetic overflow. *)
Variable checks : bool.

(** A panic while the lock of the store is held poisons the lock, and every later
    call panics as well: there is no next step. *)
Definition on_store {A} (m : St A) (w : World) : option (Result A CctpStoreError * World) :=
  match m (w_store w) with
  | Done a s => Some (Ok a, mkWorld s (w_locks w))
  | Failed e s => Some (Err e, mkWorld s (w_locks w))
  | Panicked => None
  end.

Definition on_locks {A} (f : Locks → A * Locks) (w : World) : option (A * World) :=
  let (a, locks) := f (w_locks w) in Some (a, mkWorld (w_store w) locks).

Definition exec (o : Oracle) (c : Call) (w : World) : option (Reply c * World) :=
  match c with
  | CInsert t => on_store (insert t) w
  | CGet id => on_store (get id) w
  | CPollLease id l i => on_store (try_acquire_poll_lease (o_now1 o) id l i) w
  | CClaimReattest id owner l m => on_store (claim_reattest_lease (o_now1 o) id owner l m) w
  | CReattestSuccess id owner => on_store (finalize_reattest_success checks (o_now1 o) id owner) w
  | CReattestFailure id owner code err cd =>
      on_store (finalize_reattest_failure checks (o_now1 o) (o_now2 o) id owner code err cd) w
  | CTransition id v st p => on_store (transition checks (o_now1 o) (o_now2 o) id v st p) w
  | CApproval id v h at_ => on_store (record_approval_submission checks (o_now1 o) id v h at_) w
  | CMintPrepared id v h x sub => on_store (record_mint_prepared checks (o_now1 o) (o_now2 o) id v h x sub) w
  | CMintSubmission id v h => on_store (record_mint_submission checks (o_now1 o) (o_now2 o) id v h) w
  | CMintCompleted id v => on_store (record_mint_completed checks (o_now1 o) (o_now2 o) id v) w
  | CVerifiedBurn id v h => on_store (record_verified_burn checks (o_now1 o) id v h) w
  | CAcquire r => on_locks (try_acquire (o_now1 o) (o_now2 o) (o_now3 o) r) w
  | CRelease source id => on_locks (λ l, let (b, l') := release source id l in (Ok b, l')) w
  | CGetForTransfer id =>
      on_locks (λ l, let (p, l') := get_for_transfer (o_now1 o) id (o_order o) l in (Ok p, l')) w
  | CExternal e => Some (o_answer o e, w)
  end.

End Calls.
