(* ===== verification/CctpService.v ===== *)
(** * The bridge service (api: cctp/service.rs)

    Every handler of [CctpService] as a program over the calls of CctpCalls: quotes,
    burn and mint preparation, the records of approvals, burns and mints, attestation
    polling, re-attestation and cancellation, with the helpers of
    prepare_payload_cache.rs and stellar_payload.rs. Metrics and logging are left out.
    Third-party encodings (JSON, XDR, SHA-256, identifiers) are the parameter [Libs]. *)

From stdpp Require Import base decidable strings numbers list gmap.
From S2P Require Import Prelude RustStr Result Tasks CctpTypes CctpMessage CctpTrust CctpStore CctpEncoding.
From S2P Require Import CctpEncoding CctpConfig Xdr Soroban CctpLocks Policy CctpCalls.

Local Open Scope Z_scope.
Local Open Scope str_scope.
Local Open Scope record_scope.

(** ** Errors *)

Module CctpServiceError.

Inductive CctpServiceError :=
| NotEnabled
| ProviderKilled
| Validation (e : CctpValidationError)
| FeeQuoteUnavailable
| Store (e : CctpStoreError)
| Iris (s : Str)
| Verifier (e : VerifierError)
| Attestation (e : AttestationVerifyError)
| Builder (e : BuilderError)
| VerifiersNotReady
| InvalidMessage (s : Str)
| AmountExceedsCap
| FastNotSupported
| NotFound
| InvalidState
| AttestationTimeout
| IrisTxHashMismatch
| MissingAttestation
| QuoteExpired
| FeeExpired
| MintPayloadExpired
| MintPayloadHashMismatch
| MintRetryable
| ActivePrepareExists
| StellarRemainder.

End CctpServiceError.

Abbreviation CctpServiceError := CctpServiceError.CctpServiceError (only parsing).

Import CctpServiceError.

(** [Display] of the errors of message.rs and expectations.rs. *)
Definition parse_error_string (e : MessageParseError) : Str :=
  match e with
  | MessageParseError.TooShort => $"too short"
  | MessageParseError.InvalidHex => $"invalid hex"
  | MessageParseError.BodyTooShort => $"body too short"
  | MessageParseError.Overflow => $"overflow"
  end.

Definition validation_error_string (e : MessageValidationError) : Str :=
  match e with
  | MessageValidationError.Parse e => $"parse: " ++ parse_error_string e
  | MessageValidationError.WrongSourceDomain => $"wrong source domain"
  | MessageValidationError.WrongDestinationDomain => $"wrong destination domain"
  | MessageValidationError.WrongHeaderRecipient => $"wrong header recipient"
  | MessageValidationError.WrongHeaderSender => $"wrong header sender"
  | MessageValidationError.WrongBurnToken => $"wrong burn token"
  | MessageValidationError.WrongMintRecipient => $"wrong mint recipient"
  | MessageValidationError.WrongDestinationCaller => $"wrong destination caller"
  | MessageValidationError.WrongAmount => $"wrong amount"
  | MessageValidationError.WrongFinality => $"wrong finality"
  | MessageValidationError.WrongMessageSender => $"wrong message sender"
  | MessageValidationError.WrongHookData => $"wrong hook data"
  | MessageValidationError.FinalityNotExecuted => $"finality not executed"
  | MessageValidationError.HookDataTooLarge => $"hook data too large"
  end.

Definition expectation_error_string (e : ExpectationError) : Str :=
  match e with
  | Encoding s => $"encoding: " ++ s
  | UnsupportedDirection => $"unsupported direction"
  end.

(** ** Parameters *)

(** What is cached of a prepared burn (prepare_payload_cache.rs). *)
Record BurnBundleCache := mkBurnBundleCache {
  c_step : Str;
  c_approval_required : bool;
  c_primary : PreparedWalletPayload;
  c_required_approvals : list PreparedWalletPayload;
  c_required_prior_payloads : list PreparedWalletPayload;
  c_expires_at : Z;
  c_approval_expiration_ledger : option Z;
}.

(** [chrono::DateTime::from_timestamp(secs, 0)], [Uuid]'s [Display] and serde_json; an
    error of serde is its message. *)
Class Libs {T : Time} := {
  from_timestamp : Z → option DateTime;
  uuid_to_string : Uuid → Str;
  burn_to_json : BurnBundleCache → Result Str Str;
  burn_from_json : Str → Result BurnBundleCache Str;
  mint_to_json : PreparedMintBundle → Result Str Str;
  mint_from_json : Str → Result PreparedMintBundle Str;
}.

(** ** Fallible programs *)

Abbreviation M A := (Prog Reply (Result A CctpServiceError)) (only parsing).

Local Open Scope prog_scope.

(** ** Helpers *)

Definition normalize_tx_hash (hash : Str) : Str :=
  let trimmed := trim hash in
  let hex := strip_0x trimmed in
  to_ascii_lowercase hex.

Definition tx_hashes_equal (a b : Str) : bool := bool_decide (normalize_tx_hash a = normalize_tx_hash b).

(** [format!("{:07}", frac)] *)
Definition zero_padded (width : nat) (n : Z) : Str :=
  let s := display n in replicate (width - length s) 48 ++ s.

Definition format_stellar_amount (subunits : Z) : Str :=
  display (subunits / 10000000) ++ $"." ++ zero_padded 7 (subunits mod 10000000).

Definition REATTEST_MAX_ATTEMPTS : Z := 5.
Definition REATTEST_COOLDOWN_SECS : Z := 60.
Definition REATTEST_LEASE_SECS : Z := 30.

Module PreparePayloadCacheError.

Inductive PreparePayloadCacheError :=
| Serialization (s : Str)
| TooLarge.

End PreparePayloadCacheError.

Abbreviation PreparePayloadCacheError := PreparePayloadCacheError.PreparePayloadCacheError (only parsing).

Definition map_prepare_lock_error (e : CctpPrepareLockError) : CctpServiceError :=
  match e with
  | CctpPrepareLockError.PayloadHashMismatch | CctpPrepareLockError.ActivePrepareExists => ActivePrepareExists
  | CctpPrepareLockError.PayloadTooLarge => Store CctpStoreError.PayloadTooLarge
  end.

Definition map_payload_cache_error (e : PreparePayloadCacheError) : CctpServiceError :=
  match e with
  | PreparePayloadCacheError.TooLarge => Store CctpStoreError.PayloadTooLarge
  | PreparePayloadCacheError.Serialization msg => Verifier (VerifierError.Failed ($"prepare payload cache: " ++ msg))
  end.

Section Service.

Context {T : Time} {H : Hex} {K : Strkey} {D : Digest} {X : XdrLib} {J : PayloadJson} {L : Libs}.
Variable config : CctpConfig.
(** [is_production()] *)
Variable production : bool.

(** *** prepare_payload_cache.rs *)

Definition step_string (s : BurnPrepareStep) : Str :=
  match s with
  | BurnPrepareStep.Approval => $"approval"
  | BurnPrepareStep.Burn => $"burn"
  end.

Definition serialize_burn_bundle (b : PreparedBurnBundle) : Result Str PreparePayloadCacheError :=
  (let cache := mkBurnBundleCache (step_string (burn_step b)) (approval_required b) (burn_primary b)
                  (required_approvals b) (required_prior_payloads b) (burn_expires_at b)
                  (b_approval_expiration_ledger b) in
   json ← map_err PreparePayloadCacheError.Serialization (burn_to_json cache);
   reject (MAX_PREPARED_PAYLOAD_LEN <? str_len json) PreparePayloadCacheError.TooLarge;;
   Ok json)%result.

Definition deserialize_burn_bundle (json : Str) : Result PreparedBurnBundle PreparePayloadCacheError :=
  (cache ← map_err PreparePayloadCacheError.Serialization (burn_from_json json);
   step ← (if bool_decide (c_step cache = $"approval") then Ok BurnPrepareStep.Approval
           else if bool_decide (c_step cache = $"burn") then Ok BurnPrepareStep.Burn
           else Err (PreparePayloadCacheError.Serialization ($"unknown burn step: " ++ c_step cache)));
   Ok (mkPreparedBurnBundle step (c_approval_required cache) (c_primary cache) (c_required_approvals cache)
         (c_required_prior_payloads cache) (c_expires_at cache) (c_approval_expiration_ledger cache)))%result.

Definition serialize_mint_bundle (b : PreparedMintBundle) : Result Str PreparePayloadCacheError :=
  (json ← map_err PreparePayloadCacheError.Serialization (mint_to_json b);
   reject (MAX_PREPARED_PAYLOAD_LEN <? str_len json) PreparePayloadCacheError.TooLarge;;
   Ok json)%result.

Definition deserialize_mint_bundle (json : Str) : Result PreparedMintBundle PreparePayloadCacheError :=
  map_err PreparePayloadCacheError.Serialization (mint_from_json json).

(** *** Payload hashes *)

Definition wallet_payload_hash (payload : PreparedWalletPayload) : Result Str VerifierError :=
  match payload with
  | StellarXdr _ xdr_envelope _ => payload_hash_from_envelope_xdr config xdr_envelope
  | EvmTransaction _ _ _ _ =>
      (json ← map_err VerifierError.Failed (payload_to_json payload);
       Ok (hex_encode (sha256 (as_bytes json))))%result
  end.

(** *** Guards *)

Definition ensure_burn_verifier_ready (d : CctpDirection) : M unit :=
  ready ⇐ ask (BurnVerifierReady d);
  refuse (negb ready) VerifiersNotReady.

Definition ensure_attestation_verifier_ready : M unit :=
  ready ⇐ ask AttestationVerifierReady;
  refuse (negb ready) VerifiersNotReady.

Definition ensure_mint_verifier_ready (d : CctpDirection) : M unit :=
  ready ⇐ ask (MintVerifierReady d);
  refuse (negb ready) VerifiersNotReady.

Definition ensure_quote_not_expired (t : CctpTransfer) : M unit :=
  now ⇐ ask Now;
  refuse (dt_lt (quote_expires_at t) now) QuoteExpired.

Definition ensure_mint_payload_valid (t : CctpTransfer) : M unit :=
  match mint_payload_expires_at t with
  | Some exp =>
      now ⇐ ask Now;
      refuse (dt_lt exp now) MintPayloadExpired
  | None => ok tt
  end.

Definition ensure_fee_not_expired (t : CctpTransfer) : M unit :=
  match fee_expires_at t with
  | Some exp =>
      now ⇐ ask Now;
      refuse (dt_lt exp now) FeeExpired
  | None => ok tt
  end.

Definition provider_killed : Prog Reply bool :=
  policy ⇐ ask GetProviderPolicy;
  Return (negb (provider_allowed policy (Some CCTP_PROVIDER_ID))).

(** The transfer, or an error. *)
Definition get_transfer (id : Uuid) : M CctpTransfer :=
  o ← awaited Store (call (CGet id));
  some_or o NotFound.

(** *** Prepare locks *)

Definition release_transfer_prepare_locks (t : CctpTransfer) : Prog Reply unit :=
  _ ⇐ (if negb (bool_decide (sender t = [])) then
         _ ⇐ call (CRelease (sender t) (transfer_id t)); Return tt
       else Return tt);
  match mint_submitter t with
  | Some submitter => _ ⇐ call (CRelease submitter (transfer_id t)); Return tt
  | None => Return tt
  end.

Definition try_acquire_prepare_lock (r : CctpActivePrepare) : M PrepareAcquireResult :=
  awaited map_prepare_lock_error (call (CAcquire r)).

Definition active_mint_bundle_for_transfer (id : Uuid) (submitter : Str) : M (option PreparedMintBundle) :=
  active ← awaited map_prepare_lock_error (call (CGetForTransfer id));
  match active with
  | None => ok None
  | Some active =>
      now ⇐ (if bool_decide (source_account active ≠ submitter) then Return None
             else now ⇐ ask Now; Return (Some now));
      if (match now with None => true | Some now => negb (dt_lt now (prep_expires_at active)) end) then ok None
      else
        match prepared_payload active with
        | None => ok None
        | Some payload =>
            bundle ← lift map_payload_cache_error (deserialize_mint_bundle payload);
            if trustline_required bundle || bool_decide (mint_step bundle = MintPrepareStep.Trustline) then ok None
            else ok (Some bundle)
        end
  end.

Definition burn_reservation (source : Str) (id : Uuid) (kind : CctpPrepareKind) (payload_hash prepared : Str)
    (expires_at : DateTime) : Prog Reply CctpActivePrepare :=
  now ⇐ ask Now;
  Return (mkCctpActivePrepare source id kind payload_hash (Some prepared) expires_at now).

(** [from_timestamp(secs, 0).unwrap_or_else(Utc::now)] *)
Definition expiry (secs : Z) : Prog Reply DateTime :=
  match from_timestamp secs with
  | Some d => Return d
  | None => ask Now
  end.

Definition burn_prepare_source (t : CctpTransfer) : M Str :=
  refuse (bool_decide (sender t = [])) InvalidState;;
  ok (sender t).

(** *** Quotes *)

Definition build_quote_transfer (request : CctpQuoteRequest) (id : Uuid) (token_hash : Str) : M CctpTransfer :=
  refuse (negb (enabled config)) NotEnabled;;
  killed ⇐ provider_killed;
  refuse killed ProviderKilled;;
  lift Validation (validate_request request);;
  cctp_amount ←
    match q_direction request with
    | CctpDirection.StellarToEvm =>
        lift_fault (λ _, StellarRemainder) (stellar_outbound_cctp_amount_strict (q_amount request))
    | CctpDirection.EvmToStellar =>
        lift_fault (λ _, Validation CctpValidationError.InvalidAmount) (decimal_to_cctp_subunits (q_amount request))
    end;
  refuse (bool_decide (q_direction request = CctpDirection.EvmToStellar) &&
          bool_decide (q_mint_submitter request = None))
    (Validation CctpValidationError.InvalidMintSubmitter);;
  cap ← match decimal_to_cctp_subunits (amount_cap config) with
        | Ok cap => ok cap
        | Err (Raised _) => ok (int_max U128)
        | Err Panic => Crash
        end;
  refuse (cap <? cctp_amount) AmountExceedsCap;;
  let '(source_domain, dest_domain) :=
    match q_direction request with
    | CctpDirection.StellarToEvm => (STELLAR_TESTNET_DOMAIN, SEPOLIA_DOMAIN)
    | CctpDirection.EvmToStellar => (SEPOLIA_DOMAIN, STELLAR_TESTNET_DOMAIN)
    end in
  fees ← awaited (λ e, Iris (IrisError.to_string e)) (ask (FetchBurnFees source_domain dest_domain));
  max_fee ← match q_finality request with
            | CctpFinality.Standard => ok (standard_fee fees)
            | CctpFinality.Fast => some_or (fast_fee fees) FastNotSupported
            end;
  now ⇐ ask Now;
  let support_id := $"cctp-" ++ uuid_to_string id in
  destination_amount ←
    match q_direction request with
    | CctpDirection.StellarToEvm => ok (q_amount request)
    | CctpDirection.EvmToStellar =>
        stellar_sub ← lift_fault (λ _, Validation CctpValidationError.InvalidAmount)
                        (cctp_subunits_to_stellar_subunits cctp_amount);
        ok (format_stellar_amount stellar_sub)
    end;
  ok (mkCctpTransfer id support_id (q_corridor_id request) (q_provider request) (q_direction request)
        (q_source_chain_id request) (q_destination_chain_id request)
        (a_asset (q_source_asset request)) (a_canonical (q_source_asset request))
        (a_asset (q_destination_asset request)) (a_canonical (q_destination_asset request))
        (default [] (q_sender request)) (q_recipient request) (q_mint_submitter request)
        (q_amount request) destination_amount (q_finality request) (Some max_fee) (Some max_fee)
        (Some (plus_seconds now 600)) (plus_seconds now (wrap I64 (quote_ttl_secs config)))
        CctpTransferStatus.Created None None None None None None None None 0 None None 1 now now None
        None None None None None None (Some token_hash) None None None None 0 None).

Definition quote_core (request : CctpQuoteRequest) (token_hash : Str) : M CctpTransfer :=
  id ⇐ ask NewUuid;
  transfer ← build_quote_transfer request id token_hash;
  awaited Store (call (CInsert transfer));;
  ok transfer.

(** *** Burns *)

Definition prepare_burn (id : Uuid) : M CctpTransfer :=
  refuse (negb (enabled config) || negb (is_configured production config)) NotEnabled;;
  killed ⇐ provider_killed;
  refuse killed ProviderKilled;;
  transfer ← get_transfer id;
  if bool_decide (status transfer = CctpTransferStatus.BurnPrepared) then ok transfer
  else
    refuse (bool_decide (status transfer ≠ CctpTransferStatus.Created)) InvalidState;;
    ensure_quote_not_expired transfer;;
    ensure_fee_not_expired transfer;;
    ensure_burn_verifier_ready (direction transfer);;
    awaited Store (call (CTransition id (version transfer) CctpTransferStatus.BurnPrepared default_patch)).

Definition record_burn_submission (id : Uuid) (tx_hash : Str) : M CctpTransfer :=
  transfer ← get_transfer id;
  refuse (bool_decide (status transfer ≠ CctpTransferStatus.BurnPrepared)) InvalidState;;
  ensure_quote_not_expired transfer;;
  ensure_fee_not_expired transfer;;
  ensure_burn_verifier_ready (direction transfer);;
  facts ← awaited Verifier (ask (VerifyBurn (direction transfer) tx_hash));
  expected ← lift_fault (λ _, Verifier (VerifierError.Failed $"expectations"))
               (build_expected_burn_facts transfer (contracts config) tx_hash);
  match facts_match expected facts with
  | Err _ => err (Verifier (VerifierError.Failed $"burn facts mismatch"))
  | Ok _ =>
      awaiting ← awaited Store (call (CVerifiedBurn id (version transfer) tx_hash));
      _ ⇐ release_transfer_prepare_locks transfer;
      ok awaiting
  end.

Inductive StellarSourceSubmissionKind := SubmissionApproval | SubmissionBurn.

Definition classify_stellar_source_submission (tx_hash : Str)
    : Prog Reply (Result StellarSourceSubmissionKind VerifierError) :=
  r ⇐ ask (GetFinalizedTransaction tx_hash);
  Return
    (tx ← r;
     reject (bool_decide (ft_status tx ≠ TxStatus.Success)) (VerifierError.Failed $"tx failed");;
     invoke ← parse_invoke_envelope (ft_envelope_xdr tx);
     let name := function invoke in
     if bool_decide (name = $"approve") then Ok SubmissionApproval
     else if bool_decide (name = $"deposit_for_burn") || bool_decide (name = $"deposit_for_burn_with_hook")
     then Ok SubmissionBurn
     else Err (VerifierError.Failed ($"unsupported stellar invoke: " ++ name)))%result.

(** The amount that an approval must cover, in the units of the source chain. *)
Definition required_approval (t : CctpTransfer) : M Z :=
  let bad {E} (_ : E) := Verifier (VerifierError.Failed $"amount") in
  match direction t with
  | CctpDirection.StellarToEvm =>
      cctp_amount ← lift_fault bad (stellar_outbound_cctp_amount_strict (amount t));
      subunits ← lift_fault bad (cctp_subunits_to_stellar_subunits cctp_amount);
      some_or (chk I128 subunits) (bad tt)
  | CctpDirection.EvmToStellar => lift_fault bad (decimal_to_cctp_subunits (amount t))
  end.

Definition record_approval_submission (id : Uuid) (tx_hash : Str) : M CctpTransfer :=
  transfer ← get_transfer id;
  refuse (bool_decide (status transfer ≠ CctpTransferStatus.BurnPrepared)) InvalidState;;
  ensure_quote_not_expired transfer;;
  ensure_fee_not_expired transfer;;
  let verify_and_record : M CctpTransfer :=
    verified_at ⇐ ask Now;
    ready ⇐ ask (ApprovalVerifierReady (direction transfer));
    refuse (negb ready) VerifiersNotReady;;
    required ← required_approval transfer;
    awaited Verifier (ask (VerifyApproval (direction transfer) transfer tx_hash required));;
    updated ← awaited Store (call (CApproval id (version transfer) tx_hash verified_at));
    _ ⇐ (if negb (bool_decide (sender transfer = [])) then release_transfer_prepare_locks transfer
         else Return tt);
    ok updated in
  match source_approval_tx_hash transfer with
  | Some existing =>
      refuse (negb (tx_hashes_equal existing tx_hash))
        (Verifier (VerifierError.Failed $"conflicting approval tx hash"));;
      if bool_decide (is_Some (source_approval_verified_at transfer)) then ok transfer else verify_and_record
  | None => verify_and_record
  end.

Definition record_source_submission (id : Uuid) (tx_hash : Str) : M CctpTransfer :=
  transfer ← get_transfer id;
  match direction transfer with
  | CctpDirection.StellarToEvm =>
      kind ← awaited Verifier (classify_stellar_source_submission tx_hash);
      match kind with
      | SubmissionApproval => record_approval_submission id tx_hash
      | SubmissionBurn =>
          r ⇐ record_burn_submission id tx_hash;
          match r with
          | Err (Verifier (VerifierError.Failed msg)) =>
              if contains_str $"wrong function" msg then record_approval_submission id tx_hash else Return r
          | other => Return other
          end
      end
  | CctpDirection.EvmToStellar =>
      if bool_decide (burn_prepare_step transfer = Some $"approval") &&
         bool_decide (source_approval_verified_at transfer = None)
      then record_approval_submission id tx_hash
      else record_burn_submission id tx_hash
  end.

Definition step_kind (s : BurnPrepareStep) : CctpPrepareKind :=
  match s with
  | BurnPrepareStep.Approval => CctpPrepareKind.Approval
  | BurnPrepareStep.Burn => CctpPrepareKind.Burn
  end.

(** What is stored of a prepared burn. *)
Definition burn_patch (bundle : PreparedBurnBundle) (payload_hash : Str) : TransferPatch :=
  let patch := default_patch <| p_burn_prepare_step := Some (step_string (burn_step bundle)) |>
                             <| p_burn_payload_hash := Some payload_hash |> in
  match burn_step bundle with
  | BurnPrepareStep.Approval =>
      let patch := patch <| p_approval_payload_hash := Some payload_hash |> in
      match b_approval_expiration_ledger bundle with
      | Some exp => patch <| p_approval_expiration_ledger := Some exp |>
      | None => patch
      end
  | BurnPrepareStep.Burn => patch
  end.

Definition prepare_burn_wallet (id : Uuid) : M PreparedBurnBundle :=
  refuse (negb (enabled config) || negb (is_configured production config)) NotEnabled;;
  killed ⇐ provider_killed;
  refuse killed ProviderKilled;;
  transfer ← get_transfer id;
  transfer ←
    match status transfer with
    | CctpTransferStatus.Created =>
        ensure_quote_not_expired transfer;;
        ensure_fee_not_expired transfer;;
        ensure_burn_verifier_ready (direction transfer);;
        (if bool_decide (direction transfer = CctpDirection.StellarToEvm) then
           lift_fault (λ _, StellarRemainder) (stellar_outbound_cctp_amount_strict (amount transfer));;
           ok tt
         else ok tt);;
        awaited Store (call (CTransition id (version transfer) CctpTransferStatus.BurnPrepared default_patch))
    | CctpTransferStatus.BurnPrepared =>
        ensure_quote_not_expired transfer;;
        ensure_fee_not_expired transfer;;
        ensure_burn_verifier_ready (direction transfer);;
        ok transfer
    | _ => err InvalidState
    end;
  source ← burn_prepare_source transfer;
  bundle ← awaited Builder (ask (PrepareBurn (direction transfer) transfer));
  payload_hash ← lift Verifier (wallet_payload_hash (burn_primary bundle));
  expires ⇐ expiry (burn_expires_at bundle);
  prepared ← lift map_payload_cache_error (serialize_burn_bundle bundle);
  reservation ⇐ burn_reservation source id (step_kind (burn_step bundle)) payload_hash prepared expires;
  acquired ← try_acquire_prepare_lock reservation;
  let store_and_return : M PreparedBurnBundle :=
    awaited Store (call (CTransition id (version transfer) CctpTransferStatus.BurnPrepared
                           (burn_patch bundle payload_hash)));;
    ok bundle in
  match acquired with
  | PrepareAcquired => store_and_return
  | Idempotent active =>
      match prepared_payload active with
      | Some payload => lift map_payload_cache_error (deserialize_burn_bundle payload)
      | None => store_and_return
      end
  | ConflictOtherTransfer _ => err ActivePrepareExists
  end.

(** *** Attestations *)

Definition attestation_timed_out (t : CctpTransfer) : Prog Reply bool :=
  let deadline := plus_seconds (updated_at t) (wrap I64 (poll_timeout_secs config)) in
  now ⇐ ask Now;
  Return (dt_lt deadline now).

Definition fail_attestation_timeout (t : CctpTransfer) : M CctpTransfer :=
  updated ← awaited Store (call (CTransition (transfer_id t) (version t) CctpTransferStatus.AttestationFailed
              (default_patch <| p_last_provider_error := Some $"attestation poll timeout" |>
                             <| p_last_provider_code := Some $"poll_timeout" |>)));
  _ ⇐ release_transfer_prepare_locks t;
  ok updated.

Definition validate_and_mark_attestation_ready (t : CctpTransfer) (iris_msg : IrisMessage) : M CctpTransfer :=
  ensure_attestation_verifier_ready;;
  refuse (bool_decide (i_status iris_msg ≠ IrisMessageStatus.Complete))
    (InvalidMessage $"iris status is not complete");;
  persisted ← some_or (source_tx_hash t) InvalidState;
  iris_hash ← some_or (i_source_tx_hash iris_msg) IrisTxHashMismatch;
  refuse (negb (tx_hashes_equal persisted iris_hash)) IrisTxHashMismatch;;
  attestation_hex ← some_or (attestation_hex iris_msg) MissingAttestation;
  refuse (bool_decide (attestation_hex = []) || eq_ignore_ascii_case attestation_hex $"PENDING")
    MissingAttestation;;
  expectations ← lift_fault (λ e, InvalidMessage ($"corridor expectations: " ++ expectation_error_string e))
                   (build_corridor_expectations t (contracts config));
  lift (λ e, InvalidMessage ($"corridor message: " ++ validation_error_string e))
    (validate_message_for_corridor (message_hex iris_msg) expectations);;
  raw ← lift (λ e, InvalidMessage ($"message hex: " ++ parse_error_string e))
          (decode_hex_message (message_hex iris_msg));
  lift (λ _, InvalidMessage $"raw message exceeds bound") (check_byte_len $"raw_message" raw MAX_RAW_MESSAGE_BYTES);;
  attestation ← lift (λ e, InvalidMessage ($"attestation hex: " ++ parse_error_string e))
                  (decode_hex_message attestation_hex);
  lift (λ _, InvalidMessage $"attestation exceeds bound")
    (check_byte_len $"attestation" attestation MAX_ATTESTATION_BYTES);;
  awaited Attestation (ask (VerifyAttestation raw attestation));;
  refuse (bool_decide (event_nonce iris_msg = [])) (InvalidMessage $"iris event nonce empty");;
  awaited Store (call (CTransition (transfer_id t) (version t) CctpTransferStatus.AttestationReady
    (default_patch <| p_raw_message := Some raw |> <| p_attestation := Some attestation |>
                   <| p_message_nonce := Some (event_nonce iris_msg) |>))).

(** *** Mints *)

Definition record_mint_reconciliation_hint (t : CctpTransfer) : M CctpTransfer :=
  if bool_decide (last_provider_code t = Some $"mint_reconciliation_nonce") then ok t
  else
    awaited Store (call (CTransition (transfer_id t) (version t) (status t)
      (default_patch <| p_last_provider_error := Some
           $"nonce consumed on-chain without full mint delivery evidence; remains MintSubmitted" |>
                     <| p_last_provider_code := Some $"mint_reconciliation_nonce" |>))).

Definition retryable_patch (reason : Str) : TransferPatch :=
  default_patch <| p_last_provider_error := Some reason |> <| p_last_provider_code := Some $"mint_retryable" |>.

Definition poll_mint_completion (t : CctpTransfer) : M CctpTransfer :=
  tx_hash ← some_or (destination_tx_hash t) InvalidState;
  message ← some_or (raw_message t) InvalidState;
  nonce ← some_or (message_nonce t) InvalidState;
  completion ← awaited Verifier
    (ask (VerifyMintCompletion (direction t) tx_hash message nonce (recipient t) (finality t)));
  match completion with
  | MintVerifyOutcome.Succeeded =>
      completed ← awaited Store (call (CMintCompleted (transfer_id t) (version t)));
      _ ⇐ release_transfer_prepare_locks t;
      ok completed
  | MintVerifyOutcome.Pending => ok t
  | MintVerifyOutcome.ReconciliationNonceConsumed => record_mint_reconciliation_hint t
  | MintVerifyOutcome.FailedRetryable reason =>
      retryable ← awaited Store (call (CTransition (transfer_id t) (version t)
                    CctpTransferStatus.MintFailedRetryable (retryable_patch reason)));
      _ ⇐ release_transfer_prepare_locks t;
      ok retryable
  end.

Definition prepare_mint (id : Uuid) : M PreparedMintBundle :=
  refuse (negb (enabled config) || negb (is_configured production config)) NotEnabled;;
  transfer ← get_transfer id;
  refuse (negb (match status transfer with
                | CctpTransferStatus.AttestationReady | CctpTransferStatus.MintPrepared
                | CctpTransferStatus.MintFailedRetryable => true
                | _ => false
                end)) InvalidState;;
  ensure_quote_not_expired transfer;;
  cached ←
    match direction transfer with
    | CctpDirection.EvmToStellar =>
        submitter ← some_or (mint_submitter transfer) InvalidState;
        active_mint_bundle_for_transfer id submitter
    | CctpDirection.StellarToEvm => ok None
    end;
  match cached with
  | Some bundle => ok bundle
  | None =>
      refuse (bool_decide (status transfer = CctpTransferStatus.MintPrepared)) InvalidState;;
      bundle ← awaited Builder (ask (PrepareMint (direction transfer) transfer));
      if trustline_required bundle || bool_decide (mint_step bundle = MintPrepareStep.Trustline) then ok bundle
      else
        let store_and_return : M PreparedMintBundle :=
          expires ⇐ expiry (mint_expires_at bundle);
          awaited Store (call (CMintPrepared id (version transfer) (bundle_payload_hash bundle) expires
                                 (mint_submitter transfer)));;
          ok bundle in
        match direction transfer with
        | CctpDirection.EvmToStellar =>
            submitter ← some_or (mint_submitter transfer) InvalidState;
            expires ⇐ expiry (mint_expires_at bundle);
            prepared ← lift map_payload_cache_error (serialize_mint_bundle bundle);
            now ⇐ ask Now;
            acquired ← try_acquire_prepare_lock
              (mkCctpActivePrepare submitter id CctpPrepareKind.Mint (bundle_payload_hash bundle) (Some prepared)
                 expires now);
            match acquired with
            | PrepareAcquired => store_and_return
            | Idempotent active =>
                match prepared_payload active with
                | Some payload => lift map_payload_cache_error (deserialize_mint_bundle payload)
                | None => store_and_return
                end
            | ConflictOtherTransfer _ => err ActivePrepareExists
            end
        | CctpDirection.StellarToEvm => store_and_return
        end
  end.

(** After the submission was recorded: the delivery is verified. *)
Definition finish_mint_submission (id : Uuid) (transfer submitted : CctpTransfer) (tx_hash : Str)
    (message : list Z) (nonce : Str) : M CctpTransfer :=
  completion ← awaited Verifier
    (ask (VerifyMintCompletion (direction transfer) tx_hash message nonce (recipient transfer) (finality transfer)));
  match completion with
  | MintVerifyOutcome.Succeeded =>
      completed ← awaited Store (call (CMintCompleted (transfer_id submitted) (version submitted)));
      _ ⇐ release_transfer_prepare_locks transfer;
      ok completed
  | MintVerifyOutcome.Pending => ok submitted
  | MintVerifyOutcome.ReconciliationNonceConsumed => record_mint_reconciliation_hint submitted
  | MintVerifyOutcome.FailedRetryable reason =>
      retryable ← awaited Store (call (CTransition id (version submitted)
                    CctpTransferStatus.MintFailedRetryable (retryable_patch reason)));
      _ ⇐ release_transfer_prepare_locks transfer;
      ok retryable
  end.

Definition record_mint_submission (id : Uuid) (tx_hash : Str) : M CctpTransfer :=
  transfer ← get_transfer id;
  refuse (bool_decide (status transfer ≠ CctpTransferStatus.MintPrepared)) InvalidState;;
  ensure_mint_payload_valid transfer;;
  ensure_mint_verifier_ready (direction transfer);;
  expected_payload_hash ← some_or (mint_payload_hash transfer) InvalidState;
  message ← some_or (raw_message transfer) InvalidState;
  attestation ← some_or (attestation transfer) InvalidState;
  nonce ← some_or (message_nonce transfer) InvalidState;
  let submitter := match direction transfer with
                   | CctpDirection.StellarToEvm => None
                   | CctpDirection.EvmToStellar => mint_submitter transfer
                   end in
  facts ← awaited Verifier (ask (VerifyMintSubmission (direction transfer) tx_hash message attestation nonce
                                   expected_payload_hash submitter));
  refuse (bool_decide (v_payload_hash facts ≠ expected_payload_hash)) MintPayloadHashMismatch;;
  match v_outcome facts with
  | MintVerifyOutcome.FailedRetryable reason =>
      _ ⇐ release_transfer_prepare_locks transfer;
      awaited Store (call (CTransition id (version transfer) CctpTransferStatus.MintFailedRetryable
                             (retryable_patch reason)))
  | _ =>
      refuse (negb (submission_ok facts)) (Verifier (VerifierError.Failed $"mint submission mismatch"));;
      match destination_tx_hash transfer with
      | Some existing =>
          refuse (bool_decide (existing ≠ tx_hash))
            (Verifier (VerifierError.Failed $"conflicting destination tx hash"));;
          ok transfer
      | None =>
          submitted ← awaited Store (call (CMintSubmission id (version transfer) tx_hash));
          finish_mint_submission id transfer submitted tx_hash message nonce
      end
  end.

(** *** Polling, re-attestation, cancellation *)

Definition poll_one_transfer (id : Uuid) : M CctpTransfer :=
  transfer ← get_transfer id;
  if bool_decide (status transfer = CctpTransferStatus.MintSubmitted) then poll_mint_completion transfer
  else if bool_decide (status transfer ≠ CctpTransferStatus.AwaitingAttestation) then ok transfer
  else
    timed_out ⇐ attestation_timed_out transfer;
    if timed_out : bool then fail_attestation_timeout transfer
    else
      let source_domain := match direction transfer with
                           | CctpDirection.StellarToEvm => STELLAR_TESTNET_DOMAIN
                           | CctpDirection.EvmToStellar => SEPOLIA_DOMAIN
                           end in
      tx_hash ← some_or (source_tx_hash transfer) InvalidState;
      outcome ← awaited (λ e, Iris (IrisError.to_string e)) (ask (PollMessagesByTx source_domain tx_hash));
      match outcome with
      | IrisPollOutcome.Pending | IrisPollOutcome.NotFound => ok transfer
      | IrisPollOutcome.RateLimited retry_after_secs =>
          _ ⇐ call (CTransition id (version transfer) CctpTransferStatus.AwaitingAttestation
                (default_patch <| p_last_provider_error :=
                     Some ($"rate limited; retry after " ++ display retry_after_secs ++ $"s") |>
                               <| p_last_provider_code := Some $"429" |>));
          ok transfer
      | IrisPollOutcome.Complete msg => validate_and_mark_attestation_ready transfer msg
      end.

Definition tick_transfer (id : Uuid) : M unit :=
  poll_one_transfer id;;
  ok tt.

Definition poll_one_transfer_with_lease (id : Uuid) (lease_secs min_interval_secs : Z) : M CctpTransfer :=
  o ← awaited Store (call (CPollLease id lease_secs min_interval_secs));
  match o with
  | None => err NotFound
  | Some (transfer, Skipped) => ok transfer
  | Some (_, Acquired) => poll_one_transfer id
  end.

Definition redacted (detail : Str) : Str :=
  if (str_len detail <=? 120) && negb (contains_str $"http" detail) then detail
  else $"Circle attestation reattest failed".

Definition reattest_with_claim (id : Uuid) (max_attempts cooldown_secs lease_secs : Z) : M CctpTransfer :=
  lease_owner ⇐ ask NewLeaseOwner;
  o ← awaited Store (call (CClaimReattest id lease_owner lease_secs max_attempts));
  match o with
  | None => err NotFound
  | Some (_, ReattestClaimOutcome.InProgress) | Some (_, ReattestClaimOutcome.NotAllowed) => err InvalidState
  | Some (transfer, ReattestClaimOutcome.Claimed) =>
      let conclude (iris_result : Result unit IrisError) : M CctpTransfer :=
        match iris_result with
        | Ok _ =>
            updated ← awaited Store (call (CReattestSuccess id lease_owner));
            some_or updated InvalidState
        | Err e =>
            let redacted := redacted (IrisError.to_string e) in
            _ ⇐ call (CReattestFailure id lease_owner $"iris_reattest_failed" redacted cooldown_secs);
            err (Iris redacted)
        end in
      match message_nonce transfer with
      | Some nonce => r ⇐ ask (IrisReattest nonce); conclude r
      | None =>
          if bool_decide (is_Some (source_tx_hash transfer)) then conclude (Ok tt)
          else
            _ ⇐ call (CReattestFailure id lease_owner $"invalid_state"
                        $"reattest requires message nonce or source tx hash" cooldown_secs);
            err InvalidState
      end
  end.

Definition reattest (id : Uuid) : M CctpTransfer :=
  reattest_with_claim id REATTEST_MAX_ATTEMPTS REATTEST_COOLDOWN_SECS REATTEST_LEASE_SECS.

Definition cancel (id : Uuid) : M CctpTransfer :=
  transfer ← get_transfer id;
  refuse (negb (can_cancel (status transfer))) InvalidState;;
  updated ← awaited Store (call (CTransition id (version transfer) CctpTransferStatus.Cancelled default_patch));
  _ ⇐ release_transfer_prepare_locks transfer;
  ok updated.

End Service.
