(* ===== verification/CctpSaga.v ===== *)
(** * The bridge service as a concurrent system

    The handlers of the service as the tasks of a system (Tasks), and the parts of their
    protocol: [may_call] says which evidence the history must hold before a handler may
    make a call, [told] what a reply tells, and the invariant [coherent] that the state of
    each transfer is backed by the history. *)

From stdpp Require Import base decidable strings numbers list gmap.
From Stdlib Require Import ZArith Lia.
From S2P Require Import Prelude RustStr Result Tasks CctpTypes CctpMessage CctpTrust CctpStore CctpStoreLogic.
From S2P Require Import CctpStoreLogic CctpEncoding CctpConfig Xdr Soroban CctpLocks Policy CctpCalls CctpService.

Local Open Scope Z_scope.
Local Open Scope record_scope.

(** ** The system *)

Section System.

Context {T : Time} {H : Hex} {K : Strkey} {D : Digest} {X : XdrLib} {J : PayloadJson} {L : Libs}.
Variable config : CctpConfig.
Variable production : bool.

(** The handlers that tasks run. *)
Inductive Handler :=
| HQuote (request : CctpQuoteRequest) (token_hash : Str)
| HGet (id : Uuid)
| HPrepareBurn (id : Uuid)
| HPrepareBurnWallet (id : Uuid)
| HSourceSubmission (id : Uuid) (tx_hash : Str)
| HBurnSubmission (id : Uuid) (tx_hash : Str)
| HApprovalSubmission (id : Uuid) (tx_hash : Str)
| HTick (id : Uuid)
| HPollWithLease (id : Uuid) (lease_secs min_interval_secs : Z)
| HReattest (id : Uuid)
| HPrepareMint (id : Uuid)
| HMintSubmission (id : Uuid) (tx_hash : Str)
| HCancel (id : Uuid).

Definition program (h : Handler) : Prog Reply unit :=
  match h with
  | HQuote r token => task (quote_core config r token)
  | HGet id => task (get_transfer id)
  | HPrepareBurn id => task (prepare_burn config production id)
  | HPrepareBurnWallet id => task (prepare_burn_wallet config production id)
  | HSourceSubmission id tx => task (record_source_submission config id tx)
  | HBurnSubmission id tx => task (record_burn_submission config id tx)
  | HApprovalSubmission id tx => task (record_approval_submission id tx)
  | HTick id => task (tick_transfer config id)
  | HPollWithLease id l i => task (poll_one_transfer_with_lease config id l i)
  | HReattest id => task (reattest id)
  | HPrepareMint id => task (prepare_mint config production id)
  | HMintSubmission id tx => task (record_mint_submission id tx)
  | HCancel id => task (cancel id)
  end.

Definition initial_world : World := mkWorld empty_store ∅.

(** ** Evidence *)

(** The transfer that a reply carries. *)
Definition carried (e : Event Reply) : option CctpTransfer :=
  match e with
  | Happened c r =>
      match c return Reply c → option CctpTransfer with
      | CGet _ | CReattestSuccess _ _ | CReattestFailure _ _ _ _ _ =>
          λ r, match r with Ok o => o | Err _ => None end
      | CPollLease _ _ _ => λ r, match r with Ok (Some (t, _)) => Some t | _ => None end
      | CClaimReattest _ _ _ _ => λ r, match r with Ok (Some (t, _)) => Some t | _ => None end
      | CTransition _ _ _ _ | CApproval _ _ _ _ | CMintPrepared _ _ _ _ _ | CMintSubmission _ _ _
      | CMintCompleted _ _ | CVerifiedBurn _ _ _ => λ r, match r with Ok t => Some t | Err _ => None end
      | CInsert _ | CAcquire _ | CRelease _ _ | CGetForTransfer _ | CExternal _ => λ _, None
      end r
  end.

(** A handler was told that the transfer is [t]. *)
Definition seen (t : CctpTransfer) (h : list (Event Reply)) : Prop := ∃ e, e ∈ h ∧ carried e = Some t.

(** The outside answered [e] with [a]. *)
Definition answered (e : External) (a : Answer e) (h : list (Event Reply)) : Prop := Happened (CExternal e) a ∈ h.

(** The largest amount that is quoted. *)
Definition amount_limit : Z :=
  match decimal_to_cctp_subunits (amount_cap config) with
  | Ok cap => cap
  | Err _ => int_max U128
  end.

(** The provider was allowed and the request valid when the transfer was quoted. *)
Definition quoted (t : CctpTransfer) (h : list (Event Reply)) : Prop := ∃ request policy cctp_amount,
  enabled config = true ∧
  answered GetProviderPolicy policy h ∧ provider_allowed policy (Some CCTP_PROVIDER_ID) = true ∧
  validate_request request = Ok tt ∧
  direction t = q_direction request ∧ source_chain_id t = q_source_chain_id request ∧
  destination_chain_id t = q_destination_chain_id request ∧ Some (sender t) = q_sender request ∧
  recipient t = q_recipient request ∧ amount t = q_amount request ∧ finality t = q_finality request ∧
  match direction t with
  | CctpDirection.StellarToEvm => stellar_outbound_cctp_amount_strict (amount t)
  | CctpDirection.EvmToStellar => decimal_to_cctp_subunits (amount t)
  end = Ok cctp_amount ∧ cctp_amount <= amount_limit.

(** The source chain shows the burn that the transfer asks for. *)
Definition burn_shown (t : CctpTransfer) (tx : Str) (h : list (Event Reply)) : Prop := ∃ facts expected,
  answered (VerifyBurn (direction t) tx) (Ok facts) h ∧
  build_expected_burn_facts t (contracts config) tx = Ok expected ∧ facts_match expected facts = Ok tt.

(** The message was attested and is the one that the transfer asks for. *)
Definition message_shown (t : CctpTransfer) (raw att : list Z) (h : list (Event Reply)) : Prop := ∃ hex expected parsed,
  answered (VerifyAttestation raw att) (Ok tt) h ∧
  build_corridor_expectations t (contracts config) = Ok expected ∧
  validate_message_for_corridor hex expected = Ok parsed ∧ decode_hex_message hex = Ok raw.

(** The destination chain shows the submission of that message, and its delivery. *)
Definition submission_shown (t : CctpTransfer) (tx : Str) (raw att : list Z) (nonce : Str) (h : list (Event Reply)) : Prop :=
  ∃ hash submitter facts,
  answered (VerifyMintSubmission (direction t) tx raw att nonce hash submitter) (Ok facts) h ∧
  submission_ok facts = true ∧ v_payload_hash facts = hash.

Definition delivery_shown (t : CctpTransfer) (tx : Str) (raw : list Z) (nonce : Str) (h : list (Event Reply)) : Prop :=
  answered (VerifyMintCompletion (direction t) tx raw nonce (recipient t) (finality t))
    (Ok MintVerifyOutcome.Succeeded) h.

(** The stages of the saga. *)
Definition past_burn (s : CctpTransferStatus) : bool :=
  match s with
  | CctpTransferStatus.AwaitingAttestation | CctpTransferStatus.AttestationFailed
  | CctpTransferStatus.AttestationReady | CctpTransferStatus.MintPrepared | CctpTransferStatus.MintSubmitted
  | CctpTransferStatus.MintFailedRetryable | CctpTransferStatus.Completed => true
  | _ => false
  end.

Definition past_attestation (s : CctpTransferStatus) : bool :=
  match s with
  | CctpTransferStatus.AttestationReady | CctpTransferStatus.MintPrepared | CctpTransferStatus.MintSubmitted
  | CctpTransferStatus.MintFailedRetryable | CctpTransferStatus.Completed => true
  | _ => false
  end.

Definition past_submission (s : CctpTransferStatus) : bool :=
  match s with
  | CctpTransferStatus.MintSubmitted | CctpTransferStatus.Completed => true
  | _ => false
  end.

(** The state of a transfer is backed by the history. *)
Record backed (t : CctpTransfer) (h : list (Event Reply)) : Prop := {
  bk_quoted : quoted t h;
  bk_unused : status t ≠ CctpTransferStatus.BurnSubmitted ∧ status t ≠ CctpTransferStatus.ProviderKilled;
  bk_burn : past_burn (status t) = true → ∃ tx, source_tx_hash t = Some tx ∧ burn_shown t tx h;
  bk_message : past_attestation (status t) = true → ∃ raw att nonce,
    raw_message t = Some raw ∧ attestation t = Some att ∧ message_nonce t = Some nonce ∧ message_shown t raw att h;
  bk_submission : past_submission (status t) = true → ∃ tx raw att nonce,
    destination_tx_hash t = Some tx ∧ raw_message t = Some raw ∧ attestation t = Some att ∧
    message_nonce t = Some nonce ∧ submission_shown t tx raw att nonce h;
  bk_delivery : status t = CctpTransferStatus.Completed → ∃ tx raw nonce,
    destination_tx_hash t = Some tx ∧ raw_message t = Some raw ∧ message_nonce t = Some nonce ∧
    delivery_shown t tx raw nonce h;
}.

(** ** Permitted calls *)

(** The version that a call expects is the version of a transfer that was seen. *)
Definition read_at (id : Uuid) (v : Z) (t : CctpTransfer) (h : list (Event Reply)) : Prop :=
  seen t h ∧ transfer_id t = id ∧ version t = v.

Definition no_message (p : TransferPatch) : Prop :=
  p_raw_message p = None ∧ p_attestation p = None ∧ p_message_nonce p = None.

Definition may_call (c : Call) (h : list (Event Reply)) : Prop :=
  match c with
  | CInsert t =>
      view t = mkView (frozen t) CctpTransferStatus.Created 1 None None None None None ∧ quoted t h
  | CTransition id v ns p =>
      p_source_tx_hash p = None ∧ p_destination_tx_hash p = None ∧
      match ns with
      | CctpTransferStatus.BurnPrepared | CctpTransferStatus.Cancelled
      | CctpTransferStatus.AttestationFailed | CctpTransferStatus.MintFailedRetryable => no_message p
      | CctpTransferStatus.AwaitingAttestation | CctpTransferStatus.MintSubmitted =>
          no_message p ∧ ∃ t, read_at id v t h ∧ status t = ns
      | CctpTransferStatus.AttestationReady => ∃ t raw att nonce,
          read_at id v t h ∧ p_raw_message p = Some raw ∧ p_attestation p = Some att ∧
          p_message_nonce p = Some nonce ∧ message_shown t raw att h
      | _ => False
      end
  | CMintSubmission id v tx => ∃ t raw att nonce,
      read_at id v t h ∧ destination_tx_hash t = None ∧ raw_message t = Some raw ∧ attestation t = Some att ∧
      message_nonce t = Some nonce ∧ submission_shown t tx raw att nonce h
  | CMintCompleted id v => ∃ t tx raw nonce,
      read_at id v t h ∧ destination_tx_hash t = Some tx ∧ raw_message t = Some raw ∧ message_nonce t = Some nonce ∧
      delivery_shown t tx raw nonce h
  | CVerifiedBurn id v tx => ∃ t, read_at id v t h ∧ burn_shown t tx h
  | _ => True
  end.

(** What a reply tells. *)
Definition told (e : Event Reply) (h : list (Event Reply)) : Prop :=
  match e with
  | Happened c r =>
      match c return Reply c → Prop with
      | CGet id => λ r, match r with Ok (Some t) => transfer_id t = id | _ => True end
      | CMintSubmission id v tx => λ r,
          match r with
          | Ok t' => transfer_id t' = id ∧ status t' = CctpTransferStatus.MintSubmitted ∧
              destination_tx_hash t' = Some tx ∧
              ∀ t, read_at id v t h → frozen t' = frozen t ∧ raw_message t' = raw_message t ∧
                                      message_nonce t' = message_nonce t
          | Err _ => True
          end
      | _ => λ _, True
      end r
  end.

(** ** The invariant *)

Record coherent (w : World) (h : list (Event Reply)) : Prop := {
  co_key : ∀ id t, transfers (w_store w) !! id = Some t → transfer_id t = id;
  co_version : ∀ id t, transfers (w_store w) !! id = Some t → 1 <= version t <= 1 + Z.of_nat (length h);
  co_seen : ∀ t, seen t h → ∃ cur, transfers (w_store w) !! transfer_id t = Some cur ∧
    frozen cur = frozen t ∧ version t <= version cur ∧ (version t = version cur → view cur = view t);
  co_backed : ∀ id t, transfers (w_store w) !! id = Some t → backed t h;
}.

End System.
