(* ===== verification/CctpSagaLogic.v ===== *)
(** * Reasoning about the bridge service

    Evidence is monotone in the history and depends on the fixed part of a transfer
    only; a permitted call keeps the invariant [coherent] ([exec_coherent]); so the
    service has a protocol ([saga_protocol]). *)

From stdpp Require Import base decidable strings numbers list gmap.
From Stdlib Require Import ZArith Lia.
From S2P Require Import Prelude RustStr Result Tasks CctpTypes CctpMessage CctpTrust CctpStore CctpStoreLogic.
From S2P Require Import CctpStoreLogic CctpEncoding CctpConfig Xdr Soroban CctpLocks Policy CctpCalls CctpService CctpSaga.

Local Open Scope Z_scope.
Local Open Scope record_scope.

Create HintDb saga.

Section Evidence.

Context {T : Time} {H : Hex} {K : Strkey} {D : Digest} {X : XdrLib} {J : PayloadJson} {L : Libs}.
Variable config : CctpConfig.
Implicit Types (h : list (Event Reply)) (t : CctpTransfer) (s : Store).

(** ** Monotonicity *)

Lemma seen_mono t h h' : h ⊆ h' → seen t h → seen t h'.
Proof. intros Hs (e & He & Hc). exists e. split; [by apply Hs|done]. Qed.

Lemma read_at_mono id v t h h' : h ⊆ h' → read_at id v t h → read_at id v t h'.
Proof. intros Hs [? ?]. split; [by eapply seen_mono|done]. Qed.

Lemma answered_mono e a h h' : h ⊆ h' → answered e a h → answered e a h'.
Proof. intros Hs Ha. by apply Hs. Qed.

Lemma quoted_mono t h h' : h ⊆ h' → quoted config t h → quoted config t h'.
Proof.
  intros Hs (r & p & a & He & Hp & Hrest). exists r, p, a. split; [done|]. split; [by apply Hs|done].
Qed.

Lemma burn_shown_mono t tx h h' : h ⊆ h' → burn_shown config t tx h → burn_shown config t tx h'.
Proof. intros Hs (f & x & Ha & ?). exists f, x. split; [by apply Hs|done]. Qed.

Lemma message_shown_mono t raw att h h' : h ⊆ h' → message_shown config t raw att h → message_shown config t raw att h'.
Proof. intros Hs (x & e & p & Ha & ?). exists x, e, p. split; [by apply Hs|done]. Qed.

Lemma submission_shown_mono t tx raw att n h h' :
  h ⊆ h' → submission_shown t tx raw att n h → submission_shown t tx raw att n h'.
Proof. intros Hs (x & e & p & Ha & ?). exists x, e, p. split; [by apply Hs|done]. Qed.

Lemma delivery_shown_mono t tx raw n h h' : h ⊆ h' → delivery_shown t tx raw n h → delivery_shown t tx raw n h'.
Proof. intros Hs Ha. by apply Hs. Qed.

Hint Resolve seen_mono read_at_mono answered_mono quoted_mono burn_shown_mono message_shown_mono
  submission_shown_mono delivery_shown_mono : saga.

Lemma backed_mono t h h' : h ⊆ h' → backed config t h → backed config t h'.
Proof. intros Hs [? ? ? ? ? ?]. split; naive_solver eauto with saga. Qed.

Lemma may_call_mono c h h' : h ⊆ h' → may_call config c h → may_call config c h'.
Proof.
  intros Hs. destruct c; cbn; try done; try (naive_solver eauto with saga).
  intros (H1 & H2 & H3). split; [done|]. split; [done|].
  destruct new_status; try done; naive_solver eauto with saga.
Qed.

(** ** Evidence depends on what the quote fixed *)

Lemma frozen_eq t t' : frozen t = frozen t' →
  direction t = direction t' ∧ source_chain_id t = source_chain_id t' ∧
  destination_chain_id t = destination_chain_id t' ∧ sender t = sender t' ∧ recipient t = recipient t' ∧
  amount t = amount t' ∧ finality t = finality t'.
Proof. unfold frozen. intros [=]. by split_and!. Qed.

Lemma frozen_id t t' : frozen t = frozen t' → transfer_id t = transfer_id t'.
Proof. unfold frozen. by intros [=]. Qed.

Lemma expectations_frozen t t' c :
  frozen t = frozen t' → build_corridor_expectations t c = build_corridor_expectations t' c.
Proof.
  intros (E1 & E2 & E3 & E4 & E5 & E6 & E7)%frozen_eq.
  unfold build_corridor_expectations, amount_cctp_subunits, body_message_sender. by rewrite E1, E4, E5, E6, E7.
Qed.

Lemma burn_facts_frozen t t' c tx :
  frozen t = frozen t' → build_expected_burn_facts t c tx = build_expected_burn_facts t' c tx.
Proof.
  intros E. unfold build_expected_burn_facts. rewrite (expectations_frozen _ _ _ E).
  apply frozen_eq in E as (E1 & E2 & E3 & E4 & E5 & E6 & E7).
  unfold amount_cctp_subunits. by rewrite E1, E4, E6, E7.
Qed.

Lemma quoted_frozen t t' h : frozen t = frozen t' → quoted config t h → quoted config t' h.
Proof.
  intros (E1 & E2 & E3 & E4 & E5 & E6 & E7)%frozen_eq. unfold quoted. by rewrite E1, E2, E3, E4, E5, E6, E7.
Qed.

Lemma burn_shown_frozen t t' tx h : frozen t = frozen t' → burn_shown config t tx h → burn_shown config t' tx h.
Proof.
  intros E (f & x & Ha & Hb & Hm). exists f, x. rewrite (burn_facts_frozen t t') in Hb by done.
  apply frozen_eq in E as (E1 & _). by rewrite E1 in Ha.
Qed.

Lemma message_shown_frozen t t' raw att h :
  frozen t = frozen t' → message_shown config t raw att h → message_shown config t' raw att h.
Proof. intros E (x & e & p & Ha & Hb & Hm). exists x, e, p. by rewrite (expectations_frozen t t') in Hb. Qed.

Lemma submission_shown_frozen t t' tx raw att n h :
  frozen t = frozen t' → submission_shown t tx raw att n h → submission_shown t' tx raw att n h.
Proof. intros (E1 & _)%frozen_eq. unfold submission_shown. by rewrite E1. Qed.

Lemma delivery_shown_frozen t t' tx raw n h :
  frozen t = frozen t' → delivery_shown t tx raw n h → delivery_shown t' tx raw n h.
Proof. intros (E1 & _ & _ & _ & E5 & _ & E7)%frozen_eq. unfold delivery_shown. by rewrite E1, E5, E7. Qed.

Hint Resolve quoted_frozen burn_shown_frozen message_shown_frozen submission_shown_frozen
  delivery_shown_frozen : saga.

(** ** Changes of a transfer that stay backed *)

(** [t'] is as [t] but for the status and the version, and at no later a stage. *)
Lemma backed_status ns t t' h :
  backed config t h → view t' = bump ((view t) <| vw_status := ns |>) →
  ns ≠ CctpTransferStatus.BurnSubmitted ∧ ns ≠ CctpTransferStatus.ProviderKilled →
  (past_burn ns = true → past_burn (status t) = true) →
  (past_attestation ns = true → past_attestation (status t) = true) →
  (past_submission ns = true → past_submission (status t) = true) →
  (ns = CctpTransferStatus.Completed → status t = CctpTransferStatus.Completed) →
  backed config t' h.
Proof.
  intros [B1 B2 B3 B4 B5 B6] (Ef & Es & _ & Esrc & Edst & En & Er & Ea)%view_parts Hu H1 H2 H3 H4. cbn in *.
  assert (E : frozen t = frozen t') by done. rewrite <- Es in *.
  split; rewrite ?Esrc, ?Edst, ?En, ?Er, ?Ea; [by eauto with saga|done|..].
  - intros Hp. destruct (B3 (H1 Hp)) as (tx & ? & ?). by eauto with saga.
  - intros Hp. destruct (B4 (H2 Hp)) as (raw & att & n & ? & ? & ? & ?). by eauto 10 with saga.
  - intros Hp. destruct (B5 (H3 Hp)) as (tx & raw & att & n & ? & ? & ? & ? & ?). by eauto 12 with saga.
  - intros Hp. destruct (B6 (H4 Hp)) as (tx & raw & n & ? & ? & ? & ?). by eauto 10 with saga.
Qed.

Lemma backed_view t t' h : view t' = view t → backed config t h → backed config t' h.
Proof.
  intros (Ef & Es & _ & Esrc & Edst & En & Er & Ea)%view_parts [B1 B2 B3 B4 B5 B6]. cbn in *. assert (E : frozen t = frozen t') by done.
  split; rewrite ?Es, ?Esrc, ?Edst, ?En, ?Er, ?Ea; [by eauto with saga|done|..].
  - intros Hp. destruct (B3 Hp) as (tx & ? & ?). by eauto with saga.
  - intros Hp. destruct (B4 Hp) as (raw & att & n & ? & ? & ? & ?). by eauto 10 with saga.
  - intros Hp. destruct (B5 Hp) as (tx & raw & att & n & ? & ? & ? & ? & ?). by eauto 12 with saga.
  - intros Hp. destruct (B6 Hp) as (tx & raw & n & ? & ? & ? & ?). by eauto 10 with saga.
Qed.

End Evidence.

#[export] Hint Resolve seen_mono read_at_mono answered_mono quoted_mono burn_shown_mono message_shown_mono
  submission_shown_mono delivery_shown_mono backed_mono quoted_frozen burn_shown_frozen message_shown_frozen
  submission_shown_frozen delivery_shown_frozen : saga.

Section Steps.

Context {T : Time} {H : Hex} {K : Strkey} {D : Digest} {X : XdrLib} {J : PayloadJson} {L : Libs}.
Variable config : CctpConfig.
Variable checks : bool.
Implicit Types (h : list (Event Reply)) (t : CctpTransfer) (s : Store) (w : World).

(** ** One step of the store *)

(** The steps that a transfer takes: those of the table, a destination transaction
    stays, and only a transfer without one becomes submitted. *)
Definition advances t t' : Prop :=
  is_allowed_transition (status t) (status t') = true ∧
  (is_Some (destination_tx_hash t) → destination_tx_hash t' = destination_tx_hash t) ∧
  (status t' = CctpTransferStatus.MintSubmitted →
   status t = CctpTransferStatus.MintSubmitted ∨ destination_tx_hash t = None).

(** Every transfer keeps its view, or gets the next version and stays backed; new
    transfers are backed. *)
Definition evolves s s' h : Prop := ∀ id,
  match transfers s !! id, transfers s' !! id with
  | Some t, Some t' => frozen t' = frozen t ∧
      (view t' = view t ∨ version t' = version t + 1 ∧ advances t t' ∧ backed config t' h)
  | None, Some t' => transfer_id t' = id ∧ version t' = 1 ∧ backed config t' h
  | Some _, None => False
  | None, None => True
  end.

Lemma evolves_refl s h : evolves s s h.
Proof. intros id. destruct (transfers s !! id); auto. Qed.

Lemma evolves_replaced (P : CctpTransfer → Prop) g id t' s s' h :
  replaced P g id t' s s' →
  (∀ t, transfers s !! id = Some t → P t → view t' = g (view t) →
     frozen t' = frozen t ∧
     (view t' = view t ∨ version t' = version t + 1 ∧ advances t t' ∧ backed config t' h)) →
  evolves s s' h.
Proof.
  intros (t & Hl & Hs & HP & Hv) Ht j. rewrite Hs. destruct (decide (j = id)) as [->|Hne].
  - rewrite Hl, lookup_insert_eq. by apply Ht.
  - rewrite lookup_insert_ne by done. apply evolves_refl.
Qed.

Lemma evolves_quiet s s' h : quiet s s' → evolves s s' h.
Proof.
  intros [->|(id & t' & Hr)]; [apply evolves_refl|]. eapply evolves_replaced; [exact Hr|]. cbn.
  intros t _ _ Hv. split; [|by left]. by apply (f_equal vw_fixed) in Hv.
Qed.

(** What the reply carries is stored. *)
Definition carries_stored (e : Event Reply) s : Prop := ∀ t, carried e = Some t →
  ∃ cur, transfers s !! transfer_id t = Some cur ∧ view cur = view t.

Lemma coherent_step w w' h e :
  coherent config w h → evolves (w_store w) (w_store w') (e :: h) → carries_stored e (w_store w') →
  coherent config w' (e :: h).
Proof.
  intros [C1 C2 C3 C4] He Hc.
  assert (Hsub : h ⊆ e :: h) by set_solver.
  split.
  - intros id t' Hl. specialize (He id). rewrite Hl in He. destruct (_ !! id) as [t|] eqn:E; [|by destruct He].
    destruct He as [Hf _]. rewrite (frozen_id _ _ Hf). by apply C1.
  - intros id t' Hl. specialize (He id). rewrite Hl in He. cbn [length].
    destruct (_ !! id) as [t|] eqn:E; [|destruct He as (_ & -> & _); lia].
    specialize (C2 _ _ E). destruct He as [_ [Hv|[-> _]]]; [|lia].
    apply (f_equal vw_version) in Hv. cbn in Hv. lia.
  - intros t (e' & [->|Hin]%elem_of_cons & Hcar).
    + destruct (Hc _ Hcar) as (cur & Hl & Hv). exists cur. pose proof (view_parts _ _ Hv) as (Hf & _ & Hn & _).
      cbn in *. split_and!; [done..|lia|done].
    + destruct (C3 t) as (cur & Hl & Hf & Hle & Hsame); [by exists e'|].
      specialize (He (transfer_id t)). rewrite Hl in He. destruct (transfers (w_store w') !! _) as [cur'|]; [|done].
      exists cur'. destruct He as [Hf' [Hv|[Hn _]]]; (split; [done|]; split; [congruence|]).
      * pose proof (f_equal vw_version Hv) as Hv'. cbn in Hv'. rewrite Hv'. split; [done|]. intros. by rewrite Hv, Hsame.
      * split; [lia|]. lia.
  - intros id t' Hl. specialize (He id). rewrite Hl in He. destruct (_ !! id) as [t|] eqn:E; [|by destruct He as (? & ? & ?)].
    destruct He as [_ [Hv|(_ & _ & Hb)]]; [|done]. eapply backed_view; [exact Hv|]. by eauto with saga.
Qed.

(** ** One call *)

Lemma wp_store {A} (m : St A) Q E w r w' :
  wp m Q E (w_store w) → on_store m w = Some (r, w') →
  match r with
  | Ok a => Q a (w_store w')
  | Err _ => E (w_store w')
  end.
Proof. unfold wp, on_store. destruct (m (w_store w)); intros Hw [= <- <-]; done. Qed.

Lemma wrap_next v n : 1 <= v <= 1 + n → n < 2 ^ 31 - 2 → wrap I32 (v + 1) = v + 1.
Proof. intros. apply wrap_id. unfold fits, int_min, int_max. lia. Qed.

Lemma or_old_None {A} (o : option A) : or_old None o = o.
Proof. done. Qed.

(** A change of status that carries no message. *)
Lemma moved_plain ns p v :
  p_source_tx_hash p = None → p_destination_tx_hash p = None → no_message p →
  moved ns p v = bump (v <| vw_status := ns |>).
Proof. intros Hs Hd (Hr & Ha & Hn). unfold moved. by rewrite Hs, Hd, Hr, Ha, Hn. Qed.

Context (w : World) (h : list (Event Reply)) (Hco : coherent config w h) (Hlen : Z.of_nat (length h) < 2 ^ 31 - 2).

(** The stored transfer is the one that was read at the expected version. *)
Lemma current_read id v t cur :
  read_at id v t h → transfers (w_store w) !! id = Some cur → version cur = v → view cur = view t.
Proof.
  intros (Hs & <- & <-) Hl Hv. destruct (co_seen _ _ _ Hco t Hs) as (cur' & Hl' & _ & _ & Hsame).
  replace cur' with cur in * by congruence. by apply Hsame.
Qed.

(** The usual shape of a change: the next version, the fixed part unchanged. *)
Lemma evolves_next (P : CctpTransfer → Prop) g id t' s' e :
  replaced P g id t' (w_store w) s' →
  (∀ v, vw_fixed (g v) = vw_fixed v ∧ vw_version (g v) = wrap I32 (vw_version v + 1)) →
  (∀ t, transfers (w_store w) !! id = Some t → P t → backed config t (e :: h) → view t' = g (view t) →
     advances t t' ∧ backed config t' (e :: h)) →
  evolves (w_store w) s' (e :: h).
Proof.
  intros Hr Hg Hb. eapply evolves_replaced; [exact Hr|]. intros t Hl HP Hv.
  destruct (Hg (view t)) as [Hf Hn]. split.
  - apply (f_equal vw_fixed) in Hv. cbn in *. congruence.
  - right. split.
    + pose proof (f_equal vw_version Hv) as Hv'. cbn in *. rewrite Hv', Hn.
      eapply wrap_next; [by eapply co_version|done].
    + eapply Hb; [done..| |done]. eapply backed_mono; [|by eapply co_backed]. set_solver.
Qed.

Lemma replaced_carried (P : CctpTransfer → Prop) g id t' s' :
  replaced P g id t' (w_store w) s' → (∀ v, vw_fixed (g v) = vw_fixed v) →
  transfer_id t' = id ∧ transfers s' !! id = Some t'.
Proof.
  intros (t & Hl & Hs & _ & Hv) Hg. split; [|rewrite Hs; apply lookup_insert_eq].
  rewrite <- (co_key _ _ _ Hco id t Hl). apply frozen_id. apply (f_equal vw_fixed) in Hv. rewrite Hg in Hv. done.
Qed.

(** *** Transitions *)

(** The message that makes a transfer ready. *)
Lemma backed_ready t t' raw att n h' :
  backed config t h' → past_burn (status t) = true → message_shown config t raw att h' →
  view t' = bump ((view t) <| vw_status := CctpTransferStatus.AttestationReady |> <| vw_nonce := Some n |>
                           <| vw_raw := Some raw |> <| vw_attestation := Some att |>) →
  backed config t' h'.
Proof.
  intros [B1 B2 B3 B4 B5 B6] Hp Hm (Ef & Es & _ & Esrc & Edst & En & Er & Ea)%view_parts. cbn in *.
  assert (E : frozen t = frozen t') by done. split; rewrite ?Es; [by eauto with saga|done|..|done|done].
  - intros _. destruct (B3 Hp) as (tx & ? & ?). rewrite Esrc. by eauto with saga.
  - intros _. rewrite En, Er, Ea. by eauto 10 with saga.
Qed.

Lemma backed_submitted t t' tx raw att n h' :
  backed config t h' → past_attestation (status t) = true → submission_shown t tx raw att n h' →
  raw_message t = Some raw → attestation t = Some att → message_nonce t = Some n →
  view t' = bump ((view t) <| vw_status := CctpTransferStatus.MintSubmitted |> <| vw_destination := Some tx |>) →
  backed config t' h'.
Proof.
  intros [B1 B2 B3 B4 B5 B6] Hp Hm Hr Ha Hn (Ef & Es & _ & Esrc & Edst & En & Er & Ea)%view_parts. cbn in *.
  assert (E : frozen t = frozen t') by done. split; rewrite ?Es; [by eauto with saga|done|..|done].
  - intros _. destruct B3 as (tx' & ? & ?); [by destruct (status t)|]. rewrite Esrc. by eauto with saga.
  - intros _. destruct (B4 Hp) as (raw' & att' & n' & ? & ? & ? & ?). rewrite En, Er, Ea. by eauto 10 with saga.
  - intros _. rewrite En, Er, Ea, Edst. by eauto 12 with saga.
Qed.

Lemma backed_completed t t' tx raw n h' :
  backed config t h' → past_submission (status t) = true → delivery_shown t tx raw n h' →
  destination_tx_hash t = Some tx → raw_message t = Some raw → message_nonce t = Some n →
  view t' = bump ((view t) <| vw_status := CctpTransferStatus.Completed |>) →
  backed config t' h'.
Proof.
  intros [B1 B2 B3 B4 B5 B6] Hp Hm Hd Hr Hn (Ef & Es & _ & Esrc & Edst & En & Er & Ea)%view_parts. cbn in *.
  assert (E : frozen t = frozen t') by done. split; rewrite ?Es, ?Esrc, ?Edst, ?En, ?Er, ?Ea; [by eauto with saga|done|..].
  - intros _. destruct B3 as (tx' & ? & ?); [by destruct (status t)|]. by eauto with saga.
  - intros _. destruct B4 as (raw' & att' & n' & ? & ? & ? & ?); [by destruct (status t)|]. by eauto 10 with saga.
  - intros _. destruct (B5 Hp) as (tx' & raw' & att' & n' & ? & ? & ? & ? & ?). by eauto 12 with saga.
  - intros _. by eauto 10 with saga.
Qed.

Lemma backed_burned t t' tx h' :
  backed config t h' → burn_shown config t tx h' →
  view t' = bump ((view t) <| vw_status := CctpTransferStatus.AwaitingAttestation |> <| vw_source := Some tx |>) →
  backed config t' h'.
Proof.
  intros [B1 B2 B3 B4 B5 B6] Hb (Ef & Es & _ & Esrc & Edst & En & Er & Ea)%view_parts. cbn in *.
  assert (E : frozen t = frozen t') by done. split; rewrite ?Es, ?Esrc; [by eauto with saga|done|..|done|done|done].
  intros _. by eauto with saga.
Qed.

(** What the allowed transitions say about the status before. *)
Ltac before_status t :=
  match goal with Ha : is_allowed_transition (status t) _ = true |- _ =>
    revert Ha; destruct (status t); try discriminate; intros _; done end.

Lemma backed_transition id v ns p t t' h' :
  h ⊆ h' → may_call config (CTransition id v ns p) h → transfers (w_store w) !! id = Some t → may_move v ns t →
  backed config t h' → view t' = moved ns p (view t) → advances t t' ∧ backed config t' h'.
Proof.
  intros Hsub (Hs & Hd & Hp) Hl [Hv Ha] Hb Ht.
  assert (Hcur : ∀ t0, read_at id v t0 h → view t = view t0) by (intros t0 Hr; by eapply current_read).
  split.
  { destruct (view_parts _ _ Ht) as (_ & E1 & _ & _ & E2 & _). cbn in *. rewrite Hd in E2.
    split_and!; [by rewrite E1|by rewrite E2|]. rewrite E1. intros ->. destruct Hp as (_ & t0 & Hr & Hst). left.
    apply Hcur, (f_equal vw_status) in Hr. by rewrite <- Hst. }
  destruct ns; try done.
  all: try (destruct Hp as [Hp (t0 & Hr & Hst)]; apply Hcur, (f_equal vw_status) in Hr; cbn in Hr).
  all: try (rewrite moved_plain in Ht by done; eapply backed_status; [exact Hb|exact Ht|done|..]; cbn).
  all: try (intros; congruence || done).
  all: try (rewrite Hr, Hst; done).
  all: try (intros _; before_status t).
  destruct Hp as (t0 & raw & att & n & Hr & Er & Ea & En & Hm).
  assert (Hf : frozen t0 = frozen t) by (apply Hcur, (f_equal vw_fixed) in Hr; done).
  eapply (backed_ready t t' raw att n); [done|before_status t|by eauto with saga|].
  rewrite Ht. unfold moved. by rewrite Hs, Hd, Er, Ea, En.
Qed.

(** *** Calls *)

Lemma advances_plain ns t t' :
  view t' = bump ((view t) <| vw_status := ns |>) → is_allowed_transition (status t) ns = true →
  ns ≠ CctpTransferStatus.MintSubmitted → advances t t'.
Proof.
  intros (_ & E1 & _ & _ & E2 & _)%view_parts Ha Hn. cbn in *. split_and!; [by rewrite E1|by rewrite E2|].
  rewrite E1. done.
Qed.

Lemma evolves_outcome {A} (m : St A) Q E r w' h' :
  wp m Q E (w_store w) → on_store m w = Some (r, w') →
  (∀ s', E s' → quiet (w_store w) s') → (∀ a s', Q a s' → evolves (w_store w) s' h') →
  evolves (w_store w) (w_store w') h'.
Proof.
  intros Hw Ho HE HQ. pose proof (wp_store _ _ _ _ _ _ Hw Ho) as Hr. destruct r; [by eapply HQ|].
  by apply evolves_quiet, HE.
Qed.

Lemma quiet_eq s s' : s = s' → quiet s s'.
Proof. intros ->. apply quiet_refl. Qed.

(** The transfer that a successful operation returns is stored under its identifier. *)
Lemma stored_view s t : transfers s !! transfer_id t = Some t →
  ∃ cur, transfers s !! transfer_id t = Some cur ∧ view cur = view t.
Proof. by exists t. Qed.

Lemma fixed_moved ns p v :
  vw_fixed (moved ns p v) = vw_fixed v ∧ vw_version (moved ns p v) = wrap I32 (vw_version v + 1).
Proof. done. Qed.

Lemma transition_call n1 n2 id v ns p r w' e :
  on_store (transition checks n1 n2 id v ns p) w = Some (r, w') →
  p_source_tx_hash p = None → p_destination_tx_hash p = None ∨ p_message_nonce p = None →
  (∀ t t', transfers (w_store w) !! id = Some t → may_move v ns t → backed config t (e :: h) →
     view t' = moved ns p (view t) → advances t t' ∧ backed config t' (e :: h)) →
  evolves (w_store w) (w_store w') (e :: h) ∧
  match r with
  | Ok t' => transfer_id t' = id ∧ transfers (w_store w') !! id = Some t' ∧
             ∃ t, transfers (w_store w) !! id = Some t ∧ version t = v ∧ view t' = moved ns p (view t)
  | Err _ => True
  end.
Proof.
  intros Ho Hs Hd Hb. pose proof (transition_effect checks n1 n2 id v ns p (w_store w)) as Hw. split.
  - eapply evolves_outcome; [exact Hw|exact Ho|by auto|]. intros t' s' Hr.
    eapply evolves_next; [exact Hr|apply fixed_moved|]. by eauto.
  - pose proof (wp_store _ _ _ _ _ _ Hw Ho) as Hr. destruct r as [t'|]; [|done].
    destruct (replaced_carried _ _ _ _ _ Hr) as [Hid Hl]; [done|]. split; [done|]. split; [done|].
    destruct Hr as (t & Hl0 & _ & [Hv _] & Ht). by exists t.
Qed.

(** The step of the store, and the invariant after it. *)
Definition kept w' e : Prop :=
  evolves (w_store w) (w_store w') (e :: h) ∧ coherent config w' (e :: h).

Lemma kept_step w' e :
  evolves (w_store w) (w_store w') (e :: h) → carries_stored e (w_store w') → kept w' e.
Proof. intros Hev Hc. split; [done|]. by eapply coherent_step. Qed.

(** A call that returns the changed transfer. *)
Lemma coherent_call w' e id (r : Result CctpTransfer CctpStoreError) :
  evolves (w_store w) (w_store w') (e :: h) →
  carried e = match r with Ok t' => Some t' | Err _ => None end →
  match r with
  | Ok t' => transfer_id t' = id ∧ transfers (w_store w') !! id = Some t'
  | Err _ => True
  end → kept w' e.
Proof.
  intros Hev Hc Hr. apply kept_step; [done..|]. intros t. rewrite Hc. destruct r as [t'|]; [|done].
  intros [= ->]. destruct Hr as [<- Hl]. by exists t.
Qed.

Lemma transition_coherent o id v ns p r w' :
  may_call config (CTransition id v ns p) h → exec checks o (CTransition id v ns p) w = Some (r, w') →
  kept w' (Happened (CTransition id v ns p) r).
Proof.
  intros Hp Hx. pose proof Hp as (Hs & Hd & _).
  destruct (transition_call _ _ _ _ _ _ _ _ (Happened (CTransition id v ns p) r) Hx)
    as [Hev Hr]; [done|by left|intros; eapply backed_transition; [|done..]; set_solver|].
  eapply (coherent_call _ _ id r); [done..|]. destruct r; [by destruct Hr as (? & ? & _)|done].
Qed.

Lemma mint_prepared_coherent o id v hash x sub r w' :
  exec checks o (CMintPrepared id v hash x sub) w = Some (r, w') →
  kept w' (Happened (CMintPrepared id v hash x sub) r).
Proof.
  cbn [exec]. unfold CctpStore.record_mint_prepared. intros Hx.
  destruct (transition_call _ _ _ _ _ _ _ _ (Happened (CMintPrepared id v hash x sub) r) Hx)
    as [Hev Hr]; [done|by left| |].
  - intros t t' Hl [Hv Ha] Hb Ht. rewrite moved_plain in Ht by done. split; [by eapply advances_plain|].
    eapply backed_status; [exact Hb|exact Ht|done|..]; try done; intros _; before_status t.
  - eapply (coherent_call _ _ id r); [done..|]. destruct r; [by destruct Hr as (? & ? & _)|done].
Qed.

Lemma mint_submission_coherent o id v tx r w' (e := Happened (CMintSubmission id v tx) r) :
  may_call config (CMintSubmission id v tx) h → exec checks o (CMintSubmission id v tx) w = Some (r, w') →
  kept w' e ∧ told e (e :: h).
Proof.
  cbn [exec]. unfold CctpStore.record_mint_submission. intros (t0 & raw & att & n & Hrd & Ed & Er & Ea & En & Hsh) Hx.
  assert (Hsub : h ⊆ e :: h) by set_solver.
  destruct (transition_call _ _ _ _ _ _ _ _ e Hx) as [Hev Hr]; [done|by right| |].
  { intros t t' Hl [Hv Ha] Hb Ht.
    destruct (view_parts _ _ (current_read _ _ _ _ Hrd Hl Hv)) as (Ef & _ & _ & _ & E0 & E1 & E2 & E3). cbn in *.
    split.
    { destruct (view_parts _ _ Ht) as (_ & G1 & _). cbn in G1. rewrite Ed in E0.
      split_and!; [by rewrite G1|by rewrite E0; intros []|by right]. }
    eapply (backed_submitted t t' tx raw att n); [done|before_status t| |congruence..|done].
    eapply submission_shown_frozen; [by symmetry|]. by eauto with saga. }
  split; [eapply (coherent_call _ _ id r); [done..|]; destruct r; [by destruct Hr as (? & ? & _)|done]|].
  cbn. destruct r as [t'|]; [|done]. destruct Hr as (Hid & Hl' & t & Hl & Hv & Ht).
  destruct (view_parts _ _ Ht) as (F1 & F2 & F3 & _ & F4 & F5 & F6 & _). cbn in *. split_and!; [done..|].
  intros t1 ((ev & [->|Hin]%elem_of_cons & Hcar) & Hid1 & Hv1).
  - cbn in Hcar. injection Hcar as ->. exfalso. rewrite F3 in Hv1.
    rewrite (wrap_next _ (Z.of_nat (length h))) in Hv1; [lia| |done]. by eapply co_version.
  - assert (Hr1 : read_at id v t1 h) by (split; [by exists ev|done]).
    destruct (view_parts _ _ (current_read _ _ _ _ Hr1 Hl Hv)) as (G1 & _ & _ & _ & _ & G5 & G6 & _). cbn in *.
    split_and!; congruence.
Qed.

Lemma mint_completed_coherent o id v r w' :
  may_call config (CMintCompleted id v) h → exec checks o (CMintCompleted id v) w = Some (r, w') →
  kept w' (Happened (CMintCompleted id v) r).
Proof.
  cbn [exec]. unfold CctpStore.record_mint_completed. intros (t0 & tx & raw & n & Hrd & Ed & Er & En & Hdel) Hx.
  assert (Hsub : h ⊆ Happened (CMintCompleted id v) r :: h) by set_solver.
  destruct (transition_call _ _ _ _ _ _ _ _ (Happened (CMintCompleted id v) r) Hx) as [Hev Hr]; [done|by left| |].
  - intros t t' Hl [Hv Ha] Hb Ht. rewrite moved_plain in Ht by done.
    destruct (view_parts _ _ (current_read _ _ _ _ Hrd Hl Hv)) as (Ef & _ & _ & _ & E0 & E1 & E2 & _). cbn in *.
    split; [by eapply advances_plain|].
    eapply (backed_completed t t' tx raw n); [done|before_status t| |congruence..|done].
    eapply delivery_shown_frozen; [by symmetry|]. by eauto with saga.
  - eapply (coherent_call _ _ id r); [done..|]. destruct r; [by destruct Hr as (? & ? & _)|done].
Qed.

Lemma verified_burn_coherent o id v tx r w' :
  may_call config (CVerifiedBurn id v tx) h → exec checks o (CVerifiedBurn id v tx) w = Some (r, w') →
  kept w' (Happened (CVerifiedBurn id v tx) r).
Proof.
  cbn [exec]. intros (t0 & Hrd & Hb) Hx. set (e := Happened (CVerifiedBurn id v tx) r).
  assert (Hsub : h ⊆ e :: h) by set_solver.
  pose proof (verified_burn_effect checks (o_now1 o) id v tx (w_store w)) as Hw.
  eapply (coherent_call _ _ id r); [|done|].
  - eapply evolves_outcome; [exact Hw|exact Hx|done|]. intros t' s' Hr. eapply evolves_next; [exact Hr|done|].
    intros t Hl [Hv Hst] Hbk Ht. split.
    { destruct (view_parts _ _ Ht) as (_ & E1 & _ & _ & E2 & _). cbn in *. split_and!; rewrite ?E1, ?E2, ?Hst; done. }
    eapply (backed_burned t t' tx); [done| |done].
    pose proof (f_equal vw_fixed (current_read _ _ _ _ Hrd Hl Hv)) as Ef. cbn in Ef.
    eapply burn_shown_frozen; [by symmetry|]. by eauto with saga.
  - pose proof (wp_store _ _ _ _ _ _ Hw Hx) as Hr. destruct r as [t'|]; [|done]. by eapply replaced_carried.
Qed.

(** *** The calls that move no money *)

Lemma quiet_coherent w' e :
  quiet (w_store w) (w_store w') → carries_stored e (w_store w') → kept w' e.
Proof. intros Hq Hc. apply kept_step; [|done]. by apply evolves_quiet. Qed.

Lemma found_stored s t id :
  quiet (w_store w) s → transfers s !! id = Some t → ∃ cur, transfers s !! transfer_id t = Some cur ∧ view cur = view t.
Proof.
  intros Hq Hl. exists t. split; [|done]. replace (transfer_id t) with id; [done|].
  destruct Hq as [->|(id' & t' & u & Hu & Hs & _ & Hv)]; [by symmetry; eapply co_key|].
  rewrite Hs in Hl. destruct (decide (id = id')) as [->|Hne].
  - rewrite lookup_insert_eq in Hl. injection Hl as ->. apply (f_equal vw_fixed) in Hv.
    apply frozen_id in Hv. rewrite Hv. symmetry. by eapply co_key.
  - rewrite lookup_insert_ne in Hl by done. symmetry. by eapply co_key.
Qed.

Lemma insert_coherent o t r w' :
  may_call config (CInsert t) h → exec checks o (CInsert t) w = Some (r, w') →
  kept w' (Happened (CInsert t) r).
Proof.
  cbn [exec]. intros [Hv Hq] Hx. pose proof (insert_effect t (w_store w)) as Hw.
  apply kept_step; [|by intros ?].
  eapply evolves_outcome; [exact Hw|exact Hx|by apply quiet_eq|]. intros [] s' [Hn Hs] j. rewrite Hs.
  destruct (decide (j = transfer_id t)) as [->|Hne].
  - rewrite Hn, lookup_insert_eq. apply view_parts in Hv as (_ & Hst & Hver & _). cbn in *.
    split_and!; [done..|]. split; rewrite ?Hst; try done. eapply quoted_mono; [|done]. set_solver.
  - rewrite lookup_insert_ne by done. apply evolves_refl.
Qed.

Lemma reattest_coherent w' e (m : St (option CctpTransfer)) (P : CctpTransfer → Prop) g r id :
  wp m (λ r s', match r with Some t' => replaced P g id t' (w_store w) s' | None => s' = w_store w end)
    (eq (w_store w)) (w_store w) →
  on_store m w = Some (r, w') → carried e = match r with Ok o => o | Err _ => None end →
  (∀ v, vw_fixed (g v) = vw_fixed v ∧ vw_version (g v) = wrap I32 (vw_version v + 1)) →
  (∀ t t', P t → backed config t (e :: h) → view t' = g (view t) → advances t t' ∧ backed config t' (e :: h)) →
  kept w' e.
Proof.
  intros Hw Hx Hc Hg Hb. apply kept_step.
  - eapply evolves_outcome; [exact Hw|exact Hx|apply quiet_eq|]. intros [t'|] s'; [|intros ->; apply evolves_refl].
    intros Hr. eapply evolves_next; [exact Hr|done|]. by eauto.
  - intros t. rewrite Hc. pose proof (wp_store _ _ _ _ _ _ Hw Hx) as Hr. destruct r as [[t'|]|]; try done.
    intros [= ->]. destruct (replaced_carried _ _ _ _ _ Hr) as [<- Hl]; [apply Hg|]. by exists t.
Qed.

Lemma approval_coherent o id v tx at_ r w' :
  exec checks o (CApproval id v tx at_) w = Some (r, w') →
  kept w' (Happened (CApproval id v tx at_) r).
Proof.
  cbn [exec]. intros Hx. pose proof (approval_effect checks (o_now1 o) id v tx at_ (w_store w)) as Hw.
  eapply (coherent_call _ _ id r); [|done|].
  - eapply evolves_outcome; [exact Hw|exact Hx|apply quiet_eq|].
    intros t' s' [[-> _]|Hr]; [apply evolves_refl|]. eapply evolves_next; [exact Hr|done|].
    intros t Hl Hst Hb Ht. split; [eapply (advances_plain (status t)); [done|apply allowed_refl|by rewrite Hst]|].
    eapply (backed_status _ (status t) t t'); [done|done|..]; rewrite ?Hst; done.
  - pose proof (wp_store _ _ _ _ _ _ Hw Hx) as Hr. destruct r as [t'|]; [|done].
    destruct Hr as [[-> Hl]|Hr]; [by split; [eapply co_key|]|by eapply replaced_carried].
Qed.

(** A permitted call keeps the invariant, and its reply tells the truth. *)
Lemma exec_coherent o c r w' :
  may_call config c h → exec checks o c w = Some (r, w') →
  kept w' (Happened c r) ∧ told (Happened c r) (Happened c r :: h).
Proof.
  intros Hp Hx. destruct c; cbn [exec] in Hx; try (split; [|done]).
  - by apply (insert_coherent o).
  - injection Hx as <- <-. split.
    + apply quiet_coherent; [apply quiet_refl|]. intros t Ht. cbn in Ht. eapply found_stored; [apply quiet_refl|done].
    + cbn. destruct (transfers (w_store w) !! id) eqn:E; [|done]. by eapply co_key.
  - pose proof (wp_store _ _ _ _ _ _ (poll_lease_effect _ _ _ _ _) Hx) as Hr.
    destruct r as [o'|]; [destruct Hr as [Hq Hf]|]; (apply quiet_coherent; [done|]); intros t Ht; cbn in Ht; [|done].
    destruct o' as [[t' x]|]; [|done]. injection Ht as ->. by eapply found_stored; [|eapply Hf].
  - pose proof (wp_store _ _ _ _ _ _ (claim_reattest_effect _ _ _ _ _ _) Hx) as Hr.
    destruct r as [o'|]; [destruct Hr as [Hq Hf]|]; (apply quiet_coherent; [done|]); intros t Ht; cbn in Ht; [|done].
    destruct o' as [[t' x]|]; [|done]. injection Ht as ->. by eapply found_stored; [|eapply Hf].
  - eapply reattest_coherent; [apply reattest_success_effect|exact Hx|done|done|].
    intros t t' Hst Hb Ht. split; [eapply advances_plain; [exact Ht|by rewrite Hst|done]|].
    eapply backed_status; [done|exact Ht|..]; rewrite ?Hst; done.
  - eapply reattest_coherent; [apply reattest_failure_effect|exact Hx|done|done|].
    intros t t' Hst Hb Ht. split; [eapply (advances_plain (status t)); [done|apply allowed_refl|by rewrite Hst]|].
    eapply (backed_status _ (status t) t t'); [done|exact Ht|..]; rewrite ?Hst; done.
  - eapply transition_coherent; [exact Hp|exact Hx].
  - by eapply approval_coherent.
  - eapply mint_prepared_coherent; exact Hx.
  - exact (mint_submission_coherent o id expected_version tx_hash r w' Hp Hx).
  - eapply mint_completed_coherent; [exact Hp|exact Hx].
  - eapply verified_burn_coherent; [exact Hp|exact Hx].
  - unfold on_locks in Hx. destruct (try_acquire _ _ _ _ _) as [a l]. injection Hx as <- <-.
    by apply quiet_coherent; [apply quiet_refl|intros ?].
  - unfold on_locks in Hx. destruct (release _ _ _) as [a l]. injection Hx as <- <-.
    by apply quiet_coherent; [apply quiet_refl|intros ?].
  - unfold on_locks in Hx. destruct (get_for_transfer _ _ _ _) as [a l]. injection Hx as <- <-.
    by apply quiet_coherent; [apply quiet_refl|intros ?].
  - injection Hx as <- <-. by apply quiet_coherent; [apply quiet_refl|intros ?].
Qed.

End Steps.

(** ** The protocol *)

Section Protocol.

Context {T : Time} {H : Hex} {K : Strkey} {D : Digest} {X : XdrLib} {J : PayloadJson} {L : Libs}.
Variable config : CctpConfig.
Variable checks : bool.

(** Versions are 32-bit integers; no history so long that one overflows. *)
Definition short (h : list (Event Reply)) : Prop := Z.of_nat (length h) < 2 ^ 31 - 2.

#[export] Program Instance saga_protocol : Protocol (exec checks) initial_world := {|
  admitted := short; permitted := may_call config; replied := told; invariant := coherent config;
  permitted_mono := may_call_mono config;
|}.
Next Obligation. unfold short. cbn [length]. lia. Qed.
Next Obligation.
  split; cbn; try by intros ? ?; rewrite lookup_empty. intros t (e & He%elem_of_nil & _). done.
Qed.
Next Obligation.
  intros o c w h r w' Hco Hs Hp Hx. unfold short in Hs. cbn [length] in Hs.
  destruct (exec_coherent config checks w h Hco ltac:(lia) o c r w' Hp Hx) as [[_ ?] ?]. done.
Qed.

Local Abbreviation safe p h Q := (safe (exec checks) initial_world p h Q).

Lemma safe_lift_fault {A E} (f : E → CctpServiceError) (r : Result A (Fault E)) h Q :
  (∀ a, r = Ok a → Q (Ok a) h) → (∀ e, Q (Err e) h) → safe (lift_fault f r) h Q.
Proof. destruct r as [|[]]; cbn; auto. Qed.

(** An answer of the outside. *)
Lemma safe_ask e h (Q : Answer e → list (Event Reply) → Prop) :
  (∀ a h', h ⊆ h' → answered e a h' → Q a h') → safe (ask e) h Q.
Proof. intros HQ. split; [done|]. intros r h' Hs He _. by apply HQ. Qed.

End Protocol.
