(* ===== verification/CctpServiceLogic.v ===== *)
(** * Every handler of the bridge service is safe

    Each handler of CctpService only makes calls that the history permits: it records a
    burn, an attested message, a submission or a delivery only after the outside showed
    it for the transfer as it was read, and names the version that it read. *)

From stdpp Require Import base decidable strings numbers list gmap.
From Stdlib Require Import ZArith Lia.
From S2P Require Import Prelude RustStr Result Tasks CctpTypes CctpMessage CctpTrust CctpStore CctpStoreLogic.
From S2P Require Import CctpStoreLogic CctpEncoding CctpConfig Xdr Soroban CctpLocks Policy CctpCalls CctpService CctpSaga.
From S2P Require Import CctpSagaLogic.

Local Open Scope Z_scope.
Local Open Scope record_scope.

(** The steps of the service beside the generic ones. *)
Ltac saga_step :=
  lazymatch goal with
  | |- safe _ _ (ask _) _ _ => apply safe_ask; intros ? ? ? ?
  | |- safe _ _ (lift_fault _ _) _ _ => apply safe_lift_fault; intros ?; [intros ?|]
  | |- _ => safe_step
  end.

Section Handlers.

Context {T : Time} {H : Hex} {K : Strkey} {D : Digest} {X : XdrLib} {J : PayloadJson} {L : Libs}.
Variable config : CctpConfig.
Variable production checks : bool.
Implicit Types (h : list (Event Reply)) (t : CctpTransfer).

#[local] Existing Instance saga_protocol.

Local Abbreviation safe p h Q := (safe (exec checks) initial_world (P := saga_protocol config checks) p h Q).

(** [p] is safe in every history. *)
Definition always_safe {A} (p : Prog Reply A) : Prop := ∀ h Q, (∀ a h', Q a h') → safe p h Q.

(** ** Shared steps *)

Lemma safe_get id h Q :
  (∀ t h', h ⊆ h' → seen t h' → transfer_id t = id → Q (Ok t) h') → (∀ e h', Q (Err e) h') →
  safe (get_transfer id) h Q.
Proof.
  intros Hok Herr. unfold get_transfer. do 2 saga_step. saga_step.
  destruct r as [[t|]|]; cbn; [|by apply Herr..]. apply Hok; [done| |done].
  by eexists (Happened (CGet id) (Ok (Some t))).
Qed.

Lemma safe_always {A} (p : Prog Reply A) h Q : always_safe p → (∀ a h', h ⊆ h' → Q a h') → safe p h Q.
Proof.
  intros Hp HQ. eapply safe_weaken; [|apply (Hp h (λ _ _, True)); done]. intros a h' Hs _. by apply HQ.
Qed.

Lemma release_safe t : always_safe (release_transfer_prepare_locks t).
Proof. intros h Q HQ. unfold release_transfer_prepare_locks. repeat saga_step. Qed.

Lemma quote_fresh_safe t : always_safe (ensure_quote_not_expired t).
Proof. intros h Q HQ. unfold ensure_quote_not_expired. repeat saga_step. Qed.

Lemma fee_fresh_safe t : always_safe (ensure_fee_not_expired t).
Proof. intros h Q HQ. unfold ensure_fee_not_expired. repeat saga_step. Qed.

Lemma burn_ready_safe d : always_safe (ensure_burn_verifier_ready d).
Proof. intros h Q HQ. unfold ensure_burn_verifier_ready. repeat saga_step. Qed.

Lemma attestation_ready_safe : always_safe ensure_attestation_verifier_ready.
Proof. intros h Q HQ. unfold ensure_attestation_verifier_ready. repeat saga_step. Qed.

Lemma mint_ready_safe d : always_safe (ensure_mint_verifier_ready d).
Proof. intros h Q HQ. unfold ensure_mint_verifier_ready. repeat saga_step. Qed.

Lemma mint_payload_safe t : always_safe (ensure_mint_payload_valid t).
Proof. intros h Q HQ. unfold ensure_mint_payload_valid. repeat saga_step. Qed.

Lemma killed_safe : always_safe provider_killed.
Proof. intros h Q HQ. unfold provider_killed. repeat saga_step. Qed.

Lemma expiry_safe secs : always_safe (expiry secs).
Proof. intros h Q HQ. unfold expiry. repeat saga_step. Qed.

Lemma acquire_safe r : always_safe (try_acquire_prepare_lock r).
Proof. intros h Q HQ. unfold try_acquire_prepare_lock. repeat saga_step. Qed.

End Handlers.

#[export] Hint Resolve release_safe quote_fresh_safe fee_fresh_safe burn_ready_safe attestation_ready_safe
  mint_ready_safe mint_payload_safe killed_safe expiry_safe acquire_safe : saga.

(** Passes a step that is safe in every history. *)
Ltac pass := apply safe_always; [solve [eauto with saga]|intros ? ? ?]; cbv beta.

Ltac walk := repeat first [saga_step | pass].

(** What was seen or answered before is still in the history. *)
Ltac later :=
  match goal with
  | |- seen _ _ => eapply seen_mono; [|eassumption]; set_solver
  | |- answered _ _ _ => eapply answered_mono; [|eassumption]; set_solver
  end.

Ltac destruct_units := repeat match goal with u : unit |- _ => destruct u end.

Ltac destruct_decides :=
  repeat match goal with
  | Hb : bool_decide (_ ≠ _) = false |- _ => apply bool_decide_eq_false, dec_stable in Hb
  | Hb : bool_decide (_ = _) = true |- _ => apply bool_decide_eq_true in Hb
  end.

Section Saga.

Context {T : Time} {H : Hex} {K : Strkey} {D : Digest} {X : XdrLib} {J : PayloadJson} {L : Libs}.
Variable config : CctpConfig.
Variable production checks : bool.
Implicit Types (h : list (Event Reply)) (t : CctpTransfer).

Local Abbreviation safe p h Q := (safe (exec checks) initial_world (P := saga_protocol config checks) p h Q).
Local Abbreviation always_safe p := (always_safe config checks p).

(** ** Burns *)

Lemma prepare_burn_safe id : always_safe (prepare_burn config production id).
Proof.
  intros h Q HQ. unfold prepare_burn. walk. apply safe_get; [|by intros]. intros t h1 Hs Hsn Hid. walk.
  by split_and!.
Qed.

Lemma record_burn_safe id tx : always_safe (record_burn_submission config id tx).
Proof.
  intros h Q HQ. unfold record_burn_submission. saga_step. apply safe_get; [|by intros]. intros t h1 Hs Hsn Hid.
  walk. exists t. split; [by split; [later|]|]. destruct a4. do 2 eexists. by split; [later|].
Qed.

Lemma required_safe t : always_safe (required_approval t).
Proof. intros h Q HQ. unfold required_approval. walk. Qed.

Hint Resolve prepare_burn_safe record_burn_safe required_safe : saga.

Lemma record_approval_safe id tx : always_safe (record_approval_submission id tx).
Proof.
  intros h Q HQ. unfold record_approval_submission. saga_step. apply safe_get; [|by intros]. intros t h1 Hs Hsn Hid.
  walk.
Qed.

Hint Resolve record_approval_safe : saga.

Lemma record_source_safe id tx : always_safe (record_source_submission config id tx).
Proof.
  intros h Q HQ. unfold record_source_submission, classify_stellar_source_submission. saga_step.
  apply safe_get; [|by intros]. intros t h1 Hs Hsn Hid. walk.
Qed.

Lemma prepare_burn_wallet_safe id : always_safe (prepare_burn_wallet config production id).
Proof.
  intros h Q HQ. unfold prepare_burn_wallet, burn_prepare_source, burn_reservation. walk.
  apply safe_get; [|by intros]. intros t h1 Hs Hsn Hid. walk.
  all: unfold burn_patch; repeat case_match; by split_and!.
Qed.

(** ** Attestations *)

Lemma fail_timeout_safe t : always_safe (fail_attestation_timeout t).
Proof. intros h Q HQ. unfold fail_attestation_timeout. walk. by split_and!. Qed.

Lemma mark_ready_safe t m h Q :
  seen t h → (∀ a h', Q a h') → safe (validate_and_mark_attestation_ready config t m) h Q.
Proof.
  intros Hsn HQ. unfold validate_and_mark_attestation_ready. walk.
  split; [done|]. split; [done|]. exists t. do 3 eexists. split; [by split; [later|]|].
  split_and!; [done..|]. destruct_units. do 3 eexists. by split; [later|].
Qed.

(** ** Mints *)

Lemma hint_safe t h Q :
  seen t h → status t = CctpTransferStatus.MintSubmitted → (∀ a h', Q a h') →
  safe (record_mint_reconciliation_hint t) h Q.
Proof.
  intros Hsn Hst HQ. unfold record_mint_reconciliation_hint. walk. rewrite Hst. split_and!; try done.
  exists t. by split; [split; [later|]|].
Qed.

Lemma poll_mint_safe t h Q :
  seen t h → status t = CctpTransferStatus.MintSubmitted → (∀ a h', Q a h') →
  safe (poll_mint_completion t) h Q.
Proof.
  intros Hsn Hst HQ. unfold poll_mint_completion. walk.
  - exists t. do 3 eexists. split; [by split; [later|]|]. split_and!; [done..|]. unfold delivery_shown. later.
  - by split_and!.
  - apply hint_safe; [later|done|done].
Qed.

Hint Resolve fail_timeout_safe : saga.

Lemma poll_safe id : always_safe (poll_one_transfer config id).
Proof.
  intros h Q HQ. unfold poll_one_transfer, attestation_timed_out. saga_step. apply safe_get; [|by intros].
  intros t h1 Hs Hsn Hid. walk; destruct_decides.
  - by apply poll_mint_safe.
  - by apply mark_ready_safe; [later|].
  - split_and!; try done. exists t. by split; [split; [later|]|].
Qed.

Hint Resolve poll_safe : saga.

Lemma poll_lease_safe id l i : always_safe (poll_one_transfer_with_lease config id l i).
Proof. intros h Q HQ. unfold poll_one_transfer_with_lease. walk. Qed.

Lemma reattest_safe id : always_safe (reattest id).
Proof. intros h Q HQ. unfold reattest, reattest_with_claim. walk. Qed.

Lemma cancel_safe id : always_safe (cancel id).
Proof.
  intros h Q HQ. unfold cancel. saga_step. apply safe_get; [|by intros]. intros t h1 Hs Hsn Hid. walk.
  by split_and!.
Qed.

Lemma active_bundle_safe id sub : always_safe (active_mint_bundle_for_transfer id sub).
Proof. intros h Q HQ. unfold active_mint_bundle_for_transfer. walk. Qed.

Hint Resolve active_bundle_safe : saga.

Lemma prepare_mint_safe id : always_safe (prepare_mint config production id).
Proof.
  intros h Q HQ. unfold prepare_mint. walk. apply safe_get; [|by intros]. intros t h1 Hs Hsn Hid. walk.
Qed.

(** The reply to the submission is the transfer as it was read, with the transaction. *)
Lemma finish_mint_safe id t t' tx raw n h Q :
  seen t' h → transfer_id t' = id → status t' = CctpTransferStatus.MintSubmitted →
  destination_tx_hash t' = Some tx → frozen t' = frozen t → raw_message t' = Some raw → message_nonce t' = Some n →
  (∀ a h', Q a h') → safe (finish_mint_submission id t t' tx raw n) h Q.
Proof.
  intros Hsn Hid Hst Hd Hf Hr Hn HQ. unfold finish_mint_submission. walk.
  - exists t'. do 3 eexists. split; [by split; [later|]|]. split_and!; [done..|].
    eapply delivery_shown_frozen; [by symmetry|]. unfold delivery_shown. later.
  - by split_and!.
  - apply hint_safe; [later|done|done].
Qed.

Lemma record_mint_safe id tx : always_safe (record_mint_submission id tx).
Proof.
  intros h Q HQ. unfold record_mint_submission. saga_step. apply safe_get; [|by intros]. intros t h1 Hs Hsn Hid. walk.
  all: repeat match goal with Hb : negb (submission_ok _) = false |- _ => apply negb_false_iff in Hb end.
  all: destruct_decides.
  all: lazymatch goal with
       | |- permitted _ _ (CTransition _ _ _ _) _ => by split_and!
       | |- permitted _ _ (CMintSubmission _ _ _) _ =>
           exists t; do 3 eexists; split; [by split; [later|]|]; split_and!; [done..|];
           do 3 eexists; split; [later|by split]
       | Hr : replied _ _ (Happened (CMintSubmission _ _ _) (Ok ?t')) ?h' |- _ =>
           destruct Hr as (Hi & Hst & Hd & Hall); destruct (Hall t) as (Hf & Hraw & Hn); [by split; [later|]|];
           apply finish_mint_safe; [by eexists (Happened (CMintSubmission _ _ _) (Ok t'))|congruence..|done]
       end.
Qed.

(** ** Quotes *)

Lemma request_sender request : validate_request request = Ok tt → Some (default [] (q_sender request)) = q_sender request.
Proof.
  unfold validate_request. destruct (q_direction request); intros Hv; rinv; by destruct (q_sender request).
Qed.

Lemma build_quote_safe request id token h Q :
  (∀ t h', h ⊆ h' → transfer_id t = id → quoted config t h' →
     view t = mkView (frozen t) CctpTransferStatus.Created 1 None None None None None → Q (Ok t) h') →
  (∀ e h', Q (Err e) h') →
  safe (build_quote_transfer config request id token) h Q.
Proof.
  intros Hok Herr. unfold build_quote_transfer, provider_killed. walk.
  all: try apply Herr.
  all: match goal with Hv : validate_request _ = Ok ?u |- _ => destruct u; pose proof (request_sender _ Hv) as Hsnd end.
  all: apply Hok; [set_solver|done| |done].
  all: exists request; do 2 eexists; split; [by apply negb_false_iff|]; split; [later|]; cbn.
  all: split; [by apply negb_false_iff|]; split_and!; try done.
  all: unfold amount_limit; repeat match goal with Hr : decimal_to_cctp_subunits (amount_cap config) = _ |- _ => rewrite Hr; clear Hr end.
  all: by apply Z.ltb_ge.
Qed.

Lemma quote_safe request token : always_safe (quote_core config request token).
Proof.
  intros h Q HQ. unfold quote_core. do 2 saga_step. saga_step. apply build_quote_safe; [|by intros].
  intros t h1 Hs Hid Hq Hv. walk. by split.
Qed.

Hint Resolve quote_safe prepare_burn_wallet_safe record_source_safe poll_lease_safe reattest_safe cancel_safe
  prepare_mint_safe record_mint_safe : saga.

Lemma get_safe id : always_safe (get_transfer id).
Proof. intros h Q HQ. by apply safe_get; intros. Qed.

Hint Resolve get_safe : saga.

(** Every handler is safe. *)
Lemma program_safe hd h : safe (program config production hd) h (λ _ _, True).
Proof. destruct hd; unfold program, task, tick_transfer; walk. Qed.

End Saga.
