(* ===== verification/CctpServiceProps.v ===== *)
(** * Properties of the bridge service

    In every state that concurrent handlers can reach, what a transfer says is backed
    by what the outside showed; a completed transfer was delivered to its recipient; a
    mint that fails after its submission cannot be retried. *)

From stdpp Require Import base decidable strings numbers list gmap relations.
From Stdlib Require Import ZArith Lia.
From S2P Require Import Prelude RustStr Result Tasks CctpTypes CctpMessage CctpMessageProps CctpTrust CctpStore.
From S2P Require Import CctpStoreLogic CctpStoreProps CctpEncoding CctpEncodingProps CctpConfig Xdr Soroban CctpLocks.
From S2P Require Import Policy CctpCalls CctpService CctpSaga CctpSagaLogic CctpServiceLogic.

Local Open Scope Z_scope.
Local Open Scope str_scope.
Local Open Scope record_scope.

Section Props.

Context {T : Time} {H : Hex} {K : Strkey} {D : Digest} {X : XdrLib} {J : PayloadJson} {L : Libs}.
Variable config : CctpConfig.
Variable production checks : bool.

Local Abbreviation step := (step (exec checks) (program config production)).
Local Abbreviation reachable := (reachable (exec checks) (program config production) initial_world).

(** Versions are 32-bit integers; no run so long that one overflows. *)
Definition short_run (S : System (Reply := Reply) (World := World)) : Prop := short (history S).

Lemma saga_invariant S :
  reachable S → short_run S →
  coherent config (world S) (history S) ∧
  Forall (λ p, safe (exec checks) initial_world (P := saga_protocol config checks) p (history S) (λ _ _, True)) (tasks S).
Proof.
  exact (tasks_invariant (exec checks) (program config production) initial_world (P := saga_protocol config checks) S
           (program_safe config production checks)).
Qed.

Lemma reachable_coherent S : reachable S → short_run S → coherent config (world S) (history S).
Proof. intros Hr Hs. by destruct (saga_invariant S Hr Hs). Qed.

(** C9: the saga is backed by evidence. Handlers may interleave in any way, be started
    at any time and fail anywhere; whatever they do, in runs of fewer than 2^31 - 2 calls
    (so that no version overflows), a stored transfer was quoted for a valid request within
    the cap while the provider was allowed, and: past the burn, the verifier of the source
    chain showed a burn, in the recorded transaction, of exactly what the transfer asks
    for; past the attestation, the recorded message was attested and is a message that the
    corridor expects for this transfer; once submitted, the destination chain showed that
    message's submission in the recorded transaction; once completed, it showed the
    delivery. *)
Theorem saga_backed S id t :
  reachable S → short_run S → transfers (w_store (world S)) !! id = Some t → backed config t (history S).
Proof. intros Hr Hs Hl. by eapply co_backed; [apply reachable_coherent|]. Qed.

(** Completed transfers were delivered. In every reachable state a completed
    transfer records a message that is exactly the layout of a bridge message paying
    the transfer's amount to its recipient, that the attesters signed, and whose
    delivery to that recipient the destination chain showed in the recorded
    transaction. *)
Theorem completed_transfer_delivered S id t {HO : HexOk H} :
  reachable S → short_run S → transfers (w_store (world S)) !! id = Some t →
  status t = CctpTransferStatus.Completed →
  ∃ m att nonce tx,
    raw_message t = Some (message_bytes m) ∧ fulfils t m ∧
    answered (VerifyAttestation (message_bytes m) att) (Ok tt) (history S) ∧
    destination_tx_hash t = Some tx ∧
    answered (VerifyMintCompletion (direction t) tx (message_bytes m) nonce (recipient t) (finality t))
      (Ok MintVerifyOutcome.Succeeded) (history S).
Proof.
  intros Hr Hs Hl Hc. destruct (co_backed _ _ _ (reachable_coherent S Hr Hs) id t Hl) as [_ _ _ Hm _ Hd].
  rewrite Hc in Hm. destruct (Hm eq_refl) as (raw & att & nonce & Er & _ & En & hex & e & m & Ha & He & Hv & Hx).
  destruct (Hd Hc) as (tx & raw' & nonce' & Et & Er' & En' & Hdel).
  replace raw' with raw in * by congruence. replace nonce' with nonce in * by congruence.
  assert (raw = message_bytes m) as ->.
  { apply validate_message_iff in Hv as (bytes & Hb & _ & _ & -> & _). congruence. }
  exists m, att, nonce, tx. split_and!; [done| |done..]. by eapply accepted_message_fulfils.
Qed.

(** ** Retries of a mint *)

(** The mint failed after its submission was recorded. *)
Definition failed_after_submission (t : CctpTransfer) : Prop :=
  is_Some (destination_tx_hash t) ∧
  (status t = CctpTransferStatus.MintFailedRetryable ∨ status t = CctpTransferStatus.MintPrepared).

Lemma failed_evolves t t' h :
  failed_after_submission t → advances t t' → backed config t' h →
  failed_after_submission t' ∧ destination_tx_hash t' = destination_tx_hash t.
Proof.
  intros [Hd Hst] (Ha & Hd' & Hsub) Hb. split; [|by apply Hd']. split; [by rewrite Hd'|].
  pose proof (bk_unused _ _ _ Hb) as [_ Hk].
  assert (Hn : status t' ≠ CctpTransferStatus.MintSubmitted).
  { intros E. destruct (Hsub E) as [E'|E']; [destruct Hst; congruence|rewrite E' in Hd; by destruct Hd]. }
  destruct Hst as [E|E]; rewrite E in Ha; destruct (status t'); try done; auto.
Qed.

Lemma failed_step S S' id t :
  reachable S → short_run S' → step S S' → transfers (w_store (world S)) !! id = Some t →
  failed_after_submission t →
  ∃ t', transfers (w_store (world S')) !! id = Some t' ∧ failed_after_submission t' ∧
        destination_tx_hash t' = destination_tx_hash t.
Proof.
  intros Hr Hs' Hstep Hl Hf. destruct Hstep as [w h ts hd|w h ts1 ts2 c k o r w' Hx]; [by exists t|]. cbn in *.
  assert (Hs : short h) by (unfold short_run, short in *; cbn in Hs'; lia).
  destruct (saga_invariant _ Hr Hs) as [Hco Hts]. cbn in *.
  apply Forall_app in Hts as [_ [[Hp _] _]%Forall_cons].
  destruct (exec_coherent config checks w h Hco Hs o c r w' Hp Hx) as [[Hev _] _].
  specialize (Hev id). rewrite Hl in Hev. destruct (transfers (w_store w') !! id) as [t'|]; [|done].
  exists t'. split; [done|]. destruct Hev as [_ [Hv|(_ & Ha & Hb)]]; [|by eapply failed_evolves].
  destruct (view_parts _ _ Hv) as (_ & E1 & _ & _ & E2 & _). unfold failed_after_submission. by rewrite E1, E2.
Qed.

(** C26: a mint that fails after its submission is never retried to success. Consider a
    reachable state in which a transfer has a recorded destination transaction and its
    mint is marked as failed and to be retried, or prepared again. However the handlers
    interleave from there on, and whatever the outside answers, the transfer keeps that
    destination transaction and is failed or prepared again; it is never submitted or
    completed. (For runs of fewer than 2^31 - 2 calls, so that no version overflows.) *)
Theorem failed_mint_stuck S S' id t :
  reachable S → rtc step S S' → short_run S' → transfers (w_store (world S)) !! id = Some t →
  failed_after_submission t →
  ∃ t', transfers (w_store (world S')) !! id = Some t' ∧ failed_after_submission t' ∧
        destination_tx_hash t' = destination_tx_hash t ∧
        status t' ≠ CctpTransferStatus.MintSubmitted ∧ status t' ≠ CctpTransferStatus.Completed.
Proof.
  intros Hr Hsteps. revert t Hr. induction Hsteps as [S|S S1 S2 H1 Hrest IH]; intros t Hr Hs Hl Hf.
  { exists t. split_and!; try done; destruct Hf as [_ [E|E]]; by rewrite E. }
  assert (Hs1 : short_run S1).
  { unfold short_run, short in *. clear -Hrest Hs. induction Hrest as [|x y z Hxy _ IH]; [done|].
    specialize (IH Hs). destruct Hxy; cbn in *; lia. }
  destruct (failed_step S S1 id t) as (t1 & Hl1 & Hf1 & Hd1); [done..|]. rewrite <- Hd1.
  eapply IH; [|done..]. by eapply reach_step.
Qed.

(** Why: when the transfer already has a destination transaction, a submission that is not
    answered with an error either names that transaction and returns the transfer as it
    is, or marks the mint as failed again. *)
Theorem resubmission_without_effect (told : ∀ c : Call, Reply c → Prop) id tx t existing r :
  (∀ x, told (CGet id) x → x = Ok (Some t)) → destination_tx_hash t = Some existing →
  returns told (record_mint_submission id tx) (Ok r) →
  r = t ∧ tx = existing ∨
  ∃ p, told (CTransition id (version t) CctpTransferStatus.MintFailedRetryable p) (Ok r).
Proof.
  intros Hget Hd Hr. unfold record_mint_submission in Hr. apply returns_mtry in Hr as (t' & Hg & Hr).
  unfold get_transfer in Hg. pinv.
  match goal with Hc : told (CGet id) _ |- _ => apply Hget in Hc; simplify_eq end.
  rewrite Hd in Hr. case_match; pinv; try solve [right; eauto];
    match goal with Hb : bool_decide (existing ≠ tx) = false |- _ => apply bool_decide_eq_false, dec_stable in Hb end;
    by left.
Qed.

End Props.

(** ** A concrete corridor *)

Local Abbreviation running config := (reachable (exec true) (program config false) initial_world).
Local Abbreviation handled config := (play (exec true) (program config false)).

#[local] Existing Instance seconds.
#[local] Existing Instance pairs.
#[local] Existing Instance pairs_ok.
#[local] Existing Instance toy_strkey.

#[local] Instance toy_digest : Digest := λ bytes, take 32 bytes.
#[local] Instance toy_payload_json : PayloadJson := λ _, Ok $"payload".
#[local] Instance toy_xdr : XdrLib := {|
  signature_payload := λ _ _, Err $"unknown";
  to_xdr_base64 := λ _, Err $"unknown";
  from_xdr_base64 := λ _, Err $"unknown";
  valid_key := λ _, false;
  ed25519_verify := λ _ _ _, false;
  base64_valid := λ _, false;
|}.
#[local] Instance toy_libs : Libs := {|
  from_timestamp := λ secs, Some secs;
  uuid_to_string := display;
  burn_to_json := λ _, Ok $"burn";
  burn_from_json := λ _, Err $"unreadable";
  mint_to_json := λ _, Ok $"mint";
  mint_from_json := λ _, Err $"unreadable";
|}.

Definition toy_config : CctpConfig :=
  mkCctpConfig true DEFAULT_IRIS_SANDBOX_URL STELLAR_TESTNET_DOMAIN SEPOLIA_DOMAIN
    DEFAULT_STELLAR_TESTNET_RPC $"https://horizon-testnet.stellar.org" STELLAR_TESTNET_PASSPHRASE
    $"https://sepolia.example" $"100000" 300 600 5 1800 10 2 900 86400 900 86400 (contracts default_testnet).

Definition toy_request : CctpQuoteRequest :=
  mkCctpQuoteRequest CCTP_TESTNET_CORRIDOR_ID CCTP_PROVIDER_ID CctpDirection.EvmToStellar SEPOLIA_CHAIN_ID
    STELLAR_TESTNET_CHAIN_ID sepolia_usdc_asset stellar_testnet_usdc $"12.5" $"G" (Some SEPOLIA_USDC) (Some $"G")
    CctpFinality.Standard.

(** What the transfer of the request fixes. *)
Definition toy_fixed : CctpTransfer :=
  (sample_transfer 1) <| direction := CctpDirection.EvmToStellar |> <| sender := SEPOLIA_USDC |>
    <| recipient := $"G" |> <| amount := $"12.5" |>.

Definition toy_facts (tx : Str) : Result VerifiedBurnFacts VerifierError :=
  map_err (λ _, VerifierError.TxNotFound) (build_expected_burn_facts toy_fixed (contracts toy_config) tx).

Definition toy_message : IrisMessage :=
  match build_corridor_expectations toy_fixed (contracts toy_config) with
  | Ok e => mkIrisMessage (encode_message_hex (build_synthetic_cctp_message e)) (Some $"0x01") 2
              IrisMessageStatus.Complete $"7" (Some $"0xAA")
  | Err _ => mkIrisMessage [] None 2 IrisMessageStatus.Pending [] None
  end.

(** An outside on which everything goes well, up to the [outcome] of the delivery. *)
Definition toy_answer (outcome : MintVerifyOutcome) (e : External) : Answer e :=
  match e return Answer e with
  | Now => 0
  | NewUuid => 1
  | NewLeaseOwner => $"owner"
  | GetProviderPolicy => mkProviderPolicy [] [] ∅
  | BurnVerifierReady _ | AttestationVerifierReady | MintVerifierReady _ | ApprovalVerifierReady _ => true
  | FetchBurnFees _ _ => Ok (mkIrisFeeQuote $"1" None)
  | PollMessagesByTx _ _ => Ok (IrisPollOutcome.Complete toy_message)
  | IrisReattest _ => Ok tt
  | GetFinalizedTransaction _ => Err VerifierError.TxNotFound
  | VerifyBurn _ tx => toy_facts tx
  | VerifyApproval _ _ _ _ => Ok tt
  | VerifyAttestation _ _ => Ok tt
  | VerifyMintSubmission _ tx m a n hash _ =>
      Ok (mkVerifiedMintFacts tx $"stellar:testnet" [] [] [] [] n hash MintVerifyOutcome.Pending None)
  | VerifyMintCompletion _ _ _ _ _ _ => Ok outcome
  | PrepareBurn _ _ =>
      Ok (mkPreparedBurnBundle BurnPrepareStep.Burn false (EvmTransaction [] [] [] []) [] [] 100 None)
  | PrepareMint _ _ => Ok (mkPreparedMintBundle MintPrepareStep.Mint false (StellarXdr [] [] None) 200 $"hash")
  end.

Definition toy_oracles (now : Z) (outcome : MintVerifyOutcome) : list Oracle :=
  replicate 20 (mkOracle now now now [$"G"] (toy_answer outcome)).

(** From the quote to the submission of the mint. *)
Definition toy_run (outcome : MintVerifyOutcome) : list (Handler * list Oracle) :=
  (λ h, (h, toy_oracles 0 outcome)) <$>
    [HQuote toy_request $"token"; HPrepareBurnWallet 1; HBurnSubmission 1 $"0xaa"; HTick 1; HPrepareMint 1;
     HMintSubmission 1 $"0xbb"].

Definition toy_end (outcome : MintVerifyOutcome) : option (World * list (Event Reply)) :=
  handled toy_config (toy_run outcome) initial_world [].

Definition toy_world (outcome : MintVerifyOutcome) : World := default initial_world (fst <$> toy_end outcome).

Definition toy_transfer_after (outcome : MintVerifyOutcome) : CctpTransfer :=
  default toy_fixed (transfers (w_store (toy_world outcome)) !! 1).

(** The run is a run of the system. *)
Lemma toy_reachable outcome :
  is_Some (toy_end outcome) →
  ∃ S, running toy_config S ∧ world S = toy_world outcome ∧ (length (history S) <= 120)%nat.
Proof.
  unfold toy_world. intros [[w h] Hw]. rewrite Hw.
  destruct (play_steps _ _ _ _ _ [] _ _ Hw) as [(ts & Hs) Hl].
  exists (mkSystem w h ts). split_and!; [|done|exact Hl]. eapply rtc_reachable; [|exact Hs]. apply reach_initial.
Qed.

Lemma toy_stored outcome :
  is_Some (transfers (w_store (toy_world outcome)) !! 1) →
  transfers (w_store (toy_world outcome)) !! 1 = Some (toy_transfer_after outcome).
Proof. unfold toy_transfer_after. by intros [t ->]. Qed.

#[local] Opaque toy_world toy_transfer_after.

Lemma short_toy (S : System (Reply := Reply) (World := World)) : (length (history S) <= 120)%nat → short_run S.
Proof. unfold short_run, short. lia. Qed.

Definition delivered : MintVerifyOutcome := MintVerifyOutcome.Succeeded.
Definition undelivered : MintVerifyOutcome := MintVerifyOutcome.FailedRetryable $"reverted".

Lemma saga_backed_witness :
  ∃ S, running toy_config S ∧ status (toy_transfer_after delivered) = CctpTransferStatus.Completed ∧
       backed toy_config (toy_transfer_after delivered) (history S).
Proof.
  destruct (toy_reachable delivered) as (S & Hr & Hw & Hl); [vm_compute; by eexists|].
  exists S. split; [exact Hr|]. split; [by vm_compute|].
  apply (saga_backed toy_config false true S 1); [exact Hr|exact (short_toy S Hl)|].
  rewrite Hw. apply toy_stored. vm_compute. by eexists.
Defined.

Lemma completed_transfer_delivered_witness :
  ∃ S m, running toy_config S ∧ raw_message (toy_transfer_after delivered) = Some (message_bytes m) ∧
         fulfils (toy_transfer_after delivered) m.
Proof.
  destruct (toy_reachable delivered) as (S & Hr & Hw & Hl); [vm_compute; by eexists|].
  destruct (completed_transfer_delivered toy_config false true S 1 (toy_transfer_after delivered))
    as (m & att & n & tx & Hm & Hf & _); [exact Hr|exact (short_toy S Hl)| |by vm_compute|].
  - rewrite Hw. apply toy_stored. vm_compute. by eexists.
  - exists S, m. split; [exact Hr|]. split; [exact Hm|exact Hf].
Defined.

(** After the failed delivery the mint is prepared again, another transaction is
    submitted, and the transfer is polled. *)
Definition toy_retry : list (Handler * list Oracle) :=
  (λ h, (h, toy_oracles 250 delivered)) <$> [HPrepareMint 1; HMintSubmission 1 $"0xcc"; HTick 1].

Lemma failed_mint_stuck_witness :
  ∃ S t', running toy_config S ∧
          transfers (w_store (world S)) !! 1 = Some t' ∧ failed_after_submission t'.
Proof.
  destruct (toy_reachable undelivered) as (S & Hr & Hw & Hl); [vm_compute; by eexists|].
  assert (Hf : failed_after_submission (toy_transfer_after undelivered))
    by (split; [vm_compute; by eexists|left; by vm_compute]).
  assert (Hin : transfers (w_store (world S)) !! 1 = Some (toy_transfer_after undelivered))
    by (rewrite Hw; apply toy_stored; vm_compute; by eexists).
  destruct S as [w h ts]. cbn in Hw, Hl. subst w.
  destruct (handled toy_config toy_retry (toy_world undelivered) h) as [[w' h']|] eqn:E; [|by vm_compute in E].
  destruct (play_steps _ _ _ _ h ts _ _ E) as [(ts' & Hs) Hl'].
  assert (Hsh : short_run (mkSystem w' h' ts')).
  { change (sum_list _) with 60%nat in Hl'. unfold short_run, short. cbn [history]. lia. }
  destruct (failed_mint_stuck toy_config false true _ _ 1 _ Hr Hs Hsh Hin Hf) as (t' & Ht' & Hf' & _).
  exists (mkSystem w' h' ts'), t'. split; [exact (rtc_reachable _ _ _ _ _ Hr Hs)|]. split; [exact Ht'|exact Hf'].
Defined.

(** A request from Sepolia for a tenth of a millionth is valid, and amounts to nothing. *)
Example dust_quote_accepted :
  let request := mkCctpQuoteRequest CCTP_TESTNET_CORRIDOR_ID CCTP_PROVIDER_ID CctpDirection.EvmToStellar SEPOLIA_CHAIN_ID
    STELLAR_TESTNET_CHAIN_ID sepolia_usdc_asset stellar_testnet_usdc $"0.0000001" $"G" (Some SEPOLIA_USDC) (Some $"G")
    CctpFinality.Standard in
  validate_request request = Ok tt ∧ decimal_to_cctp_subunits (q_amount request) = Ok 0.
Proof. split; by vm_compute. Qed.
