(* ===== verification/BridgeProps.v ===== *)
(** * The bridge over its chains

    The service asks the verifiers; the verifiers ask the nodes. Here the answers that the
    service got are those that the verifiers compute from what the nodes say, and a
    completed transfer was burned on one chain and delivered on the other. *)

From stdpp Require Import base decidable strings numbers list gmap relations.
From Stdlib Require Import ZArith Lia.
From S2P Require Import Prelude RustStr Result Tasks Xdr CctpTypes CctpMessage CctpMessageProps CctpTrust CctpStore CctpStoreProps.
From S2P Require Import CctpEncoding CctpEncodingProps CctpConfig Soroban ChainRpc EvmVerify StellarVerify VerifyProps.
From S2P Require Import CctpLocks CctpCalls CctpService CctpSaga CctpServiceProps.

Local Open Scope Z_scope.
Local Open Scope str_scope.

(** The verifiers of burns and mints of the runtime (readiness.rs). *)
Record CctpRuntime := mkCctpRuntime {
  stellar_burn_verifier : StellarRpcBurnVerifier;
  evm_burn_verifier : EvmRpcBurnVerifier;
  stellar_mint_verifier : StellarRpcMintVerifier;
  evm_mint_verifier : EvmRpcMintVerifier;
}.

Section Bridge.

Context {T : Time} {H : Hex} {K : Strkey} {D : Digest} {X : XdrLib} {S : ScLib} {R : RpcJson} {A : EvmAbi} {J : PayloadJson} {L : Libs}.
Context (config : CctpConfig) (production checks : bool) (runtime : CctpRuntime).
Context (told : ∀ c : NodeCall, NodeReply c → Prop).

(** The verifier that service.rs asks about a burn: that of the source chain. *)
Definition ask_burn_verifier (d : CctpDirection) (tx_hash : Str) : Prog NodeReply (Result VerifiedBurnFacts VerifierError) :=
  match d with
  | CctpDirection.StellarToEvm => StellarVerify.verify_burn production (stellar_burn_verifier runtime) tx_hash
  | CctpDirection.EvmToStellar => EvmVerify.verify_burn checks (evm_burn_verifier runtime) tx_hash
  end.

(** The verifier that service.rs asks about a delivery: that of the destination chain. *)
Definition ask_mint_verifier (d : CctpDirection) (tx_hash : Str) (message : list Z) (nonce recipient : Str)
    (fin : CctpFinality) : Prog NodeReply (Result MintVerifyOutcome VerifierError) :=
  match d with
  | CctpDirection.StellarToEvm => EvmVerify.verify_mint_completion checks (evm_mint_verifier runtime) tx_hash message nonce
  | CctpDirection.EvmToStellar =>
      StellarVerify.verify_mint_completion production (stellar_mint_verifier runtime) tx_hash message nonce recipient fin
  end.

(** The answers of the verifiers in the history are computed from what the nodes say. *)
Record computed (h : list (Event Reply)) : Prop := {
  co_burns : ∀ d tx r, answered (VerifyBurn d tx) r h → returns told (ask_burn_verifier d tx) r;
  co_mints : ∀ d tx message nonce recipient fin r, answered (VerifyMintCompletion d tx message nonce recipient fin) r h →
    returns told (ask_mint_verifier d tx message nonce recipient fin) r;
}.

(** The chains show a transfer of [m]: its burn on the one and its delivery on the other. *)
Definition paid (t : CctpTransfer) (m : ParsedCctpMessage) (src dst nonce : Str) : Prop :=
  match direction t with
  | CctpDirection.EvmToStellar =>
      (∃ tx receipt e, EvmBurn told (evm_burn_verifier runtime) src tx receipt e ∧
         (0 < b_amount (m_body m) → EvmBurnOf t tx e)) ∧
      (∃ ft fw rv, StellarDelivery told (stellar_mint_verifier runtime) dst (message_bytes m) nonce (recipient t)
                     (b_amount (m_body m)) (finality t) ft fw rv ∧
         mf_amount fw = 10 * Z.max 0 (b_amount (m_body m) - b_fee_executed (m_body m)))
  | CctpDirection.StellarToEvm =>
      (∃ ft c e sent, StellarBurn told (stellar_burn_verifier runtime) src ft c e sent ∧
         StellarBurnOf t (contracts config) c e sent ∧ b_amount (m_body sent) = b_amount (m_body m)) ∧
      (∃ receipt r, EvmDelivery told (evm_mint_verifier runtime) dst (message_bytes m) nonce receipt r ∧
         rv_nonce r = m_nonce m ∧ rv_message_body r = body_bytes (m_body m))
  end.

Lemma message_body_bytes m : message_wf m → drop MESSAGE_HEADER_LEN (message_bytes m) = body_bytes (m_body m).
Proof.
  intros Hwf. unfold message_bytes.
  destruct (wf_m_nonce _ Hwf) as [Hn _], (wf_m_sender _ Hwf) as [Hs _], (wf_m_recipient _ Hwf) as [Hr _],
    (wf_m_destination_caller _ Hwf) as [Hc _].
  rewrite !app_assoc. apply drop_app_length'. rewrite !length_app, !length_be_bytes, Hn, Hs, Hr, Hc. done.
Qed.

Lemma quoted_amount t m h :
  quoted config t h → fulfils t m → direction t = CctpDirection.EvmToStellar → b_amount (m_body m) ≤ amount_limit config.
Proof.
  intros (request & policy & n & _ & _ & _ & _ & _ & _ & _ & _ & _ & _ & _ & Hn & Hle) Hf Hd.
  unfold fulfils in Hf. rewrite Hd in Hn, Hf. destruct Hf as (_ & _ & Ha & _). congruence.
Qed.

(** The forwarded amount, when the message's amount is an [i128]. *)
Lemma forwarded_amount m : message_wf m → b_amount (m_body m) < 2 ^ 127 →
  wrap I128 (saturating_sub U128 (b_amount (m_body m)) (b_fee_executed (m_body m))) =
  Z.max 0 (b_amount (m_body m) - b_fee_executed (m_body m)).
Proof.
  intros Hwf Ha. pose proof (wf_b_amount _ (wf_m_body _ Hwf)) as Hb. pose proof (wf_b_fee_executed _ (wf_m_body _ Hwf)) as Hf.
  unfold saturating_sub, clamp, fits in *. cbn in *. rewrite wrap_id; unfold fits; cbn; lia.
Qed.

(** The amount of a message that fulfils a transfer is the amount expected of its burn. *)
Lemma fulfilled_amount t m : fulfils t m → amount_cctp_subunits t = Ok (b_amount (m_body m)).
Proof.
  unfold fulfils, amount_cctp_subunits. destruct (direction t).
  - intros (_ & _ & (rem & Ha) & _). by rewrite Ha.
  - intros (_ & _ & Ha & _). by rewrite Ha.
Qed.

Lemma expected_amount t c tx e : build_expected_burn_facts t c tx = Ok e → amount_cctp_subunits t = Ok (f_amount_cctp_subunits e).
Proof. unfold build_expected_burn_facts. intros He. destruct (direction t); rinv; done. Qed.

(** The two halves of [paid], from what the verifiers answered. *)
Lemma evm_to_stellar_paid t m src dst nonce exp facts :
  direction t = CctpDirection.EvmToStellar → message_wf m → fulfils t m → b_amount (m_body m) < 2 ^ 127 →
  build_expected_burn_facts t (contracts config) src = Ok exp → facts_match exp facts = Ok tt →
  returns told (ask_burn_verifier CctpDirection.EvmToStellar src) (Ok facts) →
  returns told (ask_mint_verifier CctpDirection.EvmToStellar dst (message_bytes m) nonce (recipient t) (finality t))
    (Ok MintVerifyOutcome.Succeeded) →
  paid t m src dst nonce.
Proof.
  intros Hd Hwf Hf Hlim Hexp Hmatch Hvb Hdel. unfold paid. rewrite Hd. cbn [ask_burn_verifier ask_mint_verifier] in *. split.
  - destruct (decide (0 < b_amount (m_body m))) as [Hpos|].
    + assert (Hx : 0 < f_amount_cctp_subunits exp).
      { pose proof (expected_amount _ _ _ _ Hexp) as Hx. rewrite (fulfilled_amount _ _ Hf) in Hx. by injection Hx as <-. }
      destruct (evm_burn_match _ _ _ _ _ _ _ _ Hd Hexp Hx Hvb Hmatch) as (tx & receipt & ev & ? & ?). by exists tx, receipt, ev.
    + destruct (evm_burn_evidence _ _ _ _ _ Hvb) as (tx & receipt & ev & Hbu & _). by exists tx, receipt, ev.
  - unfold StellarVerify.verify_mint_completion in Hdel. pinv.
    match goal with Hp : parse_cctp_v2_message _ = Ok _ |- _ => rewrite parse_message_bytes in Hp by done; injection Hp as <- end.
    apply stellar_completion_evidence in Hdel as (ft & fw & rv & Hdel). exists ft, fw, rv. split; [done|].
    destruct (sd_message _ _ _ _ _ _ _ _ _ _ _ Hdel) as (p & Hp & _ & _ & _ & _ & _ & ->).
    rewrite parse_message_bytes in Hp by done. injection Hp as <-. by rewrite forwarded_amount.
Qed.

Lemma stellar_to_evm_paid t m src dst nonce exp facts :
  direction t = CctpDirection.StellarToEvm → message_wf m → fulfils t m →
  build_expected_burn_facts t (contracts config) src = Ok exp → facts_match exp facts = Ok tt →
  returns told (ask_burn_verifier CctpDirection.StellarToEvm src) (Ok facts) →
  returns told (ask_mint_verifier CctpDirection.StellarToEvm dst (message_bytes m) nonce (recipient t) (finality t))
    (Ok MintVerifyOutcome.Succeeded) →
  paid t m src dst nonce.
Proof.
  intros Hd Hwf Hf Hexp Hmatch Hvb Hdel. unfold paid. rewrite Hd. cbn [ask_burn_verifier ask_mint_verifier] in *. split.
  - destruct (stellar_burn_match _ _ _ _ _ _ _ _ Hd Hexp Hvb Hmatch) as (ft & c & ev & sent & Hbu & Hof).
    exists ft, c, ev, sent. split_and!; [done..|]. pose proof (sbo_message_amount _ _ _ _ _ Hof) as Ha.
    rewrite (fulfilled_amount _ _ Hf) in Ha. by injection Ha.
  - unfold EvmVerify.verify_mint_completion in Hdel. pinv. apply evm_completion_evidence in Hdel as (receipt & r & Hdel).
    exists receipt, r. split; [done|]. destruct (ed_message _ _ _ _ _ _ _ Hdel) as (p & Hp & _ & -> & _).
    rewrite parse_message_bytes in Hp by done. injection Hp as <-.
    by rewrite (ed_body _ _ _ _ _ _ _ Hdel), message_body_bytes.
Qed.

Local Abbreviation reachable := (reachable (exec checks) (program config production) initial_world).

(** C10: A completed transfer was paid. Handlers may interleave in any way and nodes may
    say anything. In a run of fewer than 2^31 - 2 calls, if the answers that the service
    got about burns and deliveries are those that the verifiers computed from what the
    nodes said, and the cap on amounts fits a signed 128-bit integer, then a completed
    transfer records a message that fulfils it; in the recorded source transaction the
    node of the source chain showed a burn through the configured messenger, which is the
    transfer's from Stellar, and from Ethereum if the amount is positive (transfers of zero
    are accepted there, and burns over 128 bits read as zero); and in the recorded
    destination transaction the node of the destination chain showed exactly one delivery
    of this message: on Stellar the forwarding to the recipient of the amount less the
    fee, at ten units of the ledger each, on Ethereum the receipt of the message. *)
Theorem completed_transfer_paid Sys id t {HO : HexOk H} :
  reachable Sys → short_run Sys → computed (history Sys) → amount_limit config < 2 ^ 127 →
  transfers (w_store (world Sys)) !! id = Some t → status t = CctpTransferStatus.Completed →
  ∃ m nonce src dst, raw_message t = Some (message_bytes m) ∧ fulfils t m ∧
    source_tx_hash t = Some src ∧ destination_tx_hash t = Some dst ∧ paid t m src dst nonce.
Proof.
  intros Hr Hs [Hburn Hmint] Hlim Hl Hc.
  destruct (co_backed _ _ _ (reachable_coherent config production checks Sys Hr Hs) id t Hl) as [Hq _ Hb Hm _ Hd].
  rewrite Hc in Hb, Hm. destruct (Hb eq_refl) as (src & Es & facts & exp & Hvb & Hexp & Hmatch).
  destruct (Hm eq_refl) as (raw & att & nonce & Er & _ & En & hex & e & m & _ & He & Hv & Hx).
  destruct (Hd Hc) as (dst & raw' & nonce' & Et & Er' & En' & Hdel).
  replace raw' with raw in * by congruence. replace nonce' with nonce in * by congruence.
  destruct (proj1 (validate_message_iff _ _ _) Hv) as (bytes & Hbytes & _ & Hwf & -> & _).
  replace raw with (message_bytes m) in * by congruence.
  destruct (accepted_message_fulfils _ _ _ _ _ He Hv) as [Hf _].
  exists m, nonce, src, dst. split_and!; try done.
  apply Hburn in Hvb. apply Hmint in Hdel. destruct (direction t) eqn:Edir.
  - by eapply stellar_to_evm_paid.
  - eapply evm_to_stellar_paid; try done. pose proof (quoted_amount _ _ _ Hq Hf Edir). lia.
Qed.

End Bridge.

(** ** A transfer on the concrete chains *)

#[local] Existing Instance seconds.
#[local] Existing Instance pairs.
#[local] Existing Instance pairs_ok.
#[local] Existing Instance toy_strkey.
#[local] Existing Instance chain_digest.
#[local] Existing Instance chain_xdr.
#[local] Existing Instance chain_sc.
#[local] Existing Instance chain_json.
#[local] Existing Instance chain_abi.
#[local] Existing Instance chain_payload.
#[local] Existing Instance toy_libs.

Definition chain_runtime : CctpRuntime :=
  mkCctpRuntime chain_stellar_burn chain_evm_burn chain_stellar_mint
    (mkEvmRpcMintVerifier messenger [] DEFAULT_MIN_CONFIRMATIONS true).

Definition verified {A} (p : Prog NodeReply (Result A VerifierError)) : Result A VerifierError :=
  default (Err VerifierError.NotReady) (run_with chain_node p).

Definition chain_message : IrisMessage :=
  mkIrisMessage (encode_message_hex (message_of from_evm)) (Some $"0x01") 2 IrisMessageStatus.Complete $"0" (Some $"0xAA").

(** The verifiers are run on the chains; the rest goes well. *)
Definition chain_answer (e : External) : Answer e :=
  match e return Answer e with
  | VerifyBurn d tx => verified (ask_burn_verifier true true chain_runtime d tx)
  | VerifyMintCompletion d tx message nonce recipient fin =>
      verified (ask_mint_verifier true true chain_runtime d tx message nonce recipient fin)
  | PollMessagesByTx _ _ => Ok (IrisPollOutcome.Complete chain_message)
  | e' => toy_answer delivered e'
  end.

Definition chain_run : list (Handler * list Oracle) :=
  (λ h, (h, replicate 20 (mkOracle 0 0 0 [$"G"] chain_answer))) <$>
    [HQuote toy_request $"token"; HPrepareBurnWallet 1; HBurnSubmission 1 $"0xaa"; HTick 1; HPrepareMint 1;
     HMintSubmission 1 mint_hash].

Definition chain_end : World * list (Event Reply) :=
  default (initial_world, []) (play (exec true) (program toy_config true) chain_run initial_world []).

Definition chain_transfer : CctpTransfer := default from_evm (transfers (w_store chain_end.1) !! 1).

#[local] Instance VerifierError_eq_dec : EqDecision VerifierError.
Proof. solve_decision. Defined.
#[local] Instance MintVerifyOutcome_eq_dec : EqDecision MintVerifyOutcome.
Proof. solve_decision. Defined.
#[local] Instance VerifiedBurnFacts_eq_dec : EqDecision VerifiedBurnFacts.
Proof. solve_decision. Defined.

(** The answer of a verifier in an event is computed. *)
Definition event_computed (ev : Event Reply) : bool :=
  match ev with
  | Happened c r =>
      match c return Reply c → bool with
      | CExternal e => λ a : Answer e,
          match e return Answer e → bool with
          | VerifyBurn d tx => λ a,
              bool_decide (run_with chain_node (ask_burn_verifier true true chain_runtime d tx) = Some a)
          | VerifyMintCompletion d tx message nonce recipient fin => λ a,
              bool_decide (run_with chain_node (ask_mint_verifier true true chain_runtime d tx message nonce recipient fin) = Some a)
          | _ => λ _, true
          end a
      | _ => λ _, true
      end r
  end.

Local Abbreviation chain_told := (λ c r, r = chain_node c).

Lemma events_computed h : forallb event_computed h = true → computed true true chain_runtime chain_told h.
Proof.
  intros Hf. rewrite forallb_forall in Hf.
  split; intros; match goal with Ha : answered _ _ _ |- _ => apply list_elem_of_In, Hf, bool_decide_eq_true in Ha end;
    by apply run_with_returns.
Qed.

Lemma chain_plays : play (exec true) (program toy_config true) chain_run initial_world [] = Some chain_end.
Proof.
  unfold chain_end. destruct (play _ _ _ _ _) eqn:E; [done|]. exfalso. revert E. by vm_compute.
Qed.

Lemma chain_reachable ts :
  rtc (step (exec true) (program toy_config true)) (mkSystem initial_world [] []) (mkSystem chain_end.1 chain_end.2 ts) →
  reachable (exec true) (program toy_config true) initial_world (mkSystem chain_end.1 chain_end.2 ts).
Proof. intros Hs. eapply rtc_reachable; [|exact Hs]. apply reach_initial. Qed.

#[local] Opaque chain_end.

Lemma completed_transfer_paid_witness :
  status chain_transfer = CctpTransferStatus.Completed ∧ direction chain_transfer = CctpDirection.EvmToStellar ∧
  ∃ m nonce src dst, raw_message chain_transfer = Some (message_bytes m) ∧ fulfils chain_transfer m ∧
    paid toy_config chain_runtime chain_told chain_transfer m src dst nonce.
Proof.
  split; [by vm_compute|]. split; [by vm_compute|].
  assert (Hp := chain_plays). rewrite (surjective_pairing chain_end) in Hp.
  destruct (play_steps _ _ _ _ _ [] _ _ Hp) as [(ts & Hs) Hl].
  destruct (completed_transfer_paid toy_config true true chain_runtime chain_told (mkSystem chain_end.1 chain_end.2 ts) 1 chain_transfer)
    as (m & nonce & src & dst & Hm & Hf & _ & _ & Hpaid).
  - exact (chain_reachable ts Hs).
  - apply short_toy. exact Hl.
  - apply events_computed. by vm_compute.
  - by vm_compute.
  - change (transfers (w_store chain_end.1) !! 1 = Some chain_transfer). unfold chain_transfer.
    destruct (transfers (w_store chain_end.1) !! 1) eqn:E; [done|]. exfalso. revert E. by vm_compute.
  - by vm_compute.
  - exists m, nonce, src, dst. split; [exact Hm|]. split; [exact Hf|exact Hpaid].
Defined.
