(* ===== verification/ApiErrors.v ===== *)
(** * Errors of the API server (api: error.rs, models/response.rs)

    [ApiError] with the response that each error becomes: an HTTP status, a
    machine-readable code, a message and details. The underlying errors of [Internal]
    and [Database] never leave the server and are kept as their text. *)

From stdpp Require Import base decidable strings numbers list.
From S2P Require Import Prelude RustStr.

Local Open Scope Z_scope.
Local Open Scope str_scope.

Module ApiError.

Inductive ApiError :=
| Internal (text : Str)
| BadRequest (msg : Str)
| NotFound (msg : Str)
| Database (text : Str)
| Validation (msg : Str)
| RateLimitExceeded
| Overloaded (msg : Str)
| DependencyUnavailable (msg : Str)
| Unauthorized (msg : Str)
| InvalidAsset (msg : Str)
| InvalidAmount (msg : Str)
| InvalidSlippage (msg : Str)
| InvalidAssetFormat (msg : Str)
| NoRouteFound
| NotExecutable (msg : Str)
| StaleMarketData (stale_count fresh_count threshold_secs_sdex threshold_secs_amm : Z)
| NotImplemented (msg : Str)
| QuoteNotFound (quote_id : Str)
| QuoteExpired (quote_id : Str)
| Conflict (message quote_id tx_hash status : Str)
| TooEarly (msg : Str)
| UnsupportedExecutionMode (msg : Str)
| UnsupportedRoute (msg : Str)
| CctpNotEnabled (msg : Str)
| UnsupportedCorridor
| InvalidFinality
| InvalidRecipient
| FeeQuoteUnavailable (msg : Str)
| AttestationPending (transfer_id : Str)
| AttestationExpired (transfer_id : Str)
| MintRetryable (transfer_id : Str)
| TransferNotFound (transfer_id : Str)
| ProviderKilled (msg : Str).

End ApiError.

Abbreviation ApiError := ApiError.ApiError (only parsing).

#[export] Instance ApiError_eq_dec : EqDecision ApiError.
Proof. solve_decision. Defined.

Module ApiErrorCode.

Inductive ApiErrorCode :=
| InternalError | BadRequest | NotFound | ValidationError | RateLimitExceeded | Overloaded
| DependencyUnavailable | Unauthorized | InvalidAsset | InvalidAmount | InvalidSlippage | InvalidAssetFormat
| NoRoute | NotExecutable | StaleMarketData | NotImplemented | QuoteNotFound | QuoteExpired | Conflict
| UnsupportedExecutionMode | UnsupportedRoute | CctpNotEnabled | UnsupportedCorridor | InvalidFinality
| InvalidRecipient | FeeQuoteUnavailable | AttestationPending | AttestationExpired | MintRetryable
| TransferNotFound | ProviderKilled.

End ApiErrorCode.

Abbreviation ApiErrorCode := ApiErrorCode.ApiErrorCode (only parsing).

#[export] Instance ApiErrorCode_eq_dec : EqDecision ApiErrorCode.
Proof. solve_decision. Defined.

(** The JSON values that details hold. *)
Inductive Detail := DStr (s : Str) | DNum (n : Z) | DBool (b : bool).

Record ErrorResponse := mkErrorResponse {
  er_error : ApiErrorCode;
  er_message : Str;
  er_details : option (list (Str * Detail));
}.

Definition error_new (code : ApiErrorCode) (message : Str) : ErrorResponse := mkErrorResponse code message None.

Definition with_details (r : ErrorResponse) (details : list (Str * Detail)) : ErrorResponse :=
  mkErrorResponse (er_error r) (er_message r) (Some details).

(** [IntoResponse]: the HTTP status and the body. *)
Definition into_response (e : ApiError) : Z * ErrorResponse :=
  let plain status code message := (status, error_new code message) in
  let detailed status code message details := (status, with_details (error_new code message) details) in
  match e with
  | ApiError.BadRequest msg => plain 400 ApiErrorCode.BadRequest msg
  | ApiError.NotFound msg => plain 404 ApiErrorCode.NotFound msg
  | ApiError.Validation message => plain 400 ApiErrorCode.ValidationError message
  | ApiError.RateLimitExceeded =>
      plain 429 ApiErrorCode.RateLimitExceeded $"Too many requests. Please try again later."
  | ApiError.Overloaded msg => plain 503 ApiErrorCode.Overloaded msg
  | ApiError.DependencyUnavailable msg => plain 503 ApiErrorCode.DependencyUnavailable msg
  | ApiError.Unauthorized msg => plain 401 ApiErrorCode.Unauthorized msg
  | ApiError.InvalidAsset msg => plain 400 ApiErrorCode.InvalidAsset msg
  | ApiError.InvalidAmount msg => plain 400 ApiErrorCode.InvalidAmount msg
  | ApiError.InvalidSlippage msg => plain 400 ApiErrorCode.InvalidSlippage msg
  | ApiError.InvalidAssetFormat msg => plain 400 ApiErrorCode.InvalidAssetFormat msg
  | ApiError.NoRouteFound => plain 404 ApiErrorCode.NoRoute $"No trading route found for this pair"
  | ApiError.NotExecutable msg => plain 422 ApiErrorCode.NotExecutable msg
  | ApiError.StaleMarketData stale fresh sdex amm =>
      detailed 422 ApiErrorCode.StaleMarketData $"All market data inputs are stale"
        [($"stale_count", DNum stale); ($"fresh_count", DNum fresh);
         ($"threshold_secs_sdex", DNum sdex); ($"threshold_secs_amm", DNum amm)]
  | ApiError.QuoteNotFound quote_id =>
      detailed 404 ApiErrorCode.QuoteNotFound ($"Unknown or invalid quote_id: " ++ quote_id)
        [($"quote_id", DStr quote_id)]
  | ApiError.QuoteExpired quote_id =>
      detailed 422 ApiErrorCode.QuoteExpired $"Quote has expired; request a fresh prepare before submitting"
        [($"quote_id", DStr quote_id)]
  | ApiError.Conflict message quote_id tx_hash status =>
      detailed 409 ApiErrorCode.Conflict message
        [($"quote_id", DStr quote_id); ($"tx_hash", DStr tx_hash); ($"status", DStr status)]
  | ApiError.TooEarly msg => plain 425 ApiErrorCode.Conflict msg
  | ApiError.UnsupportedExecutionMode msg => plain 422 ApiErrorCode.UnsupportedExecutionMode msg
  | ApiError.UnsupportedRoute msg => plain 422 ApiErrorCode.UnsupportedRoute msg
  | ApiError.CctpNotEnabled msg => plain 503 ApiErrorCode.CctpNotEnabled msg
  | ApiError.UnsupportedCorridor =>
      plain 400 ApiErrorCode.UnsupportedCorridor $"Unsupported or unknown CCTP corridor"
  | ApiError.InvalidFinality =>
      plain 400 ApiErrorCode.InvalidFinality $"Unsupported CCTP finality for this corridor"
  | ApiError.InvalidRecipient => plain 400 ApiErrorCode.InvalidRecipient $"Invalid CCTP recipient address"
  | ApiError.FeeQuoteUnavailable msg => plain 503 ApiErrorCode.FeeQuoteUnavailable msg
  | ApiError.AttestationPending transfer_id =>
      detailed 422 ApiErrorCode.AttestationPending $"CCTP attestation is still pending for this transfer"
        [($"transfer_id", DStr transfer_id)]
  | ApiError.AttestationExpired transfer_id =>
      detailed 422 ApiErrorCode.AttestationExpired
        $"CCTP attestation has expired; request re-attestation before minting" [($"transfer_id", DStr transfer_id)]
  | ApiError.MintRetryable transfer_id =>
      detailed 422 ApiErrorCode.MintRetryable $"CCTP mint failed but may be retried"
        [($"transfer_id", DStr transfer_id); ($"retryable", DBool true)]
  | ApiError.TransferNotFound transfer_id =>
      detailed 404 ApiErrorCode.TransferNotFound ($"Unknown CCTP transfer: " ++ transfer_id)
        [($"transfer_id", DStr transfer_id)]
  | ApiError.ProviderKilled msg => plain 503 ApiErrorCode.ProviderKilled msg
  | ApiError.Database _ | ApiError.Internal _ =>
      plain 500 ApiErrorCode.InternalError $"An internal error occurred"
  | ApiError.NotImplemented msg => plain 501 ApiErrorCode.NotImplemented msg
  end.

(** Internal causes are never disclosed: what the client sees does not depend on them. *)
Lemma internal_redacted t t' : into_response (ApiError.Internal t) = into_response (ApiError.Database t').
Proof. done. Qed.
