(* ===== verification/SwapRoute.v ===== *)
(** * Routes and prices of a swap (api: swap/venue.rs, swap/route.rs, swap/price.rs)

    What a client may ask to be prepared: assets as models/request.rs parses them, the
    classification of venues, the validation of a classic route, the kill switches that
    pause venues, and the price with the least output that a swap accepts. SHA-256, the
    strkey and the hexadecimal codecs are parameters. *)

From stdpp Require Import base decidable strings numbers list gmap.
From S2P Require Import Health.
From S2P Require Import Prelude RustStr Result F64 Xdr ApiErrors CctpMessage CctpEncoding.

Local Open Scope Z_scope.
Local Open Scope str_scope.

(** ** Assets (models/request.rs) *)

Record AssetPath := mkAssetPath {
  asset_code : Str;
  asset_issuer : option Str;
}.

#[export] Instance AssetPath_eq_dec : EqDecision AssetPath.
Proof. solve_decision. Defined.

Definition native : AssetPath := mkAssetPath $"native" None.

Definition is_native_code (code : Str) : bool :=
  eq_ignore_ascii_case code $"native" || eq_ignore_ascii_case code $"XLM".

(** [AssetPath::parse] *)
Definition parse_asset (s : Str) : Result AssetPath Str :=
  let trimmed := trim s in
  if bool_decide (trimmed = []) then Err $"Asset identifier cannot be empty"
  else if is_native_code trimmed then Ok native
  else match split colon trimmed with
       | [code] =>
           if bool_decide (code = []) then Err ($"Asset code cannot be empty: " ++ s)
           else Ok (mkAssetPath code None)
       | [code; issuer] =>
           if bool_decide (code = []) || bool_decide (issuer = []) then
             Err ($"Asset code and issuer cannot be empty: " ++ s)
           else Ok (mkAssetPath code (Some issuer))
       | _ => Err ($"Invalid asset format: " ++ s)
       end.

(** [AssetPath::from_object] *)
Definition from_object (asset_code : Str) (asset_issuer : option Str) : Result AssetPath Str :=
  let code := trim asset_code in
  (reject (bool_decide (code = [])) $"asset_code cannot be empty";;
   issuer ← match asset_issuer with
            | Some raw =>
                if bool_decide (trim raw = []) then Err $"asset_issuer cannot be empty when provided"
                else Ok (Some (trim raw))
            | None => Ok None
            end;
   if is_native_code code then
     if bool_decide (is_Some issuer) then Err $"native asset cannot include asset_issuer" else Ok native
   else Ok (mkAssetPath code issuer))%result.

(** [AssetPath::to_canonical] *)
Definition to_canonical (a : AssetPath) : Str :=
  if bool_decide (asset_code a = $"native") then $"native"
  else match asset_issuer a with
       | Some issuer => asset_code a ++ [colon] ++ issuer
       | None => asset_code a
       end.

(** ** Routes (routes/simulation_route.rs) *)

Record RouteDryRunHop := mkRouteDryRunHop {
  from_asset : AssetPath;
  to_asset : AssetPath;
  h_source : Str;
  h_fee_bps : option Z;
  h_price : option Str;
  h_venue_ref : option Str;
}.

(** A [RouteDryRunPath] is its hops. *)
Abbreviation RouteDryRunPath := (list RouteDryRunHop) (only parsing).

(** ** Venues (swap/venue.rs) *)

Module SwapVenueClass.

Inductive SwapVenueClass := Sdex | AmmOrRouter | Unknown.

Definition as_str (c : SwapVenueClass) : Str :=
  match c with
  | Sdex => $"sdex"
  | AmmOrRouter => $"amm"
  | Unknown => $"unknown"
  end.

End SwapVenueClass.

Abbreviation SwapVenueClass := SwapVenueClass.SwapVenueClass (only parsing).

#[export] Instance SwapVenueClass_eq_dec : EqDecision SwapVenueClass.
Proof. solve_decision. Defined.

Definition normalize_token (raw : Str) : Str := to_ascii_lowercase (trim raw).

Definition classify_token (token : Str) : SwapVenueClass :=
  let head := default token (head (split colon token)) in
  if bool_decide (head = $"sdex") || bool_decide (head = $"horizon") then SwapVenueClass.Sdex
  else if bool_decide (head = $"amm") || bool_decide (head = $"soroban") || bool_decide (head = $"router")
  then SwapVenueClass.AmmOrRouter
  else SwapVenueClass.Unknown.

Definition classify_venue (source : Str) (venue_ref : option Str) : SwapVenueClass :=
  let primary := normalize_token source in
  let by_ref := match venue_ref with
                | Some vr => classify_token (normalize_token vr)
                | None => SwapVenueClass.Unknown
                end in
  if bool_decide (primary = []) then by_ref
  else let class := classify_token primary in
       if bool_decide (class ≠ SwapVenueClass.Unknown) then class else by_ref.

Definition to_routing_venue_type (c : SwapVenueClass) : option VenueType :=
  match c with
  | SwapVenueClass.Sdex => Some VenueType.Sdex
  | SwapVenueClass.AmmOrRouter => Some VenueType.Amm
  | SwapVenueClass.Unknown => None
  end.

(** ** Validation of routes (swap/route.rs) *)

Definition MAX_PATH_ASSETS : nat := 5.
Definition MAX_CLASSIC_HOPS : nat := 1.

Record ValidatedClassicRoute := mkValidatedClassicRoute {
  v_hops : list RouteDryRunHop;
  send_asset : AssetPath;
  dest_asset : AssetPath;
  path_assets : list AssetPath;
  route_digest : Str;
}.

Definition canonical (a : AssetPath) : Str := to_ascii_lowercase (to_canonical a).

Definition assets_equal (a b : AssetPath) : bool := bool_decide (canonical a = canonical b).

Section Routes.

Context {H : Hex} {K : Strkey} {D : Digest}.

Definition validate_asset (asset : AssetPath) (label : Str) : Result unit ApiError :=
  let code := trim (asset_code asset) in
  if bool_decide (code = []) then Err (ApiError.InvalidAssetFormat (label ++ $": asset_code is required"))
  else if eq_ignore_ascii_case code $"native" || eq_ignore_ascii_case code $"xlm" then Ok tt
  else if 12 <? str_len code then Err (ApiError.InvalidAssetFormat (label ++ $": asset_code too long"))
  else let issuer := from_option trim [] (asset_issuer asset) in
       if bool_decide (issuer = []) then
         Err (ApiError.InvalidAsset (label ++ $": non-native asset requires asset_issuer (CODE:ISSUER)"))
       else if bool_decide (account_from_string issuer = None) then
         Err (ApiError.InvalidAsset (label ++ $": asset_issuer is not a valid G-address"))
       else Ok tt.

(** The loop over the hops: assets, then venue. *)
Fixpoint validate_hops (idx : Z) (hops : list RouteDryRunHop) : Result unit ApiError :=
  match hops with
  | [] => Ok tt
  | hop :: rest =>
      (validate_asset (from_asset hop) ($"hops[" ++ display idx ++ $"].from_asset");;
       validate_asset (to_asset hop) ($"hops[" ++ display idx ++ $"].to_asset");;
       match classify_venue (h_source hop) (h_venue_ref hop) with
       | SwapVenueClass.Sdex => validate_hops (idx + 1) rest
       | SwapVenueClass.AmmOrRouter =>
           Err (ApiError.UnsupportedExecutionMode
                  $"AMM/Soroban/router venues are not supported; classic PathPaymentStrictSend only")
       | SwapVenueClass.Unknown =>
           Err (ApiError.Validation
                  ($"unsupported classic venue '" ++ h_source hop ++ $"'; expected sdex or horizon"))
       end)%result
  end.

(** Hop [i] starts where hop [i - 1] ends. *)
Fixpoint validate_contiguous (i : Z) (hops : list RouteDryRunHop) : Result unit ApiError :=
  match hops with
  | prev :: ((curr :: _) as rest) =>
      if negb (assets_equal (to_asset prev) (from_asset curr)) then
        Err (ApiError.Validation
               ($"route hops are not contiguous: hop[" ++ display (i - 1) ++ $"].to_asset must match hop[" ++
                display i ++ $"].from_asset"))
      else validate_contiguous (i + 1) rest
  | _ => Ok tt
  end.

Fixpoint validate_acyclic (seen : list Str) (hops : list RouteDryRunHop) : Result unit ApiError :=
  match hops with
  | [] => Ok tt
  | hop :: rest =>
      let to := canonical (to_asset hop) in
      if bool_decide (to ∈ seen) then
        Err (ApiError.Validation $"route contains a cycle in asset progression")
      else validate_acyclic (seen ++ [to]) rest
  end.

Definition digest_route (route : RouteDryRunPath) : Str :=
  hex_encode (sha256 (concat ((λ hop,
    as_bytes (canonical (from_asset hop)) ++ as_bytes $"|" ++
    as_bytes (canonical (to_asset hop)) ++ as_bytes $"|" ++
    as_bytes (SwapVenueClass.as_str (classify_venue (h_source hop) (h_venue_ref hop))) ++ as_bytes $"|" ++
    from_option (λ vr, as_bytes (trim vr)) [] (h_venue_ref hop) ++ as_bytes $";") <$> route))).

Definition validate_classic_route (route : RouteDryRunPath) : Result ValidatedClassicRoute ApiError :=
  match route with
  | [] => Err (ApiError.Validation $"route.hops must contain at least one hop")
  | first :: _ =>
      if (MAX_CLASSIC_HOPS <? length route)%nat then
        Err (ApiError.UnsupportedRoute
               ($"multi-hop classic routes are not supported in this prepare build (got " ++
                display (Z.of_nat (length route)) ++
                $" hops; single SDEX hop only until path-faithful pricing ships)"))
      else
      (validate_hops 0 route;;
       validate_contiguous 1 route;;
       validate_acyclic [canonical (from_asset first)] route;;
       let path := to_asset <$> take (length route - 1) route in
       if (MAX_PATH_ASSETS <? length path)%nat then
         Err (ApiError.Validation $"path exceeds maximum of 5 intermediate assets")
       else Ok (mkValidatedClassicRoute route (from_asset first) (to_asset (default first (last route))) path
                  (digest_route route)))%result
  end.

(** The venues of the hops against the kill switches (routes/swap.rs). *)
Fixpoint reject_paused_venues (registry : OverrideRegistry) (hops : list RouteDryRunHop) : Result unit ApiError :=
  match hops with
  | [] => Ok tt
  | hop :: rest =>
      let venue_ref := default (h_source hop) (h_venue_ref hop) in
      if bool_decide (venue_entries registry !! venue_ref = Some ForceExclude) then
        Err (ApiError.NotExecutable ($"venue '" ++ venue_ref ++ $"' is paused by kill switch"))
      else match to_routing_venue_type (classify_venue (h_source hop) (h_venue_ref hop)) with
           | Some venue_type =>
               if bool_decide (source_entries registry venue_type = Some ForceExclude) then
                 Err (ApiError.NotExecutable
                        ($"venue source '" ++ VenueType.debug venue_type ++ $"' is paused by kill switch"))
               else reject_paused_venues registry rest
           | None => reject_paused_venues registry rest
           end
  end.

(** ** Prices (swap/price.rs) *)

Record AuthoritativePrice := mkAuthoritativePrice {
  expected_output : f64;
  p_digest : Str;
  source_label : Str;
}.

Definition show_i64 (n : Z) : Str := if n <? 0 then $"-" ++ display (- n) else display n.

Definition price_digest (send dest : AssetPath) (amount_in expected : f64) (digest : Str) (quote_ts : Z) : Str :=
  hex_encode (sha256 (
    as_bytes (to_canonical send) ++ as_bytes $">" ++ as_bytes (to_canonical dest) ++
    as_bytes ($"|" ++ format7 amount_in ++ $"|" ++ format7 expected ++ $"|" ++ digest ++ $"|" ++
              show_i64 quote_ts))).

(** What the price source reads of the reply of the quote pipeline (routes/quote.rs). *)
Record LiveQuote := mkLiveQuote {
  lq_selected_source : option Str;
  lq_total : Str;
  lq_timestamp : Z;
}.

(** [LiveQuotePriceSource::price_swap], given the reply. *)
Definition live_price (route : ValidatedClassicRoute) (amount_in : f64) (quote : LiveQuote) :
    Result AuthoritativePrice ApiError :=
  (match lq_selected_source quote with
   | Some selected =>
       let src := to_ascii_lowercase selected in
       let head := default src (head (split colon src)) in
       reject (bool_decide (head ≠ $"sdex") && bool_decide (head ≠ $"horizon"))
         (ApiError.UnsupportedExecutionMode
            ($"live quote selected unsupported venue '" ++ selected ++ $"'; classic SDEX only"))
   | None => Ok tt
   end;;
   expected ← ok_or (parse_f64 (lq_total quote)) (ApiError.Internal $"invalid quote total");
   reject (negb (is_finite expected) || fle expected fzero) ApiError.NoRouteFound;;
   Ok (mkAuthoritativePrice expected
         (price_digest (send_asset route) (dest_asset route) amount_in expected (route_digest route)
            (lq_timestamp quote)) $"live_quote"))%result.

(** [FixedPriceSource::price_swap] *)
Definition fixed_price (expected_output_per_unit : f64) (route : ValidatedClassicRoute) (amount_in : f64) :
    AuthoritativePrice :=
  let expected := fmul amount_in expected_output_per_unit in
  mkAuthoritativePrice expected
    (price_digest (send_asset route) (dest_asset route) amount_in expected (route_digest route) 0) $"test_fixed".

(** The text of [{m}] in the message below is the shortest decimal that reads back as
    [m]; it is a parameter of the model. *)
Class ShowF64 := show_f64 : f64 → Str.

Context {Sh : ShowF64}.

Definition slippage_floor (expected : f64) (slippage_bps : Z) : f64 :=
  fmul expected (fsub (of_int 1) (fdiv (of_int slippage_bps) (of_int 10000))).

Definition resolve_min_output (expected : f64) (slippage_bps : Z) (client_min : option f64) : Result f64 ApiError :=
  if negb (is_finite expected) || fle expected fzero then
    Err (ApiError.Validation $"expected_output must be positive")
  else
  let floor := slippage_floor expected slippage_bps in
  match client_min with
  | Some m =>
      if negb (is_finite m) || fle m fzero then
        Err (ApiError.Validation $"min_output must be greater than zero")
      else if fgt m expected then
        Err (ApiError.NotExecutable $"min_output exceeds estimated route output")
      else if flt (fadd m EPSILON) floor then
        Err (ApiError.Validation ($"min_output " ++ show_f64 m ++ $" is below server slippage floor " ++ format7 floor))
      else Ok m
  | None => Ok floor
  end.

End Routes.
