(* ===== verification/SwapTx.v ===== *)
(** * Transactions of a swap (api: swap/tx.rs)

    The unsigned path payment that a prepare returns, and the validation of the signed
    envelope that the client sends back. *)

From stdpp Require Import base decidable strings numbers list gmap.
From Stdlib Require Import ZArith Lia.
From S2P Require Import Prelude RustStr Result F64 Xdr ApiErrors CctpMessage CctpEncoding SwapRoute CctpStore.

Local Open Scope Z_scope.
Local Open Scope str_scope.

(** ** Constants and settings *)

Definition TESTNET_PASSPHRASE : Str := $"Test SDF Network ; September 2015".
Definition PUBLIC_PASSPHRASE : Str := $"Public Global Stellar Network ; September 2015".

Definition network_passphrase_from_env (passphrase network : option Str) : Str :=
  let explicit := from_option trim [] passphrase in
  if bool_decide (explicit ≠ []) then explicit
  else let name := to_ascii_lowercase (trim (default [] network)) in
       if bool_decide (name = $"mainnet") || bool_decide (name = $"public") then PUBLIC_PASSPHRASE
       else TESTNET_PASSPHRASE.

(** A positive number of the given type, or the default. *)
Definition positive_from_env (t : IntTy) (default_ : Z) (v : option Str) : Z :=
  match v ≫= parse_uint t with
  | Some n => if 0 <? n then n else default_
  | None => default_
  end.

Definition base_fee_from_env : option Str → Z := positive_from_env U32 DEFAULT_BASE_FEE.

Definition prepare_timeout_secs_from_env : option Str → Z := positive_from_env U64 DEFAULT_TIMEOUT_SECS.

Module ExecutionMode.

Inductive ExecutionMode := ClassicPathPayment | SorobanRouter.

Definition as_str (m : ExecutionMode) : Str :=
  match m with
  | ClassicPathPayment => $"classic_path_payment"
  | SorobanRouter => $"soroban_router"
  end.

End ExecutionMode.

Abbreviation ExecutionMode := ExecutionMode.ExecutionMode (only parsing).

Module TxBuildError.

Inductive TxBuildError :=
| Validation (s : Str)
| AccountLookup (s : Str)
| Xdr (s : Str).

(** [Display] *)
Definition to_string (e : TxBuildError) : Str :=
  match e with
  | Validation s => $"validation: " ++ s
  | AccountLookup s => $"account lookup failed: " ++ s
  | Xdr s => $"xdr encode/decode: " ++ s
  end.

End TxBuildError.

Abbreviation TxBuildError := TxBuildError.TxBuildError (only parsing).

Module EnvelopeValidationError.

Inductive EnvelopeValidationError :=
| Malformed (s : Str)
| MissingSignatures
| QuoteMismatch
| SignerMismatch
| BadSignature
| UnsupportedAccount (s : Str).

End EnvelopeValidationError.

Abbreviation EnvelopeValidationError := EnvelopeValidationError.EnvelopeValidationError (only parsing).

(** ** Amounts *)

Definition to_stroop_amount (amount : f64) : Result Z TxBuildError :=
  if negb (is_finite amount) || fle amount fzero then
    Err (TxBuildError.Validation $"amount must be finite and greater than zero")
  else let scaled := fround (fmul amount (of_int 10000000)) in
       if fgt scaled (of_int (int_max I64)) then Err (TxBuildError.Validation $"amount too large")
       else Ok (to_int I64 scaled).

(** ** Building the transaction *)

Record PrepareTxInput := mkPrepareTxInput {
  in_sender : Str;
  in_validated : ValidatedClassicRoute;
  in_amount : f64;
  in_min_output : f64;
  in_sequence : Z;
  in_timeout_secs : Z;
  in_base_fee : Z;
  in_network_passphrase : Str;
}.

Record PreparedTransaction := mkPreparedTransaction {
  xdr_envelope : Str;
  execution_mode : ExecutionMode;
  unsigned_xdr_hash : Str;
  pt_tx_hash : Str;
  source_sequence : Z;
  timebounds_max : Z;
  pt_network_passphrase : Str;
}.

Section Tx.

Context {H : Hex} {K : Strkey} {D : Digest} {X : XdrLib}.

Definition network_id (passphrase : Str) : list Z := sha256 (as_bytes passphrase).

(** swap/store.rs *)
Definition hash_xdr (xdr : Str) : Str := hex_encode (sha256 (as_bytes xdr)).

Definition decode_ed25519 (account : Str) : Result (list Z) TxBuildError :=
  ok_or (account_from_string (trim account)) (TxBuildError.Validation ($"invalid Stellar account: " ++ account)).

(** A code of at most [n] bytes, padded with zeros. *)
Definition asset_code_bytes (n : nat) (label code : Str) : Result (list Z) TxBuildError :=
  let bytes := as_bytes code in
  if bool_decide (bytes = []) || (n <? length bytes)%nat then
    Err (TxBuildError.Validation ($"invalid " ++ label ++ $" asset code: " ++ code))
  else Ok (bytes ++ replicate (n - length bytes) 0).

Definition asset_from_path (asset : AssetPath) : Result Asset TxBuildError :=
  let code := trim (asset_code asset) in
  if eq_ignore_ascii_case code $"native" || eq_ignore_ascii_case code $"xlm" then Ok Asset.Native
  else
  (issuer ← ok_or (asset_issuer asset)
              (TxBuildError.Validation ($"non-native asset '" ++ code ++ $"' requires asset_issuer"));
   issuer_id ← decode_ed25519 issuer;
   if str_len code <=? 4 then
     code4 ← asset_code_bytes 4 $"alphanum4" code; Ok (Asset.CreditAlphanum4 code4 issuer_id)
   else
     code12 ← asset_code_bytes 12 $"alphanum12" code; Ok (Asset.CreditAlphanum12 code12 issuer_id))%result.

(** The conversion of every asset of the path, up to the first error. *)
Fixpoint assets_from_path (assets : list AssetPath) : Result (list Asset) TxBuildError :=
  match assets with
  | [] => Ok []
  | a :: rest => (x ← asset_from_path a; xs ← assets_from_path rest; Ok (x :: xs))%result
  end.

Definition transaction_hash (tx : Transaction) (passphrase : Str) : Result (list Z) TxBuildError :=
  (bytes ← map_err TxBuildError.Xdr (signature_payload (network_id passphrase) tx); Ok (sha256 bytes))%result.

Definition transaction_hash_hex (tx : Transaction) (passphrase : Str) : Result Str TxBuildError :=
  (hash ← transaction_hash tx passphrase; Ok (hex_encode hash))%result.

(** The transaction for the input, with the clock reading of the build in seconds. *)
Definition swap_transaction (now : Z) (input : PrepareTxInput) : Result Transaction TxBuildError :=
  (send ← asset_from_path (send_asset (in_validated input));
   dest ← asset_from_path (dest_asset (in_validated input));
   send_amount ← to_stroop_amount (in_amount input);
   dest_min ← to_stroop_amount (in_min_output input);
   path ← assets_from_path (path_assets (in_validated input));
   reject (5 <? length path)%nat (TxBuildError.Validation $"path exceeds maximum of 5 assets");;
   key ← decode_ed25519 (in_sender input);
   let source := Ed25519 key in
   let op := mkOperation None (PathPaymentStrictSend
               (mkPathPaymentStrictSendOp send send_amount source dest dest_min path)) in
   Ok (mkTransaction source (in_base_fee input) (saturating_add I64 (in_sequence input) 1)
         (CondTime 0 (saturating_add U64 (Z.max now 0) (in_timeout_secs input))) MemoNone [op] ExtV0))%result.

Definition build_unsigned_swap_tx (now : Z) (input : PrepareTxInput) : Result PreparedTransaction TxBuildError :=
  (tx ← swap_transaction now input;
   tx_hash ← transaction_hash_hex tx (in_network_passphrase input);
   xdr ← map_err TxBuildError.Xdr (to_xdr_base64 (EnvelopeTx tx []));
   Ok (mkPreparedTransaction xdr ExecutionMode.ClassicPathPayment (hash_xdr xdr) tx_hash
         (saturating_add I64 (in_sequence input) 1)
         (saturating_add U64 (Z.max now 0) (in_timeout_secs input)) (in_network_passphrase input)))%result.

(** ** Validating the signed envelope *)

Definition source_g_address (account : MuxedAccount) : Result Str EnvelopeValidationError :=
  match account with
  | Ed25519 key => Ok (account_to_string key)
  | MuxedEd25519 _ _ =>
      Err (EnvelopeValidationError.UnsupportedAccount
             $"muxed accounts are not supported; use a standard G-address")
  end.

Definition validate_signed_against_prepared (signed_xdr prepared_hash sender passphrase : Str) :
    Result Str EnvelopeValidationError :=
  (envelope ← map_err EnvelopeValidationError.Malformed (from_xdr_base64 (trim signed_xdr));
   match envelope with
   | EnvelopeTxV0 _ | EnvelopeTxFeeBump _ => Err (EnvelopeValidationError.Malformed $"expected TransactionV1 envelope")
   | EnvelopeTx tx signatures =>
       match signatures with
       | [] => Err EnvelopeValidationError.MissingSignatures
       | _ :: _ :: _ =>
           Err (EnvelopeValidationError.UnsupportedAccount
                  $"multisig envelopes are not supported in this prepare/submit path")
       | [decorated] =>
           source ← source_g_address (tx_source_account tx);
           reject (bool_decide (source ≠ trim sender)) EnvelopeValidationError.SignerMismatch;;
           recomputed ← map_err EnvelopeValidationError.Malformed (to_xdr_base64 (EnvelopeTx tx []));
           reject (bool_decide (hash_xdr recomputed ≠ prepared_hash)) EnvelopeValidationError.QuoteMismatch;;
           hash ← map_err (λ e, EnvelopeValidationError.Malformed (TxBuildError.to_string e))
                    (transaction_hash tx passphrase);
           key ← ok_or (account_from_string (trim sender)) EnvelopeValidationError.SignerMismatch;
           reject (negb (valid_key key)) EnvelopeValidationError.BadSignature;;
           reject (negb (length (signature decorated) =? 64)%nat) EnvelopeValidationError.BadSignature;;
           reject (bool_decide (hint decorated ≠ drop 28 key)) EnvelopeValidationError.BadSignature;;
           reject (negb (ed25519_verify key hash (signature decorated))) EnvelopeValidationError.BadSignature;;
           Ok (hex_encode hash)
       end
   end)%result.

(** The network library reads what it writes. *)
Class XdrOk : Prop := {
  xdr_roundtrip e s : to_xdr_base64 e = Ok s → from_xdr_base64 s = Ok e;
}.

End Tx.

(** ** Prepared swap quotes (api: swap/store.rs)

    The in-memory store of prepared quotes: one map under a lock. Each operation of the
    trait is one step on the map, except [insert_prepared], which expires stale quotes
    in a step of its own before it inserts. *)

Local Open Scope record_scope.

Module SubmissionStatus.

Inductive SubmissionStatus := Prepared | Submitting | Submitted | Failed.

Definition as_str (s : SubmissionStatus) : Str :=
  match s with
  | Prepared => $"prepared"
  | Submitting => $"submitting"
  | Submitted => $"submitted"
  | Failed => $"failed"
  end.

Definition from_db (value : Str) : option SubmissionStatus :=
  if bool_decide (value = $"prepared") then Some Prepared
  else if bool_decide (value = $"submitting") then Some Submitting
  else if bool_decide (value = $"submitted") then Some Submitted
  else if bool_decide (value = $"failed") then Some Failed
  else None.

End SubmissionStatus.

Abbreviation SubmissionStatus := SubmissionStatus.SubmissionStatus (only parsing).

#[export] Instance SubmissionStatus_eq_dec : EqDecision SubmissionStatus.
Proof. solve_decision. Defined.

(** [Database] is raised by the PostgreSQL store only. *)
Module SwapStoreError.

Inductive SwapStoreError :=
| Database (s : Str)
| NotFound
| ActivePrepareExists
| InvalidTransition.

End SwapStoreError.

Abbreviation SwapStoreError := SwapStoreError.SwapStoreError (only parsing).

Section Store.

Context {T : Time}.

Record PreparedSwapQuote := mkPreparedSwapQuote {
  quote_id : Str;
  sender_account : Str;
  sender_account_hash : Str;
  q_unsigned_xdr_hash : Str;
  expires_at : DateTime;
  estimated_output : Str;
  min_output : Str;
  amount_in : Str;
  q_execution_mode : Str;
  network_passphrase : Str;
  q_route_digest : Str;
  q_price_digest : Str;
  q_source_sequence : option Z;
  q_timebounds_max : option Z;
  q_base_fee : option Z;
  valid_until_ledger : option Z;
  submission_status : SubmissionStatus;
  tx_hash : option Str;
}.

#[export] Instance PreparedSwapQuote_eta : Eta PreparedSwapQuote := λ q,
  mkPreparedSwapQuote (quote_id q) (sender_account q) (sender_account_hash q) (q_unsigned_xdr_hash q) (expires_at q)
    (estimated_output q) (min_output q) (amount_in q) (q_execution_mode q) (network_passphrase q)
    (q_route_digest q) (q_price_digest q) (q_source_sequence q) (q_timebounds_max q) (q_base_fee q)
    (valid_until_ledger q) (submission_status q) (tx_hash q).

Inductive ClaimSubmitOutcome :=
| Claimed (q : PreparedSwapQuote)
| InProgress (q : PreparedSwapQuote)
| AlreadySubmitted (tx_hash : Str)
| PermanentlyFailed.

(** The map of [InMemorySwapQuoteStore]. *)
Local Abbreviation Quotes := (gmap Str PreparedSwapQuote) (only parsing).

(** A quote that [expire_stale_for_sender] fails: prepared and [expires_at <= now]. *)
Definition stale (now : DateTime) (sender : Str) (q : PreparedSwapQuote) : bool :=
  bool_decide (sender_account q = sender) &&
  bool_decide (submission_status q = SubmissionStatus.Prepared) && negb (dt_lt now (expires_at q)).

Definition expire (now : DateTime) (sender : Str) (q : PreparedSwapQuote) : PreparedSwapQuote :=
  if stale now sender q then q <| submission_status := SubmissionStatus.Failed |> else q.

Definition expire_stale_for_sender (now : DateTime) (sender : Str) (quotes : Quotes) :
    Result Z SwapStoreError * Quotes :=
  (Ok (Z.of_nat (size (filter (λ kq, stale now sender (snd kq) = true) quotes))), expire now sender <$> quotes).

(** A quote that keeps its sender from preparing another: submitting, or prepared and
    not expired. *)
Definition blocks (now : DateTime) (sender : Str) (q : PreparedSwapQuote) : bool :=
  bool_decide (sender_account q = sender) &&
  match submission_status q with
  | SubmissionStatus.Submitting => true
  | SubmissionStatus.Prepared => dt_lt now (expires_at q)
  | _ => false
  end.

(** [insert_prepared], after stale quotes were expired. *)
Definition insert_prepared (now : DateTime) (quote : PreparedSwapQuote) (quotes : Quotes) :
    Result unit SwapStoreError * Quotes :=
  if bool_decide (map_Forall (λ _ q, blocks now (sender_account quote) q = false) quotes)
  then (Ok tt, <[quote_id quote := quote]> quotes)
  else (Err SwapStoreError.ActivePrepareExists, quotes).

Definition get (id : Str) (quotes : Quotes) : Result (option PreparedSwapQuote) SwapStoreError := Ok (quotes !! id).

Definition claim_for_submit (id hash : Str) (quotes : Quotes) : Result ClaimSubmitOutcome SwapStoreError * Quotes :=
  if bool_decide (trim hash = []) then (Err SwapStoreError.InvalidTransition, quotes)
  else match quotes !! id with
       | None => (Err SwapStoreError.NotFound, quotes)
       | Some q =>
           match submission_status q with
           | SubmissionStatus.Submitted => (Ok (AlreadySubmitted (default [] (tx_hash q))), quotes)
           | SubmissionStatus.Submitting => (Ok (InProgress q), quotes)
           | SubmissionStatus.Failed => (Ok PermanentlyFailed, quotes)
           | SubmissionStatus.Prepared =>
               let q' := q <| submission_status := SubmissionStatus.Submitting |> <| tx_hash := Some hash |> in
               (Ok (Claimed q'), <[id := q']> quotes)
           end
       end.

Definition finalize_submit (id hash : Str) (quotes : Quotes) : Result unit SwapStoreError * Quotes :=
  match quotes !! id with
  | None => (Err SwapStoreError.NotFound, quotes)
  | Some q =>
      if bool_decide (submission_status q ≠ SubmissionStatus.Submitting) then
        (Err SwapStoreError.InvalidTransition, quotes)
      else (Ok tt, <[id := q <| submission_status := SubmissionStatus.Submitted |> <| tx_hash := Some hash |>]> quotes)
  end.

Definition mark_failed (id : Str) (quotes : Quotes) : Result unit SwapStoreError * Quotes :=
  match quotes !! id with
  | None => (Ok tt, quotes)
  | Some q =>
      match submission_status q with
      | SubmissionStatus.Prepared | SubmissionStatus.Submitting =>
          (Ok tt, <[id := q <| submission_status := SubmissionStatus.Failed |>]> quotes)
      | _ => (Ok tt, quotes)
      end
  end.

End Store.

Abbreviation Quotes := (gmap Str PreparedSwapQuote) (only parsing).
