(* ===== verification/Builders.v ===== *)
(** * Builders of the bridge's transactions (api: cctp/builders/evm.rs, cctp/builders/stellar/mod.rs,
      cctp/stellar_builder_simulation.rs, cctp/stellar_sequence.rs, cctp/stellar_trustline.rs)

    Programs that prepare the unsigned approval, burn, trustline and mint transactions of a
    transfer. They ask a node (ChainRpc), a Horizon server and the clock. *)

From stdpp Require Import base decidable strings numbers list.
From S2P Require Import Prelude RustStr Result Tasks SwapTx Xdr CctpTypes CctpMessage CctpTrust CctpStore CctpEncoding.
From S2P Require Import CctpConfig Soroban ChainRpc EvmVerify StellarVerify CctpCalls CctpService.

Local Open Scope Z_scope.
Local Open Scope str_scope.
Local Open Scope prog_scope.

(** ** What builders ask *)

(** A reply of an HTTP server; its body may fail to arrive. *)
Record HttpResponse := mkHttpResponse {
  http_status : Z;
  http_status_text : Str;
  http_body : Result Str Str;
}.

Definition is_success (r : HttpResponse) : bool := (200 <=? http_status r) && (http_status r <=? 299).

Record HorizonBalance := mkHorizonBalance {
  asset_type : Str;
  asset_code : option Str;
  asset_issuer : option Str;
}.

Record SimResultItem := mkSimResultItem {
  sr_auth : option (list Str);
  sr_error : option Str;
}.

(** The answer to a simulation; of the restore preamble, whether there is one. *)
Record SimPayload := mkSimPayload {
  sp_transaction_data : option Str;
  sp_min_resource_fee : option Str;
  sp_results : option (list SimResultItem);
  sp_restore_preamble : bool;
  sp_error : option Str;
}.

Section Ask.

Context {T : Time}.

Inductive BuildCall :=
| Node (c : NodeCall)
| UtcNow
| HttpGet (url : Str).

Definition BuildReply (c : BuildCall) : Type :=
  match c with
  | Node c => NodeReply c
  | UtcNow => DateTime
  | HttpGet _ => Result HttpResponse Str
  end.

Definition on_node {A} (p : Prog NodeReply A) : Prog BuildReply A := embed Node (λ _ r, r) p.

End Ask.

(** The seconds of a time (chrono), serde_json on the answers, and the codecs of
    authorization entries and of the resources of a transaction. *)
Class BuildLib `{Time} := {
  timestamp : DateTime → Z;
  read_balances : Str → Result (list HorizonBalance) Str;
  read_sequence : Str → Result Str Str;
  read_simulation : Str → Result (RpcResponse SimPayload) Str;
  auth_from_xdr_base64 : Str → Result (list Z) Str;
  soroban_data_from_xdr_base64 : Str → Result (list Z) Str;
}.

Abbreviation BM A := (Prog BuildReply (Result A BuilderError)) (only parsing).

Local Abbreviation Validation := BuilderError.Validation (only parsing).
Local Abbreviation Encoding := BuilderError.Encoding (only parsing).
Local Abbreviation AccountLookup := BuilderError.AccountLookup (only parsing).
Local Abbreviation SimulationFailed := BuilderError.SimulationFailed (only parsing).

Definition encoding_failed (e : EncodingError) : BuilderError := Encoding (EncodingError.to_string e).

Definition lookup_failed (e : VerifierError) : BuilderError := AccountLookup (VerifierError.to_string e).

Section Shared.

Context {T : Time} {B : BuildLib}.

Definition ensure_not_expired (transfer : CctpTransfer) : BM unit :=
  now ⇐ call UtcNow;
  refuse (dt_lt (quote_expires_at transfer) now) BuilderError.QuoteExpired;;
  match fee_expires_at transfer with
  | Some fee_exp =>
      now ⇐ call UtcNow;
      refuse (dt_lt fee_exp now) BuilderError.FeeExpired
  | None => ok tt
  end.

(** [chrono::Utc::now().timestamp()] *)
Definition now_secs : Prog BuildReply Z := now ⇐ call UtcNow; Return (timestamp now).

End Shared.

(** ** builders/evm.rs *)

Module Evm.

Section Evm.

Context {T : Time} {H : Hex} {D : Digest} {R : RpcJson} {A : EvmAbi} {J : PayloadJson} {B : BuildLib}.

(** The production checker, with its contracts, or a fixed answer. *)
Inductive EvmAllowanceChecker :=
| EvmRpcAllowanceChecker (rpc_url : Str) (usdc token_messenger : list Z)
| FixedEvmAllowanceChecker (sufficient : bool).

Record ProductionEvmCctpBuilder := mkProductionEvmCctpBuilder {
  e_rpc_url : Str;
  e_allowance : EvmAllowanceChecker;
  e_probe_ok : bool;
}.

Definition check_allowance (a : EvmAllowanceChecker) (owner token spender amount : Str) : BM bool :=
  match a with
  | EvmRpcAllowanceChecker rpc_url usdc tm =>
      on_node (EvmVerify.has_sufficient_allowance rpc_url usdc tm owner token spender amount)
  | FixedEvmAllowanceChecker sufficient => ok sufficient
  end.

Definition new (config : CctpConfig) (allowance : EvmAllowanceChecker) (probe_ok : bool) : ProductionEvmCctpBuilder :=
  mkProductionEvmCctpBuilder (sepolia_rpc_url config) allowance probe_ok.

Definition from_config (config : CctpConfig) : ProductionEvmCctpBuilder := new config (FixedEvmAllowanceChecker false) false.

(** [checker]: the allowance checker, if it can be made. *)
Definition try_new (probe_ok : bool) (checker : option EvmAllowanceChecker) (config : CctpConfig) :
    Result ProductionEvmCctpBuilder BuilderError :=
  (reject (bool_decide (trim (sepolia_rpc_url config) = [])) BuilderError.NotReady;;
   reject (negb probe_ok) BuilderError.NotReady;;
   Ok (new config (default (FixedEvmAllowanceChecker false) checker) true))%result.

Definition sepolia_ready (config : CctpConfig) : bool :=
  negb (bool_decide (trim (sepolia_rpc_url config) = [])) && (sepolia_domain config =? SEPOLIA_DOMAIN).

Definition needs_approval (b : ProductionEvmCctpBuilder) (transfer : CctpTransfer) (config : CctpConfig) : BM bool :=
  ensure_not_expired transfer;;
  sufficient ← check_allowance (e_allowance b) (sender transfer) (sepolia_usdc (contracts config))
                 (sepolia_token_messenger (contracts config)) (amount transfer);
  ok (negb sufficient).

Definition parse_builder_address (addr : Str) : Result (list Z) (Fault BuilderError) :=
  ok_or (parse_address (trim addr)) (Raised (Validation ($"invalid EVM address: " ++ addr))).

Definition u256_from_decimal (amount : Str) : Result Z (Fault BuilderError) :=
  map_err (map_fault encoding_failed) (decimal_to_cctp_subunits amount).

Definition encode_approve (spender amount : Str) : Result (list Z) (Fault BuilderError) :=
  (spender ← parse_builder_address spender;
   amount ← u256_from_decimal amount;
   Ok (abi_encode FApprove (spender, amount)))%result.

Definition encode_deposit_for_burn (amount destination_domain : Z) (mint_recipient : list Z) (burn_token : Str)
    (destination_caller : list Z) (max_fee : Str) (min_finality : Z) : Result (list Z) (Fault BuilderError) :=
  (burn_token ← parse_builder_address burn_token;
   max_fee ← u256_from_decimal max_fee;
   Ok (abi_encode FDepositForBurn
         (mkBurnCall amount destination_domain mint_recipient burn_token destination_caller max_fee min_finality)))%result.

Definition encode_deposit_for_burn_with_hook (amount destination_domain : Z) (mint_recipient : list Z) (burn_token : Str)
    (destination_caller : list Z) (max_fee : Str) (min_finality : Z) (hook_data : list Z) :
    Result (list Z) (Fault BuilderError) :=
  (burn_token ← parse_builder_address burn_token;
   max_fee ← u256_from_decimal max_fee;
   Ok (abi_encode FDepositForBurnWithHook
         (mkBurnCall amount destination_domain mint_recipient burn_token destination_caller max_fee min_finality,
          hook_data)))%result.

Definition encode_receive_message (message attestation : list Z) : list Z :=
  abi_encode FReceiveMessage (message, attestation).

Context {K : Strkey}.

Definition prepare_burn (b : ProductionEvmCctpBuilder) (transfer : CctpTransfer) (config : CctpConfig) :
    BM PreparedBurnBundle :=
  refuse (negb (sepolia_ready config) || negb (e_probe_ok b)) BuilderError.NotReady;;
  refuse (bool_decide (direction transfer ≠ CctpDirection.EvmToStellar))
    (Validation $"EVM burn builder only supports evm_to_stellar");;
  ensure_not_expired transfer;;
  refuse (bool_decide (sender transfer = [])) (Validation $"sender required for EVM burn");;
  amount_cctp ← lift_fault encoding_failed (decimal_to_cctp_subunits (amount transfer));
  max_fee ← some_or (max_fee transfer) (Validation $"max_fee missing");
  forwarder ← lift_fault encoding_failed (stellar_contract_to_bytes32 (stellar_cctp_forwarder (contracts config)));
  hook ← lift_fault encoding_failed (build_forwarder_hook_data_recipient (recipient transfer));
  let expires_at := timestamp (quote_expires_at transfer) in
  required ← needs_approval b transfer config;
  if required : bool then
    approval ← lift_fault id (encode_approve (sepolia_token_messenger (contracts config)) (amount transfer));
    ok (mkPreparedBurnBundle BurnPrepareStep.Approval true
          (evm_tx_payload (sepolia_usdc (contracts config)) approval) [] [] expires_at None)
  else
    burn_data ← lift_fault id
      (encode_deposit_for_burn_with_hook amount_cctp (stellar_domain config) forwarder (sepolia_usdc (contracts config))
         forwarder max_fee (corridor_min_finality (finality transfer)) hook);
    ok (mkPreparedBurnBundle BurnPrepareStep.Burn false
          (evm_tx_payload (sepolia_token_messenger (contracts config)) burn_data) [] [] expires_at None).

Definition prepare_mint (transfer : CctpTransfer) (config : CctpConfig) : BM PreparedMintBundle :=
  refuse (bool_decide (direction transfer ≠ CctpDirection.StellarToEvm))
    (Validation $"EVM mint builder only supports stellar_to_evm destination");;
  message ← some_or (raw_message transfer) (Validation $"raw_message missing");
  attestation ← some_or (attestation transfer) (Validation $"attestation missing");
  let payload := evm_tx_payload (sepolia_message_transmitter (contracts config)) (encode_receive_message message attestation) in
  now ⇐ call UtcNow;
  ok (mkPreparedMintBundle MintPrepareStep.Mint false payload (timestamp (plus_seconds now 600)) (hash_payload payload)).

End Evm.

End Evm.

(** ** stellar_builder_simulation.rs *)

Definition APPROVAL_LEDGER_SAFETY_MARGIN : Z := 32.
Definition LEDGER_EXPIRY_MARGIN : Z := 1000.

(** encoder.rs *)
Definition MAX_AUTH_ENTRIES : nat := 16.

Record StrictSimulateResult := mkStrictSimulateResult {
  transaction_data_xdr : Str;
  min_resource_fee : Z;
  auth_entries : list (list Z);
}.

Module Stellar.

Section Simulation.

Context {T : Time} {H : Hex} {K : Strkey} {D : Digest} {X : XdrLib} {S : ScLib} {R : RpcJson} {J : PayloadJson} {B : BuildLib}.

(** Whether this is not a test build, and whether it traps on arithmetic overflow. *)
Variable production checks : bool.

Definition ledger_bounds_for_expiry (latest_ledger quote_expires_at : Z) : Prog BuildReply (Z * Z) :=
  now ⇐ now_secs;
  let secs_remaining := wrap U32 (Z.max (saturating_sub I64 quote_expires_at now) 0) in
  let ledger_margin := secs_remaining / 5 + LEDGER_EXPIRY_MARGIN in
  Return (latest_ledger, saturating_add U32 latest_ledger ledger_margin).

Definition approval_expiration_ledger_for (latest_ledger quote_expires_at : Z) : Prog BuildReply Z :=
  bounds ⇐ ledger_bounds_for_expiry latest_ledger quote_expires_at;
  Return bounds.2.

Definition time_bounds_for_expiry (quote_expires_at : Z) : Prog BuildReply (Z * Z) :=
  now ⇐ now_secs;
  Return (0, Z.max quote_expires_at (Z.max now 0)).

(** The addition is plain. *)
Definition compute_total_fee (base_fee min_resource_fee : Z) : BM Z :=
  total ⇐ or_panic (Prelude.plain checks U64 (base_fee + min_resource_fee));
  some_or (chk U32 total) (SimulationFailed $"fee overflow").

Fixpoint decode_auth (xdrs : list Str) : Result (list (list Z)) BuilderError :=
  match xdrs with
  | [] => Ok []
  | xdr :: rest =>
      (reject (256 * 1024 <? str_len xdr) (SimulationFailed $"auth xdr too large");;
       entry ← map_err SimulationFailed (auth_from_xdr_base64 xdr);
       entries ← decode_auth rest;
       Ok (entry :: entries))%result
  end.

(** What a simulation must look like. *)
Definition check_simulation (result : SimPayload) : Result StrictSimulateResult BuilderError :=
  (reject (sp_restore_preamble result) (SimulationFailed $"restore preamble required");;
   match sp_error result with Some e => Err (SimulationFailed e) | None => Ok tt end;;
   transaction_data ← ok_or (sp_transaction_data result ≫= λ s, if bool_decide (s = []) then None else Some s)
                        (SimulationFailed $"missing transactionData");
   reject (512 * 1024 <? str_len transaction_data) (SimulationFailed $"transactionData too large");;
   fee ← ok_or (parse_uint U64 (default $"0" (sp_min_resource_fee result))) (SimulationFailed $"invalid minResourceFee");
   results ← ok_or (sp_results result) (SimulationFailed $"missing results");
   match results with
   | [] => Err (SimulationFailed $"empty results")
   | [item] =>
       reject (negb (bool_decide (default [] (sr_error item) = []))) (SimulationFailed (default [] (sr_error item)));;
       let xdrs := default [] (sr_auth item) in
       reject (MAX_AUTH_ENTRIES <? length xdrs)%nat (SimulationFailed $"too many auth entries");;
       entries ← decode_auth xdrs;
       Ok (mkStrictSimulateResult transaction_data fee entries)
   | _ => Err (SimulationFailed ($"expected 1 result, got " ++ display (Z.of_nat (length results))))
   end)%result.

Definition simulate_transaction_strict (c : StellarRpcClient) (transaction_xdr : Str) : BM StrictSimulateResult :=
  lift (λ e, SimulationFailed (VerifierError.to_string e)) (ensure_url production c (rpc_url c));;
  refuse (MAX_JSON_BODY_BYTES <? request_len (SimulateWithLeeway transaction_xdr)) (SimulationFailed $"request too large");;
  text ← awaited SimulationFailed (on_node (call (Post (SimulateWithLeeway transaction_xdr))));
  lift (λ e, SimulationFailed (VerifierError.to_string e)) (check_rpc_response_len (str_len text));;
  payload ← lift SimulationFailed (read_simulation text);
  match rpc_error payload with
  | Some message => err (SimulationFailed message)
  | None =>
      result ← some_or (rpc_result payload) (SimulationFailed $"missing result");
      Return (check_simulation result)
  end.

Definition assemble_simulated_envelope (tx : Transaction) (sim : StrictSimulateResult) (base_fee : Z) : BM Str :=
  soroban_data ← lift SimulationFailed (soroban_data_from_xdr_base64 (transaction_data_xdr sim));
  fee ← compute_total_fee base_fee (min_resource_fee sim);
  first ← some_or (head (tx_operations tx)) (Encoding $"missing operation");
  match o_body first with
  | InvokeHostFunction host_function _ =>
      let op := mkOperation (o_source_account first) (InvokeHostFunction host_function (auth_entries sim)) in
      lift Encoding (to_xdr_base64 (EnvelopeTx
        (mkTransaction (tx_source_account tx) fee (tx_seq_num tx) (tx_cond tx) (tx_memo tx) [op] (OtherExt soroban_data)) []))
  | _ => err (Encoding $"expected invoke")
  end.

Definition simulate_and_assemble_invoke (c : StellarRpcClient) (params : InvokeTxParams) : BM Str :=
  tx ← Return (build_unsigned_invoke_tx params);
  template_xdr ← lift Encoding (to_xdr_base64 (EnvelopeTx tx []));
  sim ← simulate_transaction_strict c template_xdr;
  assemble_simulated_envelope tx sim (p_base_fee params).

(** ** stellar_sequence.rs, and the Horizon client of swap/tx.rs *)

Definition HORIZON_TESTNET : Str := $"https://horizon-testnet.stellar.org".

Definition enforce_horizon_testnet_host (host : Str) : Result unit TxBuildError :=
  reject (bool_decide (host ≠ $"horizon-testnet.stellar.org"))
    (TxBuildError.AccountLookup $"horizon host must match configured testnet endpoint").

Definition validated_horizon_base (config : CctpConfig) : Result Str TxBuildError :=
  (let raw := if bool_decide (trim (stellar_horizon_url config) = []) then HORIZON_TESTNET
              else trim_end_matches 47 (trim (stellar_horizon_url config)) in
   parsed ← map_err (λ e, TxBuildError.AccountLookup (CctpConfigError.to_string e)) (parse_service_url raw);
   reject (production && bool_decide (scheme parsed ≠ $"https"))
     (TxBuildError.AccountLookup $"horizon must be https outside loopback");;
   enforce_horizon_testnet_host (host parsed);;
   Ok raw)%result.

(** The Horizon servers that sequence numbers are read from. *)
Definition sequence_urls (config : CctpConfig) : list Str :=
  match validated_horizon_base config with
  | Ok url => [url]
  | Err _ => if production then [] else [HORIZON_TESTNET]
  end.

(** The body of a reply that is read as JSON. *)
Definition json_body {A} (read : Str → Result A Str) (r : HttpResponse) : Result A Str :=
  (text ← http_body r; read text)%result.

Definition account_url (base account_id : Str) : Str := base ++ $"/accounts/" ++ account_id.

Fixpoint horizon_sequence (urls : list Str) (account_id : Str) (last : TxBuildError) :
    Prog BuildReply (Result Z TxBuildError) :=
  match urls with
  | [] => err last
  | base :: rest =>
      reply ⇐ call (HttpGet (account_url base account_id));
      match reply : Result HttpResponse Str with
      | Ok resp =>
          if is_success resp then
            seq ← lift TxBuildError.AccountLookup (json_body read_sequence resp);
            some_or (parse_sint I64 seq) (TxBuildError.AccountLookup $"invalid sequence")
          else horizon_sequence rest account_id
                 (TxBuildError.AccountLookup ($"HTTP " ++ http_status_text resp ++ $" fetching account"))
      | Err e => horizon_sequence rest account_id (TxBuildError.AccountLookup e)
      end
  end.

Definition current_sequence (c : StellarRpcClient) (urls : list Str) (account_id : Str) :
    Prog BuildReply (Result Z TxBuildError) :=
  rpc_result ⇐ on_node (get_account_sequence production c account_id);
  horizon_result ⇐ horizon_sequence urls account_id (TxBuildError.AccountLookup $"no horizon URLs configured");
  Return (match rpc_result, horizon_result with
          | Ok rpc, Ok horizon => Ok (Z.max rpc horizon)
          | Ok rpc, Err _ => Ok rpc
          | Err _, Ok horizon => Ok horizon
          | Err _, Err e => Err e
          end).

(** ** stellar_trustline.rs *)

Definition CIRCLE_TESTNET_USDC_ISSUER : Str := $"GBBD47IF6LWK7P7MDEVSCWR7DPUWV3NY3DTQEVFL4NAT4AQH3ZLLFLA5".
Definition CIRCLE_TESTNET_USDC_CODE : Str := $"USDC".
Definition CHANGE_TRUST_MAX_LIMIT : Z := int_max I64.

Definition recipient_trustline_account (recipient : Str) : Result Str BuilderError :=
  match parse_recipient_strkey recipient with
  | Ok (StellarRecipientKey.Account bytes) => Ok (account_to_string bytes)
  | Ok (StellarRecipientKey.Muxed ed25519 _) => Ok (account_to_string ed25519)
  | Ok (StellarRecipientKey.Contract _) => Err (Validation $"contract recipient not allowed for corridor")
  | Err _ => Err (Validation $"mint recipient must be G or M address")
  end.

Definition trustline_urls (horizon_base_url : Str) : list Str :=
  let base := trim_end_matches 47 (trim horizon_base_url) in
  if bool_decide (base = []) then [HORIZON_TESTNET] else [base].

Definition is_usdc (b : HorizonBalance) : bool :=
  bool_decide (asset_type b ≠ $"native") && bool_decide (asset_code b = Some CIRCLE_TESTNET_USDC_CODE) &&
  bool_decide (asset_issuer b = Some CIRCLE_TESTNET_USDC_ISSUER).

Fixpoint has_usdc_trustline (urls : list Str) (account_g : Str) (last : BuilderError) : BM bool :=
  match urls with
  | [] => err last
  | base :: rest =>
      reply ⇐ call (HttpGet (account_url base account_g));
      match reply : Result HttpResponse Str with
      | Ok resp =>
          if is_success resp then
            balances ← lift AccountLookup (json_body read_balances resp);
            ok (existsb is_usdc balances)
          else if http_status resp =? 404 then
            err (AccountLookup ($"account " ++ account_g ++ $" not found on Horizon"))
          else has_usdc_trustline rest account_g (AccountLookup ($"HTTP " ++ http_status_text resp ++ $" fetching account"))
      | Err e => has_usdc_trustline rest account_g (AccountLookup e)
      end
  end.

Definition decode_ed25519 (account : Str) : Result (list Z) BuilderError :=
  ok_or (account_from_string (trim account)) (Validation ($"invalid Stellar account: " ++ account)).

Definition usdc_change_trust_asset : Result ChangeTrustAsset BuilderError :=
  (issuer ← decode_ed25519 CIRCLE_TESTNET_USDC_ISSUER;
   Ok (TrustAsset (Asset.CreditAlphanum4 (as_bytes CIRCLE_TESTNET_USDC_CODE) issuer)))%result.

Definition build_unsigned_change_trust_xdr (source_g : Str) (account_sequence : Z) (network_passphrase : Str)
    (base_fee timeout_secs : Z) : BM (Str * Str) :=
  source ← Return (decode_ed25519 source_g);
  now ⇐ now_secs;
  let timebounds_max := saturating_add U64 (Z.max now 0) (Z.max timeout_secs 1) in
  let fee := if base_fee =? 0 then DEFAULT_BASE_FEE else base_fee in
  line ← Return usdc_change_trust_asset;
  let tx := mkTransaction (Ed25519 source) fee (saturating_add I64 account_sequence 1) (CondTime 0 timebounds_max) MemoNone
              [mkOperation None (ChangeTrust line CHANGE_TRUST_MAX_LIMIT)] ExtV0 in
  tx_hash ← lift (λ e, Encoding (TxBuildError.to_string e)) (transaction_hash_hex tx network_passphrase);
  xdr_envelope ← lift Encoding (to_xdr_base64 (EnvelopeTx tx []));
  ok (xdr_envelope, tx_hash).

(** The bytes before the first zero. *)
Fixpoint until_zero (bytes : list Z) : list Z :=
  match bytes with
  | [] => []
  | b :: rest => if b =? 0 then [] else b :: until_zero rest
  end.

Definition is_usdc_change_trust_envelope (xdr : Str) : bool :=
  match from_xdr_base64 (trim xdr) with
  | Ok (EnvelopeTx tx _) =>
      match tx_operations tx with
      | [op] =>
          match o_body op with
          | ChangeTrust (TrustAsset (Asset.CreditAlphanum4 code issuer)) limit =>
              bool_decide (until_zero code = as_bytes CIRCLE_TESTNET_USDC_CODE) &&
              bool_decide (account_to_string issuer = CIRCLE_TESTNET_USDC_ISSUER) && (limit =? CHANGE_TRUST_MAX_LIMIT)
          | _ => false
          end
      | _ => false
      end
  | _ => false
  end.

(** ** builders/stellar/mod.rs *)

(** [OfflineStellarXdrEncoder]; [now] is the clock in seconds. *)
Definition encode_approval_at_sequence (now : Z) (source token spender : Str) (amount expiration_ledger account_sequence : Z) :
    Result Str BuilderError :=
  (args ← approve_args source spender amount expiration_ledger;
   encode_invoke_at_sequence now source token $"approve" args account_sequence)%result.

Definition encode_burn_at_sequence (now : Z) (source token_messenger caller : Str) (amount destination_domain : Z)
    (mint_recipient : list Z) (burn_token : Str) (max_fee min_finality account_sequence : Z) : Result Str BuilderError :=
  (args ← deposit_for_burn_args caller amount destination_domain mint_recipient burn_token max_fee min_finality;
   encode_invoke_at_sequence now source token_messenger $"deposit_for_burn" args account_sequence)%result.

Inductive StellarAllowanceChecker :=
| StellarRpcAllowanceChecker (client : StellarRpcClient) (probe_ok : bool) (usdc token_messenger : Str)
| FixedAllowanceChecker (sufficient : bool).

Record ProductionStellarCctpBuilder := mkProductionStellarCctpBuilder {
  s_sequences : list Str;
  s_rpc : StellarRpcClient;
  s_allowance : StellarAllowanceChecker;
  s_trustline : list Str;
  s_probe_ok : bool;
  s_base_fee : Z;
}.

Definition check_allowance (a : StellarAllowanceChecker) (owner token spender : Str) (amount : Z) : BM bool :=
  match a with
  | StellarRpcAllowanceChecker client probe_ok usdc tm =>
      on_node (StellarVerify.has_sufficient_allowance production client probe_ok usdc tm owner token spender amount)
  | FixedAllowanceChecker sufficient => ok sufficient
  end.

Definition is_production_ready (b : ProductionStellarCctpBuilder) : bool := s_probe_ok b && stellar_is_ready (s_rpc b).

Definition ensure_testnet_config (config : CctpConfig) : Result unit BuilderError :=
  (reject (bool_decide (passphrase_for_config config ≠ STELLAR_TESTNET_PASSPHRASE)) (Validation $"wrong network passphrase");;
   reject (negb (stellar_domain config =? STELLAR_TESTNET_DOMAIN)) (Validation $"wrong stellar domain"))%result.

(** [built]: whether the HTTP client can be made; [probe]: the contracts and a simulation
    could be read; [checker]: the allowance checker, if it is ready. *)
Definition try_new (built : Result unit Str) (probe : bool) (checker : option StellarAllowanceChecker) (config : CctpConfig) :
    Result ProductionStellarCctpBuilder BuilderError :=
  (reject (bool_decide (trim (stellar_rpc_url config) = [])) BuilderError.NotReady;;
   ensure_testnet_config config;;
   rpc ← map_err (λ e, Validation (VerifierError.to_string e)) (new_stellar_client production built config);
   Ok (mkProductionStellarCctpBuilder (sequence_urls config) rpc (default (FixedAllowanceChecker false) checker)
         (trustline_urls (stellar_horizon_url config)) probe DEFAULT_BASE_FEE))%result.

Definition validate_g_sender (sender : Str) : Result unit BuilderError :=
  match account_from_string (trim sender) with
  | Some _ => Ok tt
  | None => Err (Validation $"sender must be valid G-address")
  end.

Definition validate_mint_recipient (recipient : Str) : Result unit BuilderError :=
  match parse_recipient_strkey recipient with
  | Ok (StellarRecipientKey.Account _) | Ok (StellarRecipientKey.Muxed _ _) => Ok tt
  | Ok (StellarRecipientKey.Contract _) => Err (Validation $"contract recipient not allowed for corridor")
  | Err _ => Err (Validation $"mint recipient must be G or M address")
  end.

Definition builder_latest_ledger (b : ProductionStellarCctpBuilder) : BM Z :=
  awaited lookup_failed (on_node (latest_ledger production (s_rpc b))).

Definition build_simulated_invoke (b : ProductionStellarCctpBuilder) (source contract function : Str) (args : list ScVal)
    (config : CctpConfig) (transfer : CctpTransfer) : BM Str :=
  Return (ensure_testnet_config config);;
  current ← awaited (λ e, AccountLookup (TxBuildError.to_string e)) (current_sequence (s_rpc b) (s_sequences b) source);
  let sequence := saturating_add I64 current 1 in
  latest ← builder_latest_ledger b;
  let quote_exp := timestamp (quote_expires_at transfer) in
  time_bounds ⇐ time_bounds_for_expiry quote_exp;
  ledger_bounds ⇐ ledger_bounds_for_expiry latest quote_exp;
  simulate_and_assemble_invoke (s_rpc b)
    (mkInvokeTxParams source contract function args sequence (s_base_fee b) time_bounds ledger_bounds).

Definition needs_approval (b : ProductionStellarCctpBuilder) (transfer : CctpTransfer) (config : CctpConfig)
    (stellar_amount : Z) : BM bool :=
  expiring ← match approval_expiration_ledger transfer with
             | Some exp =>
                 latest ← builder_latest_ledger b;
                 ok (saturating_sub U64 exp APPROVAL_LEDGER_SAFETY_MARGIN <=? latest)
             | None => ok false
             end;
  if expiring : bool then ok true
  else
    sufficient ← check_allowance (s_allowance b) (sender transfer) (stellar_usdc (contracts config))
                   (stellar_token_messenger (contracts config)) stellar_amount;
    ok (negb sufficient).

(** The nonce of the transfer as hexadecimal digits. *)
Definition nonce_digits (nonce : Str) : Str := default (trim nonce) (strip_prefix $"0x" (trim nonce)).

Definition validate_mint_message (transfer : CctpTransfer) (config : CctpConfig) (message : list Z) :
    Result unit (Fault BuilderError) :=
  let invalid s := Raised (Validation s) in
  (parsed ← map_err (λ e, invalid ($"message parse: " ++ MessageParseError.to_string e)) (parse_cctp_v2_message message);
   expectations ← map_err (map_fault (λ e, Validation (expectation_error_string e)))
                    (build_corridor_expectations transfer (contracts config));
   reject (negb (m_source_domain parsed =? e_source_domain expectations)) (invalid $"wrong source domain");;
   reject (negb (m_destination_domain parsed =? e_destination_domain expectations)) (invalid $"wrong destination domain");;
   match message_nonce transfer with
   | Some nonce => reject (negb (eq_ignore_ascii_case (hex_encode (m_nonce parsed)) (nonce_digits nonce))) (invalid $"nonce mismatch")
   | None => Ok tt
   end;;
   reject (bool_decide (b_burn_token (m_body parsed) ≠ e_burn_token expectations)) (invalid $"burn token mismatch");;
   reject (bool_decide (b_mint_recipient (m_body parsed) ≠ e_mint_recipient expectations)) (invalid $"mint recipient mismatch");;
   reject (negb (b_amount (m_body parsed) =? e_amount_cctp_subunits expectations)) (invalid $"amount mismatch");;
   reject (negb (m_min_finality_threshold parsed =? e_min_finality expectations)) (invalid $"finality mismatch");;
   reject (e_hook_data_required_empty expectations && negb (bool_decide (b_hook_data (m_body parsed) = [])))
     (invalid $"unexpected hook data");;
   match e_hook_data expectations with
   | Some expected_hook => reject (bool_decide (b_hook_data (m_body parsed) ≠ expected_hook)) (invalid $"hook data mismatch")
   | None => Ok tt
   end)%result.

Definition prepare_burn (b : ProductionStellarCctpBuilder) (transfer : CctpTransfer) (config : CctpConfig) :
    BM PreparedBurnBundle :=
  refuse (negb (is_production_ready b)) BuilderError.NotReady;;
  refuse (bool_decide (direction transfer ≠ CctpDirection.StellarToEvm))
    (Validation $"Stellar burn builder only supports stellar_to_evm");;
  ensure_not_expired transfer;;
  refuse (bool_decide (sender transfer = [])) (Validation $"sender required for Stellar burn");;
  Return (validate_g_sender (sender transfer));;
  cctp_amount ← lift_fault encoding_failed (stellar_outbound_cctp_amount_strict (amount transfer));
  stellar_units ← lift_fault encoding_failed (cctp_subunits_to_stellar_subunits cctp_amount);
  let stellar_amount := wrap I128 stellar_units in
  max_fee ← some_or (max_fee transfer) (Validation $"max_fee missing");
  max_fee_cctp ← lift_fault encoding_failed (decimal_to_cctp_subunits max_fee);
  max_fee_units ← lift_fault encoding_failed (cctp_subunits_to_stellar_subunits max_fee_cctp);
  let max_fee_stellar := wrap I128 max_fee_units in
  let passphrase := passphrase_for_config config in
  let expires_at := timestamp (quote_expires_at transfer) in
  latest ← builder_latest_ledger b;
  approval_exp ⇐ approval_expiration_ledger_for latest expires_at;
  required ← needs_approval b transfer config stellar_amount;
  if required : bool then
    args ← Return (approve_args (sender transfer) (stellar_token_messenger (contracts config)) stellar_amount approval_exp);
    approve_xdr ← build_simulated_invoke b (sender transfer) (stellar_usdc (contracts config)) $"approve" args config transfer;
    ok (mkPreparedBurnBundle BurnPrepareStep.Approval true (StellarXdr passphrase approve_xdr None) [] [] expires_at
          (Some approval_exp))
  else
    mint_recipient ← lift_fault encoding_failed (evm_address_to_bytes32 (recipient transfer));
    args ← Return (deposit_for_burn_args (sender transfer) stellar_amount (sepolia_domain config) mint_recipient
                     (stellar_usdc (contracts config)) max_fee_stellar (corridor_min_finality (finality transfer)));
    burn_xdr ← build_simulated_invoke b (sender transfer) (stellar_token_messenger (contracts config)) $"deposit_for_burn"
                 args config transfer;
    ok (mkPreparedBurnBundle BurnPrepareStep.Burn false (StellarXdr passphrase burn_xdr None) [] [] expires_at None).

Definition prepare_mint (b : ProductionStellarCctpBuilder) (transfer : CctpTransfer) (config : CctpConfig) :
    BM PreparedMintBundle :=
  refuse (negb (is_production_ready b)) BuilderError.NotReady;;
  refuse (bool_decide (direction transfer ≠ CctpDirection.EvmToStellar))
    (Validation $"Stellar mint builder only supports evm_to_stellar destination");;
  ensure_not_expired transfer;;
  message ← some_or (raw_message transfer) (Validation $"raw_message missing");
  attestation ← some_or (attestation transfer) (Validation $"attestation missing");
  refuse (bool_decide (recipient transfer = [])) (Validation $"recipient required");;
  Return (validate_mint_recipient (recipient transfer));;
  submitter ← some_or (mint_submitter transfer) (Validation $"mint_submitter required");
  Return (validate_g_sender submitter);;
  lift_fault id (validate_mint_message transfer config message);;
  let passphrase := passphrase_for_config config in
  let quote_exp := timestamp (quote_expires_at transfer) in
  let max_ttl := wrap I64 (mint_payload_ttl_secs config) in
  now ⇐ now_secs;
  limit ⇐ or_panic (Prelude.plain checks I64 (now + max_ttl));
  let expires_at := Z.min quote_exp limit in
  trustline_account ← Return (recipient_trustline_account (recipient transfer));
  has_trustline ← has_usdc_trustline (s_trustline b) trustline_account (AccountLookup $"no horizon URLs configured");
  if negb has_trustline then
    current ← awaited (λ e, AccountLookup (TxBuildError.to_string e))
                (current_sequence (s_rpc b) (s_sequences b) trustline_account);
    built ← build_unsigned_change_trust_xdr trustline_account current passphrase (s_base_fee b) DEFAULT_TIMEOUT_SECS;
    let payload := StellarXdr passphrase built.1 (Some trustline_account) in
    ok (mkPreparedMintBundle MintPrepareStep.Trustline true payload expires_at (hash_payload payload))
  else
    args ← Return (mint_and_forward_args message attestation);
    xdr ← build_simulated_invoke b submitter (stellar_cctp_forwarder (contracts config)) $"mint_and_forward" args config transfer;
    payload_hash ← lift (λ e, Encoding (VerifierError.to_string e)) (payload_hash_from_envelope_xdr config xdr);
    ok (mkPreparedMintBundle MintPrepareStep.Mint false (StellarXdr passphrase xdr None) expires_at payload_hash).

End Simulation.

End Stellar.
