(* ===== verification/BuildProps.v ===== *)
(** * Builders and verifiers agree

    What the builders prepare is what the verifiers accept: the burn that is prepared for
    a transfer from Ethereum, once its sender executed it, is verified as that transfer's
    burn; the burn that is prepared on Stellar is an invocation that the verifier reads as
    that transfer's; a signature does not change the hash that binds a payload. And what
    is not prepared: a mint after the quote expired, a fee that overflows. *)

From stdpp Require Import base decidable strings numbers list countable.
From Stdlib Require Import ZArith Lia.
From S2P Require Import Prelude RustStr Result Tasks SwapTx Xdr CctpTypes CctpMessage CctpTrust CctpStore CctpEncoding.
From S2P Require Import CctpMessageProps CctpEncodingProps CctpConfig Soroban ChainRpc EvmVerify StellarVerify VerifyProps.
From S2P Require Import CctpCalls CctpService CctpStoreProps CctpServiceProps Builders.

Local Open Scope Z_scope.
Local Open Scope str_scope.

(** The alloy codec: the input of a burn with a hook is decoded to what it encodes and
    starts with its selector; an address in hexadecimal is its bytes. *)
Class AbiOk {H : Hex} (A : EvmAbi) : Prop := {
  abi_roundtrip a : abi_decode FDepositForBurnWithHook (abi_encode FDepositForBurnWithHook a) = Ok a;
  abi_bytes a : Forall is_byte (abi_encode FDepositForBurnWithHook a);
  abi_selector a : take 4 (abi_encode FDepositForBurnWithHook a) = DEPOSIT_FOR_BURN_WITH_HOOK_SELECTOR;
  abi_address s : is_valid_evm_address s = true → parse_address (trim s) = hex_decode (drop 2 (trim s));
}.

Section EvmBuild.

Context {T : Time} {H : Hex} {HO : HexOk H} {K : Strkey} {D : Digest} {R : RpcJson} {A : EvmAbi} {AO : AbiOk A} {J : PayloadJson}
  {B : BuildLib}.
Context (checks : bool).
Context (asked : ∀ c : BuildCall, BuildReply c → Prop).

Lemma address_bytes s a b : parse_address (trim s) = Some a → evm_address_to_bytes32 s = Ok b → b = address_to_bytes32 a.
Proof.
  intros Hp Hb. assert (Hv : is_valid_evm_address s = true).
  { revert Hb. unfold evm_address_to_bytes32. by destruct (is_valid_evm_address s). }
  rewrite (abi_address _ Hv) in Hp. apply evm_address_layout in Hb as (addr & Hd & Hl & ->). unfold address_to_bytes32. congruence.
Qed.

Lemma decode_hook_call c hook :
  decode_calldata ($"0x" ++ hex_encode (abi_encode FDepositForBurnWithHook (c, hook))) = Ok (mkDecodedBurnCall c (non_empty hook)).
Proof.
  unfold decode_calldata. change (strip_0x _) with (hex_encode (abi_encode FDepositForBurnWithHook (c, hook))).
  rewrite hex_decode_encode by apply abi_bytes. cbn [ok_or try_].
  pose proof (abi_selector (c, hook)) as Hs. assert (Hl : (4 <= length (abi_encode FDepositForBurnWithHook (c, hook)))%nat).
  { apply (f_equal length) in Hs. rewrite length_take in Hs. cbn [length DEPOSIT_FOR_BURN_WITH_HOOK_SELECTOR] in Hs. lia. }
  rewrite (proj2 (Nat.ltb_ge _ _) Hl). cbn [reject try_]. rewrite Hs, bool_decide_eq_false_2 by done.
  rewrite bool_decide_eq_true_2 by done. by rewrite abi_roundtrip.
Qed.

(** What the burn that the builder prepares looks like. *)
Record PreparedEvmBurn (t : CctpTransfer) (config : CctpConfig) (bundle : PreparedBurnBundle) (c : BurnCall) (hook : list Z) : Prop := {
  pe_payload : burn_primary bundle = EvmTransaction SEPOLIA_CHAIN_ID (sepolia_token_messenger (contracts config))
    ($"0x" ++ hex_encode (abi_encode FDepositForBurnWithHook (c, hook))) $"0";
  pe_amount : decimal_to_cctp_subunits (amount t) = Ok (bc_amount c);
  pe_domain : bc_destination_domain c = stellar_domain config;
  pe_forwarder : stellar_contract_to_bytes32 (stellar_cctp_forwarder (contracts config)) = Ok (bc_mint_recipient c);
  pe_caller : bc_destination_caller c = bc_mint_recipient c;
  pe_token : parse_address (trim (sepolia_usdc (contracts config))) = Some (bc_burn_token c);
  pe_fee : ∃ fee, max_fee t = Some fee ∧ decimal_to_cctp_subunits fee = Ok (bc_max_fee c);
  pe_finality : bc_min_finality c = corridor_min_finality (finality t);
  pe_hook : build_forwarder_hook_data_recipient (recipient t) = Ok hook;
}.

Lemma prepared_evm_burn b t config bundle :
  returns asked (Evm.prepare_burn b t config) (Ok bundle) → burn_step bundle = BurnPrepareStep.Burn →
  ∃ c hook, PreparedEvmBurn t config bundle c hook.
Proof.
  unfold Evm.prepare_burn. intros Hr Hs. pinv. case_match; pinv; [done|].
  match goal with Hb : Evm.encode_deposit_for_burn_with_hook _ _ _ _ _ _ _ _ = Ok _ |- _ =>
    unfold Evm.encode_deposit_for_burn_with_hook, Evm.parse_builder_address, Evm.u256_from_decimal in Hb; rinv end.
  do 2 eexists. split; cbn; try done. eauto.
Qed.

Lemma direction_of_evm_burn b t config bundle :
  returns asked (Evm.prepare_burn b t config) (Ok bundle) → direction t = CctpDirection.EvmToStellar.
Proof. unfold Evm.prepare_burn. intros Hr. pinv. guards. done. Qed.

(** *** The prepared burn, executed, is accepted *)

Lemma subunits_fit a n : decimal_to_cctp_subunits a = Ok n → fits U128 n.
Proof.
  unfold decimal_to_cctp_subunits, parse_decimal_to_subunits. intros Hp. rinv. case_match. rinv.
  eapply parse_uint_fits; [done|]. by unfold fits.
Qed.

Lemma hook_not_empty r hook : build_forwarder_hook_data_recipient r = Ok hook → non_empty hook = Some hook.
Proof.
  unfold build_forwarder_hook_data_recipient. intros Hh. apply try_Ok in Hh as (key & _ & Hh).
  destruct key; try discriminate Hh; cbn zeta in Hh; rewrite hook_copy in Hh; by injection Hh as <-.
Qed.

Context (node : ∀ c : NodeCall, NodeReply c).

(** The node answers a request, within the limits of the client, with a payload. *)
Definition node_shows (s : Shape) (r : Rpc) (p : Payload s) : Prop :=
  ∃ text resp, request_len r ≤ MAX_JSON_BODY_BYTES ∧ node (Post r) = Ok text ∧ str_len text ≤ MAX_JSON_BODY_BYTES ∧
    read_response s text = Ok resp ∧ rpc_error resp = None ∧ rpc_result resp = Some p.

Lemma evm_call_shows s r p : node_shows s r p → run_with node (evm_call s r) = Some (Ok p).
Proof.
  intros (text & resp & Hq & Hn & Ht & Hr & He & Hp). unfold evm_call.
  rewrite (run_with_mtry _ _ _ tt) by (by rewrite (proj2 (Z.ltb_ge _ _) Hq)).
  rewrite (run_with_mtry _ _ _ text) by (cbn; by rewrite Hn).
  rewrite (run_with_mtry _ _ _ tt) by (by rewrite (proj2 (Z.ltb_ge _ _) Ht)).
  rewrite (run_with_mtry _ _ _ resp) by (by rewrite Hr). by rewrite He, Hp.
Qed.

(** The sender executed a payload: the node of Sepolia shows the transaction that it is,
    sent by the transfer's sender, successful and deep enough, and exactly one burn event
    of the messenger, which says what the input says. *)
Record Executed (v : EvmRpcBurnVerifier) (t : CctpTransfer) (payload : PreparedWalletPayload) (tx_hash : Str) (receipt : EthReceipt)
    (e : DepositForBurn) : Prop := {
  ex_chain : ∃ text, node_shows SString EthChainId text ∧ parse_hex_uint U64 (trim_start_0x text) = Some SEPOLIA_CHAIN_ID_NUM;
  ex_tx : ∃ chain to data value a, payload = EvmTransaction chain to data value ∧ parse_address (trim to) = Some a ∧
    node_shows STransaction (EthGetTransactionByHash tx_hash)
      (mkEthTransaction (Some (sender t)) (Some (show_address a)) (Some data));
  ex_receipt : node_shows SReceipt (EthGetTransactionReceipt tx_hash) receipt;
  ex_status : er_status receipt = Some $"0x1";
  ex_depth : ∃ latest latest_num block tx_num, node_shows SString EthBlockNumber latest ∧
    parse_hex_uint U64 (trim_start_0x latest) = Some latest_num ∧ er_block_number receipt = Some block ∧
    parse_hex_uint U64 (trim_start_0x block) = Some tx_num ∧ 0 < tx_num ≤ latest_num ∧
    b_min_confirmations v ≤ latest_num - tx_num + 1;
  ex_event : burn_events (b_token_messenger v) (default [] (er_logs receipt)) = [e];
  ex_same : ∀ chain to data value d, payload = EvmTransaction chain to data value → decode_calldata data = Ok d →
    calldata_matches_event d e = true;
}.

Lemma ensure_chain_shown text :
  node_shows SString EthChainId text → parse_hex_uint U64 (trim_start_0x text) = Some SEPOLIA_CHAIN_ID_NUM →
  run_with node ensure_chain = Some (Ok tt).
Proof.
  intros Hn Hp. unfold ensure_chain, chain_id. rewrite (run_with_mtry _ _ _ SEPOLIA_CHAIN_ID_NUM); [done|].
  by rewrite (run_with_mtry _ _ _ text), Hp by (by apply evm_call_shows).
Qed.

Lemma confirmations_shown v t payload tx_hash receipt e :
  Executed v t payload tx_hash receipt e →
  run_with node (confirmations_ok checks (b_min_confirmations v) (er_block_number receipt)) = Some (Ok tt).
Proof.
  intros [_ _ _ _ (latest & latest_num & block & tx_num & Hl & Hln & Hb & Htn & Hle & Hd) _ _]. unfold confirmations_ok.
  rewrite (run_with_mtry _ _ _ latest) by (by apply evm_call_shows). rewrite Hln, Hb. cbn -[Prelude.plain]. rewrite Htn.
  cbn -[Prelude.plain]. apply parse_hex_uint_fits in Hln; [|done]. unfold fits in Hln.
  assert (Hs : saturating_sub U64 latest_num tx_num + 1 = latest_num - tx_num + 1).
  { unfold saturating_sub, clamp. cbn in *. lia. }
  rewrite Hs. assert (Prelude.plain checks U64 (latest_num - tx_num + 1) = Some (latest_num - tx_num + 1)) as ->.
  { apply plain_fits. unfold fits. cbn in *. lia. }
  cbn. by rewrite (proj2 (Z.ltb_ge _ _) Hd).
Qed.

(** The facts that a burn event says. *)
Definition facts_of (v : EvmRpcBurnVerifier) (tx_hash from : Str) (receipt : EthReceipt) (e : DepositForBurn) : VerifiedBurnFacts :=
  mkVerifiedBurnFacts tx_hash SEPOLIA_CHAIN_ID 0 (ev_destination_domain e) from (default 0 (chk U128 (ev_amount e)))
    (address_to_bytes32 (ev_burn_token e)) (ev_mint_recipient e) (ev_destination_caller e) (ev_min_finality_threshold e)
    (non_empty (ev_hook_data e)) (address_to_bytes32 (b_token_messenger v)) (er_block_number receipt).

Lemma executed_facts v t chain to data value tx_hash receipt e d :
  Executed v t (EvmTransaction chain to data value) tx_hash receipt e →
  b_probe_ok v = true → normalize_hash tx_hash = tx_hash →
  parse_address (trim to) = Some (b_token_messenger v) → decode_calldata data = Ok d →
  run_with node (EvmVerify.verify_burn checks v tx_hash) = Some (Ok (facts_of v tx_hash (sender t) receipt e)).
Proof.
  intros Hx Hv Hn Hto Hd. pose proof (confirmations_shown _ _ _ _ _ _ Hx) as Hconf.
  destruct Hx as [(text & Hc & Hct) (? & ? & ? & ? & a & [= <- <- <- <-] & Ha & Htx) Hr Hs _ He Hsame].
  rewrite Hto in Ha. injection Ha as <-. unfold EvmVerify.verify_burn. rewrite Hv, Hn. cbn [negb]. cbv zeta.
  rewrite (run_with_mtry _ _ _ tt) by done.
  rewrite (run_with_mtry _ _ _ _ (evm_call_shows _ _ _ Htx)), (run_with_mtry _ _ _ _ (evm_call_shows _ _ _ Hr)), Hs.
  cbn [et_from et_to et_input]. rewrite (run_with_mtry _ _ _ tt) by done. rewrite (run_with_mtry _ _ _ (sender t)) by done.
  rewrite (run_with_mtry _ _ _ (show_address (b_token_messenger v))) by done.
  rewrite (run_with_mtry _ _ _ tt) by (by rewrite bool_decide_eq_false_2 by naive_solver).
  rewrite (run_with_mtry _ _ _ data) by done. rewrite (run_with_mtry _ _ _ d) by (cbn; by rewrite Hd).
  rewrite (run_with_mtry _ _ _ _ (ensure_chain_shown _ Hc Hct)), (run_with_mtry _ _ _ _ Hconf), He.
  by rewrite (run_with_mtry _ _ _ tt) by (by rewrite (Hsame _ _ _ _ _ eq_refl Hd)).
Qed.

Lemma facts_match_intro e f :
  f_tx_hash e = f_tx_hash f → f_source_chain_id e = f_source_chain_id f → f_source_domain e = f_source_domain f →
  f_destination_domain e = f_destination_domain f → f_amount_cctp_subunits e = f_amount_cctp_subunits f →
  f_burn_token_bytes32 e = f_burn_token_bytes32 f → f_mint_recipient_bytes32 e = f_mint_recipient_bytes32 f →
  f_destination_caller_bytes32 e = f_destination_caller_bytes32 f →
  f_min_finality_threshold e = f_min_finality_threshold f → f_token_messenger_bytes32 e = f_token_messenger_bytes32 f →
  f_sender e = f_sender f → f_hook_data e = f_hook_data f → facts_match e f = Ok tt.
Proof.
  intros E1 E2 E3 E4 E5 E6 E7 E8 E9 E10 E11 E12. unfold facts_match.
  rewrite E1, E2, E3, E4, E5, E6, E7, E8, E9, E10, E11, E12, !Z.eqb_refl, !bool_decide_eq_false_2 by naive_solver. done.
Qed.

(** C13: What is prepared is accepted, once executed as nodes are expected to report it. Let
    the builder have prepared the burn (not the approval) of a transfer from Ethereum for
    the testnet's contracts and domain, and let the verifier be ready, for the testnet's
    messenger, and asked about a hash in normal form (lower case, with 0x). If the node
    then reports, within the client's size limits: Sepolia's chain number; under this
    hash the prepared input, sent to the messenger, with a sender that is the transfer's
    character by character; a successful receipt, deep enough, with exactly one burn event
    of the messenger, which says what the input says; then the verifier returns facts, and
    they match the facts that the transfer leads to expect, whenever these can be
    computed. The ABI codec is assumed to decode what it encodes. *)
Theorem prepared_evm_burn_accepted b t config bundle v tx_hash receipt e expected :
  returns asked (Evm.prepare_burn b t config) (Ok bundle) → burn_step bundle = BurnPrepareStep.Burn →
  contracts config = contracts default_testnet → stellar_domain config = STELLAR_TESTNET_DOMAIN →
  parse_address (trim SEPOLIA_TOKEN_MESSENGER) = Some (b_token_messenger v) → b_probe_ok v = true →
  normalize_hash tx_hash = tx_hash → Executed v t (burn_primary bundle) tx_hash receipt e →
  build_expected_burn_facts t (contracts config) tx_hash = Ok expected →
  ∃ facts, run_with node (EvmVerify.verify_burn checks v tx_hash) = Some (Ok facts) ∧ facts_match expected facts = Ok tt.
Proof.
  intros Hp Hs Hcon Hdom Hto Hv Hn Hx He. pose proof (direction_of_evm_burn _ _ _ _ Hp) as Hd.
  destruct (prepared_evm_burn _ _ _ _ Hp Hs) as (c & hook & Hb).
  rewrite (pe_payload _ _ _ _ _ Hb), Hcon in Hx. pose proof (decode_hook_call c hook) as Hdec.
  pose proof (ex_same _ _ _ _ _ _ Hx _ _ _ _ _ eq_refl Hdec) as Hm. apply calldata_matches in Hm as [Hc Hh].
  exists (facts_of v tx_hash (sender t) receipt e). split; [by eapply executed_facts|].
  destruct Hb as [_ Hamt Hbd Hf Hcal Htok _ Hfin Hhook]. cbn [dc_call dc_hook_data] in Hc, Hh.
  rewrite (hook_not_empty _ _ Hhook) in Hh. cbn in Hh. pose proof (hook_not_empty _ _ Hhook) as Hne.
  rewrite Hcon in *. cbn [contracts default_testnet stellar_cctp_forwarder sepolia_usdc] in Hf, Htok.
  unfold build_expected_burn_facts, build_corridor_expectations, amount_cctp_subunits in He. rewrite Hd in He. rinv.
  rewrite ?encoded_Ok in *. simplify_eq.
  cbn [bc_amount bc_destination_domain bc_mint_recipient bc_burn_token bc_destination_caller bc_min_finality] in *.
  apply facts_match_intro; cbn [facts_of f_tx_hash f_source_chain_id f_source_domain f_destination_domain f_amount_cctp_subunits
    f_burn_token_bytes32 f_mint_recipient_bytes32 f_destination_caller_bytes32 f_min_finality_threshold
    f_token_messenger_bytes32 f_sender f_hook_data e_burn_token e_mint_recipient e_destination_caller e_hook_data];
    try congruence; try (eapply address_bytes; eassumption); [done|].
  rewrite chk_fits by (by eapply subunits_fit). cbn. congruence.
Qed.

End EvmBuild.

(** ** Stellar *)

(** The crates read what they write; a strkey is written in one way, without blanks. *)
Class StellarOk {K : Strkey} (X : XdrLib) : Prop := {
  envelope_roundtrip e s : to_xdr_base64 e = Ok s → from_xdr_base64 s = Ok e;
  envelope_no_blanks e s : to_xdr_base64 e = Ok s → trim s = s;
  account_strkey s key : account_from_string s = Some key → account_to_string key = s;
  account_no_blanks s key : account_from_string s = Some key → trim s = s;
  contract_strkey_unique s hash : contract_from_string s = Some hash → contract_to_string hash = s;
}.

Lemma i128_roundtrip v : fits I128 v → scval_to_i128 (i128_scval v) = Ok v.
Proof.
  unfold fits. cbn [int_min int_max]. intros Hv. unfold i128_scval, scval_to_i128. f_equal.
  rewrite (wrap_id I64).
  2:{ unfold fits. cbn [int_min int_max]. rewrite Z.shiftr_div_pow2 by lia. split.
      - apply Z.div_le_lower_bound; lia.
      - apply Z.lt_succ_r, Z.div_lt_upper_bound; lia. }
  assert (wrap U64 v = v mod 2 ^ 64) as -> by (unfold wrap; cbn; by rewrite Z.sub_0_r, Z.add_0_r).
  apply Z.bits_inj'. intros n Hn. rewrite Z.lor_spec. destruct (Z.lt_ge_cases n 64).
  - by rewrite Z.shiftl_spec_low, Z.mod_pow2_bits_low by lia.
  - rewrite Z.shiftl_spec, Z.shiftr_spec, Z.mod_pow2_bits_high, orb_false_r by lia. f_equal. lia.
Qed.

Section StellarBuild.

Context {T : Time} {H : Hex} {HO : HexOk H} {K : Strkey} {D : Digest} {X : XdrLib} {SO : StellarOk X} {S : ScLib} {R : RpcJson}
  {J : PayloadJson} {B : BuildLib}.
Context (checks production : bool).
Context (asked : ∀ c : BuildCall, BuildReply c → Prop).

(** [s] is the envelope [xdr] with signatures. *)
Definition signed (xdr s : Str) : Prop :=
  ∃ tx sigs, to_xdr_base64 (EnvelopeTx tx []) = Ok xdr ∧ to_xdr_base64 (EnvelopeTx tx sigs) = Ok s.

(** The envelope is one call of a contract by [source]. *)
Definition invocation (xdr source contract function : Str) (args : list ScVal) : Prop :=
  ∃ tx key target auth, to_xdr_base64 (EnvelopeTx tx []) = Ok xdr ∧ account_from_string source = Some key ∧
    contract_from_string (trim contract) = Some target ∧ tx_source_account tx = Ed25519 key ∧
    tx_operations tx = [mkOperation None (InvokeHostFunction (InvokeContract (ScContract target) function args) auth)].

Lemma same_transaction tx tx' xdr :
  to_xdr_base64 (EnvelopeTx tx []) = Ok xdr → to_xdr_base64 (EnvelopeTx tx' []) = Ok xdr → tx = tx'.
Proof. intros H1%envelope_roundtrip H2%envelope_roundtrip. congruence. Qed.

Lemma invocation_parsed xdr s source contract function args :
  invocation xdr source contract function args → signed xdr s →
  ∃ target, parse_invoke_envelope s = Ok (mkParsedInvoke source source (trim contract) target function args).
Proof.
  intros (tx & key & target & auth & Hx & Hk & Ht & Hsrc & Hop) (tx' & sigs & Hx' & Hs).
  pose proof (same_transaction _ _ _ Hx Hx') as <-. exists target. unfold parse_invoke_envelope.
  rewrite (envelope_roundtrip _ _ Hs). cbn. rewrite Hop, Hsrc. cbn.
  by rewrite (account_strkey _ _ Hk), (contract_strkey_unique _ _ Ht).
Qed.

Lemma signed_payload_hash config xdr s :
  signed xdr s → payload_hash_from_envelope_xdr config s = payload_hash_from_envelope_xdr config xdr.
Proof.
  intros (tx & sigs & Hx & Hs). unfold payload_hash_from_envelope_xdr, unsigned_envelope_xdr.
  by rewrite (envelope_roundtrip _ _ Hs), (envelope_roundtrip _ _ Hx).
Qed.

Lemma assembled_invocation b source contract function args config t xdr :
  returns asked (Stellar.build_simulated_invoke production checks b source contract function args config t) (Ok xdr) →
  invocation xdr source contract function args.
Proof.
  unfold Stellar.build_simulated_invoke, Stellar.simulate_and_assemble_invoke, Stellar.assemble_simulated_envelope.
  intros Hr. pinv.
  match goal with Hb : build_unsigned_invoke_tx _ = Ok _ |- _ =>
    unfold build_unsigned_invoke_tx, contract_address, sc_symbol, bounded in Hb; rinv end.
  cbn [tx_operations head p_contract p_function p_args p_source] in *. simplify_eq. cbn [o_body] in Hr. pinv.
  do 4 eexists. split_and!; eauto.
Qed.

Lemma built_for_testnet b source contract function args config t xdr :
  returns asked (Stellar.build_simulated_invoke production checks b source contract function args config t) (Ok xdr) →
  passphrase_for_config config = STELLAR_TESTNET_PASSPHRASE.
Proof.
  unfold Stellar.build_simulated_invoke. intros Hr. apply returns_mtry in Hr as (? & Hc & _). cbn in Hc.
  unfold Stellar.ensure_testnet_config in Hc. rinv. by guards.
Qed.

(** *** Burns *)

(** The call that a transfer from Stellar asks for, with [n] the amount in millionths: ten
    units of the ledger each, cast to [i128]. *)
Record BurnInvokeOf (t : CctpTransfer) (config : CctpConfig) (n : Z) (c : DecodedBurnInvoke) : Prop := {
  bio_caller : di_caller c = sender t;
  bio_amount : di_local_amount c = wrap I128 (10 * n);
  bio_canonical : fits I128 (10 * n) → di_local_amount c = 10 * n ∧
    (0 < n → stellar_local_to_canonical_amount (di_local_amount c) = Ok n);
  bio_max_fee : ∃ fee m, max_fee t = Some fee ∧ decimal_to_cctp_subunits fee = Ok m ∧ di_local_max_fee c = wrap I128 (10 * m);
  bio_domain : di_destination_domain c = sepolia_domain config;
  bio_recipient : evm_address_to_bytes32 (recipient t) = Ok (di_mint_recipient c);
  bio_token : di_burn_token c = trim (stellar_usdc (contracts config));
  bio_destination_caller : di_destination_caller c = ANY_DESTINATION_CALLER;
  bio_finality : di_min_finality c = corridor_min_finality (finality t);
  bio_hook : di_hook_data c = [];
}.

Lemma burn_args_decoded t config n fee m recipient_bytes call_args target :
  account_from_string (sender t) = Some target → max_fee t = Some fee → decimal_to_cctp_subunits fee = Ok m →
  evm_address_to_bytes32 (recipient t) = Ok recipient_bytes →
  deposit_for_burn_args (sender t) (wrap I128 (10 * n)) (sepolia_domain config) recipient_bytes
    (stellar_usdc (contracts config)) (wrap I128 (10 * m)) (corridor_min_finality (finality t)) = Ok call_args →
  ∃ c, (∀ messenger hash, decode_burn_invoke (mkParsedInvoke (sender t) (sender t) messenger hash $"deposit_for_burn" call_args) = Ok c) ∧
    BurnInvokeOf t config n c.
Proof.
  intros Hk Hfee Hm Hr Ha. unfold deposit_for_burn_args, account_address, contract_address in Ha.
  rewrite (account_no_blanks _ _ Hk), Hk in Ha. cbn [ok_or try_] in Ha. rinv.
  pose proof Hr as Hl. apply evm_address_layout in Hl as (addr & _ & Hl & Hrb).
  eexists. split.
  - intros messenger hash. unfold decode_burn_invoke. cbn [function args]. cbn -[i128_scval scval_to_i128 scval_to_bytes32].
    rewrite !i128_roundtrip by apply (wrap_fits I128). cbn [try_].
    assert (scval_to_bytes32 (ScBytes recipient_bytes) = Ok recipient_bytes) as ->.
    { cbn. by rewrite Hrb, length_app, Hl. }
    reflexivity.
  - split; cbn -[wrap]; try done; [by apply account_strkey| |by exists fee, m|by apply contract_strkey_unique].
    intros Hn. rewrite wrap_id by done. split; [done|]. intros Hpos. by apply (proj1 (stellar_units_roundtrip (10 * n) n Hn)).
Qed.

(** C14: The burn that is prepared on Stellar is the transfer's. If the builder prepared
    the burn (and not first an approval) of a transfer of [n] millionths, then its
    envelope, with any signatures, is read as one call of the sender to the configured
    token messenger, and the call burns [10 n] units of the ledger, cast to [i128] and so
    exactly [10 n] where that is below 2^127, for the transfer's recipient, on Ethereum's
    domain, in the configured token, with the fee limit (ten units for each of its
    millionths, cast likewise) and the finality of the transfer, no hook and any caller.
    The decoders of envelopes and strkeys are assumed to read what they write. *)
Theorem prepared_stellar_burn_reads b t config bundle n :
  returns asked (Stellar.prepare_burn production checks b t config) (Ok bundle) → burn_step bundle = BurnPrepareStep.Burn →
  stellar_outbound_cctp_amount_strict (amount t) = Ok n →
  ∃ xdr, burn_primary bundle = StellarXdr STELLAR_TESTNET_PASSPHRASE xdr None ∧
    ∀ s, signed xdr s → ∃ invoke c, parse_invoke_envelope s = Ok invoke ∧
      contract_strkey invoke = trim (stellar_token_messenger (contracts config)) ∧ operation_source invoke = sender t ∧
      decode_burn_invoke invoke = Ok c ∧ BurnInvokeOf t config n c.
Proof.
  unfold Stellar.prepare_burn. intros Hr Hs Hn. pinv. case_match; pinv; [done|].
  match goal with Hb : returns _ (Stellar.build_simulated_invoke _ _ _ _ _ _ _ _ _) _ |- _ =>
    pose proof (built_for_testnet _ _ _ _ _ _ _ _ Hb) as Htest; apply assembled_invocation in Hb as Hi end.
  repeat match goal with Hu : cctp_subunits_to_stellar_subunits _ = Ok _ |- _ => apply ok_or_Ok, chk_Some in Hu as [-> _] end.
  match goal with Hm : stellar_outbound_cctp_amount_strict _ = Ok ?m |- _ => rewrite Hn in Hm; injection Hm as <- end.
  eexists. split; [cbn; by rewrite Htest|]. intros s Hsig. destruct (invocation_parsed _ _ _ _ _ _ Hi Hsig) as [target Hp].
  destruct Hi as (? & key & ? & ? & _ & Hk & _).
  edestruct (burn_args_decoded t config n) as (c & Hc & Ho); [done|done|done|done|rewrite !(Z.mul_comm 10); done|].
  do 2 eexists. split_and!; [exact Hp|done|done|apply Hc|done].
Qed.

(** The cast of the amount: a transfer of 2 * 10^37 millionths has an amount in units of
    the ledger, and as an [i128] it is negative. *)
Theorem large_burn_wraps :
  cctp_subunits_to_stellar_subunits (2 * 10 ^ 37) = Ok (2 * 10 ^ 38) ∧ wrap I128 (2 * 10 ^ 38) < 0.
Proof. split; [by vm_compute|]. by vm_compute. Qed.

(** *** Mints *)

(** C27: The mint that is prepared on Stellar is recognised when it is submitted. If the
    builder prepared the mint (and not first a trustline) of a transfer, then the transfer
    has a message, an attestation and a submitter, and the envelope, with any signatures,
    has the payload hash that the builder reports and is read as the submitter's call to
    the configured forwarder with exactly that message and attestation. The decoders of
    envelopes and strkeys are assumed to read what they write. *)
Theorem prepared_stellar_mint_binds b t config bundle :
  returns asked (Stellar.prepare_mint production checks b t config) (Ok bundle) → mint_step bundle = MintPrepareStep.Mint →
  ∃ xdr msg att submitter, mint_primary bundle = StellarXdr (passphrase_for_config config) xdr None ∧
    raw_message t = Some msg ∧ attestation t = Some att ∧ mint_submitter t = Some submitter ∧
    ∀ s, signed xdr s → payload_hash_from_envelope_xdr config s = Ok (bundle_payload_hash bundle) ∧
      ∃ invoke, parse_invoke_envelope s = Ok invoke ∧ operation_source invoke = submitter ∧
        contract_strkey invoke = trim (stellar_cctp_forwarder (contracts config)) ∧ decode_mint_invoke invoke = Ok (msg, att).
Proof.
  unfold Stellar.prepare_mint. intros Hr Hs. pinv. case_match; pinv; [done|].
  match goal with Hb : returns _ (Stellar.build_simulated_invoke _ _ _ _ _ _ _ _ _) _ |- _ => apply assembled_invocation in Hb as Hi end.
  match goal with Ha : mint_and_forward_args _ _ = Ok _ |- _ => unfold mint_and_forward_args, bounded in Ha; rinv end.
  do 4 eexists. split_and!; [done..|]. intros s Hsig. rewrite (signed_payload_hash _ _ _ Hsig). split; [done|].
  destruct (invocation_parsed _ _ _ _ _ _ Hi Hsig) as [target Hp]. eexists. by split_and!.
Qed.

(** The trustline that is prepared before a mint is recognised as one for USDC. *)
Theorem prepared_trustline_recognised source sequence passphrase base_fee timeout xdr tx_hash :
  returns asked (Stellar.build_unsigned_change_trust_xdr source sequence passphrase base_fee timeout) (Ok (xdr, tx_hash)) →
  Stellar.is_usdc_change_trust_envelope xdr = true.
Proof.
  unfold Stellar.build_unsigned_change_trust_xdr, Stellar.usdc_change_trust_asset, Stellar.decode_ed25519. intros Hr. pinv.
  match goal with Hl : try_ _ _ = Ok _ |- _ => apply try_Ok in Hl as (issuer & Hi%ok_or_Ok & [= <-]) end. simplify_eq.
  match goal with Hx : to_xdr_base64 _ = Ok _ |- _ =>
    unfold Stellar.is_usdc_change_trust_envelope; rewrite (envelope_no_blanks _ _ Hx), (envelope_roundtrip _ _ Hx) end.
  cbn [tx_operations o_body]. apply andb_true_iff; split; [apply andb_true_iff; split|]; [by vm_compute| |by vm_compute].
  apply bool_decide_eq_true. rewrite (account_strkey _ _ Hi). by vm_compute.
Qed.

(** *** What is not prepared *)

(** The fee is added without a check: in a build that wraps, the largest resource fee a
    node can answer gives a transaction that offers less than the base fee. *)
Theorem resource_fee_wraps node :
  run_with node (Stellar.compute_total_fee false DEFAULT_BASE_FEE (int_max U64)) = Some (Ok 99).
Proof. reflexivity. Qed.

(** A nonce in decimal digits, which the verifier of deliveries reads, is compared with
    the message's as hexadecimal text: no mint is prepared for it. *)
Theorem decimal_nonce_refused t config message p nonce :
  parse_cctp_v2_message message = Ok p → message_nonce t = Some nonce →
  length (Stellar.nonce_digits nonce) ≠ length (hex_encode (m_nonce p)) →
  Stellar.validate_mint_message t config message ≠ Ok tt.
Proof.
  intros Hp Hn Hl Hv. unfold Stellar.validate_mint_message in Hv. rewrite Hp, Hn in Hv. cbn [map_err] in Hv. rinv. guards.
  match goal with He : eq_ignore_ascii_case _ _ = true |- _ =>
    apply bool_decide_eq_true, (f_equal length) in He; unfold to_ascii_lowercase in He; rewrite !length_fmap in He end.
  by apply Hl.
Qed.

End StellarBuild.


(** ** Deadlines

    A quote is good for minutes and its deadline is never moved. *)

Section Deadlines.

Context {T : Time} {H : Hex} {K : Strkey} {D : Digest} {X : XdrLib} {J : PayloadJson} {L : Libs}.
Context (config : CctpConfig) (production : bool) (told : ∀ c : Call, Reply c → Prop).

(** The store holds the transfer, and the time of its quote is over. *)
Definition overdue (id : Uuid) (t : CctpTransfer) : Prop :=
  (∀ r, told (CGet id) r → r = Ok (Some t)) ∧ (∀ now, told (CExternal Now) now → dt_lt (quote_expires_at t) now = true).

Lemma overdue_get id t r : overdue id t → returns told (get_transfer id) r → r = Ok t.
Proof.
  intros [Hget _] Hr. unfold get_transfer in Hr. apply returns_try in Hr as (x & Hx & Hr). unfold awaited in Hx. pinv.
  match goal with Hg : told (CGet id) _ |- _ => apply Hget in Hg; subst end. by simplify_eq/=.
Qed.

Lemma overdue_refused id t r : overdue id t → returns told (ensure_quote_not_expired t) r → r = Err CctpServiceError.QuoteExpired.
Proof. intros [_ Hlate] Hr. unfold ensure_quote_not_expired, ask in Hr. pinv. rewrite Hlate in Hr; done. Qed.

(** The deadline of the quote also bounds what follows the burn. When the store holds the
    transfer and the clock is past its deadline, the submission of a prepared burn is
    refused as expired, even if the burn happened in time, and so is the preparation of a
    mint, even if the burn was recorded and attested. (The submission of a mint that was
    prepared in time, and polling, look at no deadline.) *)
Theorem late_requests_refused id t :
  overdue id t →
  (∀ tx_hash r, status t = CctpTransferStatus.BurnPrepared → returns told (record_burn_submission config id tx_hash) r →
     r = Err CctpServiceError.QuoteExpired) ∧
  (∀ r, enabled config = true → is_configured production config = true →
     status t ∈ [CctpTransferStatus.AttestationReady; CctpTransferStatus.MintPrepared; CctpTransferStatus.MintFailedRetryable] →
     returns told (prepare_mint config production id) r → r = Err CctpServiceError.QuoteExpired).
Proof.
  intros Hlate. split.
  - intros tx_hash r Hs Hr. unfold record_burn_submission in Hr. apply returns_try in Hr as (x & Hx & Hr).
    apply (overdue_get _ _ _ Hlate) in Hx as ->. rewrite Hs, bool_decide_eq_false_2 in Hr by naive_solver. cbn [refuse] in Hr.
    apply returns_try in Hr as (x & Hx & Hr). cbn in Hx. subst x. apply returns_try in Hr as (x & Hx & Hr).
    by apply (overdue_refused _ _ _ Hlate) in Hx as ->.
  - intros r He Hc Hs Hr. unfold prepare_mint in Hr. rewrite He, Hc in Hr. cbn [negb orb refuse] in Hr.
    apply returns_try in Hr as (x & Hx & Hr). cbn in Hx. subst x. apply returns_try in Hr as (x & Hx & Hr).
    apply (overdue_get _ _ _ Hlate) in Hx as ->. apply returns_try in Hr as (x & Hx & Hr).
    assert (x = Ok tt) as ->. { revert Hx. apply list_elem_of_In in Hs as [<-|[<-|[<-|[]]]]; done. }
    apply returns_try in Hr as (x & Hq & Hr). by apply (overdue_refused _ _ _ Hlate) in Hq as ->.
Qed.

End Deadlines.

(** ** A concrete deployment

    The input of a burn is its selector and the bits of its number; the clock stands at
    zero. *)

#[local] Existing Instance seconds.
#[local] Existing Instance pairs.
#[local] Existing Instance pairs_ok.
#[local] Existing Instance toy_strkey.
#[local] Existing Instance chain_digest.
#[local] Existing Instance chain_payload.
#[local] Existing Instance toy_libs.
Local Open Scope record_scope.

Fixpoint bits (p : positive) : list Z :=
  match p with
  | xH => []
  | xO p => 0 :: bits p
  | xI p => 1 :: bits p
  end.

Fixpoint of_bits (l : list Z) : positive :=
  match l with
  | [] => xH
  | b :: l => if b =? 0 then xO (of_bits l) else xI (of_bits l)
  end.

Lemma of_bits_bits p : of_bits (bits p) = p.
Proof. induction p as [p IH|p IH|]; cbn; by rewrite ?IH. Qed.

Lemma bits_bytes p : Forall is_byte (bits p).
Proof. induction p; cbn; constructor; (done || by unfold is_byte). Qed.

(** The arguments of a burn with a hook as rows of numbers. *)
Definition rows (a : BurnCall * list Z) : list (list Z) :=
  let c := a.1 in
  [[bc_amount c; bc_destination_domain c; bc_max_fee c; bc_min_finality c]; bc_mint_recipient c; bc_burn_token c;
   bc_destination_caller c; a.2].

Definition of_rows (l : list (list Z)) : option (BurnCall * list Z) :=
  match l with
  | [[amount; domain; fee; finality]; recipient; token; caller; hook] =>
      Some (mkBurnCall amount domain recipient token caller fee finality, hook)
  | _ => None
  end.

#[local] Instance bit_abi : EvmAbi := {|
  abi_encode := λ f,
    match f return AbiArgs f → list Z with
    | FDepositForBurnWithHook => λ a : BurnCall * list Z, DEPOSIT_FOR_BURN_WITH_HOOK_SELECTOR ++ bits (encode (rows a))
    | _ => λ _, []
    end;
  abi_decode := λ f bytes,
    match f return Result (AbiArgs f) Str with
    | FDepositForBurnWithHook => ok_or (decode (of_bits (drop 4 bytes)) ≫= of_rows) $"unreadable"
    | _ => Err $"unknown"
    end;
  decode_deposit_log := λ _ _, Some evm_event;
  decode_received_log := λ _ _, None;
  parse_address := λ s, hex_decode (drop 2 s);
  parse_b256 := λ s, Some s;
  parse_bytes := λ s, Some s;
  u256_from_be_slice := λ bytes, Some (be_value bytes);
|}.

#[local] Instance bit_abi_ok : AbiOk bit_abi.
Proof.
  split; [|by intros; repeat constructor; try apply bits_bytes|done|done].
  intros [[] hook]. cbn -[DEPOSIT_FOR_BURN_WITH_HOOK_SELECTOR rows]. change (drop 4 (_ ++ ?l)) with l.
  by rewrite of_bits_bits, countable.decode_encode.
Qed.

#[local] Instance plain_lib : BuildLib := {|
  timestamp := λ t, t;
  read_balances := λ _, Ok [mkHorizonBalance $"credit_alphanum4" (Some Stellar.CIRCLE_TESTNET_USDC_CODE)
                              (Some Stellar.CIRCLE_TESTNET_USDC_ISSUER)];
  read_sequence := λ _, Ok $"5";
  read_simulation := λ _, Ok (mkRpcResponse (Some (mkSimPayload (Some $"data") (Some $"1000")
                                (Some [mkSimResultItem None None]) false None)) None);
  auth_from_xdr_base64 := λ _, Err $"unknown";
  soroban_data_from_xdr_base64 := λ _, Ok [1];
|}.

Definition quoted (t : CctpTransfer) : CctpTransfer := t <| max_fee := Some $"0" |>.

(** The servers answer every builder. *)
Definition build_answer (c : BuildCall) : BuildReply c :=
  match c return BuildReply c with
  | Node c => chain_node c
  | UtcNow => 0
  | HttpGet _ => Ok (mkHttpResponse 200 $"200 OK" (Ok $"account"))
  end.

Local Abbreviation build_asked := (λ c r, r = build_answer c).

(** *** Ethereum *)

Definition evm_builder : Evm.ProductionEvmCctpBuilder :=
  Evm.mkProductionEvmCctpBuilder $"https://sepolia.example" (Evm.FixedEvmAllowanceChecker true) true.

#[local] Instance no_json : RpcJson := {| request_len := λ _, 100; read_response := λ _ _, Err $"unknown" |}.

Definition no_burn : PreparedBurnBundle :=
  mkPreparedBurnBundle BurnPrepareStep.Approval true (StellarXdr [] [] None) [] [] 0 None.

Definition evm_bundle : PreparedBurnBundle :=
  match run_with build_answer (Evm.prepare_burn evm_builder (quoted from_evm) toy_config) with
  | Some (Ok bundle) => bundle
  | _ => no_burn
  end.

Definition evm_input : Str :=
  match burn_primary evm_bundle with
  | EvmTransaction _ _ data _ => data
  | StellarXdr _ _ _ => []
  end.

(** The node of Ethereum shows the burn that was prepared. *)
Definition evm_receipt : EthReceipt :=
  mkEthReceipt (Some $"0x1") (Some [mkEthLog (show_address messenger) [$"topic"] $"data"]) (Some $"0x10").

#[local] Instance sepolia_json : RpcJson := {|
  request_len := λ _, 100;
  read_response := λ s text,
    Ok (mkRpcResponse (match s return option (Payload s) with
        | STransaction => Some (mkEthTransaction (Some SEPOLIA_USDC) (Some (show_address messenger)) (Some evm_input))
        | SReceipt => Some evm_receipt
        | SString => Some text
        | _ => None
        end) None);
|}.

(** What the node answers within the limits. *)
Lemma chain_shows s r p text :
  chain_node (Post r) = Ok text → (str_len text <=? MAX_JSON_BODY_BYTES) = true →
  read_response s text = Ok (mkRpcResponse (Some p) None) → node_shows chain_node s r p.
Proof. intros Hn Hl%Z.leb_le Hr. exists text, (mkRpcResponse (Some p) None). by split_and!. Qed.

Lemma evm_executed :
  Executed chain_node chain_evm_burn (quoted from_evm) (burn_primary evm_bundle) $"0xaa" evm_receipt evm_event.
Proof.
  split.
  - exists $"0xaa36a7". split; [by eapply chain_shows|by vm_compute].
  - exists SEPOLIA_CHAIN_ID, SEPOLIA_TOKEN_MESSENGER, evm_input, $"0", messenger. split_and!; [by vm_compute..|].
    by eapply chain_shows.
  - by eapply chain_shows.
  - done.
  - exists $"0x20", 32, $"0x10", 16. split_and!; [by eapply chain_shows|by vm_compute..].
  - by vm_compute.
  - intros chain to data value d Hp Hd. assert (data = evm_input) as ->.
    { unfold evm_input. by rewrite Hp. }
    revert Hd. assert (decode_calldata evm_input = Ok (mkDecodedBurnCall evm_call_data (Some (ev_hook_data evm_event)))) as ->
      by (by vm_compute).
    intros [= <-]. by vm_compute.
Qed.

Lemma prepared_evm_burn_accepted_witness :
  bc_amount evm_call_data = 12500000 ∧
  ∃ facts, run_with chain_node (EvmVerify.verify_burn true chain_evm_burn $"0xaa") = Some (Ok facts) ∧
    facts_match (burn_of (quoted from_evm) $"0xaa") facts = Ok tt.
Proof.
  split; [by vm_compute|].
  apply (prepared_evm_burn_accepted true build_asked chain_node evm_builder (quoted from_evm) toy_config evm_bundle chain_evm_burn
           $"0xaa" evm_receipt evm_event).
  - apply run_with_returns. by vm_compute.
  - by vm_compute.
  - reflexivity.
  - reflexivity.
  - by vm_compute.
  - reflexivity.
  - by vm_compute.
  - exact evm_executed.
  - by vm_compute.
Defined.

(** *** Stellar *)

(** A table read in both directions. *)
Lemma table_roundtrip {A B} `{EqDecision A, EqDecision B} (l : list (A * B)) a b :
  NoDup l.*2 → snd <$> find (λ row, bool_decide (row.1 = a)) l = Some b →
  fst <$> find (λ row, bool_decide (row.2 = b)) l = Some a.
Proof.
  induction l as [|[a' b'] l IH]; cbn; [done|]. intros [Hn Hd]%list.NoDup_cons. case_bool_decide as Ha; cbn.
  - intros [= <-]. subst. by rewrite bool_decide_eq_true_2.
  - intros Hf. rewrite bool_decide_eq_false_2; [by apply IH|]. intros ->. apply Hn.
    destruct (find _ l) as [[x y]|] eqn:E; [|done]. injection Hf as ->. apply find_some in E as [Hi _].
    apply list_elem_of_fmap. exists (x, b). split; [done|by apply list_elem_of_In].
Qed.

(** Each contract of the testnet has its own key. *)
Definition contract_table : list (Str * list Z) :=
  [(STELLAR_TOKEN_MESSENGER, replicate 32 3); (STELLAR_MESSAGE_TRANSMITTER, replicate 32 4);
   (STELLAR_CCTP_FORWARDER, replicate 32 5); (STELLAR_USDC_CONTRACT, replicate 32 6)].

#[local] Instance table_strkey : Strkey := {|
  account_from_string := λ s, if bool_decide (s = $"G") then Some (replicate 32 1) else None;
  account_to_string := λ _, $"G";
  muxed_from_string := λ _, None;
  muxed_to_string := λ _, $"M";
  contract_from_string := λ s, snd <$> find (λ row, bool_decide (row.1 = s)) contract_table;
  contract_to_string := λ hash, default [] (fst <$> find (λ row, bool_decide (row.2 = hash)) contract_table);
|}.

#[local] Existing Instance chain_json.
#[local] Existing Instance chain_sc.

Definition ok_list {A E} (r : Result (list A) E) : list A :=
  match r with
  | Ok l => l
  | Err _ => []
  end.

(** The message of the transfer from Ethereum and its call; the call of the other burn. *)
Definition minted_message : list Z :=
  match build_corridor_expectations from_evm chain_contracts with
  | Ok e => build_synthetic_cctp_message e
  | Err _ => []
  end.

Definition mint_call : list ScVal := ok_list (mint_and_forward_args minted_message [1; 2]).

Definition burn_call : list ScVal :=
  ok_list (deposit_for_burn_args $"G" 125000000 SEPOLIA_DOMAIN (ok_list (evm_address_to_bytes32 SEPOLIA_USDC))
             STELLAR_USDC_CONTRACT 0 FINALITY_STANDARD).

(** The transactions that the builder makes for a call: its template, and with the
    resources of the simulation. *)
Definition template (contract function : Str) (call_args : list ScVal) : Transaction :=
  unwrap_or (mkTransaction (Ed25519 []) 0 0 (CondTime 0 0) MemoNone [] ExtV0)
    (build_unsigned_invoke_tx
       (mkInvokeTxParams $"G" contract function call_args 6 DEFAULT_BASE_FEE (0, 1000) (100, 1300))).

Definition assembled (tx : Transaction) : Transaction :=
  mkTransaction (tx_source_account tx) 1100 (tx_seq_num tx) (tx_cond tx) (tx_memo tx) (tx_operations tx) (OtherExt [1]).

Definition signature_of_g : DecoratedSignature := mkDecoratedSignature [1] [2].

Definition burn_template : Transaction := template STELLAR_TOKEN_MESSENGER $"deposit_for_burn" burn_call.
Definition mint_template : Transaction := template STELLAR_CCTP_FORWARDER $"mint_and_forward" mint_call.

Definition envelope_table : list (TransactionEnvelope * Str) :=
  [(EnvelopeTx burn_template [], $"b0"); (EnvelopeTx (assembled burn_template) [], $"b1");
   (EnvelopeTx (assembled burn_template) [signature_of_g], $"b2"); (EnvelopeTx mint_template [], $"m0");
   (EnvelopeTx (assembled mint_template) [], $"m1"); (EnvelopeTx (assembled mint_template) [signature_of_g], $"m2")].

#[local] Instance table_xdr : XdrLib := {|
  signature_payload := λ _ tx, Ok (replicate 32 (tx_seq_num tx));
  to_xdr_base64 := λ e, ok_or (snd <$> find (λ row, bool_decide (row.1 = e)) envelope_table) $"unknown";
  from_xdr_base64 := λ s, ok_or (fst <$> find (λ row, bool_decide (row.2 = s)) envelope_table) $"unknown";
  valid_key := λ _, false;
  ed25519_verify := λ _ _ _, false;
  base64_valid := λ _, false;
|}.

#[local] Instance table_ok : StellarOk table_xdr.
Proof.
  split.
  - intros e s He%ok_or_Ok%table_roundtrip; [|by apply (bool_decide_unpack _); vm_compute]. cbn [from_xdr_base64 table_xdr]. by rewrite He.
  - intros e s He%ok_or_Ok. destruct (find _ _) as [[e' s']|] eqn:E; [|done]. injection He as <-.
    apply find_some in E as [Hi _]. assert (Forall (λ s, trim s = s) envelope_table.*2) as Hall by (by repeat constructor).
    rewrite Forall_forall in Hall. exact (Hall _ (in_map snd _ _ Hi)).
  - intros s key. cbn. by case_bool_decide.
  - intros s key. cbn. case_bool_decide; [by subst|done].
  - intros s hash Hs%table_roundtrip; [|by apply (bool_decide_unpack _); vm_compute]. cbn [contract_to_string table_strkey].
    by rewrite Hs.
Qed.

Definition stellar_builder : Stellar.ProductionStellarCctpBuilder :=
  Stellar.mkProductionStellarCctpBuilder [Stellar.HORIZON_TESTNET] chain_client (Stellar.FixedAllowanceChecker true)
    [Stellar.HORIZON_TESTNET] true DEFAULT_BASE_FEE.

Definition stellar_burn : CctpTransfer := quoted from_stellar.

Definition stellar_bundle : PreparedBurnBundle :=
  match run_with build_answer (Stellar.prepare_burn true true stellar_builder stellar_burn toy_config) with
  | Some (Ok bundle) => bundle
  | _ => no_burn
  end.

Lemma prepared_stellar_burn_reads_witness :
  burn_primary stellar_bundle = StellarXdr STELLAR_TESTNET_PASSPHRASE $"b1" None ∧
  ∃ invoke c, parse_invoke_envelope $"b2" = Ok invoke ∧ contract_strkey invoke = STELLAR_TOKEN_MESSENGER ∧
    operation_source invoke = $"G" ∧ decode_burn_invoke invoke = Ok c ∧ BurnInvokeOf stellar_burn toy_config 12500000 c.
Proof.
  assert (Hb : burn_primary stellar_bundle = StellarXdr STELLAR_TESTNET_PASSPHRASE $"b1" None) by (by vm_compute).
  split; [exact Hb|].
  destruct (prepared_stellar_burn_reads true true build_asked stellar_builder stellar_burn toy_config stellar_bundle 12500000)
    as (xdr & Hx & Hall).
  - apply run_with_returns. by vm_compute.
  - by vm_compute.
  - by vm_compute.
  - rewrite Hb in Hx. injection Hx as <-. apply Hall. exists (assembled burn_template), [signature_of_g]. by split; vm_compute.
Defined.

Definition stellar_mint : CctpTransfer :=
  from_evm <| raw_message := Some minted_message |> <| attestation := Some [1; 2] |> <| mint_submitter := Some $"G" |>
    <| message_nonce := Some ($"0x" ++ concat (replicate 32 $"00")) |>.

Definition mint_bundle : PreparedMintBundle :=
  match run_with build_answer (Stellar.prepare_mint true true stellar_builder stellar_mint toy_config) with
  | Some (Ok bundle) => bundle
  | _ => mkPreparedMintBundle MintPrepareStep.Trustline true (StellarXdr [] [] None) 0 []
  end.

Lemma prepared_stellar_mint_binds_witness :
  mint_primary mint_bundle = StellarXdr STELLAR_TESTNET_PASSPHRASE $"m1" None ∧
  payload_hash_from_envelope_xdr toy_config $"m2" = Ok (bundle_payload_hash mint_bundle) ∧
  ∃ invoke, parse_invoke_envelope $"m2" = Ok invoke ∧ operation_source invoke = $"G" ∧
    contract_strkey invoke = STELLAR_CCTP_FORWARDER ∧ decode_mint_invoke invoke = Ok (minted_message, [1; 2]).
Proof.
  assert (Hb : mint_primary mint_bundle = StellarXdr STELLAR_TESTNET_PASSPHRASE $"m1" None) by (by vm_compute).
  split; [exact Hb|].
  destruct (prepared_stellar_mint_binds true true build_asked stellar_builder stellar_mint toy_config mint_bundle)
    as (xdr & msg & att & submitter & Hx & Hm & Ha & Hs & Hall).
  - apply run_with_returns. by vm_compute.
  - by vm_compute.
  - rewrite Hb in Hx. injection Hx as <-. change (Some minted_message = Some msg) in Hm.
    apply (inj Some) in Hm as <-. apply (inj Some) in Ha as <-. apply (inj Some) in Hs as <-.
    apply Hall. exists (assembled mint_template), [signature_of_g]. by split; vm_compute.
Defined.

(** *** Deadlines *)

(** The store holds a transfer whose quote expired at 1000; it is 2000. *)
Definition late_transfer : CctpTransfer := from_evm <| status := CctpTransferStatus.AttestationReady |>.

Definition late_told (c : Call) : Reply c → Prop :=
  match c return Reply c → Prop with
  | CGet _ => λ r, r = Ok (Some late_transfer)
  | CExternal e =>
      match e return Answer e → Prop with
      | Now => λ now : Z, now = 2000
      | _ => λ _, False
      end
  | _ => λ _, False
  end.

Lemma late_requests_refused_witness :
  returns late_told (prepare_mint toy_config true 1) (Err CctpServiceError.QuoteExpired) ∧
  ¬ returns late_told (prepare_mint toy_config true 1) (Err CctpServiceError.InvalidState).
Proof.
  split; [by exists (Ok (Some late_transfer)); split; [|exists 2000]|]. intros Hr.
  destruct (late_requests_refused toy_config true late_told 1 late_transfer) as [_ Hlate].
  - split; [by intros r0 ->|by intros now ->].
  - assert (Hin : status late_transfer ∈ [CctpTransferStatus.AttestationReady; CctpTransferStatus.MintPrepared;
      CctpTransferStatus.MintFailedRetryable]) by (by apply list_elem_of_In; left).
    assert (Hc : is_configured true toy_config = true) by (by vm_compute). discriminate (Hlate _ eq_refl Hc Hin Hr).
Defined.
