(* ===== verification/Broadcast.v ===== *)
(** * Broadcasting transactions (api: broadcast/mod.rs)

    The errors of a broadcast, the reading of Horizon's result codes, and the two
    operations of the Horizon client, given what each configured server answers. *)

From stdpp Require Import base decidable strings numbers list.
From S2P Require Import Prelude RustStr Result.

Local Open Scope Z_scope.
Local Open Scope str_scope.

Record BroadcastResult := mkBroadcastResult {
  b_tx_hash : Str;
  b_status : Str;
  b_ledger : option Z;
}.

Module BroadcastError.

Inductive BroadcastError :=
| Validation (s : Str)
| Timeout
| TransientRpc (s : Str)
| InsufficientFee
| InsufficientBalance
| SlippageExceeded
| BadSignature
| BadSequence
| Malformed
| Permanent (s : Str).

End BroadcastError.

Abbreviation BroadcastError := BroadcastError.BroadcastError (only parsing).

Definition is_transient_transport (e : BroadcastError) : bool :=
  match e with
  | BroadcastError.Timeout | BroadcastError.TransientRpc _ => true
  | _ => false
  end.

Definition requires_fresh_prepare (e : BroadcastError) : bool :=
  match e with
  | BroadcastError.BadSequence | BroadcastError.BadSignature | BroadcastError.Malformed
  | BroadcastError.SlippageExceeded | BroadcastError.InsufficientFee | BroadcastError.InsufficientBalance
  | BroadcastError.Permanent _ | BroadcastError.Validation _ => true
  | _ => false
  end.

(** The first operation code that means something. *)
Fixpoint map_op_codes (ops : list Str) : option BroadcastError :=
  match ops with
  | [] => None
  | c :: rest =>
      if contains_str $"under_dest_min" c then Some BroadcastError.SlippageExceeded
      else if contains_str $"underfunded" c then Some BroadcastError.InsufficientBalance
      else if contains_str $"malformed" c then Some BroadcastError.Malformed
      else if starts_with $"op_" c then Some (BroadcastError.Permanent c)
      else map_op_codes rest
  end.

(** The transaction code alone, where it decides. *)
Definition map_tx_code (code : Str) : option BroadcastError :=
  if bool_decide (code = $"tx_insufficient_fee") then Some BroadcastError.InsufficientFee
  else if bool_decide (code = $"tx_bad_auth") || bool_decide (code = $"tx_bad_auth_extra") then
    Some BroadcastError.BadSignature
  else if bool_decide (code = $"tx_bad_seq") then Some BroadcastError.BadSequence
  else if bool_decide (code = $"tx_malformed") then Some BroadcastError.Malformed
  else if bool_decide (code = $"tx_too_late") || bool_decide (code = $"tx_insufficient_balance") then
    Some (BroadcastError.Permanent code)
  else None.

Definition map_horizon_result_codes (tx_code : option Str) (op_codes : option (list Str)) : option BroadcastError :=
  match tx_code ≫= map_tx_code with
  | Some e => Some e
  | None =>
      match op_codes ≫= map_op_codes with
      | Some e => Some e
      | None =>
          if bool_decide (tx_code = Some $"tx_failed") then Some (BroadcastError.Permanent $"tx_failed") else None
      end
  end.

(** ** The Horizon client *)

Record HorizonTxResponse := mkHorizonTxResponse {
  hr_hash : Str;
  hr_successful : option bool;
  hr_ledger : option Z;
}.

Record HorizonErrorBody := mkHorizonErrorBody {
  he_detail : option Str;
  he_title : option Str;
  he_result_codes : option (option Str * option (list Str));
}.

(** What one server answers: nothing, or a status with a body that does or does not
    parse. [HttpOk] is a successful status; the [shown] status is its text. *)
Inductive HttpReply :=
| NoReply (timeout : bool) (error : Str)
| HttpOk (body : Result HorizonTxResponse Str)
| HttpStatus (code : Z) (shown text : Str) (body : option HorizonErrorBody).

Definition to_result (r : HorizonTxResponse) : BroadcastResult :=
  mkBroadcastResult (hr_hash r)
    (if bool_decide (hr_successful r = Some true) then $"success" else $"pending") (hr_ledger r).

Definition is_server_error (code : Z) : bool := (500 <=? code) && (code <? 600).

(** The reply of a server to a submission: [inl] ends the loop, [inr] is the last error
    so far. *)
Definition submit_reply (reply : HttpReply) : Result BroadcastResult BroadcastError + BroadcastError :=
  match reply with
  | NoReply timeout error =>
      inr (if timeout then BroadcastError.Timeout else BroadcastError.TransientRpc error)
  | HttpOk (Ok parsed) => inl (Ok (to_result parsed))
  | HttpOk (Err e) => inl (Err (BroadcastError.TransientRpc ($"invalid horizon response: " ++ e)))
  | HttpStatus code shown text (Some body) =>
      match (he_result_codes body ≫= λ c, map_horizon_result_codes c.1 c.2) with
      | Some mapped => inl (Err mapped)
      | None =>
          let msg := match he_detail body with
                     | Some d => d
                     | None => default ($"HTTP " ++ shown) (he_title body)
                     end in
          if is_server_error code then inr (BroadcastError.TransientRpc msg)
          else inl (Err (BroadcastError.Permanent msg))
      end
  | HttpStatus code shown text None =>
      if is_server_error code then inr (BroadcastError.TransientRpc ($"HTTP " ++ shown ++ $": " ++ text))
      else inl (Err (BroadcastError.Permanent ($"HTTP " ++ shown ++ $": " ++ text)))
  end.

(** The loop over the servers: the first reply that ends it, or the last error. *)
Fixpoint try_servers {A} (f : HttpReply → Result A BroadcastError + BroadcastError) (last : BroadcastError)
    (replies : list HttpReply) : Result A BroadcastError :=
  match replies with
  | [] => Err last
  | r :: rest =>
      match f r with
      | inl result => result
      | inr e => try_servers f e rest
      end
  end.

Definition horizon_submit (signed_xdr : Str) (replies : list HttpReply) : Result BroadcastResult BroadcastError :=
  if bool_decide (trim signed_xdr = []) then Err (BroadcastError.Validation $"signed_xdr must be non-empty")
  else try_servers submit_reply (BroadcastError.TransientRpc $"no horizon URLs configured") replies.

Definition lookup_reply (reply : HttpReply) : Result (option BroadcastResult) BroadcastError + BroadcastError :=
  match reply with
  | NoReply timeout error =>
      inr (if timeout then BroadcastError.Timeout else BroadcastError.TransientRpc error)
  | HttpOk (Ok parsed) => inl (Ok (Some (to_result parsed)))
  | HttpOk (Err e) => inl (Err (BroadcastError.TransientRpc e))
  | HttpStatus code shown _ _ =>
      if code =? 404 then inl (Ok None)
      else if is_server_error code then inr (BroadcastError.TransientRpc ($"HTTP " ++ shown))
      else inl (Err (BroadcastError.Permanent ($"lookup HTTP " ++ shown)))
  end.

Definition horizon_lookup (replies : list HttpReply) : Result (option BroadcastResult) BroadcastError :=
  try_servers lookup_reply (BroadcastError.TransientRpc $"no horizon URLs") replies.

(** ** Properties of the client *)

(** A transaction that the network included and that failed is reported as pending. *)
Example failed_reported_pending : ∀ hash ledger,
  horizon_lookup [HttpOk (Ok (mkHorizonTxResponse hash (Some false) ledger))] =
  Ok (Some (mkBroadcastResult hash $"pending" ledger)).
Proof. reflexivity. Qed.
