(* ===== verification/SwapFlow.v ===== *)
(** * Preparing and submitting swaps (api: routes/swap.rs)

    The two handlers as programs: one call at a time to the store of prepared quotes or
    to the outside (clock, random identifiers, kill switches, quote pipeline, account
    sequences, the broadcaster of transactions). Metrics and audit records are left out. *)

From stdpp Require Import base decidable strings numbers list gmap.
From S2P Require Import Xdr Health.
From S2P Require Import Prelude RustStr Result F64 ApiErrors Tasks CctpMessage CctpEncoding CctpStore.
From S2P Require Import SwapRoute SwapTx Broadcast.

Local Open Scope Z_scope.
Local Open Scope str_scope.
Local Open Scope prog_scope.

(** [DateTime::timestamp] and [timestamp_millis]. *)
Class Calendar {T : Time} := {
  timestamp : DateTime → Z;
  timestamp_millis : DateTime → Z;
}.

(** ** Calls *)

Section Calls.

Context {T : Time}.

Inductive External :=
| Now
| NewQuoteId
| GetOverrideRegistry
| QuoteForPair (send dest : AssetPath) (amount : Str)
| CurrentSequence (account : Str)
| Submit (signed_xdr : Str)
| Lookup (hash : Str).

Definition Answer (e : External) : Type :=
  match e with
  | Now => DateTime
  | NewQuoteId => Str
  | GetOverrideRegistry => OverrideRegistry
  | QuoteForPair _ _ _ => Result LiveQuote ApiError
  | CurrentSequence _ => Result Z TxBuildError
  | Submit _ => Result BroadcastResult BroadcastError
  | Lookup _ => Result (option BroadcastResult) BroadcastError
  end.

Inductive Call :=
| CExpire (sender : Str)
| CInsert (quote : PreparedSwapQuote)
| CGet (id : Str)
| CClaim (id hash : Str)
| CFinalize (id hash : Str)
| CMarkFailed (id : Str)
| CExternal (e : External).

Definition Reply (c : Call) : Type :=
  match c with
  | CExpire _ => Result Z SwapStoreError
  | CInsert _ => Result unit SwapStoreError
  | CGet _ => Result (option PreparedSwapQuote) SwapStoreError
  | CClaim _ _ => Result ClaimSubmitOutcome SwapStoreError
  | CFinalize _ _ | CMarkFailed _ => Result unit SwapStoreError
  | CExternal e => Answer e
  end.

Record Oracle := mkOracle {
  o_now : DateTime;
  o_answer : ∀ e, Answer e;
}.

Definition exec (o : Oracle) (c : Call) (quotes : Quotes) : option (Reply c * Quotes) :=
  match c with
  | CExpire sender => Some (expire_stale_for_sender (o_now o) sender quotes)
  | CInsert quote => Some (insert_prepared (o_now o) quote quotes)
  | CGet id => Some (get id quotes, quotes)
  | CClaim id hash => Some (claim_for_submit id hash quotes)
  | CFinalize id hash => Some (finalize_submit id hash quotes)
  | CMarkFailed id => Some (mark_failed id quotes)
  | CExternal e => Some (o_answer o e, quotes)
  end.

Definition ask (e : External) : Prog Reply (Answer e) := call (CExternal e).

End Calls.

(** ** Requests and responses *)

Record SwapPrepareRequest := mkSwapPrepareRequest {
  r_route : RouteDryRunPath;
  r_amount : Str;
  r_sender : Str;
  r_min_output : option Str;
  r_slippage_bps : option Z;
}.

Record SwapPrepareResponse := mkSwapPrepareResponse {
  resp_quote_id : Str;
  resp_xdr_envelope : Str;
  resp_expected_output : Str;
  resp_min_output : option Str;
  resp_expires_at : Z;
  resp_execution_mode : Str;
  resp_network_passphrase : Str;
}.

Record SwapSubmitRequest := mkSwapSubmitRequest {
  s_quote_id : Str;
  s_signed_xdr : Str;
}.

Record SwapSubmitResponse := mkSwapSubmitResponse {
  sub_quote_id : Str;
  sub_tx_hash : Str;
  sub_status : Str;
  sub_output_amount : option Str;
  sub_ledger : option Z;
}.

(** What the process reads from its environment. *)
Record Env := mkEnv {
  env_passphrase : option Str;
  env_network : option Str;
  env_base_fee : option Str;
  env_timeout_secs : option Str;
}.

Definition DEFAULT_PREPARE_TTL_SECS : Z := 120.
Definition DEFAULT_SLIPPAGE_BPS : Z := 50.

(** ** Errors *)

Definition map_store_error (e : SwapStoreError) : ApiError :=
  match e with
  | SwapStoreError.NotFound => ApiError.QuoteNotFound []
  | SwapStoreError.ActivePrepareExists =>
      ApiError.Conflict
        $"An active prepare already exists for this sender; wait for expiry or submit/fail it first"
        [] [] $"active_prepare_exists"
  | SwapStoreError.InvalidTransition =>
      ApiError.Conflict $"Invalid quote state transition" [] [] $"invalid_transition"
  | SwapStoreError.Database e => ApiError.Internal e
  end.

Definition map_store_error_for_quote (id : Str) (e : SwapStoreError) : ApiError :=
  match e with
  | SwapStoreError.NotFound => ApiError.QuoteNotFound id
  | other => map_store_error other
  end.

Definition map_broadcast_error (e : BroadcastError) : ApiError :=
  match e with
  | BroadcastError.Validation msg => ApiError.Validation msg
  | BroadcastError.Timeout => ApiError.DependencyUnavailable $"Horizon timed out while submitting transaction"
  | BroadcastError.TransientRpc msg => ApiError.DependencyUnavailable msg
  | BroadcastError.InsufficientFee =>
      ApiError.Validation $"Transaction fee is insufficient for network submission"
  | BroadcastError.InsufficientBalance =>
      ApiError.Validation $"Source account has insufficient balance for this swap"
  | BroadcastError.SlippageExceeded =>
      ApiError.NotExecutable $"On-chain execution would exceed slippage bounds"
  | BroadcastError.BadSignature => ApiError.Validation $"Transaction signature is invalid"
  | BroadcastError.BadSequence =>
      ApiError.Conflict $"Account sequence mismatch (tx_bad_seq); request a fresh prepare" [] [] $"bad_sequence"
  | BroadcastError.Malformed => ApiError.Validation $"Transaction is malformed and cannot be submitted"
  | BroadcastError.Permanent msg => ApiError.NotExecutable msg
  end.

Definition map_tx_build_error (e : TxBuildError) : ApiError :=
  match e with
  | TxBuildError.Validation msg => ApiError.Validation msg
  | TxBuildError.AccountLookup msg => ApiError.DependencyUnavailable msg
  | TxBuildError.Xdr msg => ApiError.Internal msg
  end.

Definition map_envelope_error (e : EnvelopeValidationError) : ApiError :=
  match e with
  | EnvelopeValidationError.Malformed msg =>
      ApiError.Validation ($"signed_xdr is not a valid Stellar transaction envelope: " ++ msg)
  | EnvelopeValidationError.MissingSignatures =>
      ApiError.Validation $"signed_xdr must include at least one signature"
  | EnvelopeValidationError.QuoteMismatch =>
      ApiError.Validation $"signed transaction does not match the prepared quote"
  | EnvelopeValidationError.SignerMismatch =>
      ApiError.Validation $"transaction source account does not match the prepared sender"
  | EnvelopeValidationError.BadSignature => ApiError.Validation $"Transaction signature is invalid"
  | EnvelopeValidationError.UnsupportedAccount msg => ApiError.Validation msg
  end.

(** [&s[n..]], [None] where the code panics. *)
Definition slice_from (n : Z) (s : Str) : option Str :=
  match slice_to n s with
  | Some p => Some (drop (length p) s)
  | None => None
  end.

Section Handlers.

Context {T : Time} {Cal : Calendar} {H : Hex} {K : Strkey} {D : Digest} {X : XdrLib} {Sh : ShowF64}.

(** The environment, and the fixed price of a test configuration. *)
Variable env : Env.
Variable swap_price_source : option f64.

Local Abbreviation M A := (Prog Reply (Result A ApiError)).

(** [AuditRedactor::redact_account] (audit/redactor.rs); [None] where slicing panics. *)
Definition redact_account (account : Str) : option Str :=
  if bool_decide (account = $"native") then Some account
  else if str_len account <? 12 then Some $"[REDACTED]"
  else match slice_to 4 account, slice_from (str_len account - 4) account with
       | Some prefix, Some suffix =>
           Some (prefix ++ $"..." ++ suffix ++ $"#" ++ take 8 (hash_xdr account))
       | _, _ => None
       end.

Definition validate_stellar_account (sender : Str) : Result unit ApiError :=
  reject (bool_decide (account_from_string (trim sender) = None))
    (ApiError.Validation $"sender must be a valid Stellar G-address").

(** ** Prepare *)

Definition authoritative_price (route : ValidatedClassicRoute) (amount : f64) : M AuthoritativePrice :=
  match swap_price_source with
  | Some rate => ok (fixed_price rate route amount)
  | None =>
      quote ← ask (QuoteForPair (send_asset route) (dest_asset route) (format7 amount));
      lift id (live_price route amount quote)
  end.

Definition prepare_swap_inner (body : SwapPrepareRequest) : M SwapPrepareResponse :=
  lift id (validate_stellar_account (r_sender body));;
  amount ← some_or (parse_f64 (r_amount body)) (ApiError.Validation $"amount must be a valid number");
  refuse (negb (is_finite amount) || fle amount fzero) (ApiError.Validation $"amount must be greater than zero");;
  validated ← lift id (validate_classic_route (r_route body));
  registry ⇐ ask GetOverrideRegistry;
  lift id (reject_paused_venues registry (v_hops validated));;
  let slippage_bps := default DEFAULT_SLIPPAGE_BPS (r_slippage_bps body) in
  refuse (10000 <? slippage_bps) (ApiError.InvalidSlippage $"slippage_bps must be <= 10000");;
  priced ← authoritative_price validated amount;
  client_min ← match r_min_output body with
               | Some raw =>
                   m ← some_or (parse_f64 raw) (ApiError.Validation $"min_output must be a valid number");
                   ok (Some m)
               | None => ok None
               end;
  min_out ← lift id (resolve_min_output (expected_output priced) slippage_bps client_min);
  let passphrase := network_passphrase_from_env (env_passphrase env) (env_network env) in
  let base_fee := base_fee_from_env (env_base_fee env) in
  let timeout_secs := prepare_timeout_secs_from_env (env_timeout_secs env) in
  let sender := trim (r_sender body) in
  sequence ← awaited map_tx_build_error (ask (CurrentSequence sender));
  built_at ⇐ ask Now;
  built ← lift map_tx_build_error
            (build_unsigned_swap_tx (timestamp built_at)
               (mkPrepareTxInput sender validated amount min_out sequence timeout_secs base_fee passphrase));
  quote_id ⇐ ask NewQuoteId;
  now ⇐ ask Now;
  let expires_at := plus_seconds now (Z.min DEFAULT_PREPARE_TTL_SECS (wrap I64 timeout_secs)) in
  _ ⇐ call (CExpire sender);
  sender_hash ⇐ or_panic (redact_account sender);
  let prepared :=
    mkPreparedSwapQuote quote_id sender sender_hash (unsigned_xdr_hash built) expires_at
      (format7 (expected_output priced)) (format7 min_out) (format7 amount)
      (ExecutionMode.as_str (execution_mode built)) (pt_network_passphrase built) (route_digest validated)
      (p_digest priced) (Some (source_sequence built)) (Some (wrap I64 (timebounds_max built)))
      (Some (wrap I32 base_fee)) None SubmissionStatus.Prepared None in
  awaited map_store_error (call (CExpire sender));;
  awaited map_store_error (call (CInsert prepared));;
  ok (mkSwapPrepareResponse quote_id (xdr_envelope built) (format7 (expected_output priced))
        (Some (format7 min_out)) (timestamp_millis expires_at)
        (ExecutionMode.as_str ExecutionMode.ClassicPathPayment) (pt_network_passphrase built)).

(** ** Submit *)

Definition quote_timebounds_expired (q : PreparedSwapQuote) : Prog Reply bool :=
  match q_timebounds_max q with
  | Some max => if 0 <? max then now ⇐ ask Now; Return (max <? timestamp now) else Return false
  | None => Return false
  end.

Definition verify_submit_envelope (body : SwapSubmitRequest) (q : PreparedSwapQuote) : M Str :=
  refuse (bool_decide (trim (network_passphrase q) = []))
    (ApiError.Conflict $"Prepared quote is missing a bound network passphrase; request a fresh prepare"
       (s_quote_id body) (default [] (tx_hash q)) $"missing_network_passphrase");;
  computed ← lift map_envelope_error
    (validate_signed_against_prepared (trim (s_signed_xdr body)) (q_unsigned_xdr_hash q) (sender_account q)
       (network_passphrase q));
  match tx_hash q with
  | Some expected =>
      refuse (bool_decide (computed ≠ expected))
        (ApiError.Validation $"signed transaction hash does not match the quote bound at claim");;
      ok computed
  | None => ok computed
  end.

Definition submit_response (body : SwapSubmitRequest) (q : PreparedSwapQuote) (b : BroadcastResult) :
    SwapSubmitResponse * Z :=
  (mkSwapSubmitResponse (s_quote_id body) (b_tx_hash b) (b_status b) (Some (estimated_output q)) (b_ledger b),
   if bool_decide (b_status b = $"success") then 200 else 202).

(** The response, the HTTP status and the sender for the audit record. *)
Abbreviation Submitted := (SwapSubmitResponse * Z * Str)%type (only parsing).

Definition submitted (body : SwapSubmitRequest) (q : PreparedSwapQuote) (b : BroadcastResult) : Submitted :=
  (submit_response body q b, sender_account_hash q).

Definition finalize (body : SwapSubmitRequest) (hash : Str) : M unit :=
  let id := trim (s_quote_id body) in awaited (map_store_error_for_quote id) (call (CFinalize id hash)).

Definition broadcast_and_finalize (body : SwapSubmitRequest) (q : PreparedSwapQuote) (expected : Str) : M Submitted :=
  recomputed ← verify_submit_envelope body q;
  refuse (bool_decide (recomputed ≠ expected))
    (ApiError.Validation $"signed transaction hash does not match the quote bound at claim");;
  result ⇐ ask (Submit (trim (s_signed_xdr body)));
  match result with
  | Ok b =>
      refuse (bool_decide (b_tx_hash b ≠ []) && bool_decide (b_tx_hash b ≠ expected))
        (ApiError.Internal ($"horizon accepted hash mismatch: expected " ++ expected ++ $", got " ++ b_tx_hash b));;
      finalize body expected;;
      ok (submitted body q
            (if bool_decide (b_tx_hash b = []) then mkBroadcastResult expected (b_status b) (b_ledger b) else b))
  | Err e =>
      if is_transient_transport e then
        found ⇐ ask (Lookup expected);
        match found with
        | Ok (Some b) =>
            refuse (bool_decide (b_tx_hash b ≠ expected))
              (ApiError.Internal $"horizon lookup hash mismatch after timeout");;
            finalize body expected;;
            ok (submitted body q b)
        | Ok None | Err _ =>
            err (ApiError.DependencyUnavailable
                   ($"Broadcast timed out; quote remains submitting for reconciliation " ++ [8212] ++ $" retry submit"))
        end
      else
        _ ⇐ call (CMarkFailed (trim (s_quote_id body)));
        err (map_broadcast_error e)
  end.

Definition reconcile_or_rebroadcast (body : SwapSubmitRequest) (q : PreparedSwapQuote) (stored : Str) : M Submitted :=
  verify_submit_envelope body q;;
  found ⇐ ask (Lookup stored);
  match found with
  | Ok (Some b) =>
      refuse (bool_decide (b_tx_hash b ≠ stored))
        (ApiError.Internal ($"horizon lookup hash mismatch: expected " ++ stored ++ $", got " ++ b_tx_hash b));;
      finalize body stored;;
      ok (submitted body q b)
  | Ok None =>
      expired ⇐ quote_timebounds_expired q;
      if expired : bool then
        _ ⇐ call (CMarkFailed (trim (s_quote_id body)));
        err (ApiError.Conflict $"Transaction timebounds expired before confirmation; request a fresh prepare"
               (s_quote_id body) stored $"permanently_failed")
      else broadcast_and_finalize body q stored
  | Err e =>
      if is_transient_transport e then
        err (ApiError.DependencyUnavailable $"Horizon reconciliation pending; retry submit without re-preparing")
      else err (map_broadcast_error e)
  end.

(** A quote that is being submitted, read from the store or met when claiming. *)
Definition resume_submitting (body : SwapSubmitRequest) (q : PreparedSwapQuote) : M Submitted :=
  match tx_hash q with
  | Some ((_ :: _) as stored) => reconcile_or_rebroadcast body q stored
  | _ =>
      expired ⇐ quote_timebounds_expired q;
      if expired : bool then
        _ ⇐ call (CMarkFailed (trim (s_quote_id body)));
        err (ApiError.Conflict $"Quote submission window expired; request a fresh prepare"
               (s_quote_id body) [] $"permanently_failed")
      else
        err (ApiError.Conflict
               $"Quote is submitting without a bound transaction hash; request operator reconciliation or a fresh prepare"
               (s_quote_id body) [] $"submitting_without_hash")
  end.

(** A prepared quote that has not expired. *)
Definition submit_prepared (body : SwapSubmitRequest) (q : PreparedSwapQuote) : M Submitted :=
  refuse (bool_decide (hash_xdr (trim (s_signed_xdr body)) = q_unsigned_xdr_hash q))
    (ApiError.Validation $"signed_xdr must include signatures; unsigned prepare envelope was submitted");;
  hash ← verify_submit_envelope body q;
  let id := trim (s_quote_id body) in
  claimed ← awaited (map_store_error_for_quote id) (call (CClaim id hash));
  match claimed with
  | Claimed q' => broadcast_and_finalize body q' hash
  | AlreadySubmitted tx =>
      err (ApiError.Conflict $"Quote has already been submitted" (s_quote_id body) tx $"already_submitted")
  | InProgress current => resume_submitting body current
  | PermanentlyFailed =>
      err (ApiError.Conflict $"Quote permanently failed; request a fresh prepare" (s_quote_id body) []
             $"permanently_failed")
  end.

Definition submit_swap_inner (body : SwapSubmitRequest) : M Submitted :=
  refuse (bool_decide (trim (s_quote_id body) = [])) (ApiError.Validation $"quote_id is required");;
  refuse (bool_decide (trim (s_signed_xdr body) = [])) (ApiError.Validation $"signed_xdr is required");;
  refuse (negb (base64_valid (trim (s_signed_xdr body)))) (ApiError.Validation $"signed_xdr must be valid base64");;
  let id := trim (s_quote_id body) in
  found ← awaited map_store_error (call (CGet id));
  q ← some_or found (ApiError.QuoteNotFound (s_quote_id body));
  match submission_status q with
  | SubmissionStatus.Submitted =>
      err (ApiError.Conflict $"Quote has already been submitted" (s_quote_id body) (default [] (tx_hash q))
             $"already_submitted")
  | SubmissionStatus.Failed =>
      err (ApiError.Conflict $"Quote permanently failed; request a fresh prepare" (s_quote_id body)
             (default [] (tx_hash q)) $"permanently_failed")
  | SubmissionStatus.Submitting => resume_submitting body q
  | SubmissionStatus.Prepared =>
      now ⇐ ask Now;
      if dt_lt (expires_at q) now then
        _ ⇐ call (CMarkFailed id);
        err (ApiError.QuoteExpired (s_quote_id body))
      else submit_prepared body q
  end.

(** ** The system *)

Inductive Handler :=
| HPrepare (body : SwapPrepareRequest)
| HSubmit (body : SwapSubmitRequest).

Definition program (hd : Handler) : Prog Reply unit :=
  match hd with
  | HPrepare body => task (prepare_swap_inner body)
  | HSubmit body => task (submit_swap_inner body)
  end.

End Handlers.
