(* ===== verification/SwapFlowLogic.v ===== *)
(** * Reasoning about swaps: evidence and invariant

    The history of calls holds the evidence for what the store says of a quote: what was
    priced and built for it, which transaction it is bound to, that the network knows the
    transaction. [swap_protocol] is the protocol of the two handlers: when they may
    insert, claim, broadcast and finalize; both handlers keep to it. *)

From stdpp Require Import base decidable strings numbers list gmap.
From Stdlib Require Import ZArith Lia.
From S2P Require Import Xdr Health Prelude RustStr Result F64 ApiErrors Tasks CctpMessage CctpEncoding.
From S2P Require Import CctpStore SwapRoute SwapTx Broadcast SwapFlow.

Local Open Scope Z_scope.
Local Open Scope record_scope.

Create HintDb swap.

Section Evidence.

Context {T : Time} {Cal : Calendar} {H : Hex} {K : Strkey} {D : Digest} {X : XdrLib} {Sh : ShowF64}.
Variable env : Env.
Variable swap_price_source : option f64.

Implicit Types (h : list (Event Reply)) (q : PreparedSwapQuote) (quotes : Quotes).

(** ** Evidence *)

(** The outside answered [e] with [a]. *)
Definition answered (e : External) (a : Answer e) h : Prop := Happened (CExternal e) a ∈ h.

(** The quote that a reply carries. *)
Definition carried (e : Event Reply) : option PreparedSwapQuote :=
  match e with
  | Happened c r =>
      match c return Reply c → option PreparedSwapQuote with
      | CGet _ => λ r, match r with Ok o => o | Err _ => None end
      | CClaim _ _ => λ r, match r with Ok (Claimed q) | Ok (InProgress q) => Some q | _ => None end
      | _ => λ _, None
      end r
  end.

(** A handler was told that a quote is [q]. *)
Definition seen q h : Prop := ∃ e, e ∈ h ∧ carried e = Some q.

(** All of a quote but its status and its transaction hash. *)
Definition frozen q : PreparedSwapQuote := q <| submission_status := SubmissionStatus.Prepared |> <| tx_hash := None |>.

(** The price that was found for the route. *)
Definition priced_by (route : ValidatedClassicRoute) (amount : f64) (priced : AuthoritativePrice) h : Prop :=
  match swap_price_source with
  | Some rate => priced = fixed_price rate route amount
  | None => ∃ quote, answered (QuoteForPair (send_asset route) (dest_asset route) (format7 amount)) (Ok quote) h ∧
                     live_price route amount quote = Ok priced
  end.

(** What a request asks for, as the handler reads it. *)
Record Terms := mkTerms {
  t_body : SwapPrepareRequest;
  t_amount : f64;
  t_route : ValidatedClassicRoute;
  t_priced : AuthoritativePrice;
  t_client_min : option f64;
  t_min_output : f64;
  t_sequence : Z;
  t_built_at : DateTime;
}.

Definition terms_sender (t : Terms) : Str := trim (r_sender (t_body t)).

Definition terms_slippage (t : Terms) : Z := default DEFAULT_SLIPPAGE_BPS (r_slippage_bps (t_body t)).

Definition terms_input (t : Terms) : PrepareTxInput :=
  mkPrepareTxInput (terms_sender t) (t_route t) (t_amount t) (t_min_output t) (t_sequence t)
    (prepare_timeout_secs_from_env (env_timeout_secs env)) (base_fee_from_env (env_base_fee env))
    (network_passphrase_from_env (env_passphrase env) (env_network env)).

(** The terms were checked and priced. *)
Record agreed (t : Terms) h : Prop := {
  ag_amount : parse_f64 (r_amount (t_body t)) = Some (t_amount t) ∧ is_finite (t_amount t) = true ∧
              fle (t_amount t) fzero = false;
  ag_route : validate_classic_route (r_route (t_body t)) = Ok (t_route t);
  ag_venues : ∃ registry, answered GetOverrideRegistry registry h ∧
                          reject_paused_venues registry (v_hops (t_route t)) = Ok tt;
  ag_slippage : terms_slippage t <= 10000;
  ag_priced : priced_by (t_route t) (t_amount t) (t_priced t) h;
  ag_client_min : match r_min_output (t_body t) with
                  | Some raw => ∃ m, parse_f64 raw = Some m ∧ t_client_min t = Some m
                  | None => t_client_min t = None
                  end;
  ag_min_output : resolve_min_output (expected_output (t_priced t)) (terms_slippage t) (t_client_min t) =
                  Ok (t_min_output t);
  ag_sequence : answered (CurrentSequence (terms_sender t)) (Ok (t_sequence t)) h;
}.

(** [tx] is the unsigned transaction behind the hash of a quote. *)
Definition stands_for (tx : Transaction) q : Prop := ∃ xdr,
  to_xdr_base64 (EnvelopeTx tx []) = Ok xdr ∧ hash_xdr xdr = q_unsigned_xdr_hash q.

(** The quote was drafted on terms, for the transaction built for them. *)
Definition drafted q (t : Terms) (tx : Transaction) h : Prop :=
  agreed t h ∧ swap_transaction (timestamp (t_built_at t)) (terms_input t) = Ok tx ∧ stands_for tx q ∧
  sender_account q = terms_sender t ∧
  network_passphrase q = network_passphrase_from_env (env_passphrase env) (env_network env) ∧
  amount_in q = format7 (t_amount t) ∧ min_output q = format7 (t_min_output t) ∧
  estimated_output q = format7 (expected_output (t_priced t)).

(** The transaction of the quote has this hash. *)
Definition bound q (hash : Str) : Prop := ∃ tx,
  stands_for tx q ∧ transaction_hash_hex tx (network_passphrase q) = Ok hash.

(** The envelope is the quote's transaction with the signature of the sender. *)
Definition signed_for (xdr : Str) q (hash : Str) : Prop :=
  validate_signed_against_prepared xdr (q_unsigned_xdr_hash q) (sender_account q) (network_passphrase q) = Ok hash.

(** The network knows the transaction: it took an envelope with it, or it found it. *)
Definition accepted (hash : Str) h : Prop :=
  (∃ b, answered (Lookup hash) (Ok (Some b)) h ∧ b_tx_hash b = hash) ∨
  (∃ xdr b q, answered (Submit xdr) (Ok b) h ∧ signed_for xdr q hash ∧ (b_tx_hash b = [] ∨ b_tx_hash b = hash)).

Definition inserted (id : Str) h : Prop := ∃ q, Happened (CInsert q) (Ok tt) ∈ h ∧ quote_id q = id.

(** What a quote may say of itself. *)
Definition sound q h : Prop :=
  match submission_status q with
  | SubmissionStatus.Prepared => tx_hash q = None
  | SubmissionStatus.Submitting => ∃ hash, tx_hash q = Some hash ∧ bound q hash
  | SubmissionStatus.Submitted => ∃ hash, tx_hash q = Some hash ∧ bound q hash ∧ accepted hash h
  | SubmissionStatus.Failed => ∀ hash, tx_hash q = Some hash → bound q hash
  end.

(** The steps of a status. *)
Definition follows (s s' : SubmissionStatus) : Prop :=
  match s with
  | SubmissionStatus.Prepared => True
  | SubmissionStatus.Submitting => s' ≠ SubmissionStatus.Prepared
  | SubmissionStatus.Submitted => s' = SubmissionStatus.Submitted
  | SubmissionStatus.Failed => s' = SubmissionStatus.Failed
  end.

(** One move of a quote. *)
Inductive status_step : SubmissionStatus → SubmissionStatus → Prop :=
| step_claim : status_step SubmissionStatus.Prepared SubmissionStatus.Submitting
| step_give_up : status_step SubmissionStatus.Prepared SubmissionStatus.Failed
| step_finalize : status_step SubmissionStatus.Submitting SubmissionStatus.Submitted
| step_fail : status_step SubmissionStatus.Submitting SubmissionStatus.Failed.

(** A quote may have become another: what was agreed stays, a transaction hash stays. *)
Record evolves q q' : Prop := {
  ev_frozen : frozen q' = frozen q;
  ev_hash hash : tx_hash q = Some hash → tx_hash q' = Some hash;
  ev_status : follows (submission_status q) (submission_status q');
}.

(** ** The protocol *)

Definition inserted_id (e : Event Reply) : option Str :=
  match e with
  | Happened c r =>
      match c return Reply c → option Str with
      | CInsert q => λ r, match r with Ok _ => Some (quote_id q) | Err _ => None end
      | _ => λ _, None
      end r
  end.

(** Identifiers are random and do not collide. *)
Definition distinct_ids h : Prop := NoDup (omap inserted_id h).

Definition may_call (c : Call) h : Prop :=
  match c with
  | CInsert q => submission_status q = SubmissionStatus.Prepared ∧ tx_hash q = None ∧ ∃ t tx, drafted q t tx h
  | CClaim id hash => ∃ q, seen q h ∧ quote_id q = id ∧ bound q hash
  | CFinalize id hash => ∃ q, seen q h ∧ quote_id q = id ∧ tx_hash q = Some hash ∧ accepted hash h
  | CExternal (Submit xdr) => ∃ q hash, seen q h ∧ tx_hash q = Some hash ∧ signed_for xdr q hash
  | _ => True
  end.

Definition told (e : Event Reply) h : Prop :=
  match e with
  | Happened c r =>
      match c return Reply c → Prop with
      | CGet id => λ r, match r with Ok (Some q) => quote_id q = id | _ => True end
      | CClaim id hash => λ r,
          match r with
          | Ok (Claimed q) => quote_id q = id ∧ tx_hash q = Some hash
          | Ok (InProgress q) => quote_id q = id
          | _ => True
          end
      | _ => λ _, True
      end r
  end.

Record coherent quotes h : Prop := {
  co_key id q : quotes !! id = Some q → quote_id q = id;
  co_inserted id q : quotes !! id = Some q → inserted id h;
  co_drafted id q : quotes !! id = Some q → ∃ t tx, drafted q t tx h;
  co_sound id q : quotes !! id = Some q → sound q h;
  co_seen q : seen q h → ∃ cur, quotes !! quote_id q = Some cur ∧ evolves q cur;
}.

(** ** Monotonicity *)

Lemma quote_seen_mono q h h' : h ⊆ h' → seen q h → seen q h'.
Proof. intros Hs (e & He & Hc). exists e. split; [by apply Hs|done]. Qed.

Lemma accepted_mono hash h h' : h ⊆ h' → accepted hash h → accepted hash h'.
Proof.
  intros Hs [(b & Ha & E)|(xdr & b & q & Ha & E)]; [left; exists b|right; exists xdr, b, q]; (split; [by apply Hs|done]).
Qed.

Lemma priced_mono route amount p h h' : h ⊆ h' → priced_by route amount p h → priced_by route amount p h'.
Proof. unfold priced_by. intros Hs. case_match; [done|]. intros (quote & Ha & E). exists quote. split; [by apply Hs|done]. Qed.

Lemma agreed_mono t h h' : h ⊆ h' → agreed t h → agreed t h'.
Proof.
  intros Hs [A1 A2 (g & Hg & Hr) A4 A5 A6 A7 A8].
  split; [done|done| |done|by eapply priced_mono|done|done|by apply Hs].
  exists g. split; [by apply Hs|done].
Qed.

Lemma drafted_mono q t tx h h' : h ⊆ h' → drafted q t tx h → drafted q t tx h'.
Proof. intros Hs [Ha ?]. split; [by eapply agreed_mono|done]. Qed.

Lemma sound_mono q h h' : h ⊆ h' → sound q h → sound q h'.
Proof.
  unfold sound. intros Hs. case_match; try done. intros (hash & ? & ? & ?). exists hash. eauto using accepted_mono.
Qed.

Lemma inserted_mono id h h' : h ⊆ h' → inserted id h → inserted id h'.
Proof. intros Hs (q & Hq & E). exists q. split; [by apply Hs|done]. Qed.

Hint Resolve quote_seen_mono accepted_mono agreed_mono drafted_mono sound_mono inserted_mono : swap.

Lemma swap_may_call_mono c h h' : h ⊆ h' → may_call c h → may_call c h'.
Proof.
  intros Hs. destruct c as [| | | | | |[]]; cbn; try done; naive_solver eauto with swap.
Qed.

(** ** Quotes that agree on what was frozen *)

Lemma terms_eq q q' : frozen q = frozen q' →
  quote_id q = quote_id q' ∧ sender_account q = sender_account q' ∧ q_unsigned_xdr_hash q = q_unsigned_xdr_hash q' ∧
  network_passphrase q = network_passphrase q' ∧ amount_in q = amount_in q' ∧ min_output q = min_output q' ∧
  estimated_output q = estimated_output q' ∧ expires_at q = expires_at q'.
Proof. unfold frozen. intros [=]. by split_and!. Qed.

Lemma stands_for_frozen tx q q' : frozen q = frozen q' → stands_for tx q → stands_for tx q'.
Proof. intros (_ & _ & E & _)%terms_eq. unfold stands_for. by rewrite E. Qed.

Lemma drafted_frozen q q' t tx h : frozen q = frozen q' → drafted q t tx h → drafted q' t tx h.
Proof.
  intros E (? & ? & Hs & ?). pose proof (stands_for_frozen tx q q' E Hs).
  apply terms_eq in E as (_ & E1 & _ & E2 & E3 & E4 & E5 & _). unfold drafted. by rewrite <- E1, <- E2, <- E3, <- E4, <- E5.
Qed.

Lemma bound_frozen q q' hash : frozen q = frozen q' → bound q hash → bound q' hash.
Proof.
  intros E (tx & Hs & Hh). exists tx. split; [by eapply stands_for_frozen|].
  apply terms_eq in E as (_ & _ & _ & E & _). by rewrite <- E.
Qed.

Lemma follows_refl s : follows s s.
Proof. by destruct s. Qed.

Lemma follows_trans s1 s2 s3 : follows s1 s2 → follows s2 s3 → follows s1 s3.
Proof. destruct s1, s2, s3; cbn; done || congruence. Qed.

#[export] Instance evolves_preorder : PreOrder evolves.
Proof.
  split.
  - intros q. split; [done..|apply follows_refl].
  - intros q1 q2 q3 [E1 H1 F1] [E2 H2 F2]. split; [congruence|auto|by eapply follows_trans].
Qed.

(** ** One change of the store *)

(** An entry stays or becomes a sound successor. *)
Definition keeps quotes quotes' h : Prop := ∀ id,
  quotes' !! id = quotes !! id ∨
  ∃ q q', quotes !! id = Some q ∧ quotes' !! id = Some q' ∧ evolves q q' ∧ sound q' h.

Lemma quotes_keep quotes h : keeps quotes quotes h.
Proof. intros id. by left. Qed.

Lemma keeps_insert quotes id q q' h :
  quotes !! id = Some q → evolves q q' → sound q' h → keeps quotes (<[id := q']> quotes) h.
Proof.
  intros Hq He Hs id'. destruct (decide (id' = id)) as [->|Hne].
  - right. exists q, q'. by rewrite lookup_insert_eq.
  - left. by rewrite lookup_insert_ne.
Qed.

Lemma keeps_lookup quotes quotes' h id q :
  keeps quotes quotes' h → quotes !! id = Some q → ∃ q', quotes' !! id = Some q' ∧ evolves q q'.
Proof.
  intros Hk Hq. destruct (Hk id) as [E|(q0 & q' & E1 & E2 & ? & _)]; [exists q|exists q'; by simplify_eq].
  split; [by rewrite E|reflexivity].
Qed.

Lemma keeps_origin quotes quotes' h id q' :
  keeps quotes quotes' h → quotes' !! id = Some q' →
  ∃ q, quotes !! id = Some q ∧ evolves q q' ∧ (q = q' ∨ sound q' h).
Proof.
  intros Hk Hq. destruct (Hk id) as [E|(q0 & q1 & E1 & E2 & ? & ?)]; [exists q'|exists q0; simplify_eq; by auto].
  split; [by rewrite <- E|]. split; [reflexivity|by left].
Qed.

(** A call that keeps the entries and tells the truth about them. *)
Lemma coherent_keeps quotes quotes' h e :
  coherent quotes h → keeps quotes quotes' (e :: h) →
  (∀ q, carried e = Some q → quotes' !! quote_id q = Some q) → coherent quotes' (e :: h).
Proof.
  intros [C1 C2 C3 C4 C5] Hk Hcar. assert (Hsub : h ⊆ e :: h) by set_solver. split.
  - intros id q' Hq'. destruct (keeps_origin _ _ _ _ _ Hk Hq') as (q & Hq & [Ef _ _] & _).
    apply terms_eq in Ef as (E & _). rewrite E. by apply C1.
  - intros id q' Hq'. destruct (keeps_origin _ _ _ _ _ Hk Hq') as (q & Hq & _). eauto with swap.
  - intros id q' Hq'. destruct (keeps_origin _ _ _ _ _ Hk Hq') as (q & Hq & [Ef _ _] & _).
    destruct (C3 _ _ Hq) as (t & tx & Hd). exists t, tx. eapply drafted_frozen; [by symmetry|eauto with swap].
  - intros id q' Hq'. destruct (keeps_origin _ _ _ _ _ Hk Hq') as (q & Hq & _ & [->|?]); [eauto with swap|done].
  - intros q (e' & [->|He]%elem_of_cons & Hc).
    + exists q. split; [by apply Hcar|reflexivity].
    + destruct (C5 q) as (cur & Hcur & Hev); [by exists e'|].
      destruct (keeps_lookup _ _ _ _ _ Hk Hcur) as (q' & Hq' & Hev').
      exists q'. split; [done|by etrans].
Qed.

Lemma sound_failed q h : sound q h → sound (q <| submission_status := SubmissionStatus.Failed |>) h.
Proof.
  unfold sound. cbn. destruct (submission_status q); intros Hs hash Hh; try congruence; try naive_solver.
Qed.

Lemma evolves_failed q :
  submission_status q = SubmissionStatus.Prepared ∨ submission_status q = SubmissionStatus.Submitting →
  evolves q (q <| submission_status := SubmissionStatus.Failed |>).
Proof. intros Hs. split; [by destruct q|done|]. destruct Hs as [-> | ->]; done. Qed.

(** ** Every permitted call keeps the invariant *)

Lemma expire_keeps quotes h now sender e :
  coherent quotes h → keeps quotes (expire now sender <$> quotes) (e :: h).
Proof.
  intros Hco id. rewrite lookup_fmap. destruct (quotes !! id) as [q|] eqn:Hq; [|by left]. cbn.
  unfold expire. destruct (stale now sender q) eqn:Hst; [|by left]. right. eexists q, _.
  split; [done|]. split; [done|]. unfold stale in Hst. rewrite !andb_true_iff, !bool_decide_eq_true in Hst.
  destruct Hst as [[_ Hst] _]. split; [by apply evolves_failed; left|].
  apply sound_failed. eapply sound_mono; [|by eapply co_sound]. set_solver.
Qed.

(** No two inserts of a run with distinct identifiers meet. *)
Lemma insert_fresh q quotes h :
  coherent quotes h → distinct_ids (Happened (CInsert q) (Ok tt) :: h) → quotes !! quote_id q = None.
Proof.
  intros Hco Hid. apply eq_None_not_Some. intros [q' Hq']. unfold distinct_ids in Hid. cbn in Hid.
  apply NoDup_cons in Hid as [Hn _]. apply Hn. destruct (co_inserted _ _ Hco _ _ Hq') as (q0 & He & E).
  apply list_elem_of_omap. exists (Happened (CInsert q0) (Ok tt)). cbn. by rewrite E.
Qed.

Lemma insert_keeps_coherent o q r quotes quotes' h :
  coherent quotes h → distinct_ids (Happened (CInsert q) r :: h) → may_call (CInsert q) h →
  exec o (CInsert q) quotes = Some (r, quotes') → coherent quotes' (Happened (CInsert q) r :: h).
Proof.
  intros Hco Hid (Hst & Hh & t & tx & Hd). cbn. unfold insert_prepared. case_bool_decide; intros [= <- <-]; cycle 1.
  { apply coherent_keeps with quotes; [done|apply quotes_keep|done]. }
  assert (Hsub : h ⊆ Happened (CInsert q) (Ok tt) :: h) by set_solver.
  pose proof (insert_fresh _ _ _ Hco Hid) as Hnew.
  destruct Hco as [C1 C2 C3 C4 C5]. split.
  - intros id q'. rewrite lookup_insert_Some. naive_solver.
  - intros id q'. rewrite lookup_insert_Some. intros [[<- <-]|[_ Hq]]; [exists q; set_solver|eauto with swap].
  - intros id q'. rewrite lookup_insert_Some. intros [[<- <-]|[_ Hq]].
    + exists t, tx. eauto with swap.
    + destruct (C3 _ _ Hq) as (t' & tx' & ?). eauto with swap.
  - intros id q'. rewrite lookup_insert_Some. intros [[<- <-]|[_ Hq]]; [unfold sound; by rewrite Hst|eauto with swap].
  - intros q' (e' & [->|He]%elem_of_cons & Hc); [done|].
    destruct (C5 q') as (cur & Hcur & Hev); [by exists e'|]. exists cur. split; [|done].
    rewrite lookup_insert_ne; [done|]. intros E. by rewrite E, Hcur in Hnew.
Qed.

Lemma claim_coherent o id hash r quotes quotes' h (e := Happened (CClaim id hash) r) :
  coherent quotes h → may_call (CClaim id hash) h → exec o (CClaim id hash) quotes = Some (r, quotes') →
  coherent quotes' (e :: h) ∧ told e (e :: h).
Proof.
  intros Hco (qs & Hs & Hid & Hb). cbn. unfold claim_for_submit. case_bool_decide.
  { intros [= <- <-]. split; [apply coherent_keeps with quotes; [done|apply quotes_keep|done]|done]. }
  destruct (quotes !! id) as [q|] eqn:Hq; cycle 1.
  { intros [= <- <-]. split; [apply coherent_keeps with quotes; [done|apply quotes_keep|done]|done]. }
  pose proof (co_key _ _ Hco _ _ Hq) as Hk.
  destruct (co_seen _ _ Hco _ Hs) as (cur & Hcur & [Ef _ _]). rewrite Hid, Hq in Hcur. injection Hcur as ->.
  pose proof (co_sound _ _ Hco _ _ Hq) as Hsnd. unfold sound in Hsnd.
  destruct (submission_status cur) eqn:Hst; intros [= <- <-]; subst e.
  - split; [|by split].
    apply coherent_keeps with quotes; [done| |].
    + eapply keeps_insert; [done| |].
      * split; [by destruct cur|by intros ? E; rewrite Hsnd in E|by rewrite Hst].
      * exists hash. split; [done|]. eapply bound_frozen; [|exact Hb]. etrans; [symmetry; exact Ef|by destruct cur].
    + intros q' [= <-]. apply lookup_insert_Some. left. split; [by symmetry|done].
  - split; [|done]. apply coherent_keeps with quotes; [done|apply quotes_keep|]. intros q' [= <-]. by rewrite Hk.
  - split; [|done]. apply coherent_keeps with quotes; [done|apply quotes_keep|done].
  - split; [|done]. apply coherent_keeps with quotes; [done|apply quotes_keep|done].
Qed.

Lemma finalize_coherent o id hash r quotes quotes' h (e := Happened (CFinalize id hash) r) :
  coherent quotes h → may_call (CFinalize id hash) h → exec o (CFinalize id hash) quotes = Some (r, quotes') →
  coherent quotes' (e :: h).
Proof.
  intros Hco (qs & Hs & Hid & Hh & Hacc). cbn. unfold finalize_submit.
  destruct (quotes !! id) as [q|] eqn:Hq; cycle 1.
  { intros [= <- <-]. apply coherent_keeps with quotes; [done|apply quotes_keep|done]. }
  case_bool_decide as Hst; [intros [= <- <-]; apply coherent_keeps with quotes; [done|apply quotes_keep|done]|].
  intros [= <- <-].
  destruct (co_seen _ _ Hco _ Hs) as (cur & Hcur & [Ef Ehash _]). rewrite Hid, Hq in Hcur. injection Hcur as ->.
  pose proof (co_sound _ _ Hco _ _ Hq) as Hsnd. unfold sound in Hsnd. rewrite Hst in Hsnd.
  destruct Hsnd as (hash' & Hh' & Hb). pose proof (Ehash _ Hh) as E. rewrite Hh' in E. injection E as ->.
  apply coherent_keeps with quotes; [done| |done]. eapply keeps_insert; [done| |].
  - split; [by destruct cur|by intros ? E'; rewrite Hh' in E'|by rewrite Hst].
  - exists hash. split; [done|]. split; [eapply bound_frozen; [|exact Hb]; by destruct cur|].
    eapply accepted_mono; [|exact Hacc]. set_solver.
Qed.

Lemma mark_failed_keeps id quotes quotes' r h e :
  coherent quotes h → mark_failed id quotes = (r, quotes') → keeps quotes quotes' (e :: h).
Proof.
  intros Hco. unfold mark_failed. destruct (quotes !! id) as [q|] eqn:Hq; [|intros [= <- <-]; apply quotes_keep].
  assert (sound q (e :: h)) by (eapply sound_mono; [|by eapply co_sound]; set_solver).
  destruct (submission_status q) eqn:Hst; intros [= <- <-]; try apply quotes_keep;
    (eapply keeps_insert; [done|apply evolves_failed; auto|by apply sound_failed]).
Qed.

Lemma call_coherent o c quotes h r quotes' (e := Happened c r) :
  coherent quotes h → distinct_ids (e :: h) → may_call c h → exec o c quotes = Some (r, quotes') →
  coherent quotes' (e :: h) ∧ told e (e :: h).
Proof.
  intros Hco Hid Hmay Hx. destruct c as [sender|q|id|id hash|id hash|id|x].
  - split; [|done]. cbn in Hx. injection Hx as <- <-.
    apply coherent_keeps with quotes; [done|by apply expire_keeps|done].
  - split; [|done]. by eapply insert_keeps_coherent.
  - cbn in Hx. injection Hx as <- <-.
    assert (Hk : ∀ q, quotes !! id = Some q → quote_id q = id) by (intros q Hq; by eapply co_key).
    split; [apply coherent_keeps with quotes; [done|apply quotes_keep|]|].
    + intros q Hq. cbn in Hq. by rewrite (Hk q).
    + cbn. destruct (quotes !! id) eqn:Hq; [by apply Hk|done].
  - by eapply claim_coherent.
  - split; [|done]. by eapply finalize_coherent.
  - split; [|done]. cbn in Hx. destruct (mark_failed id quotes) as [r' q'] eqn:E. injection Hx as <- <-.
    apply coherent_keeps with quotes; [done|by eapply mark_failed_keeps|done].
  - split; [|by destruct x]. cbn in Hx. injection Hx as <- <-.
    apply coherent_keeps with quotes; [done|apply quotes_keep|by destruct x].
Qed.

(** Every call moves the status of a stored quote by at most one move. *)
Lemma call_status o c quotes h r quotes' id q q' :
  coherent quotes h → distinct_ids (Happened c r :: h) → exec o c quotes = Some (r, quotes') →
  quotes !! id = Some q → quotes' !! id = Some q' →
  submission_status q' = submission_status q ∨ status_step (submission_status q) (submission_status q').
Proof.
  intros Hco Hid Hx Hq Hq'. destruct c as [sender|q0|id0|id0 hash|id0 hash|id0|x]; cbn in Hx.
  - injection Hx as <- <-. rewrite lookup_fmap, Hq in Hq'. injection Hq' as <-. unfold expire.
    destruct (stale _ _ q) eqn:E; [|by left]. right. unfold stale in E.
    rewrite !andb_true_iff, !bool_decide_eq_true in E. destruct E as [[_ ->] _]. constructor.
  - unfold insert_prepared in Hx. case_bool_decide; simplify_eq; [|by left].
    pose proof (insert_fresh _ _ _ Hco Hid) as Hnew. rewrite lookup_insert_ne in Hq' by congruence.
    left. congruence.
  - left. congruence.
  - unfold claim_for_submit in Hx. destruct (decide (id0 = id)) as [->|Hne]; [rewrite Hq in Hx|];
      repeat case_match; simplify_eq; try (by left);
      rewrite ?lookup_insert_eq, ?(lookup_insert_ne _ id0 id) in Hq' by done; simplify_eq; try (by left).
    right. constructor.
  - unfold finalize_submit in Hx. destruct (decide (id0 = id)) as [->|Hne]; [rewrite Hq in Hx|];
      repeat case_match; simplify_eq; try (by left);
      rewrite ?lookup_insert_eq, ?(lookup_insert_ne _ id0 id) in Hq' by done; simplify_eq; try (by left).
    match goal with Hb : bool_decide _ = false |- _ => apply bool_decide_eq_false, dec_stable in Hb; rewrite Hb end.
    right. constructor.
  - unfold mark_failed in Hx. destruct (decide (id0 = id)) as [->|Hne]; [rewrite Hq in Hx|];
      repeat case_match; simplify_eq; try (by left);
      rewrite ?lookup_insert_eq, ?(lookup_insert_ne _ id0 id) in Hq' by done; simplify_eq; try (by left);
      right; constructor.
  - left. congruence.
Qed.

Lemma coherent_initial : coherent ∅ [].
Proof.
  split; try (intros id q; by rewrite lookup_empty). intros q (e & He & _). by apply elem_of_nil in He.
Qed.

Lemma distinct_tail e h : distinct_ids (e :: h) → distinct_ids h.
Proof. unfold distinct_ids. cbn. destruct (inserted_id e); [by intros [_ ?]%NoDup_cons|done]. Qed.

#[export] Instance swap_protocol : Protocol exec (∅ : Quotes) := {|
  admitted := distinct_ids; permitted := may_call; replied := told; invariant := coherent;
  admitted_tail := distinct_tail; permitted_mono := swap_may_call_mono; invariant_initial := coherent_initial;
  invariant_call := call_coherent;
|}.

End Evidence.

(** ** Both swap handlers keep to the protocol

    A prepare inserts only what it validated, priced and built; a submit claims only the
    hash of the signed envelope it verified, broadcasts only envelopes of claimed quotes,
    and finalizes only what the network knows. *)

Section Safe.

Context {T : Time} {Cal : Calendar} {H : Hex} {K : Strkey} {D : Digest} {X : XdrLib} {Sh : ShowF64}.
Variable env : Env.
Variable swap_price_source : option f64.

Implicit Types (h : list (Event Reply)) (q : PreparedSwapQuote).

#[local] Instance protocol : Protocol exec (∅ : Quotes) := swap_protocol env swap_price_source.

Local Abbreviation safe p h Q := (safe exec (∅ : Quotes) p h Q).

Lemma swap_ask e h (Q : Answer e → list (Event Reply) → Prop) :
  may_call env swap_price_source (CExternal e) h → (∀ a h', h ⊆ h' → answered e a h' → Q a h') → safe (ask e) h Q.
Proof. intros Hm HQ. split; [done|]. intros r h' Hs He _. by apply HQ. Qed.

(** ** Prepare *)

Lemma price_safe route amount h Q :
  (∀ p h', h ⊆ h' → priced_by swap_price_source route amount p h' → Q (Ok p) h') → (∀ e h', Q (Err e) h') →
  safe (authoritative_price swap_price_source route amount) h Q.
Proof.
  intros HQ He. unfold authoritative_price, priced_by in *. destruct swap_price_source as [rate|].
  - apply HQ; done.
  - safe_step. apply swap_ask; [done|]. intros [quote|e] h' Hs Ha; [|by apply He].
    safe_step; [|by apply He]. apply HQ; [done|]. by exists quote.
Qed.

Lemma min_safe (raw : option Str) h (Q : Result (option f64) ApiError → list (Event Reply) → Prop) :
  (∀ m, match raw with
        | Some s => ∃ x, parse_f64 s = Some x ∧ m = Some x
        | None => m = None
        end → Q (Ok m) h) → (∀ e h', Q (Err e) h') →
  safe match raw with
       | Some raw => mtry (some_or (parse_f64 raw) (ApiError.Validation (lit "min_output must be a valid number")))
                       (λ m, ok (Some m))
       | None => ok None
       end h Q.
Proof.
  intros HQ He. destruct raw as [s|]; [|by apply HQ].
  safe_step. safe_step; [|by apply He]. cbn. apply HQ. eauto.
Qed.

(** What was built is the transaction for the input. *)
Lemma built_transaction now input built :
  build_unsigned_swap_tx now input = Ok built → ∃ tx xdr,
  swap_transaction now input = Ok tx ∧ to_xdr_base64 (EnvelopeTx tx []) = Ok xdr ∧
  hash_xdr xdr = unsigned_xdr_hash built ∧ pt_network_passphrase built = in_network_passphrase input.
Proof.
  unfold build_unsigned_swap_tx. intros Hb. rinv. eexists _, _. by split_and!.
Qed.

Lemma prepare_safe body h : safe (prepare_swap_inner env swap_price_source body) h (λ _ _, True).
Proof.
  unfold prepare_swap_inner.
  apply safe_try, safe_lift; [intros _ _|done].
  apply safe_try, safe_some_or; [intros amount Hamount|done].
  apply safe_try, safe_refuse; [done|]. intros [Hfin%negb_false_iff Hpos]%orb_false_elim.
  apply safe_try, safe_lift; [intros route Hroute|done].
  apply safe_bind, swap_ask; [done|]. intros registry h1 Hs1 Hreg.
  apply safe_try, safe_lift; [intros [] Hvenues|done]. cbv zeta.
  apply safe_try, safe_refuse; [done|]. intros Hbps%Z.ltb_ge.
  apply safe_try, price_safe; [|done]. intros priced h2 Hs2 Hpriced.
  apply safe_try, min_safe; [|done]. intros cm Hcm.
  apply safe_try, safe_lift; [intros min_out Hmin|done].
  apply safe_try, safe_awaited, swap_ask; [done|]. intros [seq|] h3 Hs3 Hseq; [cbn [map_err]|done].
  apply safe_bind, swap_ask; [done|]. intros built_at h4 Hs4 _.
  apply safe_try, safe_lift; [intros built Hbuilt|done].
  apply safe_bind, swap_ask; [done|]. intros qid h5 Hs5 _.
  apply safe_bind, swap_ask; [done|]. intros now h6 Hs6 _.
  apply safe_bind, safe_call; [done|]. intros _ h7 Hs7 _ _.
  apply safe_bind, safe_or_panic. intros sender_hash _.
  apply safe_try, safe_awaited, safe_call; [done|]. intros [n|] h8 Hs8 _ _; [cbn [map_err]|done].
  apply safe_try, safe_awaited, safe_call; [|by intros [] ? ? ? ?].
  destruct (built_transaction _ _ _ Hbuilt) as (tx & xdr & Htx & Hx & Hh & Hp).
  split; [done|]. split; [done|].
  exists (mkTerms body amount route priced cm min_out seq built_at), tx.
  split; [|split_and!; try done; by exists xdr].
  split; cbn; try done.
  - exists registry. split; [set_solver|done].
  - eapply priced_mono; [|exact Hpriced]. set_solver.
  - set_solver.
Qed.

(** ** Submit *)

(** An envelope that passes is the quote's transaction under one valid signature. *)
Lemma signed_envelope xdr q hash : signed_for xdr q hash → ∃ tx sig key hb,
  from_xdr_base64 (trim xdr) = Ok (EnvelopeTx tx [sig]) ∧ stands_for tx q ∧
  account_from_string (trim (sender_account q)) = Some key ∧
  transaction_hash tx (network_passphrase q) = Ok hb ∧ hash = hex_encode hb ∧
  ed25519_verify key hb (signature sig) = true.
Proof.
  unfold signed_for, validate_signed_against_prepared. intros Hv. apply try_Ok in Hv as (env' & Henv & Hv).
  apply map_err_Ok in Henv. destruct env' as [tx [|sig [|]]| |]; try done. rinv.
  repeat match goal with
  | Hb : negb _ = false |- _ => apply negb_false_iff in Hb
  | Hb : bool_decide (_ ≠ _) = false |- _ => apply bool_decide_eq_false, dec_stable in Hb
  end.
  eexists tx, sig, _, _. split_and!; try done. eexists. by split_and!.
Qed.

Lemma signed_bound xdr q hash : signed_for xdr q hash → bound q hash.
Proof.
  intros (tx & sig & key & hb & _ & Hs & _ & Hh & -> & _)%signed_envelope.
  exists tx. split; [done|]. unfold transaction_hash_hex. by rewrite Hh.
Qed.

Lemma verify_safe body q h (Q : Result Str ApiError → list (Event Reply) → Prop) :
  (∀ hash, signed_for (trim (s_signed_xdr body)) q hash → (∀ x, tx_hash q = Some x → hash = x) → Q (Ok hash) h) →
  (∀ e, Q (Err e) h) → safe (verify_submit_envelope body q) h Q.
Proof.
  intros HQ He. unfold verify_submit_envelope.
  apply safe_try, safe_refuse; intros _; [by apply He|].
  apply safe_try, safe_lift; [intros hash Hhash|by intros]. destruct (tx_hash q) as [x|] eqn:Hx; [|by apply HQ].
  apply safe_try, safe_refuse; [by intros|]. intros E%bool_decide_eq_false%dec_stable. apply HQ; [done|]. by intros ? [= <-].
Qed.

Lemma finalize_safe body q hash h (Q : Result unit ApiError → list (Event Reply) → Prop) :
  seen q h → quote_id q = trim (s_quote_id body) → tx_hash q = Some hash → accepted hash h →
  (∀ r h', Q r h') → safe (finalize body hash) h Q.
Proof.
  intros Hs Hid Hh Hacc HQ. unfold finalize. apply safe_awaited, safe_call; [by exists q|]. intros. apply HQ.
Qed.

Section Submitting.

Context (body : SwapSubmitRequest) (q : PreparedSwapQuote).
Hypothesis Hid : quote_id q = trim (s_quote_id body).

(** The last steps: the network knows the transaction, the quote is finalized. *)
Lemma finish_safe {A} hash (k : Prog Reply (Result A ApiError)) h :
  seen q h → tx_hash q = Some hash → accepted hash h → (∀ h', safe k h' (λ _ _, True)) →
  safe (mtry (finalize body hash) (λ _, k)) h (λ _ _, True).
Proof.
  intros Hs Hh Hacc Hk. apply safe_try. eapply finalize_safe; [done..|]. by intros [].
Qed.

Lemma broadcast_safe hash h :
  seen q h → tx_hash q = Some hash → safe (broadcast_and_finalize body q hash) h (λ _ _, True).
Proof.
  intros Hs Hh. unfold broadcast_and_finalize. apply safe_try, verify_safe; [|done]. intros hash' Hsig _.
  apply safe_try, safe_refuse; [done|]. intros ->%bool_decide_eq_false%dec_stable.
  apply safe_bind, swap_ask; [by exists q, hash|]. intros [b|e] h1 Hs1 Hb.
  - apply safe_try, safe_refuse; [done|]. intros Hbh. apply finish_safe; [by eapply quote_seen_mono|done| |done].
    right. exists (trim (s_signed_xdr body)), b, q. split; [done|]. split; [done|].
    apply andb_false_iff in Hbh as [E|E]; apply bool_decide_eq_false, dec_stable in E; auto.
  - destruct (is_transient_transport e).
    + apply safe_bind, swap_ask; [done|]. intros [[b|]|] h2 Hs2 Hb2; try done.
      apply safe_try, safe_refuse; [done|]. intros E%bool_decide_eq_false%dec_stable.
      apply finish_safe; [eapply quote_seen_mono; [|done]; set_solver|done| |done]. left. by exists b.
    + by apply safe_bind, safe_call.
Qed.

Lemma expired_safe h (Q : bool → list (Event Reply) → Prop) :
  (∀ b h', h ⊆ h' → Q b h') → safe (quote_timebounds_expired q) h Q.
Proof.
  intros HQ. unfold quote_timebounds_expired. destruct (q_timebounds_max q) as [m|]; [|by apply HQ].
  destruct (0 <? m); [|by apply HQ]. apply safe_bind, swap_ask; [done|]. intros. by apply HQ.
Qed.

Lemma reconcile_safe hash h :
  seen q h → tx_hash q = Some hash → safe (reconcile_or_rebroadcast body q hash) h (λ _ _, True).
Proof.
  intros Hs Hh. unfold reconcile_or_rebroadcast. apply safe_try, verify_safe; [|done]. intros _ _ _.
  apply safe_bind, swap_ask; [done|]. intros [[b|]|e] h1 Hs1 Hb.
  - apply safe_try, safe_refuse; [done|]. intros E%bool_decide_eq_false%dec_stable.
    apply finish_safe; [by eapply quote_seen_mono|done| |done]. left. by exists b.
  - apply safe_bind, expired_safe. intros [] h2 Hs2; [by apply safe_bind, safe_call|].
    apply broadcast_safe; [|done]. eapply quote_seen_mono; [|done]. set_solver.
  - by destruct (is_transient_transport e).
Qed.

Lemma resume_safe h : seen q h → safe (resume_submitting body q) h (λ _ _, True).
Proof.
  intros Hs. unfold resume_submitting. destruct (tx_hash q) as [[|c hash]|] eqn:Hh; [|by apply reconcile_safe|];
    (apply safe_bind, expired_safe; intros [] h1 _; [by apply safe_bind, safe_call|done]).
Qed.

End Submitting.

Lemma submit_prepared_safe body q h :
  quote_id q = trim (s_quote_id body) → seen q h → safe (submit_prepared body q) h (λ _ _, True).
Proof.
  intros Hid Hs. unfold submit_prepared. apply safe_try, safe_refuse; [done|]. intros _.
  apply safe_try, verify_safe; [|done]. intros hash Hsig _. cbv zeta.
  apply safe_try, safe_awaited, safe_call; [exists q; eauto using signed_bound|].
  intros [[q'|q'|tx|]|] h1 Hs1 He Ht; try done; cbn [map_err]; cbn in Ht.
  - destruct Ht as [Hid' Hh]. apply broadcast_safe; [done| |done].
    by eexists (Happened (CClaim (trim (s_quote_id body)) hash) (Ok (Claimed q'))).
  - apply resume_safe; [done|]. by eexists (Happened (CClaim (trim (s_quote_id body)) hash) (Ok (InProgress q'))).
Qed.

Lemma submit_safe body h : safe (submit_swap_inner body) h (λ _ _, True).
Proof.
  unfold submit_swap_inner. do 3 (apply safe_try, safe_refuse; [done|]; intros _). cbv zeta.
  apply safe_try, safe_awaited, safe_call; [done|]. intros [o|] h1 Hs1 He Ht; [cbn [map_err]|done].
  apply safe_try, safe_some_or; [intros q ->|done]. cbn in Ht.
  assert (Hs : seen q h1) by (by eexists (Happened (CGet (trim (s_quote_id body))) (Ok (Some q)))).
  destruct (submission_status q); try done; [|by apply resume_safe].
  apply safe_bind, swap_ask; [done|]. intros now h2 Hs2 _. destruct (dt_lt _ _).
  - by apply safe_bind, safe_call.
  - apply submit_prepared_safe; [done|by eapply quote_seen_mono].
Qed.

(** Every task of the server keeps to the protocol. *)
Lemma swap_program_safe hd h : safe (program env swap_price_source hd) h (λ _ _, True).
Proof.
  destruct hd as [body|body]; apply safe_bind; eapply safe_weaken; [|apply prepare_safe| |apply submit_safe]; done.
Qed.

Lemma swap_coherent S :
  reachable exec (program env swap_price_source) ∅ S → distinct_ids (history S) →
  coherent env swap_price_source (world S) (history S).
Proof. intros Hr Hd. by destruct (tasks_invariant exec (program env swap_price_source) ∅ S swap_program_safe Hr Hd). Qed.

End Safe.
