(* ===== verification/SwapFlowProps.v ===== *)
(** * Swaps: what is broadcast, what is recorded

    Properties of every run of the prepare and submit handlers, however they interleave,
    fail or are repeated, with their instances on concrete runs. *)

From stdpp Require Import base decidable strings numbers list gmap.
From Stdlib Require Import ZArith Lia.
From S2P Require Import Xdr Health Prelude RustStr Result F64 ApiErrors Tasks CctpMessage CctpEncoding.
From S2P Require Import CctpStore SwapRoute SwapTx Broadcast SwapFlow SwapFlowLogic.

Local Open Scope Z_scope.
Local Open Scope str_scope.

(** ** A concrete server for swaps

    Instances of the parameters of the swap model and runs of the server on them: an
    account prepares a swap of ten lumens, signs it and submits it. The codec knows the
    envelopes of this swap only; digests and hexadecimal are the identity. *)

(** Time in seconds. *)
Definition seconds : Time := {| DateTime := Z; dt_lt := Z.ltb; plus_seconds := Z.add |}.
Definition calendar : @Calendar seconds :=
  @Build_Calendar seconds (λ t : Z, t) (λ t : Z, t * 1000).
Definition plain_hex : Hex := {| hex_decode := Some; hex_encode := λ bs, bs |}.
Definition plain_digest : Digest := λ bs, bs.
Definition show : ShowF64 := format7.

(** The only accounts are those of 32 characters. *)
Definition plain_strkey : Strkey := {|
  account_from_string := λ s, if bool_decide (length s = 32%nat) then Some s else None;
  account_to_string := λ k, k;
  muxed_from_string := λ _, None;
  muxed_to_string := λ p, p.1;
  contract_from_string := λ _, None;
  contract_to_string := λ k, k;
|}.

#[export] Existing Instances seconds calendar plain_hex plain_digest show plain_strkey.

(** ** The swap *)

Definition alice : Str := $"GALICE00000000000000000000000001".
Definition issuer : Str := $"GISSUER0000000000000000000000002".
Definition usdc : AssetPath := mkAssetPath $"USDC" (Some issuer).

Definition hop : RouteDryRunHop := mkRouteDryRunHop native usdc $"sdex" None None None.
Definition body : SwapPrepareRequest := mkSwapPrepareRequest [hop] $"10" alice None None.
Definition process_env : Env := mkEnv None None None None.

(** Two units for one. *)
Definition rate : option f64 := Some (of_int 2).

Definition swap_tx : Transaction :=
  mkTransaction (Ed25519 alice) 100 8 (CondTime 0 1120) MemoNone
    [mkOperation None (PathPaymentStrictSend
       (mkPathPaymentStrictSendOp Asset.Native 100000000 (Ed25519 alice)
          (Asset.CreditAlphanum4 $"USDC" issuer) 199000000 []))] ExtV0.

Definition good_signature : DecoratedSignature := mkDecoratedSignature (drop 28 alice) (replicate 64 1).

Definition unsigned_xdr : Str := $"UNSIGNED".
Definition signed_xdr : Str := $"SIGNED".

Definition xdr : XdrLib := {|
  signature_payload := λ net tx, if bool_decide (tx = swap_tx) then Ok (net ++ $":swap") else Err $"unknown";
  to_xdr_base64 := λ e,
    if bool_decide (e = EnvelopeTx swap_tx []) then Ok unsigned_xdr
    else if bool_decide (e = EnvelopeTx swap_tx [good_signature]) then Ok signed_xdr
    else Err $"unknown";
  from_xdr_base64 := λ s,
    if bool_decide (s = unsigned_xdr) then Ok (EnvelopeTx swap_tx [])
    else if bool_decide (s = signed_xdr) then Ok (EnvelopeTx swap_tx [good_signature])
    else Err $"unknown";
  valid_key := λ _, true;
  ed25519_verify := λ key _ sig, bool_decide (key = alice ∧ sig = replicate 64 1);
  base64_valid := λ _, true;
|}.

#[export] Existing Instance xdr.

#[export] Instance xdr_ok : XdrOk.
Proof. split. intros e s Hs. cbn in Hs. repeat case_bool_decide; simplify_eq; vm_compute; reflexivity. Qed.

(** ** Runs *)

(** The answers of the outside at a time: what the broadcaster replies is given. *)
Definition oracle (now : Z) (id : Str) (submitted : Result BroadcastResult BroadcastError)
    (found : Result (option BroadcastResult) BroadcastError) : Oracle :=
  mkOracle (T := seconds) now (λ e,
    match e return Answer e with
    | Now => now
    | NewQuoteId => id
    | GetOverrideRegistry => mkOverrideRegistry ∅ (λ _, None)
    | QuoteForPair _ _ _ => Err ApiError.NoRouteFound
    | CurrentSequence _ => Ok 7
    | Submit _ => submitted
    | Lookup _ => found
    end).

Definition quiet (now : Z) : Oracle := oracle now $"q1" (Err BroadcastError.Timeout) (Ok None).

Definition swap_hash : Str := TESTNET_PASSPHRASE ++ $":swap".

Definition took : Oracle := oracle 1010 [] (Ok (mkBroadcastResult swap_hash $"success" (Some 5))) (Ok None).

Definition submission : SwapSubmitRequest := mkSwapSubmitRequest $"q1" signed_xdr.

(** The server after a run. *)
Definition server (ms : list Move) : System := after exec (program process_env rate) (∅ : Quotes) ms.

(** A prepare makes eight calls, a submit five. *)
Definition prepare_run : list (Move (Oracle := Oracle) (Handler := Handler)) :=
  Start (HPrepare body) :: replicate 8 (Run 0 (quiet 1000)).

Definition submit_run : list (Move (Oracle := Oracle) (Handler := Handler)) :=
  prepare_run ++ Start (HSubmit submission) ::
  [Run 0 (quiet 1010); Run 0 (quiet 1010); Run 0 (quiet 1010); Run 0 took; Run 0 (quiet 1010)].

(** Two requests submit the same quote. The first has claimed it when the second finds it
    claimed, does not find the transaction on the network, and broadcasts it; the network
    takes it. Then the first broadcasts it too and is told that the sequence number is
    used, which marks the quote as failed before the second can finalize it. *)
Definition bad_sequence : Oracle := oracle 1010 [] (Err BroadcastError.BadSequence) (Ok None).

Definition race_run : list (Move (Oracle := Oracle) (Handler := Handler)) :=
  prepare_run ++
  [Start (HSubmit submission); Run 0 (quiet 1010); Run 0 (quiet 1010); Run 0 (quiet 1010);
   Start (HSubmit submission); Run 0 (quiet 1010); Run 0 (quiet 1010); Run 0 (quiet 1010); Run 0 took;
   Run 1 bad_sequence; Run 1 (quiet 1010); Run 0 (quiet 1010)].

Definition status_of (S : System (Reply := Reply) (World := Quotes)) (id : Str) : option SubmissionStatus :=
  submission_status <$> world S !! id.

Example prepared_by_run : status_of (server prepare_run) $"q1" = Some SubmissionStatus.Prepared.
Proof. vm_compute. reflexivity. Qed.

Example submitted_by_run : status_of (server submit_run) $"q1" = Some SubmissionStatus.Submitted.
Proof. vm_compute. reflexivity. Qed.

Example failed_by_race : status_of (server race_run) $"q1" = Some SubmissionStatus.Failed.
Proof. vm_compute. reflexivity. Qed.

Section Runs.

Context {T : Time} {Cal : Calendar} {H : Hex} {K : Strkey} {D : Digest} {X : XdrLib} {Sh : ShowF64}.
Variable env : Env.
Variable swap_price_source : option f64.

Implicit Types (S : System (Reply := Reply) (World := Quotes)).

Local Abbreviation reachable := (reachable exec (program env swap_price_source) (∅ : Quotes)).
Local Abbreviation step := (step exec (program env swap_price_source)).

(** ** The transaction of a quote *)

(** The encodings of the two unsigned transactions differ and have the same digest. *)
Definition digests_collide (tx tx' : Transaction) : Prop := ∃ x x',
  to_xdr_base64 (EnvelopeTx tx []) = Ok x ∧ to_xdr_base64 (EnvelopeTx tx' []) = Ok x' ∧
  x ≠ x' ∧ hash_xdr x = hash_xdr x'.

Lemma stands_for_unique `{!XdrOk} tx tx' q : stands_for tx q → stands_for tx' q → tx = tx' ∨ digests_collide tx tx'.
Proof.
  intros (x & Hx & Ex) (x' & Hx' & Ex'). destruct (decide (x = x')) as [<-|Hne].
  - left. apply xdr_roundtrip in Hx, Hx'. congruence.
  - right. exists x, x'. split_and!; [done..|congruence].
Qed.

(** The next call of a task is permitted. *)
Lemma next_permitted w h ts1 ts2 c k :
  reachable (mkSystem w h (ts1 ++ Request c k :: ts2)) → distinct_ids h → may_call env swap_price_source c h.
Proof.
  intros Hr Hd. destruct (tasks_invariant exec (program env swap_price_source) ∅ _
    (P := swap_protocol env swap_price_source) (swap_program_safe _ _) Hr Hd) as [_ Hts].
  by apply Forall_app in Hts as [_ [[Hp _] _]%Forall_cons].
Qed.

(** A call that was made was permitted: the history before it held the evidence. *)
Lemma call_permitted S c r :
  reachable S → distinct_ids (history S) → Happened c r ∈ history S → may_call env swap_price_source c (history S).
Proof.
  intros Hr. induction Hr as [|S S' Hr IH Hst]; cbn; [intros _ []%elem_of_nil|].
  destruct Hst as [w h ts hd|w h ts1 ts2 c' k o r' w' Hx]; cbn in *; [done|]. intros Hd.
  assert (Hsub : h ⊆ Happened c' r' :: h) by set_solver. intros [E|Hin]%elem_of_cons.
  - apply (swap_may_call_mono _ _ _ h); [done|].
    assert (c = c') as -> by congruence. eapply next_permitted; [done|by eapply distinct_tail].
  - apply (swap_may_call_mono _ _ _ h); [done|]. apply IH; [by eapply distinct_tail|done].
Qed.

(** C15: nothing is broadcast but prepared swaps, signed by their senders. Whatever clients
    send and however requests interleave, as long as no two quotes were stored under the
    same identifier: an envelope that was handed to the network decodes to a transaction
    under one signature that verifies, for the hash that is recorded in a stored quote,
    with the key of the quote's sender; the quote was claimed for it; and the transaction
    has the digest of the one that was built when the quote was prepared, on terms that
    were validated and priced. So it is that very transaction, unless the client found two
    encodings with the same SHA-256 digest. (The codec is assumed to read what it
    writes.) *)
Theorem broadcast_prepared_and_signed `{!XdrOk} S xdr r :
  reachable S → distinct_ids (history S) → Happened (CExternal (Submit xdr)) r ∈ history S →
  ∃ q t tx tx' sig key hb, world S !! quote_id q = Some q ∧
    tx_hash q = Some (hex_encode hb) ∧ submission_status q ≠ SubmissionStatus.Prepared ∧
    drafted env swap_price_source q t tx (history S) ∧
    from_xdr_base64 (trim xdr) = Ok (EnvelopeTx tx' [sig]) ∧ stands_for tx' q ∧
    (tx' = tx ∨ digests_collide tx' tx) ∧
    account_from_string (trim (sender_account q)) = Some key ∧
    transaction_hash tx' (network_passphrase q) = Ok hb ∧ ed25519_verify key hb (signature sig) = true.
Proof.
  intros Hr Hd Hin. pose proof (swap_coherent _ _ _ Hr Hd) as Hco.
  destruct (call_permitted _ _ _ Hr Hd Hin) as (q & hash & Hs & Hh & Hsig).
  destruct (co_seen _ _ _ _ Hco _ Hs) as (cur & Hcur & [Ef Eh _]).
  pose proof (co_key _ _ _ _ Hco _ _ Hcur) as Hid. rewrite <- Hid in Hcur.
  destruct (co_drafted _ _ _ _ Hco _ _ Hcur) as (t & tx & Hdr).
  destruct (signed_envelope _ _ _ Hsig) as (tx' & sig & key & hb & Hdec & Hst & Hkey & Hhb & -> & Hver).
  pose proof (stands_for_frozen _ _ _ (eq_sym Ef) Hst) as Hst'.
  apply terms_eq in Ef as (_ & E1 & _ & E2 & _).
  exists cur, t, tx, tx', sig, key, hb. rewrite E1, E2. split_and!; try done; [by apply Eh| |].
  - intros Hp. pose proof (co_sound _ _ _ _ Hco _ _ Hcur) as Hsnd. unfold sound in Hsnd. rewrite Hp in Hsnd.
    by rewrite (Eh _ Hh) in Hsnd.
  - eapply stands_for_unique; [done|apply Hdr].
Qed.

(** ** The life of a quote *)

Lemma step_evolves S S' id q :
  reachable S → step S S' → distinct_ids (history S') → world S !! id = Some q →
  ∃ q', world S' !! id = Some q' ∧ evolves q q' ∧
    (submission_status q' = submission_status q ∨ status_step (submission_status q) (submission_status q')).
Proof.
  intros Hr Hst Hd Hq. destruct Hst as [w h ts hd|w h ts1 ts2 c k o r w' Hx]; cbn [world history] in *;
    [exists q; split; [done|by split; [reflexivity|left]]|].
  pose proof (swap_coherent _ _ _ Hr (distinct_tail _ _ Hd)) as Hco. cbn in Hco.
  (* The quote is a reply that the store could give now. *)
  assert (Hco1 : coherent env swap_price_source w (Happened (CGet id) (Ok (Some q)) :: h)).
  { eapply coherent_keeps; [done|apply quotes_keep|]. intros q0 [= <-]. by rewrite (co_key _ _ _ _ Hco _ _ Hq). }
  pose proof (next_permitted _ _ _ _ _ _ Hr (distinct_tail _ _ Hd)) as Hp.
  destruct (call_coherent env swap_price_source o c w (Happened (CGet id) (Ok (Some q)) :: h) r w' Hco1) as [Hco2 _];
    [|by eapply swap_may_call_mono; [|exact Hp]; set_solver|done|].
  { unfold distinct_ids in *. cbn in *. exact Hd. }
  destruct (co_seen _ _ _ _ Hco2 q) as (q' & Hq' & Hev).
  { exists (Happened (CGet id) (Ok (Some q))). split; [set_solver|done]. }
  rewrite (co_key _ _ _ _ Hco _ _ Hq) in Hq'. exists q'. split; [done|]. split; [done|].
  by eapply (call_status env swap_price_source o c w h r w' id).
Qed.

(** C34: the life of a quote. Every step of the server, from any reachable state and whatever
    runs, keeps each stored quote with its terms, its sender and its unsigned
    transaction; once it has a transaction hash it keeps it; and its status stays or makes
    one move, from prepared to submitting or failed, or from submitting to submitted or
    failed. In particular nothing leaves submitted or failed, and nothing becomes
    submitted that was not submitting. (As long as no two quotes are stored under the same
    identifier, which the server draws at random.) *)
Theorem quote_lifecycle S S' id q :
  reachable S → step S S' → distinct_ids (history S') → world S !! id = Some q →
  ∃ q', world S' !! id = Some q' ∧ frozen q' = frozen q ∧
    (∀ hash, tx_hash q = Some hash → tx_hash q' = Some hash) ∧
    (submission_status q' = submission_status q ∨ status_step (submission_status q) (submission_status q')).
Proof.
  intros Hr Hst Hd Hq. destruct (step_evolves _ _ _ _ Hr Hst Hd Hq) as (q' & Hq' & [] & Hs). eauto 10.
Qed.

(** Over any number of steps. *)
Theorem quote_kept S S' id q :
  reachable S → rtc step S S' → distinct_ids (history S') → world S !! id = Some q →
  ∃ q', world S' !! id = Some q' ∧ frozen q' = frozen q ∧
    (∀ hash, tx_hash q = Some hash → tx_hash q' = Some hash) ∧
    rtc status_step (submission_status q) (submission_status q').
Proof.
  intros Hr Hrtc Hd Hq.
  enough (∃ q', world S' !! id = Some q' ∧ evolves q q' ∧ rtc status_step (submission_status q) (submission_status q'))
    as (q' & ? & [] & ?) by eauto 10.
  revert q Hr Hd Hq. induction Hrtc as [S|S S1 S' Hst Hrtc IH]; intros q Hr Hd Hq;
    [exists q; split; [done|split; [reflexivity|constructor]]|].
  assert (Hd1 : distinct_ids (history S1)).
  { clear -Hrtc Hd. induction Hrtc as [|x y z Hxy _ IH]; [done|]. specialize (IH Hd). destruct Hxy; [done|]. by eapply distinct_tail. }
  destruct (step_evolves _ _ _ _ Hr Hst Hd1 Hq) as (q1 & Hq1 & Hev & Hs).
  destruct (IH q1) as (q' & Hq' & Hev' & Hs'); [by eapply reach_step|done..|]. exists q'.
  split; [done|]. split; [by etrans|]. destruct Hs as [E|Hs]; [by rewrite <- E|by eapply rtc_l].
Qed.

(** A quote is recorded as submitted only if the network has its transaction: Horizon took
    an envelope that is this transaction with the sender's signature, or found the
    transaction under the recorded hash, which is the hash of what was prepared. *)
Theorem submitted_is_accepted S id q :
  reachable S → distinct_ids (history S) → world S !! id = Some q →
  submission_status q = SubmissionStatus.Submitted →
  ∃ hash tx, tx_hash q = Some hash ∧ stands_for tx q ∧
    transaction_hash_hex tx (network_passphrase q) = Ok hash ∧ accepted hash (history S).
Proof.
  intros Hr Hd Hq Hst. pose proof (co_sound _ _ _ _ (swap_coherent _ _ _ Hr Hd) _ _ Hq) as Hs.
  unfold sound in Hs. rewrite Hst in Hs. destruct Hs as (hash & Hh & (tx & Hs & Ht) & Hacc). by exists hash, tx.
Qed.

End Runs.

(** ** On concrete runs *)

Lemma server_reachable ms : Tasks.reachable exec (program process_env rate) (∅ : Quotes) (server ms).
Proof. apply after_reachable. Qed.

(** The quote of the runs. *)
Definition quote_of (ms : list Move) : PreparedSwapQuote :=
  default (mkPreparedSwapQuote [] [] [] [] 0 [] [] [] [] [] [] [] None None None None SubmissionStatus.Failed None)
    ((world (server ms) : Quotes) !! lit "q1").

Lemma broadcast_prepared_and_signed_witness : ∃ q t tx tx' sig key hb, world (server submit_run) !! quote_id q = Some q ∧
    tx_hash q = Some (hex_encode hb) ∧ submission_status q ≠ SubmissionStatus.Prepared ∧
    drafted process_env rate q t tx (history (server submit_run)) ∧
    from_xdr_base64 (trim signed_xdr) = Ok (EnvelopeTx tx' [sig]) ∧ stands_for tx' q ∧
    (tx' = tx ∨ digests_collide tx' tx) ∧
    account_from_string (trim (sender_account q)) = Some key ∧
    transaction_hash tx' (network_passphrase q) = Ok hb ∧ ed25519_verify key hb (signature sig) = true.
Proof.
  apply (broadcast_prepared_and_signed process_env rate (server submit_run) signed_xdr
           (Ok (mkBroadcastResult swap_hash (lit "success") (Some 5)))).
  - apply server_reachable.
  - apply (bool_decide_unpack _). vm_compute. exact I.
  - apply (list_elem_of_lookup_2 _ 1). vm_compute. reflexivity.
Defined.

(** The claim of the quote: the third call of its submission. *)
Definition claim_run : list (Move (Oracle := Oracle) (Handler := Handler)) :=
  prepare_run ++ [Start (HSubmit submission); Run 0 (quiet 1010); Run 0 (quiet 1010)].

Lemma quote_lifecycle_witness : ∃ q', world (server (claim_run ++ [Run 0 (quiet 1010)])) !! lit "q1" = Some q' ∧
    frozen q' = frozen (quote_of claim_run) ∧
    (∀ hash, tx_hash (quote_of claim_run) = Some hash → tx_hash q' = Some hash) ∧
    (submission_status q' = submission_status (quote_of claim_run) ∨
     status_step (submission_status (quote_of claim_run)) (submission_status q')).
Proof.
  apply (quote_lifecycle process_env rate (server claim_run)).
  - apply server_reachable.
  - apply (move_step _ _ _ (Run 0 (quiet 1010))). vm_compute. reflexivity.
  - apply (bool_decide_unpack _). vm_compute. exact I.
  - vm_compute. reflexivity.
Defined.

Lemma submitted_is_accepted_witness : ∃ hash tx, tx_hash (quote_of submit_run) = Some hash ∧
    stands_for tx (quote_of submit_run) ∧
    transaction_hash_hex tx (network_passphrase (quote_of submit_run)) = Ok hash ∧
    accepted hash (history (server submit_run)).
Proof.
  apply (submitted_is_accepted process_env rate (server submit_run) (lit "q1")).
  - apply server_reachable.
  - apply (bool_decide_unpack _). vm_compute. exact I.
  - vm_compute. reflexivity.
  - vm_compute. reflexivity.
Defined.

(** A quote may be recorded as failed although the network has taken its transaction:
    submitting it twice at a time is enough. Its sender may then prepare and submit the
    same swap again. *)
Theorem failed_yet_accepted :
  status_of (server race_run) (lit "q1") = Some SubmissionStatus.Failed ∧
  tx_hash (quote_of race_run) = Some swap_hash ∧
  accepted swap_hash (history (server race_run)).
Proof.
  split; [vm_compute; reflexivity|]. split; [vm_compute; reflexivity|]. right.
  exists signed_xdr, (mkBroadcastResult swap_hash (lit "success") (Some 5)), (quote_of race_run).
  split; [|split; [vm_compute; reflexivity|by right]].
  apply (list_elem_of_lookup_2 _ 3). vm_compute. reflexivity.
Qed.
