(* ===== verification/Card.v ===== *)
(** * The card program: pure parts (api: card/auth_state.rs, ledger.rs, limits.rs, mcc.rs,
      fiat.rs, reconcile.rs)

    The state machine of an authorization, the ledger of a card, spending limits, blocked
    merchant categories, the fiat allowlist, and the reconciliation of a ledger with the
    events of the partner. *)

From stdpp Require Import base decidable strings numbers list gmap sorting.
From S2P Require Import Prelude RustStr Result.

Local Open Scope Z_scope.
Local Open Scope str_scope.
Local Open Scope record_scope.

(** ** The state machine of an authorization (auth_state.rs) *)

Module AuthorizationState.

Inductive AuthorizationState := Pending | Approved | Captured | Voided | Expired.

End AuthorizationState.

Abbreviation AuthorizationState := AuthorizationState.AuthorizationState (only parsing).

Module AuthorizationEvent.

Inductive AuthorizationEvent := Approve | Capture | Void | Expire.

End AuthorizationEvent.

Abbreviation AuthorizationEvent := AuthorizationEvent.AuthorizationEvent (only parsing).

Record TransitionError := mkTransitionError {
  te_from : AuthorizationState;
  te_to : AuthorizationState;
}.

Definition old_state (e : TransitionError) : AuthorizationState := te_from e.

Definition transition (current target : AuthorizationState) : Result AuthorizationState TransitionError :=
  match current, target with
  | AuthorizationState.Pending, AuthorizationState.Approved
  | AuthorizationState.Pending, AuthorizationState.Voided
  | AuthorizationState.Pending, AuthorizationState.Expired
  | AuthorizationState.Approved, AuthorizationState.Captured
  | AuthorizationState.Approved, AuthorizationState.Voided
  | AuthorizationState.Approved, AuthorizationState.Expired => Ok target
  | _, _ => Err (mkTransitionError current target)
  end.

Definition apply_event (current : AuthorizationState) (event : AuthorizationEvent) :
    Result AuthorizationState TransitionError :=
  transition current match event with
                     | AuthorizationEvent.Approve => AuthorizationState.Approved
                     | AuthorizationEvent.Capture => AuthorizationState.Captured
                     | AuthorizationEvent.Void => AuthorizationState.Voided
                     | AuthorizationEvent.Expire => AuthorizationState.Expired
                     end.

(** ** The ledger (ledger.rs) *)

Record CardLedger := mkCardLedger {
  available : Z;
  held : Z;
  spent : Z;
}.

Module LedgerError.

Inductive LedgerError := InvalidAmount | InsufficientAvailable | InsufficientHeld.

End LedgerError.

Abbreviation LedgerError := LedgerError.LedgerError (only parsing).

(** Plain arithmetic of [i64]. *)
Abbreviation arith checks := (plain checks I64) (only parsing).

Definition ledger_new (available : Z) : Result CardLedger LedgerError :=
  if available <? 0 then Err LedgerError.InvalidAmount else Ok (mkCardLedger available 0 0).

(** The error, or the ledger after; [None] where the code panics. *)
Abbreviation LedgerResult := (option (Result CardLedger LedgerError)) (only parsing).

(** Moves [amount] between two accounts. *)
Definition both (a b : option Z) (k : Z → Z → CardLedger) : LedgerResult :=
  match a, b with
  | Some x, Some y => Some (Ok (k x y))
  | _, _ => None
  end.

Definition hold (checks : bool) (l : CardLedger) (amount : Z) : LedgerResult :=
  if amount <? 0 then Some (Err LedgerError.InvalidAmount)
  else if available l <? amount then Some (Err LedgerError.InsufficientAvailable)
  else both (arith checks (available l - amount)) (arith checks (held l + amount))
         (λ a h, mkCardLedger a h (spent l)).

Definition capture (checks : bool) (l : CardLedger) (amount : Z) : LedgerResult :=
  if amount <? 0 then Some (Err LedgerError.InvalidAmount)
  else if held l <? amount then Some (Err LedgerError.InsufficientHeld)
  else both (arith checks (held l - amount)) (arith checks (spent l + amount))
         (λ h s, mkCardLedger (available l) h s).

Definition release (checks : bool) (l : CardLedger) (amount : Z) : LedgerResult :=
  if amount <? 0 then Some (Err LedgerError.InvalidAmount)
  else if held l <? amount then Some (Err LedgerError.InsufficientHeld)
  else both (arith checks (held l - amount)) (arith checks (available l + amount))
         (λ h a, mkCardLedger a h (spent l)).

(** ** Spending limits (limits.rs) *)

Record SpendingLimit := mkSpendingLimit {
  limit_stroops : Z;
  window_seconds : Z;
}.

Inductive LimitCheckResult := Allowed | LimitExceeded.

(** The prior authorizations come in the order in which the map is iterated. *)
Definition check_limit (limit : SpendingLimit) (prior : list (Z * Z)) (new_amount now_secs : Z) : LimitCheckResult :=
  let window_start := saturating_sub U64 now_secs (window_seconds limit) in
  let total := fold_left (λ total '(amount, timestamp),
                 if (window_start <=? timestamp) && (timestamp <=? now_secs)
                 then saturating_add I64 total amount else total) prior 0 in
  if limit_stroops limit <? saturating_add I64 total new_amount then LimitExceeded else Allowed.

(** ** Merchant categories (mcc.rs) *)

Abbreviation MccBlockPolicy := (gset Str) (only parsing).

Definition from_list (mccs : list Str) : MccBlockPolicy := list_to_set mccs.

(** [CARD_BLOCKED_MCCS]: the comma-separated codes, trimmed, without empty ones. *)
Definition comma : Z := 44.

Definition mcc_from_env (value : option Str) : MccBlockPolicy :=
  match value with
  | Some v =>
      if bool_decide (trim v = []) then ∅
      else from_list (filter (λ s, s ≠ []) (trim <$> split comma (trim v)))
  | None => ∅
  end.

Definition is_blocked (policy : MccBlockPolicy) (mcc : Str) : bool := bool_decide (mcc ∈ policy).

Definition block (policy : MccBlockPolicy) (mcc : Str) : MccBlockPolicy := {[mcc]} ∪ policy.

Definition unblock (policy : MccBlockPolicy) (mcc : Str) : bool * MccBlockPolicy :=
  (bool_decide (mcc ∈ policy), policy ∖ {[mcc]}).

(** ** Fiat currencies (fiat.rs) *)

Definition ALLOWED_FIAT : list (Str * Z) :=
  [($"USD", 2); ($"EUR", 2); ($"GBP", 2); ($"CAD", 2); ($"AUD", 2); ($"JPY", 0); ($"NGN", 2)].

Definition find_fiat (code : Str) : option (Str * Z) :=
  snd <$> list_find (λ entry : Str * Z, eq_ignore_ascii_case entry.1 (trim code) = true) ALLOWED_FIAT.

Definition canonical (code : Str) : option Str := fst <$> find_fiat code.

Definition decimals (code : Str) : option Z := snd <$> find_fiat code.

Definition validate_fiat (code : option Str) : Result Str Str :=
  match code with
  | Some code =>
      if bool_decide (trim code = []) then
        Err $"currency is required and must be one of USD, EUR, GBP, CAD, AUD, JPY, NGN"
      else ok_or (canonical code) $"currency must be one of USD, EUR, GBP, CAD, AUD, JPY, NGN"
  | None => Err $"currency is required and must be one of USD, EUR, GBP, CAD, AUD, JPY, NGN"
  end.

(** ** Reconciliation (reconcile.rs) *)

Record CardAuthorization := mkCardAuthorization {
  auth_id : Str;
  amount_stroops : Z;
}.

Inductive CardPartnerEventKind :=
| Authorization
| Clearing
| Reversal
| Refund (amount_stroops : Z).

Record CardPartnerEvent := mkCardPartnerEvent {
  event_id : Str;
  e_auth_id : Str;
  kind : CardPartnerEventKind;
}.

Record CardLedgerSnapshot := mkCardLedgerSnapshot {
  held_stroops : Z;
  spent_stroops : Z;
}.

Inductive CardReconciliationIssue :=
| MissingClearing
| DoubleCapture
| UnknownAuthorization
| InvalidTransition
| RefundExceedsCaptured
| AggregateDrift.

#[export] Instance Issue_eq_dec : EqDecision CardReconciliationIssue.
Proof. solve_decision. Defined.

(** In the order of the type, in which sets of issues are listed. *)
Definition ALL_ISSUES : list CardReconciliationIssue :=
  [MissingClearing; DoubleCapture; UnknownAuthorization; InvalidTransition; RefundExceedsCaptured; AggregateDrift].

Record CardReconciliationMismatch := mkMismatch {
  m_auth_ids : list Str;
  m_issues : list CardReconciliationIssue;
  expected_held_stroops : Z;
  actual_held_stroops : Z;
  expected_spent_stroops : Z;
  actual_spent_stroops : Z;
}.

Record AuthState := mkAuthState {
  as_amount : Z;
  as_held : Z;
  as_spent : Z;
  cleared : bool;
  reversed : bool;
}.

#[export] Instance AuthState_eta : Eta AuthState := λ s,
  mkAuthState (as_amount s) (as_held s) (as_spent s) (cleared s) (reversed s).

(** The map from issues to identifiers, as the list of what was added to it. *)
Abbreviation Issues := (list (CardReconciliationIssue * Str)) (only parsing).

(** The order of strings, in which maps and sets are iterated. *)
Fixpoint str_leb (s t : Str) : bool :=
  match s, t with
  | [], _ => true
  | _ :: _, [] => false
  | a :: s', b :: t' => (a <? b) || ((a =? b) && str_leb s' t')
  end.

Definition str_le (s t : Str) : Prop := str_leb s t = true.

#[export] Instance str_le_dec : RelDecision str_le.
Proof. unfold str_le. solve_decision. Defined.

Definition sorted (ids : gset Str) : list Str := merge_sort str_le (elements ids).

(** Of an authorization: blank ones are skipped, invalid and repeated ones reported. *)
Definition register (acc : gmap Str AuthState * Issues) (a : CardAuthorization) : gmap Str AuthState * Issues :=
  let '(states, issues) := acc in
  if bool_decide (trim (auth_id a) = []) then acc
  else if amount_stroops a <=? 0 then (states, (InvalidTransition, auth_id a) :: issues)
  else if bool_decide (is_Some (states !! auth_id a)) then (states, (InvalidTransition, auth_id a) :: issues)
  else (<[auth_id a := mkAuthState (amount_stroops a) (amount_stroops a) 0 false false]> states, issues).

(** Of an event for a known authorization: the new state or the issue. *)
Definition settle (s : AuthState) (k : CardPartnerEventKind) : AuthState * option CardReconciliationIssue :=
  match k with
  | Authorization => (s, None)
  | Clearing =>
      if cleared s then (s, Some DoubleCapture)
      else if reversed s || (as_held s <? as_amount s) then (s, Some InvalidTransition)
      else let s' := s <| as_held := as_held s - as_amount s |> <| cleared := true |> in
           match checked_add I64 (as_spent s) (as_amount s) with
           | Some total => (s' <| as_spent := total |>, None)
           | None => (s', Some InvalidTransition)
           end
  | Reversal =>
      if cleared s || reversed s || (as_held s <? as_amount s) then (s, Some InvalidTransition)
      else (s <| as_held := 0 |> <| reversed := true |>, None)
  | Refund amount =>
      if amount <=? 0 then (s, Some InvalidTransition)
      else if as_spent s <? amount then (s, Some RefundExceedsCaptured)
      else (s <| as_spent := as_spent s - amount |>, None)
  end.

(** Of an event: repeated identifiers are ignored. *)
Definition process (acc : gmap Str AuthState * gset Str * Issues) (e : CardPartnerEvent) :
    gmap Str AuthState * gset Str * Issues :=
  let '(states, seen, issues) := acc in
  if bool_decide (event_id e ∈ seen) then acc
  else let seen' := {[event_id e]} ∪ seen in
       match states !! e_auth_id e with
       | None => (states, seen', (UnknownAuthorization, e_auth_id e) :: issues)
       | Some s =>
           let (s', issue) := settle s (kind e) in
           (<[e_auth_id e := s']> states, seen',
            match issue with
            | Some i => (i, e_auth_id e) :: issues
            | None => issues
            end)
       end.

(** One more summand; a sum that leaves [i64] is reported and not changed. *)
Definition add_checked (id : Str) (acc : Z * Issues) (x : Z) : Z * Issues :=
  match checked_add I64 acc.1 x with
  | Some sum => (sum, acc.2)
  | None => (acc.1, (InvalidTransition, id) :: acc.2)
  end.

(** The expected held and spent amounts. *)
Definition add_state (states : gmap Str AuthState) (acc : Z * Z * Issues) (id : Str) : Z * Z * Issues :=
  let '(expected_held, expected_spent, issues) := acc in
  match states !! id with
  | Some s =>
      let (h, issues') := add_checked id (expected_held, issues) (as_held s) in
      let (p, issues'') := add_checked id (expected_spent, issues') (as_spent s) in
      (h, p, issues'')
  | None => acc
  end.

Definition totals (states : gmap Str AuthState) (issues : Issues) : Z * Z * Issues :=
  fold_left (add_state states) (sorted (dom states)) (0, 0, issues).

Definition reconcile_card_ledger (authorizations : list CardAuthorization) (events : list CardPartnerEvent)
    (ledger : CardLedgerSnapshot) : list CardReconciliationMismatch :=
  let '(states0, issues0) := fold_left register authorizations (∅, []) in
  let '(states, _, issues1) := fold_left process events (states0, ∅, issues0) in
  let '(expected_held, expected_spent, issues2) := totals states issues1 in
  let drift := negb (expected_held =? held_stroops ledger) || negb (expected_spent =? spent_stroops ledger) in
  if bool_decide (issues2 = []) && negb drift then []
  else
  let event_issues := issues2.*1 in
  let event_ids : gset Str := list_to_set issues2.*2 in
  let issues :=
    if drift then
      if bool_decide (event_issues = []) then [AggregateDrift]
      else if bool_decide (DoubleCapture ∉ event_issues) && (expected_spent <? spent_stroops ledger) &&
              (held_stroops ledger <? expected_held)
      then MissingClearing :: event_issues else event_issues
    else event_issues in
  let auth_ids := if drift && bool_decide (event_ids = ∅) then sorted (dom states) else sorted event_ids in
  [mkMismatch auth_ids (filter (λ i, i ∈ issues) ALL_ISSUES)
     expected_held (held_stroops ledger) expected_spent (spent_stroops ledger)].
