(* ===== verification/CardReconcile.v ===== *)
(** * The card program: what a clean reconciliation means

    [reconcile_card_ledger] reads two logs in one pass each, with a map from
    authorizations to their running state. [balances] says the same of each
    authorization alone: the events that concern it are nothing, one reversal, or one
    clearing and refunds of no more than was captured. The theorem is that an empty
    report means exactly that every authorization balances and that the ledger holds
    the sums. *)

From stdpp Require Import base decidable strings numbers list gmap sorting.
From Stdlib Require Import ZArith Lia.
From S2P Require Import Prelude RustStr Result Card.

Local Open Scope Z_scope.
Local Open Scope str_scope.
Local Open Scope record_scope.

(** ** The specification *)

Definition is_baseline (k : CardPartnerEventKind) : bool :=
  match k with
  | Authorization => true
  | _ => false
  end.

Definition refunded (k : CardPartnerEventKind) : option Z :=
  match k with
  | Refund z => Some z
  | _ => None
  end.

(** Held and spent of one authorization after its events, if they are in order. *)
Definition balance (amount : Z) (ks : list CardPartnerEventKind) : option (Z * Z) :=
  match List.filter (λ k, negb (is_baseline k)) ks with
  | [] => Some (amount, 0)
  | [Reversal] => Some (0, 0)
  | Clearing :: rest =>
      match mapM refunded rest with
      | Some rs =>
          if bool_decide (Forall (Z.lt 0) rs ∧ sum_of id rs ≤ amount) then Some (0, amount - sum_of id rs) else None
      | None => None
      end
  | _ => None
  end.

(** The events that are not repetitions. *)
Fixpoint fresh (seen : gset Str) (es : list CardPartnerEvent) : list CardPartnerEvent :=
  match es with
  | [] => []
  | e :: es' =>
      if bool_decide (event_id e ∈ seen) then fresh seen es' else e :: fresh ({[event_id e]} ∪ seen) es'
  end.

Definition kinds_of (id : Str) (es : list CardPartnerEvent) : list CardPartnerEventKind :=
  kind <$> filter (λ e, e_auth_id e = id) es.

Definition named (auths : list CardAuthorization) : list CardAuthorization :=
  filter (λ a, trim (auth_id a) ≠ []) auths.

Record clean (auths : list CardAuthorization) (events : list CardPartnerEvent) (ledger : CardLedgerSnapshot) : Prop := {
  clean_distinct : NoDup (auth_id <$> named auths);
  clean_positive : Forall (λ a, 0 < amount_stroops a) (named auths);
  clean_known : Forall (λ e, e_auth_id e ∈ auth_id <$> named auths) (fresh ∅ events);
  clean_balances : ∃ bs,
    mapM (λ a, balance (amount_stroops a) (kinds_of (auth_id a) (fresh ∅ events))) (named auths) = Some bs ∧
    sum_of fst bs = held_stroops ledger ∧ sum_of snd bs = spent_stroops ledger;
}.

(** ** One authorization *)

(** Its state after a list of events, if none of them is reported. *)
Fixpoint settles (s : AuthState) (ks : list CardPartnerEventKind) : option AuthState :=
  match ks with
  | [] => Some s
  | k :: ks' =>
      match settle s k with
      | (s', None) => settles s' ks'
      | (_, Some _) => None
      end
  end.

Definition opened (amount : Z) : AuthState := mkAuthState amount amount 0 false false.

Definition figures (s : AuthState) : Z * Z := (as_held s, as_spent s).

Lemma settles_captured amount p ks :
  0 ≤ p → figures <$> settles (mkAuthState amount 0 p true false) ks =
  match mapM refunded (List.filter (λ k, negb (is_baseline k)) ks) with
  | Some rs => if bool_decide (Forall (Z.lt 0) rs ∧ sum_of id rs ≤ p) then Some (0, p - sum_of id rs) else None
  | None => None
  end.
Proof.
  revert p. induction ks as [|k ks IH]; intros p Hp; cbn.
  { rewrite bool_decide_true by (split; [constructor|done]). by rewrite Z.sub_0_r. }
  destruct k as [| | |z]; cbn; [by apply IH|done..|].
  assert (Hpos : ∀ rs, Forall (Z.lt 0) rs → 0 ≤ sum_of id rs).
  { intros rs Hrs. apply sum_of_nonneg. intros x Hx. by apply Z.lt_le_incl, (proj1 (Forall_forall _ rs) Hrs). }
  destruct (Z.leb_spec z 0) as [Hz|Hz], (Z.ltb_spec p z) as [Hpz|Hpz]; cbn -[sum_of];
    [..|etrans; [apply (IH (p - z)); lia|]]; destruct (mapM refunded _) as [rs|]; cbn -[sum_of]; try done;
    change (sum_of id (z :: rs)) with (z + sum_of id rs).
  1-3: rewrite bool_decide_false; [done|]; intros [[? ?%Hpos]%Forall_cons ?]; lia.
  replace (p - (z + sum_of id rs)) with (p - z - sum_of id rs) by lia.
  erewrite bool_decide_ext; [reflexivity|]. rewrite Forall_cons. intuition lia.
Qed.

(** The running state gives the figures of the specification. *)
Lemma settles_balance amount ks :
  0 < amount ≤ int_max I64 → figures <$> settles (opened amount) ks = balance amount ks.
Proof.
  intros Ha. unfold balance. induction ks as [|k ks IH]; [done|].
  destruct k as [| | |z]; cbn -[int_max]; [exact IH| | |].
  - rewrite Z.ltb_irrefl. unfold checked_add. cbn -[int_max chk]. rewrite Z.add_0_l, chk_fits by (unfold fits; cbn [int_min]; lia).
    etrans; [|apply (settles_captured amount amount); lia]. cbn. by rewrite Z.sub_diag.
  - rewrite Z.ltb_irrefl. clear. cbn. induction ks as [|k ks IH]; [done|].
    destruct k as [| | |z]; cbn; [exact IH|done..|].
    destruct (Z.leb_spec z 0); [done|]. by rewrite (proj2 (Z.ltb_lt 0 z)) by lia.
  - destruct (Z.leb_spec z 0); [done|]. by rewrite (proj2 (Z.ltb_lt 0 z)) by lia.
Qed.

(** ** The authorizations *)

Definition register_all (l : list CardAuthorization) : gmap Str AuthState :=
  list_to_map ((λ a, (auth_id a, opened (amount_stroops a))) <$> l).

Lemma register_all_lookup l id s :
  register_all l !! id = Some s → ∃ a, a ∈ l ∧ auth_id a = id ∧ s = opened (amount_stroops a).
Proof. intros H%elem_of_list_to_map_2. set_solver. Qed.

Lemma register_all_mem l id : is_Some (register_all l !! id) ↔ id ∈ auth_id <$> l.
Proof.
  rewrite <- elem_of_dom. unfold register_all. rewrite dom_list_to_map_L, <- list_fmap_compose. set_solver.
Qed.

Lemma register_all_NoDup l a :
  NoDup (auth_id <$> l) → a ∈ l → register_all l !! auth_id a = Some (opened (amount_stroops a)).
Proof.
  intros Hn Ha. apply elem_of_list_to_map_1; [|by apply list_elem_of_fmap; exists a].
  by rewrite <- list_fmap_compose.
Qed.

(** Issues are never taken back. *)
Lemma register_issues l acc : acc.2 ≠ [] → (fold_left register l acc).2 ≠ [].
Proof.
  revert acc; induction l as [|a l IH]; intros [st iss] Hi; [done|]. apply IH. cbn. repeat case_match; cbn in *; congruence.
Qed.

Lemma named_cons a l :
  named (a :: l) = if bool_decide (trim (auth_id a) = []) then named l else a :: named l.
Proof. unfold named. rewrite filter_cons. repeat case_decide; case_bool_decide; tauto. Qed.

Lemma register_fold l l0 :
  NoDup (auth_id <$> l0) →
  if decide (NoDup (auth_id <$> (l0 ++ named l)) ∧ Forall (λ a, 0 < amount_stroops a) (named l))
  then fold_left register l (register_all l0, []) = (register_all (l0 ++ named l), [])
  else (fold_left register l (register_all l0, [])).2 ≠ [].
Proof.
  revert l0; induction l as [|a l IH]; intros l0 Hn; cbn [fold_left].
  { change (named []) with (@nil CardAuthorization). rewrite app_nil_r. case_decide as Hd; [done|].
    destruct Hd. by split; [|constructor]. }
  rewrite named_cons. unfold register at 2 4. destruct (bool_decide (trim _ = [])); [by apply IH|].
  destruct (Z.leb_spec (amount_stroops a) 0) as [Ha|Ha].
  { rewrite decide_False by (intros [_ [? _]%Forall_cons]; lia). by apply register_issues. }
  rewrite bool_decide_decide. destruct (decide (is_Some _)) as [Hm|Hm].
  - apply register_all_mem in Hm. rewrite decide_False; [by apply register_issues|].
    intros [Hd _]. rewrite fmap_app, fmap_cons in Hd. apply NoDup_app in Hd as (_ & Hd & _). apply (Hd _ Hm). set_solver.
  - rewrite register_all_mem in Hm.
    assert (E : <[auth_id a := opened (amount_stroops a)]> (register_all l0) = register_all (l0 ++ [a])).
    { unfold register_all. rewrite fmap_app. symmetry. apply list_to_map_snoc. by rewrite <- list_fmap_compose. }
    change (mkAuthState _ _ 0 false false) with (opened (amount_stroops a)). rewrite E.
    specialize (IH (l0 ++ [a])). rewrite <- app_assoc in IH. cbn in IH.
    erewrite decide_ext; [apply IH|].
    + rewrite fmap_app. apply NoDup_app. split_and!; [done|set_solver|apply NoDup_singleton].
    + rewrite Forall_cons. tauto.
Qed.

(** ** The events *)

Definition forget_seen (r : gmap Str AuthState * gset Str * Issues) : gmap Str AuthState * Issues := (r.1.1, r.2).

(** What an event that is not repeated does. *)
Definition process_fresh (acc : gmap Str AuthState * Issues) (e : CardPartnerEvent) : gmap Str AuthState * Issues :=
  forget_seen (process (acc.1, ∅, acc.2) e).

Lemma process_fold es st seen iss :
  forget_seen (fold_left process es (st, seen, iss)) = fold_left process_fresh (fresh seen es) (st, iss).
Proof.
  revert st seen iss; induction es as [|e es IH]; intros st seen iss; cbn [fold_left fresh]; [done|].
  unfold process at 2. case_bool_decide as Hs; [apply IH|]. cbn [fold_left]. unfold process_fresh at 2, process. cbn.
  rewrite bool_decide_false by set_solver. destruct (st !! e_auth_id e) as [s|]; [|apply IH].
  destruct (settle s (kind e)); apply IH.
Qed.

Lemma process_issues es acc : acc.2 ≠ [] → (fold_left process_fresh es acc).2 ≠ [].
Proof.
  revert acc; induction es as [|e es IH]; intros [st iss] Hi; [done|]. apply IH. unfold process_fresh, process. cbn.
  repeat case_match; cbn in *; congruence.
Qed.

Lemma kinds_of_cons id e es :
  kinds_of id (e :: es) = if decide (e_auth_id e = id) then kind e :: kinds_of id es else kinds_of id es.
Proof. unfold kinds_of. rewrite filter_cons. by case_decide. Qed.

(** Each authorization settles on its own. *)
Lemma process_each es st :
  (∃ st', fold_left process_fresh es (st, []) = (st', []) ∧ dom st' = dom st ∧
     (∀ e, e ∈ es → e_auth_id e ∈ dom st) ∧
     ∀ id s, st !! id = Some s → st' !! id = settles s (kinds_of id es)) ∨
  ((fold_left process_fresh es (st, [])).2 ≠ [] ∧
   ((∃ e, e ∈ es ∧ e_auth_id e ∉ dom st) ∨ ∃ id s, st !! id = Some s ∧ settles s (kinds_of id es) = None)).
Proof.
  revert st; induction es as [|e es IH]; intros st; cbn [fold_left].
  { left. exists st. split_and!; [done|done|set_solver|done]. }
  unfold process_fresh at 2 4, process, forget_seen. cbn [fst snd]. rewrite bool_decide_false by set_solver.
  destruct (st !! e_auth_id e) as [s|] eqn:Es; cbn [fst snd].
  2:{ right. split; [by apply process_issues|]. left. exists e. split; [set_solver|]. by apply not_elem_of_dom. }
  destruct (settle s (kind e)) as [s' [i|]] eqn:Et; cbn [fst snd].
  { right. split; [by apply process_issues|]. right. exists (e_auth_id e), s. split; [done|].
    rewrite kinds_of_cons, decide_True by done. cbn. by rewrite Et. }
  assert (Hd : dom (<[e_auth_id e:=s']> st) = dom st).
  { rewrite dom_insert_lookup_L; [done|by exists s]. }
  assert (Hs : ∀ id s0, st !! id = Some s0 → ∃ s1, <[e_auth_id e:=s']> st !! id = Some s1 ∧
                 settles s0 (kinds_of id (e :: es)) = settles s1 (kinds_of id es)).
  { intros id s0 H0. rewrite kinds_of_cons. case_decide as E.
    - subst id. rewrite lookup_insert_eq. exists s'. split; [done|].
      assert (s0 = s) as -> by congruence. cbn. by rewrite Et.
    - rewrite lookup_insert_ne by done. by exists s0. }
  destruct (IH (<[e_auth_id e:=s']> st)) as [(st' & E & Hd' & Hk & Hst)|(E & [(e' & He & Hk)|(id & s1 & H1 & Hn)])].
  - left. exists st'. split_and!; [done|congruence| |].
    + intros e' [->|He]%elem_of_cons; [by apply elem_of_dom_2 in Es|]. rewrite <- Hd. by apply Hk.
    + intros id s0 H0. destruct (Hs id s0 H0) as (s1 & H1 & ->). by apply Hst.
  - right. split; [done|]. left. exists e'. split; [set_solver|]. by rewrite <- Hd.
  - right. split; [done|]. right. assert (is_Some (st !! id)) as [s0 H0].
    { apply elem_of_dom. rewrite <- Hd. by eapply elem_of_dom_2. }
    exists id, s0. split; [done|]. destruct (Hs id s0 H0) as (s2 & H2 & ->). congruence.
Qed.

(** ** The sums *)

Definition total_in (f : AuthState → Z) (states : gmap Str AuthState) (ids : list Str) : Z :=
  sum_of (λ id, from_option f 0 (states !! id)) ids.

Lemma add_state_issues states ids acc : acc.2 ≠ [] → (fold_left (add_state states) ids acc).2 ≠ [].
Proof.
  revert acc; induction ids as [|id ids IH]; intros [[h p] iss] Hi; [done|]. apply IH. cbn -[checked_add].
  unfold add_checked. repeat case_match; cbn in *; simplify_eq/=; congruence.
Qed.

Lemma totals_issues states iss h p : iss ≠ [] → totals states iss ≠ (h, p, []).
Proof.
  intros Hi E. pose proof (add_state_issues states (sorted (dom states)) (0, 0, iss) Hi) as Hn.
  unfold totals in E. by rewrite E in Hn.
Qed.

Definition figures_nonneg (states : gmap Str AuthState) : Prop :=
  ∀ id s, states !! id = Some s → 0 ≤ as_held s ∧ 0 ≤ as_spent s.

Lemma total_in_nonneg f states ids :
  (∀ id s, states !! id = Some s → 0 ≤ f s) → 0 ≤ total_in f states ids.
Proof. intros Hf. apply sum_of_nonneg. intros id _. destruct (states !! id) as [s|] eqn:E; cbn; [by eapply Hf|lia]. Qed.

(** The checked sums report an overflow exactly when a total leaves the range. *)
Lemma add_state_fold states ids h p :
  figures_nonneg states → 0 ≤ h ≤ int_max I64 → 0 ≤ p ≤ int_max I64 →
  if decide (h + total_in as_held states ids ≤ int_max I64 ∧ p + total_in as_spent states ids ≤ int_max I64)
  then fold_left (add_state states) ids (h, p, []) = (h + total_in as_held states ids, p + total_in as_spent states ids, [])
  else (fold_left (add_state states) ids (h, p, [])).2 ≠ [].
Proof.
  intros Hs. revert h p; induction ids as [|id ids IH]; intros h p Hh Hp; cbn [fold_left].
  { rewrite decide_True by (cbn -[int_max]; lia). cbn. by rewrite !Z.add_0_r. }
  pose proof (total_in_nonneg as_held states ids (λ id s E, proj1 (Hs id s E))).
  pose proof (total_in_nonneg as_spent states ids (λ id s E, proj2 (Hs id s E))).
  unfold total_in, sum_of in *. cbn [foldr]. unfold add_state at 2 4.
  destruct (states !! id) as [s|] eqn:Es; cbn [from_option]; [|by rewrite !Z.add_0_l; apply IH].
  destruct (Hs _ _ Es) as [Hsh Hsp]. unfold add_checked. cbn [fst snd].
  assert (Hmin : int_min I64 < 0) by done.
  destruct (checked_add I64 h (as_held s)) as [h'|] eqn:Eh.
  2:{ apply chk_None in Eh. unfold fits in Eh. rewrite decide_False by lia.
      destruct (checked_add I64 p (as_spent s)); by apply add_state_issues. }
  apply chk_Some in Eh as [-> Eh]. cbn [fst snd].
  destruct (checked_add I64 p (as_spent s)) as [p'|] eqn:Ep.
  2:{ apply chk_None in Ep. unfold fits in Ep. rewrite decide_False by lia. by apply add_state_issues. }
  apply chk_Some in Ep as [-> Ep]. unfold fits in *. rewrite !Z.add_assoc. apply IH; lia.
Qed.

(** ** The report *)

Lemma reconcile_nil_iff auths events ledger :
  reconcile_card_ledger auths events ledger = [] ↔
  let '(states0, issues0) := fold_left register auths (∅, []) in
  let '(states, issues1) := fold_left process_fresh (fresh ∅ events) (states0, issues0) in
  totals states issues1 = (held_stroops ledger, spent_stroops ledger, []).
Proof.
  unfold reconcile_card_ledger. destruct (fold_left register auths (∅, [])) as [states0 issues0].
  rewrite <- process_fold. destruct (fold_left process events (states0, ∅, issues0)) as [[states seen] issues1]. cbn [forget_seen fst snd].
  destruct (totals states issues1) as [[h p] iss]. case_bool_decide as Hi; cbn [andb].
  - subst iss. destruct (Z.eqb_spec h (held_stroops ledger)) as [->|], (Z.eqb_spec p (spent_stroops ledger)) as [->|]; cbn;
      split; try done; congruence.
  - split; [done|]. congruence.
Qed.

Lemma mapM_sums {A} (f : A → option (Z * Z)) (g h : A → Z) l bs :
  mapM f l = Some bs → (∀ a b, a ∈ l → f a = Some b → g a = b.1 ∧ h a = b.2) →
  sum_of g l = sum_of fst bs ∧ sum_of h l = sum_of snd bs.
Proof.
  intros Hm%mapM_Some Hgh. revert Hgh. induction Hm as [|a b l bs Hab _ IH]; intros Hgh; [done|].
  destruct (Hgh a b) as [Ea Eb]; [set_solver|done|]. destruct IH as [IH1 IH2]; [set_solver|].
  unfold sum_of in *. cbn. lia.
Qed.

Lemma balance_nonneg amount ks h p : 0 ≤ amount → balance amount ks = Some (h, p) → 0 ≤ h ∧ 0 ≤ p.
Proof.
  intros Ha. unfold balance. destruct (List.filter _ ks) as [|[] [|k ks']]; intros E; repeat case_match; simplify_eq/=; try lia.
  all: case_bool_decide; simplify_eq; lia.
Qed.

Section Settled.

Context (auths : list CardAuthorization) (es : list CardPartnerEvent).
Hypothesis distinct : NoDup (auth_id <$> auths).
Hypothesis positive : Forall (λ a, 0 < amount_stroops a) auths.
Hypothesis in_i64 : Forall (λ a, amount_stroops a ≤ int_max I64) auths.

Local Abbreviation balance_of := (λ a, balance (amount_stroops a) (kinds_of (auth_id a) es)).

Lemma settles_auth a : a ∈ auths → figures <$> settles (opened (amount_stroops a)) (kinds_of (auth_id a) es) = balance_of a.
Proof. rewrite Forall_forall in positive, in_i64. intros Ha. apply settles_balance. split; auto. Qed.

(** When every authorization settles, the totals are those of the specification. *)
Lemma settled_totals st' :
  dom st' = dom (register_all auths) →
  (∀ id s, register_all auths !! id = Some s → st' !! id = settles s (kinds_of id es)) →
  ∃ bs, mapM balance_of auths = Some bs ∧ figures_nonneg st' ∧
    total_in as_held st' (sorted (dom st')) = sum_of fst bs ∧ total_in as_spent st' (sorted (dom st')) = sum_of snd bs.
Proof.
  intros Hd Hst.
  assert (Hst' : ∀ a, a ∈ auths → figures <$> st' !! auth_id a = balance_of a).
  { intros a Ha. rewrite <- settles_auth by done. by rewrite (Hst _ _ (register_all_NoDup _ _ distinct Ha)). }
  assert (Hsome : Forall (λ a, is_Some (balance_of a)) auths).
  { apply Forall_forall. intros a Ha. rewrite <- Hst' by done. apply fmap_is_Some, elem_of_dom.
    rewrite Hd. apply elem_of_dom, register_all_mem. set_solver. }
  apply mapM_is_Some_2 in Hsome as [bs Hbs]. exists bs. split; [done|]. split.
  { intros id s Hs. assert (Hin : id ∈ auth_id <$> auths).
    { apply register_all_mem, elem_of_dom. rewrite <- Hd. by eapply elem_of_dom_2. }
    apply list_elem_of_fmap in Hin as (a & -> & Ha). specialize (Hst' _ Ha). rewrite Hs in Hst'.
    rewrite Forall_forall in positive. eapply balance_nonneg; [|by rewrite <- Hst']. apply Z.lt_le_incl. auto. }
  assert (Hp : sorted (dom st') ≡ₚ auth_id <$> auths).
  { unfold sorted. rewrite merge_sort_Permutation. apply NoDup_Permutation; [apply NoDup_elements|done|].
    intros id. rewrite elem_of_elements, Hd, elem_of_dom. apply register_all_mem. }
  unfold total_in. rewrite !(sum_of_perm _ _ _ Hp). unfold sum_of. rewrite !foldr_fmap.
  apply (mapM_sums balance_of); [done|]. intros a [h p] Ha Eb. rewrite <- Hst' in Eb by done.
  destruct (st' !! auth_id a) as [s|]; [|done]. injection Eb as <- <-. done.
Qed.

End Settled.

(** C17: an empty report means that the books agree. For amounts in the range of [i64], and
    leaving aside authorizations with a blank name, which are skipped whatever they say:
    the report is empty if and only if the authorizations have distinct names and positive
    amounts; every event that does not repeat the identifier of an earlier one names one
    of them; these events of each, other than authorization events, which count for
    nothing, are none, one reversal, or one clearing followed by refunds of positive
    amounts, together at most the captured one; and the ledger shows exactly the sums of
    what is then held and spent. No overflow can make wrong books pass. *)
Theorem reconcile_clean_iff auths events ledger :
  Forall (λ a, amount_stroops a ≤ int_max I64) auths → fits I64 (held_stroops ledger) → fits I64 (spent_stroops ledger) →
  reconcile_card_ledger auths events ledger = [] ↔ clean auths events ledger.
Proof.
  intros Hi Hh Hp. rewrite reconcile_nil_iff. pose proof (register_fold auths [] ltac:(constructor)) as Hr.
  change (register_all []) with (∅ : gmap Str AuthState) in Hr. cbn [app] in Hr.
  assert (Hi' : Forall (λ a, amount_stroops a ≤ int_max I64) (named auths)).
  { apply Forall_forall. intros a [_ Ha]%list_elem_of_filter. by eapply Forall_forall in Hi. }
  case_decide as Hd; cycle 1.
  { destruct (fold_left register auths (∅, [])) as [st iss]. cbn [snd] in Hr.
    pose proof (process_issues (fresh ∅ events) (st, iss) Hr) as Hr'.
    destruct (fold_left process_fresh _ _) as [st' iss']. cbn [snd] in Hr'. split; [by intros ?%totals_issues|].
    intros []. by destruct Hd. }
  destruct Hd as [Hd Hpos]. rewrite Hr.
  destruct (process_each (fresh ∅ events) (register_all (named auths))) as [(st' & E & Hdom & Hk & Hst)|(Hn & Hbad)].
  - rewrite E. destruct (settled_totals _ _ Hd Hpos Hi' st' Hdom Hst) as (bs & Hbs & Hnn & E1 & E2).
    pose proof (add_state_fold st' (sorted (dom st')) 0 0 Hnn ltac:(done) ltac:(done)) as Ht.
    rewrite E1, E2, !Z.add_0_l in Ht. unfold totals. case_decide as Hle.
    + rewrite Ht. split; [intros [= ??]|intros [_ _ _ (bs' & Hbs' & <- & <-)]; by simplify_eq].
      split; [done..| |by exists bs]. apply Forall_forall. intros e He. by apply register_all_mem, elem_of_dom, Hk.
    + split; [intros E'; by rewrite E' in Ht|]. intros [_ _ _ (bs' & Hbs' & E3 & E4)]. simplify_eq. unfold fits in *. lia.
  - destruct (fold_left process_fresh _ _) as [st' iss']. cbn [snd] in Hn. split; [by intros ?%totals_issues|].
    intros [_ _ Hk (bs & Hbs & _)]. exfalso. rewrite Forall_forall in Hk. destruct Hbad as [(e & He & Hne)|(id & s & Hs & Hnone)].
    + apply Hne, elem_of_dom, register_all_mem. by apply Hk.
    + apply register_all_lookup in Hs as (a & Ha & <- & ->). apply mk_is_Some, mapM_is_Some_1 in Hbs.
      rewrite Forall_forall in Hbs. destruct (Hbs a Ha) as [b Eb].
      rewrite <- (settles_auth (named auths)) in Eb by done. by rewrite Hnone in Eb.
Qed.

(** A captured and partly refunded authorization beside a reversed and an open one. *)
Definition sample_auths : list CardAuthorization :=
  [mkCardAuthorization $"a" 100; mkCardAuthorization $"b" 50; mkCardAuthorization $"c" 30].

Definition sample_events : list CardPartnerEvent :=
  [mkCardPartnerEvent $"1" $"a" Authorization; mkCardPartnerEvent $"2" $"a" Clearing;
   mkCardPartnerEvent $"2" $"a" Clearing; mkCardPartnerEvent $"3" $"b" Reversal;
   mkCardPartnerEvent $"4" $"a" (Refund 40)].

Lemma reconcile_clean_iff_witness :
  reconcile_card_ledger sample_auths sample_events (mkCardLedgerSnapshot 30 60) = [] ∧
  clean sample_auths sample_events (mkCardLedgerSnapshot 30 60).
Proof.
  assert (E : reconcile_card_ledger sample_auths sample_events (mkCardLedgerSnapshot 30 60) = []) by (vm_compute; reflexivity).
  split; [exact E|]. apply (reconcile_clean_iff sample_auths sample_events (mkCardLedgerSnapshot 30 60)); [..|exact E].
  - repeat constructor; vm_compute; discriminate.
  - split; vm_compute; discriminate.
  - split; vm_compute; discriminate.
Defined.

(** A capture without a clearing event is not reported as such when nothing else is wrong. *)
Example missing_clearing_unnamed :
  reconcile_card_ledger [mkCardAuthorization $"auth-1" 100] [] (mkCardLedgerSnapshot 0 100) =
  [mkMismatch [$"auth-1"] [AggregateDrift] 100 0 0 100].
Proof. vm_compute. reflexivity. Qed.

(** Authorizations without a name are never reported, repeated or with wrong amounts. *)
Example blank_authorizations_skipped :
  reconcile_card_ledger [mkCardAuthorization $"" (-5); mkCardAuthorization $"" 7; mkCardAuthorization $" " 7] []
    (mkCardLedgerSnapshot 0 0) = [].
Proof. vm_compute. reflexivity. Qed.
