(* ===== verification/CardStore.v ===== *)
(** * The card program: store and handlers (api: card/store.rs, card/mod.rs)

    The in-memory store of applications, authorizations, holds and partner events, whose
    operations take a lock each, and the HTTP handlers as programs of calls to it. JSON
    values are a parameter. *)

From stdpp Require Import base decidable strings numbers list gmap.
From S2P Require Import Prelude RustStr Result F64 Tasks Card.

Local Open Scope Z_scope.
Local Open Scope str_scope.
Local Open Scope record_scope.
Local Open Scope prog_scope.

(** ** Records (store.rs) *)

Module State.

Inductive State := Pending | Approved | Captured | Reversed | Refunded.

End State.

Abbreviation State := State.State (only parsing).

#[export] Instance State_eq_dec : EqDecision State.
Proof. solve_decision. Defined.

Record ApplicationRecord := mkApplicationRecord {
  application_id : Str;
  app_name : Str;
  app_country : Str;
  app_currency : Str;
  monthly_limit_usdc : Z;
  app_status : Str;
}.

Record AuthorizationRecord := mkAuthorizationRecord {
  authorization_id : Str;
  state : State;
  a_amount : Z;
  a_spent : Z;
  fiat_amount : Z;
  fiat_currency : Str;
  rate : f64;
  rate_locked_at : Z;
  a_tx_hash : Str;
}.

#[export] Instance AuthorizationRecord_eta : Eta AuthorizationRecord := λ r,
  mkAuthorizationRecord (authorization_id r) (state r) (a_amount r) (a_spent r) (fiat_amount r) (fiat_currency r)
    (rate r) (rate_locked_at r) (a_tx_hash r).

(** The values of serde_json, and the object that the handler builds. *)
Class Json := {
  Value : Type;
  event_payload : Str → Str → Str → option Z → option Value → Value;
}.

Record PartnerEventRecord {J : Json} := mkPartnerEventRecord {
  p_event_id : Str;
  p_event_type : option Str;
  p_payload : Value;
}.

Arguments mkPartnerEventRecord {J}.

Module StoreError.

Inductive StoreError :=
| UnknownId (id : Str)
| AlreadyExists (id : Str)
| AlreadyApproved
| TxAlreadyUsed
| AuthorizationNotFound
| HoldNotFound
| AmountExceedsAvailable
| RefundExceedsCaptured
| FiatAmountMismatch
| UnsupportedEventType.

End StoreError.

Abbreviation StoreError := StoreError.StoreError (only parsing).

Section Store.

Context {J : Json}.

Record Inner := mkInner {
  applications : gmap Str ApplicationRecord;
  authorizations : gmap Str AuthorizationRecord;
  tx_to_auth : gmap Str Str;
  holds : gmap Str Z;
  events : gmap Str PartnerEventRecord;
}.

#[export] Instance Inner_eta : Eta Inner := λ i,
  mkInner (applications i) (authorizations i) (tx_to_auth i) (holds i) (events i).

Definition empty_inner : Inner := mkInner ∅ ∅ ∅ ∅ ∅.

(** An operation that does not panic. *)
Abbreviation Op A := (Inner → Result A StoreError * Inner) (only parsing).

(** *** Applications *)

Definition insert_application (app : ApplicationRecord) : Op ApplicationRecord := λ i,
  if bool_decide (is_Some (applications i !! application_id app)) then
    (Err (StoreError.AlreadyExists (application_id app)), i)
  else (Ok app, i <| applications ::= insert (application_id app) app |>).

Definition get_application (id : Str) (i : Inner) : option ApplicationRecord := applications i !! id.

Definition update_application (app : ApplicationRecord) : Op ApplicationRecord := λ i,
  if bool_decide (is_Some (applications i !! application_id app)) then
    (Ok app, i <| applications ::= insert (application_id app) app |>)
  else (Err (StoreError.UnknownId (application_id app)), i).

(** *** Authorizations *)

Definition insert_authorization (auth : AuthorizationRecord) : Op AuthorizationRecord := λ i,
  let id := authorization_id auth in
  if bool_decide (is_Some (authorizations i !! id)) then (Err (StoreError.AlreadyExists id), i)
  else if bool_decide (a_tx_hash auth ≠ []) && negb (bool_decide (default id (tx_to_auth i !! a_tx_hash auth) = id))
  then (Err StoreError.TxAlreadyUsed, i)
  else
  let i1 := if bool_decide (a_tx_hash auth ≠ []) then i <| tx_to_auth ::= insert (a_tx_hash auth) id |> else i in
  let i2 := if 0 <? a_amount auth then i1 <| holds ::= insert id (a_amount auth) |> else i1 in
  (Ok auth, i2 <| authorizations ::= insert id auth |>).

Definition get_authorization (id : Str) (i : Inner) : option AuthorizationRecord := authorizations i !! id.

Definition update_authorization (auth : AuthorizationRecord) : Op AuthorizationRecord := λ i,
  if bool_decide (is_Some (authorizations i !! authorization_id auth)) then
    (Ok auth, i <| authorizations ::= insert (authorization_id auth) auth |>)
  else (Err (StoreError.UnknownId (authorization_id auth)), i).

Definition approve_and_hold_with_fx (id tx_hash : Str) (amount fiat : Z) (currency : Str) (rate : f64)
    (rate_locked_at : Z) : Op AuthorizationRecord := λ i,
  if negb (bool_decide (default id (tx_to_auth i !! tx_hash) = id)) then (Err StoreError.TxAlreadyUsed, i)
  else if bool_decide (state <$> authorizations i !! id = Some State.Approved) then (Err StoreError.AlreadyApproved, i)
  else
  let record := mkAuthorizationRecord id State.Approved amount 0 fiat currency rate rate_locked_at tx_hash in
  (Ok record, i <| authorizations ::= insert id record |> <| tx_to_auth ::= insert tx_hash id |>
                <| holds ::= insert id amount |>).

Definition approve_and_hold (id tx_hash : Str) (amount : Z) : Op AuthorizationRecord :=
  approve_and_hold_with_fx id tx_hash amount 0 [] fzero 0.

(** The operations below compute with plain [i64] arithmetic; [None] where it panics,
    which happens before anything is written. *)
Abbreviation PanickingOp A := (Inner → option (Result A StoreError * Inner)) (only parsing).

(** The hold of a record, or its amount if there is none. *)
Definition current_hold (i : Inner) (id : Str) (r : AuthorizationRecord) : Z := default (a_amount r) (holds i !! id).

Definition write (i : Inner) (id : Str) (hold : Z) (r : AuthorizationRecord) : Inner :=
  i <| holds ::= insert id hold |> <| authorizations ::= insert id r |>.

Definition capture_hold (checks : bool) (id : Str) (amount : Z) : PanickingOp AuthorizationRecord := λ i,
  match authorizations i !! id with
  | None => Some (Err StoreError.AuthorizationNotFound, i)
  | Some r =>
      let held := current_hold i id r in
      if held <? amount then Some (Err StoreError.AmountExceedsAvailable, i)
      else match arith checks (a_spent r + amount), arith checks (held - amount) with
           | Some spent, Some held' =>
               let r' := r <| a_spent := spent |> <| state := State.Captured |> in
               Some (Ok r', write i id held' r')
           | _, _ => None
           end
  end.

Definition reverse_hold (id : Str) : Op AuthorizationRecord := λ i,
  match authorizations i !! id with
  | None => (Err StoreError.AuthorizationNotFound, i)
  | Some r =>
      if current_hold i id r =? 0 then (Err StoreError.HoldNotFound, i)
      else let r' := r <| a_amount := 0 |> <| a_spent := 0 |> <| state := State.Reversed |> in
           (Ok r', i <| holds ::= delete id |> <| authorizations ::= insert id r' |>)
  end.

Definition refund_hold (checks : bool) (id : Str) (amount : Z) : PanickingOp AuthorizationRecord := λ i,
  match authorizations i !! id with
  | None => Some (Err StoreError.AuthorizationNotFound, i)
  | Some r =>
      if a_spent r <? amount then Some (Err StoreError.RefundExceedsCaptured, i)
      else match arith checks (a_spent r - amount), arith checks (current_hold i id r + amount) with
           | Some spent, Some held' =>
               let r' := r <| a_spent := spent |> <| state := State.Refunded |> in
               Some (Ok r', write i id held' r')
           | _, _ => None
           end
  end.

Definition list_authorizations (i : Inner) : list AuthorizationRecord :=
  omap (λ id, authorizations i !! id) (sorted (dom (authorizations i))).

Definition held_for (id : Str) (i : Inner) : Z := default 0 (holds i !! id).

(** *** Partner events *)

Definition insert_partner_event (event : PartnerEventRecord) (i : Inner) : bool * Inner :=
  if bool_decide (is_Some (events i !! p_event_id event)) then (false, i)
  else (true, i <| events ::= insert (p_event_id event) event |>).

Definition partner_event (id : Str) (i : Inner) : option PartnerEventRecord := events i !! id.

Definition partner_event_count (i : Inner) : Z := Z.of_nat (size (events i)).

(** ** Calls of the handlers *)

(** The store and the frozen flag. *)
Record CardWorld := mkCardWorld {
  inner : Inner;
  frozen : bool;
}.

Inductive Call :=
| KIsFrozen
| KSetFrozen (b : bool)
| KList
| KInsertEvent (event : PartnerEventRecord)
| KAuthorization (id : Str)
| KApprove (id tx_hash : Str) (amount fiat : Z) (currency : Str) (rate : f64) (rate_locked_at : Z)
| KCapture (id : Str) (amount : Z)
| KReverse (id : Str)
| KRefund (id : Str) (amount : Z)
| KHeld (id : Str).

Definition Reply (c : Call) : Type :=
  match c with
  | KIsFrozen => bool
  | KSetFrozen _ => unit
  | KList => list AuthorizationRecord
  | KInsertEvent _ => bool
  | KAuthorization _ => option AuthorizationRecord
  | KApprove _ _ _ _ _ _ _ | KCapture _ _ | KReverse _ | KRefund _ _ => Result AuthorizationRecord StoreError
  | KHeld _ => Z
  end.

Definition on_inner {A} (w : CardWorld) (r : A * Inner) : option (A * CardWorld) :=
  Some (r.1, mkCardWorld r.2 (frozen w)).

Variable checks : bool.

(** Nothing is decided outside: the oracle is trivial. *)
Definition exec (_ : unit) (c : Call) (w : CardWorld) : option (Reply c * CardWorld) :=
  let i := inner w in
  match c with
  | KIsFrozen => Some (frozen w, w)
  | KSetFrozen b => Some (tt, mkCardWorld i b)
  | KList => Some (list_authorizations i, w)
  | KInsertEvent e => on_inner w (insert_partner_event e i)
  | KAuthorization id => Some (get_authorization id i, w)
  | KApprove id tx a f cur r l => on_inner w (approve_and_hold_with_fx id tx a f cur r l i)
  | KCapture id a => capture_hold checks id a i ≫= on_inner w
  | KReverse id => on_inner w (reverse_hold id i)
  | KRefund id a => refund_hold checks id a i ≫= on_inner w
  | KHeld id => Some (held_for id i, w)
  end.

(** ** Handlers (mod.rs) *)

Record CardAuthorizationRequest := mkCardAuthorizationRequest {
  ar_authorization_id : Str;
  ar_tx_hash : Str;
  ar_amount_stroops : Z;
  ar_fiat_amount : option Z;
  ar_fiat_currency : option Str;
  ar_rate : option f64;
  ar_rate_locked_at : option Z;
}.

Record PartnerEventRequest := mkPartnerEventRequest {
  pe_event_id : Str;
  pe_event_type : Str;
  pe_authorization_id : Str;
  pe_amount_stroops : option Z;
  pe_fiat_amount : option Z;
  pe_fiat_currency : option Str;
  pe_rate : option f64;
  pe_rate_locked_at : option Z;
  pe_payload : option Value;
}.

Inductive CardResponse :=
| NotFound404
| CardError (status : Z) (code message : Str)
| FrozenStatus (frozen : bool)
| AuthorizationList (rows : list AuthorizationRecord)
| AuthorizationApproved (record : AuthorizationRecord) (held : Z)
| EventDuplicate (event_id event_type authorization_id : Str)
| EventApplied (event_id event_type : Str) (record : AuthorizationRecord) (held : Z).

(** Whether the program is enabled on this deployment. *)
Variable enabled : bool.

Definition freeze_card : Prog Reply CardResponse :=
  if negb enabled then Return NotFound404
  else _ ⇐ call (KSetFrozen true); Return (FrozenStatus true).

Definition unfreeze_card : Prog Reply CardResponse :=
  if negb enabled then Return NotFound404
  else _ ⇐ call (KSetFrozen false); Return (FrozenStatus false).

Definition list_authorizations_handler : Prog Reply CardResponse :=
  if negb enabled then Return NotFound404
  else rows ⇐ call KList; Return (AuthorizationList rows).

Definition partner_event_error (e : StoreError) : CardResponse :=
  match e with
  | StoreError.UnsupportedEventType => CardError 422 $"unknown_event_type" $"Unsupported partner event type."
  | StoreError.AmountExceedsAvailable =>
      CardError 422 $"amount_exceeds_available" $"Captured amount exceeds the available hold."
  | StoreError.RefundExceedsCaptured =>
      CardError 422 $"refund_exceeds_captured" $"Refund exceeds the amount already captured."
  | StoreError.FiatAmountMismatch =>
      CardError 422 $"fiat_amount_mismatch"
        $"Webhook fiat amount differs from the locked authorization by more than one minor unit."
  | StoreError.HoldNotFound => CardError 422 $"hold_not_found" $"No active hold exists to reverse."
  | _ => CardError 500 $"partner_event_failed" $"Partner event could not be applied."
  end.

(** The store operation of an event; [inl] is an early response. *)
Definition apply_partner_event (p : PartnerEventRequest) :
    Prog Reply (CardResponse + Result AuthorizationRecord StoreError) :=
  let id := pe_authorization_id p in
  let amount := default 0 (pe_amount_stroops p) in
  if bool_decide (pe_event_type p = $"authorization") then
    found ⇐ call (KAuthorization id);
    match found with
    | Some record => Return (inr (Ok record))
    | None =>
        r ⇐ call (KApprove id $"partner-event" amount (default 0 (pe_fiat_amount p))
                    (default [] (pe_fiat_currency p)) (default fzero (pe_rate p)) (default 0 (pe_rate_locked_at p)));
        Return (inr r)
    end
  else if bool_decide (pe_event_type p = $"clearing") then
    found ⇐ call (KAuthorization id);
    match found with
    | None =>
        Return (inl (CardError 422 $"authorization_not_found" $"Authorization was not found for clearing."))
    | Some auth =>
        difference ⇐ or_panic (arith checks (default (fiat_amount auth) (pe_fiat_amount p) - fiat_amount auth));
        magnitude ⇐ or_panic (arith checks (Z.abs difference));
        if 1 <? magnitude then
          Return (inl (CardError 422 $"fiat_amount_mismatch"
            $"Webhook fiat amount differs from the locked authorization by more than one minor unit."))
        else r ⇐ call (KCapture id amount); Return (inr r)
    end
  else if bool_decide (pe_event_type p = $"reversal") then r ⇐ call (KReverse id); Return (inr r)
  else if bool_decide (pe_event_type p = $"refund") then r ⇐ call (KRefund id amount); Return (inr r)
  else Return (inr (Err StoreError.UnsupportedEventType)).

Definition handle_partner_event (p : PartnerEventRequest) : Prog Reply CardResponse :=
  if negb enabled then Return NotFound404
  else
  let record := mkPartnerEventRecord (pe_event_id p) (Some (pe_event_type p))
    (event_payload (pe_authorization_id p) (pe_event_id p) (pe_event_type p) (pe_amount_stroops p) (pe_payload p)) in
  fresh ⇐ call (KInsertEvent record);
  if negb fresh then Return (EventDuplicate (pe_event_id p) (pe_event_type p) (pe_authorization_id p))
  else
  outcome ⇐ apply_partner_event p;
  match outcome with
  | inl response => Return response
  | inr (Ok record) =>
      held ⇐ call (KHeld (authorization_id record));
      Return (EventApplied (pe_event_id p) (pe_event_type p) record held)
  | inr (Err e) => Return (partner_event_error e)
  end.

Definition record_authorization (p : CardAuthorizationRequest) : Prog Reply CardResponse :=
  if negb enabled then Return NotFound404
  else
  is_frozen ⇐ call KIsFrozen;
  if is_frozen : bool then
    Return (CardError 403 $"frozen" $"Card program is frozen; new authorizations are rejected.")
  else
  r ⇐ call (KApprove (ar_authorization_id p) (ar_tx_hash p) (ar_amount_stroops p) (default 0 (ar_fiat_amount p))
              (default [] (ar_fiat_currency p)) (default fzero (ar_rate p)) (default 0 (ar_rate_locked_at p)));
  match r with
  | Ok record =>
      held ⇐ call (KHeld (authorization_id record));
      Return (AuthorizationApproved record held)
  | Err StoreError.AlreadyApproved =>
      Return (CardError 409 $"already_approved" $"Authorization is already approved.")
  | Err StoreError.TxAlreadyUsed =>
      Return (CardError 409 $"tx_already_used" $"This transaction hash has already been used.")
  | Err _ => Return (CardError 500 $"authorization_failed" $"Authorization could not be recorded.")
  end.

Inductive Handler :=
| HFreeze
| HUnfreeze
| HList
| HPartnerEvent (p : PartnerEventRequest)
| HAuthorization (p : CardAuthorizationRequest).

Definition program (hd : Handler) : Prog Reply unit :=
  match hd with
  | HFreeze => task freeze_card
  | HUnfreeze => task unfreeze_card
  | HList => task list_authorizations_handler
  | HPartnerEvent p => task (handle_partner_event p)
  | HAuthorization p => task (record_authorization p)
  end.

End Store.
