(* ===== verification/CardProps.v ===== *)
(** * The card program: money is conserved

    The ledger keeps its total and never overflows; the spending limit is exact; the
    store, under any interleaving of the handlers, keeps for each authorization what is
    held and what is spent equal to what was approved, as the calls and their replies
    say. *)

From stdpp Require Import base decidable strings numbers list gmap.
From Stdlib Require Import ZArith Lia.
From S2P Require Import Prelude RustStr Result F64 Tasks Card CardStore.

Local Open Scope Z_scope.
Local Open Scope str_scope.
Local Open Scope record_scope.

Lemma fits_between z m : 0 ≤ z ≤ m → m ≤ int_max I64 → fits I64 z.
Proof. unfold fits. cbn [int_min]. lia. Qed.

(** ** The ledger *)

Inductive LedgerOp :=
| OpHold (amount : Z)
| OpCapture (amount : Z)
| OpRelease (amount : Z).

Definition ledger_op (checks : bool) (op : LedgerOp) (l : CardLedger) : LedgerResult :=
  match op with
  | OpHold amount => hold checks l amount
  | OpCapture amount => capture checks l amount
  | OpRelease amount => release checks l amount
  end.

(** A run of operations; one that is refused leaves the ledger as it is. *)
Fixpoint ledger_ops (checks : bool) (ops : list LedgerOp) (l : CardLedger) : option CardLedger :=
  match ops with
  | [] => Some l
  | op :: ops' =>
      match ledger_op checks op l with
      | Some (Ok l') => ledger_ops checks ops' l'
      | Some (Err _) => ledger_ops checks ops' l
      | None => None
      end
  end.

Definition total (l : CardLedger) : Z := available l + held l + spent l.

Record ledger_sound (l : CardLedger) : Prop := {
  ls_available : 0 ≤ available l;
  ls_held : 0 ≤ held l;
  ls_spent : 0 ≤ spent l;
  ls_total : total l ≤ int_max I64;
}.

Lemma ledger_op_sound op l :
  ledger_sound l → (∃ l', (∀ checks, ledger_op checks op l = Some (Ok l')) ∧ ledger_sound l' ∧ total l' = total l) ∨
                   (∃ e, ∀ checks, ledger_op checks op l = Some (Err e)).
Proof.
  intros [Ha Hh Hs Ht]. unfold total in Ht. destruct op as [z|z|z]; cbn; unfold hold, capture, release.
  all: destruct (Z.ltb_spec z 0); [right; eexists; done|].
  all: match goal with |- context [?x <? ?y] => destruct (Z.ltb_spec x y) end; [right; eexists; done|].
  all: left; eexists; split; [intros checks; rewrite !plain_fits by (eapply fits_between; [|exact Ht]; lia); reflexivity|].
  all: split; [split; cbn [available held spent]; unfold total; cbn [available held spent]; lia|unfold total; cbn [available held spent]; lia].
Qed.

(** C35: the ledger conserves money. From a new ledger, after any operations with any amounts,
    none of which can panic or wrap around whether or not overflow checks are on, the
    available, held and spent amounts are non-negative and sum to the amount it was
    opened with. *)
Theorem ledger_conserves funds ops l0 :
  ledger_new funds = Ok l0 → funds ≤ int_max I64 →
  ∃ l, (∀ checks, ledger_ops checks ops l0 = Some l) ∧ ledger_sound l ∧ total l = funds.
Proof.
  unfold ledger_new. destruct (Z.ltb_spec funds 0); [done|]. intros [= <-] Hm.
  assert (Hl : ledger_sound (mkCardLedger funds 0 0) ∧ total (mkCardLedger funds 0 0) = funds).
  { split; [split|]; unfold total; cbn [available held spent]; lia. }
  revert Hl. generalize (mkCardLedger funds 0 0). induction ops as [|op ops IH]; intros l [Hl Ht]; [by exists l|].
  cbn [ledger_ops]. destruct (ledger_op_sound op l Hl) as [(l' & E & Hl' & Ht')|(e & E)].
  - destruct (IH l') as (l'' & E' & H'); [split; [done|congruence]|]. exists l''. split; [|done].
    intros checks. by rewrite E.
  - destruct (IH l (conj Hl Ht)) as (l'' & E' & H'). exists l''. split; [|done]. intros checks. by rewrite E.
Qed.

Lemma ledger_conserves_witness : ∃ l,
  (∀ checks, ledger_ops checks [OpHold 70; OpCapture 50; OpHold 40; OpRelease 20] (mkCardLedger 100 0 0) = Some l) ∧
  ledger_sound l ∧ total l = 100.
Proof. apply (ledger_conserves 100); [reflexivity|vm_compute; discriminate]. Defined.

(** ** Spending limits *)

Definition in_window (limit : SpendingLimit) (now_secs : Z) (p : Z * Z) : bool :=
  (saturating_sub U64 now_secs (window_seconds limit) <=? p.2) && (p.2 <=? now_secs).

(** What was authorized inside the window. *)
Definition used (limit : SpendingLimit) (prior : list (Z * Z)) (now_secs : Z) : Z :=
  sum_of (λ p, if in_window limit now_secs p then p.1 else 0) prior.

Lemma saturating_fold limit now prior t :
  Forall (λ p, 0 ≤ p.1) prior → 0 ≤ t →
  fold_left (λ total '(amount, timestamp),
    if (saturating_sub U64 now (window_seconds limit) <=? timestamp) && (timestamp <=? now)
    then saturating_add I64 total amount else total) prior (Z.min (int_max I64) t) =
  Z.min (int_max I64) (t + used limit prior now).
Proof.
  intros Hp. revert t. induction Hp as [|[a ts] prior Ha _ IH]; intros t Ht; [by cbn; rewrite Z.add_0_r|].
  cbn [fold_left]. unfold used, sum_of in *. cbn [foldr fst snd] in *. unfold in_window at 1. cbn [fst snd].
  destruct (_ && _); cbn [fst] in *; [|by rewrite Z.add_0_l; apply IH].
  replace (saturating_add I64 _ a) with (Z.min (int_max I64) (t + a)).
  { rewrite IH by lia. by rewrite Z.add_assoc. }
  unfold saturating_add, clamp. assert (int_min I64 < 0 < int_max I64) by done. lia.
Qed.

(** a spending limit is exact: with non-negative amounts, and a limit that is not the
    largest number, a payment is allowed if and only if it and all that was authorized in
    the window are together within the limit. Sums that leave the range of the type do not
    change the answer, nor does the order in which the map is read. *)
Theorem check_limit_exact limit prior new_amount now :
  Forall (λ p, 0 ≤ p.1) prior → 0 ≤ new_amount → limit_stroops limit < int_max I64 →
  check_limit limit prior new_amount now = Allowed ↔ used limit prior now + new_amount ≤ limit_stroops limit.
Proof.
  intros Hp Hn Hl. unfold check_limit. pose proof (saturating_fold limit now prior 0 Hp ltac:(done)) as E.
  change (Z.min (int_max I64) 0) with 0 in E. rewrite E. clear E.
  assert (Hu : 0 ≤ used limit prior now).
  { apply sum_of_nonneg. intros p Hin. rewrite Forall_forall in Hp. specialize (Hp p Hin). destruct (in_window _ _ _); cbn in *; lia. }
  assert (Hm : int_min I64 < 0 < int_max I64) by done.
  unfold saturating_add, clamp. destruct (Z.ltb_spec (limit_stroops limit)
    (Z.max (int_min I64) (Z.min (Z.min (int_max I64) (0 + used limit prior now) + new_amount) (int_max I64)))); split; try done; lia.
Qed.

Lemma check_limit_exact_witness :
  check_limit (mkSpendingLimit 1000 3600) [(400, 9000); (9223372036854775807, 100); (350, 9500)] 250 10000 = Allowed ∧
  used (mkSpendingLimit 1000 3600) [(400, 9000); (9223372036854775807, 100); (350, 9500)] 10000 + 250 ≤ 1000.
Proof.
  pose proof (check_limit_exact (mkSpendingLimit 1000 3600) [(400, 9000); (9223372036854775807, 100); (350, 9500)] 250 10000) as Hx.
  split; [vm_compute; reflexivity|].
  apply Hx; [repeat constructor; vm_compute; discriminate|vm_compute; discriminate|vm_compute; reflexivity|vm_compute; reflexivity].
Defined.

(** ** The store under interleaved handlers *)

Section Card.

Context {J : Json}.
Variables checks enabled : bool.

Local Abbreviation exec := (exec checks).
Local Abbreviation program := (program checks enabled).
Local Abbreviation World := CardWorld.

(** The calls that are considered: amounts are non-negative numbers of the type. *)
Definition proper_amount (z : Z) : Prop := 0 ≤ z ≤ int_max I64.

Definition proper_call (c : Call) : Prop :=
  match c with
  | KApprove _ _ a _ _ _ _ | KCapture _ a | KRefund _ a => proper_amount a
  | _ => True
  end.

#[export] Instance proper_call_dec c : Decision (proper_call c).
Proof. destruct c; cbn; unfold proper_amount; apply _. Defined.

Definition proper (h : list (Event Reply)) : Prop := Forall (λ e, proper_call (e_call e)) h.

(** The account of an authorization as the successful calls tell it: what was approved
    and what of it is spent. An approval opens the account anew, and a reversal closes it
    at zero, whatever was captured ([reversal_forgets_capture], [approved_again]). *)
Definition entry (id : Str) (e : Event Reply) (acc : option (Z * Z)) : option (Z * Z) :=
  match e with
  | Happened (KApprove id' _ a _ _ _ _) (Ok _) => if bool_decide (id' = id) then Some (a, 0) else acc
  | Happened (KCapture id' a) (Ok _) => if bool_decide (id' = id) then (λ p, (p.1, p.2 + a)) <$> acc else acc
  | Happened (KRefund id' a) (Ok _) => if bool_decide (id' = id) then (λ p, (p.1, p.2 - a)) <$> acc else acc
  | Happened (KReverse id') (Ok _) => if bool_decide (id' = id) then Some (0, 0) else acc
  | _ => acc
  end.

Definition account (id : Str) (h : list (Event Reply)) : option (Z * Z) := foldr (entry id) None h.

(** The events that were new when they came. *)
Definition taken (e : Event Reply) : option Str :=
  match e with
  | Happened (KInsertEvent p) true => Some (p_event_id p)
  | _ => None
  end.

Definition taken_events (h : list (Event Reply)) : list Str := omap taken h.

Definition booked (r : AuthorizationRecord) : Z * Z := (a_amount r, a_spent r).

(** An authorization in the store. *)
Record kept (i : Inner) (id : Str) (r : AuthorizationRecord) : Prop := {
  kept_id : authorization_id r = id;
  kept_tx : tx_to_auth i !! a_tx_hash r = Some id;
  kept_hold : current_hold i id r = held_for id i;
  kept_held : 0 ≤ held_for id i;
  kept_spent : 0 ≤ a_spent r;
  kept_sum : held_for id i + a_spent r = a_amount r;
  kept_max : a_amount r ≤ int_max I64;
}.

Record in_balance (w : World) (h : list (Event Reply)) : Prop := {
  ib_kept id r : authorizations (inner w) !! id = Some r → kept (inner w) id r;
  ib_account id : booked <$> authorizations (inner w) !! id = account id h;
  ib_events : NoDup (taken_events h) ∧ ∀ id, id ∈ taken_events h → is_Some (events (inner w) !! id);
}.

(** Operations on one authorization leave the others alone. *)
Lemma kept_other i i' id r :
  holds i' !! id = holds i !! id → tx_to_auth i ⊆ tx_to_auth i' → kept i id r → kept i' id r.
Proof.
  intros Hh Htx []. split; unfold held_for, current_hold in *; rewrite ?Hh; try done. by eapply lookup_weaken.
Qed.

Lemma kept_write i id hold r :
  authorization_id r = id → tx_to_auth i !! a_tx_hash r = Some id → 0 ≤ hold → 0 ≤ a_spent r →
  hold + a_spent r = a_amount r → a_amount r ≤ int_max I64 → kept (write i id hold r) id r.
Proof. intros. split; try done; unfold held_for, current_hold; cbn; rewrite lookup_insert_eq; done. Qed.

(** What a store operation may do: it leaves the books in balance, with the account of
    the authorization it is about as given, and does not touch the events. *)
Record books (i i' : Inner) (id : Str) (acc : option (Z * Z)) : Prop := {
  bk_kept id' r : authorizations i' !! id' = Some r → kept i' id' r;
  bk_this : booked <$> authorizations i' !! id = acc;
  bk_other id' : id' ≠ id → authorizations i' !! id' = authorizations i !! id';
  bk_events : events i' = events i;
}.

Definition all_kept (i : Inner) : Prop := ∀ id r, authorizations i !! id = Some r → kept i id r.

Lemma books_same i id : all_kept i → books i i id (booked <$> authorizations i !! id).
Proof. by split. Qed.

Lemma books_write i id hold r acc :
  all_kept i → kept (write i id hold r) id r → Some (booked r) = acc → books i (write i id hold r) id acc.
Proof.
  intros Hk Hr <-. split; [|by cbn; rewrite lookup_insert_eq|intros; cbn; by rewrite lookup_insert_ne|done].
  intros id' r' H'. cbn in H'. destruct (decide (id' = id)) as [->|Hne].
  - rewrite lookup_insert_eq in H'. by simplify_eq.
  - rewrite lookup_insert_ne in H' by done. apply (kept_other i); [|done|by apply Hk].
    cbn. by rewrite lookup_insert_ne.
Qed.

Lemma approve_books id tx a f cur rt l i :
  all_kept i → proper_amount a →
  let '(r, i') := approve_and_hold_with_fx id tx a f cur rt l i in
  books i i' id match r with Ok _ => Some (a, 0) | Err _ => booked <$> authorizations i !! id end.
Proof.
  intros Hk Ha. unfold approve_and_hold_with_fx. destruct (bool_decide (default id _ = id)) eqn:Etx; cbn [negb]; [|by apply books_same].
  apply bool_decide_eq_true in Etx.
  destruct (bool_decide (state <$> _ = _)); [by apply books_same|].
  split; [|by cbn; rewrite lookup_insert_eq|intros; cbn; by rewrite lookup_insert_ne|done].
  assert (Htx : tx_to_auth i ⊆ <[tx := id]> (tx_to_auth i)).
  { destruct (tx_to_auth i !! tx) as [id0|] eqn:E; [cbn in Etx; subst id0; by rewrite insert_id|by apply insert_subseteq]. }
  intros id' r' H'. cbn in H'. destruct (decide (id' = id)) as [->|Hne].
  - rewrite lookup_insert_eq in H'. simplify_eq. destruct Ha.
    split; unfold held_for, current_hold; cbn; rewrite ?lookup_insert_eq; cbn; lia || done.
  - rewrite lookup_insert_ne in H' by done. apply (kept_other i); [|exact Htx|by apply Hk].
    cbn. by rewrite lookup_insert_ne.
Qed.

Lemma capture_books id a i :
  all_kept i → proper_amount a →
  ∃ r i', capture_hold checks id a i = Some (r, i') ∧
    books i i' id match r with
                  | Ok _ => (λ p, (p.1, p.2 + a)) <$> (booked <$> authorizations i !! id)
                  | Err _ => booked <$> authorizations i !! id
                  end.
Proof.
  intros Hk Ha. unfold capture_hold. destruct (authorizations i !! id) as [r|] eqn:E.
  2:{ eexists _, i. split; [done|]. rewrite <- E. by apply books_same. }
  destruct (Hk _ _ E) as [Hid Htx Eh Hh Hs Hsum Hm]. destruct Ha. rewrite Eh. destruct (Z.ltb_spec (held_for id i) a).
  { eexists _, i. split; [done|]. rewrite <- E. by apply books_same. }
  rewrite !plain_fits by (eapply fits_between; [|exact Hm]; lia).
  eexists _, _. split; [done|]. apply books_write; [done| |done]. apply kept_write; cbn; done || lia.
Qed.

Lemma refund_books id a i :
  all_kept i → proper_amount a →
  ∃ r i', refund_hold checks id a i = Some (r, i') ∧
    books i i' id match r with
                  | Ok _ => (λ p, (p.1, p.2 - a)) <$> (booked <$> authorizations i !! id)
                  | Err _ => booked <$> authorizations i !! id
                  end.
Proof.
  intros Hk Ha. unfold refund_hold. destruct (authorizations i !! id) as [r|] eqn:E.
  2:{ eexists _, i. split; [done|]. rewrite <- E. by apply books_same. }
  destruct (Hk _ _ E) as [Hid Htx Eh Hh Hs Hsum Hm]. destruct Ha. rewrite Eh. destruct (Z.ltb_spec (a_spent r) a).
  { eexists _, i. split; [done|]. rewrite <- E. by apply books_same. }
  rewrite !plain_fits by (eapply fits_between; [|exact Hm]; lia).
  eexists _, _. split; [done|]. apply books_write; [done| |done]. apply kept_write; cbn; done || lia.
Qed.

Lemma reverse_books id i :
  all_kept i →
  let '(r, i') := reverse_hold id i in
  books i i' id match r with Ok _ => Some (0, 0) | Err _ => booked <$> authorizations i !! id end.
Proof.
  intros Hk. unfold reverse_hold. destruct (authorizations i !! id) as [r|] eqn:E.
  2:{ rewrite <- E. by apply books_same. }
  destruct (_ =? 0); [rewrite <- E; by apply books_same|]. destruct (Hk _ _ E) as [Hid Htx _ _ _ _ _].
  split; [|by cbn; rewrite lookup_insert_eq|intros; cbn; by rewrite lookup_insert_ne|done].
  intros id' r' H'. cbn in H'. destruct (decide (id' = id)) as [->|Hne].
  - rewrite lookup_insert_eq in H'. simplify_eq/=.
    split; unfold held_for, current_hold; cbn; rewrite ?lookup_delete_eq; cbn; done.
  - rewrite lookup_insert_ne in H' by done. apply (kept_other i); [|done|by apply Hk].
    cbn. by rewrite lookup_delete_ne.
Qed.

(** *** The protocol *)

Lemma balance_books w h i' id acc e fr :
  in_balance w h → books (inner w) i' id acc → entry id e (account id h) = acc →
  (∀ id', id' ≠ id → entry id' e (account id' h) = account id' h) → taken e = None →
  in_balance (mkCardWorld i' fr) (e :: h).
Proof.
  intros [Hk Ha He] [Bk Bt Bo Be] Hacc Hoth Ht. split; cbn [inner].
  - exact Bk.
  - intros id'. change (account id' (e :: h)) with (entry id' e (account id' h)).
    destruct (decide (id' = id)) as [->|Hne]; [congruence|]. rewrite Bo, Hoth by done. apply Ha.
  - unfold taken_events in *. cbn. by rewrite Ht, Be.
Qed.

(** A call that changes nothing but, perhaps, the events. *)
Lemma balance_same w h e i' fr :
  in_balance w h → (∀ id, entry id e (account id h) = account id h) →
  authorizations i' = authorizations (inner w) → holds i' = holds (inner w) → tx_to_auth i' = tx_to_auth (inner w) →
  NoDup (taken_events (e :: h)) ∧ (∀ id, id ∈ taken_events (e :: h) → is_Some (events i' !! id)) →
  in_balance (mkCardWorld i' fr) (e :: h).
Proof.
  intros [Hk Ha He] Hent E1 E2 E3 Hev. split; cbn [inner]; [| |done].
  - intros id r. rewrite E1. intros Hr. apply (kept_other (inner w)); [by rewrite E2|by rewrite E3|by apply Hk].
  - intros id. rewrite E1. change (account id (e :: h)) with (entry id e (account id h)). by rewrite Hent.
Qed.

(** A refused event was taken before, a new one was not. *)
Lemma balance_event p w h b i' fr :
  in_balance w h → insert_partner_event p (inner w) = (b, i') →
  in_balance (mkCardWorld i' fr) (Happened (KInsertEvent p) b :: h).
Proof.
  intros Hb. pose proof (ib_events _ _ Hb) as [Hn Hin]. unfold insert_partner_event. case_bool_decide as Hs; intros [= <- <-].
  - by apply (balance_same w).
  - apply (balance_same w); try done. unfold taken_events. cbn. split.
    + apply NoDup_cons. split; [|done]. intros Hm. by apply Hs, Hin.
    + intros id [->|Hi]%elem_of_cons; [rewrite lookup_insert_eq; eauto|].
      destruct (decide (id = p_event_id p)) as [->|]; [rewrite lookup_insert_eq; eauto|]. rewrite lookup_insert_ne by done. by apply Hin.
Qed.

Lemma entry_other id e acc :
  match e_call e with
  | KApprove id' _ _ _ _ _ _ | KCapture id' _ | KRefund id' _ | KReverse id' => id ≠ id'
  | _ => True
  end → entry id e acc = acc.
Proof. destruct e as [[] r]; cbn; try done; destruct r; try done; intros; rewrite bool_decide_false; congruence. Qed.

Lemma balance_call o c w h r w' :
  in_balance w h → proper_call c → exec o c w = Some (r, w') → in_balance w' (Happened c r :: h).
Proof.
  intros Hb Hp Hx. pose proof (ib_kept _ _ Hb) as Hk. pose proof (ib_account _ _ Hb) as Ha.
  destruct w as [i fr], c; cbn in *; unfold on_inner in Hx; simplify_eq/=.
  - by eapply balance_same; [exact Hb|..]; try apply (ib_events _ _ Hb).
  - by eapply balance_same; [exact Hb|..]; try apply (ib_events _ _ Hb).
  - by eapply balance_same; [exact Hb|..]; try apply (ib_events _ _ Hb).
  - by eapply balance_event; [exact Hb|apply surjective_pairing].
  - by eapply balance_same; [exact Hb|..]; try apply (ib_events _ _ Hb).
  - pose proof (approve_books id tx_hash amount fiat currency rate rate_locked_at i Hk Hp) as B.
    destruct (approve_and_hold_with_fx _ _ _ _ _ _ _ _) as [r i']. cbn.
    eapply balance_books; [done|exact B| |by intros; apply entry_other|by destruct r].
    cbn. rewrite bool_decide_true by done. rewrite Ha. by destruct r.
  - destruct (capture_books id amount i Hk Hp) as (r0 & i' & E & B). rewrite E in Hx. simplify_eq/=.
    eapply balance_books; [done|exact B| |by intros; apply entry_other|by destruct r].
    cbn. rewrite bool_decide_true by done. rewrite Ha. by destruct r.
  - pose proof (reverse_books id i Hk) as B. destruct (reverse_hold id i) as [r i']. cbn.
    eapply balance_books; [done|exact B| |by intros; apply entry_other|by destruct r].
    cbn. rewrite bool_decide_true by done. rewrite Ha. by destruct r.
  - destruct (refund_books id amount i Hk Hp) as (r0 & i' & E & B). rewrite E in Hx. simplify_eq/=.
    eapply balance_books; [done|exact B| |by intros; apply entry_other|by destruct r].
    cbn. rewrite bool_decide_true by done. rewrite Ha. by destruct r.
  - by eapply balance_same; [exact Hb|..]; try apply (ib_events _ _ Hb).
Qed.

Definition card_world : World := mkCardWorld empty_inner false.

(** Every call is permitted; the amounts of the history are proper. *)
#[export] Program Instance card_protocol : Protocol exec card_world := {|
  admitted := proper;
  permitted _ _ := True;
  replied _ _ := True;
  invariant := in_balance;
|}.
Next Obligation. intros e h. apply Forall_inv_tail. Qed.
Next Obligation. done. Qed.
Next Obligation. split; [done|done|]. split; [constructor|]. by intros id ?%elem_of_nil. Qed.
Next Obligation.
  intros o c w h r w' Hb Hp _ Hx. split; [|done]. eapply balance_call; [done|by apply Forall_inv in Hp|done].
Qed.

Lemma card_safe A (p : Prog Reply A) h : safe exec card_world p h (λ _ _, True).
Proof. revert h; induction p as [a| |c k IH]; cbn; intros h; [done..|]. split; [done|]. intros. apply IH. Qed.

Local Abbreviation reachable := (reachable exec program card_world).

Lemma card_balance S : reachable S → proper (history S) → in_balance (world S) (history S).
Proof. intros Hr Hp. by apply (tasks_invariant exec program card_world S (λ hd h, card_safe _ _ h) Hr Hp). Qed.

(** C16: authorizations stay in balance. However the handlers interleave and whatever they are
    asked, as long as the amounts of approvals, captures and refunds are numbers from 0 to
    the maximum of [i64]: each authorization has its own payment hash; the hold that is
    reported and the spent amount are non-negative and sum to the amount on record; that
    amount is the one of the last successful approval, and the spent amount is what was
    captured less what was refunded since then, except that after a successful reversal
    both start over from zero; and no event identifier was accepted twice. Money that was
    captured before such an approval or reversal is not counted any more. *)
Theorem authorizations_balance S :
  reachable S → proper (history S) → NoDup (taken_events (history S)) ∧
  ∀ id r, authorizations (inner (world S)) !! id = Some r →
    account id (history S) = Some (a_amount r, a_spent r) ∧
    0 ≤ held_for id (inner (world S)) ∧ 0 ≤ a_spent r ∧ held_for id (inner (world S)) + a_spent r = a_amount r ∧
    ∀ id' r', authorizations (inner (world S)) !! id' = Some r' → a_tx_hash r' = a_tx_hash r → id' = id.
Proof.
  intros Hr Hp. pose proof (card_balance S Hr Hp) as [Hk Ha [Hn _]]. split; [done|].
  intros id r Hid. destruct (Hk _ _ Hid) as [_ Htx _ Hh Hs Hsum _]. split_and!; try done.
  - rewrite <- Ha, Hid. done.
  - intros id' r' Hid' E. pose proof (kept_tx _ _ _ (Hk _ _ Hid')) as Htx'. rewrite E in Htx'. congruence.
Qed.

(** No store operation panics: in every state that is reached, a call with a proper amount
    gets a reply, whether or not overflow checks are on. *)
Theorem card_calls_total S o c :
  reachable S → proper (history S) → proper_call c → is_Some (exec o c (world S)).
Proof.
  intros Hr Hp Hc. pose proof (ib_kept _ _ (card_balance S Hr Hp)) as Hk. destruct c; cbn; eauto.
  - destruct (capture_books id amount _ Hk Hc) as (r & i' & -> & _). by eexists.
  - destruct (refund_books id amount _ Hk Hc) as (r & i' & -> & _). by eexists.
Qed.

End Card.

(** ** Runs *)

Definition plain_json : Json := {| Value := unit; event_payload _ _ _ _ _ := tt |}.

#[local] Existing Instance plain_json.

Definition authorization_request (id tx : Str) (amount : Z) : CardAuthorizationRequest :=
  mkCardAuthorizationRequest id tx amount None None None None.

Definition event_request (event_id event_type id : Str) (amount : Z) : PartnerEventRequest :=
  mkPartnerEventRequest event_id event_type id (Some amount) None None None None None.

(** An authorization of 100, of which 60 are cleared while the partner repeats the event,
    and 20 refunded. *)
Definition card_run : list (Move (Oracle := unit)) :=
  [Start (HAuthorization (authorization_request $"a" $"tx" 100)); Run 0 tt; Run 0 tt; Run 0 tt;
   Start (HPartnerEvent (event_request $"e1" $"clearing" $"a" 60));
   Start (HPartnerEvent (event_request $"e1" $"clearing" $"a" 60));
   Run 1 tt; Run 0 tt; Run 1 tt; Run 1 tt;
   Start (HPartnerEvent (event_request $"e2" $"refund" $"a" 20)); Run 0 tt; Run 0 tt].

Definition card_state := after (CardStore.exec true) (CardStore.program true true) card_world card_run.

Lemma card_state_reachable : reachable (CardStore.exec true) (CardStore.program true true) card_world card_state.
Proof. apply after_reachable. Qed.

Lemma card_state_proper : proper (history card_state).
Proof. apply (bool_decide_unpack _). vm_compute. exact I. Qed.

Lemma card_state_account : account $"a" (history card_state) = Some (100, 40).
Proof. vm_compute. reflexivity. Qed.

Lemma authorizations_balance_witness :
  NoDup (taken_events (history card_state)) ∧ length (taken_events (history card_state)) = 2%nat ∧
  held_for $"a" (inner (world card_state)) = 60.
Proof.
  split; [|split; vm_compute; reflexivity].
  apply (authorizations_balance true true card_state card_state_reachable card_state_proper).
Defined.

Lemma card_calls_total_witness : is_Some (CardStore.exec true tt (KCapture $"a" 60) (world card_state)).
Proof.
  apply (card_calls_total true true card_state tt (KCapture $"a" 60) card_state_reachable card_state_proper).
  split; vm_compute; discriminate.
Defined.

(** *** What the store does not prevent *)

Definition serve {A} (p : Prog Reply A) (w : CardWorld) : option (A * CardWorld) := run_alone (CardStore.exec true) (replicate 10 tt) p w.

(** The responses of a sequence of handlers, and the held and spent amounts at the end. *)
Fixpoint serve_all (ps : list (Prog Reply CardResponse)) (w : CardWorld) : option (list CardResponse * CardWorld) :=
  match ps with
  | [] => Some ([], w)
  | p :: ps' =>
      match serve p w with
      | Some (a, w') => (λ r, (a :: r.1, r.2)) <$> serve_all ps' w'
      | None => None
      end
  end.

Definition status (r : CardResponse) : Str :=
  match r with
  | NotFound404 => $"not_found"
  | CardError _ code _ => code
  | FrozenStatus _ => $"frozen_status"
  | AuthorizationList _ => $"list"
  | AuthorizationApproved _ _ => $"approved"
  | EventDuplicate _ _ _ => $"duplicate"
  | EventApplied _ _ _ _ => $"applied"
  end.

Definition outcome (id : Str) (ps : list (Prog Reply CardResponse)) : option (list Str * Z * option Z) :=
  match serve_all ps card_world with
  | Some (rs, w) => Some (status <$> rs, held_for id (inner w), a_spent <$> authorizations (inner w) !! id)
  | None => None
  end.

Local Abbreviation post_event := (λ eid kind id amount, handle_partner_event true true (event_request eid kind id amount)).
Local Abbreviation post_authorization := (λ id tx amount, record_authorization true (authorization_request id tx amount)).

(** A captured authorization can be approved again with the payment it already used: the
    full amount is held again, and what was spent is forgotten. *)
Example approved_again :
  outcome $"a" [post_authorization $"a" $"tx" 100; post_event $"e1" $"clearing" $"a" 100;
                post_authorization $"a" $"tx" 100] =
  Some ([$"approved"; $"applied"; $"approved"], 100, Some 0).
Proof. vm_compute. reflexivity. Qed.

(** An event that failed is recorded, and its retry is answered as a success without
    being applied. *)
Example failed_event_not_retried :
  outcome $"a" [post_event $"e1" $"clearing" $"a" 100; post_authorization $"a" $"tx" 100;
                post_event $"e1" $"clearing" $"a" 100] =
  Some ([$"authorization_not_found"; $"approved"; $"duplicate"], 100, Some 0).
Proof. vm_compute. reflexivity. Qed.

(** All authorizations that the partner announces share one payment hash: only the first
    is accepted. *)
Example second_announcement_fails :
  outcome $"b" [post_event $"e1" $"authorization" $"a" 100; post_event $"e2" $"authorization" $"b" 50] =
  Some ([$"applied"; $"partner_event_failed"], 0, None).
Proof. vm_compute. reflexivity. Qed.

(** A clearing with a negative amount raises the hold above what was approved. *)
Example negative_clearing :
  outcome $"a" [post_authorization $"a" $"tx" 100; post_event $"e1" $"clearing" $"a" (-900)] =
  Some ([$"approved"; $"applied"], 1000, Some (-900)).
Proof. vm_compute. reflexivity. Qed.

(** A reversal forgets what was captured: of 100 approved and 60 cleared, nothing is
    recorded as spent once the rest is reversed. *)
Example reversal_forgets_capture :
  outcome $"a" [post_authorization $"a" $"tx" 100; post_event $"e1" $"clearing" $"a" 60;
                post_event $"e2" $"reversal" $"a" 0] =
  Some ([$"approved"; $"applied"; $"applied"], 0, Some 0).
Proof. vm_compute. reflexivity. Qed.
